(* ===== verification/_CoqProject ===== *)
-Q . S2P
Prelude.v
Box.v
TimerHeap.v
Keyboard.v
KeyBinding.v
Ssd.v
Window.v
Windows.v
WindowFacts.v
KeptFields.v
Workspaces.v
Focus.v
SessionLock.v
Stacking.v
Placement.v
Motion.v
Divergences.v
Serials.v
Seat.v
SeatPointer.v
SeatTouch.v
Desktop.v
Pointer.v
PointerSteps.v
Touch.v
LockScreen.v
InputMethod.v
InputMethodFacts.v
Clipboard.v
ClipboardFacts.v
AppSwitcher.v
Overview.v
Layers.v
LayerShell.v
KeyRouting.v
RingBuffer.v
ObjectMap.v
Connection.v
Marshal.v
RoundTrip.v
Delivery.v
Signals.v
Events.v
Server.v
