(* ===== verification/Prelude.v ===== *)
(** * FlakeWM: a Wayland compositor and the C libraries it is built on

    FlakeWM (src/src, C++) is a Wayland compositor on top of vendored C libraries
    (src/libs: wlroots, libwayland, xkbcommon, pixman, libdrm). This library
    models the logic that decides what the user sees and where input goes, and
    the pieces of the C libraries that this logic rests on.

    ** The program and its parts

    A [wl_event_loop] (libwayland, event-loop.c) drives everything: input devices
    of wlroots report keys, pointer motion and touches, clients commit surfaces,
    timers fire. [CompositorPrivate] (core/compositor_private) owns the windows
    ([Toplevel]), the outputs, the seat and the workspaces; it decides focus,
    stacking, placement and the state of windows. [KeyBindingManager]
    (input/key_binding_manager) sees keys before clients do. [Ssd] (view/ssd/ssd)
    is the decoration of a window. [ProtocolManager] (protocol/protocol_manager)
    turns requests of shell protocols into window operations and holds the
    session lock. Views (switchers, overviews, menus) and D-Bus services sit
    around this core and are told about changes.

    ** Files

    - [Prelude]: machine integers, strings, flags, record updates
      ([r <{ field := v }>]), tactics and lemmas shared by all files.
    - [Box]: wlr_box, wlr_fbox and output transforms (libs/wlroots/util/box.c,
      transform.c), every function.
    - [TimerHeap]: the timers of the event loop (libs/wayland/src/event-loop.c):
      the binary heap over timer objects, arming, removing and dispatching.
    - [Keyboard]: wlr_keyboard and the key sets it uses
      (libs/wlroots/types/wlr_keyboard.c, util/set.c), and the key counting of
      keyboard groups (types/wlr_keyboard_group.c). xkbcommon is the class [Xkb].
    - [KeyBinding]: input/key_binding_manager.{h,cc}, every member.
    - [Ssd]: view/ssd/ssd/ssd.{h,cc}, geometry and hit testing.
    - [Window]: struct Toplevel of core/compositor_private, its queries and its
      requests to the client.
    - [Windows]: the window operations of CompositorPrivate, the signal handlers
      of a window and the requests of ProtocolManager, over the state record
      [compositor]. The output layout is the class [OutputLayout].
    - [WindowFacts], [KeptFields]: views of the state and what each operation
      leaves alone.
    - [Workspaces], [Focus], [SessionLock], [Stacking], [Placement], [Motion]:
      the theorems about those operations.
    - [Divergences]: where the code contradicts itself or its comments.
    - [Serials]: the serials of input events (libs/wlroots/types/seat/wlr_seat.c).
    - [Seat], [SeatPointer], [SeatTouch]: the seat of wlroots with its clients, their
      wl_pointer and wl_touch objects, the pointer's focus, buttons and scrolling,
      and touch points (types/seat/wlr_seat_pointer.c, wlr_seat_touch.c).
    - [Desktop]: windows, seat, cursor image and hit testing together, the state of
      CompositorPrivate that input handlers see. The views are the class [Views],
      the scene graph is the class [Scene].
    - [Pointer], [PointerSteps]: pointer motion and buttons (ProcessCursorMotion,
      OnCursorButton); [Touch]: touch events.
    - [LockScreen]: the session lock of ProtocolManager over the whole desktop.
    - [InputMethod], [InputMethodFacts]: the relay between text inputs (three
      versions of the protocol) and the input method (protocol/input_method,
      protocol/text_input, libs/wlroots/types/wlr_text_input_v3.c).
    - [Clipboard], [ClipboardFacts]: the copy of the clipboard that outlives its owner
      (input/selection_persist.cc), with the pipes it reads and writes.
    - [AppSwitcher]: Alt+Tab (view/app_switcher/app_switcher.cc) without its drawing.
    - [Overview]: the layout of windows in the overview of a workspace
      (view/multitasking/multitasking_layout.cc).
    - [Layers]: layer surfaces, that is panels and docks: their requests and commits
      (libs/wlroots/types/wlr_layer_shell_v1.c), their placement
      (types/scene/layer_shell_v1.c) and CompositorPrivate::ArrangeLayers; [LayerShell]:
      the compositor's handlers for them (protocol/layer_shell/layer_surface.cc).
    - [KeyRouting]: Keyboard::OnKey and OnModifiers, which offer a key to the views, to
      Alt+Tab, to shortcuts and to the input method before the focused client.
    - [RingBuffer], [Connection]: the connection to a client
      (libs/wayland/src/connection.c): its ring buffers, and sending and receiving bytes and
      descriptors over a socket that takes and gives any part.
    - [ObjectMap]: the objects of a client and their ids (wl_map of
      libs/wayland/src/wayland-util.c).
    - [Marshal]: messages from arguments to bytes and back, and the lookup of objects
      (closures of connection.c); [RoundTrip], [Delivery]: what is sent is what is read,
      over one connection and the socket.
    - [Signals]: the linked lists of libwayland in a memory of links
      (libs/wayland/src/wayland-util.c) and the signals whose listeners change them
      (wayland-server.c).
    - [Events]: the resources of a client, events and protocol errors (wayland-server.c), the
      calls that handlers make; [Server]: the loop that reads requests and hands them to
      handlers (wl_client_connection_data). The tables generated from the protocol are the
      class [Protocol], the compositor's handlers a function to lists of calls.

    ** What the theorems show

    - Windows: an invariant over every sequence of operations (workspaces exist,
      a window is not both maximized and tiled, identities are distinct); a
      workspace switch shows exactly the right windows; a locked session keeps
      its keyboard focus; focusing yields an exact stacking order; removing and
      reordering workspaces hide nothing; new windows are centered, constrained
      windows reachable, moves and resizes bounded, maximizing undone by
      restoring, panels respected, tiling slots a partition.
    - Keys: bindings stay consistent, actions run only when allowed, clients see
      balanced key strokes as long as no capture, view, lock or grab of the input method
      comes or goes in the middle of one, shortcuts on named keys parse back, keyboards
      are bounded sets of keys that destruction releases. On the lock screen neither
      shortcuts nor the input method see a key. Examples show the strokes that are torn
      apart ([capture_swallows_release], [switcher_swallows_release]).
    - Pointer and touch: every wl_pointer object sees a well-formed stream of events
      unless its client asked for it with a button down, a button stroke that no view
      interferes with leaves nothing behind, serials are validated exactly, scroll steps
      are neither lost nor made up, and fingers never stick.
    - The session lock holds until it is unlocked, whatever happens, also when the
      locking client dies; the client is told once, when every screen shows the lock.
    - Text: what an input method types reaches the enabled text input on the focused
      surface and no other, focusing connects it and tells the input method its state,
      its popup stays on the screen.
    - The clipboard: what is offered after the owner's end is byte for byte what the
      owner wrote, under partial reads and writes; it is offered; and no error leaks a
      descriptor or closes one twice.
    - Alt+Tab activates the window so many places further in the order of last use and
      never one that is gone; twice returns. The search for the layout of the overview
      ends, windows do not overlap and stay on the screen.
    - Panels: the compositor's view of every panel is true whatever its client does, a
      shown panel has a size it was told, its first commit is answered; panels without
      negative margins that are no thicker than their zone do not overlap each other or
      the area left to windows, which maximized windows are told to fill.
    - The wire: requests of any client are read within their memory and are well typed or
      refused, with every descriptor closed; what is sent, up to the limit of the buffers, is
      read unchanged and in order, with its descriptors, whatever parts the socket takes; ids
      of objects are a table from ids to objects. A round of the server hands exactly the whole messages of the input to
      handlers and keeps objects and resources in step.
    - Signals: an emission calls exactly the listeners that were there and still are, in
      order, whatever they do to the list of listeners.
    - Timers: the heap refines a map from timers to deadlines, and a dispatch
      terminates and runs the due ones in order, but for those that callbacks removed.
    - Boxes and decorations: set semantics of intersection, composition of
      transforms, inverse geometry, hit testing.

    ** Conventions

    C [int] is [Z] with ranges stated where overflow matters; [uint32_t] wraps
    ([u32]); doubles are rationals, with NaN where the code can meet it; null
    pointers are [None]; objects that are shared or compared by address are
    identified by numbers and kept in a store; calls into other parts of the
    program are entries of a log, in order. Loops are structural, or take fuel
    that the theorems show to suffice (the number of held keys for
    [finish_loop], the heap size for sifting and dispatching, the unread bytes and
    the interruptions to come for [drain_loop], the height of the screen for
    [fit_rows], the bytes of input for [dispatch_loop], the listeners for [emit_loop],
    64 for the doubling of sizes in [grow_bits] and [grow_alloc]). The loops over a socket
    use up its answers; without one the socket is full or empty.

    ** Not modelled

    Rendering (render, view renderers, QML), the backends (backend, libdrm), the
    XWayland window manager (xwayland), D-Bus services (dbus), most protocol
    implementations (protocol/kde, treeland, ukui, gxde), and the
    vendored libraries beyond the functions named above: they are I/O, drawing or
    bookkeeping around the core, or are only called by it. In [Windows] a window
    is an xdg-shell window; titles, icons and popups are left out. *)

From Stdlib Require Export ZArith Lia ZifyBool QArith Qround Sorted.
From stdpp Require Export prelude gmap strings numbers.
From stdpp Require Export list.

#[global] Set Default Proof Using "Type".
Open Scope Z_scope.

(** ** Machine integers *)

(** C [int] and [int32_t]: arithmetic is done in [Z]; [in_int] is the range in
    which it is defined, and the bounds theorems show results stay in it. *)
Definition INT_MIN : Z := - 2 ^ 31.
Definition INT_MAX : Z := 2 ^ 31 - 1.
Definition in_int (z : Z) : Prop := INT_MIN <= z <= INT_MAX.

(** [uint32_t] and 64-bit [size_t] arithmetic wraps. *)
Definition u32 (z : Z) : Z := z mod 2 ^ 32.
Definition u64 (z : Z) : Z := z mod 2 ^ 64.

(** C division of [int]s truncates towards zero. *)
Definition idiv (a b : Z) : Z := Z.quot a b.

(** [static_cast<int>] of a finite double, and the strict order on doubles. *)
Definition Qtrunc (q : Q) : Z := Z.quot (Qnum q) (Zpos (Qden q)).
Definition Qltb (a b : Q) : bool := negb (Qle_bool b a).

(** [round] and [std::lround]: to the nearest integer, halves away from zero. *)
Definition lround (q : Q) : Z :=
  if Qle_bool 0 q then Qfloor (q + (1 # 2)) else - Qfloor (- q + (1 # 2)).

(** [std::clamp]. *)
Definition zclamp (v lo hi : Z) : Z := if v <? lo then lo else if hi <? v then hi else v.

(** ** Strings *)

(** [std::string], [std::string_view] and C strings: the list of their bytes. *)
Definition str := list Ascii.ascii.
Definition txt (s : string) : str := String.list_ascii_of_string s.

(** ** Flags *)

(** [flags & bit] read as a truth value. *)
Definition has_flag (flags bit : Z) : bool := negb (Z.land flags bit =? 0).

(** ** State passing *)

Declare Scope flake_scope.
Delimit Scope flake_scope with flake.

(** [s |> f] runs step [f] after reaching state [s]; [when b f] is a guarded
    statement. *)
Notation "s '|>' f" := (f s) (at level 62, left associativity, only parsing)
  : flake_scope.
Open Scope flake_scope.

Definition when {S : Type} (b : bool) (f : S -> S) (s : S) : S := if b then f s else s.

(** ** Record update

    [r <{ field := v }>] is the record [r] with one field assigned, and
    [r <{ field ::= f }>] with [f] applied to it, the way the code writes
    [r->field = v]. A record type declares how it is rebuilt from its fields
    ([Fields]); the assignment of a field is derived from that by replacing the
    field's projection. *)

Class Fields (R : Type) := { rebuild : R -> R }.
Class Field {R T : Type} (get : R -> T) := modify : (T -> T) -> R -> R.
Arguments modify {R T} get {_} f r.

Ltac derive_field :=
  match goal with
  | |- @Field ?R ?T ?get =>
      let body := eval hnf in (@rebuild R _) in
      match eval pattern get in body with
      | ?ctx _ =>
          let setter := eval cbv beta in (fun (f : T -> T) => ctx (fun r => f (get r))) in
          exact setter
      end
  end.
#[export] Hint Extern 1 (Field _) => derive_field : typeclass_instances.

Notation "r <{ get ::= f }>" := (modify get f r) (at level 1, left associativity) : flake_scope.
Notation "r <{ get := v }>" := (modify get (fun _ => v) r)
  (at level 1, left associativity) : flake_scope.

(** ** Automation *)

Create HintDb flake.
Create Rewrite HintDb flake.

Lemma in_int_unfold z : in_int z <-> - 2147483648 <= z <= 2147483647.
Proof. unfold in_int, INT_MIN, INT_MAX. lia. Qed.

(** Turns the boolean tests of the code into propositions and splits them. *)
Ltac prop_bool :=
  repeat match goal with
  | H : _ && _ = true |- _ => apply andb_true_iff in H; destruct H
  | H : _ && _ = false |- _ => apply andb_false_iff in H; destruct H
  | H : _ || _ = false |- _ => apply orb_false_iff in H; destruct H
  | H : _ || _ = true |- _ => apply orb_true_iff in H; destruct H
  | H : negb _ = true |- _ => apply negb_true_iff in H
  | H : negb _ = false |- _ => apply negb_false_iff in H
  end.

(** Case analysis on every [if] of the goal, keeping the equations. *)
Ltac case_ifs :=
  repeat match goal with
  | |- context [if ?b then _ else _] =>
      lazymatch b with context [if _ then _ else _] => fail | _ => idtac end;
      let E := fresh "E" in destruct b eqn:E
  end.

Ltac int_lia := rewrite ?in_int_unfold in *; cbn in *; lia.

Lemma zclamp_spec v lo hi : lo <= hi -> lo <= zclamp v lo hi <= hi.
Proof. unfold zclamp. intros. case_ifs; lia. Qed.

Lemma zclamp_id v lo hi : lo <= v <= hi -> zclamp v lo hi = v.
Proof. unfold zclamp. intros. case_ifs; lia. Qed.

#[export] Hint Resolve zclamp_spec : flake.

Lemma Qltb_lt a b : Qltb a b = true <-> (a < b)%Q.
Proof.
  unfold Qltb. rewrite negb_true_iff. split; intros H.
  - apply Qnot_le_lt. intros Hle. apply Qle_bool_iff in Hle. congruence.
  - apply not_true_iff_false. rewrite Qle_bool_iff. apply Qlt_not_le, H.
Qed.

Lemma Qltb_ge a b : Qltb a b = false <-> (b <= a)%Q.
Proof. unfold Qltb. rewrite negb_false_iff. apply Qle_bool_iff. Qed.

Lemma when_true {S} (f : S -> S) s : when true f s = f s.
Proof. reflexivity. Qed.

Lemma when_false {S} (f : S -> S) s : when false f s = s.
Proof. reflexivity. Qed.

Lemma when_inv {S} (P : S -> Prop) b f s : P s -> (P s -> P (f s)) -> P (when b f s).
Proof. destruct b; auto. Qed.

#[export] Hint Rewrite @when_true @when_false : flake.


(** ** Bits *)

Lemma has_flag_shift m i : 0 <= i -> has_flag m (Z.shiftl 1 i) = Z.testbit m i.
Proof.
  intros Hi. unfold has_flag. rewrite Z.shiftl_1_l. destruct (Z.testbit m i) eqn:E.
  - apply negb_true_iff, Z.eqb_neq. intros H0.
    assert (Hb : Z.testbit (Z.land m (2 ^ i)) i = true)
      by (rewrite Z.land_spec, E, Z.pow2_bits_true by lia; done).
    by rewrite H0, Z.bits_0 in Hb.
  - apply negb_false_iff, Z.eqb_eq. apply Z.bits_inj'. intros j Hj.
    rewrite Z.land_spec, Z.bits_0, Z.pow2_bits_eqb by lia.
    destruct (Z.eqb_spec i j) as [->|]; [by rewrite E|apply andb_false_r].
Qed.

(** A mask built bit by bit in a loop over [0 .. n-1]. *)
Lemma mask_loop_spec (c : nat -> bool) n k : 0 <= k ->
  Z.testbit (foldl (fun m i => if c i then Z.lor m (Z.shiftl 1 (Z.of_nat i)) else m) 0 (seq 0 n)) k
  = (k <? Z.of_nat n) && c (Z.to_nat k).
Proof.
  intros Hk. induction n as [|n IH]; [simpl; by rewrite Z.bits_0, (proj2 (Z.ltb_ge k (Z.of_nat 0)))|].
  rewrite seq_S, foldl_app. simpl. set (m := foldl _ 0 _) in *.
  assert (Hb : Z.testbit (Z.shiftl 1 (Z.of_nat n)) k = (k =? Z.of_nat n)).
  { rewrite Z.shiftl_1_l, Z.pow2_bits_eqb by lia. apply Z.eqb_sym. }
  destruct (Z.eqb_spec k (Z.of_nat n)) as [->|Hne].
  - rewrite Nat2Z.id. replace (Z.of_nat n <? Z.of_nat (S n)) with true by lia.
    destruct (c n); [rewrite Z.lor_spec, Hb; apply orb_true_r|].
    rewrite IH. replace (Z.of_nat n <? Z.of_nat n) with false by lia. done.
  - replace (k <? Z.of_nat (S n)) with (k <? Z.of_nat n) by lia.
    destruct (c n); [rewrite Z.lor_spec, Hb, orb_false_r|]; done.
Qed.
