(* ===== verification/Box.v ===== *)
(** * Boxes and output transforms of wlroots

    [wlr_box] and [wlr_fbox] from libs/wlroots/util/box.c and the output
    transform group of libs/wlroots/util/transform.c, which the compositor core
    uses for every placement decision. A [NULL] box is [None]; [int]s are [Z]
    (the bounds theorem shows where they stay in range); doubles are rationals
    with an explicit NaN. *)

From Stdlib Require Import Lqa.
From S2P Require Import Prelude.

(** ** Data *)

Record wlr_box := Box { box_x : Z; box_y : Z; box_width : Z; box_height : Z }.

Record wlr_fbox := FBox { fbox_x : Q; fbox_y : Q; fbox_width : Q; fbox_height : Q }.

(** [enum wl_output_transform], with its wire codes. *)
Inductive wl_output_transform :=
  | TR_NORMAL | TR_90 | TR_180 | TR_270
  | TR_FLIPPED | TR_FLIPPED_90 | TR_FLIPPED_180 | TR_FLIPPED_270.

Definition tr_code (tr : wl_output_transform) : Z :=
  match tr with
  | TR_NORMAL => 0 | TR_90 => 1 | TR_180 => 2 | TR_270 => 3
  | TR_FLIPPED => 4 | TR_FLIPPED_90 => 5 | TR_FLIPPED_180 => 6 | TR_FLIPPED_270 => 7
  end.

Definition tr_of_code (c : Z) : option wl_output_transform :=
  match c with
  | 0 => Some TR_NORMAL | 1 => Some TR_90 | 2 => Some TR_180 | 3 => Some TR_270
  | 4 => Some TR_FLIPPED | 5 => Some TR_FLIPPED_90 | 6 => Some TR_FLIPPED_180
  | 7 => Some TR_FLIPPED_270 | _ => None
  end.

(** A double: a rational, or NaN, on which every comparison is false. *)
Inductive dbl := Fin (q : Q) | NaN.

Definition dlt (a b : dbl) : bool :=
  match a, b with Fin p, Fin q => Qltb p q | _, _ => false end.
Definition dge (a b : dbl) : bool :=
  match a, b with Fin p, Fin q => Qle_bool q p | _, _ => false end.
Definition dint (z : Z) : dbl := Fin (inject_Z z).

#[export] Instance wlr_box_eq_dec : EqDecision wlr_box.
Proof. solve_decision. Defined.

#[export] Instance wl_output_transform_eq_dec : EqDecision wl_output_transform.
Proof. solve_decision. Defined.

Definition zero_box : wlr_box := Box 0 0 0 0.

(** ** Operations of util/box.c *)

Definition max (a b : Z) : Z := if a >? b then a else b.
Definition min (a b : Z) : Z := if a <? b then a else b.

Definition wlr_box_empty (box : option wlr_box) : bool :=
  match box with
  | None => true
  | Some b => (box_width b <=? 0) || (box_height b <=? 0)
  end.

(** One axis of [wlr_box_closest_point]: [lo] is the near edge, [size] the
    extent; the far edge is pulled in by 1/256. *)
Definition closest_coord (lo size : Z) (v : dbl) : dbl :=
  let far := Fin (inject_Z (lo + size) - (1 # 256)) in
  if dlt v (dint lo) then dint lo
  else if dlt far v then far
  else v.

Definition wlr_box_closest_point (box : option wlr_box) (x y : dbl) : dbl * dbl :=
  match box with
  | Some b =>
      if wlr_box_empty box then (NaN, NaN)
      else (closest_coord (box_x b) (box_width b) x,
            closest_coord (box_y b) (box_height b) y)
  | None => (NaN, NaN)
  end.

(** Returns the value stored through [dest] and the result. *)
Definition wlr_box_intersection (box_a box_b : option wlr_box) : wlr_box * bool :=
  match box_a, box_b with
  | Some a, Some b =>
      if wlr_box_empty box_a || wlr_box_empty box_b then (zero_box, false)
      else
        let x1 := max (box_x a) (box_x b) in
        let y1 := max (box_y a) (box_y b) in
        let x2 := min (box_x a + box_width a) (box_x b + box_width b) in
        let y2 := min (box_y a + box_height a) (box_y b + box_height b) in
        let dest := Box x1 y1 (x2 - x1) (y2 - y1) in
        if wlr_box_empty (Some dest) then (zero_box, false) else (dest, true)
  | _, _ => (zero_box, false)
  end.

Definition wlr_box_contains_point (box : option wlr_box) (x y : dbl) : bool :=
  match box with
  | Some b =>
      if wlr_box_empty box then false
      else dge x (dint (box_x b)) && dlt x (dint (box_x b + box_width b)) &&
           dge y (dint (box_y b)) && dlt y (dint (box_y b + box_height b))
  | None => false
  end.

Definition wlr_box_contains_box (bigger smaller : option wlr_box) : bool :=
  match bigger, smaller with
  | Some b, Some s =>
      if wlr_box_empty bigger || wlr_box_empty smaller then false
      else (box_x s >=? box_x b) &&
           (box_x s + box_width s <=? box_x b + box_width b) &&
           (box_y s >=? box_y b) &&
           (box_y s + box_height s <=? box_y b + box_height b)
  | _, _ => false
  end.

Definition wlr_box_transform (box : option wlr_box) (transform : wl_output_transform)
    (width height : Z) : wlr_box :=
  let src := default zero_box box in
  let '(w, h) :=
    if Z.rem (tr_code transform) 2 =? 0 then (box_width src, box_height src)
    else (box_height src, box_width src) in
  match transform with
  | TR_NORMAL => Box (box_x src) (box_y src) w h
  | TR_90 => Box (height - box_y src - box_height src) (box_x src) w h
  | TR_180 => Box (width - box_x src - box_width src)
                  (height - box_y src - box_height src) w h
  | TR_270 => Box (box_y src) (width - box_x src - box_width src) w h
  | TR_FLIPPED => Box (width - box_x src - box_width src) (box_y src) w h
  | TR_FLIPPED_90 => Box (box_y src) (box_x src) w h
  | TR_FLIPPED_180 => Box (box_x src) (height - box_y src - box_height src) w h
  | TR_FLIPPED_270 => Box (height - box_y src - box_height src)
                          (width - box_x src - box_width src) w h
  end.

Definition wlr_fbox_empty (box : option wlr_fbox) : bool :=
  match box with
  | None => true
  | Some b => Qle_bool (fbox_width b) 0 || Qle_bool (fbox_height b) 0
  end.

Definition wlr_fbox_transform (box : option wlr_fbox) (transform : wl_output_transform)
    (width height : Q) : wlr_fbox :=
  let src := default (FBox 0 0 0 0) box in
  let '(w, h) :=
    if Z.rem (tr_code transform) 2 =? 0 then (fbox_width src, fbox_height src)
    else (fbox_height src, fbox_width src) in
  match transform with
  | TR_NORMAL => FBox (fbox_x src) (fbox_y src) w h
  | TR_90 => FBox (height - fbox_y src - fbox_height src) (fbox_x src) w h
  | TR_180 => FBox (width - fbox_x src - fbox_width src)
                   (height - fbox_y src - fbox_height src) w h
  | TR_270 => FBox (fbox_y src) (width - fbox_x src - fbox_width src) w h
  | TR_FLIPPED => FBox (width - fbox_x src - fbox_width src) (fbox_y src) w h
  | TR_FLIPPED_90 => FBox (fbox_y src) (fbox_x src) w h
  | TR_FLIPPED_180 => FBox (fbox_x src) (height - fbox_y src - fbox_height src) w h
  | TR_FLIPPED_270 => FBox (height - fbox_y src - fbox_height src)
                           (width - fbox_x src - fbox_width src) w h
  end.

(** An empty box is treated as [NULL] before the comparison. *)
Definition wlr_box_equal (a b : option wlr_box) : bool :=
  let a := if wlr_box_empty a then None else a in
  let b := if wlr_box_empty b then None else b in
  match a, b with
  | Some a, Some b =>
      (box_x a =? box_x b) && (box_y a =? box_y b) &&
      (box_width a =? box_width b) && (box_height a =? box_height b)
  | None, None => true
  | _, _ => false
  end.

Definition wlr_fbox_equal (a b : option wlr_fbox) : bool :=
  let a := if wlr_fbox_empty a then None else a in
  let b := if wlr_fbox_empty b then None else b in
  match a, b with
  | Some a, Some b =>
      Qeq_bool (fbox_x a) (fbox_x b) && Qeq_bool (fbox_y a) (fbox_y b) &&
      Qeq_bool (fbox_width a) (fbox_width b) && Qeq_bool (fbox_height a) (fbox_height b)
  | None, None => true
  | _, _ => false
  end.

(** ** Operations of util/transform.c, on the enum codes *)

Definition wlr_output_transform_invert (tr : Z) : Z :=
  if has_flag tr (tr_code TR_90) && negb (has_flag tr (tr_code TR_FLIPPED))
  then Z.lxor tr (tr_code TR_180) else tr.

Definition wlr_output_transform_compose (tr_a tr_b : Z) : Z :=
  let flipped := Z.land (Z.lxor tr_a tr_b) (tr_code TR_FLIPPED) in
  let rotation_mask := Z.lor (tr_code TR_90) (tr_code TR_180) in
  let rotated :=
    if has_flag tr_b (tr_code TR_FLIPPED)
    then Z.land (u32 (tr_b - tr_a)) rotation_mask
    else Z.land (u32 (tr_a + tr_b)) rotation_mask in
  Z.lor flipped rotated.

Definition wlr_output_transform_coords (tr : Z) (x y : Z) : Z * Z :=
  if has_flag tr (tr_code TR_90) then (y, x) else (x, y).

(** ** Lemmas *)

Lemma tr_code_of tr : tr_of_code (tr_code tr) = Some tr.
Proof. by destruct tr. Qed.

Lemma max_spec a b : max a b = Z.max a b.
Proof. unfold max. case_ifs; lia. Qed.

Lemma min_spec a b : min a b = Z.min a b.
Proof. unfold min. case_ifs; lia. Qed.

#[export] Hint Rewrite max_spec min_spec : flake.

Lemma box_empty_false b :
  wlr_box_empty (Some b) = false <-> 0 < box_width b /\ 0 < box_height b.
Proof. simpl. rewrite orb_false_iff. lia. Qed.

(** The integer points of a box. *)
Definition in_box (b : wlr_box) (x y : Z) : Prop :=
  box_x b <= x < box_x b + box_width b /\ box_y b <= y < box_y b + box_height b.

#[export] Instance in_box_dec b x y : Decision (in_box b x y).
Proof. unfold in_box. apply _. Defined.

(** Canonical form of the intersection, with the standard [Z.max] and [Z.min]. *)
Lemma box_intersection_unfold a b :
  wlr_box_intersection (Some a) (Some b) =
  let x1 := Z.max (box_x a) (box_x b) in
  let y1 := Z.max (box_y a) (box_y b) in
  let x2 := Z.min (box_x a + box_width a) (box_x b + box_width b) in
  let y2 := Z.min (box_y a + box_height a) (box_y b + box_height b) in
  if (0 <? box_width a) && (0 <? box_height a) && (0 <? box_width b) && (0 <? box_height b)
     && (x1 <? x2) && (y1 <? y2)
  then (Box x1 y1 (x2 - x1) (y2 - y1), true) else (zero_box, false).
Proof.
  simpl. autorewrite with flake. case_ifs; prop_bool; try done; exfalso; lia.
Qed.

Lemma box_contains_point_int b x y :
  wlr_box_contains_point (Some b) (dint x) (dint y) = true <-> in_box b x y.
Proof.
  unfold wlr_box_contains_point, in_box. cbn [dge dlt dint].
  destruct (wlr_box_empty (Some b)) eqn:E.
  - split; [done|]. simpl in E. prop_bool; lia.
  - rewrite !andb_true_iff, !Qltb_lt, !Qle_bool_iff, <- !Zlt_Qlt, <- !Zle_Qle. lia.
Qed.

(** The intersection of two boxes holds exactly the points both boxes hold,
    and the result is [true] exactly when there is such a point. *)
Theorem wlr_box_intersection_correct (a b : wlr_box) :
  let '(dest, ok) := wlr_box_intersection (Some a) (Some b) in
  (forall x y, in_box dest x y <-> in_box a x y /\ in_box b x y) /\
  (ok = true <-> exists x y, in_box a x y /\ in_box b x y) /\
  ok = negb (wlr_box_empty (Some dest)).
Proof.
  rewrite box_intersection_unfold. cbv zeta. unfold in_box. case_ifs; prop_bool; cbn.
  { split; [intros; lia|]. split; [|lia]. split; [intros _|done].
    exists (Z.max (box_x a) (box_x b)), (Z.max (box_y a) (box_y b)). lia. }
  all: split; [intros; lia|]; split; [|lia]; split; [done|intros (x & y & Hxy); lia].
Qed.

(** With both boxes inside the [int] range (corner and opposite corner),
    every value the intersection computes fits an [int]: there is no signed
    overflow. *)
Theorem wlr_box_intersection_no_overflow (a b : wlr_box)
  (Ha : in_int (box_x a) /\ in_int (box_x a + box_width a) /\
        in_int (box_y a) /\ in_int (box_y a + box_height a))
  (Hb : in_int (box_x b) /\ in_int (box_x b + box_width b) /\
        in_int (box_y b) /\ in_int (box_y b + box_height b))
  (Hx : 0 < box_width a <= INT_MAX /\ 0 < box_width b <= INT_MAX)
  (Hy : 0 < box_height a <= INT_MAX /\ 0 < box_height b <= INT_MAX) :
  let '(dest, ok) := wlr_box_intersection (Some a) (Some b) in
  in_int (box_x dest) /\ in_int (box_y dest) /\
  0 <= box_width dest <= Z.min (box_width a) (box_width b) /\
  0 <= box_height dest <= Z.min (box_height a) (box_height b) /\
  in_int (box_x dest + box_width dest) /\ in_int (box_y dest + box_height dest).
Proof.
  rewrite box_intersection_unfold. cbv zeta.
  unfold in_int, INT_MIN, INT_MAX in *. case_ifs; prop_bool; cbn [box_x box_y box_width box_height zero_box]; lia.
Qed.

Lemma wlr_box_intersection_no_overflow_witness :
  let '(dest, ok) :=
    wlr_box_intersection (Some (Box (-100) 0 1920 1080)) (Some (Box 1000 500 3000 900)) in
  in_int (box_x dest) /\ in_int (box_y dest) /\
  0 <= box_width dest <= Z.min 1920 3000 /\
  0 <= box_height dest <= Z.min 1080 900 /\
  in_int (box_x dest + box_width dest) /\ in_int (box_y dest + box_height dest).
Proof.
  apply (wlr_box_intersection_no_overflow (Box (-100) 0 1920 1080) (Box 1000 500 3000 900));
    rewrite ?in_int_unfold; unfold INT_MAX; simpl; lia.
Defined.

Lemma closest_coord_in lo size (v : Q) :
  0 < size ->
  exists w, closest_coord lo size (Fin v) = Fin w /\
    (inject_Z lo <= w)%Q /\ (w < inject_Z (lo + size))%Q /\
    ((inject_Z lo <= v)%Q /\ (v <= inject_Z (lo + size) - (1 # 256))%Q -> w = v).
Proof.
  intros Hs. unfold closest_coord, dlt, dint.
  assert (Hlo : (inject_Z lo <= inject_Z (lo + size) - (1 # 256))%Q).
  { assert (H1 : (inject_Z 1 <= inject_Z size)%Q) by (rewrite <- Zle_Qle; lia).
    change (inject_Z 1) with 1%Q in H1. rewrite inject_Z_plus. lra. }
  assert (Hf : (inject_Z (lo + size) - (1 # 256) < inject_Z (lo + size))%Q) by lra.
  destruct (Qltb v _) eqn:E1; [|destruct (Qltb _ v) eqn:E2];
    rewrite ?Qltb_lt, ?Qltb_ge in *; eexists; (split; [done|]).
  - split; [apply Qle_refl|]. split; [eapply Qle_lt_trans; eauto|].
    intros [H _]. exfalso. by apply (Qlt_not_le _ _ E1).
  - split; [done|]. split; [done|]. intros [_ H]. exfalso. by apply (Qlt_not_le _ _ E2).
  - split; [done|]. split; [eapply Qle_lt_trans; eauto|]. done.
Qed.

(** The closest point of a non-empty box to any finite point lies inside the
    box, as [wlr_box_contains_point] decides it, and a point at least 1/256
    inside the far edges is its own closest point. *)
Theorem wlr_box_closest_point_inside (b : wlr_box) (x y : Q)
  (Hne : wlr_box_empty (Some b) = false) :
  let '(dx, dy) := wlr_box_closest_point (Some b) (Fin x) (Fin y) in
  wlr_box_contains_point (Some b) dx dy = true /\
  ((inject_Z (box_x b) <= x)%Q /\ (x <= inject_Z (box_x b + box_width b) - (1 # 256))%Q -> dx = Fin x) /\
  ((inject_Z (box_y b) <= y)%Q /\ (y <= inject_Z (box_y b + box_height b) - (1 # 256))%Q -> dy = Fin y).
Proof.
  pose proof Hne as Hs. apply box_empty_false in Hs as [Hw Hh].
  destruct (closest_coord_in (box_x b) (box_width b) x Hw) as (dx & Ex & ? & ? & Ix).
  destruct (closest_coord_in (box_y b) (box_height b) y Hh) as (dy & Ey & ? & ? & Iy).
  unfold wlr_box_closest_point, wlr_box_contains_point. rewrite Hne, Ex, Ey. cbn [dge dlt dint].
  rewrite !andb_true_iff, !Qltb_lt, !Qle_bool_iff.
  split; [tauto|]. split; intros Hin; f_equal; auto.
Qed.

Lemma wlr_box_closest_point_inside_witness :
  wlr_box_empty (Some (Box 0 0 100 100)) = false /\
  wlr_box_closest_point (Some (Box 0 0 100 100)) (Fin (150 # 1)) (Fin (-3 # 1))
    = (Fin (inject_Z 100 - (1 # 256)), dint 0) /\
  wlr_box_contains_point (Some (Box 0 0 100 100)) (Fin (inject_Z 100 - (1 # 256))) (dint 0) = true.
Proof.
  split; [reflexivity|]. split; [reflexivity|].
  exact (proj1 (wlr_box_closest_point_inside (Box 0 0 100 100) (150 # 1) (-3 # 1) eq_refl)).
Defined.

(** Unfolds a concrete transform and compares the boxes field by field. *)
Ltac transform_eq :=
  lazy -[Z.sub Z.add]; f_equal; lia.

(** Transforming a box by [tr_a] and then, in the transformed space, by
    [tr_b] is transforming it once by the composition of the two codes taken in
    the opposite order: boxes are acted on from the right. *)
Theorem wlr_box_transform_compose (tr_a tr_b tr : wl_output_transform) (b : wlr_box) (w h : Z)
  (Htr : tr_of_code (wlr_output_transform_compose (tr_code tr_b) (tr_code tr_a)) = Some tr) :
  let '(w', h') := wlr_output_transform_coords (tr_code tr_a) w h in
  wlr_box_transform (Some (wlr_box_transform (Some b) tr_a w h)) tr_b w' h' =
  wlr_box_transform (Some b) tr w h.
Proof.
  destruct b, tr_a, tr_b; vm_compute in Htr; injection Htr as <-; transform_eq.
Qed.

Lemma wlr_box_transform_compose_witness :
  tr_of_code (wlr_output_transform_compose (tr_code TR_FLIPPED) (tr_code TR_90)) = Some TR_FLIPPED_90 /\
  wlr_box_transform (Some (wlr_box_transform (Some (Box 3 7 20 11)) TR_90 100 60)) TR_FLIPPED 60 100
  = wlr_box_transform (Some (Box 3 7 20 11)) TR_FLIPPED_90 100 60.
Proof.
  split; [reflexivity|].
  exact (wlr_box_transform_compose TR_90 TR_FLIPPED TR_FLIPPED_90 (Box 3 7 20 11) 100 60 eq_refl).
Defined.

(** Output transforms form a group under the code-level composition, whose
    inverse is [wlr_output_transform_invert]; and undoing a transform on a box
    gives the box back. *)
Theorem wlr_output_transform_group (a b c : wl_output_transform) :
  let comp := wlr_output_transform_compose in
  let inv := wlr_output_transform_invert in
  (exists d, tr_of_code (comp (tr_code a) (tr_code b)) = Some d) /\
  comp (comp (tr_code a) (tr_code b)) (tr_code c) = comp (tr_code a) (comp (tr_code b) (tr_code c)) /\
  comp (tr_code TR_NORMAL) (tr_code a) = tr_code a /\
  comp (tr_code a) (inv (tr_code a)) = tr_code TR_NORMAL /\
  comp (inv (tr_code a)) (tr_code a) = tr_code TR_NORMAL /\
  (forall (box : wlr_box) w h inv_a,
    tr_of_code (inv (tr_code a)) = Some inv_a ->
    let '(w', h') := wlr_output_transform_coords (tr_code a) w h in
    wlr_box_transform (Some (wlr_box_transform (Some box) a w h)) inv_a w' h' = box).
Proof.
  cbv zeta. split; [destruct a, b; eexists; reflexivity|].
  split; [destruct a, b, c; reflexivity|].
  split; [destruct a; reflexivity|]. split; [destruct a; reflexivity|].
  split; [destruct a; reflexivity|].
  intros [] w h inv_a H. destruct a; vm_compute in H; injection H as <-; transform_eq.
Qed.

(** Box equality as the code tests it: two boxes are equal when both are empty
    or when their fields agree. *)
Lemma wlr_box_equal_spec a b :
  wlr_box_equal (Some a) (Some b) = true <->
  (wlr_box_empty (Some a) = true /\ wlr_box_empty (Some b) = true) \/
  (wlr_box_empty (Some a) = false /\ a = b).
Proof.
  unfold wlr_box_equal. destruct (wlr_box_empty (Some a)) eqn:Ea,
    (wlr_box_empty (Some b)) eqn:Eb; cbv zeta iota.
  - tauto.
  - split; [done|]. intros [[_ [=]]|[[=] _]].
  - split; [done|]. intros [[[=] _]|[_ ->]]. congruence.
  - rewrite !andb_true_iff, !Z.eqb_eq. destruct a, b; simpl. split.
    + intros (((-> & ->) & ->) & ->). by right.
    + intros [[[=] _]|[_ [= -> -> -> ->]]]. done.
Qed.
