(* ===== verification/TimerHeap.v ===== *)
(** * The timer heap of the Wayland event loop

    libs/wayland/src/event-loop.c keeps the armed timers of the loop in a binary
    min-heap of pointers; each timer records its own position ([heap_idx], -1
    when disarmed). Timers live in a store indexed by their address; the heap
    array holds addresses, [None] standing for [NULL] or unwritten memory. A
    read of a missing timer, an access outside the array and [wl_abort] are
    [None]: the theorems show that none of them happens. *)

From S2P Require Import Prelude.

Definition tid := nat.

(** ** Data *)

Record timespec := TS { tv_sec : Z; tv_nsec : Z }.

Record timer := Timer {
  deadline : timespec;
  heap_idx : Z;
  next_due : option tid;
  timer_fd : Z
}.

(** [struct wl_timer_heap]; [th_armed] is the expiry last programmed into the
    timerfd, [None] when it is cleared. *)
Record wl_timer_heap := TimerHeap {
  th_data : list (option tid);
  th_space : Z;
  th_active : nat;
  th_count : Z;
  th_fd : Z;
  th_armed : option timespec
}.

(** The loop's timers: every timer object and the heap. *)
Record timer_loop := Loop { tl_store : gmap tid timer; tl_heap : wl_timer_heap }.

Definition TIMER_REMOVED : Z := -2.

#[export] Instance timespec_eq_dec : EqDecision timespec.
Proof. solve_decision. Defined.

Definition set_deadline (d : timespec) (t : timer) : timer :=
  Timer d (heap_idx t) (next_due t) (timer_fd t).
Definition set_heap_idx (i : Z) (t : timer) : timer :=
  Timer (deadline t) i (next_due t) (timer_fd t).
Definition set_next_due (n : option tid) (t : timer) : timer :=
  Timer (deadline t) (heap_idx t) n (timer_fd t).
Definition set_timer_fd (fd : Z) (t : timer) : timer :=
  Timer (deadline t) (heap_idx t) (next_due t) fd.

Definition set_data (d : list (option tid)) (h : wl_timer_heap) : wl_timer_heap :=
  TimerHeap d (th_space h) (th_active h) (th_count h) (th_fd h) (th_armed h).
Definition set_active (n : nat) (h : wl_timer_heap) : wl_timer_heap :=
  TimerHeap (th_data h) (th_space h) n (th_count h) (th_fd h) (th_armed h).
Definition set_count (n : Z) (h : wl_timer_heap) : wl_timer_heap :=
  TimerHeap (th_data h) (th_space h) (th_active h) n (th_fd h) (th_armed h).
Definition set_space (d : list (option tid)) (n : Z) (h : wl_timer_heap) : wl_timer_heap :=
  TimerHeap d n (th_active h) (th_count h) (th_fd h) (th_armed h).
Definition set_armed (t : option timespec) (h : wl_timer_heap) : wl_timer_heap :=
  TimerHeap (th_data h) (th_space h) (th_active h) (th_count h) (th_fd h) t.

(** ** Operations *)

Definition time_lt (ta tb : timespec) : bool :=
  if negb (tv_sec ta =? tv_sec tb) then tv_sec ta <? tv_sec tb
  else tv_nsec ta <? tv_nsec tb.

Definition wl_timer_heap_init : wl_timer_heap := TimerHeap [] 0 0 0 (-1) None.

(** [wl_timer_heap_reserve]; [alloc_ok] is the outcome of [realloc], whose new
    cells are unwritten. *)
Definition wl_timer_heap_reserve (alloc_ok : bool) (h : wl_timer_heap)
    : wl_timer_heap * Z :=
  if th_count h + 1 >? th_space h then
    let new_space := if th_space h >=? 8 then th_space h * 2 else 8 in
    if alloc_ok then
      let d := th_data h ++
               replicate (Z.to_nat new_space - length (th_data h)) None in
      (set_count (th_count h + 1) (set_space d new_space h), 0)
    else (h, -1)
  else (set_count (th_count h + 1) h, 0).

Definition wl_timer_heap_unreserve (alloc_ok : bool) (h : wl_timer_heap) : wl_timer_heap :=
  let h := set_count (th_count h - 1) h in
  if (th_space h >=? 16) && (th_space h >=? 4 * th_count h) then
    if alloc_ok then
      set_space (take (Z.to_nat (idiv (th_space h) 2)) (th_data h)) (idiv (th_space h) 2) h
    else h
  else h.

(** The store and the array, as the sift functions see them. *)
Definition cells : Type := gmap tid timer * list (option tid).

Definition heap_at (data : list (option tid)) (i : nat) : option tid := mjoin (data !! i).

Definition heap_set (st : cells) (a : tid) (idx : nat) : option (Z * cells) :=
  tm ← st.1 !! a;
  if (idx <? length st.2)%nat then
    Some (heap_idx tm,
          (<[a := set_heap_idx (Z.of_nat idx) tm]> st.1, <[idx := Some a]> st.2))
  else None.

(** The smaller child of position [lchild - 1], and its timer. *)
Definition pick_child (st : cells) (num_active lchild : nat) : option (tid * timer) :=
  child ← heap_at st.2 lchild;
  tmc ← st.1 !! child;
  if (lchild + 1 <? num_active)%nat then
    other_child ← heap_at st.2 (lchild + 1);
    tmo ← st.1 !! other_child;
    if time_lt (deadline tmo) (deadline tmc) then Some (other_child, tmo)
    else Some (child, tmc)
  else Some (child, tmc).

(** The [while (1)] loop of [heap_sift_down]; the fuel is a bound on the number
    of iterations, and running out of it is [None]. *)
Fixpoint sift_down_loop (fuel : nat) (st : cells) (num_active : nat) (key : timespec)
    (cursor_idx : nat) : option (cells * nat) :=
  match fuel with
  | O => None
  | S fuel =>
      let lchild_idx := (cursor_idx * 2 + 1)%nat in
      if (num_active <=? lchild_idx)%nat then Some (st, cursor_idx)
      else
        '(child, tmc) ← pick_child st num_active lchild_idx;
        if time_lt (deadline tmc) key then
          '(tmp, st) ← heap_set st child cursor_idx;
          sift_down_loop fuel st num_active key (Z.to_nat tmp)
        else Some (st, cursor_idx)
  end.

Definition heap_sift_down (st : cells) (num_active : nat) (source : tid) : option cells :=
  tm ← st.1 !! source;
  '(st, cursor_idx) ←
    sift_down_loop (S num_active) st num_active (deadline tm) (Z.to_nat (heap_idx tm));
  '(_, st) ← heap_set st source cursor_idx;
  Some st.

Fixpoint sift_up_loop (fuel : nat) (st : cells) (key : timespec) (cursor_idx : nat)
    : option (cells * nat) :=
  match fuel with
  | O => None
  | S fuel =>
      if (0 <? cursor_idx)%nat then
        parent ← heap_at st.2 ((cursor_idx - 1) / 2)%nat;
        tmp ← st.1 !! parent;
        if time_lt key (deadline tmp) then
          '(old, st) ← heap_set st parent cursor_idx;
          sift_up_loop fuel st key (Z.to_nat old)
        else Some (st, cursor_idx)
      else Some (st, cursor_idx)
  end.

Definition heap_sift_up (st : cells) (source : tid) : option cells :=
  tm ← st.1 !! source;
  '(st, cursor_idx) ←
    sift_up_loop (S (Z.to_nat (heap_idx tm))) st (deadline tm) (Z.to_nat (heap_idx tm));
  '(_, st) ← heap_set st source cursor_idx;
  Some st.

(** Stores the result of a sift back into the loop. *)
Definition with_cells (l : timer_loop) (h : wl_timer_heap) (st : cells) : timer_loop :=
  Loop st.1 (set_data st.2 h).

Definition wl_timer_heap_disarm (l : timer_loop) (source : tid) : option timer_loop :=
  let h := tl_heap l in
  tm ← tl_store l !! source;
  if negb (heap_idx tm >=? 0) then None (* wl_abort *)
  else if (th_active h =? 0)%nat then None (* out of bounds *)
  else
    let old_source_idx := Z.to_nat (heap_idx tm) in
    let store := <[source := set_deadline (TS 0 0) (set_heap_idx (-1) tm)]> (tl_store l) in
    last_end_evt ← heap_at (th_data h) (th_active h - 1);
    let data := <[(th_active h - 1)%nat := None]> (th_data h) in
    let active := (th_active h - 1)%nat in
    let h := set_active active h in
    if (old_source_idx =? active)%nat then Some (Loop store (set_data data h))
    else
      if (old_source_idx <? length data)%nat then
        let data := <[old_source_idx := Some last_end_evt]> data in
        tml ← store !! last_end_evt;
        let store := <[last_end_evt := set_heap_idx (Z.of_nat old_source_idx) tml]> store in
        st ← heap_sift_down (store, data) active last_end_evt;
        st ← heap_sift_up st last_end_evt;
        Some (with_cells l h st)
      else None.

Definition wl_timer_heap_arm (l : timer_loop) (source : tid) (d : timespec)
    : option timer_loop :=
  let h := tl_heap l in
  tm ← tl_store l !! source;
  if negb (heap_idx tm =? -1) then None (* wl_abort *)
  else if negb (th_active h <? length (th_data h))%nat then None (* out of bounds *)
  else
    let data := <[th_active h := Some source]> (th_data h) in
    let store := <[source := set_heap_idx (Z.of_nat (th_active h)) (set_deadline d tm)]>
                   (tl_store l) in
    let h := set_active (S (th_active h)) h in
    st ← heap_sift_up (store, data) source;
    Some (with_cells l h st).

(** Result codes: the new state and the value returned to the caller. *)
Definition set_timer (ok : bool) (d : timespec) (l : timer_loop) : timer_loop * Z :=
  if ok then (Loop (tl_store l) (set_armed (Some d) (tl_heap l)), 0) else (l, -1).
Definition clear_timer (ok : bool) (l : timer_loop) : timer_loop * Z :=
  if ok then (Loop (tl_store l) (set_armed None (tl_heap l)), 0) else (l, -1).

(** The absolute expiry of a delay in milliseconds from [now]. *)
Definition deadline_after (now : timespec) (ms_delay : Z) : timespec :=
  let nsec := tv_nsec now + Z.rem ms_delay 1000 * 1000000 in
  let sec := tv_sec now + idiv ms_delay 1000 in
  if nsec >=? 1000000000 then TS (sec + 1) (nsec - 1000000000) else TS sec nsec.

(** Moves the timer to its new deadline: arms it, or sifts it up or down. *)
Definition timer_reposition (l : timer_loop) (source : tid) (d : timespec)
    : option timer_loop :=
  let h := tl_heap l in
  tm ← tl_store l !! source;
  if heap_idx tm =? -1 then wl_timer_heap_arm l source d
  else
    let store := <[source := set_deadline d tm]> (tl_store l) in
    if time_lt d (deadline tm) then
      st ← heap_sift_up (store, th_data h) source; Some (with_cells l h st)
    else
      st ← heap_sift_down (store, th_data h) (th_active h) source; Some (with_cells l h st).

Definition wl_event_source_timer_update (clock : timespec) (fd_ok : bool) (l : timer_loop)
    (source : tid) (ms_delay : Z) : option (timer_loop * Z) :=
  if ms_delay >? 0 then
    let d := deadline_after clock ms_delay in
    l ← timer_reposition l source d;
    tm ← tl_store l !! source;
    if heap_idx tm =? 0 then Some (set_timer fd_ok d l) else Some (l, 0)
  else
    tm ← tl_store l !! source;
    if heap_idx tm =? -1 then Some (l, 0)
    else
      l ← wl_timer_heap_disarm l source;
      if (th_active (tl_heap l) =? 0)%nat then Some (clear_timer fd_ok l) else Some (l, 0).

(** Creating a timer at the fresh address [t]; the timerfd exists already when
    [th_fd <> -1] ([wl_timer_heap_ensure_timerfd]), and [new_fd] is what its
    creation returns otherwise. *)
Definition wl_timer_heap_ensure_timerfd (new_fd : Z) (h : wl_timer_heap)
    : wl_timer_heap * Z :=
  if negb (th_fd h =? -1) then (h, 0)
  else if new_fd <? 0 then (h, -1)
  else (TimerHeap (th_data h) (th_space h) (th_active h) (th_count h) new_fd (th_armed h), 0).

Definition wl_event_loop_add_timer (new_fd : Z) (alloc_ok : bool) (t : tid)
    (l : timer_loop) : timer_loop * bool :=
  let '(h, r) := wl_timer_heap_ensure_timerfd new_fd (tl_heap l) in
  if r <? 0 then (Loop (tl_store l) h, false)
  else
    let '(h, r) := wl_timer_heap_reserve alloc_ok h in
    if r <? 0 then (Loop (tl_store l) h, false)
    else (Loop (<[t := Timer (TS 0 0) (-1) None (-1)]> (tl_store l)) h, true).

(** [wl_event_source_remove] on a timer source: disarm, give the slot back and
    mark it so that a pending dispatch skips it. *)
Definition wl_event_source_remove (clock : timespec) (fd_ok alloc_ok : bool)
    (l : timer_loop) (source : tid) : option timer_loop :=
  tm ← tl_store l !! source;
  if negb (timer_fd tm =? TIMER_REMOVED) then
    '(l, _) ← wl_event_source_timer_update clock fd_ok l source 0;
    let h := wl_timer_heap_unreserve alloc_ok (tl_heap l) in
    tm ← tl_store l !! source;
    Some (Loop (<[source := set_timer_fd TIMER_REMOVED tm]> (tl_store l)) h)
  else Some l.

(** The collecting loop of [wl_timer_heap_dispatch]: pops every timer due at
    [now] and threads them into a list through [next_due]. *)
Fixpoint collect_due (fuel : nat) (now : timespec) (l : timer_loop)
    (list_cursor list_tail : option tid) : option (timer_loop * option tid * option tid) :=
  match fuel with
  | O => None
  | S fuel =>
      if (0 <? th_active (tl_heap l))%nat then
        root ← heap_at (th_data (tl_heap l)) 0;
        tmr ← tl_store l !! root;
        if time_lt now (deadline tmr) then Some (l, list_cursor, list_tail)
        else
          l ← wl_timer_heap_disarm l root;
          match list_cursor, list_tail with
          | None, _ => collect_due fuel now l (Some root) (Some root)
          | Some c, Some t =>
              tmt ← tl_store l !! t;
              collect_due fuel now
                (Loop (<[t := set_next_due (Some root) tmt]> (tl_store l)) (tl_heap l))
                (Some c) (Some root)
          | Some _, None => None
          end
      else Some (l, list_cursor, list_tail)
  end.

(** Runs the collected callbacks; [call] is what a callback does to the loop,
    and the trace lists the timers whose function ran. *)
Fixpoint run_due (fuel : nat) (call : tid -> timer_loop -> timer_loop) (l : timer_loop)
    (list_cursor : option tid) : option (timer_loop * list tid) :=
  match list_cursor with
  | None => Some (l, [])
  | Some t =>
      match fuel with
      | O => None
      | S fuel =>
          tm ← tl_store l !! t;
          let '(l, tr) :=
            if negb (timer_fd tm =? TIMER_REMOVED) then (call t l, [t]) else (l, []) in
          tm ← tl_store l !! t;
          '(l, rest) ← run_due fuel call l (next_due tm);
          Some (l, tr ++ rest)
      end
  end.

Definition wl_timer_heap_dispatch (now : timespec) (fd_ok : bool)
    (call : tid -> timer_loop -> timer_loop) (l : timer_loop)
    : option (timer_loop * Z * list tid) :=
  let n := th_active (tl_heap l) in
  '(l, list_cursor, list_tail) ← collect_due (S n) now l None None;
  l ← match list_tail with
      | Some t => tm ← tl_store l !! t;
                  Some (Loop (<[t := set_next_due None tm]> (tl_store l)) (tl_heap l))
      | None => Some l
      end;
  '(l, r) ←
    (if (0 <? th_active (tl_heap l))%nat then
       root ← heap_at (th_data (tl_heap l)) 0;
       tmr ← tl_store l !! root;
       Some (set_timer fd_ok (deadline tmr) l)
     else Some (clear_timer fd_ok l));
  if r <? 0 then Some (l, -1, [])
  else
    '(l, tr) ← run_due (S n) call l list_cursor;
    Some (l, 0, tr).

(** ** The order on expiry times *)

Definition tle (a b : timespec) : Prop := time_lt b a = false.

Lemma time_lt_spec a b :
  time_lt a b = true <->
  tv_sec a < tv_sec b \/ (tv_sec a = tv_sec b /\ tv_nsec a < tv_nsec b).
Proof. unfold time_lt. case_ifs; prop_bool; lia. Qed.

Lemma tle_spec a b :
  tle a b <-> tv_sec a < tv_sec b \/ (tv_sec a = tv_sec b /\ tv_nsec a <= tv_nsec b).
Proof.
  unfold tle. rewrite <- not_true_iff_false, time_lt_spec. lia.
Qed.

Lemma tle_refl a : tle a a.
Proof. apply tle_spec. lia. Qed.

Lemma tle_trans a b c : tle a b -> tle b c -> tle a c.
Proof. rewrite !tle_spec. lia. Qed.

Lemma time_lt_tle a b : time_lt a b = true -> tle a b.
Proof. rewrite time_lt_spec, tle_spec. lia. Qed.

#[export] Hint Resolve tle_refl tle_trans time_lt_tle : flake.

(** ** Heap order with a hole

    [V] lists the armed timers by position and [dl] their deadlines. While a
    timer is being sifted, position [c] is the hole it will end in. *)

Definition hparent (i : nat) : nat := ((i - 1) / 2)%nat.

Lemma hparent_lt i : (0 < i)%nat -> (hparent i < i)%nat.
Proof. intros. unfold hparent. apply Nat.Div0.div_lt_upper_bound; lia. Qed.

Lemma hparent_child i c :
  (0 < i)%nat -> hparent i = c <-> (i = c * 2 + 1)%nat \/ (i = c * 2 + 1 + 1)%nat.
Proof.
  intros. unfold hparent.
  pose proof (Nat.div_mod_eq (i - 1) 2). pose proof (Nat.mod_upper_bound (i - 1) 2). lia.
Qed.

Section HeapOrder.
Context (dl : tid -> timespec).
Implicit Types (V : list tid) (i c m : nat).

Definition at_le V i j : Prop :=
  forall a b, V !! i = Some a -> V !! j = Some b -> tle (dl a) (dl b).

Definition heap_ordered V : Prop := forall i, (0 < i)%nat -> at_le V (hparent i) i.

Definition hole_ok V c : Prop :=
  (forall i, (0 < i)%nat -> i <> c -> hparent i <> c -> at_le V (hparent i) i) /\
  (forall i, (0 < i)%nat -> hparent i = c -> (0 < c)%nat -> at_le V (hparent c) i).

Definition children_ok V c : Prop := forall i, (0 < i)%nat -> hparent i = c -> at_le V c i.

Definition parent_ok V c : Prop := (0 < c)%nat -> at_le V (hparent c) c.

Definition swap V c m (a b : tid) : list tid := <[c := b]> (<[m := a]> V).

Lemma swap_lookup V c m a b i :
  V !! c = Some a -> V !! m = Some b ->
  swap V c m a b !! i = if decide (i = c) then Some b else if decide (i = m) then Some a else V !! i.
Proof.
  intros Hc%lookup_lt_Some Hm%lookup_lt_Some. unfold swap. repeat case_decide; subst.
  - by rewrite list_lookup_insert_eq by (by rewrite length_insert).
  - rewrite list_lookup_insert_ne by done. by rewrite list_lookup_insert_eq.
  - by rewrite !list_lookup_insert_ne by done.
Qed.

Lemma swap_Permutation V c m a b :
  V !! c = Some a -> V !! m = Some b -> swap V c m a b ≡ₚ V.
Proof. intros Hc Hm. by apply Permutation_insert_swap. Qed.

Lemma hole_done V c :
  hole_ok V c -> children_ok V c -> parent_ok V c -> heap_ordered V.
Proof.
  intros [H1 H2] Hc Hp i Hi. destruct (decide (i = c)) as [->|]; [by apply Hp|].
  destruct (decide (hparent i = c)) as [<-|]; [by apply Hc|]. by apply H1.
Qed.

(** Changing what sits at [c], and only that, leaves a hole there. *)
Lemma hole_ok_replace (dl' : tid -> timespec) V V0 c :
  (forall i, (0 < i)%nat -> forall a b, V !! hparent i = Some a -> V !! i = Some b ->
     tle (dl' a) (dl' b)) ->
  (forall i a, i <> c -> V0 !! i = Some a -> V !! i = Some a /\ dl' a = dl a) -> hole_ok V0 c.
Proof.
  intros Ho Hsub. split; intros i Hi; [intros Hic Hpi | intros Hpi Hc0]; intros a b Ha Hb.
  - apply Hsub in Ha as [Ha <-]; [|done]. apply Hsub in Hb as [Hb <-]; [|done]. by eapply Ho.
  - pose proof (hparent_lt i Hi). pose proof (hparent_lt c Hc0).
    apply Hsub in Ha as [Ha <-]; [|lia]. apply Hsub in Hb as [Hb <-]; [|lia].
    pose proof (lookup_lt_Some _ _ _ Hb).
    destruct (lookup_lt_is_Some_2 V c) as [x Hx]; [lia|].
    apply tle_trans with (dl' x); [by eapply (Ho c)|]. eapply (Ho i); eauto. congruence.
Qed.

Lemma down_step V c m s ch :
  hole_ok V c -> V !! c = Some s -> V !! m = Some ch -> (0 < m)%nat -> hparent m = c ->
  (forall i, (0 < i)%nat -> hparent i = c -> at_le V m i) ->
  hole_ok (swap V c m s ch) m.
Proof.
  intros [H1 H2] Hc Hm Hm0 Hpm Hmin. pose proof (hparent_lt m Hm0) as Hlt.
  split; intros i Hi; [intros Him Hpi | intros Hpi _];
    pose proof (hparent_lt i Hi); intros a b; rewrite !(swap_lookup V c m s ch) by done;
    repeat case_decide; intros Ha Hb; simplify_eq; try lia.
  - by eapply Hmin.
  - eapply (H2 m); eauto; lia.
  - eapply H1; eauto.
  - eapply (H1 i); eauto; lia.
Qed.

Lemma up_step V c s pa :
  hole_ok V c -> children_ok V c -> (0 < c)%nat -> V !! c = Some s -> V !! hparent c = Some pa ->
  tle (dl s) (dl pa) ->
  hole_ok (swap V c (hparent c) s pa) (hparent c) /\
  children_ok (swap V c (hparent c) s pa) (hparent c).
Proof.
  intros [H1 H2] Hch Hc0 Hc Hp Hle. pose proof (hparent_lt c Hc0) as Hlt.
  pose proof (hparent_lt (hparent c)) as Hlt2.
  assert (Hs : forall i b, (0 < i)%nat -> i <> c -> hparent i = hparent c -> V !! i = Some b ->
    tle (dl pa) (dl b)).
  { intros i b Hi Hne Hpi Hb. eapply (H1 i); eauto; [lia|]. by rewrite Hpi. }
  split; [split|]; intros i Hi; [intros Hip Hpi|intros Hpi Hp0|intros Hpi];
    pose proof (hparent_lt i Hi); intros a b;
    rewrite !(swap_lookup V c (hparent c) s pa) by done;
    repeat case_decide; intros Ha Hb; simplify_eq; try lia; try done.
  - eapply (H2 i); eauto.
  - eapply (H1 i); eauto.
  - eapply (H1 (hparent c)); eauto; lia.
  - apply tle_trans with (dl pa); [|by apply (Hs i)]. eapply (H1 (hparent c)); eauto; lia.
  - apply tle_trans with (dl pa); [done|]. by apply (Hs i).
Qed.

End HeapOrder.

(** ** The array and the back pointers *)

(** [V] is what the array holds, except possibly at the hole [c]: there neither
    the cell nor the [heap_idx] of the timer that belongs in it is up to date.
    With [c = length V] there is no hole. *)
Record hole_rep (dl : tid -> timespec) (st : cells) (V : list tid) (c : nat) : Prop := {
  hr_len : (length V <= length st.2)%nat;
  hr_nodup : NoDup V;
  hr_at : forall i t, V !! i = Some t -> exists tm, st.1 !! t = Some tm /\ deadline tm = dl t /\
    (i <> c -> st.2 !! i = Some (Some t) /\ heap_idx tm = Z.of_nat i)
}.

(** What sifting leaves alone: everything but the positions of the timers in
    [V], and the array beyond them. *)
Definition idx_frame (V : list tid) (st st' : cells) : Prop :=
  length st'.2 = length st.2 /\
  (forall i, (length V <= i)%nat -> st'.2 !! i = st.2 !! i) /\
  (forall t, t ∉ V -> st'.1 !! t = st.1 !! t) /\
  (forall t tm, st.1 !! t = Some tm -> exists k, st'.1 !! t = Some (set_heap_idx k tm)) /\
  dom st'.1 = dom st.1.

Lemma idx_frame_refl V st : idx_frame V st st.
Proof.
  split; [done|]. split; [done|]. split; [done|]. split; [|done].
  intros t tm Ht. exists (heap_idx tm). by destruct tm.
Qed.

Lemma idx_frame_trans V V' st1 st2 st3 :
  V' ≡ₚ V -> idx_frame V st1 st2 -> idx_frame V' st2 st3 -> idx_frame V st1 st3.
Proof.
  intros HV (L1 & D1 & N1 & I1 & E1) (L2 & D2 & N2 & I2 & E2).
  split; [congruence|]. split; [|split; [|split]].
  - intros i Hi. rewrite D2, D1; auto. by rewrite HV.
  - intros t Ht. rewrite N2, N1; auto. by rewrite HV.
  - intros t tm Ht. destruct (I1 t tm Ht) as [k Hk]. destruct (I2 _ _ Hk) as [k' Hk'].
    by exists k'.
  - congruence.
Qed.

#[local] Hint Resolve idx_frame_refl : flake.

Lemma hole_rep_weaken dl st V c : hole_rep dl st V (length V) -> hole_rep dl st V c.
Proof.
  intros [Hl Hn Ha]. split; [done|done|]. intros i t Hi.
  destruct (Ha i t Hi) as (tm & ? & ? & Hx). exists tm. split_and!; auto.
  intros _. apply Hx. apply lookup_lt_Some in Hi. lia.
Qed.

Lemma hole_rep_at dl st V c i t :
  hole_rep dl st V c -> V !! i = Some t -> i <> c -> heap_at st.2 i = Some t.
Proof.
  intros [_ _ Ha] Hi Hc. destruct (Ha i t Hi) as (tm & _ & _ & Hx).
  unfold heap_at. by rewrite (proj1 (Hx Hc)).
Qed.

Lemma hole_rep_frame_insert V st t tm k c :
  t ∈ V -> (c < length V)%nat -> st.1 !! t = Some tm ->
  idx_frame V st (<[t := set_heap_idx k tm]> st.1, <[c := Some t]> st.2).
Proof.
  intros Ht Hc Htm. split; [apply length_insert|]. simpl. split; [|split; [|split]].
  - intros i Hi. rewrite list_lookup_insert_ne by lia. done.
  - intros t' Ht'. rewrite lookup_insert_ne by set_solver. done.
  - intros t' tm' Ht'. destruct (decide (t = t')) as [<-|].
    + exists k. rewrite lookup_insert_eq. congruence.
    + exists (heap_idx tm'). rewrite lookup_insert_ne by done. by destruct tm'.
  - rewrite dom_insert_L. apply elem_of_dom_2 in Htm. set_solver.
Qed.

(** Writing the timer of position [m] into the hole moves the hole to [m]. *)
Lemma heap_set_step dl st V c m s b :
  hole_rep dl st V c -> V !! c = Some s -> V !! m = Some b -> m <> c ->
  exists st', heap_set st b c = Some (Z.of_nat m, st') /\
    hole_rep dl st' (swap V c m s b) m /\ idx_frame V st st'.
Proof.
  intros [Hl Hn Ha] Hc Hm Hne. pose proof (lookup_lt_Some _ _ _ Hc) as Hlt.
  destruct (Ha m b Hm) as (tmb & Hb & Hdb & Hx). destruct (Hx Hne) as [_ Hidx].
  eexists. unfold heap_set. rewrite Hb. simpl. rewrite (proj2 (Nat.ltb_lt _ _)) by lia.
  rewrite Hidx. split; [done|]. split.
  - split; simpl.
    + rewrite length_insert. unfold swap. by rewrite !length_insert.
    + by rewrite swap_Permutation.
    + intros i t. rewrite swap_lookup by done. repeat case_decide; intros Hi; simplify_eq.
      * exists (set_heap_idx (Z.of_nat c) tmb). rewrite lookup_insert_eq.
        split_and!; auto. intros _. rewrite list_lookup_insert_eq by lia. done.
      * assert (b ≠ t) by (intros ->; by apply Hne, (NoDup_lookup V m c t)).
        destruct (Ha c t Hc) as (tm & ? & ? & _).
        exists tm. rewrite lookup_insert_ne by done. by split_and!.
      * assert (b ≠ t) by (intros ->; apply H0; by eapply NoDup_lookup).
        destruct (Ha i t Hi) as (tm & ? & ? & Hy).
        exists tm. rewrite lookup_insert_ne by done. split_and!; auto.
        intros _. rewrite list_lookup_insert_ne by congruence. auto.
  - apply hole_rep_frame_insert; [by eapply list_elem_of_lookup_2|done|done].
Qed.

(** Writing the sifted timer into the hole closes it. *)
Lemma heap_set_close dl st V c s :
  hole_rep dl st V c -> V !! c = Some s ->
  exists z st', heap_set st s c = Some (z, st') /\
    hole_rep dl st' V (length V) /\ idx_frame V st st'.
Proof.
  intros [Hl Hn Ha] Hc. pose proof (lookup_lt_Some _ _ _ Hc) as Hlt.
  destruct (Ha c s Hc) as (tms & Hs & Hds & _).
  eexists _, _. unfold heap_set. rewrite Hs. simpl. rewrite (proj2 (Nat.ltb_lt _ _)) by lia.
  split; [done|]. split.
  - split; simpl; [by rewrite length_insert|done|].
    intros i t Hi. destruct (decide (i = c)) as [->|Hne]; simplify_eq.
    + eexists. rewrite lookup_insert_eq. split_and!; auto.
      intros _. rewrite list_lookup_insert_eq by lia. done.
    + assert (s ≠ t) by (intros ->; by apply Hne, (NoDup_lookup V i c t)).
      destruct (Ha i t Hi) as (tm & ? & ? & Hx). exists tm.
      rewrite lookup_insert_ne by done. rewrite list_lookup_insert_ne by congruence.
      split_and!; auto.
  - apply hole_rep_frame_insert; [by eapply list_elem_of_lookup_2|done|done].
Qed.

(** [pick_child] finds the child with the smaller deadline. *)
Lemma pick_child_spec dl st V c lc :
  hole_rep dl st V c -> (lc = c * 2 + 1)%nat -> (lc < length V)%nat ->
  exists m ch tm, pick_child st (length V) lc = Some (ch, tm) /\ V !! m = Some ch /\
    deadline tm = dl ch /\ (0 < m)%nat /\ hparent m = c /\
    (forall i, (0 < i)%nat -> hparent i = c -> at_le dl V m i).
Proof.
  intros Hrep -> Hlt. pose proof Hrep as [_ _ Ha].
  destruct (lookup_lt_is_Some_2 V _ Hlt) as [ch Hch].
  destruct (Ha _ _ Hch) as (tmc & Htc & Hdc & _).
  unfold pick_child. rewrite (hole_rep_at dl st V c _ ch Hrep Hch) by lia. simpl. rewrite Htc. simpl.
  destruct (Nat.ltb_spec (c * 2 + 1 + 1) (length V)) as [Ho|Ho].
  - destruct (lookup_lt_is_Some_2 V _ Ho) as [oc Hoc].
    destruct (Ha _ _ Hoc) as (tmo & Hto & Hdo & _).
    rewrite (hole_rep_at dl st V c _ oc Hrep Hoc) by lia. simpl. rewrite Hto. simpl.
    rewrite Hdo, Hdc. destruct (time_lt (dl oc) (dl ch)) eqn:E.
    + exists (c * 2 + 1 + 1)%nat, oc, tmo. split_and!; auto; [lia|apply hparent_child; lia|].
      intros i Hi [->| ->]%hparent_child a b Ha' Hb'; simplify_eq; auto with flake.
    + exists (c * 2 + 1)%nat, ch, tmc. split_and!; auto; [lia|apply hparent_child; lia|].
      intros i Hi [->| ->]%hparent_child a b Ha' Hb'; simplify_eq; auto with flake.
  - exists (c * 2 + 1)%nat, ch, tmc. split_and!; auto; [lia|apply hparent_child; lia|].
    intros i Hi [->| ->]%hparent_child a b Ha' Hb'; simplify_eq; auto with flake.
    apply lookup_lt_Some in Hb'. lia.
Qed.

(** ** Sifting *)

Lemma sift_down_loop_spec dl fuel : forall st V c s,
  hole_rep dl st V c -> V !! c = Some s -> hole_ok dl V c -> (length V - c < fuel)%nat ->
  exists st' V' c', sift_down_loop fuel st (length V) (dl s) c = Some (st', c') /\
    V' ≡ₚ V /\ V' !! c' = Some s /\ hole_rep dl st' V' c' /\ hole_ok dl V' c' /\
    children_ok dl V' c' /\ (parent_ok dl V c -> parent_ok dl V' c') /\ idx_frame V st st'.
Proof.
  induction fuel as [|fuel IH]; intros st V c s Hrep Hc Hok Hf; [lia|].
  pose proof (lookup_lt_Some _ _ _ Hc) as Hlt. cbn [sift_down_loop].
  destruct (Nat.leb_spec (length V) (c * 2 + 1)) as [Hle|Hle].
  { exists st, V, c. split_and!; auto with flake.
    intros i Hi [->| ->]%hparent_child a b _ Hb; auto; apply lookup_lt_Some in Hb; lia. }
  destruct (pick_child_spec dl st V c _ Hrep eq_refl Hle)
    as (m & ch & tm & -> & Hm & Hd & Hm0 & Hpm & Hmin). cbn. rewrite Hd.
  pose proof (hparent_lt m Hm0) as Hcm. destruct (time_lt (dl ch) (dl s)) eqn:E.
  - destruct (heap_set_step dl st V c m s ch Hrep Hc Hm) as (st1 & -> & Hrep1 & Hfr); [lia|].
    cbn. rewrite Nat2Z.id. set (V1 := swap V c m s ch) in *.
    assert (HV1 : V1 ≡ₚ V) by (by apply swap_Permutation).
    destruct (IH st1 V1 m s) as (st' & V' & c' & Hl & HV' & ? & ? & ? & ? & Hpar & Hfr').
    + done.
    + unfold V1. rewrite swap_lookup, decide_False, decide_True by (done || lia). done.
    + by apply down_step.
    + rewrite HV1. apply lookup_lt_Some in Hm. lia.
    + rewrite HV1 in Hl. exists st', V', c'. split_and!; auto.
      * by rewrite HV'.
      * intros _. apply Hpar. intros _ a b. rewrite Hpm. unfold V1.
        rewrite !(swap_lookup V c m s ch) by done.
        repeat case_decide; try lia. intros [= <-] [= <-]. auto with flake.
      * by eapply idx_frame_trans.
  - exists st, V, c. split_and!; auto with flake.
    intros i Hi Hpi a b Ha Hb. simplify_eq. apply tle_trans with (dl ch); [done|].
    by eapply (Hmin i).
Qed.

Lemma sift_up_loop_spec dl fuel : forall st V c s,
  hole_rep dl st V c -> V !! c = Some s -> hole_ok dl V c -> children_ok dl V c -> (c < fuel)%nat ->
  exists st' V' c', sift_up_loop fuel st (dl s) c = Some (st', c') /\
    V' ≡ₚ V /\ V' !! c' = Some s /\ hole_rep dl st' V' c' /\ heap_ordered dl V' /\
    idx_frame V st st'.
Proof.
  induction fuel as [|fuel IH]; intros st V c s Hrep Hc Hok Hch Hf; [lia|].
  pose proof (lookup_lt_Some _ _ _ Hc) as Hlt. cbn [sift_up_loop].
  destruct (Nat.ltb_spec 0 c) as [Hc0|Hc0].
  2: { exists st, V, c. split_and!; auto with flake. eapply hole_done; eauto. intros ?; lia. }
  change ((c - 1) / 2)%nat with (hparent c). pose proof (hparent_lt c Hc0) as Hpl.
  destruct (lookup_lt_is_Some_2 V (hparent c)) as [pa Hpa]; [lia|].
  pose proof Hrep as [_ _ Ha]. destruct (Ha _ _ Hpa) as (tmp & Htp & Hdp & _).
  rewrite (hole_rep_at dl st V c _ pa Hrep Hpa) by lia. cbn. rewrite Htp. cbn. rewrite Hdp.
  destruct (time_lt (dl s) (dl pa)) eqn:E.
  - destruct (heap_set_step dl st V c (hparent c) s pa Hrep Hc Hpa) as (st1 & -> & Hrep1 & Hfr); [lia|].
    cbn. rewrite Nat2Z.id. set (V1 := swap V c (hparent c) s pa) in *.
    assert (HV1 : V1 ≡ₚ V) by (by apply swap_Permutation).
    destruct (up_step dl V c s pa Hok Hch Hc0 Hc Hpa) as [Hok1 Hch1]; [auto with flake|].
    destruct (IH st1 V1 (hparent c) s) as (st' & V' & c' & Hl & HV' & ? & ? & ? & Hfr'); auto.
    + unfold V1. rewrite swap_lookup, decide_False, decide_True by (done || lia). done.
    + lia.
    + exists st', V', c'. split_and!; auto; [by rewrite HV'|]. by eapply idx_frame_trans.
  - exists st, V, c. split_and!; auto with flake. eapply hole_done; eauto.
    intros _ a b Ha' Hb'. simplify_eq. done.
Qed.

(** The timer at position [c] of an array without a hole. *)
Lemma hole_rep_full dl st V c s :
  hole_rep dl st V (length V) -> V !! c = Some s ->
  exists tm, st.1 !! s = Some tm /\ deadline tm = dl s /\ heap_idx tm = Z.of_nat c /\
    heap_at st.2 c = Some s.
Proof.
  intros [Hl Hn Ha] Hc. pose proof (lookup_lt_Some _ _ _ Hc).
  destruct (Ha c s Hc) as (tm & ? & ? & Hx). destruct Hx as [Hd Hi]; [lia|].
  exists tm. split_and!; auto. unfold heap_at. by rewrite Hd.
Qed.

Lemma heap_sift_down_spec dl st V c s :
  hole_rep dl st V (length V) -> V !! c = Some s -> hole_ok dl V c ->
  exists st' V' c', heap_sift_down st (length V) s = Some st' /\ V' ≡ₚ V /\ V' !! c' = Some s /\
    hole_rep dl st' V' (length V') /\ hole_ok dl V' c' /\ children_ok dl V' c' /\
    (parent_ok dl V c -> parent_ok dl V' c') /\ idx_frame V st st'.
Proof.
  intros Hrep Hc Hok. destruct (hole_rep_full _ _ _ _ _ Hrep Hc) as (tm & Htm & Hd & Hi & _).
  unfold heap_sift_down. rewrite Htm. cbn [mbind option_bind]. rewrite Hi, Nat2Z.id, Hd.
  destruct (sift_down_loop_spec dl (S (length V)) st V c s)
    as (st1 & V1 & c1 & -> & HV1 & Hc1 & Hr1 & ? & ? & ? & Hfr); auto using hole_rep_weaken; [lia|].
  cbn. destruct (heap_set_close dl st1 V1 c1 s Hr1 Hc1) as (z & st' & -> & ? & Hfr').
  exists st', V1, c1. split_and!; auto. by eapply idx_frame_trans.
Qed.

Lemma heap_sift_up_spec dl st V c s :
  hole_rep dl st V (length V) -> V !! c = Some s -> hole_ok dl V c -> children_ok dl V c ->
  exists st' V', heap_sift_up st s = Some st' /\ V' ≡ₚ V /\
    hole_rep dl st' V' (length V') /\ heap_ordered dl V' /\ idx_frame V st st'.
Proof.
  intros Hrep Hc Hok Hch. destruct (hole_rep_full _ _ _ _ _ Hrep Hc) as (tm & Htm & Hd & Hi & _).
  unfold heap_sift_up. rewrite Htm. cbn [mbind option_bind]. rewrite Hi, Nat2Z.id, Hd.
  destruct (sift_up_loop_spec dl (S c) st V c s)
    as (st1 & V1 & c1 & -> & HV1 & Hc1 & Hr1 & ? & Hfr); auto using hole_rep_weaken.
  cbn. destruct (heap_set_close dl st1 V1 c1 s Hr1 Hc1) as (z & st' & -> & ? & Hfr').
  exists st', V1. split_and!; auto. by eapply idx_frame_trans.
Qed.

(** In an ordered heap the root is a minimum. *)
Lemma heap_ordered_root dl V r i t :
  heap_ordered dl V -> V !! 0%nat = Some r -> V !! i = Some t -> tle (dl r) (dl t).
Proof.
  intros Ho Hr. revert t. induction i as [i IH] using lt_wf_ind. intros t Ht.
  destruct (decide (i = 0)%nat) as [->|Hne]; [simplify_eq; auto with flake|].
  pose proof (hparent_lt i ltac:(lia)) as Hp. pose proof (lookup_lt_Some _ _ _ Ht).
  destruct (lookup_lt_is_Some_2 V (hparent i)) as [p Hpp]; [lia|].
  apply tle_trans with (dl p); [by apply (IH (hparent i))|]. by eapply (Ho i); [lia|..].
Qed.

(** ** The invariant of the loop's timers *)

Definition dl_of (store : gmap tid timer) (t : tid) : timespec :=
  from_option deadline (TS 0 0) (store !! t).

(** The fields of a timer that do not depend on its heap position. *)
Definition tview (tm : timer) : timespec * option tid * Z :=
  (deadline tm, next_due tm, timer_fd tm).

(** How many timers have not been removed. *)
Definition live_count (store : gmap tid timer) : nat :=
  size (filter (fun p : tid * Z => p.2 <> TIMER_REMOVED) (timer_fd <$> store)).

(** [V] lists the armed timers by heap position. *)
Record heap_inv (l : timer_loop) (V : list tid) : Prop := {
  hi_active : th_active (tl_heap l) = length V;
  hi_rep : hole_rep (dl_of (tl_store l)) (tl_store l, th_data (tl_heap l)) V (length V);
  hi_ord : heap_ordered (dl_of (tl_store l)) V;
  hi_idx : forall t tm, tl_store l !! t = Some tm -> t ∉ V -> heap_idx tm = -1;
  hi_live : forall t tm, t ∈ V -> tl_store l !! t = Some tm -> timer_fd tm <> TIMER_REMOVED;
  hi_space : th_space (tl_heap l) = Z.of_nat (length (th_data (tl_heap l)));
  hi_count : th_count (tl_heap l) = Z.of_nat (live_count (tl_store l));
  hi_fits : th_count (tl_heap l) <= th_space (tl_heap l)
}.

(** The armed timers and their deadlines: what the heap stands for. *)
Definition armed (l : timer_loop) : gmap tid timespec :=
  deadline <$> filter (fun p : tid * timer => heap_idx p.2 <> -1) (tl_store l).

Lemma idx_frame_tview V st st' :
  idx_frame V st st' -> tview <$> st'.1 = tview <$> st.1.
Proof.
  intros (_ & _ & _ & HI & HD). apply map_eq. intros t. rewrite !lookup_fmap.
  destruct (st.1 !! t) as [tm|] eqn:E.
  - destruct (HI t tm E) as [k ->]. done.
  - apply not_elem_of_dom in E. rewrite <- HD in E. apply not_elem_of_dom in E. by rewrite E.
Qed.

Lemma dl_of_tview s s' t : tview <$> s = tview <$> s' -> dl_of s t = dl_of s' t.
Proof.
  intros H. pose proof (f_equal (lookup t) H) as Ht. rewrite !lookup_fmap in Ht.
  unfold dl_of, tview in *. destruct (s !! t), (s' !! t); simpl in *; by simplify_eq.
Qed.

Lemma live_count_tview s s' : tview <$> s = tview <$> s' -> live_count s = live_count s'.
Proof.
  intros H. unfold live_count. f_equal. f_equal.
  assert (Hs : forall m : gmap tid timer, timer_fd <$> m = snd <$> (tview <$> m)).
  { intros m. rewrite <- map_fmap_compose. done. }
  by rewrite !Hs, H.
Qed.

Lemma fd_tview (s s' : gmap tid timer) t tm' :
  tview <$> s' = tview <$> s -> s' !! t = Some tm' ->
  exists tm, s !! t = Some tm /\ tview tm' = tview tm.
Proof.
  intros H Ht. pose proof (f_equal (lookup t) H) as E. rewrite !lookup_fmap, Ht in E.
  destruct (s !! t) as [tm|]; simpl in E; [|done]. exists tm. split; congruence.
Qed.

Lemma hole_rep_ext dl dl' st V c :
  (forall t, dl t = dl' t) -> hole_rep dl st V c -> hole_rep dl' st V c.
Proof.
  intros E [? ? Ha]. split; auto. intros i t Hi. destruct (Ha i t Hi) as (tm & ? & ? & ?).
  exists tm. rewrite <- E. auto.
Qed.

Lemma heap_ordered_ext dl dl' V :
  (forall t, dl t = dl' t) -> heap_ordered dl V -> heap_ordered dl' V.
Proof. intros E Ho i Hi a b Ha Hb. rewrite <- !E. by eapply Ho. Qed.

(** A sifted array gives the invariant back. [store0] and [V0] are the timers
    before sifting. *)
Lemma heap_inv_sift store0 data0 h st' V0 V' :
  hole_rep (dl_of store0) st' V' (length V') -> heap_ordered (dl_of store0) V' ->
  V' ≡ₚ V0 -> idx_frame V0 (store0, data0) st' ->
  th_active h = length V0 -> th_space h = Z.of_nat (length data0) ->
  th_count h = Z.of_nat (live_count store0) -> th_count h <= th_space h ->
  (forall t tm, store0 !! t = Some tm -> t ∉ V0 -> heap_idx tm = -1) ->
  (forall t tm, t ∈ V0 -> store0 !! t = Some tm -> timer_fd tm <> TIMER_REMOVED) ->
  heap_inv (Loop st'.1 (set_data st'.2 h)) V' /\ tview <$> st'.1 = tview <$> store0.
Proof.
  intros Hrep Hord HV Hfr Hact Hsp Hcnt Hfit Hidx Hlive.
  pose proof (idx_frame_tview _ _ _ Hfr) as Hv. simpl in Hv. split; [|done].
  assert (Hdl : forall t, dl_of store0 t = dl_of st'.1 t) by (intros; by apply dl_of_tview).
  pose proof Hfr as (Hlen & _ & Hout & _ & _). split; simpl.
  - by rewrite HV.
  - eapply hole_rep_ext; [done|]. by destruct st'.
  - by eapply heap_ordered_ext.
  - intros t tm Ht Hn. rewrite HV in Hn. rewrite Hout in Ht by done. by eapply Hidx.
  - intros t tm Hin Ht. rewrite HV in Hin. destruct (fd_tview _ _ _ _ Hv Ht) as (tm0 & H0 & E).
    injection E as _ _ ->. by eapply Hlive.
  - simpl in Hlen. by rewrite Hlen.
  - by rewrite (live_count_tview st'.1 store0).
  - done.
Qed.

Lemma heap_inv_in l V t :
  heap_inv l V -> t ∈ V -> exists i tm, V !! i = Some t /\ tl_store l !! t = Some tm /\
    heap_idx tm = Z.of_nat i /\ (i < length V)%nat /\ deadline tm = dl_of (tl_store l) t.
Proof.
  intros Hi [i Hl]%list_elem_of_lookup. pose proof (lookup_lt_Some _ _ _ Hl).
  destruct (hole_rep_full _ _ _ _ _ (hi_rep _ _ Hi) Hl) as (tm & ? & ? & ? & _).
  exists i, tm. by split_and!.
Qed.

Lemma heap_inv_armed_idx l V t tm :
  heap_inv l V -> tl_store l !! t = Some tm -> (t ∈ V <-> heap_idx tm <> -1).
Proof.
  intros Hi Ht. split.
  - intros Hin. destruct (heap_inv_in _ _ _ Hi Hin) as (i & tm' & _ & ? & ? & _).
    simplify_eq. lia.
  - intros Hne. destruct (decide (t ∈ V)); [done|]. by destruct Hne, (hi_idx _ _ Hi t tm).
Qed.

Lemma armed_lookup l V t :
  heap_inv l V -> armed l !! t = if decide (t ∈ V) then Some (dl_of (tl_store l) t) else None.
Proof.
  intros Hi. unfold armed, dl_of. rewrite lookup_fmap, map_lookup_filter.
  destruct (tl_store l !! t) as [tm|] eqn:E; simpl.
  - pose proof (heap_inv_armed_idx _ _ _ _ Hi E) as Hiff.
    repeat case_guard || case_decide; simpl; auto; exfalso; naive_solver.
  - case_decide as Hin; [|done]. destruct (heap_inv_in _ _ _ Hi Hin) as (? & ? & _ & ? & _).
    congruence.
Qed.

(** Every armed timer is live, so a live disarmed timer leaves room in the
    array for itself. *)
Lemma heap_inv_room l V t tm :
  heap_inv l V -> tl_store l !! t = Some tm -> t ∉ V -> timer_fd tm <> TIMER_REMOVED ->
  (length V < length (th_data (tl_heap l)))%nat.
Proof.
  intros Hi Ht Hn Hl.
  assert (Hsub : list_to_set (t :: V) ⊆ (dom (filter (fun p : tid * Z => p.2 <> TIMER_REMOVED)
      (timer_fd <$> tl_store l)) : gset tid)).
  { intros t' [->|Hin]%elem_of_list_to_set%elem_of_cons; apply elem_of_dom.
    - exists (timer_fd tm). apply map_lookup_filter_Some. rewrite lookup_fmap, Ht. done.
    - destruct (heap_inv_in _ _ _ Hi Hin) as (i & tm' & _ & Ht' & _).
      exists (timer_fd tm'). apply map_lookup_filter_Some. rewrite lookup_fmap, Ht'.
      split; [done|]. by eapply (hi_live _ _ Hi). }
  apply subseteq_size in Hsub. rewrite size_list_to_set, size_dom in Hsub.
  2: { constructor; [done|]. apply (hr_nodup _ _ _ _ (hi_rep _ _ Hi)). }
  pose proof (hi_space _ _ Hi). pose proof (hi_fits _ _ Hi). pose proof (hi_count _ _ Hi).
  unfold live_count in *. simpl in Hsub. lia.
Qed.

Lemma dl_of_insert_ne s t t' tm : t <> t' -> dl_of (<[t := tm]> s) t' = dl_of s t'.
Proof. intros. unfold dl_of. by rewrite lookup_insert_ne. Qed.

Lemma dl_of_insert_eq s t tm : dl_of (<[t := tm]> s) t = deadline tm.
Proof. unfold dl_of. by rewrite lookup_insert_eq. Qed.

Lemma live_count_insert s t tm tm' :
  s !! t = Some tm -> timer_fd tm' = timer_fd tm -> live_count (<[t := tm']> s) = live_count s.
Proof.
  intros Ht Hf. unfold live_count. f_equal. f_equal. rewrite fmap_insert, Hf.
  apply insert_id. by rewrite lookup_fmap, Ht.
Qed.

(** Changing the deadline of one timer, the array being otherwise ordered. *)
Lemma hole_rep_redeadline store data V s tm d :
  hole_rep (dl_of store) (store, data) V (length V) -> store !! s = Some tm ->
  hole_rep (dl_of (<[s := set_deadline d tm]> store))
    (<[s := set_deadline d tm]> store, data) V (length V).
Proof.
  intros [Hl Hn Ha] Hs. split; [done|done|]. intros i t Hi. simpl in *.
  destruct (Ha i t Hi) as (tm' & Ht & Hd & Hx). destruct (decide (s = t)) as [->|Hne].
  - simplify_eq. exists (set_deadline d tm). rewrite lookup_insert_eq, dl_of_insert_eq.
    split_and!; auto.
  - exists tm'. rewrite lookup_insert_ne, dl_of_insert_ne by done. auto.
Qed.

Lemma heap_ordered_hole dl dl' V V0 c :
  heap_ordered dl V ->
  (forall i a, i <> c -> V0 !! i = Some a -> V !! i = Some a /\ dl' a = dl a) ->
  hole_ok dl' V0 c.
Proof.
  intros Ho Hsub. apply (hole_ok_replace dl' dl V); [exact Ho|].
  intros i a Hi Ha. destruct (Hsub i a Hi Ha). auto.
Qed.

(** What an operation that (re)arms [source] for [d] achieves. *)
Definition armed_for (l l' : timer_loop) (source : tid) (d : timespec) (V' : list tid) : Prop :=
  heap_inv l' V' /\ source ∈ V' /\
  (exists tm, tl_store l !! source = Some tm /\
     tview <$> tl_store l' = <[source := (d, next_due tm, timer_fd tm)]> (tview <$> tl_store l)) /\
  (forall t, t <> source -> t ∈ V' <-> armed l !! t <> None) /\
  th_armed (tl_heap l') = th_armed (tl_heap l).

Lemma armed_in l V t : heap_inv l V -> t ∈ V <-> armed l !! t <> None.
Proof. intros Hi. rewrite (armed_lookup _ _ _ Hi). case_decide; naive_solver. Qed.

Lemma snoc_lookup_inv {A} (V : list A) s i a :
  i <> length V -> (V ++ [s]) !! i = Some a -> V !! i = Some a.
Proof.
  intros Hi Ha. pose proof (lookup_lt_Some _ _ _ Ha) as Hlt. rewrite length_app in Hlt.
  simpl in Hlt. by rewrite lookup_app_l in Ha by lia.
Qed.

Lemma hole_rep_snoc store data V s tm' :
  hole_rep (dl_of store) (store, data) V (length V) -> s ∉ V -> (length V < length data)%nat ->
  heap_idx tm' = Z.of_nat (length V) ->
  hole_rep (dl_of (<[s := tm']> store)) (<[s := tm']> store, <[length V := Some s]> data)
    (V ++ [s]) (length (V ++ [s])).
Proof.
  intros [Hlen Hnd Hat] Hn Hroom Hidx. split; simpl in *.
  - rewrite length_app, length_insert. simpl. lia.
  - apply list.NoDup_app. split_and!; [done| |apply NoDup_singleton].
    by intros x Hx ->%list_elem_of_singleton.
  - intros i t Ht. destruct (decide (i = length V)) as [->|Hi'].
    + rewrite lookup_app_r, Nat.sub_diag in Ht by lia. simplify_eq/=. exists tm'.
      rewrite lookup_insert_eq, dl_of_insert_eq, list_lookup_insert_eq by lia. done.
    + apply snoc_lookup_inv in Ht; [|done]. destruct (Hat i t Ht) as (tmt & ? & ? & Hx).
      pose proof (lookup_lt_Some _ _ _ Ht). exists tmt.
      assert (s <> t) by (intros ->; by apply Hn, list_elem_of_lookup; exists i).
      rewrite lookup_insert_ne, dl_of_insert_ne by done.
      rewrite list_lookup_insert_ne by lia. split_and!; auto.
Qed.

Lemma wl_timer_heap_arm_spec l V source tm d :
  heap_inv l V -> tl_store l !! source = Some tm -> source ∉ V -> timer_fd tm <> TIMER_REMOVED ->
  exists l' V', wl_timer_heap_arm l source d = Some l' /\ armed_for l l' source d V'.
Proof.
  intros Hi Hs Hn Hl. pose proof (hi_idx _ _ Hi _ _ Hs Hn) as Hidx.
  pose proof (heap_inv_room _ _ _ _ Hi Hs Hn Hl) as Hroom. pose proof (hi_active _ _ Hi) as Hact.
  unfold wl_timer_heap_arm. rewrite Hs. cbn [mbind option_bind]. rewrite Hidx, Hact.
  rewrite (proj2 (Nat.ltb_lt _ _) Hroom). cbn [negb Z.eqb Pos.eqb].
  set (tm' := set_heap_idx (Z.of_nat (length V)) (set_deadline d tm)).
  set (store0 := <[source := tm']> (tl_store l)).
  set (data0 := <[length V := Some source]> (th_data (tl_heap l))).
  destruct (heap_sift_up_spec (dl_of store0) (store0, data0) (V ++ [source]) (length V) source)
    as (st' & V' & -> & HV & Hr & Ho & Hfr).
  - apply hole_rep_snoc; auto. apply (hi_rep _ _ Hi).
  - rewrite lookup_app_r, Nat.sub_diag by lia. done.
  - eapply (heap_ordered_hole (dl_of (tl_store l)) _ V); [apply (hi_ord _ _ Hi)|].
    intros i a Hi' Ha%snoc_lookup_inv; [|done]. split; [done|]. unfold store0.
    rewrite dl_of_insert_ne; [done|]. intros ->. apply Hn, list_elem_of_lookup. by exists i.
  - intros i Hi' Hp a b _ Hb. apply lookup_lt_Some in Hb. rewrite length_app in Hb. simpl in Hb.
    apply hparent_child in Hp; lia.
  - cbn [mbind option_bind]. eexists _, V'. split; [done|].
    unfold with_cells. destruct (heap_inv_sift store0 data0
      (set_active (S (length V)) (tl_heap l)) st' (V ++ [source]) V') as [Hinv Hview]; auto.
    + simpl. rewrite length_app. simpl. lia.
    + unfold data0. rewrite length_insert. apply (hi_space _ _ Hi).
    + unfold store0. rewrite (live_count_insert _ _ tm) by done. apply (hi_count _ _ Hi).
    + apply (hi_fits _ _ Hi).
    + intros t tmt Ht Hnt. unfold store0 in Ht. rewrite lookup_insert_ne in Ht by set_solver.
      eapply (hi_idx _ _ Hi); [done|set_solver].
    + intros t tmt Hin [[<- <-]|[? Ht]]%lookup_insert_Some; [done|].
      eapply (hi_live _ _ Hi); [|done]. set_solver.
    + split; [exact Hinv|]. split; [rewrite HV; set_solver|]. split; [|split; [|done]].
      * exists tm. split; [done|]. simpl. rewrite Hview. unfold store0. by rewrite fmap_insert.
      * intros t Ht. rewrite <- (armed_in l V) by done. rewrite HV. set_solver.
Qed.

(** Rearming a timer that is already in the heap, earlier or later. *)
Lemma timer_reposition_armed_spec l V source d :
  heap_inv l V -> source ∈ V ->
  exists l' V', timer_reposition l source d = Some l' /\ armed_for l l' source d V'.
Proof.
  intros Hi Hin. destruct (heap_inv_in _ _ _ Hi Hin) as (c & tm & Hc & Hs & Hidx & Hlt & Hd).
  unfold timer_reposition. rewrite Hs. cbn [mbind option_bind].
  rewrite (proj2 (Z.eqb_neq _ _)) by lia. rewrite (hi_active _ _ Hi).
  set (store0 := <[source := set_deadline d tm]> (tl_store l)).
  pose proof (hole_rep_redeadline _ _ _ _ _ d (hi_rep _ _ Hi) Hs) as Hrep0. fold store0 in Hrep0.
  pose proof (hr_nodup _ _ _ _ (hi_rep _ _ Hi)) as Hnd. pose proof (hi_ord _ _ Hi) as Hord.
  assert (Hother : forall i a, i <> c -> V !! i = Some a -> V !! i = Some a /\
      dl_of store0 a = dl_of (tl_store l) a).
  { intros i a Hic Ha. split; [done|]. apply dl_of_insert_ne. intros ->.
    by apply Hic, (NoDup_lookup V i c a). }
  assert (Hself : dl_of store0 source = d) by apply dl_of_insert_eq.
  assert (Hok : hole_ok (dl_of store0) V c) by (by eapply heap_ordered_hole).
  assert (Hfin : forall st' V', hole_rep (dl_of store0) st' V' (length V') ->
    heap_ordered (dl_of store0) V' -> V' ≡ₚ V -> idx_frame V (store0, th_data (tl_heap l)) st' ->
    armed_for l (with_cells l (tl_heap l) st') source d V').
  { intros st' V' Hr Ho HV Hfr. unfold with_cells.
    destruct (heap_inv_sift store0 (th_data (tl_heap l)) (tl_heap l) st' V V') as [Hinv Hview]; auto.
    - apply (hi_active _ _ Hi).
    - apply (hi_space _ _ Hi).
    - unfold store0. rewrite (live_count_insert _ _ tm) by done. apply (hi_count _ _ Hi).
    - apply (hi_fits _ _ Hi).
    - intros t tmt Ht Hn. unfold store0 in Ht. rewrite lookup_insert_ne in Ht by congruence.
      by eapply (hi_idx _ _ Hi).
    - intros t tmt Hint [[<- <-]|[? Ht]]%lookup_insert_Some;
        [apply (hi_live _ _ Hi source tm Hint Hs)|by eapply (hi_live _ _ Hi)].
    - split; [exact Hinv|]. split; [by rewrite HV|]. split; [|split; [|done]].
      + exists tm. split; [done|]. simpl. rewrite Hview. unfold store0. by rewrite fmap_insert.
      + intros t Ht. rewrite <- (armed_in l V) by done. by rewrite HV. }
  destruct (time_lt d (deadline tm)) eqn:E.
  - destruct (heap_sift_up_spec _ _ _ _ source Hrep0 Hc Hok) as (st' & V' & -> & ? & ? & ? & ?).
    { intros i Hi' Hp a b Ha Hb. assert (a = source) as -> by congruence.
      pose proof (hparent_lt i Hi'). rewrite Hself. destruct (Hother i b) as [_ ->]; [lia|done|].
      apply tle_trans with (deadline tm); [auto with flake|]. rewrite Hd. eapply (Hord i); congruence. }
    eexists _, V'. split; [done|]. by apply Hfin.
  - destruct (heap_sift_down_spec _ _ _ _ source Hrep0 Hc Hok)
      as (st' & V' & c' & -> & ? & ? & ? & ? & ? & Hpar & ?).
    eexists _, V'. split; [done|]. apply Hfin; auto. eapply hole_done; eauto. apply Hpar.
    intros Hc0 a b Ha Hb. assert (b = source) as -> by congruence.
    pose proof (hparent_lt c Hc0). rewrite Hself. destruct (Hother (hparent c) a) as [_ ->]; [lia|done|].
    apply tle_trans with (deadline tm); [|exact E]. rewrite Hd. by eapply (Hord c).
Qed.

(** ** Disarming *)

Lemma snoc_replace {A} (U : list A) (z : A) (s : A) (c : nat) :
  U !! c = Some s -> U ++ [z] ≡ₚ s :: <[c := z]> U.
Proof.
  intros Hc. pose proof (lookup_lt_Some _ _ _ Hc) as Hlt.
  assert (H : <[c := z]> (<[length U := s]> (U ++ [z])) ≡ₚ U ++ [z]).
  { apply Permutation_insert_swap.
    - rewrite lookup_app_r, Nat.sub_diag by lia. done.
    - by rewrite lookup_app_l. }
  rewrite <- H, insert_app_r_alt, Nat.sub_diag by lia. simpl.
  rewrite insert_app_l by done. by rewrite Permutation_app_comm.
Qed.

(** The array once the last timer has taken the place of [s]. *)
Lemma hole_rep_take_last store data U z s c tm tml :
  hole_rep (dl_of store) (store, data) (U ++ [z]) (length (U ++ [z])) ->
  U !! c = Some s -> store !! s = Some tm -> store !! z = Some tml ->
  let store0 := <[s := set_deadline (TS 0 0) (set_heap_idx (-1) tm)]> store in
  let store1 := <[z := set_heap_idx (Z.of_nat c) tml]> store0 in
  hole_rep (dl_of store1) (store1, <[c := Some z]> (<[length U := None]> data))
    (<[c := z]> U) (length (<[c := z]> U)).
Proof.
  intros [Hlen Hnd Hat] Hc Hs Hz store0 store1. simpl in *. rewrite length_app in Hlen, Hat.
  simpl in Hlen, Hat. pose proof (lookup_lt_Some _ _ _ Hc) as Hlt.
  pose proof (snoc_replace U z s c Hc) as HP. rewrite HP in Hnd.
  apply NoDup_cons in Hnd as [Hsn Hnd].
  assert (Hzi : z ∈ <[c:=z]> U)
    by (apply list_elem_of_lookup; exists c; by apply list_lookup_insert_eq).
  split; simpl; rewrite ?length_insert; [lia|done|].
  intros i t Ht. assert (t <> s) by (intros ->; by apply Hsn, list_elem_of_lookup; exists i).
  destruct (decide (i = c)) as [->|Hic].
  - rewrite list_lookup_insert_eq in Ht by done. injection Ht as <-.
    exists (set_heap_idx (Z.of_nat c) tml). unfold store1, store0.
    rewrite lookup_insert_eq, dl_of_insert_eq, list_lookup_insert_eq by (rewrite length_insert; lia).
    split_and!; done.
  - assert (t <> z).
    { intros ->. apply Hic. eapply (NoDup_lookup _ i c z Hnd Ht). by apply list_lookup_insert_eq. }
    rewrite list_lookup_insert_ne in Ht by done. pose proof (lookup_lt_Some _ _ _ Ht).
    destruct (Hat i t) as (tmt & ? & ? & Hx); [by rewrite lookup_app_l by done|].
    exists tmt. unfold store1, store0. rewrite !lookup_insert_ne, !dl_of_insert_ne by done.
    rewrite !list_lookup_insert_ne by lia. split_and!; auto. intros _. apply Hx. lia.
Qed.

(** What disarming [source] achieves. *)
Definition disarmed_of (l l' : timer_loop) (source : tid) (V V' : list tid) : Prop :=
  heap_inv l' V' /\ V ≡ₚ source :: V' /\
  (exists tm, tl_store l !! source = Some tm /\
     tview <$> tl_store l' = <[source := (TS 0 0, next_due tm, timer_fd tm)]> (tview <$> tl_store l)) /\
  th_armed (tl_heap l') = th_armed (tl_heap l) /\
  th_count (tl_heap l') = th_count (tl_heap l) /\
  th_space (tl_heap l') = th_space (tl_heap l).

(** The timer at the last position: it is dropped, nothing moves. *)
Lemma heap_inv_drop_last l U s tm h :
  heap_inv l (U ++ [s]) -> tl_store l !! s = Some tm ->
  h = set_data (<[length U := None]> (th_data (tl_heap l))) (set_active (length U) (tl_heap l)) ->
  heap_inv (Loop (<[s := set_deadline (TS 0 0) (set_heap_idx (-1) tm)]> (tl_store l)) h) U.
Proof.
  intros Hi Hs ->. destruct (hi_rep _ _ Hi) as [Hlen Hnd Hat]. simpl in *.
  apply list.NoDup_app in Hnd as (Hnd & Hdisj & _).
  assert (Hns : s ∉ U) by (intros Hin; apply (Hdisj s Hin); set_solver).
  assert (Hne : forall i t, U !! i = Some t -> s <> t)
    by (intros i t Ht ->; by apply Hns, list_elem_of_lookup; exists i).
  rewrite length_app in Hlen, Hat. simpl in Hlen, Hat. split; simpl.
  - done.
  - split; simpl; [rewrite length_insert; lia|done|]. intros i t Ht.
    pose proof (lookup_lt_Some _ _ _ Ht). destruct (Hat i t) as (tmt & ? & ? & Hx);
      [by rewrite lookup_app_l by done|]. exists tmt.
    rewrite lookup_insert_ne, dl_of_insert_ne by (by eapply Hne).
    rewrite list_lookup_insert_ne by lia. split_and!; auto. intros _. apply Hx. lia.
  - intros i Hi' a b Ha Hb. rewrite !dl_of_insert_ne by (by eapply Hne).
    eapply (hi_ord _ _ Hi i Hi'); rewrite lookup_app_l; eauto using lookup_lt_Some.
  - intros t tmt [[<- <-]|[? Ht]]%lookup_insert_Some Hn; [done|].
    eapply (hi_idx _ _ Hi); [done|set_solver].
  - intros t tmt Hin Ht. rewrite lookup_insert_ne in Ht by (intros ->; done).
    apply (hi_live _ _ Hi t tmt); [set_solver|done].
  - rewrite length_insert. apply (hi_space _ _ Hi).
  - rewrite (live_count_insert _ _ tm) by done. apply (hi_count _ _ Hi).
  - apply (hi_fits _ _ Hi).
Qed.

(** The last element of the heap is put where [source] was. *)
Section TakeLast.
Context (l : timer_loop) (U : list tid) (z source : tid) (c : nat) (tm tml : timer).
Context (Hi : heap_inv l (U ++ [z])) (Hc : U !! c = Some source).
Context (Hs : tl_store l !! source = Some tm) (Hz : tl_store l !! z = Some tml).

Definition store_last : gmap tid timer :=
  <[z := set_heap_idx (Z.of_nat c) tml]> (<[source := set_deadline (TS 0 0) (set_heap_idx (-1) tm)]> (tl_store l)).
Definition data_last : list (option tid) := <[c := Some z]> (<[length U := None]> (th_data (tl_heap l))).

Lemma take_last_perm : U ++ [z] ≡ₚ source :: <[c := z]> U.
Proof using Hc. by apply snoc_replace. Qed.

Lemma take_last_fresh : (source ∉ <[c := z]> U) /\ NoDup (<[c := z]> U) /\ source <> z /\ (<[c := z]> U) !! c = Some z.
Proof using Hi Hc.
  pose proof (hr_nodup _ _ _ _ (hi_rep _ _ Hi)) as Hnd. rewrite take_last_perm in Hnd. apply NoDup_cons in Hnd as [Hsn Hnd].
  assert (Hcz : (<[c := z]> U) !! c = Some z) by (apply list_lookup_insert_eq; by eapply lookup_lt_Some).
  split_and!; [done|done| |done]. intros Hsz. apply Hsn. rewrite Hsz. by eapply list_elem_of_lookup_2.
Qed.

Lemma take_last_hole : hole_ok (dl_of store_last) (<[c := z]> U) c.
Proof using Hi Hc.
  destruct take_last_fresh as (Hsn & Hnd & _ & Hcz).
  eapply (heap_ordered_hole (dl_of (tl_store l)) _ (U ++ [z])); [apply (hi_ord _ _ Hi)|].
  intros i a Hic Ha. pose proof Ha as Ha0. rewrite list_lookup_insert_ne in Ha by done.
  pose proof (lookup_lt_Some _ _ _ Ha). rewrite lookup_app_l by done. split; [done|].
  unfold store_last. rewrite !dl_of_insert_ne; [done|..]; intros E.
  - apply Hsn. rewrite E. by eapply list_elem_of_lookup_2.
  - apply Hic, (NoDup_lookup (<[c := z]> U) i c z); [done|congruence|done].
Qed.

Lemma take_last_inv st' V' : hole_rep (dl_of store_last) st' V' (length V') -> heap_ordered (dl_of store_last) V' ->
  V' ≡ₚ <[c := z]> U -> idx_frame (<[c := z]> U) (store_last, data_last) st' ->
  disarmed_of l (with_cells l (set_active (length U) (tl_heap l)) st') source (U ++ [z]) V'.
Proof using Hi Hc Hs Hz.
  intros Hr Hord HV Hfr. destruct take_last_fresh as (Hsn & _ & Hzs & Hcz). pose proof take_last_perm as HP.
  destruct (heap_inv_sift store_last data_last (set_active (length U) (tl_heap l)) st' (<[c := z]> U) V')
    as [Hinv Hview]; auto.
  - by rewrite length_insert.
  - unfold data_last. rewrite !length_insert. apply (hi_space _ _ Hi).
  - unfold store_last. rewrite (live_count_insert _ _ tml), (live_count_insert _ _ tm)
      by (done || by rewrite lookup_insert_ne). apply (hi_count _ _ Hi).
  - apply (hi_fits _ _ Hi).
  - intros t tmt Ht Hnt. unfold store_last in Ht. assert (z ∈ <[c := z]> U) by (by eapply list_elem_of_lookup_2).
    rewrite lookup_insert_ne in Ht by (intros ->; done). apply lookup_insert_Some in Ht as [[<- <-]|[? Ht]]; [done|].
    eapply (hi_idx _ _ Hi); [done|]. rewrite HP. set_solver.
  - intros t tmt Hint Ht. unfold store_last in Ht. assert (t <> source) by (intros ->; done). assert (t ∈ U ++ [z]) by (rewrite HP; set_solver).
    apply lookup_insert_Some in Ht as [[<- <-]|[? Ht]]; [by apply (hi_live _ _ Hi z tml)|].
    rewrite lookup_insert_ne in Ht by done. by eapply (hi_live _ _ Hi).
  - split; [exact Hinv|]. split; [by rewrite HP, HV|]. split; [|done]. exists tm. split; [done|]. simpl.
    rewrite Hview. unfold store_last. rewrite !fmap_insert, insert_id; [done|].
    by rewrite lookup_insert_ne, lookup_fmap, Hz.
Qed.
End TakeLast.

Lemma wl_timer_heap_disarm_spec l V source :
  heap_inv l V -> source ∈ V ->
  exists l' V', wl_timer_heap_disarm l source = Some l' /\ disarmed_of l l' source V V'.
Proof.
  intros Hi Hin. destruct (heap_inv_in _ _ _ Hi Hin) as (c & tm & Hc & Hs & Hidx & Hlt & _).
  destruct V as [|z U _] using rev_ind; [done|].
  pose proof (hole_rep_full _ _ _ (length U) z (hi_rep _ _ Hi)) as (tml & Hz & _ & _ & Hatz).
  { rewrite lookup_app_r, Nat.sub_diag by lia. done. }
  unfold wl_timer_heap_disarm. rewrite Hs. cbn [mbind option_bind].
  rewrite (hi_active _ _ Hi), length_app, Nat.add_1_r. cbn [length Nat.eqb].
  rewrite Nat.sub_1_r. cbn [Nat.pred]. simpl in Hatz, Hz. rewrite Hatz. cbn [mbind option_bind].
  rewrite Z.geb_leb, (proj2 (Z.leb_le _ _)), Hidx, Nat2Z.id by lia. cbn [negb].
  rewrite length_app in Hlt. simpl in Hlt.
  destruct (Nat.eqb_spec c (length U)) as [->|Hne].
  - rewrite lookup_app_r, Nat.sub_diag in Hc by lia. simpl in Hc. injection Hc as ->.
    eexists _, U. split; [done|]. split; [by apply heap_inv_drop_last|].
    split; [by rewrite Permutation_app_comm|]. split; [|done].
    exists tm. split; [done|]. simpl. by rewrite fmap_insert.
  - rewrite lookup_app_l in Hc by lia. destruct (take_last_fresh l U z source c Hi Hc) as (_ & _ & Hzs & Hcz).
    pose proof (hole_rep_take_last _ _ _ _ _ _ _ _ (hi_rep _ _ Hi) Hc Hs Hz) as Hrep1. cbv zeta in Hrep1.
    pose proof (hr_len _ _ _ _ (hi_rep _ _ Hi)) as Hlen. simpl in Hlen. rewrite length_app in Hlen. simpl in Hlen.
    rewrite length_insert, (proj2 (Nat.ltb_lt _ _)) by lia. rewrite lookup_insert_ne, Hz by done. cbn [mbind option_bind].
    destruct (heap_sift_down_spec _ _ _ _ z Hrep1 Hcz (take_last_hole l U z source c tm tml Hi Hc))
      as (st1 & V1 & c1 & E1 & HV1 & Hc1' & Hr1 & Hok1 & Hch1 & _ & Hfr1).
    rewrite length_insert in E1. rewrite E1. cbn [mbind option_bind].
    destruct (heap_sift_up_spec _ _ _ _ z Hr1 Hc1' Hok1 Hch1) as (st2 & V2 & -> & HV2 & Hr2 & Hord2 & Hfr2).
    cbn [mbind option_bind]. eexists _, V2. split; [done|].
    apply (take_last_inv l U z source c tm tml); auto; [by rewrite HV2|by apply (idx_frame_trans (<[c := z]> U) V1 _ st1)].
Qed.

(** ** The heap refines a map from timers to deadlines *)

Definition heap_ok (l : timer_loop) : Prop := exists V, heap_inv l V.

Lemma dl_of_view_insert s s' t0 d n f t :
  tview <$> s' = <[t0 := (d, n, f)]> (tview <$> s) ->
  dl_of s' t = if decide (t = t0) then d else dl_of s t.
Proof.
  intros H. pose proof (f_equal (lookup t) H) as E. rewrite lookup_fmap in E.
  unfold dl_of, tview in *. case_decide as Hd.
  - rewrite Hd, lookup_insert_eq in E. rewrite Hd. destruct (s' !! t0); by simplify_eq/=.
  - rewrite lookup_insert_ne, lookup_fmap in E by done.
    destruct (s' !! t), (s !! t); by simplify_eq/=.
Qed.

Lemma armed_for_armed l l' V source d V' :
  heap_inv l V -> armed_for l l' source d V' -> armed l' = <[source := d]> (armed l).
Proof.
  intros Hi (Hi' & Hin & (tm & _ & Hv) & Hiff & _). apply map_eq. intros t.
  rewrite (armed_lookup l' V' t Hi'), (dl_of_view_insert _ _ _ _ _ _ t Hv).
  destruct (decide (t = source)) as [->|Hne].
  - by rewrite lookup_insert_eq, decide_True.
  - rewrite lookup_insert_ne by done. specialize (Hiff t Hne).
    rewrite (armed_lookup l V t Hi) in *. repeat case_decide; naive_solver.
Qed.

Lemma disarmed_of_armed l l' V source V' :
  heap_inv l V -> disarmed_of l l' source V V' -> armed l' = delete source (armed l).
Proof.
  intros Hi (Hi' & HP & (tm & _ & Hv) & _). apply map_eq. intros t.
  pose proof (hr_nodup _ _ _ _ (hi_rep _ _ Hi)) as Hnd. rewrite HP in Hnd.
  apply NoDup_cons in Hnd as [Hn _].
  rewrite (armed_lookup l' V' t Hi'), (dl_of_view_insert _ _ _ _ _ _ t Hv).
  destruct (decide (t = source)) as [->|Hne].
  - by rewrite lookup_delete_eq, decide_False.
  - rewrite lookup_delete_ne, (armed_lookup l V t Hi) by done.
    assert (t ∈ V <-> t ∈ V') as Hiff by (rewrite HP; set_solver).
    repeat case_decide; naive_solver.
Qed.

Lemma timer_reposition_spec l V source tm d :
  heap_inv l V -> tl_store l !! source = Some tm -> timer_fd tm <> TIMER_REMOVED ->
  exists l' V', timer_reposition l source d = Some l' /\ armed_for l l' source d V'.
Proof.
  intros Hi Hs Hl. destruct (decide (source ∈ V)) as [Hin|Hn].
  - by eapply timer_reposition_armed_spec.
  - destruct (wl_timer_heap_arm_spec l V source tm d) as (l' & V' & H & ?); auto.
    exists l', V'. split; [|done]. unfold timer_reposition. rewrite Hs. cbn [mbind option_bind].
    by rewrite (hi_idx _ _ Hi _ _ Hs Hn).
Qed.

(** The timer that is at the root after an operation has the least deadline. *)
Lemma armed_root_min l V root t d :
  heap_inv l V -> V !! 0%nat = Some root -> armed l !! t = Some d ->
  tle (dl_of (tl_store l) root) d.
Proof.
  intros Hi Hr. rewrite (armed_lookup l V t Hi). case_decide as Hin; [|done]. intros [= <-].
  apply list_elem_of_lookup in Hin as [i Ht].
  eapply heap_ordered_root; [apply (hi_ord _ _ Hi)|done|done].
Qed.

(** The timerfd is programmed to expire no later than any armed deadline. *)
Definition timerfd_early (l : timer_loop) : Prop :=
  forall t d, armed l !! t = Some d -> exists e, th_armed (tl_heap l) = Some e /\ tle e d.

Definition abs_update (clock : timespec) (t : tid) (ms : Z) (m : gmap tid timespec)
    : gmap tid timespec :=
  if ms >? 0 then <[t := deadline_after clock ms]> m else delete t m.

Lemma set_armed_inv l V e : heap_inv l V ->
  heap_inv (Loop (tl_store l) (set_armed e (tl_heap l))) V.
Proof. intros []. by split. Qed.

Lemma armed_heap_irrel s h h' : armed (Loop s h) = armed (Loop s h').
Proof. done. Qed.

Lemma timerfd_early_root l V source d l' V' :
  heap_inv l V -> timerfd_early l -> armed_for l l' source d V' ->
  V' !! 0%nat <> Some source -> timerfd_early l'.
Proof.
  intros Hi He Hfor Hroot t e Ht.
  pose proof (armed_for_armed _ _ _ _ _ _ Hi Hfor) as Ha.
  destruct Hfor as (Hi' & Hin & (tm & _ & Hv) & Hiff & Harm).
  destruct (V' !! 0%nat) as [root|] eqn:Er.
  2: { apply lookup_ge_None in Er. destruct V'; simpl in *; [set_solver|lia]. }
  pose proof (armed_root_min l' V' root t e Hi' Er Ht) as Hmin.
  assert (root <> source) as Hrs by congruence.
  assert (Hr : armed l' !! root = Some (dl_of (tl_store l') root)).
  { rewrite (armed_lookup _ _ _ Hi'), decide_True; [done|]. by eapply list_elem_of_lookup_2. }
  rewrite Ha, lookup_insert_ne in Hr by done. destruct (He root _ Hr) as (e' & He' & Hle).
  exists e'. rewrite Harm. split; [done|]. eauto with flake.
Qed.

Lemma update_arm_fd l V source d l' V' tm' :
  heap_inv l V -> armed_for l l' source d V' -> tl_store l' !! source = Some tm' ->
  forall fd_ok, let '(l2, r) := if heap_idx tm' =? 0 then set_timer fd_ok d l' else (l', 0) in
  heap_ok l2 /\ armed l2 = armed l' /\ (timerfd_early l -> r = 0 -> timerfd_early l2).
Proof.
  intros Hi Hfor Hs fd_ok. pose proof Hfor as (Hi' & Hin & (tm & _ & Hv) & _ & _).
  destruct (heap_inv_in _ _ _ Hi' Hin) as (i & tm2 & HV & Hs2 & Hidx & _).
  assert (tm2 = tm') as -> by congruence. destruct (Z.eqb_spec (heap_idx tm') 0) as [E|E].
  - assert (i = 0%nat) as -> by lia. unfold set_timer. destruct fd_ok.
    + split; [exists V'; by apply set_armed_inv|]. split; [done|]. intros _ _ t e Ht.
      exists d. split; [done|]. rewrite (armed_heap_irrel _ _ (tl_heap l')) in Ht. destruct l' as [s' h'].
      pose proof (armed_root_min _ V' source t e Hi' HV Ht) as Hmin.
      rewrite (dl_of_view_insert _ _ _ _ _ _ source Hv), decide_True in Hmin by done. done.
    + split; [by exists V'|]. split; [done|]. lia.
  - split; [by exists V'|]. split; [done|]. intros He _.
    apply (timerfd_early_root l V source d l' V'); auto. intros Hr. apply E.
    rewrite Hidx. assert (i = 0%nat); [|lia]. eapply NoDup_lookup; eauto.
    apply (hr_nodup _ _ _ _ (hi_rep _ _ Hi')).
Qed.

(** The fields of a timer that updating it never touches. *)
Definition tlinks (tm : timer) : option tid * Z := (next_due tm, timer_fd tm).

Lemma tview_tlinks (s s' : gmap tid timer) t tm d :
  s !! t = Some tm -> tview <$> s' = <[t := (d, next_due tm, timer_fd tm)]> (tview <$> s) ->
  tlinks <$> s' = tlinks <$> s.
Proof.
  intros Ht Hv.
  assert (Hs : forall m : gmap tid timer, tlinks <$> m = (fun v => (v.1.2, v.2)) <$> (tview <$> m))
    by (intros m; rewrite <- map_fmap_compose; done).
  rewrite !Hs, Hv, fmap_insert. apply insert_id. by rewrite !lookup_fmap, Ht.
Qed.

Lemma timer_update_spec clock fd_ok l t tm ms :
  heap_ok l -> tl_store l !! t = Some tm -> timer_fd tm <> TIMER_REMOVED ->
  exists l' r, wl_event_source_timer_update clock fd_ok l t ms = Some (l', r) /\
    heap_ok l' /\ armed l' = abs_update clock t ms (armed l) /\
    (timerfd_early l -> r = 0 -> timerfd_early l') /\
    tlinks <$> tl_store l' = tlinks <$> tl_store l.
Proof.
  intros Hok Ht Hlive.
  destruct Hok as [V Hi]. unfold wl_event_source_timer_update, abs_update.
  destruct (ms >? 0).
  - destruct (timer_reposition_spec l V t tm (deadline_after clock ms))
      as (l1 & V1 & -> & Hfor); auto. cbn [mbind option_bind].
    pose proof Hfor as (Hi1 & Hin1 & (tm0 & Ht0 & Hv) & _).
    apply (tview_tlinks _ _ _ _ _ Ht0) in Hv.
    destruct (heap_inv_in _ _ _ Hi1 Hin1) as (i & tm1 & _ & Hs1 & _). rewrite Hs1.
    pose proof (update_arm_fd l V t _ l1 V1 tm1 Hi Hfor Hs1 fd_ok) as Hfd. cbn [mbind option_bind].
    rewrite <- (armed_for_armed _ _ _ _ _ _ Hi Hfor).
    destruct (heap_idx tm1 =? 0); [unfold set_timer in *; destruct fd_ok|];
      eexists _, _; (split; [done|]); intuition.
  - rewrite Ht. cbn [mbind option_bind]. destruct (Z.eqb_spec (heap_idx tm) (-1)) as [E|E].
    { eexists _, _. split; [done|]. split; [by exists V|]. split; [|done].
      symmetry. apply delete_id. rewrite (armed_lookup _ _ _ Hi), decide_False; [done|].
      intros Hin. by apply (heap_inv_armed_idx _ _ _ _ Hi Ht) in Hin. }
    destruct (wl_timer_heap_disarm_spec l V t) as (l1 & V1 & -> & Hdis); auto.
    { by apply (heap_inv_armed_idx _ _ _ _ Hi Ht). }
    cbn [mbind option_bind]. pose proof (disarmed_of_armed _ _ _ _ _ Hi Hdis) as Ha.
    destruct Hdis as (Hi1 & _ & (tm0 & Ht0 & Hv) & Harm & _).
    apply (tview_tlinks _ _ _ _ _ Ht0) in Hv. destruct (Nat.eqb_spec (th_active (tl_heap l1)) 0) as [E1|E1].
    + assert (Hempty : forall x, armed l1 !! x = None).
      { intros x. rewrite (armed_lookup _ _ _ Hi1), decide_False; [done|].
        rewrite (hi_active _ _ Hi1) in E1. destruct V1; [set_solver|done]. }
      unfold clear_timer. destruct fd_ok; eexists _, _; (split; [done|]).
      * split; [exists V1; by apply set_armed_inv|]. split; [done|]. split; [|done].
        intros _ _ x e Hx. rewrite (armed_heap_irrel _ _ (tl_heap l1)) in Hx.
        destruct l1. by rewrite Hempty in Hx.
      * split; [by exists V1|]. split; [done|]. split; [lia|done].
    + eexists _, _. split; [done|]. split; [by exists V1|]. split; [done|]. split; [|done].
      intros He _ x e Hx. rewrite Ha in Hx. apply lookup_delete_Some in Hx as [_ Hx].
      rewrite Harm. by apply He in Hx.
Qed.

(** C32. Updating a live timer never fails, keeps the heap invariant and changes
    the armed timers exactly as the map update says: a positive delay (re)arms
    the timer for the clock plus the delay, any other delay disarms it. When the
    call returns 0 the timerfd still expires no later than any deadline. *)
Theorem timer_update_refines (clock : timespec) (fd_ok : bool) (l : timer_loop) (t : tid)
  (tm : timer) (ms : Z)
  (Hok : heap_ok l) (Ht : tl_store l !! t = Some tm) (Hlive : timer_fd tm <> TIMER_REMOVED) :
  exists l' r, wl_event_source_timer_update clock fd_ok l t ms = Some (l', r) /\
    heap_ok l' /\ armed l' = abs_update clock t ms (armed l) /\
    (timerfd_early l -> r = 0 -> timerfd_early l').
Proof.
  destruct (timer_update_spec clock fd_ok l t tm ms Hok Ht Hlive) as (l' & r & ? & ? & ? & ? & _).
  by exists l', r.
Qed.

(** ** Creating and removing timers *)

Lemma heap_ok_init : heap_ok (Loop ∅ wl_timer_heap_init).
Proof.
  exists []. split; simpl; try done.
  split; simpl; [lia|constructor|]. by intros i t ?.
Qed.

Lemma live_count_new (s : gmap tid timer) t tm :
  s !! t = None -> timer_fd tm <> TIMER_REMOVED -> live_count (<[t := tm]> s) = S (live_count s).
Proof.
  intros Ht Hf. unfold live_count. rewrite fmap_insert, map_filter_insert_True by done.
  rewrite map_size_insert_None; [done|]. apply map_lookup_filter_None. left.
  by rewrite lookup_fmap, Ht.
Qed.

Lemma live_count_remove (s : gmap tid timer) t tm :
  s !! t = Some tm -> timer_fd tm <> TIMER_REMOVED ->
  live_count s = S (live_count (<[t := set_timer_fd TIMER_REMOVED tm]> s)).
Proof.
  intros Ht Hf. unfold live_count.
  rewrite fmap_insert, map_filter_insert_False, map_filter_delete by (simpl; tauto).
  set (m := filter _ (timer_fd <$> s)).
  assert (Hm : m !! t = Some (timer_fd tm))
    by (apply map_lookup_filter_Some; rewrite lookup_fmap, Ht; done).
  rewrite <- (insert_delete_id m t _ Hm) at 1.
  by rewrite map_size_insert_None by apply lookup_delete_eq.
Qed.

(** A heap whose store gained the disarmed timer [t]. *)
Lemma heap_inv_add l V t h :
  heap_inv l V -> tl_store l !! t = None ->
  th_active h = th_active (tl_heap l) -> th_count h = th_count (tl_heap l) + 1 ->
  th_space h = Z.of_nat (length (th_data h)) -> th_count h <= th_space h ->
  (length V <= length (th_data h))%nat ->
  (forall i, (i < length V)%nat -> th_data h !! i = th_data (tl_heap l) !! i) ->
  heap_inv (Loop (<[t := Timer (TS 0 0) (-1) None (-1)]> (tl_store l)) h) V.
Proof.
  intros Hi Ht Ha Hc Hs Hf Hl Hd. destruct (hi_rep _ _ Hi) as [Hlen Hnd Hat]. simpl in *.
  assert (Hne : forall i x, V !! i = Some x -> t <> x).
  { intros i x Hx ->. destruct (Hat i x Hx) as (? & ? & _). congruence. }
  split; simpl; auto.
  - rewrite Ha. apply (hi_active _ _ Hi).
  - split; simpl; auto. intros i x Hx. destruct (Hat i x Hx) as (tmx & ? & ? & Hy).
    exists tmx. rewrite lookup_insert_ne, dl_of_insert_ne by (by eapply Hne).
    rewrite Hd by (by eapply lookup_lt_Some). auto.
  - intros i Hi' a b Hx Hy. rewrite !dl_of_insert_ne by (by eapply Hne). by eapply (hi_ord _ _ Hi).
  - intros x tmx [[<- <-]|[? Hx]]%lookup_insert_Some Hn; [done|]. by eapply (hi_idx _ _ Hi).
  - intros x tmx Hin Hx. assert (t <> x).
    { apply list_elem_of_lookup in Hin as [i Hin]. by eapply Hne. }
    rewrite lookup_insert_ne in Hx by done. by eapply (hi_live _ _ Hi).
  - rewrite live_count_new by done. rewrite Hc, (hi_count _ _ Hi). lia.
Qed.

Lemma wl_event_loop_add_timer_ok new_fd alloc_ok t l :
  heap_ok l -> tl_store l !! t = None ->
  let '(l', ok) := wl_event_loop_add_timer new_fd alloc_ok t l in
  heap_ok l' /\ armed l' = armed l /\
  (ok = true -> tl_store l' !! t = Some (Timer (TS 0 0) (-1) None (-1))) /\
  (ok = false -> tl_store l' = tl_store l).
Proof.
  intros [V Hi] Ht. unfold wl_event_loop_add_timer.
  destruct (wl_timer_heap_ensure_timerfd new_fd (tl_heap l)) as [h0 r0] eqn:E0.
  assert (Hh0 : exists f, h0 = TimerHeap (th_data (tl_heap l)) (th_space (tl_heap l))
      (th_active (tl_heap l)) (th_count (tl_heap l)) f (th_armed (tl_heap l))).
  { unfold wl_timer_heap_ensure_timerfd in E0. exists (th_fd h0).
    case_match; [|case_match]; simplify_eq; by destruct (tl_heap l). }
  destruct Hh0 as [f ->].
  assert (Hi0 : heap_inv (Loop (tl_store l) (TimerHeap (th_data (tl_heap l)) (th_space (tl_heap l))
    (th_active (tl_heap l)) (th_count (tl_heap l)) f (th_armed (tl_heap l)))) V)
    by (destruct Hi; by split).
  pose proof (hi_space _ _ Hi) as Hsp. pose proof (hi_fits _ _ Hi) as Hfit.
  pose proof (hr_len _ _ _ _ (hi_rep _ _ Hi)) as Hlen. simpl in Hlen.
  destruct (r0 <? 0); [split; [by exists V|done]|].
  unfold wl_timer_heap_reserve. simpl.
  destruct (th_count (tl_heap l) + 1 >? th_space (tl_heap l)) eqn:Eg; [destruct alloc_ok|]; simpl.
  2: { split; [by exists V|done]. }
  1: set (ns := if th_space (tl_heap l) >=? 8 then th_space (tl_heap l) * 2 else 8);
     assert (Hns : th_space (tl_heap l) + 1 <= ns /\ 8 <= ns) by (unfold ns; case_ifs; lia).
  all: (split; [exists V; apply (heap_inv_add l V t); simpl; auto; try lia|]).
  - rewrite length_app, length_replicate. lia.
  - rewrite length_app. lia.
  - intros i Hi'. rewrite lookup_app_l by lia. done.
  - split; [|split; [intros _; apply lookup_insert_eq|done]]. unfold armed. simpl.
    by rewrite map_filter_insert_not' by (simpl; intros; congruence || tauto).
  - split; [|split; [intros _; apply lookup_insert_eq|done]]. unfold armed. simpl.
    by rewrite map_filter_insert_not' by (simpl; intros; congruence || tauto).
Qed.

Lemma heap_inv_len l V : heap_inv l V -> Z.of_nat (length V) <= th_count (tl_heap l).
Proof.
  intros Hi. rewrite (hi_count _ _ Hi). unfold live_count.
  assert (Hsub : list_to_set V ⊆ (dom (filter (fun p : tid * Z => p.2 <> TIMER_REMOVED)
      (timer_fd <$> tl_store l)) : gset tid)).
  { intros t Hin%elem_of_list_to_set. apply elem_of_dom.
    destruct (heap_inv_in _ _ _ Hi Hin) as (i & tm & _ & Ht & _).
    exists (timer_fd tm). apply map_lookup_filter_Some. rewrite lookup_fmap, Ht.
    split; [done|]. by eapply (hi_live _ _ Hi). }
  apply subseteq_size in Hsub. rewrite size_list_to_set, size_dom in Hsub; [lia|].
  apply (hr_nodup _ _ _ _ (hi_rep _ _ Hi)).
Qed.

(** Marking the disarmed live timer [t] as removed and giving its slot back. *)
Lemma heap_inv_unreserve alloc_ok l V t tm :
  heap_inv l V -> tl_store l !! t = Some tm -> t ∉ V -> timer_fd tm <> TIMER_REMOVED ->
  heap_inv (Loop (<[t := set_timer_fd TIMER_REMOVED tm]> (tl_store l))
                 (wl_timer_heap_unreserve alloc_ok (tl_heap l))) V.
Proof.
  intros Hi Ht Hn Hl. destruct (hi_rep _ _ Hi) as [Hlen Hnd Hat]. simpl in *.
  pose proof (live_count_remove _ _ _ Ht Hl) as Hlc. pose proof (hi_count _ _ Hi) as Hc.
  pose proof (hi_space _ _ Hi) as Hs. pose proof (hi_fits _ _ Hi) as Hf.
  pose proof (heap_inv_room _ _ _ _ Hi Ht Hn Hl) as Hroom.
  pose proof (hi_active _ _ Hi) as Hact.
  assert (Hne : forall i x, V !! i = Some x -> t <> x)
    by (intros i x Hx ->; by apply Hn, list_elem_of_lookup; exists i).
  assert (HV : Z.of_nat (length V) <= th_count (tl_heap l)) by (by apply heap_inv_len).
  assert (Hlt : (length V < live_count (tl_store l))%nat).
  { assert (Hi2 : heap_inv (Loop (tl_store l) (set_space
        (take (live_count (tl_store l)) (th_data (tl_heap l))) (Z.of_nat (live_count (tl_store l)))
        (tl_heap l))) V).
    { assert (HlV : (length V <= live_count (tl_store l))%nat) by lia.
      destruct Hi. split; simpl; auto; try lia.
      - split; simpl; [rewrite length_take; lia|done|]. intros i x Hx.
        pose proof (lookup_lt_Some _ _ _ Hx). rewrite lookup_take_lt by lia. by apply Hat.
      - rewrite length_take. lia. }
    pose proof (heap_inv_room _ _ _ _ Hi2 Ht Hn Hl) as Hr. simpl in Hr.
    rewrite length_take in Hr. lia. }
  set (h := wl_timer_heap_unreserve alloc_ok (tl_heap l)).
  assert (Hh : th_active h = th_active (tl_heap l) /\ th_count h = th_count (tl_heap l) - 1 /\
    th_space h = Z.of_nat (length (th_data h)) /\ th_count h <= th_space h /\
    (length V <= length (th_data h))%nat /\
    (forall i, (i < length V)%nat -> th_data h !! i = th_data (tl_heap l) !! i)).
  { unfold h, wl_timer_heap_unreserve, idiv. cbn [set_count th_space th_count].
    destruct (_ && _) eqn:E; [prop_bool; destruct alloc_ok|]; cbn; split_and!; auto; try lia.
    all: rewrite ?length_take, ?Z.quot_div_nonneg by lia;
      pose proof (Z.div_mod (th_space (tl_heap l)) 2); pose proof (Z.mod_pos_bound (th_space (tl_heap l)) 2);
      try lia.
    intros i Hi'. rewrite lookup_take_lt; [done|]. lia. }
  destruct Hh as (Ha & Hc' & Hs' & Hf' & Hlen' & Hd). split; simpl; auto.
  - by rewrite Ha.
  - split; simpl; auto. intros i x Hx. destruct (Hat i x Hx) as (tmx & ? & ? & Hy).
    exists tmx. rewrite lookup_insert_ne, dl_of_insert_ne by (by eapply Hne).
    rewrite Hd by (by eapply lookup_lt_Some). auto.
  - intros i Hi' a b Hx Hy. rewrite !dl_of_insert_ne by (by eapply Hne). by eapply (hi_ord _ _ Hi).
  - intros x tmx [[<- <-]|[? Hx]]%lookup_insert_Some Hnx;
      [by apply (hi_idx _ _ Hi t tm)|by eapply (hi_idx _ _ Hi)].
  - intros x tmx Hin Hx. rewrite lookup_insert_ne in Hx by (intros ->; done).
    by eapply (hi_live _ _ Hi).
  - lia.
Qed.

Lemma wl_event_source_remove_ok clock fd_ok alloc_ok l t tm :
  heap_ok l -> tl_store l !! t = Some tm -> timer_fd tm <> TIMER_REMOVED ->
  exists l', wl_event_source_remove clock fd_ok alloc_ok l t = Some l' /\
    heap_ok l' /\ armed l' = delete t (armed l).
Proof.
  intros Hok Ht Hl. destruct (timer_update_spec clock fd_ok l t tm 0 Hok Ht Hl)
    as (l1 & r & Hu & [V1 Hi1] & Ha & _ & Hlinks).
  unfold wl_event_source_remove. rewrite Ht. cbn [mbind option_bind].
  rewrite (proj2 (Z.eqb_neq _ _) Hl), Hu. cbn [negb mbind option_bind].
  change (armed l1 = delete t (armed l)) in Ha.
  pose proof (f_equal (lookup t) Hlinks) as E. rewrite !lookup_fmap, Ht in E.
  destruct (tl_store l1 !! t) as [tm1|] eqn:Ht1; [|done]. injection E as _ Hfd.
  assert (Hn : t ∉ V1).
  { rewrite (armed_in _ _ _ Hi1), Ha, lookup_delete_eq. tauto. }
  eexists. split; [done|]. assert (Hl1 : timer_fd tm1 <> TIMER_REMOVED) by congruence.
  pose proof (heap_inv_unreserve alloc_ok l1 V1 t tm1 Hi1 Ht1 Hn Hl1) as Hinv.
  split; [by exists V1|]. rewrite <- Ha. unfold armed. simpl.
  rewrite map_filter_insert_not'; [done|simpl|intros tm' Htm'; simpl].
  - rewrite (hi_idx _ _ Hi1 _ _ Ht1 Hn). tauto.
  - rewrite (hi_idx _ _ Hi1 _ _ Htm' Hn). tauto.
Qed.

(** The operations the rest of the compositor performs on a loop's timers. *)
Inductive timer_step : timer_loop -> timer_loop -> Prop :=
  | step_add_timer new_fd alloc_ok t l :
      tl_store l !! t = None ->
      timer_step l (wl_event_loop_add_timer new_fd alloc_ok t l).1
  | step_timer_update clock fd_ok t tm ms l l' r :
      tl_store l !! t = Some tm -> timer_fd tm <> TIMER_REMOVED ->
      wl_event_source_timer_update clock fd_ok l t ms = Some (l', r) -> timer_step l l'
  | step_timer_remove clock fd_ok alloc_ok t l l' :
      wl_event_source_remove clock fd_ok alloc_ok l t = Some l' -> timer_step l l'.

Lemma timer_step_ok l l' : timer_step l l' -> heap_ok l -> heap_ok l'.
Proof.
  intros [new_fd alloc_ok t l0 Ht|clock fd_ok t tm ms l0 l1 r Ht Hf Hu
         |clock fd_ok alloc_ok t l0 l1 Hr] Hok.
  - pose proof (wl_event_loop_add_timer_ok new_fd alloc_ok t l0 Hok Ht) as H.
    destruct (wl_event_loop_add_timer _ _ _ _). apply H.
  - destruct (timer_update_spec clock fd_ok l0 t tm ms Hok Ht Hf) as (l2 & r2 & Hu2 & ? & _).
    congruence.
  - destruct (tl_store l0 !! t) as [tm|] eqn:Ht.
    2: { unfold wl_event_source_remove in Hr. by rewrite Ht in Hr. }
    destruct (decide (timer_fd tm = TIMER_REMOVED)) as [Hf|Hf].
    + unfold wl_event_source_remove in Hr. rewrite Ht in Hr. cbn in Hr. rewrite Hf in Hr.
      cbn in Hr. congruence.
    + destruct (wl_event_source_remove_ok clock fd_ok alloc_ok l0 t tm Hok Ht Hf)
        as (l2 & Hr2 & ? & _). congruence.
Qed.

(** Whatever timers a program creates, rearms, disarms and removes, in any
    order and with any allocation or timerfd failures, the loop keeps its heap
    invariant: every armed timer knows its position, parents expire no later
    than their children, and the timer at the root expires first. *)
Theorem timer_loop_invariant (l : timer_loop)
  (Hreach : rtc timer_step (Loop ∅ wl_timer_heap_init) l) :
  heap_ok l /\
  (forall root t tmr tm, heap_at (th_data (tl_heap l)) 0 = Some root ->
     tl_store l !! root = Some tmr -> tl_store l !! t = Some tm -> heap_idx tm <> -1 ->
     time_lt (deadline tm) (deadline tmr) = false) /\
  (forall t tm, tl_store l !! t = Some tm -> heap_idx tm <> -1 ->
     heap_at (th_data (tl_heap l)) (Z.to_nat (heap_idx tm)) = Some t).
Proof.
  assert (Hok : heap_ok l).
  { pose proof heap_ok_init as H0. induction Hreach as [|x y z Hs _ IH]; [done|].
    apply IH. by eapply timer_step_ok. }
  split; [done|]. destruct Hok as [V Hi]. split.
  - intros root t tmr tm Hr Htr Ht Hidx.
    assert (Hin : t ∈ V) by (by apply (heap_inv_armed_idx _ _ _ _ Hi Ht)).
    pose proof Hin as [i Hti]%list_elem_of_lookup. pose proof (lookup_lt_Some _ _ _ Hti).
    destruct (lookup_lt_is_Some_2 V 0) as [r0 Hr0]; [lia|].
    destruct (hole_rep_full _ _ _ _ _ (hi_rep _ _ Hi) Hr0) as (_ & _ & _ & _ & Hat0).
    simpl in Hat0. assert (r0 = root) as -> by congruence.
    pose proof (heap_ordered_root _ _ _ _ _ (hi_ord _ _ Hi) Hr0 Hti) as Hle.
    unfold tle, dl_of in Hle. by rewrite Htr, Ht in Hle.
  - intros t tm Ht Hidx. assert (Hin : t ∈ V) by (by apply (heap_inv_armed_idx _ _ _ _ Hi Ht)).
    destruct (heap_inv_in _ _ _ Hi Hin) as (i & tm' & Hti & Ht' & Hx & _).
    assert (tm' = tm) as -> by congruence. rewrite Hx, Nat2Z.id.
    by destruct (hole_rep_full _ _ _ _ _ (hi_rep _ _ Hi) Hti) as (_ & _ & _ & _ & ?).
Qed.

(** A loop with two timers, both disarmed. *)
Definition example_loop0 : timer_loop :=
  (wl_event_loop_add_timer 3 true 1%nat (Loop ∅ wl_timer_heap_init)).1.
Definition example_loop : timer_loop :=
  (wl_event_loop_add_timer 3 true 2%nat example_loop0).1.

Lemma example_loop_reachable : rtc timer_step (Loop ∅ wl_timer_heap_init) example_loop.
Proof.
  eapply rtc_l; [by apply (step_add_timer 3 true 1%nat)|].
  eapply rtc_l; [by apply (step_add_timer 3 true 2%nat)|]. apply rtc_refl.
Qed.

Lemma timer_loop_invariant_witness :
  heap_ok example_loop /\
  (forall root t tmr tm, heap_at (th_data (tl_heap example_loop)) 0 = Some root ->
     tl_store example_loop !! root = Some tmr -> tl_store example_loop !! t = Some tm ->
     heap_idx tm <> -1 -> time_lt (deadline tm) (deadline tmr) = false) /\
  (forall t tm, tl_store example_loop !! t = Some tm -> heap_idx tm <> -1 ->
     heap_at (th_data (tl_heap example_loop)) (Z.to_nat (heap_idx tm)) = Some t).
Proof. apply (timer_loop_invariant example_loop). apply example_loop_reachable. Defined.

Lemma example_loop_ok : heap_ok example_loop.
Proof.
  pose proof heap_ok_init as H0. pose proof example_loop_reachable as H.
  induction H as [|x y z Hs _ IH]; [done|]. apply IH. by eapply timer_step_ok.
Qed.

Lemma timer_update_refines_witness :
  exists l' r, wl_event_source_timer_update (TS 10 999000000) true example_loop 2%nat 1500
    = Some (l', r) /\ heap_ok l' /\
    armed l' = abs_update (TS 10 999000000) 2%nat 1500 (armed example_loop) /\
    (timerfd_early example_loop -> r = 0 -> timerfd_early l').
Proof.
  apply (timer_update_refines (TS 10 999000000) true example_loop 2%nat
           (Timer (TS 0 0) (-1) None (-1)) 1500).
  - apply example_loop_ok.
  - reflexivity.
  - discriminate.
Defined.

(** ** Dispatching *)

(** The collected timers are linked through [next_due] in order; with [open]
    the last one has not been terminated yet. *)
Definition linked (open : bool) (s : gmap tid timer) (L : list tid) : Prop :=
  forall i a, L !! i = Some a -> exists n f, tlinks <$> s !! a = Some (n, f) /\
    f <> TIMER_REMOVED /\ (open = false \/ is_Some (L !! S i) -> n = L !! S i).

Lemma linked_ext open s s' L :
  (forall a, a ∈ L -> tlinks <$> s' !! a = tlinks <$> s !! a) -> linked open s L -> linked open s' L.
Proof.
  intros E H i a Ha. rewrite E by (by eapply list_elem_of_lookup_2). by apply H.
Qed.

(** What a callback may do: any sequence of timer operations, on its own and on other
    timers. It does not touch the chain, and a removed timer stays removed. *)
Definition removed (l : timer_loop) (t : tid) : bool :=
  from_option (fun tm => timer_fd tm =? TIMER_REMOVED) true (tl_store l !! t).

Definition same_chain (l l' : timer_loop) : Prop :=
  forall t tm, tl_store l !! t = Some tm -> exists tm', tl_store l' !! t = Some tm' /\ next_due tm' = next_due tm.

Lemma same_chain_links l l' : tlinks <$> tl_store l' = tlinks <$> tl_store l -> same_chain l l'.
Proof.
  intros E t tm Ht. pose proof (f_equal (lookup t) E) as Et. rewrite !lookup_fmap, Ht in Et.
  destruct (tl_store l' !! t) as [tm'|]; [|done]. injection Et as En _. eauto.
Qed.

Lemma timer_step_chain l l' : timer_step l l' -> heap_ok l -> same_chain l l'.
Proof.
  intros [new_fd alloc_ok t l0 Ht|clock fd_ok t tm ms l0 l1 r Ht Hf Hu|clock fd_ok alloc_ok t l0 l1 Hr] Hok.
  - intros x tmx Hx. unfold wl_event_loop_add_timer.
    destruct (wl_timer_heap_ensure_timerfd _ _) as [h r]. destruct (r <? 0); [by eauto|].
    destruct (wl_timer_heap_reserve _ _) as [h' r']. destruct (r' <? 0); simpl; [by eauto|].
    exists tmx. rewrite lookup_insert_ne by congruence. done.
  - destruct (timer_update_spec clock fd_ok l0 t tm ms Hok Ht Hf) as (l2 & r2 & Hu2 & _ & _ & _ & Hl).
    apply same_chain_links. congruence.
  - unfold wl_event_source_remove in Hr. destruct (tl_store l0 !! t) as [tm|] eqn:Ht; [|done].
    cbn [mbind option_bind] in Hr. destruct (Z.eqb_spec (timer_fd tm) TIMER_REMOVED) as [E|E]; cbn [negb] in Hr.
    { injection Hr as <-. intros x tmx Hx. eauto. }
    destruct (timer_update_spec clock fd_ok l0 t tm 0 Hok Ht E) as (l2 & r2 & Hu2 & _ & _ & _ & Hl%same_chain_links).
    rewrite Hu2 in Hr. cbn [mbind option_bind] in Hr.
    destruct (tl_store l2 !! t) as [tm2|] eqn:Ht2; [|done]. injection Hr as <-. intros x tmx Hx.
    destruct (Hl x tmx Hx) as (tm' & Hx' & En). destruct (decide (t = x)) as [->|].
    + exists (set_timer_fd TIMER_REMOVED tm2). simpl. rewrite lookup_insert_eq. split; [done|]. simpl. congruence.
    + exists tm'. simpl. by rewrite lookup_insert_ne.
Qed.

Lemma timer_steps_chain l l' : rtc timer_step l l' -> heap_ok l -> heap_ok l' /\ same_chain l l'.
Proof.
  induction 1 as [l|l1 l2 l3 Hs _ IH]; intros Hok; [split; [done|by intros t tm Ht; eauto]|].
  pose proof (timer_step_chain _ _ Hs Hok) as H1. destruct (IH (timer_step_ok _ _ Hs Hok)) as [Hok3 H2].
  split; [done|]. intros t tm Ht. destruct (H1 t tm Ht) as (tm2 & Ht2 & E2). destruct (H2 t tm2 Ht2) as (tm3 & ? & ?).
  exists tm3. split; congruence.
Qed.

(** The loop after the callbacks of some timers. *)
Definition after (call : tid -> timer_loop -> timer_loop) (ts : list tid) (l : timer_loop) : timer_loop :=
  foldl (fun l t => call t l) l ts.

Definition chained (s : gmap tid timer) (L : list tid) : Prop :=
  forall i a, L !! i = Some a -> exists tm, s !! a = Some tm /\ next_due tm = L !! S i.

(** Those timers of the chain run that were not removed when their turn came. *)
Definition ran (call : tid -> timer_loop -> timer_loop) (l : timer_loop) (L tr : list tid) : Prop :=
  tr `sublist_of` L /\
  forall L1 t L2, L = L1 ++ t :: L2 -> (t ∈ tr <-> removed (after call (filter (fun x => x ∈ tr) L1) l) t = false).

Lemma ran_skip call l a L tr : a ∉ L -> removed l a = true -> ran call l L tr -> ran call l (a :: L) tr.
Proof.
  intros Ha Hr [Hs Hw]. assert (Hat : a ∉ tr) by (intros Hin; by apply Ha, (elem_of_sublist tr L a)).
  split; [by apply sublist_cons|]. intros [|b L1] t L2 E; simplify_eq/=.
  - split; [done|congruence].
  - rewrite filter_cons_False by done. by apply (Hw L1 t L2).
Qed.

Lemma filter_in_cons (b : tid) (tr L : list tid) : b ∉ L -> filter (fun x => x ∈ b :: tr) L = filter (fun x => x ∈ tr) L.
Proof.
  induction L as [|x L IH]; [done|]. intros [Hx HL]%not_elem_of_cons. rewrite !filter_cons, IH by done.
  rewrite (decide_ext (x ∈ b :: tr) (x ∈ tr)); [done|]. rewrite elem_of_cons. naive_solver.
Qed.

Lemma ran_cons call l a L tr : a ∉ L -> removed l a = false -> ran call (call a l) L tr -> ran call l (a :: L) (a :: tr).
Proof.
  intros Ha Hr [Hs Hw]. split; [by apply sublist_skip|]. intros [|b L1] t L2 E; simplify_eq/=.
  - split; [done|left].
  - assert (Hne : t <> b) by (intros ->; apply Ha; set_solver).
    rewrite filter_cons_True by left. simpl. rewrite filter_in_cons by set_solver.
    rewrite elem_of_cons, <- (Hw L1 t L2) by done. naive_solver.
Qed.

Lemma run_due_spec (call : tid -> timer_loop -> timer_loop)
  (Hcall : forall t l, heap_ok l -> rtc timer_step l (call t l)) :
  forall L fuel l, heap_ok l -> NoDup L -> chained (tl_store l) L -> (length L < fuel)%nat ->
  exists tr, run_due fuel call l (head L) = Some (after call tr l, tr) /\ ran call l L tr /\ heap_ok (after call tr l).
Proof.
  intros L. induction L as [|a L IH]; intros fuel l Hok Hnd HL Hf; simpl in *.
  { exists []. split; [by destruct fuel|]. split; [|done]. split; [done|]. by intros [|x L1] y L2 E. }
  destruct fuel as [|fuel]; [lia|]. apply NoDup_cons in Hnd as [Hn Hnd].
  destruct (HL 0%nat a eq_refl) as (tm & Ha & En). simpl in En. cbn [run_due]. rewrite Ha. cbn [mbind option_bind].
  assert (Hh : head L = L !! 0%nat) by (by destruct L).
  destruct (Z.eqb_spec (timer_fd tm) TIMER_REMOVED) as [E|E]; cbn [negb].
  - rewrite Ha. cbn [mbind option_bind]. rewrite En, <- Hh.
    destruct (IH fuel l Hok Hnd) as (tr & -> & Hr & Hok'); [intros i b Hb; apply (HL (S i) b Hb)|lia|].
    exists tr. split; [done|]. split; [|done]. apply ran_skip; [done| |done].
    unfold removed. rewrite Ha. simpl. by apply Z.eqb_eq.
  - destruct (timer_steps_chain _ _ (Hcall a l Hok) Hok) as [Hok1 Hch].
    destruct (Hch a tm Ha) as (tm' & Ha' & En'). rewrite Ha'. cbn [mbind option_bind]. rewrite En', En, <- Hh.
    destruct (IH fuel (call a l) Hok1 Hnd) as (tr & -> & Hr & Hok'); [|lia|].
    + intros i b Hb. destruct (HL (S i) b Hb) as (tmb & Hb' & Enb). destruct (Hch b tmb Hb') as (tmc & Hc & Enc).
      exists tmc. split; [done|]. by rewrite Enc.
    + exists (a :: tr). split; [done|]. split; [|done]. apply ran_cons; [done| |done].
      unfold removed. rewrite Ha. simpl. by apply Z.eqb_neq.
Qed.

(** One more due timer at the end of the chain. *)
Lemma linked_snoc s s' L t root f n :
  linked true s (L ++ [t]) -> root ∉ L ++ [t] -> NoDup (L ++ [t]) ->
  tlinks <$> s !! root = Some (n, f) -> f <> TIMER_REMOVED ->
  (exists f', tlinks <$> s !! t = Some f' /\ tlinks <$> s' !! t = Some (Some root, f'.2)) ->
  (forall a, a <> t -> s' !! a = s !! a) -> linked true s' ((L ++ [t]) ++ [root]).
Proof.
  intros HL Hr Hnd Hroot Hf ([n' f'] & Ht & Ht') Hs i a Ha.
  pose proof (lookup_lt_Some _ _ _ Ha) as Hlt. rewrite !length_app in Hlt. simpl in Hlt.
  destruct (decide (i = length L + 1)%nat) as [->|].
  { rewrite lookup_app_r in Ha by (rewrite length_app; simpl; lia).
    rewrite length_app in Ha. simpl in Ha. rewrite Nat.sub_diag in Ha. injection Ha as <-.
    exists n, f. rewrite Hs by set_solver. split; [done|]. split; [done|].
    intros [?|Hx]; [done|]. rewrite lookup_ge_None_2 in Hx; [by destruct Hx|].
    rewrite !length_app. simpl. lia. }
  rewrite lookup_app_l in Ha by (rewrite length_app; simpl; lia).
  destruct (decide (i = length L)) as [->|].
  { rewrite lookup_app_r, Nat.sub_diag in Ha by lia. injection Ha as <-.
    destruct (HL (length L) t) as (m0 & g0 & Hlk & ? & _);
      [rewrite lookup_app_r, Nat.sub_diag by lia; done|].
    exists (Some root), f'. split; [done|]. split; [congruence|].
    intros _. rewrite lookup_app_r by (rewrite length_app; simpl; lia).
    rewrite length_app. simpl. by replace (S (length L) - (length L + 1))%nat with 0%nat by lia. }
  destruct (HL i a Ha) as (m0 & g0 & Hlk & ? & Hm0). exists m0, g0.
  rewrite Hs.
  2: { intros ->. assert (i = length L); [|lia]. eapply (NoDup_lookup _ _ _ _ Hnd Ha).
       rewrite lookup_app_r, Nat.sub_diag by lia. done. }
  rewrite (lookup_app_l (L ++ [t])) by (rewrite length_app; simpl; lia). auto.
Qed.

Definition sorted_by (dl : tid -> timespec) : list tid -> Prop :=
  StronglySorted (fun a b => tle (dl a) (dl b)).

(** What the collecting loop has done once it stops. *)
Record collected (now : timespec) (l l' : timer_loop) (V L D V' : list tid) : Prop := {
  co_inv : heap_inv l' V';
  co_perm : V ≡ₚ D ++ V';
  co_linked : linked true (tl_store l') (L ++ D);
  co_due : forall t, t ∈ D -> tle (dl_of (tl_store l) t) now;
  co_late : forall t, t ∈ V' -> time_lt now (dl_of (tl_store l) t) = true;
  co_sorted : sorted_by (dl_of (tl_store l)) D;
  co_dl : forall t, t ∈ V' -> dl_of (tl_store l') t = dl_of (tl_store l) t
}.

Lemma collect_due_stop now l V L :
  heap_inv l V -> linked true (tl_store l) L ->
  (forall t, t ∈ V -> time_lt now (dl_of (tl_store l) t) = true) -> collected now l l V L [] V.
Proof.
  intros Hi HL Hlate. split; auto.
  - by rewrite app_nil_r.
  - intros t Ht. set_solver.
  - constructor.
Qed.

Lemma time_lt_tle_trans a b c : time_lt a b = true -> tle b c -> time_lt a c = true.
Proof. rewrite !time_lt_spec, tle_spec. lia. Qed.

(** Popping [root] and collecting the rest. *)
Lemma collected_cons now l l1 l2 l' V V1 L D V' root :
  heap_inv l V -> V !! 0%nat = Some root -> disarmed_of l l1 root V V1 ->
  tl_heap l2 = tl_heap l1 ->
  (forall t, dl_of (tl_store l2) t = dl_of (tl_store l1) t) ->
  time_lt now (dl_of (tl_store l) root) = false ->
  collected now l2 l' V1 (L ++ [root]) D V' -> collected now l l' V L (root :: D) V'.
Proof.
  intros Hi Hr (Hi1 & HP & (tm & _ & Hv) & _) Hh Hdl Hdue [Hinv Hp Hlk Hd Hlt Hs He].
  pose proof (hr_nodup _ _ _ _ (hi_rep _ _ Hi)) as Hnd. rewrite HP in Hnd.
  apply NoDup_cons in Hnd as [Hn _].
  assert (E : forall t, t ∈ D ++ V' -> dl_of (tl_store l2) t = dl_of (tl_store l) t).
  { intros t Ht. rewrite Hdl, (dl_of_view_insert _ _ _ _ _ _ t Hv), decide_False; [done|].
    intros ->. by rewrite Hp in Hn. }
  split.
  - done.
  - by rewrite HP, Hp.
  - by rewrite <- app_assoc in Hlk.
  - intros t [->|Ht]%elem_of_cons; [done|]. rewrite <- E by set_solver. by apply Hd.
  - intros t Ht. rewrite <- E by set_solver. by apply Hlt.
  - constructor.
    + clear -Hs E. induction Hs as [|a D Hs IH Hf]; constructor.
      * apply IH. intros t Ht. apply E. set_solver.
      * rewrite Forall_forall in *. intros x Hx. rewrite <- !E by set_solver. by apply Hf.
    + apply Forall_forall. intros x Hx.
      assert (x ∈ V) as [i Hxi]%list_elem_of_lookup by (rewrite HP, Hp; set_solver).
      eapply heap_ordered_root; [apply (hi_ord _ _ Hi)|done|done].
  - intros t Ht. rewrite He by done. apply E. set_solver.
Qed.

Lemma linked_disarm l l1 V V1 root L :
  disarmed_of l l1 root V V1 -> linked true (tl_store l) L -> linked true (tl_store l1) L.
Proof.
  intros (_ & _ & (tm & Ht & Hv) & _). apply linked_ext. intros a _.
  pose proof (f_equal (lookup a) (tview_tlinks _ _ _ _ _ Ht Hv)) as E.
  by rewrite !lookup_fmap in E.
Qed.

(** Relinking a timer does not disturb the heap. *)
Lemma heap_inv_relink l V t tm n :
  heap_inv l V -> tl_store l !! t = Some tm ->
  heap_inv (Loop (<[t := set_next_due n tm]> (tl_store l)) (tl_heap l)) V.
Proof.
  intros Hi Ht. destruct (hi_rep _ _ Hi) as [Hlen Hnd Hat].
  assert (Hdl : forall x, dl_of (tl_store l) x = dl_of (<[t := set_next_due n tm]> (tl_store l)) x).
  { intros x. unfold dl_of. destruct (decide (t = x)) as [->|].
    - by rewrite lookup_insert_eq, Ht.
    - by rewrite lookup_insert_ne. }
  split; simpl; try apply Hi.
  - eapply hole_rep_ext; [exact Hdl|]. split; [done|done|]. intros i x Hx. simpl in *.
    destruct (Hat i x Hx) as (tmx & Htx & ? & Hy). destruct (decide (t = x)) as [->|].
    + exists (set_next_due n tm). rewrite lookup_insert_eq. simplify_eq. auto.
    + exists tmx. rewrite lookup_insert_ne by done. auto.
  - eapply heap_ordered_ext; [exact Hdl|]. apply Hi.
  - intros x tmx [[<- <-]|[? Hx]]%lookup_insert_Some Hn;
      [by apply (hi_idx _ _ Hi t tm)|by eapply (hi_idx _ _ Hi)].
  - intros x tmx Hin [[<- <-]|[? Hx]]%lookup_insert_Some;
      [by apply (hi_live _ _ Hi t tm)|by eapply (hi_live _ _ Hi)].
  - rewrite (live_count_insert _ _ tm) by done. apply Hi.
Qed.

Lemma dl_of_relink s t tm n x : s !! t = Some tm -> dl_of (<[t := set_next_due n tm]> s) x = dl_of s x.
Proof.
  intros Ht. unfold dl_of. destruct (decide (t = x)) as [->|]; [by rewrite lookup_insert_eq, Ht|by rewrite lookup_insert_ne].
Qed.

(** A due timer is linked behind the last one collected. *)
Lemma relink_last l V L t root links : heap_inv l V -> NoDup (((L ++ [t]) ++ [root]) ++ V) ->
  linked true (tl_store l) (L ++ [t]) -> tlinks <$> tl_store l !! root = Some links -> links.2 <> TIMER_REMOVED ->
  exists tm, tl_store l !! t = Some tm /\
    let l' := Loop (<[t := set_next_due (Some root) tm]> (tl_store l)) (tl_heap l) in
    heap_inv l' V /\ linked true (tl_store l') ((L ++ [t]) ++ [root]).
Proof.
  intros Hi Hnd HL Hr Hf. destruct (HL (length L) t) as (nt & ft & Hlt & _ & _).
  { rewrite lookup_app_r, Nat.sub_diag by lia. done. }
  destruct (tl_store l !! t) as [tm|] eqn:Et; [|done]. exists tm. split; [done|]. cbv zeta.
  split; [by apply heap_inv_relink|]. apply NoDup_app in Hnd as (Hnd & _ & _). apply NoDup_app in Hnd as (Hnd & Hx & _).
  destruct links as [n f]. eapply linked_snoc; eauto.
  - intros Hin. apply (Hx root Hin). set_solver.
  - clear Hlt. eexists. rewrite Et. split; [done|]. simpl. by rewrite lookup_insert_eq.
  - intros x Hxt. simpl. by rewrite lookup_insert_ne.
Qed.

Lemma collect_due_spec now fuel : forall l V L,
  heap_inv l V -> NoDup (L ++ V) -> linked true (tl_store l) L -> (length V < fuel)%nat ->
  exists l' D V', collect_due fuel now l (head L) (last L) = Some (l', head (L ++ D), last (L ++ D)) /\
    collected now l l' V L D V'.
Proof.
  induction fuel as [|fuel IH]; intros l V L Hi Hnd HL Hf; [lia|]. cbn [collect_due].
  rewrite (hi_active _ _ Hi). destruct V as [|root V0] eqn:EV; cbn [length Nat.ltb Nat.leb].
  { exists l, [], []. rewrite app_nil_r. split; [done|]. apply collect_due_stop; auto. set_solver. }
  rewrite <- EV in *. assert (Hr : V !! 0%nat = Some root) by (by subst).
  destruct (hole_rep_full _ _ _ _ _ (hi_rep _ _ Hi) Hr) as (tmr & Htr & Hdr & _ & Hat). simpl in Htr, Hat.
  rewrite Hat. cbn [mbind option_bind]. rewrite Htr. cbn [mbind option_bind]. rewrite Hdr.
  destruct (time_lt now (dl_of (tl_store l) root)) eqn:Enow.
  { exists l, [], V. rewrite app_nil_r. split; [done|]. apply collect_due_stop; auto.
    intros t [i Ht]%list_elem_of_lookup. eapply time_lt_tle_trans; [done|].
    eapply heap_ordered_root; [apply (hi_ord _ _ Hi)|done|done]. }
  assert (Hrin : root ∈ V) by (subst; set_solver).
  destruct (wl_timer_heap_disarm_spec l V root Hi Hrin) as (l1 & V1 & -> & Hdis).
  pose proof (linked_disarm _ _ _ _ _ _ Hdis HL) as HL1.
  pose proof Hdis as (Hi1 & HP & (tm0 & Ht0 & Hv) & _).
  assert (Hlk : tlinks <$> tl_store l1 !! root = Some (next_due tm0, timer_fd tm0)).
  { pose proof (f_equal (lookup root) (tview_tlinks _ _ _ _ _ Ht0 Hv)) as E.
    rewrite !lookup_fmap, Ht0 in E. done. }
  assert (Hlv : timer_fd tm0 <> TIMER_REMOVED) by (by eapply (hi_live _ _ Hi)).
  assert (Hnd1 : NoDup ((L ++ [root]) ++ V1)) by (rewrite <- app_assoc; simpl; by rewrite <- HP).
  assert (Hf1 : (length V1 < fuel)%nat) by (rewrite HP in Hf; simpl in Hf; lia).
  cbn [mbind option_bind]. destruct L as [|t L _] using rev_ind.
  - destruct (IH l1 V1 [root]) as (l' & D & V' & Hc & Hcol); auto.
    { intros [|i] a Ha; [|done]. injection Ha as <-.
      eexists _, _. split; [done|]. split; [done|]. by intros [?|[? ?]]. }
    exists l', (root :: D), V'. split; [exact Hc|].
    by apply (collected_cons now l l1 l1 l' V V1 [] D V').
  - rewrite last_snoc. assert (Hht : head (L ++ [t]) = Some (default t (head L))) by (by destruct L).
    rewrite Hht. destruct (relink_last l1 V1 L t root _ Hi1 Hnd1 HL1 Hlk Hlv) as (tmt & Ett & Hi2 & HL2).
    rewrite Ett. cbn [mbind option_bind]. set (l2 := Loop _ (tl_heap l1)) in *.
    destruct (IH l2 V1 ((L ++ [t]) ++ [root])) as (l' & D & V' & Hc & Hcol); auto.
    exists l', (root :: D), V'.
    replace ((L ++ [t]) ++ root :: D) with (((L ++ [t]) ++ [root]) ++ D) by (by rewrite <- app_assoc).
    split; [rewrite <- Hc; rewrite last_snoc; f_equal; by destruct L|].
    apply (collected_cons now l l1 l2 l' V V1 (L ++ [t]) D V'); try done. intros x. by apply dl_of_relink.
Qed.

(** Terminating the chain. *)
Lemma linked_close s L t tm :
  linked true s (L ++ [t]) -> NoDup (L ++ [t]) -> s !! t = Some tm ->
  linked false (<[t := set_next_due None tm]> s) (L ++ [t]).
Proof.
  intros HL Hnd Ht i a Ha. pose proof (lookup_lt_Some _ _ _ Ha) as Hlt.
  rewrite length_app in Hlt. simpl in Hlt.
  assert (Hlast : (L ++ [t]) !! length L = Some t)
    by (rewrite lookup_app_r, Nat.sub_diag by lia; done).
  destruct (HL i a Ha) as (n & f & Hlk & Hf & Hn). destruct (decide (i = length L)) as [->|Hne].
  - assert (a = t) as -> by congruence. rewrite Ht in Hlk. injection Hlk as _ Hff.
    exists None, f. rewrite lookup_insert_eq. split; [simpl; by rewrite <- Hff|].
    split; [done|]. intros _. symmetry. apply lookup_ge_None_2. rewrite length_app. simpl. lia.
  - exists n, f. rewrite lookup_insert_ne.
    + split; [done|]. split; [done|]. intros _. apply Hn. right.
      apply lookup_lt_is_Some_2. rewrite length_app. simpl. lia.
    + intros ->. by apply Hne, (NoDup_lookup _ _ _ _ Hnd Ha).
Qed.

(** The chain with its end marked, whatever it holds. *)
Lemma collected_close now l l1 V D V1 :
  heap_inv l V -> collected now l l1 V [] D V1 ->
  exists l2, (match last D with
    | Some t => tm ← tl_store l1 !! t;
                Some (Loop (<[t := set_next_due None tm]> (tl_store l1)) (tl_heap l1))
    | None => Some l1 end) = Some l2 /\
    heap_inv l2 V1 /\ linked false (tl_store l2) D /\
    forall t, dl_of (tl_store l2) t = dl_of (tl_store l1) t.
Proof.
  intros Hi [Hinv HP Hlk _ _ _ _]. simpl in Hlk.
  pose proof (hr_nodup _ _ _ _ (hi_rep _ _ Hi)) as Hnd. rewrite HP in Hnd.
  apply NoDup_app in Hnd as (Hnd & _ & _). destruct D as [|t D _] using rev_ind.
  { exists l1. split_and!; auto. by intros i a ?. }
  rewrite last_snoc. destruct (Hlk (length D) t) as (n & f & Ht & _).
  { rewrite lookup_app_r, Nat.sub_diag by lia. done. }
  destruct (tl_store l1 !! t) as [tm|] eqn:E; [|done]. eexists. split; [done|].
  split; [by apply heap_inv_relink|]. split; [by apply linked_close|]. intros x. by apply dl_of_relink.
Qed.

(** Programming the timerfd for what is still armed. *)
Lemma dispatch_rearm fd_ok l V : heap_inv l V ->
  exists l' r, (if (0 <? th_active (tl_heap l))%nat then
      root ← heap_at (th_data (tl_heap l)) 0; tmr ← tl_store l !! root;
      Some (set_timer fd_ok (deadline tmr) l) else Some (clear_timer fd_ok l)) = Some (l', r) /\
    tl_store l' = tl_store l /\ heap_inv l' V /\ r = (if fd_ok then 0 else -1) /\ (fd_ok = true -> timerfd_early l').
Proof.
  intros Hi. rewrite (hi_active _ _ Hi). unfold set_timer, clear_timer. destruct V as [|root V]; simpl.
  - destruct fd_ok; eexists _, _; (split; [done|]); (split_and!; [done|by try apply set_armed_inv|done|]); [|done].
    intros _ t d Ht. change (armed l !! t = Some d) in Ht. rewrite (armed_lookup _ _ _ Hi) in Ht.
    by rewrite decide_False in Ht by apply not_elem_of_nil.
  - destruct (hole_rep_full _ _ _ 0 root (hi_rep _ _ Hi) eq_refl) as (tmr & Htr & Hd & _ & Hat).
    simpl in Hat, Htr. rewrite Hat. simpl. rewrite Htr. simpl.
    destruct fd_ok; eexists _, _; (split; [done|]); (split_and!; [done|by try apply set_armed_inv|done|]); [|done].
    intros _ t d Ht. exists (deadline tmr). split; [done|].
    replace (deadline tmr) with (dl_of (tl_store l) root) by (unfold dl_of; by rewrite Htr).
    eapply (armed_root_min l); [exact Hi|done|]. by destruct l.
Qed.

(** C33. A dispatch at time [now] terminates without a failing pointer access, whatever the
    callbacks do to timers: each may create, rearm, disarm and remove any timers, itself
    and others that are due included. Let [D] be the timers whose deadline has passed, in
    the order of their deadlines. They are disarmed, the others stay armed as they are, and
    the timerfd is programmed for those. If that works the callbacks of [D] run in order,
    each at most once, exactly those that no callback run before them removed, from the
    loop [l0]; if it fails, the dispatch returns -1 and none runs, though they are
    disarmed. *)
Theorem timer_dispatch_runs_due (now : timespec) (fd_ok : bool) (call : tid -> timer_loop -> timer_loop)
  (l : timer_loop) (Hok : heap_ok l)
  (Hcall : forall t l0, heap_ok l0 -> rtc timer_step l0 (call t l0)) :
  exists D l0 l' r tr, wl_timer_heap_dispatch now fd_ok call l = Some (l', r, tr) /\ heap_ok l' /\
    NoDup D /\ (forall t, t ∈ D <-> exists d, armed l !! t = Some d /\ time_lt now d = false) /\
    sorted_by (dl_of (tl_store l)) D /\
    (forall t, armed l0 !! t = if decide (t ∈ D) then None else armed l !! t) /\
    (forall t, t ∈ D -> removed l0 t = false) /\
    if fd_ok then r = 0 /\ timerfd_early l0 /\ l' = after call tr l0 /\ ran call l0 D tr
    else r = -1 /\ l' = l0 /\ tr = [].
Proof.
  destruct Hok as [V Hi]. unfold wl_timer_heap_dispatch. rewrite (hi_active _ _ Hi).
  pose proof (hr_nodup _ _ _ _ (hi_rep _ _ Hi)) as Hnd.
  destruct (collect_due_spec now (S (length V)) l V []) as (l1 & D & V1 & Hc & Hcol);
    [done|done|by intros i a ?|lia|]. cbn [head hd_error last app] in Hc. rewrite Hc.
  cbn [mbind option_bind]. destruct (collected_close _ _ _ _ _ _ Hi Hcol) as (l2 & -> & Hi2 & Hlk2 & Hdl2).
  cbn [mbind option_bind]. destruct Hcol as [_ HP _ Hdue Hlate Hsort Hdl].
  destruct (dispatch_rearm fd_ok l2 V1 Hi2) as (l3 & r & -> & Hs3 & Hi3 & -> & Hearly). cbn [mbind option_bind].
  rewrite HP in Hnd. apply NoDup_app in Hnd as (HndD & Hdis & _).
  assert (Hspec : NoDup D /\ (forall t, t ∈ D <-> exists d, armed l !! t = Some d /\ time_lt now d = false) /\
    sorted_by (dl_of (tl_store l)) D /\ (forall t, armed l3 !! t = if decide (t ∈ D) then None else armed l !! t) /\
    (forall t, t ∈ D -> removed l3 t = false)).
  { split_and!; [done| |done| |].
    - intros t. rewrite (armed_lookup _ _ _ Hi). split.
      + intros Ht. exists (dl_of (tl_store l) t). rewrite decide_True by (rewrite HP; set_solver).
        split; [done|]. by apply Hdue.
      + intros (d & Hd & Hlt). case_decide as Hin; [|done]. injection Hd as <-.
        rewrite HP in Hin. apply elem_of_app in Hin as [?|Hin]; [done|]. apply Hlate in Hin. congruence.
    - intros t. rewrite (armed_lookup _ _ _ Hi3), (armed_lookup _ _ _ Hi), Hs3, Hdl2.
      destruct (decide (t ∈ D)) as [Hin|Hin].
      + rewrite decide_False; [done|]. by apply Hdis.
      + destruct (decide (t ∈ V1)) as [Hv|Hv].
        * rewrite decide_True by (rewrite HP; set_solver). by rewrite Hdl.
        * rewrite decide_False; [done|]. rewrite HP, elem_of_app. tauto.
    - intros t [i Ht]%list_elem_of_lookup. destruct (Hlk2 i t Ht) as (n & f & Hf & Hne & _). unfold removed. rewrite Hs3.
      destruct (tl_store l2 !! t) as [tm|]; [|done]. injection Hf as _ <-. by apply Z.eqb_neq. }
  destruct Hspec as (S1 & S2 & S3 & S4 & S5). exists D, l3. destruct fd_ok; cbn [Z.ltb Z.compare].
  - destruct (run_due_spec call Hcall D (S (length V)) l3) as (tr & Hrun & Hran & Hok'); [by exists V1|done| | |].
    + intros i a Ha. destruct (Hlk2 i a Ha) as (n & f & Hf & _ & Hn). rewrite Hs3.
      destruct (tl_store l2 !! a) as [tm|]; [|done]. injection Hf as En _. exists tm. split; [done|].
      rewrite En. by apply Hn; left.
    + rewrite HP, length_app. lia.
    + simpl app. rewrite Hrun. exists (after call tr l3), 0, tr. split_and!; auto.
  - exists l3, (-1), []. split_and!; auto. by exists V1.
Qed.

(** A loop with timers 1 and 2 armed one second apart. *)
Definition example_armed : timer_loop :=
  let upd l t ms := from_option fst l (wl_event_source_timer_update (TS 10 0) true l t ms) in
  upd (upd example_loop 2%nat 2000) 1%nat 1000.

Lemma example_armed_ok : heap_ok example_armed.
Proof.
  unfold example_armed.
  destruct (timer_update_spec (TS 10 0) true example_loop 2%nat (Timer (TS 0 0) (-1) None (-1)) 2000)
    as (l1 & r1 & E1 & Hok1 & _ & _ & Hlk1); [apply example_loop_ok|done|done|].
  rewrite E1. simpl. pose proof (f_equal (lookup 1%nat) Hlk1) as E. rewrite !lookup_fmap in E.
  destruct (tl_store l1 !! 1%nat) as [tm|] eqn:Ht; [|done]. injection E as _ Hfd.
  destruct (timer_update_spec (TS 10 0) true l1 1%nat tm 1000) as (l2 & r2 & E2 & Hok2 & _);
    [done|done|by rewrite Hfd|]. by rewrite E2.
Qed.

(** The callback of timer 1 removes timer 2. *)
Definition example_call (t : tid) (l : timer_loop) : timer_loop :=
  if (t =? 1)%nat then default l (wl_event_source_remove (TS 12 0) true true l 2%nat) else l.

Lemma timer_dispatch_runs_due_witness :
  (fun p => snd p) <$> wl_timer_heap_dispatch (TS 12 0) true example_call example_armed = Some [1%nat] /\
  exists D l0 l' r tr, wl_timer_heap_dispatch (TS 12 0) true example_call example_armed = Some (l', r, tr) /\ heap_ok l' /\
    NoDup D /\ (forall t, t ∈ D <-> exists d, armed example_armed !! t = Some d /\ time_lt (TS 12 0) d = false) /\
    sorted_by (dl_of (tl_store example_armed)) D /\
    (forall t, armed l0 !! t = if decide (t ∈ D) then None else armed example_armed !! t) /\
    (forall t, t ∈ D -> removed l0 t = false) /\
    (r = 0 /\ timerfd_early l0 /\ l' = after example_call tr l0 /\ ran example_call l0 D tr).
Proof.
  split; [vm_compute; reflexivity|].
  apply (timer_dispatch_runs_due (TS 12 0) true example_call example_armed).
  - apply example_armed_ok.
  - intros t l0 _. unfold example_call. destruct (t =? 1)%nat; [|apply rtc_refl].
    destruct (wl_event_source_remove (TS 12 0) true true l0 2%nat) as [l1|] eqn:E; [|apply rtc_refl].
    apply rtc_once. exact (step_timer_remove (TS 12 0) true true 2%nat l0 l1 E).
Defined.

(** When the timerfd cannot be programmed, timers that are due never run. *)
Example example_lost_timers :
  (fun p => (snd (fst p), snd p, map fst (map_to_list (armed (fst (fst p)))))) <$>
    wl_timer_heap_dispatch (TS 12 0) false (fun _ l => l) example_armed = Some (-1, [], []).
Proof. vm_compute. reflexivity. Qed.

Example example_dispatch :
  (fun p => p.2) <$> wl_timer_heap_dispatch (TS 12 0) true (fun _ l => l) example_armed
  = Some [1%nat; 2%nat].
Proof. vm_compute. reflexivity. Qed.
