(* ===== verification/Keyboard.v ===== *)
(** * Keyboards of wlroots

    Models src/libs/wlroots/util/set.c, src/libs/wlroots/types/wlr_keyboard.c
    and the key counting of src/libs/wlroots/types/wlr_keyboard_group.c.

    - [Xkb] is the interface of libxkbcommon the keyboard code calls; its keymap
      and keysym tables stay abstract, and theorems that rely on a documented
      behaviour of it say so in a hypothesis;
    - a keyboard is the record [wlr_keyboard]; its signals and the LED hook of
      its backend are a list of [kb_event]s produced next to the new state;
    - the clock, the shared memory file and [mmap] are arguments of the
      operations that use them. *)

From S2P Require Import Prelude.

(** ** libxkbcommon *)

Class Xkb := {
  xkb_keymap : Type;
  xkb_state : Type;
  xkb_state_new : xkb_keymap -> option xkb_state;
  xkb_keymap_get_as_string : xkb_keymap -> option str;
  xkb_state_update_key : xkb_state -> Z -> bool -> xkb_state;
  xkb_state_update_mask : xkb_state -> Z -> Z -> Z -> Z -> xkb_state;
  xkb_mods_depressed : xkb_state -> Z;
  xkb_mods_latched : xkb_state -> Z;
  xkb_mods_locked : xkb_state -> Z;
  xkb_layout_effective : xkb_state -> Z;
  xkb_state_led_index_is_active : xkb_state -> Z -> bool;
  xkb_map_led_get_index : xkb_keymap -> str -> Z;
  xkb_map_mod_get_index : xkb_keymap -> str -> Z;
  xkb_state_key_get_syms : xkb_state -> Z -> list Z;
  xkb_keysym_to_lower : Z -> Z;
  xkb_keysym_from_name : str -> Z;
  xkb_keysym_get_name : Z -> option str }.

(** ** Sets of keycodes in a C array (util/set.c) *)

Module KeySet.

(** The search loop shared by both functions: the first index [i] at or after
    [i] and below [i + n] that holds the target. *)
Fixpoint search (values : list Z) (target : Z) (n i : nat) : option nat :=
  match n with
  | O => None
  | S n => if (values !!! i : Z) =? target then Some i else search values target n (S i)
  end.

(** [values], the new [*len] and the value returned. *)
Definition set_add (values : list Z) (len cap : nat) (target : Z) : list Z * nat * Z :=
  match search values target len 0 with
  | Some i => (values, len, Z.of_nat i)
  | None => if (len =? cap)%nat then (values, len, -1)
            else (<[len := target]> values, S len, Z.of_nat len)
  end.

Definition set_remove (values : list Z) (len cap : nat) (target : Z) : list Z * nat * Z :=
  match search values target len 0 with
  | Some i => let len := pred len in
              (<[i := values !!! len]> values, len, Z.of_nat i)
  | None => (values, len, -1)
  end.

End KeySet.
Import KeySet.

(** ** Keyboard state *)

Definition WLR_LED_COUNT : nat := 5.
Definition WLR_MODIFIER_COUNT : nat := 8.
Definition WLR_KEYBOARD_KEYS_CAP : nat := 32.
Definition XKB_MOD_INVALID : Z := 4294967295.
Definition KEY_RELEASED : Z := 0.
Definition KEY_PRESSED : Z := 1.

Definition WLR_MODIFIER_SHIFT : Z := Z.shiftl 1 0.
Definition WLR_MODIFIER_CAPS : Z := Z.shiftl 1 1.
Definition WLR_MODIFIER_CTRL : Z := Z.shiftl 1 2.
Definition WLR_MODIFIER_ALT : Z := Z.shiftl 1 3.
Definition WLR_MODIFIER_MOD2 : Z := Z.shiftl 1 4.
Definition WLR_MODIFIER_MOD3 : Z := Z.shiftl 1 5.
Definition WLR_MODIFIER_LOGO : Z := Z.shiftl 1 6.
Definition WLR_MODIFIER_MOD5 : Z := Z.shiftl 1 7.

Record wlr_keyboard_modifiers := Mods {
  depressed : Z; latched : Z; locked : Z; mods_group : Z }.

#[export] Instance mods_eq_dec : EqDecision wlr_keyboard_modifiers.
Proof. solve_decision. Defined.

Record wlr_keyboard_key_event := KeyEvent {
  ev_time_msec : Z; ev_keycode : Z; ev_update_state : bool; ev_state : Z }.

(** What a keyboard tells its listeners and its backend. *)
Inductive kb_event :=
| EvKey (e : wlr_keyboard_key_event)
| EvModifiers
| EvKeymap
| EvRepeatInfo
| EvDestroy
| LedUpdate (leds : Z).

Section Keyboard.
Context `{Xkb}.

Record wlr_keyboard := Keyboard {
  kb_has_led_update : bool;            (* impl && impl->led_update *)
  kb_keymap : option xkb_keymap;
  kb_xkb_state : option xkb_state;
  kb_keymap_string : option str;
  kb_keymap_size : Z;
  kb_keymap_fd : Z;
  kb_led_indexes : list Z;
  kb_mod_indexes : list Z;
  kb_leds : Z;
  kb_keycodes : list Z;                (* WLR_KEYBOARD_KEYS_CAP cells *)
  kb_num_keycodes : nat;
  kb_modifiers : wlr_keyboard_modifiers;
  kb_repeat_rate : Z;
  kb_repeat_delay : Z }.

Definition set_kb_xkb_state (s : option xkb_state) (kb : wlr_keyboard) : wlr_keyboard :=
  let (a, b, _, d, e, f, g, h, i, j, k, l, m, n) := kb in
  Keyboard a b s d e f g h i j k l m n.
Definition set_kb_leds (leds : Z) (kb : wlr_keyboard) : wlr_keyboard :=
  let (a, b, c, d, e, f, g, h, _, j, k, l, m, n) := kb in
  Keyboard a b c d e f g h leds j k l m n.
Definition set_kb_keys (values : list Z) (len : nat) (kb : wlr_keyboard) : wlr_keyboard :=
  let (a, b, c, d, e, f, g, h, i, _, _, l, m, n) := kb in
  Keyboard a b c d e f g h i values len l m n.
Definition set_kb_modifiers (mods : wlr_keyboard_modifiers) (kb : wlr_keyboard)
    : wlr_keyboard :=
  let (a, b, c, d, e, f, g, h, i, j, k, _, m, n) := kb in
  Keyboard a b c d e f g h i j k mods m n.
Definition set_kb_repeat (rate delay : Z) (kb : wlr_keyboard) : wlr_keyboard :=
  let (a, b, c, d, e, f, g, h, i, j, k, l, _, _) := kb in
  Keyboard a b c d e f g h i j k l rate delay.
Definition set_kb_keymap (km : option xkb_keymap) (s : option xkb_state)
    (text : option str) (size fd : Z) (kb : wlr_keyboard) : wlr_keyboard :=
  let (a, _, _, _, _, _, g, h, i, j, k, l, m, n) := kb in
  Keyboard a km s text size fd g h i j k l m n.
Definition set_kb_indexes (leds mods : list Z) (kb : wlr_keyboard) : wlr_keyboard :=
  let (a, b, c, d, e, f, _, _, i, j, k, l, m, n) := kb in
  Keyboard a b c d e f leds mods i j k l m n.

(** ** Operations (types/wlr_keyboard.c) *)

(** A step gives the new keyboard and what it emitted, in order. *)
Definition kb_step : Type := wlr_keyboard * list kb_event.
Definition andthen (s : kb_step) (f : wlr_keyboard -> kb_step) : kb_step :=
  let '(kb, t) := s in let '(kb, t') := f kb in (kb, t ++ t').

Definition wlr_keyboard_led_update (kb : wlr_keyboard) (leds : Z) : kb_step :=
  if kb_leds kb =? leds then (kb, [])
  else let kb := set_kb_leds leds kb in
       (kb, if kb_has_led_update kb then [LedUpdate leds] else []).

Definition keyboard_led_update (kb : wlr_keyboard) : kb_step :=
  match kb_xkb_state kb with
  | None => (kb, [])
  | Some s =>
      let leds := foldl (fun leds i =>
        if xkb_state_led_index_is_active s (kb_led_indexes kb !!! i)
        then Z.lor leds (Z.shiftl 1 (Z.of_nat i)) else leds) 0 (seq 0 WLR_LED_COUNT) in
      wlr_keyboard_led_update kb leds
  end.

Definition xkb_mods (s : xkb_state) : wlr_keyboard_modifiers :=
  Mods (xkb_mods_depressed s) (xkb_mods_latched s) (xkb_mods_locked s)
    (xkb_layout_effective s).

Definition keyboard_modifier_update (kb : wlr_keyboard) : wlr_keyboard * bool :=
  match kb_xkb_state kb with
  | None => (kb, false)
  | Some s => if decide (xkb_mods s = kb_modifiers kb) then (kb, false)
              else (set_kb_modifiers (xkb_mods s) kb, true)
  end.

Definition keyboard_key_update (kb : wlr_keyboard) (e : wlr_keyboard_key_event)
    : wlr_keyboard :=
  let kb := if ev_state e =? KEY_PRESSED then
      let '(v, n, _) := set_add (kb_keycodes kb) (kb_num_keycodes kb)
                          WLR_KEYBOARD_KEYS_CAP (ev_keycode e) in set_kb_keys v n kb
    else kb in
  if ev_state e =? KEY_RELEASED then
    let '(v, n, _) := set_remove (kb_keycodes kb) (kb_num_keycodes kb)
                        WLR_KEYBOARD_KEYS_CAP (ev_keycode e) in set_kb_keys v n kb
  else kb.

(** The tail shared by both notifications: refresh the cached modifiers,
    announce a change, refresh the LEDs. *)
Definition keyboard_sync (kb : wlr_keyboard) : kb_step :=
  let '(kb, updated) := keyboard_modifier_update kb in
  andthen (kb, if updated then [EvModifiers] else []) keyboard_led_update.

Definition wlr_keyboard_notify_modifiers (kb : wlr_keyboard) (m : wlr_keyboard_modifiers)
    : kb_step :=
  match kb_xkb_state kb with
  | None => if decide (kb_modifiers kb = m) then (kb, [])
            else (set_kb_modifiers m kb, [EvModifiers])
  | Some s =>
      let s := xkb_state_update_mask s (depressed m) (latched m) (locked m) (mods_group m) in
      keyboard_sync (set_kb_xkb_state (Some s) kb)
  end.

Definition wlr_keyboard_notify_key (kb : wlr_keyboard) (e : wlr_keyboard_key_event)
    : kb_step :=
  andthen (keyboard_key_update kb e, [EvKey e]) (fun kb =>
  match kb_xkb_state kb with
  | None => (kb, [])
  | Some s =>
      let kb := if ev_update_state e then
          set_kb_xkb_state (Some (xkb_state_update_key s (u32 (ev_keycode e + 8))
            (ev_state e =? KEY_PRESSED))) kb
        else kb in
      keyboard_sync kb
  end).

Definition wlr_keyboard_init (has_led_update : bool) : wlr_keyboard :=
  Keyboard has_led_update None None None 0 (-1) (replicate WLR_LED_COUNT 0)
    (replicate WLR_MODIFIER_COUNT 0) 0 (replicate WLR_KEYBOARD_KEYS_CAP 0) 0
    (Mods 0 0 0 0) 25 600.

Definition keyboard_unset_keymap (kb : wlr_keyboard) : wlr_keyboard :=
  set_kb_keymap None None None 0 (-1) kb.

(** The [while] loop of [wlr_keyboard_finish], [None] when the fuel runs out. *)
Fixpoint finish_loop (fuel : nat) (time_msec : Z) (kb : wlr_keyboard) : option kb_step :=
  match kb_num_keycodes kb with
  | O => Some (kb, [])
  | S last =>
      match fuel with
      | O => None
      | S fuel =>
          let e := KeyEvent time_msec (kb_keycodes kb !!! last) false KEY_RELEASED in
          let '(kb, t) := wlr_keyboard_notify_key kb e in
          '(kb, t') ← finish_loop fuel time_msec kb; Some (kb, t ++ t')
      end
  end.

Definition wlr_keyboard_finish (fuel : nat) (time_msec : Z) (kb : wlr_keyboard)
    : option kb_step :=
  '(kb, t) ← finish_loop fuel time_msec kb;
  Some (keyboard_unset_keymap kb, t ++ [EvDestroy]).

Definition led_names : list str :=
  map txt ["Num Lock"; "Caps Lock"; "Scroll Lock"; "Compose"; "Kana"]%string.
Definition mod_names : list str :=
  map txt ["Shift"; "Lock"; "Control"; "Mod1"; "Mod2"; "Mod3"; "Mod4"; "Mod5"]%string.

(** [shm] is the read-only descriptor of the shared memory file, when it could
    be allocated; [mmap_ok] whether it could be mapped. *)
Definition wlr_keyboard_set_keymap (shm : option Z) (mmap_ok : bool) (kb : wlr_keyboard)
    (keymap : option xkb_keymap) : kb_step * bool :=
  match keymap with
  | None => ((keyboard_unset_keymap kb, [EvKeymap]), true)
  | Some km =>
      match xkb_state_new km with
      | None => ((kb, []), false)
      | Some s =>
          match xkb_keymap_get_as_string km, shm with
          | Some text, Some ro_fd =>
              if mmap_ok then
                let kb := keyboard_unset_keymap kb in
                let kb := set_kb_keymap (Some km) (Some s) (Some text)
                            (Z.of_nat (length text) + 1) ro_fd kb in
                let kb := set_kb_indexes (map (xkb_map_led_get_index km) led_names)
                            (map (xkb_map_mod_get_index km) mod_names) kb in
                let s := foldl (fun s i => xkb_state_update_key s
                           (u32 ((kb_keycodes kb !!! i : Z) + 8)) true) s
                           (seq 0 (kb_num_keycodes kb)) in
                let kb := (keyboard_modifier_update (set_kb_xkb_state (Some s) kb)).1 in
                ((kb, [EvKeymap]), true)
              else ((kb, []), false)
          | _, _ => ((kb, []), false)
          end
      end
  end.

Definition wlr_keyboard_set_repeat_info (kb : wlr_keyboard) (rate delay : Z) : kb_step :=
  if (kb_repeat_rate kb =? rate) && (kb_repeat_delay kb =? delay) then (kb, [])
  else (set_kb_repeat rate delay kb, [EvRepeatInfo]).

Definition wlr_keyboard_get_modifiers (kb : wlr_keyboard) : Z :=
  let mask := Z.lor (depressed (kb_modifiers kb)) (latched (kb_modifiers kb)) in
  foldl (fun modifiers i =>
    let idx : Z := kb_mod_indexes kb !!! i in
    if negb (idx =? XKB_MOD_INVALID) && has_flag mask (Z.shiftl 1 idx)
    then Z.lor modifiers (Z.shiftl 1 (Z.of_nat i)) else modifiers)
    0 (seq 0 WLR_MODIFIER_COUNT).

End Keyboard.

(** Mouse keys. *)
Definition wlr_keyboard_keysym_to_pointer_button (keysym : Z) : Z :=
  if keysym =? 0xfee9 then 0x110        (* XKB_KEY_Pointer_Button1: BTN_LEFT *)
  else if keysym =? 0xfeea then 0x112   (* XKB_KEY_Pointer_Button2: BTN_MIDDLE *)
  else if keysym =? 0xfeeb then 0x111   (* XKB_KEY_Pointer_Button3: BTN_RIGHT *)
  else 0.

Definition wlr_keyboard_keysym_to_pointer_motion (keysym : Z) : Z * Z :=
  let among l := existsb (Z.eqb keysym) l in
  (if among [0xfee1; 0xfee7; 0xfee5] then 1         (* Right, DownRight, UpRight *)
   else if among [0xfee0; 0xfee6; 0xfee4] then -1   (* Left, DownLeft, UpLeft *)
   else 0,
   if among [0xfee3; 0xfee6; 0xfee7] then 1         (* Down, DownLeft, DownRight *)
   else if among [0xfee2; 0xfee4; 0xfee5] then -1   (* Up, UpLeft, UpRight *)
   else 0).

(** ** Key counting of a keyboard group (types/wlr_keyboard_group.c) *)

Record keyboard_group_key := GroupKey { gk_keycode : Z; gk_count : Z }.

(** The walk over [group->keys]: [inl] when the function returns inside the
    loop, [inr] with the remaining list when it leaves it. *)
Fixpoint group_walk (keys : list keyboard_group_key) (e : wlr_keyboard_key_event)
    : list keyboard_group_key + list keyboard_group_key :=
  match keys with
  | [] => inr []
  | k :: rest =>
      if negb (gk_keycode k =? ev_keycode e) then
        match group_walk rest e with
        | inl rest => inl (k :: rest) | inr rest => inr (k :: rest)
        end
      else if ev_state e =? KEY_PRESSED then
        inl (GroupKey (gk_keycode k) (u64 (gk_count k + 1)) :: rest)
      else if ev_state e =? KEY_RELEASED then
        let count := u64 (gk_count k - 1) in
        if count >? 0 then inl (GroupKey (gk_keycode k) count :: rest) else inr rest
      else inr (k :: rest)
  end.

Definition process_key (alloc_ok : bool) (keys : list keyboard_group_key)
    (e : wlr_keyboard_key_event) : list keyboard_group_key * bool :=
  match group_walk keys e with
  | inl keys => (keys, false)
  | inr keys =>
      if ev_state e =? KEY_PRESSED then
        if alloc_ok then (GroupKey (ev_keycode e) 1 :: keys, true) else (keys, false)
      else (keys, true)
  end.

(** ** Keycode sets: correctness *)

Section KeySetFacts.

Definition keys_wf (values : list Z) (len cap : nat) : Prop :=
  NoDup (take len values) /\ (len <= cap)%nat /\ length values = cap.

Definition keys_of (values : list Z) (len : nat) : gset Z := list_to_set (take len values).

Lemma search_spec values t n i :
  match search values t n i with
  | Some j => (i <= j < i + n)%nat /\ values !!! j = t
  | None => forall k, (i <= k < i + n)%nat -> values !!! k <> t
  end.
Proof.
  revert i. induction n as [|n IH]; intros i; simpl; [lia|].
  destruct (Z.eqb_spec (values !!! i) t) as [E|E]; [split; [lia|done]|].
  specialize (IH (S i)). destruct (search values t n (S i)) as [j|].
  - split; [lia|apply IH].
  - intros k Hk. destruct (decide (k = i)) as [->|]; [done|]. apply IH. lia.
Qed.

Lemma take_lookup_total (values : list Z) len k :
  (k < len)%nat -> (len <= length values)%nat -> take len values !! k = Some (values !!! k).
Proof.
  intros Hk Hl. rewrite lookup_take_lt by done. apply list_lookup_lookup_total_lt. lia.
Qed.

Lemma search_mem values t len cap : keys_wf values len cap ->
  match search values t len 0 with
  | Some j => take len values !! j = Some t /\ t ∈ keys_of values len
  | None => t ∉ keys_of values len
  end.
Proof.
  intros (_ & Hle & Hlen). pose proof (search_spec values t len 0) as Hs.
  unfold keys_of. destruct (search values t len 0) as [j|].
  - destruct Hs as [Hj <-]. assert (E : take len values !! j = Some (values !!! j)).
    { apply take_lookup_total; lia. }
    split; [done|]. apply elem_of_list_to_set. by eapply list_elem_of_lookup_2.
  - rewrite elem_of_list_to_set. intros (k & Hk)%list_elem_of_lookup_1.
    pose proof (lookup_lt_Some _ _ _ Hk) as Hlt. rewrite length_take in Hlt.
    rewrite take_lookup_total in Hk by lia. injection Hk as Hk. apply (Hs k); [lia|done].
Qed.

(** Appending in place of the first unused cell. *)
Lemma take_insert_snoc (values : list Z) len t :
  (len < length values)%nat -> take (S len) (<[len := t]> values) = take len values ++ [t].
Proof.
  intros Hl. rewrite (take_S_r _ _ t) by (by apply list_lookup_insert_eq).
  by rewrite take_insert_ge.
Qed.

(** Swap-removal: the kept cells are a permutation of the others. *)
Lemma take_swap_remove (values : list Z) len i t :
  take (S len) values !! i = Some t -> (S len <= length values)%nat ->
  t :: take len (<[i := values !!! len]> values) ≡ₚ take (S len) values.
Proof.
  intros Hi Hl. pose proof (lookup_lt_Some _ _ _ Hi) as Hlt. rewrite length_take in Hlt.
  assert (Hlast : values !! len = Some (values !!! len))
    by (apply list_lookup_lookup_total_lt; lia).
  rewrite (take_S_r _ _ _ Hlast). destruct (decide (i = len)) as [->|Hne].
  - rewrite take_insert_ge by lia. rewrite lookup_take_lt, Hlast in Hi by lia.
    injection Hi as ->. solve_Permutation.
  - rewrite take_insert_lt by lia. rewrite lookup_take_lt in Hi by lia.
    assert (Hi' : take len values !! i = Some t) by (rewrite lookup_take_lt by lia; done).
    rewrite (insert_take_drop (take len values)) by (apply lookup_lt_Some in Hi'; done).
    rewrite <- (take_drop_middle (take len values) i t Hi') at 3. solve_Permutation.
Qed.

Lemma set_add_spec values len cap t :
  keys_wf values len cap ->
  let '(v, n, r) := set_add values len cap t in
  keys_wf v n cap /\
  (if decide ((t ∉ keys_of values len) /\ len = cap) then r = -1 /\ keys_of v n = keys_of values len
   else keys_of v n = {[t]} ∪ keys_of values len /\ v !! Z.to_nat r = Some t /\
        0 <= r < Z.of_nat n).
Proof.
  intros Hwf. pose proof (search_mem _ t _ _ Hwf) as Hs. destruct Hwf as (Hnd & Hle & Hlen).
  unfold set_add. destruct (search values t len 0) as [j|].
  - destruct Hs as [Hj Hin]. split; [by split|]. rewrite decide_False by tauto.
    apply lookup_take_Some in Hj as [Hj ?]. rewrite Nat2Z.id.
    split; [set_solver|]. split; [done|lia].
  - destruct (Nat.eqb_spec len cap) as [->|Hne].
    { split; [by split|]. by rewrite decide_True. }
    rewrite decide_False by tauto. unfold keys_of, keys_wf in *.
    rewrite take_insert_snoc by lia. rewrite elem_of_list_to_set in Hs. split_and!.
    + apply NoDup_app. split_and!; [done| |apply NoDup_singleton]. set_solver.
    + lia.
    + by rewrite length_insert.
    + rewrite list_to_set_app_L. simpl. set_solver.
    + rewrite Nat2Z.id. apply list_lookup_insert_eq. lia.
    + lia.
    + lia.
Qed.

Lemma set_remove_spec values len cap t :
  keys_wf values len cap ->
  let '(v, n, r) := set_remove values len cap t in
  keys_wf v n cap /\ keys_of v n = keys_of values len ∖ {[t]} /\
  (t ∈ keys_of values len -> values !! Z.to_nat r = Some t /\ n = pred len) /\
  (t ∉ keys_of values len -> r = -1 /\ n = len).
Proof.
  intros Hwf. pose proof (search_mem _ t _ _ Hwf) as Hs. destruct Hwf as (Hnd & Hle & Hlen).
  unfold set_remove. destruct (search values t len 0) as [j|].
  - destruct Hs as [Hj Hin]. destruct len as [|len]; [done|]. simpl pred.
    pose proof (take_swap_remove _ _ _ _ Hj ltac:(lia)) as HP.
    unfold keys_of, keys_wf. pose proof Hnd as Hnd'. rewrite <- HP in Hnd'.
    apply NoDup_cons in Hnd' as [Hnt Hnd']. split_and!; auto; try tauto.
    + lia.
    + by rewrite length_insert.
    + apply set_eq. intros x. rewrite elem_of_difference, !elem_of_list_to_set, <- HP.
      set_solver.
    + intros _. apply lookup_take_Some in Hj as [Hj ?]. by rewrite Nat2Z.id.
  - split_and!; [by split| | |done]; [|tauto]. set_solver.
Qed.

End KeySetFacts.

(** The keycode array of a keyboard is a bounded set: starting from
    distinct keys, adding a key gives the union with it and the index it is
    stored at, except when the key is new and the array is full, where it fails
    with -1 and changes nothing; removing a key gives the difference, swapping
    the last key into its place; both keep the keys distinct and within the
    array. *)
Theorem key_set_refines (values : list Z) (len cap : nat) (t : Z)
  (Hwf : keys_wf values len cap) :
  (let '(v, n, r) := set_add values len cap t in
   keys_wf v n cap /\
   (if decide ((t ∉ keys_of values len) /\ len = cap)
    then r = -1 /\ keys_of v n = keys_of values len
    else keys_of v n = {[t]} ∪ keys_of values len /\ v !! Z.to_nat r = Some t /\
         0 <= r < Z.of_nat n)) /\
  (let '(v, n, r) := set_remove values len cap t in
   keys_wf v n cap /\ keys_of v n = keys_of values len ∖ {[t]} /\
   (t ∈ keys_of values len -> values !! Z.to_nat r = Some t /\ n = pred len) /\
   (t ∉ keys_of values len -> r = -1 /\ n = len)).
Proof. split; [by apply set_add_spec|by apply set_remove_spec]. Qed.

Lemma key_set_refines_witness :
  keys_of (set_remove [30; 31; 32; 0] 3 4 30).1.1 2 = {[31; 32]} /\
  keys_of (set_add [30; 31; 32; 0] 3 4 33).1.1 4 = {[30; 31; 32; 33]}.
Proof.
  assert (Hwf : keys_wf [30; 31; 32; 0] 3 4).
  { split; [|split; [lia|done]]. simpl. repeat constructor; set_solver. }
  destruct (key_set_refines [30; 31; 32; 0] 3 4 30 Hwf) as [_ Hr].
  destruct (key_set_refines [30; 31; 32; 0] 3 4 33 Hwf) as [Ha _].
  unfold set_remove, set_add in *. simpl in *. destruct Hr as (_ & Hr & _).
  rewrite decide_False in Ha by lia. destruct Ha as (_ & Ha & _).
  split; [rewrite Hr|rewrite Ha]; unfold keys_of; simpl; set_solver by lia.
Defined.

(** ** Keyboards: invariant *)

Section KeyboardFacts.
Context `{Xkb}.

(** The keys held are distinct and fit the array, and the cached modifiers are
    those of the xkb state whenever there is one. *)
Record kb_inv (kb : wlr_keyboard) : Prop := {
  ki_keys : keys_wf (kb_keycodes kb) (kb_num_keycodes kb) WLR_KEYBOARD_KEYS_CAP;
  ki_mods : forall s, kb_xkb_state kb = Some s -> kb_modifiers kb = xkb_mods s }.

(** The keys a keyboard reports as held. *)
Definition held (kb : wlr_keyboard) : gset Z :=
  keys_of (kb_keycodes kb) (kb_num_keycodes kb).

(** Every operation a backend or the compositor performs on a keyboard, with
    the events it emits. *)
Inductive kb_op : wlr_keyboard -> wlr_keyboard -> list kb_event -> Prop :=
| op_key kb e kb' t : wlr_keyboard_notify_key kb e = (kb', t) -> kb_op kb kb' t
| op_modifiers kb m kb' t : wlr_keyboard_notify_modifiers kb m = (kb', t) -> kb_op kb kb' t
| op_keymap kb shm ok km kb' t r :
    wlr_keyboard_set_keymap shm ok kb km = ((kb', t), r) -> kb_op kb kb' t
| op_repeat kb r d kb' t : wlr_keyboard_set_repeat_info kb r d = (kb', t) -> kb_op kb kb' t
| op_leds kb leds kb' t : wlr_keyboard_led_update kb leds = (kb', t) -> kb_op kb kb' t.

Inductive kb_reach : wlr_keyboard -> Prop :=
| reach_init led : kb_reach (wlr_keyboard_init led)
| reach_op kb kb' t : kb_reach kb -> kb_op kb kb' t -> kb_reach kb'.

(** The fields the LED code leaves alone. *)
Definition kb_core (kb : wlr_keyboard) :=
  (kb_xkb_state kb, kb_keycodes kb, kb_num_keycodes kb, kb_modifiers kb).

Lemma kb_core_leds l kb : kb_core (set_kb_leds l kb) = kb_core kb.
Proof. by destruct kb. Qed.

Lemma kb_core_led_update kb : kb_core (keyboard_led_update kb).1 = kb_core kb.
Proof.
  unfold keyboard_led_update. destruct (kb_xkb_state kb) as [s|]; [|done].
  unfold wlr_keyboard_led_update. destruct (kb_leds kb =? _); [done|apply kb_core_leds].
Qed.

Lemma kb_inv_core kb kb' : kb_core kb' = kb_core kb -> kb_inv kb -> kb_inv kb'.
Proof.
  unfold kb_core. intros E [Hk Hm]. injection E as E1 E2 E3 E4.
  split; [by rewrite E2, E3|]. rewrite E1, E4. done.
Qed.

Lemma andthen_fst kb t f : (andthen (kb, t) f).1 = (f kb).1.
Proof. unfold andthen. by destruct (f kb). Qed.

(** After a synchronisation the cache agrees with the state, whatever it was. *)
Lemma keyboard_sync_inv kb :
  keys_wf (kb_keycodes kb) (kb_num_keycodes kb) WLR_KEYBOARD_KEYS_CAP ->
  kb_xkb_state kb <> None -> kb_inv (keyboard_sync kb).1 /\ held (keyboard_sync kb).1 = held kb.
Proof.
  intros Hk Hs. set (kb1 := (keyboard_modifier_update kb).1).
  assert (E : kb_core (keyboard_sync kb).1 = kb_core kb1).
  { unfold keyboard_sync, kb1. destruct (keyboard_modifier_update kb) as [kb2 u].
    rewrite andthen_fst. apply kb_core_led_update. }
  assert (Hk1 : kb_keycodes kb1 = kb_keycodes kb /\ kb_num_keycodes kb1 = kb_num_keycodes kb /\
    forall s, kb_xkb_state kb1 = Some s -> kb_modifiers kb1 = xkb_mods s).
  { unfold kb1, keyboard_modifier_update. destruct (kb_xkb_state kb) as [s|] eqn:Es; [|done].
    case_decide as Hd; destruct kb; simpl in *; split_and!; congruence. }
  destruct Hk1 as (E1 & E2 & Hm). split.
  - apply (kb_inv_core _ _ E). split; [by rewrite E1, E2|done].
  - unfold kb_core in E. injection E as _ E3 E4 _. unfold held. by rewrite E3, E4, E1, E2.
Qed.

Lemma key_update_keys kb e :
  keys_wf (kb_keycodes kb) (kb_num_keycodes kb) WLR_KEYBOARD_KEYS_CAP ->
  keys_wf (kb_keycodes (keyboard_key_update kb e))
    (kb_num_keycodes (keyboard_key_update kb e)) WLR_KEYBOARD_KEYS_CAP.
Proof.
  intros Hk. unfold keyboard_key_update, KEY_PRESSED, KEY_RELEASED.
  pose proof (set_add_spec _ _ _ (ev_keycode e) Hk) as Ha.
  pose proof (set_remove_spec _ _ _ (ev_keycode e) Hk) as Hr.
  destruct (set_add _ _ _ _) as [[v n] r], (set_remove _ _ _ _) as [[v' n'] r'] eqn:Er.
  destruct (ev_state e =? 1) eqn:E1.
  - apply Z.eqb_eq in E1. rewrite E1. destruct kb. simpl. apply Ha.
  - rewrite Er. destruct (ev_state e =? 0); destruct kb; simpl; [apply Hr|done].
Qed.

Lemma key_update_rest kb e :
  kb_xkb_state (keyboard_key_update kb e) = kb_xkb_state kb /\
  kb_modifiers (keyboard_key_update kb e) = kb_modifiers kb.
Proof.
  unfold keyboard_key_update. set (kb1 := if ev_state e =? KEY_PRESSED then _ else _).
  assert (E : kb_xkb_state kb1 = kb_xkb_state kb /\ kb_modifiers kb1 = kb_modifiers kb).
  { unfold kb1. destruct (ev_state e =? KEY_PRESSED); [|done].
    destruct (set_add (kb_keycodes kb) _ _ _) as [[v n] r]. by destruct kb. }
  destruct (ev_state e =? KEY_RELEASED); [|done].
  destruct (set_remove (kb_keycodes kb1) _ _ _) as [[v n] r]. by destruct kb1.
Qed.

Lemma notify_key_inv kb e :
  kb_inv kb -> kb_inv (wlr_keyboard_notify_key kb e).1 /\
    held (wlr_keyboard_notify_key kb e).1 = held (keyboard_key_update kb e).
Proof.
  intros [Hk Hm]. unfold wlr_keyboard_notify_key. rewrite andthen_fst.
  pose proof (key_update_keys kb e Hk) as Hk1. pose proof (key_update_rest kb e) as [E1 E2].
  destruct (kb_xkb_state (keyboard_key_update kb e)) as [s|] eqn:Es.
  - set (kb1 := if ev_update_state e then _ else _).
    assert (E : kb_keycodes kb1 = kb_keycodes (keyboard_key_update kb e) /\
      kb_num_keycodes kb1 = kb_num_keycodes (keyboard_key_update kb e) /\ kb_xkb_state kb1 <> None).
    { unfold kb1. destruct (ev_update_state e); [|by rewrite Es].
      by destruct (keyboard_key_update kb e). }
    destruct E as (Ek & En & Ex).
    destruct (keyboard_sync_inv kb1) as [Hi Hh]; [by rewrite Ek, En|done|].
    split; [done|]. rewrite Hh. unfold held. by rewrite Ek, En.
  - split; [|done]. split; [done|]. intros s. simpl. congruence.
Qed.

Lemma notify_modifiers_inv kb m :
  kb_inv kb -> kb_inv (wlr_keyboard_notify_modifiers kb m).1.
Proof.
  intros [Hk Hm]. unfold wlr_keyboard_notify_modifiers.
  destruct (kb_xkb_state kb) as [s|] eqn:Es.
  - apply keyboard_sync_inv; by destruct kb.
  - case_decide; (split; [by destruct kb|]); destruct kb; simpl in *; congruence.
Qed.

Lemma set_keymap_inv shm ok kb km :
  kb_inv kb -> kb_inv (wlr_keyboard_set_keymap shm ok kb km).1.1.
Proof.
  intros [Hk Hm]. unfold wlr_keyboard_set_keymap.
  destruct km as [km|]; [|by destruct kb].
  destruct (xkb_state_new km) as [s|]; [|by split].
  destruct (xkb_keymap_get_as_string km) as [text|]; [|by split].
  destruct shm as [fd|]; [|by split]. destruct ok; [|by split].
  destruct kb. unfold keyboard_modifier_update. simpl in *.
  case_decide as Hd; split; simpl; auto; intros s' [= <-]; done.
Qed.

Lemma kb_op_inv kb kb' t : kb_op kb kb' t -> kb_inv kb -> kb_inv kb'.
Proof.
  intros Hop Hi. destruct Hop as [???? E|???? E|?????? ? E|????? E|? leds ?? E];
    apply (f_equal fst) in E.
  - simpl in E. subst. by apply notify_key_inv.
  - simpl in E. subst. by apply notify_modifiers_inv.
  - apply (f_equal fst) in E. simpl in E. subst. by apply set_keymap_inv.
  - unfold wlr_keyboard_set_repeat_info in E. revert E. destruct Hi as [Hk Hm].
    destruct (_ && _); simpl; intros <-; [by split|]. by destruct kb.
  - unfold wlr_keyboard_led_update in E. destruct (kb_leds kb =? leds); simpl in E; subst; [done|].
    eapply kb_inv_core; [apply kb_core_leds|done].
Qed.

Lemma kb_init_inv led : kb_inv (wlr_keyboard_init led).
Proof. split; [|done]. repeat split; simpl; [constructor|unfold WLR_KEYBOARD_KEYS_CAP; lia]. Qed.

End KeyboardFacts.

(** Whatever keys, modifiers and keymaps a keyboard is given, in any order
    and with every failure of the keymap path, the keys it holds stay distinct
    and within the 32 cells of its array, and its cached modifiers are those of
    the xkb state. *)
Theorem keyboard_invariant `{Xkb} (kb : wlr_keyboard) (Hr : kb_reach kb) : kb_inv kb.
Proof. induction Hr as [led|kb kb' t _ IH Hop]; [apply kb_init_inv|by eapply kb_op_inv]. Qed.

(** A keymap without modifiers: enough to run the code. *)
#[local] Instance toy_xkb : Xkb := {|
  xkb_keymap := unit; xkb_state := Z;
  xkb_state_new _ := Some 0;
  xkb_keymap_get_as_string _ := Some (txt "toy");
  xkb_state_update_key s k down := if k =? 50 then (if down then 1 else 0) else s;
  xkb_state_update_mask _ d _ _ _ := d;
  xkb_mods_depressed s := s; xkb_mods_latched _ := 0; xkb_mods_locked _ := 0;
  xkb_layout_effective _ := 0;
  xkb_state_led_index_is_active _ _ := false;
  xkb_map_led_get_index _ _ := 0;
  xkb_map_mod_get_index _ name := if decide (name = txt "Shift") then 0 else XKB_MOD_INVALID;
  xkb_state_key_get_syms _ k := [k];
  xkb_keysym_to_lower k := k; xkb_keysym_from_name _ := 0; xkb_keysym_get_name _ := None |}.

(** Left shift (keycode 42) held before the keymap arrives. *)
Definition toy_keyboard : wlr_keyboard :=
  let kb := (wlr_keyboard_notify_key (wlr_keyboard_init false) (KeyEvent 0 42 true 1)).1 in
  (wlr_keyboard_set_keymap (Some 5) true kb (Some tt)).1.1.

Lemma toy_keyboard_reach : kb_reach toy_keyboard.
Proof.
  unfold toy_keyboard. set (e := KeyEvent 0 42 true 1).
  apply (reach_op (wlr_keyboard_notify_key (wlr_keyboard_init false) e).1 _ [EvKeymap]).
  - apply (reach_op (wlr_keyboard_init false) _ [EvKey e]); [constructor|].
    apply (op_key _ e). reflexivity.
  - apply (@op_keymap toy_xkb _ (Some 5) true (Some tt) _ _ true). reflexivity.
Qed.

Lemma keyboard_invariant_witness :
  kb_inv toy_keyboard /\ wlr_keyboard_get_modifiers toy_keyboard = WLR_MODIFIER_SHIFT.
Proof. split; [|reflexivity]. apply keyboard_invariant, toy_keyboard_reach. Defined.

(** ** Releasing every key *)

Section Finish.
Context `{Xkb}.

Lemma notify_key_event kb e :
  ev_update_state e = false -> (forall s, kb_xkb_state kb = Some s -> kb_modifiers kb = xkb_mods s) ->
  exists leds, (wlr_keyboard_notify_key kb e).2 = EvKey e :: leds /\
    forall x, x ∈ leds -> exists l, x = LedUpdate l.
Proof.
  intros Hu Hm. unfold wlr_keyboard_notify_key. rewrite Hu.
  pose proof (key_update_rest kb e) as [E1 E2].
  destruct (kb_xkb_state (keyboard_key_update kb e)) as [s|] eqn:Es; simpl; rewrite Es;
    [|exists []; set_solver].
  unfold keyboard_sync, keyboard_modifier_update. rewrite Es, E2.
  rewrite decide_True by (symmetry; apply Hm; congruence). simpl.
  unfold keyboard_led_update. rewrite Es. unfold wlr_keyboard_led_update.
  destruct (_ =? _); [|destruct (kb_has_led_update _)]; eexists; (split; [done|]); set_solver.
Qed.

(** Removing the last key of the array shortens it by one. *)
Lemma key_update_release_last time kb last :
  kb_inv kb -> kb_num_keycodes kb = S last ->
  let e := KeyEvent time (kb_keycodes kb !!! last) false KEY_RELEASED in
  kb_num_keycodes (keyboard_key_update kb e) = last /\
  take last (kb_keycodes (keyboard_key_update kb e)) = take last (kb_keycodes kb).
Proof.
  intros [Hk _] Hn e. unfold keyboard_key_update, e. simpl ev_state.
  change (KEY_RELEASED =? KEY_PRESSED) with false. cbv iota. simpl Z.eqb. cbv iota.
  set (t := kb_keycodes kb !!! last) in *. simpl ev_keycode.
  pose proof (search_mem _ t _ _ Hk) as Hs. destruct Hk as (Hnd & Hle & Hlen).
  assert (Hl : take (S last) (kb_keycodes kb) !! last = Some t)
    by (apply take_lookup_total; lia).
  rewrite Hn in *. unfold set_remove. destruct (search _ t (S last) 0) as [j|].
  - destruct Hs as [Hj _]. assert (j = last) as -> by exact (NoDup_lookup _ _ _ _ Hnd Hj Hl).
    destruct kb; simpl in *. split; [done|]. by rewrite take_insert_ge.
  - destruct Hs. apply elem_of_list_to_set. by eapply list_elem_of_lookup_2.
Qed.

Definition is_key (x : kb_event) : bool := match x with EvKey _ => true | _ => false end.

Lemma filter_leds (leds : list kb_event) :
  (forall x, x ∈ leds -> exists l, x = LedUpdate l) -> List.filter is_key leds = [].
Proof.
  induction leds as [|x leds IH]; intros Hx; [done|].
  destruct (Hx x) as [l ->]; [left|]. apply IH. set_solver.
Qed.

Lemma kb_core_sync_keys kb :
  kb_keycodes (keyboard_sync kb).1 = kb_keycodes kb /\
  kb_num_keycodes (keyboard_sync kb).1 = kb_num_keycodes kb.
Proof.
  unfold keyboard_sync. destruct (keyboard_modifier_update kb) as [kb1 u] eqn:E.
  rewrite andthen_fst. pose proof (kb_core_led_update kb1) as Hc. injection Hc as _ -> -> _.
  unfold keyboard_modifier_update in E. destruct (kb_xkb_state kb); [|by injection E as <- _].
  case_decide; injection E as <- _; by destruct kb.
Qed.

Lemma notify_key_keys kb e :
  kb_keycodes (wlr_keyboard_notify_key kb e).1 = kb_keycodes (keyboard_key_update kb e) /\
  kb_num_keycodes (wlr_keyboard_notify_key kb e).1 = kb_num_keycodes (keyboard_key_update kb e).
Proof.
  unfold wlr_keyboard_notify_key. rewrite andthen_fst.
  destruct (kb_xkb_state (keyboard_key_update kb e)) as [s|] eqn:Es; [|done].
  pose proof (kb_core_sync_keys (if ev_update_state e then set_kb_xkb_state (Some
    (xkb_state_update_key s (u32 (ev_keycode e + 8)) (ev_state e =? KEY_PRESSED)))
    (keyboard_key_update kb e) else keyboard_key_update kb e)) as [-> ->].
  destruct (ev_update_state e); [|done]. by destruct (keyboard_key_update kb e).
Qed.

Lemma finish_loop_spec time fuel kb :
  kb_inv kb -> (kb_num_keycodes kb <= fuel)%nat ->
  exists kb' t, finish_loop fuel time kb = Some (kb', t) /\ kb_num_keycodes kb' = 0%nat /\
    List.filter is_key t =
    map (fun k => EvKey (KeyEvent time k false KEY_RELEASED))
      (rev (take (kb_num_keycodes kb) (kb_keycodes kb))).
Proof.
  revert kb. induction fuel as [|fuel IH]; intros kb Hi Hf.
  { simpl. destruct (kb_num_keycodes kb) as [|n] eqn:En; [|lia]. exists kb, []. by rewrite En. }
  simpl. destruct (kb_num_keycodes kb) as [|last] eqn:En; [exists kb, []; by rewrite En|].
  set (e := KeyEvent time (kb_keycodes kb !!! last) false KEY_RELEASED).
  destruct (key_update_release_last time kb last Hi En) as [Hn Ht]. fold e in Hn, Ht.
  destruct (notify_key_event kb e) as (leds & Hev & Hleds); [done|apply Hi|].
  pose proof (notify_key_inv kb e Hi) as [Hi' _]. destruct (notify_key_keys kb e) as [Ek Enk].
  destruct (wlr_keyboard_notify_key kb e) as [kb1 t1]. simpl in *. subst t1.
  destruct (IH kb1 Hi') as (kb2 & t2 & -> & Hz & Hfl); [lia|]. simpl.
  eexists _, _. split; [done|]. split; [done|].
  cbn [List.filter is_key app].
  rewrite List.filter_app, filter_leds, Hfl, Enk, Ek, Hn, Ht by done. simpl.
  destruct Hi as [(_ & Hle & Hlen) _]. rewrite (take_S_r _ last (kb_keycodes kb !!! last)).
  - by rewrite rev_app_distr.
  - apply list_lookup_lookup_total_lt. lia.
Qed.

End Finish.

(** Destroying a keyboard terminates and releases every key it still
    holds, each exactly once, the most recently stored first, before the
    destroy signal: clients never see a stuck key. *)
Theorem keyboard_finish_releases `{Xkb} (time : Z) (kb : wlr_keyboard) (Hr : kb_reach kb) :
  exists kb' t, wlr_keyboard_finish WLR_KEYBOARD_KEYS_CAP time kb = Some (kb', t ++ [EvDestroy]) /\
    held kb' = ∅ /\
    List.filter is_key t = map (fun k => EvKey (KeyEvent time k false KEY_RELEASED))
      (rev (take (kb_num_keycodes kb) (kb_keycodes kb))) /\
    list_to_set (take (kb_num_keycodes kb) (kb_keycodes kb)) = held kb /\
    NoDup (take (kb_num_keycodes kb) (kb_keycodes kb)).
Proof.
  assert (Hi : kb_inv kb).
  { induction Hr as [led|kb kb' t _ IH Hop]; [apply kb_init_inv|by eapply kb_op_inv]. }
  destruct (finish_loop_spec time WLR_KEYBOARD_KEYS_CAP kb Hi) as (kb' & t & E & Hz & Ht).
  { apply Hi. }
  exists (keyboard_unset_keymap kb'), t. unfold wlr_keyboard_finish. rewrite E. simpl.
  split_and!; [done| |done|done|apply Hi]. unfold held. destruct kb'. simpl in *. by rewrite Hz.
Qed.

Lemma keyboard_finish_releases_witness : exists kb' t,
  wlr_keyboard_finish WLR_KEYBOARD_KEYS_CAP 7 toy_keyboard = Some (kb', t ++ [EvDestroy]) /\
  List.filter is_key t = [EvKey (KeyEvent 7 42 false KEY_RELEASED)].
Proof.
  destruct (keyboard_finish_releases 7 toy_keyboard) as (kb' & t & E & _ & Ht & _).
  - apply toy_keyboard_reach.
  - by exists kb', t.
Defined.

(** The modifier mask reported to the compositor has bit [k] exactly when
    the keymap knows the [k]-th wlroots modifier and that modifier is depressed
    or latched (locked modifiers do not count). *)
Theorem keyboard_get_modifiers_bits `{Xkb} (kb : wlr_keyboard) (k : Z) (Hk : 0 <= k)
  (Hidx : forall i : nat, 0 <= kb_mod_indexes kb !!! i) :
  Z.testbit (wlr_keyboard_get_modifiers kb) k =
  (k <? 8) && negb (kb_mod_indexes kb !!! Z.to_nat k =? XKB_MOD_INVALID) &&
  (Z.testbit (depressed (kb_modifiers kb)) (kb_mod_indexes kb !!! Z.to_nat k) ||
   Z.testbit (latched (kb_modifiers kb)) (kb_mod_indexes kb !!! Z.to_nat k)).
Proof.
  unfold wlr_keyboard_get_modifiers.
  rewrite (mask_loop_spec (fun i => negb (kb_mod_indexes kb !!! i =? XKB_MOD_INVALID) &&
    has_flag (Z.lor (depressed (kb_modifiers kb)) (latched (kb_modifiers kb)))
      (Z.shiftl 1 (kb_mod_indexes kb !!! i)))) by done.
  rewrite has_flag_shift, Z.lor_spec by done. by rewrite andb_assoc.
Qed.

Lemma keyboard_get_modifiers_bits_witness :
  Z.testbit (wlr_keyboard_get_modifiers toy_keyboard) 0 = true.
Proof.
  rewrite keyboard_get_modifiers_bits; [reflexivity|lia|].
  intros [|[|[|[|[|[|[|[|i]]]]]]]]; done.
Defined.

(** ** Groups count keys *)

Definition group_count (keys : list keyboard_group_key) (code : Z) : Z :=
  from_option gk_count 0 (List.find (fun k => gk_keycode k =? code) keys).

Record group_wf (keys : list keyboard_group_key) : Prop := {
  gw_nodup : NoDup (map gk_keycode keys);
  gw_count : forall k, k ∈ keys -> 0 < gk_count k < 2 ^ 64 - 1 }.

Lemma group_count_absent keys code :
  (forall k, k ∈ keys -> gk_keycode k <> code) -> group_count keys code = 0.
Proof.
  unfold group_count. induction keys as [|k keys IH]; intros Hk; [done|]. simpl.
  destruct (Z.eqb_spec (gk_keycode k) code) as [E|E].
  - destruct (Hk k); [left|done].
  - apply IH. set_solver.
Qed.

Lemma group_count_cons k keys code :
  group_count (k :: keys) code = if gk_keycode k =? code then gk_count k else group_count keys code.
Proof. unfold group_count. simpl. by destruct (gk_keycode k =? code). Qed.

(** What the walk leaves: with [d] the change of the count of the event's key,
    it returns early unless the key is gone. *)
Lemma group_walk_spec keys e :
  NoDup (map gk_keycode keys) -> (forall k, k ∈ keys -> 0 < gk_count k < 2 ^ 64 - 1) ->
  (ev_state e = KEY_PRESSED \/ ev_state e = KEY_RELEASED) ->
  let c := group_count keys (ev_keycode e) in
  match group_walk keys e with
  | inl keys' => 0 < c /\ (ev_state e = KEY_RELEASED -> 1 < c) /\
      map gk_keycode keys' = map gk_keycode keys /\
      forall code, group_count keys' code = if code =? ev_keycode e
        then c + (if ev_state e =? KEY_PRESSED then 1 else -1) else group_count keys code
  | inr keys' => c <= 1 /\ (ev_state e = KEY_PRESSED -> c = 0) /\
      sublist (map gk_keycode keys') (map gk_keycode keys) /\
      (forall k, k ∈ keys' -> k ∈ keys /\ gk_keycode k <> ev_keycode e) /\
      forall code, group_count keys' code = if code =? ev_keycode e then 0 else group_count keys code
  end.
Proof.
  unfold KEY_PRESSED, KEY_RELEASED. intros Hnd Hc He. cbv zeta.
  induction keys as [|k keys IH]; simpl.
  { change (group_count [] _) with 0. split_and!; [lia|lia|done|set_solver|].
    intros code. by destruct (code =? _). }
  apply NoDup_cons in Hnd as [Hni Hnd].
  specialize (IH Hnd (fun k' Hk' => Hc k' (list_elem_of_further _ _ _ Hk'))).
  pose proof (Hc k (list_elem_of_here _ _)) as Hk.
  assert (Habs : group_count keys (gk_keycode k) = 0).
  { apply group_count_absent. intros k' Hk' E. apply Hni. rewrite <- E. by apply list_elem_of_fmap_2. }
  rewrite group_count_cons. destruct (Z.eqb_spec (gk_keycode k) (ev_keycode e)) as [E|E]; simpl.
  - destruct He as [He|He]; rewrite He; simpl.
    + split_and!; [lia|lia|done|]. intros code. rewrite !group_count_cons. simpl.
      unfold u64. rewrite Z.mod_small by lia. rewrite <- E, (Z.eqb_sym code). by case_ifs.
    + unfold u64. rewrite Z.mod_small by lia.
      destruct (Z.gtb_spec (gk_count k - 1) 0); (split_and!; try lia; try done).
      * intros code. rewrite !group_count_cons. simpl. rewrite <- E, (Z.eqb_sym code).
        destruct (_ =? code); lia.
      * by constructor.
      * intros k' Hk'. split; [by right|]. intros E'. apply Hni. rewrite E, <- E'.
        by apply list_elem_of_fmap_2.
      * intros code. rewrite group_count_cons, <- E, (Z.eqb_sym code).
        destruct (Z.eqb_spec (gk_keycode k) code) as [<-|]; done.
  - destruct (group_walk keys e) as [keys'|keys'].
    + destruct IH as (? & ? & Em & Hg). split_and!; auto; [simpl; by rewrite Em|].
      intros code. rewrite !group_count_cons, Hg.
      destruct (Z.eqb_spec (gk_keycode k) code), (Z.eqb_spec code (ev_keycode e)); congruence.
    + destruct IH as (? & ? & Hsub & Hmem & Hg). split_and!; auto; [by constructor| |].
      * intros k' [->|Hk']%elem_of_cons; [split; [left|done]|].
        destruct (Hmem k' Hk'). split; [by right|done].
      * intros code. rewrite !group_count_cons, Hg.
        destruct (Z.eqb_spec (gk_keycode k) code), (Z.eqb_spec code (ev_keycode e)); congruence.
Qed.

(** A keyboard group counts, per key, on how many of its keyboards the key
    is down, and passes an event on exactly when the key goes down on the first
    or comes up on the last of them (or was not counted at all). *)
Theorem process_key_counts (keys : list keyboard_group_key) (e : wlr_keyboard_key_event)
  (Hwf : group_wf keys) (He : ev_state e = KEY_PRESSED \/ ev_state e = KEY_RELEASED) :
  let '(keys', passed) := process_key true keys e in
  let c := group_count keys (ev_keycode e) in
  let d := if ev_state e =? KEY_PRESSED then 1 else -1 in
  NoDup (map gk_keycode keys') /\
  (forall code, group_count keys' code =
    if code =? ev_keycode e then Z.max 0 (c + d) else group_count keys code) /\
  passed = if ev_state e =? KEY_PRESSED then c =? 0 else c <=? 1.
Proof.
  destruct Hwf as [Hnd Hc]. pose proof (group_walk_spec keys e Hnd Hc He) as Hw.
  unfold process_key, KEY_PRESSED, KEY_RELEASED in *.
  assert (Hpos : 0 <= group_count keys (ev_keycode e)).
  { unfold group_count. destruct (List.find _ keys) as [k|] eqn:Ef; [|done].
    apply List.find_some in Ef as [Hin _]. apply list_elem_of_In in Hin. apply Hc in Hin. simpl. lia. }
  destruct (group_walk keys e) as [keys'|keys'].
  - destruct Hw as (? & Hr & Em & Hg). split; [by rewrite Em|]. split.
    + intros code. rewrite Hg. destruct (code =? _); [|done].
      destruct He as [He|He]; rewrite He in *; simpl in *; lia.
    + destruct He as [He|He]; rewrite He in *; simpl in *; lia.
  - destruct Hw as (Hle & Hp & Hsub & Hmem & Hg).
    assert (Hnd' : NoDup (map gk_keycode keys')) by (by eapply sublist_NoDup).
    destruct He as [He|He]; rewrite He in *; simpl.
    + split_and!; [|intros code; rewrite group_count_cons; simpl; rewrite Hg, (Z.eqb_sym _ code);
        destruct (code =? _); [lia|done]|lia].
      apply NoDup_cons. split; [|done]. intros (k & Ek & Hk)%list_elem_of_fmap.
      by destruct (Hmem k Hk) as [_ []].
    + split_and!; [done|intros code; rewrite Hg; destruct (code =? _); [lia|done]|lia].
Qed.

Lemma process_key_counts_witness :
  (process_key true [GroupKey 30 2; GroupKey 42 1] (KeyEvent 0 30 true 0)).2 = false /\
  (process_key true [GroupKey 30 2; GroupKey 42 1] (KeyEvent 0 42 true 0)).2 = true.
Proof.
  assert (Hwf : group_wf [GroupKey 30 2; GroupKey 42 1]).
  { split; simpl; [repeat constructor; set_solver|].
    intros k Hk. rewrite !elem_of_cons in Hk. destruct Hk as [->|[->|Hk]]; simpl; [lia|lia|set_solver]. }
  pose proof (process_key_counts _ (KeyEvent 0 30 true 0) Hwf (or_intror eq_refl)) as H1.
  pose proof (process_key_counts _ (KeyEvent 0 42 true 0) Hwf (or_intror eq_refl)) as H2.
  destruct (process_key true _ (KeyEvent 0 30 true 0)) as [k1 p1].
  destruct (process_key true _ (KeyEvent 0 42 true 0)) as [k2 p2].
  destruct H1 as (_ & _ & ->), H2 as (_ & _ & ->). done.
Defined.
