(* ===== verification/KeyBinding.v ===== *)
(** * Global shortcuts

    Models src/src/input/key_binding_manager.h and key_binding_manager.cc: the
    shortcut parser and printer, the table of bindings, blocking, capturing the
    next key, and the handling of key events.

    - strings are byte lists, [std::string_view] operations are list operations;
    - an action or callback is an identifier; [run_action] and [run_capture] say
      what running it does to the manager (callbacks may call back into it), and
      every run is recorded as a [kbm_effect] next to the new state;
    - keyboards and libxkbcommon come from [Keyboard]. *)

From S2P Require Import Prelude Keyboard.

(** ** Types (key_binding_manager.h) *)

Inductive KeyBindingType :=
| kCustom | kWindowSwitch | kWindowMinimize | kWindowMaximize | kWindowClose | kWindowMenu
| kCount.

Definition type_index (t : KeyBindingType) : nat :=
  match t with
  | kCustom => 0 | kWindowSwitch => 1 | kWindowMinimize => 2 | kWindowMaximize => 3
  | kWindowClose => 4 | kWindowMenu => 5 | kCount => 6
  end.

Record ParsedShortcut := Parsed {
  ps_modifiers : Z; ps_keysym : Z; ps_no_repeat : bool }.

Record Binding := MkBinding {
  b_id : Z;
  b_parsed : ParsedShortcut;
  b_type : KeyBindingType;
  b_action : nat;
  b_shortcut : str;
  b_description : str }.

Record BindingInfo := MkBindingInfo {
  bi_id : Z; bi_type : KeyBindingType; bi_shortcut : str; bi_description : str }.

(** A keyboard pointer is its address. *)
Record ActiveKey := MkActiveKey { ak_keyboard : nat; ak_keycode : Z; ak_binding_id : Z }.

Record KeyBindingManager := KBM {
  bindings_ : list Binding;
  active_keys_ : list ActiveKey;
  type_block_counts_ : list Z;
  next_id_ : Z;
  block_count_ : Z;
  capture_callback_ : option nat;
  captured_keyboard_ : option nat;
  captured_keycode_ : Z;
  captured_shortcut_ : str }.

Definition kbm_init : KeyBindingManager :=
  KBM [] [] (replicate (type_index kCount) 0) 1 0 None None 0 [].

Definition set_bindings (l : list Binding) (s : KeyBindingManager) : KeyBindingManager :=
  let (_, b, c, d, e, f, g, h, i) := s in KBM l b c d e f g h i.
Definition set_active_keys (l : list ActiveKey) (s : KeyBindingManager) : KeyBindingManager :=
  let (a, _, c, d, e, f, g, h, i) := s in KBM a l c d e f g h i.
Definition set_type_counts (l : list Z) (s : KeyBindingManager) : KeyBindingManager :=
  let (a, b, _, d, e, f, g, h, i) := s in KBM a b l d e f g h i.
Definition set_next_id (n : Z) (s : KeyBindingManager) : KeyBindingManager :=
  let (a, b, c, _, e, f, g, h, i) := s in KBM a b c n e f g h i.
Definition set_block_count (n : Z) (s : KeyBindingManager) : KeyBindingManager :=
  let (a, b, c, d, _, f, g, h, i) := s in KBM a b c d n f g h i.
Definition set_capture (cb kb : option nat) (code : Z) (text : str) (s : KeyBindingManager)
    : KeyBindingManager :=
  let (a, b, c, d, e, _, _, _, _) := s in KBM a b c d e cb kb code text.

(** What the manager does to the outside. *)
Inductive kbm_effect :=
| RunAction (a : nat)
| RunCapture (cb : nat) (pressed : bool) (shortcut : str).

(** ** String helpers (anonymous namespace) *)

Definition byte (c : Ascii.ascii) : Z := Z.of_nat (Ascii.nat_of_ascii c).

(** [std::isspace] and [std::tolower] in the C locale. *)
Definition isspace (c : Ascii.ascii) : bool :=
  (byte c =? 32) || ((9 <=? byte c) && (byte c <=? 13)).
Definition tolower (c : Ascii.ascii) : Z :=
  if (65 <=? byte c) && (byte c <=? 90) then byte c + 32 else byte c.

Fixpoint drop_spaces (s : str) : str :=
  match s with
  | [] => []
  | c :: rest => if isspace c then drop_spaces rest else s
  end.

Definition Trim (value : str) : str := rev (drop_spaces (rev (drop_spaces value))).

Definition EqualsIgnoringCase (left right : str) : bool :=
  (length left =? length right)%nat &&
  forallb (fun p => tolower p.1 =? tolower p.2) (zip left right).

Definition named_modifiers : list (str * Z) :=
  [(txt "shift", WLR_MODIFIER_SHIFT); (txt "caps", WLR_MODIFIER_CAPS);
   (txt "lock", WLR_MODIFIER_CAPS); (txt "ctrl", WLR_MODIFIER_CTRL);
   (txt "control", WLR_MODIFIER_CTRL); (txt "alt", WLR_MODIFIER_ALT);
   (txt "mod1", WLR_MODIFIER_ALT); (txt "num", WLR_MODIFIER_MOD2);
   (txt "mod2", WLR_MODIFIER_MOD2); (txt "mod3", WLR_MODIFIER_MOD3);
   (txt "win", WLR_MODIFIER_LOGO); (txt "logo", WLR_MODIFIER_LOGO);
   (txt "super", WLR_MODIFIER_LOGO); (txt "meta", WLR_MODIFIER_LOGO);
   (txt "mod4", WLR_MODIFIER_LOGO); (txt "mod5", WLR_MODIFIER_MOD5);
   (txt "iso_level3_shift", WLR_MODIFIER_MOD5)].

Definition ModifierForName (name : str) : option Z :=
  snd <$> List.find (fun m => EqualsIgnoringCase name m.1) named_modifiers.

(** ** Parsing and printing shortcuts *)

Definition PLUS : Ascii.ascii := Ascii.ascii_of_nat 43.
Definition COLON : Ascii.ascii := Ascii.ascii_of_nat 58.
Definition XKB_KEY_NoSymbol : Z := 0.
Definition XKB_KEY_Tab : Z := 0xff09.
Definition XKB_KEY_ISO_Left_Tab : Z := 0xfe20.
Definition XKB_KEY_ISO_Level3_Shift : Z := 0xfe03.

(** The text before and after the last ':', when there is one. *)
Fixpoint rsplit_colon (s : str) : option (str * str) :=
  match s with
  | [] => None
  | c :: rest =>
      match rsplit_colon rest with
      | Some (a, b) => Some (c :: a, b)
      | None => if Ascii.eqb c COLON then Some ([], rest) else None
      end
  end.

(** The parts between the '+' signs: the substrings the [while] loop visits, the
    last of them the one whose [find] returns [npos]. *)
Fixpoint split_plus (s : str) : list str :=
  match s with
  | [] => [[]]
  | c :: rest =>
      if Ascii.eqb c PLUS then [] :: split_plus rest
      else match split_plus rest with
           | part :: parts => (c :: part) :: parts
           | [] => [[c]]
           end
  end.

Definition IsModifierKeysym (keysym : Z) : bool :=
  existsb (Z.eqb keysym)
    [0xffe1; 0xffe2;   (* Shift_L, Shift_R *)
     0xffe3; 0xffe4;   (* Control_L, Control_R *)
     0xffe9; 0xffea;   (* Alt_L, Alt_R *)
     0xffeb; 0xffec;   (* Super_L, Super_R *)
     0xffe7; 0xffe8;   (* Meta_L, Meta_R *)
     0xffe5; 0xff7f].  (* Caps_Lock, Num_Lock *)

Definition ModifiersMatch (active required : Z) : bool :=
  let kLockModifiers := Z.lor WLR_MODIFIER_CAPS WLR_MODIFIER_MOD2 in
  let ignored := Z.land kLockModifiers (Z.lnot required) in
  Z.land active (Z.lnot ignored) =? required.

Definition printed_modifiers : list (Z * str) :=
  [(WLR_MODIFIER_SHIFT, txt "Shift"); (WLR_MODIFIER_CAPS, txt "Caps");
   (WLR_MODIFIER_CTRL, txt "Ctrl"); (WLR_MODIFIER_ALT, txt "Alt");
   (WLR_MODIFIER_MOD2, txt "Mod2"); (WLR_MODIFIER_MOD3, txt "Mod3");
   (WLR_MODIFIER_LOGO, txt "Win"); (WLR_MODIFIER_MOD5, txt "Mod5")].

(** [if (!shortcut.empty()) shortcut += '+'; shortcut += name;] *)
Definition append_part (shortcut name : str) : str :=
  (match shortcut with [] => [] | _ => shortcut ++ [PLUS] end) ++ name.

Definition TypeName (t : KeyBindingType) : option str :=
  match t with
  | kCustom => Some (txt "WLCOM_CUSTOM_DEF")
  | kWindowSwitch => Some (txt "WLCOM_WINDOW_SWITCHER")
  | kWindowMinimize => Some (txt "WLCOM_WINDOW_ACTION_MINIMIZE")
  | kWindowMaximize => Some (txt "WLCOM_WINDOW_ACTION_MAXIMIZE")
  | kWindowClose => Some (txt "WLCOM_WINDOW_ACTION_CLOSE")
  | kWindowMenu => Some (txt "WLCOM_WINDOW_ACTION_MENU")
  | kCount => None
  end.

Section Manager.
Context `{Xkb}.

(** One non-empty part: a modifier not seen yet, or the only key. *)
Definition parse_part (part : str) (p : ParsedShortcut) : option ParsedShortcut :=
  match ModifierForName part with
  | Some modifier =>
      if has_flag (ps_modifiers p) modifier then None
      else Some (Parsed (Z.lor (ps_modifiers p) modifier) (ps_keysym p) (ps_no_repeat p))
  | None =>
      if negb (ps_keysym p =? XKB_KEY_NoSymbol) then None
      else let keysym := xkb_keysym_to_lower (xkb_keysym_from_name part) in
           if keysym =? XKB_KEY_NoSymbol then None
           else Some (Parsed (ps_modifiers p) keysym (ps_no_repeat p))
  end.

Definition parse_end (p : ParsedShortcut) : option ParsedShortcut :=
  if ps_keysym p =? XKB_KEY_NoSymbol then None else Some p.

Fixpoint parse_parts (parts : list str) (p : ParsedShortcut) : option ParsedShortcut :=
  match parts with
  | [] => parse_end p
  | part :: rest =>
      match Trim part, rest with
      | [], [] => None
      | [], _ => parse_parts rest p
      | part, _ => p ← parse_part part p; parse_parts rest p
      end
  end.

Definition ParseShortcut (shortcut : str) : option ParsedShortcut :=
  let binding := Trim shortcut in
  '(binding, no_repeat) ←
    match rsplit_colon binding with
    | Some (key, suffix) =>
        if EqualsIgnoringCase (Trim suffix) (txt "no") then Some (Trim key, true) else None
    | None => Some (binding, false)
    end;
  match binding with
  | [] => None
  | _ => parse_parts (split_plus binding) (Parsed 0 XKB_KEY_NoSymbol no_repeat)
  end.

Definition BuildShortcut (p : ParsedShortcut) : str :=
  let shortcut := foldl (fun shortcut '(modifier, name) =>
    if has_flag (ps_modifiers p) modifier then append_part shortcut name else shortcut)
    [] printed_modifiers in
  match xkb_keysym_get_name (xkb_keysym_to_lower (ps_keysym p)) with
  | None => []
  | Some name => append_part shortcut name
  end.

(** ** Bindings *)

Definition same_keys (p q : ParsedShortcut) : bool :=
  (ps_keysym p =? ps_keysym q) && (ps_modifiers p =? ps_modifiers q).

Definition Register (s : KeyBindingManager) (shortcut : str) (type : KeyBindingType)
    (action : option nat) (description : str) : KeyBindingManager * option Z :=
  match ParseShortcut shortcut, action with
  | Some parsed, Some action =>
      if (length (type_block_counts_ s) <=? type_index type)%nat then (s, None)
      else if existsb (fun b => same_keys (b_parsed b) parsed) (bindings_ s) then (s, None)
      else
        let id := next_id_ s in
        (s |> set_next_id (u64 (id + 1))
           |> set_bindings (bindings_ s ++
                [MkBinding id parsed type action shortcut description]), Some id)
  | _, _ => (s, None)
  end.

(** Assignment through the iterator [find_if] returned. *)
Fixpoint update_first (f : Binding -> bool) (g : Binding -> Binding) (l : list Binding)
    : list Binding :=
  match l with
  | [] => []
  | b :: l => if f b then g b :: l else b :: update_first f g l
  end.

Definition Update (s : KeyBindingManager) (id : Z) (shortcut description : str)
    : KeyBindingManager * bool :=
  match ParseShortcut shortcut with
  | None => (s, false)
  | Some parsed =>
      match List.find (fun b => b_id b =? id) (bindings_ s) with
      | None => (s, false)
      | Some _ =>
          if existsb (fun b => negb (b_id b =? id) && same_keys (b_parsed b) parsed) (bindings_ s)
          then (s, false)
          else (set_bindings (update_first (fun b => b_id b =? id)
                  (fun b => MkBinding (b_id b) parsed (b_type b) (b_action b) shortcut description)
                  (bindings_ s)) s, true)
      end
  end.

Definition Unregister (s : KeyBindingManager) (id : Z) : KeyBindingManager * bool :=
  let s' := set_bindings (List.filter (fun b => negb (b_id b =? id)) (bindings_ s)) s in
  (s', negb (length (bindings_ s') =? length (bindings_ s))%nat).

Definition Bindings (s : KeyBindingManager) : list BindingInfo :=
  map (fun b => MkBindingInfo (b_id b) (b_type b) (b_shortcut b) (b_description b)) (bindings_ s).

(** ** Capturing and blocking *)

Definition GrabNextKey (s : KeyBindingManager) (callback : option nat) : KeyBindingManager :=
  set_capture callback None 0 [] s.
Definition CancelGrab (s : KeyBindingManager) : KeyBindingManager :=
  set_capture None None 0 [] s.
Definition IsGrabbingKey (s : KeyBindingManager) : bool :=
  match capture_callback_ s with Some _ => true | None => false end.

(** A counter that is incremented, or decremented while positive. *)
Definition count_block (blocked : bool) (n : Z) : Z :=
  if blocked then u64 (n + 1) else if n >? 0 then n - 1 else n.

Definition BlockAll (s : KeyBindingManager) (blocked : bool) : KeyBindingManager :=
  set_block_count (count_block blocked (block_count_ s)) s.

Definition BlockType (s : KeyBindingManager) (type : KeyBindingType) (blocked : bool)
    : KeyBindingManager :=
  let index := type_index type in
  match type_block_counts_ s !! index with
  | None => s
  | Some n => set_type_counts (<[index := count_block blocked n]> (type_block_counts_ s)) s
  end.

Definition IsTypeBlocked (s : KeyBindingManager) (type : KeyBindingType) : bool :=
  match type_block_counts_ s !! type_index type with
  | None => true
  | Some n => n >? 0
  end.

(** ** Key events *)

Variable run_action : nat -> KeyBindingManager -> KeyBindingManager.
Variable run_capture : nat -> bool -> str -> KeyBindingManager -> KeyBindingManager.

Definition kbm_result : Type := KeyBindingManager * bool * list kbm_effect.

Definition HandleCapturedKey (s : KeyBindingManager) (keyboard : nat) (kb : wlr_keyboard)
    (st : xkb_state) (event : wlr_keyboard_key_event) : kbm_result :=
  match xkb_state_key_get_syms st (u32 (ev_keycode event + 8)) with
  | [] => (s, true, [])
  | sym :: _ =>
      let keysym := xkb_keysym_to_lower sym in
      match capture_callback_ s with
      | None => (s, true, [])                   (* only called while grabbing *)
      | Some cb =>
          if ev_state event =? KEY_PRESSED then
            if IsModifierKeysym keysym || bool_decide (captured_keyboard_ s <> None)
            then (s, true, [])
            else match BuildShortcut (Parsed (wlr_keyboard_get_modifiers kb) keysym false) with
                 | [] => (s, true, [])
                 | shortcut =>
                     let s := set_capture (Some cb) (Some keyboard) (ev_keycode event) shortcut s in
                     (run_capture cb true shortcut s, true, [RunCapture cb true shortcut])
                 end
          else if (ev_state event =? KEY_RELEASED) &&
                  bool_decide (captured_keyboard_ s = Some keyboard) &&
                  (captured_keycode_ s =? ev_keycode event)
          then let shortcut := captured_shortcut_ s in
               (run_capture cb false shortcut (CancelGrab s), true, [RunCapture cb false shortcut])
          else (s, true, [])
      end
  end.

Definition is_active (keyboard : nat) (keycode : Z) (k : ActiveKey) : bool :=
  (ak_keyboard k =? keyboard)%nat && (ak_keycode k =? keycode).

(** [active_keys_.erase(active)]. *)
Fixpoint erase_first (f : ActiveKey -> bool) (l : list ActiveKey) : list ActiveKey :=
  match l with
  | [] => []
  | k :: l => if f k then l else k :: erase_first f l
  end.

(** The loop over the keysyms of the key: the first unblocked binding of the
    first keysym that has one. *)
Fixpoint match_binding (s : KeyBindingManager) (modifiers : Z) (keysyms : list Z)
    : option Binding :=
  match keysyms with
  | [] => None
  | sym :: rest =>
      let keysym := if sym =? XKB_KEY_ISO_Left_Tab then XKB_KEY_Tab
                    else xkb_keysym_to_lower sym in
      match List.find (fun b => negb (IsTypeBlocked s (b_type b)) &&
                                (ps_keysym (b_parsed b) =? keysym) &&
                                ModifiersMatch modifiers (ps_modifiers (b_parsed b)))
                      (bindings_ s) with
      | Some b => Some b
      | None => match_binding s modifiers rest
      end
  end.

(** [keyboard] is [None] for a null pointer. *)
Definition HandleKey (s : KeyBindingManager) (keyboard : option (nat * wlr_keyboard))
    (event : wlr_keyboard_key_event) (inhibited : bool) : kbm_result :=
  match keyboard with
  | None => (s, false, [])
  | Some (k, kb) =>
    match kb_xkb_state kb with
    | None => (s, false, [])
    | Some st =>
      let active := List.find (is_active k (ev_keycode event)) (active_keys_ s) in
      if ev_state event =? KEY_RELEASED then
        match active with
        | Some _ => (set_active_keys (erase_first (is_active k (ev_keycode event))
                                        (active_keys_ s)) s, true, [])
        | None => if IsGrabbingKey s then HandleCapturedKey s k kb st event else (s, false, [])
        end
      else if negb (ev_state event =? KEY_PRESSED) then (s, false, [])
      else if IsGrabbingKey s then HandleCapturedKey s k kb st event
      else
        match active with
        | Some a =>
            match List.find (fun b => b_id b =? ak_binding_id a) (bindings_ s) with
            | Some b =>
                if negb (ps_no_repeat (b_parsed b)) && negb inhibited &&
                   (block_count_ s =? 0) && negb (IsTypeBlocked s (b_type b))
                then (run_action (b_action b) s, true, [RunAction (b_action b)])
                else (s, true, [])
            | None => (s, true, [])
            end
        | None =>
            if inhibited || (block_count_ s >? 0) then (s, false, [])
            else
              match match_binding s (wlr_keyboard_get_modifiers kb)
                      (xkb_state_key_get_syms st (u32 (ev_keycode event + 8))) with
              | None => (s, false, [])
              | Some b =>
                  let s := run_action (b_action b) s in
                  (set_active_keys (active_keys_ s ++
                     [MkActiveKey k (ev_keycode event) (b_id b)]) s,
                   true, [RunAction (b_action b)])
              end
        end
    end
  end.

Definition ForgetKeyboard (s : KeyBindingManager) (keyboard : nat) : KeyBindingManager :=
  let s := set_active_keys
    (List.filter (fun k => negb (ak_keyboard k =? keyboard)%nat) (active_keys_ s)) s in
  if bool_decide (captured_keyboard_ s = Some keyboard) then CancelGrab s else s.

End Manager.

(** ** The invariant of the manager *)

Section Invariant.
Context `{Xkb}.

Definition chord (b : Binding) : Z * Z := (ps_keysym (b_parsed b), ps_modifiers (b_parsed b)).
Definition pressed_key (k : ActiveKey) : nat * Z := (ak_keyboard k, ak_keycode k).

Record kbm_inv (s : KeyBindingManager) : Prop := {
  kv_ids : NoDup (map b_id (bindings_ s));
  kv_fresh : forall b, b ∈ bindings_ s -> 0 < b_id b < next_id_ s;
  kv_next : 0 < next_id_ s < 2 ^ 64;
  kv_chords : NoDup (map chord (bindings_ s));
  kv_parsed : forall b, b ∈ bindings_ s -> ParseShortcut (b_shortcut b) = Some (b_parsed b);
  kv_active : NoDup (map pressed_key (active_keys_ s));
  kv_types : length (type_block_counts_ s) = type_index kCount;
  kv_counts : forall n, n ∈ block_count_ s :: type_block_counts_ s -> 0 <= n < 2 ^ 64;
  kv_grab : capture_callback_ s = None -> captured_keyboard_ s = None;
  kv_captured : captured_keyboard_ s = None -> captured_keycode_ s = 0 /\ captured_shortcut_ s = [] }.

Lemma kbm_init_inv : kbm_inv kbm_init.
Proof.
  split; simpl; try done; try constructor; try lia; try (intros; set_solver).
Qed.

Lemma same_keys_chord p q :
  same_keys p q = true <-> (ps_keysym p, ps_modifiers p) = (ps_keysym q, ps_modifiers q).
Proof. unfold same_keys. rewrite andb_true_iff, !Z.eqb_eq. split; [intros [-> ->]; done|by intros [= -> ->]]. Qed.

Lemma not_existsb {A} (f : A -> bool) (l : list A) :
  existsb f l = false -> forall x, x ∈ l -> f x = false.
Proof.
  intros E x Hx. destruct (f x) eqn:Ef; [|done]. rewrite <- E. symmetry. apply existsb_exists.
  exists x. split; [by apply list_elem_of_In|done].
Qed.

Lemma Register_inv s shortcut type action description :
  next_id_ s + 1 < 2 ^ 64 -> kbm_inv s ->
  kbm_inv (Register s shortcut type action description).1.
Proof.
  intros Hn [Hids Hf Hnx Hch Hp Ha Ht Hc Hg Hcap]. unfold Register.
  destruct (ParseShortcut shortcut) as [parsed|] eqn:Ep; [|done]. destruct action as [a|]; [|done].
  destruct (_ <=? _)%nat; [done|]. destruct (existsb _ _) eqn:Ed; [done|].
  pose proof (not_existsb _ _ Ed) as Hd.
  destruct s as [bs aks cs nx bc cc ck kc cs']. simpl in *. unfold u64. rewrite Z.mod_small by lia.
  split; simpl; try done.
  - rewrite map_app. apply NoDup_app. split_and!; [done| |apply NoDup_singleton].
    intros i (b & -> & Hb)%list_elem_of_fmap [E|[]%elem_of_nil]%elem_of_cons. apply Hf in Hb.
    simpl in *. lia.
  - intros b [Hb|[->|[]%elem_of_nil]%elem_of_cons]%elem_of_app; [apply Hf in Hb|simpl]; lia.
  - lia.
  - rewrite map_app. apply NoDup_app. split_and!; [done| |apply NoDup_singleton].
    intros i (b & -> & Hb)%list_elem_of_fmap [E|[]%elem_of_nil]%elem_of_cons.
    apply same_keys_chord in E. rewrite Hd in E; done.
  - intros b [Hb|[->|[]%elem_of_nil]%elem_of_cons]%elem_of_app; [by apply Hp|done].
Qed.

Lemma update_first_mem f g l b : b ∈ update_first f g l -> b ∈ l \/ exists b0, b0 ∈ l /\ f b0 = true /\ b = g b0.
Proof.
  induction l as [|x l IH]; simpl; [set_solver|]. destruct (f x) eqn:Ef.
  - intros [->|Hb]%elem_of_cons; [right; exists x; set_solver|left; by right].
  - intros [->|Hb]%elem_of_cons; [left; left|].
    destruct (IH Hb) as [?|(b0 & ? & ? & ?)]; [left; by right|right; exists b0; set_solver].
Qed.

Lemma update_first_ids f g l : (forall b, b_id (g b) = b_id b) ->
  map b_id (update_first f g l) = map b_id l.
Proof.
  intros Hg. induction l as [|x l IH]; simpl; [done|]. destruct (f x); simpl; [by rewrite Hg|by rewrite IH].
Qed.

(** Replacing the chord of one binding by one nobody else has. *)
Lemma update_first_chords id g l k :
  NoDup (map b_id l) -> NoDup (map chord l) -> (forall b, chord (g b) = k) ->
  (forall b, b ∈ l -> b_id b <> id -> chord b <> k) ->
  NoDup (map chord (update_first (fun b => b_id b =? id) g l)).
Proof.
  intros Hids Hnd Hg. revert Hids Hnd. induction l as [|x l IH]; simpl; intros Hids Hnd Hk; [done|].
  apply NoDup_cons in Hids as [Hi Hids], Hnd as [Hx Hnd].
  destruct (Z.eqb_spec (b_id x) id) as [<-|Hne]; simpl; apply NoDup_cons.
  - split; [|done]. rewrite Hg. intros (b & E & Hb)%list_elem_of_fmap. apply (Hk b); [by right| |done].
    intros E'. apply Hi. rewrite <- E'. by apply list_elem_of_fmap_2.
  - split; [|apply IH; auto; intros b Hb; apply Hk; by right].
    intros (b & E & Hb)%list_elem_of_fmap.
    destruct (update_first_mem _ _ _ _ Hb) as [Hb'|(b0 & _ & _ & ->)].
    + apply Hx. rewrite E. by apply list_elem_of_fmap_2.
    + rewrite Hg in E. apply (Hk x); [left|done|done].
Qed.

Lemma Update_inv s id shortcut description :
  kbm_inv s -> kbm_inv (Update s id shortcut description).1.
Proof.
  intros [Hids Hf Hnx Hch Hp Ha Ht Hc Hg Hcap]. unfold Update.
  destruct (ParseShortcut shortcut) as [parsed|] eqn:Ep; [|done].
  destruct (List.find _ _) as [found|]; [|done]. destruct (existsb _ _) eqn:Ed; [done|].
  pose proof (not_existsb _ _ Ed) as Hd.
  destruct s as [bs aks cs nx bc cc ck kc cs']. simpl in *. split; simpl; try done.
  - by rewrite update_first_ids.
  - intros b [Hb|(b0 & Hb & _ & ->)]%update_first_mem; by apply Hf in Hb.
  - apply (update_first_chords _ _ _ (ps_keysym parsed, ps_modifiers parsed)); auto.
    intros b Hb Hne E. specialize (Hd b Hb). simpl in Hd.
    apply same_keys_chord in E. rewrite E in Hd. lia.
  - intros b [Hb|(b0 & Hb & _ & ->)]%update_first_mem; [by apply Hp|done].
Qed.

Lemma NoDup_map_filter {A B} (f : A -> B) (p : A -> bool) l :
  NoDup (map f l) -> NoDup (map f (List.filter p l)).
Proof.
  induction l as [|x l IH]; simpl; [done|]. intros [Hx Hnd]%NoDup_cons.
  destruct (p x); simpl; [|by apply IH]. apply NoDup_cons. split; [|by apply IH].
  intros (y & E & Hy)%list_elem_of_fmap. apply Hx. rewrite E. apply list_elem_of_fmap_2.
  apply list_elem_of_In, List.filter_In in Hy as [Hy _]. by apply list_elem_of_In.
Qed.

Lemma filter_mem {A} (p : A -> bool) l x : x ∈ List.filter p l -> x ∈ l.
Proof. rewrite !list_elem_of_In, List.filter_In. tauto. Qed.

Lemma Unregister_inv s id : kbm_inv s -> kbm_inv (Unregister s id).1.
Proof.
  intros [Hids Hf Hnx Hch Hp Ha Ht Hc Hg Hcap].
  destruct s as [bs aks cs nx bc cc ck kc cs']. simpl in *. split; simpl; auto using NoDup_map_filter;
    intros b Hb%filter_mem; auto.
Qed.

Lemma count_block_range blocked n : 0 <= n < 2 ^ 64 -> 0 <= count_block blocked n < 2 ^ 64.
Proof. intros Hn. unfold count_block, u64. case_ifs; try lia. apply Z.mod_pos_bound. lia. Qed.

Lemma BlockAll_inv s blocked : kbm_inv s -> kbm_inv (BlockAll s blocked).
Proof.
  intros [Hids Hf Hnx Hch Hp Ha Ht Hc Hg Hcap]. destruct s. split; simpl in *; auto.
  intros n [->|Hn]%elem_of_cons; [apply count_block_range, Hc; left|apply Hc; by right].
Qed.

Lemma BlockType_inv s type blocked : kbm_inv s -> kbm_inv (BlockType s type blocked).
Proof.
  intros [Hids Hf Hnx Hch Hp Ha Ht Hc Hg Hcap]. unfold BlockType. cbv zeta.
  destruct (type_block_counts_ s !! _) as [m|] eqn:E; [|by split].
  destruct s. split; simpl in *; auto; [by rewrite length_insert|].
  intros n [->|Hn]%elem_of_cons; [apply Hc; left|].
  apply list_elem_of_lookup_1 in Hn as [i Hi]. apply list_lookup_insert_Some in Hi.
  destruct Hi as [(_ & <- & _)|[_ Hi]].
  - apply count_block_range, Hc. right. by eapply list_elem_of_lookup_2.
  - apply Hc. right. by eapply list_elem_of_lookup_2.
Qed.

Lemma set_capture_inv s cb kb code text :
  (cb = None -> kb = None) -> (kb = None -> code = 0 /\ text = []) ->
  kbm_inv s -> kbm_inv (set_capture cb kb code text s).
Proof. intros H1 H2 [Hids Hf Hnx Hch Hp Ha Ht Hc Hg Hcap]. destruct s. by split. Qed.

Lemma set_active_inv s l :
  NoDup (map pressed_key l) -> kbm_inv s -> kbm_inv (set_active_keys l s).
Proof. intros H1 [Hids Hf Hnx Hch Hp Ha Ht Hc Hg Hcap]. destruct s. by split. Qed.

Lemma ForgetKeyboard_inv s k : kbm_inv s -> kbm_inv (ForgetKeyboard s k).
Proof.
  intros Hi. unfold ForgetKeyboard. pose proof (set_active_inv s _ (NoDup_map_filter pressed_key
    (fun a => negb (ak_keyboard a =? k)%nat) _ (kv_active _ Hi)) Hi) as Hi'.
  case_bool_decide; [|done]. by apply set_capture_inv.
Qed.

(** What callbacks may do: they keep the invariant (they reach the manager
    through its operations) and an action does not press further keys. *)
Record callbacks_ok (run_action : nat -> KeyBindingManager -> KeyBindingManager)
    (run_capture : nat -> bool -> str -> KeyBindingManager -> KeyBindingManager) : Prop := {
  co_action : forall a s, kbm_inv s -> kbm_inv (run_action a s);
  co_active : forall a s, sublist (active_keys_ (run_action a s)) (active_keys_ s);
  co_capture : forall cb p t s, kbm_inv s -> kbm_inv (run_capture cb p t s) }.

Section Events.
Context (run_action : nat -> KeyBindingManager -> KeyBindingManager)
  (run_capture : nat -> bool -> str -> KeyBindingManager -> KeyBindingManager).

Lemma HandleCapturedKey_inv s k kb st e :
  callbacks_ok run_action run_capture -> kbm_inv s ->
  kbm_inv (HandleCapturedKey run_capture s k kb st e).1.1.
Proof.
  intros Hok Hi. unfold HandleCapturedKey.
  destruct (xkb_state_key_get_syms st _) as [|sym syms]; [done|].
  destruct (capture_callback_ s) as [cb|]; [|done]. destruct (_ =? KEY_PRESSED).
  - destruct (_ || _); [done|]. destruct (BuildShortcut _) as [|c text]; [done|].
    apply (co_capture _ _ Hok). by apply set_capture_inv.
  - destruct (_ && _); [|done]. apply (co_capture _ _ Hok). by apply set_capture_inv.
Qed.

Lemma find_none_pressed k code l :
  List.find (is_active k code) l = None -> (k, code) ∉ map pressed_key l.
Proof.
  intros Hf (a & E & Ha)%list_elem_of_fmap. apply list_elem_of_In in Ha.
  pose proof (List.find_none _ _ Hf a Ha) as Hn. unfold is_active, pressed_key in *.
  injection E as -> ->. rewrite Nat.eqb_refl, Z.eqb_refl in Hn. done.
Qed.

Lemma erase_first_sublist f l : sublist (erase_first f l) l.
Proof. induction l as [|x l IH]; simpl; [done|]. destruct (f x); by constructor. Qed.

Lemma sublist_map_NoDup {A B} (f : A -> B) l l' :
  sublist l l' -> NoDup (map f l') -> NoDup (map f l).
Proof.
  intros Hs Hnd. eapply sublist_NoDup; [exact Hnd|]. by apply fmap_sublist.
Qed.

Lemma HandleKey_inv s keyboard e inhibited :
  callbacks_ok run_action run_capture -> kbm_inv s ->
  kbm_inv (HandleKey run_action run_capture s keyboard e inhibited).1.1.
Proof.
  intros Hok Hi. unfold HandleKey. destruct keyboard as [[k kb]|]; [|done].
  destruct (kb_xkb_state kb) as [st|]; [|done]. cbv zeta.
  destruct (List.find (is_active k (ev_keycode e)) (active_keys_ s)) as [a|] eqn:Ea.
  - destruct (_ =? KEY_RELEASED).
    { apply set_active_inv; [|done].
      eapply sublist_map_NoDup; [apply erase_first_sublist|apply Hi]. }
    destruct (negb _); [done|]. destruct (IsGrabbingKey s); [by apply HandleCapturedKey_inv|].
    destruct (List.find _ (bindings_ s)); [|done]. destruct (_ && _); [|done]. by apply (co_action _ _ Hok).
  - destruct (_ =? KEY_RELEASED).
    { destruct (IsGrabbingKey s); [by apply HandleCapturedKey_inv|done]. }
    destruct (negb _); [done|]. destruct (IsGrabbingKey s); [by apply HandleCapturedKey_inv|].
    destruct (_ || _); [done|]. destruct (match_binding _ _ _) as [b|]; [|done]. simpl.
    pose proof (co_action _ _ Hok (b_action b) s Hi) as Hi'.
    pose proof (co_active _ _ Hok (b_action b) s) as Hs.
    apply set_active_inv; [|done]. rewrite map_app. apply NoDup_app.
    split_and!; [apply Hi'| |apply NoDup_singleton].
    intros x Hx [E|[]%elem_of_nil]%elem_of_cons. apply (find_none_pressed _ _ _ Ea).
    change (k, ev_keycode e) with (pressed_key (MkActiveKey k (ev_keycode e) (b_id b))).
    rewrite <- E. apply list_elem_of_fmap in Hx as (y & -> & Hy). apply list_elem_of_fmap_2.
    by eapply elem_of_sublist.
Qed.

(** Every call into the manager. A fresh identifier must be left: the counter
    is 64 bits wide. *)
Inductive kbm_step : KeyBindingManager -> KeyBindingManager -> Prop :=
| st_register s t ty a d : next_id_ s + 1 < 2 ^ 64 -> kbm_step s (Register s t ty a d).1
| st_update s id t d : kbm_step s (Update s id t d).1
| st_unregister s id : kbm_step s (Unregister s id).1
| st_grab s cb : kbm_step s (GrabNextKey s cb)
| st_cancel s : kbm_step s (CancelGrab s)
| st_block_all s b : kbm_step s (BlockAll s b)
| st_block_type s ty b : kbm_step s (BlockType s ty b)
| st_key s kb e inh : kbm_step s (HandleKey run_action run_capture s kb e inh).1.1
| st_forget s k : kbm_step s (ForgetKeyboard s k).

Lemma kbm_step_inv s s' :
  callbacks_ok run_action run_capture -> kbm_step s s' -> kbm_inv s -> kbm_inv s'.
Proof.
  intros Hok [] Hi; auto using Register_inv, Update_inv, Unregister_inv, BlockAll_inv,
    BlockType_inv, HandleKey_inv, ForgetKeyboard_inv; by apply set_capture_inv.
Qed.

End Events.

End Invariant.

(** C35. Through every sequence of registrations, updates, removals, grabs,
    blockings and key events, with callbacks that call back into the manager,
    binding identifiers stay unique and below the next one, no two bindings
    share a key and modifiers, each binding's chord is the parse of its text, a
    key is recorded as active at most once, and capture state is empty outside a
    capture. *)
Theorem key_binding_invariant `{Xkb} run_action run_capture
  (Hok : callbacks_ok run_action run_capture) (s : KeyBindingManager)
  (Hr : rtc (kbm_step run_action run_capture) kbm_init s) : kbm_inv s.
Proof.
  pose proof kbm_init_inv as Hi. revert Hi. induction Hr as [|s1 s2 s3 Hstep _ IH]; [done|].
  intros Hi. apply IH. by eapply kbm_step_inv.
Qed.

(** A keymap for examples: keycode 36 is the letter h, keycode 15 is Tab (with
    Shift, ISO_Left_Tab), keycode 100 is ISO_Level3_Shift. *)
Definition demo_names : list (Z * str) :=
  [(0x68, txt "h"); (XKB_KEY_Tab, txt "Tab"); (XKB_KEY_ISO_Left_Tab, txt "ISO_Left_Tab");
   (XKB_KEY_ISO_Level3_Shift, txt "ISO_Level3_Shift")].

#[local] Instance demo_xkb : Xkb := {|
  xkb_keymap := unit; xkb_state := Z;
  xkb_state_new _ := Some 0;
  xkb_keymap_get_as_string _ := Some (txt "demo");
  xkb_state_update_key s _ _ := s;
  xkb_state_update_mask _ d _ _ _ := d;
  xkb_mods_depressed s := s; xkb_mods_latched _ := 0; xkb_mods_locked _ := 0;
  xkb_layout_effective _ := 0;
  xkb_state_led_index_is_active _ _ := false;
  xkb_map_led_get_index _ _ := 0;
  xkb_map_mod_get_index _ name := from_option (fun p => Z.of_nat p.1) XKB_MOD_INVALID
    (list_find (fun n => n = name) mod_names);
  xkb_state_key_get_syms s k :=
    if k =? 44 then [0x68]
    else if k =? 23 then [if Z.testbit s 0 then XKB_KEY_ISO_Left_Tab else XKB_KEY_Tab]
    else if k =? 37 then [0xffe3]
    else if k =? 108 then [XKB_KEY_ISO_Level3_Shift] else [];
  xkb_keysym_to_lower k := k;
  xkb_keysym_from_name n := from_option fst 0
    (List.find (fun p => EqualsIgnoringCase n p.2) demo_names);
  xkb_keysym_get_name k := snd <$> List.find (fun p => p.1 =? k) demo_names |}.

(** The demo keyboard with the given modifiers held. *)
Definition demo_keyboard (mods : Z) : nat * wlr_keyboard :=
  (1%nat, (wlr_keyboard_notify_modifiers
     (wlr_keyboard_set_keymap (Some 5) true (wlr_keyboard_init false) (Some tt)).1.1
     (Mods mods 0 0 0)).1).

Definition demo_press (code : Z) := KeyEvent 0 code true KEY_PRESSED.
Definition demo_release (code : Z) := KeyEvent 0 code true KEY_RELEASED.

Definition demo_manager : KeyBindingManager :=
  (Register kbm_init (txt "Ctrl++Alt++Win+h:no") kWindowSwitch (Some 7%nat) []).1.

Lemma idle_callbacks_ok : callbacks_ok (fun _ s => s) (fun _ _ _ s => s).
Proof. by split. Qed.

Lemma key_binding_invariant_witness :
  kbm_inv demo_manager /\
  map (fun b => (b_id b, b_parsed b)) (bindings_ demo_manager) = [(1, Parsed 76 0x68 true)].
Proof.
  split; [|reflexivity]. apply (key_binding_invariant _ _ idle_callbacks_ok).
  apply rtc_once. apply (st_register _ _ kbm_init). simpl. lia.
Defined.

(** ** Which actions a key event may run *)

Section Actions.
Context `{Xkb} (run_capture : nat -> bool -> str -> KeyBindingManager -> KeyBindingManager).

Lemma captured_no_action s k kb st e a :
  RunAction a ∉ (HandleCapturedKey run_capture s k kb st e).2.
Proof.
  unfold HandleCapturedKey. destruct (xkb_state_key_get_syms st _); [set_solver|].
  destruct (capture_callback_ s); [|set_solver]. cbv zeta.
  destruct (_ =? KEY_PRESSED); [destruct (_ || _); [set_solver|]|].
  - destruct (BuildShortcut _); set_solver.
  - destruct (_ && _); set_solver.
Qed.

Lemma match_binding_spec s mods syms b :
  match_binding s mods syms = Some b ->
  b ∈ bindings_ s /\ IsTypeBlocked s (b_type b) = false /\
  ModifiersMatch mods (ps_modifiers (b_parsed b)) = true /\
  exists sym, sym ∈ syms /\ ps_keysym (b_parsed b) =
    if sym =? XKB_KEY_ISO_Left_Tab then XKB_KEY_Tab else xkb_keysym_to_lower sym.
Proof.
  induction syms as [|sym syms IH]; [done|]. cbn [match_binding].
  destruct (List.find _ _) as [b'|] eqn:Ef.
  - intros [= ->]. apply List.find_some in Ef as [Hin Hb]. apply list_elem_of_In in Hin.
    prop_bool. split_and!; auto. exists sym. split; [left|lia].
  - intros (? & ? & ? & sym' & ? & ?)%IH. split_and!; auto. exists sym'. split; [by right|done].
Qed.

Lemma find_active_spec k code l a :
  List.find (is_active k code) l = Some a -> a ∈ l /\ pressed_key a = (k, code).
Proof.
  intros [Hin Ha]%List.find_some. apply list_elem_of_In in Hin. split; [done|].
  unfold is_active in Ha. unfold pressed_key. f_equal; lia.
Qed.

End Actions.

(** An action only runs on a key press, outside a capture, while shortcuts
    are neither inhibited nor blocked, and it belongs to a binding whose type is
    not blocked; that binding is either the one its key already activated and
    allows repeating, or one whose key and modifiers match the event. At most
    one action runs, and a press that runs one is consumed. *)
Theorem key_action_allowed `{Xkb} run_action run_capture (s : KeyBindingManager)
  (k : nat) (kb : wlr_keyboard) (e : wlr_keyboard_key_event) (inhibited : bool) (a : nat)
  (Hrun : RunAction a ∈ (HandleKey run_action run_capture s (Some (k, kb)) e inhibited).2) :
  (HandleKey run_action run_capture s (Some (k, kb)) e inhibited).2 = [RunAction a] /\
  (HandleKey run_action run_capture s (Some (k, kb)) e inhibited).1.2 = true /\
  ev_state e = KEY_PRESSED /\ IsGrabbingKey s = false /\ inhibited = false /\
  block_count_ s <= 0 /\
  exists b st, b ∈ bindings_ s /\ b_action b = a /\ IsTypeBlocked s (b_type b) = false /\
    kb_xkb_state kb = Some st /\
    ((exists key, key ∈ active_keys_ s /\ pressed_key key = (k, ev_keycode e) /\
        ak_binding_id key = b_id b /\ ps_no_repeat (b_parsed b) = false) \/
     (ModifiersMatch (wlr_keyboard_get_modifiers kb) (ps_modifiers (b_parsed b)) = true /\
      exists sym, sym ∈ xkb_state_key_get_syms st (u32 (ev_keycode e + 8)) /\
        ps_keysym (b_parsed b) = if sym =? XKB_KEY_ISO_Left_Tab then XKB_KEY_Tab
                                 else xkb_keysym_to_lower sym)).
Proof.
  revert Hrun. unfold HandleKey. destruct (kb_xkb_state kb) as [st|] eqn:Es; [|set_solver].
  cbv zeta. destruct (List.find (is_active _ _) _) as [key|] eqn:Ea;
    (destruct (ev_state e =? KEY_RELEASED); [try destruct (IsGrabbingKey s); try set_solver;
      by intros []%captured_no_action|]);
    destruct (Z.eqb_spec (ev_state e) KEY_PRESSED) as [Hp|]; simpl; try set_solver;
    (destruct (IsGrabbingKey s) eqn:Eg; [by intros []%captured_no_action|]).
  - apply find_active_spec in Ea as [Hk Ek].
    destruct (List.find _ (bindings_ s)) as [b|] eqn:Ef; [|set_solver].
    apply List.find_some in Ef as [Hb Eb]. apply list_elem_of_In in Hb.
    destruct (_ && _) eqn:Ec; [|set_solver]. simpl. prop_bool.
    intros [[= ->]|[]%elem_of_nil]%elem_of_cons. split_and!; auto; [lia|].
    exists b, st. split_and!; auto. left. exists key. split_and!; auto. lia.
  - destruct (inhibited || _) eqn:Ei; [set_solver|]. prop_bool.
    destruct (match_binding _ _ _) as [b|] eqn:Em; [|set_solver]. simpl.
    apply match_binding_spec in Em as (? & ? & ? & Hsym).
    intros [[= ->]|[]%elem_of_nil]%elem_of_cons. split_and!; auto; [lia|].
    exists b, st. split_and!; auto.
Qed.

Lemma key_action_allowed_witness : exists b st,
  b ∈ bindings_ demo_manager /\ b_action b = 7%nat /\
  kb_xkb_state (demo_keyboard 76).2 = Some st /\
  (HandleKey (fun _ s => s) (fun _ _ _ s => s) demo_manager (Some (demo_keyboard 76))
    (demo_press 36) false).1.2 = true.
Proof.
  destruct (key_action_allowed (fun _ s => s) (fun _ _ _ s => s) demo_manager 1%nat
    (demo_keyboard 76).2 (demo_press 36) false 7%nat) as (_ & Hc & _ & _ & _ & _ & b & st & Hb & Ha & _ & Hst & _).
  - vm_compute. left.
  - exists b, st. by split_and!.
Defined.

(** ** What clients see of a key *)

(** The key is held by a binding. *)
Definition is_down (k : nat) (code : Z) (s : KeyBindingManager) : bool :=
  bool_decide ((k, code) ∈ map pressed_key (active_keys_ s)).

Lemma find_active_down k code s :
  is_down k code s = bool_decide (List.find (is_active k code) (active_keys_ s) <> None).
Proof.
  unfold is_down. destruct (List.find _ _) as [a|] eqn:E.
  - apply find_active_spec in E as [Ha <-]. rewrite !bool_decide_eq_true_2; [done|done|].
    by apply list_elem_of_fmap_2.
  - apply find_none_pressed in E. rewrite !bool_decide_eq_false_2; tauto.
Qed.

Lemma erase_first_pressed k code l k' code' :
  NoDup (map pressed_key l) ->
  (k', code') ∈ map pressed_key (erase_first (is_active k code) l) <->
  (k', code') ∈ map pressed_key l /\ (k', code') <> (k, code).
Proof.
  induction l as [|x l IH]; simpl; [set_solver|]. intros [Hx Hnd]%NoDup_cons.
  destruct (is_active k code x) eqn:E; simpl; rewrite !elem_of_cons.
  - assert (Ex : pressed_key x = (k, code)) by (unfold is_active in E; unfold pressed_key; f_equal; lia).
    rewrite Ex in *. split; [intros Hin; split; [by right|by intros [= -> ->]]|tauto].
  - assert (Ex : pressed_key x <> (k, code)).
    { unfold is_active in E. unfold pressed_key. intros [= ? ?]. lia. }
    rewrite IH by done. split; [intros [->|[? ?]]; auto|intros [[->|?] ?]; auto].
Qed.

(** Releasing a key that a shortcut holds. *)
Lemma release_active k code s a :
  NoDup (map pressed_key (active_keys_ s)) -> List.find (is_active k code) (active_keys_ s) = Some a ->
  forall g : bool,
  let s' := set_active_keys (erase_first (is_active k code) (active_keys_ s)) s in
  NoDup (map pressed_key (active_keys_ s')) /\
  (forall k' code', (k', code') <> (k, code) -> is_down k' code' s' = is_down k' code' s) /\
  true = is_down k code s || g /\ is_down k code s' = false.
Proof.
  intros Hnd Ea g. pose proof (find_active_down k code s) as Hd. rewrite Ea in Hd.
  rewrite bool_decide_eq_true_2 in Hd by done. destruct s; simpl in *.
  split_and!; unfold is_down in *; simpl in *.
  - eapply sublist_map_NoDup; [apply erase_first_sublist|done].
  - intros k' code' Hne. apply bool_decide_ext. rewrite erase_first_pressed by done. tauto.
  - by rewrite Hd.
  - apply bool_decide_eq_false_2. rewrite erase_first_pressed by done. tauto.
Qed.

Lemma ForgetKeyboard_active s k : active_keys_ (ForgetKeyboard s k) =
  List.filter (fun a => negb (ak_keyboard a =? k)%nat) (active_keys_ s).
Proof. destruct s. unfold ForgetKeyboard. simpl. by case_bool_decide. Qed.

(** Forgetting a keyboard lets go of its keys only. *)
Lemma forget_active s k' k code :
  NoDup (map pressed_key (active_keys_ s)) -> (k' = k -> is_down k code s = false) ->
  NoDup (map pressed_key (active_keys_ (ForgetKeyboard s k'))) /\
  is_down k code (ForgetKeyboard s k') = is_down k code s /\ @None (nat * wlr_keyboard_key_event) = None.
Proof.
  intros Hnd Hf. unfold is_down in *. rewrite ForgetKeyboard_active. split_and!; [| |done].
  - by apply NoDup_map_filter.
  - apply bool_decide_ext. rewrite !list_elem_of_fmap. split.
    + intros (a & E & Ha%filter_mem). by exists a.
    + intros (a & E & Ha). exists a. split; [done|]. apply list_elem_of_In, List.filter_In.
      split; [by apply list_elem_of_In|]. injection E as Ek Ec. destruct (Nat.eqb_spec (ak_keyboard a) k') as [Hk|]; [|done].
      assert (E0 : k' = k) by congruence. specialize (Hf E0). apply bool_decide_eq_false in Hf.
      destruct Hf. apply list_elem_of_fmap. exists a. split; [|done]. unfold pressed_key. congruence.
Qed.

Section Delivery.
Context `{Xkb} (run_action : nat -> KeyBindingManager -> KeyBindingManager)
  (run_capture : nat -> bool -> str -> KeyBindingManager -> KeyBindingManager).

(** The calls the compositor makes. *)
Inductive kbm_call :=
| CallKey (k : nat) (kb : wlr_keyboard) (e : wlr_keyboard_key_event) (inhibited : bool)
| CallRegister (t : str) (ty : KeyBindingType) (a : option nat) (d : str)
| CallUpdate (id : Z) (t d : str)
| CallUnregister (id : Z)
| CallBlockAll (b : bool)
| CallBlockType (ty : KeyBindingType) (b : bool)
| CallGrab (callback : option nat)
| CallCancelGrab
| CallForget (k : nat).

(** The new state and the event passed on to the focused client, if any. *)
Definition kbm_apply (s : KeyBindingManager) (c : kbm_call)
    : KeyBindingManager * option (nat * wlr_keyboard_key_event) :=
  match c with
  | CallKey k kb e inh =>
      let '(s, consumed, _) := HandleKey run_action run_capture s (Some (k, kb)) e inh in
      (s, if consumed then None else Some (k, e))
  | CallRegister t ty a d => ((Register s t ty a d).1, None)
  | CallUpdate id t d => ((Update s id t d).1, None)
  | CallUnregister id => ((Unregister s id).1, None)
  | CallBlockAll b => (BlockAll s b, None)
  | CallBlockType ty b => (BlockType s ty b, None)
  | CallGrab callback => (GrabNextKey s callback, None)
  | CallCancelGrab => (CancelGrab s, None)
  | CallForget k => (ForgetKeyboard s k, None)
  end.

Fixpoint kbm_deliver (s : KeyBindingManager) (calls : list kbm_call)
    : list (nat * wlr_keyboard_key_event) :=
  match calls with
  | [] => []
  | c :: calls => let '(s, out) := kbm_apply s c in option_list out ++ kbm_deliver s calls
  end.

(** Presses ([true]) and releases of one key in a sequence of events. *)
Definition presses (k : nat) (code : Z) (l : list (nat * wlr_keyboard_key_event)) : list bool :=
  omap (fun '(k', e) => if (k' =? k)%nat && (ev_keycode e =? code)
                        then Some (ev_state e =? KEY_PRESSED) else None) l.

(** The key, down when [down], is alternately pressed and released. *)
Fixpoint alternates (down : bool) (l : list bool) : Prop :=
  match l with [] => True | b :: l => b = negb down /\ alternates b l end.

(** Keys come from keyboards with a keymap, as presses or releases. *)
Definition call_ok (c : kbm_call) : Prop :=
  match c with
  | CallKey _ kb e _ => kb_xkb_state kb <> None /\
      (ev_state e = KEY_PRESSED \/ ev_state e = KEY_RELEASED)
  | _ => True
  end.

(** The active keys are [HandleKey]'s and [ForgetKeyboard]'s alone: actions and
    capture callbacks may register, block, capture, but do not touch them. *)
Definition keeps_active : Prop :=
  (forall a s, active_keys_ (run_action a s) = active_keys_ s) /\
  (forall cb p text s, active_keys_ (run_capture cb p text s) = active_keys_ s).

(** Where the key [(k, code)] is after a call. *)
Definition key_after (k : nat) (code : Z) (down : bool) (c : kbm_call) : bool :=
  match c with
  | CallKey k' _ e _ =>
      if (k' =? k)%nat && (ev_keycode e =? code) then ev_state e =? KEY_PRESSED else down
  | _ => down
  end.

(** A run of calls as one key, down when [down], sees it: the key is alternately
    pressed and released; no capture begins or ends while it is down, unless a
    shortcut holds it; and its keyboard is not forgotten while a shortcut holds it. *)
Fixpoint calm (k : nat) (code : Z) (down : bool) (s : KeyBindingManager) (calls : list kbm_call) : Prop :=
  match calls with
  | [] => True
  | c :: calls =>
      let s' := (kbm_apply s c).1 in
      let down' := key_after k code down c in
      call_ok c /\
      match c with
      | CallKey k' _ e _ => k' = k -> ev_keycode e = code -> down' = negb down
      | CallForget k' => k' = k -> is_down k code s = false
      | _ => True
      end /\
      (down' = false \/ is_down k code s' = true \/ IsGrabbingKey s' = IsGrabbingKey s) /\
      calm k code down' s' calls
  end.

(** What a client knows of the key: it is down, no shortcut holds it and no
    capture takes its events. *)
Definition shown_down (k : nat) (code : Z) (down : bool) (s : KeyBindingManager) : bool :=
  down && negb (is_down k code s) && negb (IsGrabbingKey s).

Lemma HandleCapturedKey_consumes s k kb st e : keeps_active ->
  let '(s', consumed, _) := HandleCapturedKey run_capture s k kb st e in
  consumed = true /\ active_keys_ s' = active_keys_ s.
Proof.
  intros [_ Hq]. unfold HandleCapturedKey. destruct (xkb_state_key_get_syms _ _); [done|]. cbv zeta.
  destruct (capture_callback_ s); [|done]. destruct (ev_state e =? KEY_PRESSED).
  - destruct (_ || _); [done|]. destruct (BuildShortcut _); [done|]. rewrite Hq. by destruct s.
  - destruct (_ && _); [|done]. rewrite Hq. by destruct s.
Qed.

(** A key pressed outside a capture is consumed exactly when it is, or becomes, active. *)
Lemma HandleKey_press s k kb e inh :
  keeps_active -> NoDup (map pressed_key (active_keys_ s)) -> kb_xkb_state kb <> None ->
  ev_state e = KEY_PRESSED -> IsGrabbingKey s = false ->
  let '(s', consumed, _) := HandleKey run_action run_capture s (Some (k, kb)) e inh in
  NoDup (map pressed_key (active_keys_ s')) /\
  (forall k' code', (k', code') <> (k, ev_keycode e) -> is_down k' code' s' = is_down k' code' s) /\
  consumed = is_down k (ev_keycode e) s' /\ (is_down k (ev_keycode e) s = true -> consumed = true).
Proof.
  intros [Hq _] Hnd Hst He Hg. unfold HandleKey. destruct (kb_xkb_state kb) as [st|]; [|done].
  cbv zeta. pose proof (find_active_down k (ev_keycode e) s) as Hd.
  rewrite He, Hg. simpl Z.eqb. cbv iota. simpl negb. cbv iota.
  destruct (List.find (is_active _ _) _) as [a|] eqn:Ea.
  - rewrite bool_decide_eq_true_2 in Hd by done.
    destruct (List.find _ (bindings_ s)) as [b|]; [destruct (_ && _)|];
      try (split_and!; auto; by rewrite Hd).
    unfold is_down in *. rewrite (Hq (b_action b) s). split_and!; auto.
  - rewrite bool_decide_eq_false_2 in Hd by tauto.
    destruct (inh || _); [split_and!; auto; by rewrite Hd|].
    destruct (match_binding _ _ _) as [b|]; [|split_and!; auto; by rewrite Hd].
    pose proof (Hq (b_action b) s) as E1. set (s1 := run_action (b_action b) s) in *.
    assert (Ha : active_keys_ (set_active_keys (active_keys_ s1 ++
      [MkActiveKey k (ev_keycode e) (b_id b)]) s1) =
      active_keys_ s ++ [MkActiveKey k (ev_keycode e) (b_id b)])
      by (rewrite <- E1; by destruct s1).
    unfold is_down in *. rewrite Ha, map_app. split_and!; auto.
    + apply NoDup_app. split_and!; [done| |apply NoDup_singleton].
      intros x Hx [->|[]%elem_of_nil]%elem_of_cons. by apply find_none_pressed in Ea.
    + intros k' code' Hne. apply bool_decide_ext. rewrite elem_of_app.
      split; [intros [?|[?|[]%elem_of_nil]%elem_of_cons]; done|by left].
    + rewrite bool_decide_eq_true_2; [done|]. apply elem_of_app. right. left.
Qed.

(** One key event. Pressed in a capture, the key is consumed and no shortcut takes
    it; released, it is consumed exactly when a shortcut holds it or in a capture,
    and no shortcut holds it any more. *)
Lemma HandleKey_delivery s k kb e inh :
  keeps_active -> NoDup (map pressed_key (active_keys_ s)) -> call_ok (CallKey k kb e inh) ->
  let '(s', consumed, _) := HandleKey run_action run_capture s (Some (k, kb)) e inh in
  NoDup (map pressed_key (active_keys_ s')) /\
  (forall k' code', (k', code') <> (k, ev_keycode e) -> is_down k' code' s' = is_down k' code' s) /\
  (if ev_state e =? KEY_PRESSED
   then if IsGrabbingKey s then consumed = true /\ is_down k (ev_keycode e) s' = is_down k (ev_keycode e) s
        else consumed = is_down k (ev_keycode e) s' /\ (is_down k (ev_keycode e) s = true -> consumed = true)
   else consumed = is_down k (ev_keycode e) s || IsGrabbingKey s /\ is_down k (ev_keycode e) s' = false).
Proof.
  intros Hq Hnd [Hst He]. destruct (ev_state e =? KEY_PRESSED) eqn:Ep; [destruct (IsGrabbingKey s) eqn:Hg|].
  2: { apply HandleKey_press; auto; lia. }
  all: unfold HandleKey; destruct (kb_xkb_state kb) as [st|]; [|done]; cbv zeta;
    pose proof (find_active_down k (ev_keycode e) s) as Hd; pose proof (HandleCapturedKey_consumes s k kb st e Hq) as Hc.
  - apply Z.eqb_eq in Ep. rewrite Ep, Hg. simpl Z.eqb. cbv iota. simpl negb. cbv iota.
    destruct (HandleCapturedKey _ _ _ _ _ _) as [[s' c] ?]. destruct Hc as [-> Ea].
    unfold is_down. rewrite Ea. by split_and!.
  - assert (Er : ev_state e = KEY_RELEASED) by (apply Z.eqb_neq in Ep; by destruct He).
    rewrite Er. simpl Z.eqb. cbv iota. destruct (List.find (is_active _ _) _) as [a|] eqn:Ea.
    { by eapply release_active. }
    rewrite bool_decide_eq_false_2 in Hd by tauto. rewrite Hd.
    destruct (IsGrabbingKey s); [|by split_and!].
    destruct (HandleCapturedKey _ _ _ _ _ _) as [[s' c] ?]. destruct Hc as [-> Ea'].
    unfold is_down in *. rewrite Ea'. by split_and!.
Qed.

(** The other calls leave active keys alone, apart from forgetting a keyboard. *)
Lemma kbm_apply_active s c k code :
  (forall k kb e inh, c <> CallKey k kb e inh) -> (forall k', c = CallForget k' -> k' = k -> is_down k code s = false) ->
  NoDup (map pressed_key (active_keys_ s)) ->
  NoDup (map pressed_key (active_keys_ (kbm_apply s c).1)) /\
  is_down k code (kbm_apply s c).1 = is_down k code s /\ (kbm_apply s c).2 = None.
Proof.
  intros Hc Hf Hnd.
  assert (Hsame : active_keys_ (kbm_apply s c).1 = active_keys_ s -> (kbm_apply s c).2 = None ->
    NoDup (map pressed_key (active_keys_ (kbm_apply s c).1)) /\
    is_down k code (kbm_apply s c).1 = is_down k code s /\ (kbm_apply s c).2 = None)
    by (unfold is_down; by intros -> ->).
  destruct c as [k1 kb e inh|t ty a d|id t d|id|b|ty b|cb| |k']; simpl in *.
  1: by destruct (Hc k1 kb e inh).
  8: { apply forget_active; [done|]. intros ->. by eapply Hf. }
  all: apply Hsame; [|done].
  - unfold Register. destruct (ParseShortcut t), a as [a|]; try done.
    destruct (_ <=? _)%nat; [done|]. destruct (existsb _ _); [done|]. by destruct s.
  - unfold Update. destruct (ParseShortcut t); [|done]. destruct (List.find _ _); [|done].
    destruct (existsb _ _); [done|]. by destruct s.
  - by destruct s.
  - by destruct s.
  - unfold BlockType. cbv zeta. destruct (type_block_counts_ s !! _); [|done]. by destruct s.
  - by destruct s.
  - by destruct s.
Qed.

End Delivery.

Lemma presses_app k code l l' : presses k code (l ++ l') = presses k code l ++ presses k code l'.
Proof. apply omap_app. Qed.

Lemma presses_one k code k' e : presses k code [(k', e)] =
  if (k' =? k)%nat && (ev_keycode e =? code) then [ev_state e =? KEY_PRESSED] else [].
Proof. simpl. by destruct (_ && _). Qed.

(** One call, seen from one key: the output can be continued from what the client
    knows of the key afterwards. *)
Lemma kbm_apply_alternates `{Xkb} run_action run_capture (Hq : keeps_active run_action run_capture)
    s c calls k code down :
  NoDup (map pressed_key (active_keys_ s)) -> (is_down k code s = true -> down = true) ->
  calm run_action run_capture k code down s (c :: calls) ->
  let '(s', out) := kbm_apply run_action run_capture s c in
  let down' := key_after k code down c in
  NoDup (map pressed_key (active_keys_ s')) /\ (is_down k code s' = true -> down' = true) /\
  forall rest, alternates (shown_down k code down' s') rest ->
    alternates (shown_down k code down s) (presses k code (option_list out) ++ rest).
Proof.
  intros Hnd Hdown (Hc & Hcase & Hcalm & _).
  assert (Hkey : (exists k kb e inh, c = CallKey k kb e inh) \/
    (forall k kb e inh, c <> CallKey k kb e inh) /\ key_after k code down c = down) by (destruct c; eauto 6).
  destruct Hkey as [(k' & kb & e & inh & ->)|[Hnk Ea]].
  2: { destruct (kbm_apply_active run_action run_capture s c k code) as (E1 & E2 & E3);
      [done|intros k' ->; exact Hcase|done|].
    rewrite Ea in *. destruct (kbm_apply _ _ _ _) as [s' out]. simpl in *. subst out. rewrite E2 in *.
    split_and!; try done. intros rest. unfold shown_down. simpl. rewrite E2.
    destruct down, (is_down k code s); simpl; try done. by destruct Hcalm as [? | [? | ->] ]. }
  pose proof (HandleKey_delivery run_action run_capture s k' kb e inh Hq Hnd Hc) as Hd.
  cbn [kbm_apply key_after] in *. destruct (HandleKey _ _ _ _ _ _) as [[s' consumed] effs]. simpl in Hcalm.
  destruct Hd as (Hnd' & Hoth & Hthis). split; [done|]. unfold shown_down.
  assert (Eo : presses k code (option_list (if consumed then None else Some (k', e))) =
    if negb consumed && ((k' =? k)%nat && (ev_keycode e =? code)) then [ev_state e =? KEY_PRESSED] else [])
    by (destruct consumed; [done|apply presses_one]).
  rewrite Eo. clear Eo. destruct ((k' =? k)%nat && (ev_keycode e =? code)) eqn:Ek.
  - assert (k' = k /\ ev_keycode e = code) as [-> <-] by lia. specialize (Hcase eq_refl eq_refl).
    rewrite Hcase in *. destruct down, (IsGrabbingKey s), (IsGrabbingKey s'), consumed,
      (is_down k (ev_keycode e) s), (is_down k (ev_keycode e) s'); naive_solver.
  - rewrite andb_false_r, Hoth in * by (intros [= -> ->]; lia). split; [done|].
    simpl. destruct down, (is_down k code s); simpl in *; try done. by destruct Hcalm as [? | [? | ->] ].
Qed.

(** C4. Clients never see half of a key stroke: if a physical key is alternately
    pressed and released, then the part of its events that shortcuts and captures
    let through is also alternately pressed and released, whatever bindings are
    registered, changed, removed, blocked or inhibited in between and whatever
    captures come and go, provided that no capture begins or ends while the key is
    down (one a shortcut holds apart) and that its keyboard is not removed while a
    shortcut holds it. *)
Theorem client_keys_balanced `{Xkb} run_action run_capture (Hq : keeps_active run_action run_capture)
  (s : KeyBindingManager) (calls : list kbm_call) (k : nat) (code : Z) (down : bool)
  (Hnd : NoDup (map pressed_key (active_keys_ s))) (Hdown : is_down k code s = true -> down = true)
  (Hcalm : calm run_action run_capture k code down s calls) :
  alternates (down && negb (is_down k code s) && negb (IsGrabbingKey s))
    (presses k code (kbm_deliver run_action run_capture s calls)).
Proof.
  revert s down Hnd Hdown Hcalm. induction calls as [|c calls IH]; intros s down Hnd Hdown Hcalm; [done|].
  pose proof (kbm_apply_alternates run_action run_capture Hq s c calls k code down Hnd Hdown Hcalm) as Hs.
  destruct Hcalm as (_ & _ & _ & Hcalm). cbn [kbm_deliver].
  destruct (kbm_apply run_action run_capture s c) as [s' out].
  destruct Hs as (Hnd' & Hd' & Hk). rewrite presses_app. apply Hk. by apply IH.
Qed.

(** Holding Ctrl+Alt+Win and tapping h twice, with the binding removed while h
    is down the first time; then a capture of h, and h typed once more. *)
Definition demo_calls : list kbm_call :=
  let kb := (demo_keyboard 76).2 in
  [CallKey 1 kb (demo_press 36) false; CallUnregister 1;
   CallKey 1 kb (demo_release 36) false;
   CallKey 1 kb (demo_press 36) false; CallKey 1 kb (demo_release 36) false;
   CallGrab (Some 3%nat); CallKey 1 kb (demo_press 36) false; CallKey 1 kb (demo_release 36) false;
   CallKey 1 kb (demo_press 36) false].

Lemma client_keys_balanced_witness :
  alternates false (presses 1 36 (kbm_deliver (fun _ s => s) (fun _ _ _ s => s) demo_manager demo_calls)) /\
  presses 1 36 (kbm_deliver (fun _ s => s) (fun _ _ _ s => s) demo_manager demo_calls) = [true; false; true].
Proof.
  split; [|reflexivity].
  apply (client_keys_balanced (fun _ s => s) (fun _ _ _ s => s) (conj (fun _ _ => eq_refl) (fun _ _ _ _ => eq_refl))
    demo_manager demo_calls 1 36 false).
  - constructor.
  - done.
  - unfold demo_calls. repeat (split; [first [done | by split; [|left] | by split; [|right]]|];
      split; [done|]; split; [first [by left | by right; left | by right; right]|]). done.
Defined.

(** Without the proviso half strokes are seen: a capture begun while h is down
    swallows its release. *)
Example capture_swallows_release :
  let kb := (demo_keyboard 0).2 in
  presses 1 36 (kbm_deliver (fun _ s => s) (fun _ _ _ s => s) demo_manager
    [CallKey 1 kb (demo_press 36) false; CallGrab (Some 3%nat); CallKey 1 kb (demo_release 36) false]) = [true].
Proof. reflexivity. Qed.

(** A captured chord leaves half a stroke of its modifier: Ctrl is pressed and h tapped
    in the capture, which ends with h's release, and Ctrl's release is delivered. *)
Example capture_leaks_modifier :
  let kb := (demo_keyboard 4).2 in
  presses 1 29 (kbm_deliver (fun _ s => s) (fun _ _ _ s => s) demo_manager
    [CallGrab (Some 3%nat); CallKey 1 kb (demo_press 29) false; CallKey 1 kb (demo_press 36) false;
     CallKey 1 kb (demo_release 36) false; CallKey 1 kb (demo_release 29) false]) = [false].
Proof. reflexivity. Qed.

(** ** Modifiers *)

(** A binding's modifiers match when all of them are held and every other
    held modifier is Caps Lock or Num Lock (bits 1 and 4): lock keys never
    prevent a shortcut, unless the shortcut names them. *)
Theorem ModifiersMatch_bits (active required : Z) :
  ModifiersMatch active required = true <->
  forall i, 0 <= i ->
    (Z.testbit required i = true -> Z.testbit active i = true) /\
    (Z.testbit active i = true -> Z.testbit required i = true \/ i = 1 \/ i = 4).
Proof.
  unfold ModifiersMatch. rewrite Z.eqb_eq.
  assert (Hb : forall i, 0 <= i ->
    Z.testbit (Z.land active (Z.lnot (Z.land (Z.lor WLR_MODIFIER_CAPS WLR_MODIFIER_MOD2)
      (Z.lnot required)))) i =
    Z.testbit active i && negb (((i =? 1) || (i =? 4)) && negb (Z.testbit required i))).
  { intros i Hi. rewrite Z.land_spec, Z.lnot_spec, Z.land_spec, Z.lnot_spec, Z.lor_spec by lia.
    unfold WLR_MODIFIER_CAPS, WLR_MODIFIER_MOD2. rewrite !Z.shiftl_1_l, !Z.pow2_bits_eqb by lia.
    by rewrite (Z.eqb_sym 1), (Z.eqb_sym 4). }
  split.
  - intros E i Hi. specialize (Hb i Hi). rewrite E in Hb.
    destruct (Z.testbit active i), (Z.testbit required i); split; try done; lia.
  - intros Hall. apply Z.bits_inj'. intros i Hi. rewrite Hb by done.
    destruct (Hall i Hi) as [H1 H2].
    destruct (Z.testbit active i), (Z.testbit required i); simpl in *; try lia; auto.
Qed.

(** ** Printing and parsing *)

(** A character that separates nothing. *)
Definition plain_char (c : Ascii.ascii) : bool :=
  negb (isspace c) && negb (Ascii.eqb c PLUS) && negb (Ascii.eqb c COLON).

(** What libxkbcommon documents of the name [n] of a lower-case keysym [k]:
    looking the name up gives the keysym back. Names hold no separators. *)
Record keysym_named `{Xkb} (k : Z) (n : str) : Prop := {
  kn_sym : k <> XKB_KEY_NoSymbol;
  kn_lower : xkb_keysym_to_lower k = k;
  kn_name : xkb_keysym_get_name k = Some n;
  kn_back : xkb_keysym_to_lower (xkb_keysym_from_name n) = k;
  kn_plain : forallb plain_char n = true;
  kn_nonempty : n <> [] }.

Section RoundTrip.

Lemma plain_char_spec c : plain_char c = true <->
  isspace c = false /\ Ascii.eqb c PLUS = false /\ Ascii.eqb c COLON = false.
Proof. unfold plain_char. rewrite !andb_true_iff, !negb_true_iff. tauto. Qed.

Lemma drop_spaces_plain s : forallb plain_char s = true -> drop_spaces s = s.
Proof.
  destruct s as [|c s]; [done|]. cbn [forallb drop_spaces]. intros [Hc _]%andb_true_iff.
  apply plain_char_spec in Hc as [-> _]. done.
Qed.

Lemma Trim_plain s : forallb plain_char s = true -> Trim s = s.
Proof.
  intros Hs. unfold Trim. rewrite (drop_spaces_plain s) by done.
  rewrite drop_spaces_plain; [apply rev_involutive|].
  apply forallb_forall. intros c Hc. apply in_rev in Hc. rewrite forallb_forall in Hs. by apply Hs.
Qed.

(** Text of plain parts joined by '+'. *)
Fixpoint join (parts : list str) : str :=
  match parts with
  | [] => []
  | [p] => p
  | p :: rest => p ++ PLUS :: join rest
  end.

Definition part_ok (p : str) : Prop := forallb plain_char p = true /\ p <> [].

Lemma join_cons p q rest : join (p :: q :: rest) = p ++ PLUS :: join (q :: rest).
Proof. done. Qed.

Lemma split_plus_plain p s :
  forallb plain_char p = true -> split_plus (p ++ PLUS :: s) = p :: split_plus s.
Proof.
  induction p as [|c p IH]; [done|]. cbn [app split_plus forallb]. intros [Hc Hp]%andb_true_iff.
  apply plain_char_spec in Hc as (_ & -> & _). by rewrite IH.
Qed.

Lemma split_plus_last p : forallb plain_char p = true -> split_plus p = [p].
Proof.
  induction p as [|c p IH]; [done|]. cbn [split_plus forallb]. intros [Hc Hp]%andb_true_iff.
  apply plain_char_spec in Hc as (_ & -> & _). by rewrite IH.
Qed.

Lemma split_plus_join parts : parts <> [] -> Forall part_ok parts -> split_plus (join parts) = parts.
Proof.
  intros Hne Hok. induction Hok as [|p parts [Hp _] _ IH]; [done|].
  destruct parts as [|q rest]; [by apply split_plus_last|].
  rewrite join_cons, split_plus_plain by done. f_equal. by apply IH.
Qed.

Lemma rsplit_colon_none s : Forall (fun c => c <> COLON) s -> rsplit_colon s = None.
Proof.
  induction 1 as [|c s Hc _ IH]; [done|]. simpl. rewrite IH.
  by destruct (Ascii.eqb_spec c COLON).
Qed.

Lemma join_chars parts (P : Ascii.ascii -> Prop) :
  P PLUS -> Forall (Forall P) parts -> Forall P (join parts).
Proof.
  intros HP Hok. induction Hok as [|p parts Hp _ IH]; [constructor|].
  destruct parts as [|q rest]; [done|]. rewrite join_cons.
  apply Forall_app. split; [done|]. by constructor.
Qed.

Lemma join_first_last parts : parts <> [] -> Forall part_ok parts ->
  (exists c s, join parts = c :: s /\ isspace c = false) /\
  (exists c s, rev (join parts) = c :: s /\ isspace c = false).
Proof.
  intros Hne Hok. split.
  - destruct Hok as [|p parts [Hp Hn] _]; [done|]. destruct p as [|c p]; [done|]. simpl in Hp.
    exists c. apply andb_true_iff in Hp as [[Hsp _]%plain_char_spec _].
    destruct parts as [|q rest]; [by exists p|]. rewrite join_cons. by eexists.
  - induction Hok as [|p parts [Hp Hn] _ IH]; [done|]. destruct parts as [|q rest].
    + simpl. destruct (rev p) as [|c s] eqn:E.
      { destruct Hn. apply (f_equal (@rev _)) in E. by rewrite rev_involutive in E. }
      exists c, s. split; [done|]. rewrite forallb_forall in Hp.
      assert (Hc : plain_char c = true) by (apply Hp, in_rev; rewrite E; by left).
      by apply plain_char_spec in Hc as [? _].
    + destruct IH as (c & s & E & Hc); [done|]. rewrite join_cons, rev_app_distr.
      cbn [rev]. rewrite E. by exists c, ((s ++ [PLUS]) ++ rev p).
Qed.

Lemma Trim_join parts : parts <> [] -> Forall part_ok parts -> Trim (join parts) = join parts.
Proof.
  intros Hne Hok. destruct (join_first_last parts Hne Hok) as [(c & s & E & Hc) (c' & s' & E' & Hc')].
  unfold Trim. assert (E1 : drop_spaces (join parts) = join parts) by (rewrite E; simpl; by rewrite Hc).
  rewrite E1, E'. simpl. rewrite Hc', <- E'. apply rev_involutive.
Qed.

Lemma foldl_append_part names acc : acc <> [] ->
  foldl append_part acc names = join (acc :: names).
Proof.
  revert acc. induction names as [|n names IH]; intros acc Hacc; [done|].
  simpl foldl. rewrite IH.
  - destruct acc as [|c acc]; [done|]. unfold append_part. destruct names as [|m names]; simpl.
    + by rewrite <- app_assoc.
    + by rewrite <- !app_assoc.
  - destruct acc as [|c acc]; done.
Qed.

Lemma foldl_append_join names : Forall (fun n => n <> []) names ->
  foldl append_part [] names = join names.
Proof.
  intros [|n names' Hn _]; [done|]. simpl foldl. by apply (foldl_append_part _ n).
Qed.

Definition held_modifiers (m : Z) : list (Z * str) :=
  List.filter (fun e => has_flag m e.1) printed_modifiers.

Lemma BuildShortcut_join `{Xkb} m k n nr :
  keysym_named k n ->
  BuildShortcut (Parsed m k nr) = join (map snd (held_modifiers m) ++ [n]).
Proof.
  intros Hk. unfold BuildShortcut. simpl ps_keysym. simpl ps_modifiers.
  rewrite (kn_lower _ _ Hk), (kn_name _ _ Hk).
  assert (E : forall l acc, foldl (fun s '(modifier, name) =>
      if has_flag m modifier then append_part s name else s) acc l =
    foldl append_part acc (map snd (List.filter (fun e : Z * str => has_flag m e.1) l))).
  { induction l as [|[md nm] l IH]; intros acc; [done|]. simpl.
    destruct (has_flag m md); simpl; apply IH. }
  rewrite E. fold (held_modifiers m).
  transitivity (foldl append_part [] (map snd (held_modifiers m) ++ [n])); [by rewrite foldl_app|].
  apply foldl_append_join. apply Forall_app. split; [|repeat constructor; apply Hk].
  apply Forall_map, Forall_forall. intros [md nm] Hin%filter_mem. simpl.
  repeat (apply elem_of_cons in Hin as [[= _ ->]|Hin]; [done|]). by apply elem_of_nil in Hin.
Qed.

(** The printed modifiers are read back one by one. *)
Lemma parse_parts_modifiers `{Xkb} (l : list (Z * str)) acc ks nr rest :
  Forall (fun e => part_ok e.2 /\ ModifierForName e.2 = Some e.1 /\ 0 <= e.1) l ->
  ForallOrdPairs (fun e e' => Z.land e.1 e'.1 = 0) l ->
  Forall (fun e => Z.land acc e.1 = 0) l -> rest <> [] ->
  parse_parts (map snd l ++ rest) (Parsed acc ks nr) =
  parse_parts rest (Parsed (foldl Z.lor acc (map fst l)) ks nr).
Proof.
  intros Hl Hp Ha Hr. revert acc Ha.
  induction l as [|[md nm] l IH]; intros acc Ha; [done|].
  inversion Hl as [|? ? [[Hpl Hn] [Hm Hpos]] Hl']; inversion Hp as [|? ? Hd Hp'];
    inversion Ha as [|? ? Ha0 Ha']; subst. simpl in *.
  rewrite Trim_plain by done. destruct nm as [|c nm]; [done|].
  unfold parse_part. rewrite Hm. simpl ps_modifiers. unfold has_flag. rewrite Ha0. simpl.
  apply IH; auto. apply Forall_forall. intros e He.
  rewrite Z.land_lor_distr_l. rewrite Forall_forall in Ha', Hd.
  by rewrite (Ha' e He), (Hd e He).
Qed.

Lemma printed_modifiers_ok : Forall (fun e : Z * str =>
  part_ok e.2 /\ ModifierForName e.2 = Some e.1 /\ 0 <= e.1) printed_modifiers.
Proof. repeat constructor; done. Qed.

Lemma held_modifiers_mask m : 0 <= m < 256 ->
  foldl Z.lor 0 (map fst (held_modifiers m)) = m /\
  ForallOrdPairs (fun e e' => Z.land e.1 e'.1 = 0) (held_modifiers m).
Proof.
  intros Hm. split.
  - assert (Hall : forallb (fun i => foldl Z.lor 0 (map fst (held_modifiers (Z.of_nat i)))
      =? Z.of_nat i) (seq 0 256) = true) by (vm_compute; reflexivity).
    rewrite forallb_forall in Hall. specialize (Hall (Z.to_nat m)).
    rewrite Z2Nat.id in Hall by lia. apply Z.eqb_eq, Hall, in_seq. lia.
  - assert (Hp : ForallOrdPairs (fun e e' : Z * str => Z.land e.1 e'.1 = 0) printed_modifiers)
      by (repeat constructor; done).
    unfold held_modifiers. induction Hp as [|e l Hd _ IH]; [constructor|]. simpl.
    destruct (has_flag m e.1); [|done]. constructor; [|done].
    apply Forall_forall. intros x Hx%filter_mem. rewrite Forall_forall in Hd. by apply Hd.
Qed.

End RoundTrip.

Lemma parse_build `{Xkb} (m k : Z) (n : str) (nr : bool) (Hm : 0 <= m < 256)
  (Hk : keysym_named k n) (Hn : ModifierForName n = None) :
  ParseShortcut (BuildShortcut (Parsed m k nr)) = Some (Parsed m k false).
Proof.
  rewrite (BuildShortcut_join _ _ n) by done. set (parts := map snd (held_modifiers m) ++ [n]).
  destruct (held_modifiers_mask m Hm) as [Hmask Hpairs].
  assert (Hheld : Forall (fun e : Z * str =>
    part_ok e.2 /\ ModifierForName e.2 = Some e.1 /\ 0 <= e.1) (held_modifiers m)).
  { apply Forall_forall. intros e He%filter_mem.
    pose proof printed_modifiers_ok as Hp. rewrite Forall_forall in Hp. by apply Hp. }
  assert (Hok : Forall part_ok parts).
  { apply Forall_app. split; [|constructor; [split; apply Hk|constructor]].
    apply Forall_map. eapply Forall_impl; [exact Hheld|]. by intros e [? _]. }
  assert (Hne : parts <> []) by (unfold parts; by destruct (held_modifiers m)).
  assert (Hcol : rsplit_colon (join parts) = None).
  { apply rsplit_colon_none, join_chars; [done|]. eapply Forall_impl; [exact Hok|].
    intros p [Hp _]. apply Forall_forall. intros c Hc ->. rewrite forallb_forall in Hp.
    apply list_elem_of_In, Hp in Hc. done. }
  unfold ParseShortcut. rewrite Trim_join, Hcol by done. cbn [mbind option_bind].
  destruct (join_first_last parts Hne Hok) as [(c & s & E & _) _].
  rewrite E, <- E. rewrite split_plus_join by done. unfold parts.
  rewrite parse_parts_modifiers; [|done|done|by apply Forall_forall|done].
  rewrite Hmask. simpl. rewrite Trim_plain by apply Hk. pose proof (kn_nonempty _ _ Hk) as Hnn.
  destruct n as [|c' n]; [done|]. unfold parse_part. rewrite Hn. simpl.
  rewrite (kn_back _ _ Hk). pose proof (kn_sym _ _ Hk) as Hs. apply Z.eqb_neq in Hs.
  rewrite Hs. cbn [mbind option_bind]. unfold parse_end. simpl. by rewrite Hs.
Qed.

(** C37. Printing a shortcut and parsing it again: for every combination of modifiers
    and every lower-case keysym that libxkbcommon has a name for, provided that the
    name holds no separator and is looked up to that keysym again ([keysym_named]) and
    that it is not also the name of a modifier, parsing the printed shortcut gives back
    the same key and modifiers. Captured shortcuts outside of these conditions need not
    be registrable, as the key ISO_Level3_Shift shows
    ([captured_level3_unregistrable]), and reading back does not mean that key handling
    ever looks the keysym up ([captured_back_tab_dead]). *)
Theorem shortcut_roundtrip `{Xkb} (m k : Z) (n : str) (nr : bool) (Hm : 0 <= m < 256)
  (Hk : keysym_named k n) (Hn : ModifierForName n = None) :
  ParseShortcut (BuildShortcut (Parsed m k nr)) = Some (Parsed m k false).
Proof. by eapply parse_build. Qed.

Lemma shortcut_roundtrip_witness :
  ParseShortcut (txt "Ctrl+Alt+Win+h") = Some (Parsed 76 0x68 false).
Proof.
  change (txt "Ctrl+Alt+Win+h") with (BuildShortcut (Parsed 76 0x68 false)).
  apply (shortcut_roundtrip 76 0x68 (txt "h") false); [lia|by split|done].
Defined.

(** ** Capturing *)

(** A capture reports exactly one key: with a callback waiting, pressing an
    unclaimed key that is not a modifier calls it with the shortcut's text,
    releasing that key calls it again with the same text and ends the capture,
    both events are consumed, no action runs, and the manager is as before the
    capture. *)
Theorem key_capture_session `{Xkb} run_action (s : KeyBindingManager) (cb k : nat)
  (kb kb' : wlr_keyboard) (st st' : xkb_state) (time time' code : Z) (up up' inh inh' : bool)
  (sym sym' : Z) (syms syms' : list Z) (c : Ascii.ascii) (text : str)
  (Hfree : List.find (is_active k code) (active_keys_ s) = None)
  (Hst : kb_xkb_state kb = Some st) (Hst' : kb_xkb_state kb' = Some st')
  (Hsym : xkb_state_key_get_syms st (u32 (code + 8)) = sym :: syms)
  (Hsym' : xkb_state_key_get_syms st' (u32 (code + 8)) = sym' :: syms')
  (Hmod : IsModifierKeysym (xkb_keysym_to_lower sym) = false)
  (Htext : BuildShortcut (Parsed (wlr_keyboard_get_modifiers kb) (xkb_keysym_to_lower sym) false)
           = c :: text) :
  let idle := fun (_ : nat) (_ : bool) (_ : str) s => s in
  exists s1,
    HandleKey run_action idle (GrabNextKey s (Some cb)) (Some (k, kb))
      (KeyEvent time code up KEY_PRESSED) inh = (s1, true, [RunCapture cb true (c :: text)]) /\
    HandleKey run_action idle s1 (Some (k, kb')) (KeyEvent time' code up' KEY_RELEASED) inh' =
      (CancelGrab s, true, [RunCapture cb false (c :: text)]).
Proof.
  cbv zeta. exists (set_capture (Some cb) (Some k) code (c :: text) s). unfold HandleKey.
  rewrite Hst, Hst'. destruct s as [bs aks cs nx bc cc ck kc cs']. simpl in *.
  unfold HandleCapturedKey. simpl. rewrite Hfree, Hsym, Hsym', Hmod, Htext. simpl.
  rewrite bool_decide_eq_true_2, Z.eqb_refl by done. done.
Qed.

Lemma key_capture_session_witness : exists s1,
  HandleKey (fun _ s => s) (fun _ _ _ s => s) (GrabNextKey demo_manager (Some 3%nat))
    (Some (demo_keyboard 76)) (demo_press 36) false =
    (s1, true, [RunCapture 3 true (txt "Ctrl+Alt+Win+h")]) /\
  HandleKey (fun _ s => s) (fun _ _ _ s => s) s1 (Some (demo_keyboard 76)) (demo_release 36) false =
    (CancelGrab demo_manager, true, [RunCapture 3 false (txt "Ctrl+Alt+Win+h")]).
Proof.
  apply (key_capture_session (fun _ s => s) demo_manager 3 1 (demo_keyboard 76).2
    (demo_keyboard 76).2 76 76 0 0 36 true true false false 0x68 0x68 [] []); reflexivity.
Defined.

(** A captured Shift+Tab is a dead shortcut. The layout turns Shift+Tab into
    the keysym ISO_Left_Tab; the capture prints that name and registering the
    text succeeds with that keysym, but key handling rewrites ISO_Left_Tab to
    Tab before looking bindings up, so no key event ever selects a binding on
    ISO_Left_Tab. The hypothesis on the lower-case mapping says that no other
    keysym has ISO_Left_Tab as its lower case. *)
Theorem captured_back_tab_dead `{Xkb} (m : Z) (n : str) (Hm : 0 <= m < 256)
  (Hk : keysym_named XKB_KEY_ISO_Left_Tab n) (Hn : ModifierForName n = None)
  (Hlow : forall k, xkb_keysym_to_lower k = XKB_KEY_ISO_Left_Tab -> k = XKB_KEY_ISO_Left_Tab) :
  ParseShortcut (BuildShortcut (Parsed m XKB_KEY_ISO_Left_Tab false)) =
    Some (Parsed m XKB_KEY_ISO_Left_Tab false) /\
  forall s mods syms b, match_binding s mods syms = Some b ->
    ps_keysym (b_parsed b) <> XKB_KEY_ISO_Left_Tab.
Proof.
  split; [by eapply parse_build|].
  intros s mods syms b (_ & _ & _ & sym & _ & E)%match_binding_spec E'. rewrite E' in E.
  destruct (Z.eqb_spec sym XKB_KEY_ISO_Left_Tab) as [_|Hne]; [done|].
  by apply Hne, Hlow.
Qed.

Lemma captured_back_tab_dead_witness :
  ParseShortcut (txt "Shift+ISO_Left_Tab") = Some (Parsed 1 XKB_KEY_ISO_Left_Tab false) /\
  forall s mods syms b, match_binding s mods syms = Some b ->
    ps_keysym (b_parsed b) <> XKB_KEY_ISO_Left_Tab.
Proof.
  change (txt "Shift+ISO_Left_Tab") with (BuildShortcut (Parsed 1 XKB_KEY_ISO_Left_Tab false)).
  apply (captured_back_tab_dead 1 (txt "ISO_Left_Tab")); [lia|by split|done|done].
Defined.

(** Pressing Shift+Tab with "Shift+ISO_Left_Tab" bound runs nothing, with
    "Shift+Tab" bound it runs the action. *)
Example back_tab_example :
  let handle t := (HandleKey (fun _ s => s) (fun _ _ _ s => s)
    (Register kbm_init (txt t) kCustom (Some 9%nat) []).1
    (Some (demo_keyboard 1)) (demo_press 15) false).2 in
  handle "Shift+ISO_Left_Tab"%string = [] /\ handle "Shift+Tab"%string = [RunAction 9].
Proof. split; reflexivity. Qed.

(** The key ISO_Level3_Shift can be captured but not registered: it is not
    in the list of modifier keysyms, so a capture reports it, yet its printed
    name reads back as the modifier Mod5 and the parser finds no key. *)
Theorem captured_level3_unregistrable `{Xkb} (s : KeyBindingManager) (type : KeyBindingType)
  (action : option nat) (description : str)
  (Hlow : xkb_keysym_to_lower XKB_KEY_ISO_Level3_Shift = XKB_KEY_ISO_Level3_Shift)
  (Hname : xkb_keysym_get_name XKB_KEY_ISO_Level3_Shift = Some (txt "ISO_Level3_Shift")) :
  IsModifierKeysym XKB_KEY_ISO_Level3_Shift = false /\
  BuildShortcut (Parsed 0 XKB_KEY_ISO_Level3_Shift false) = txt "ISO_Level3_Shift" /\
  Register s (txt "ISO_Level3_Shift") type action description = (s, None).
Proof.
  split_and!; [done| |done]. unfold BuildShortcut. simpl ps_keysym. rewrite Hlow, Hname. done.
Qed.

Lemma captured_level3_unregistrable_witness :
  BuildShortcut (Parsed 0 XKB_KEY_ISO_Level3_Shift false) = txt "ISO_Level3_Shift" /\
  Register kbm_init (txt "ISO_Level3_Shift") kCustom (Some 1%nat) [] = (kbm_init, None).
Proof. apply (captured_level3_unregistrable kbm_init kCustom (Some 1%nat) []); reflexivity. Defined.
