(* ===== verification/Ssd.v ===== *)
(** * Server-side decorations

    Models the geometry and hit testing of src/src/view/ssd/ssd/ssd.h and
    ssd.cc: the frame around a client's content, the content inside a frame,
    and what part of the decoration a point of the window belongs to. Painting
    (the renderer, the shadow) is not modelled; whether the renderer can be
    resized is the function [resize_ok], and the scene tree of the decoration is
    the record [ssd_tree]. Coordinates of the pointer are rationals. *)

From S2P Require Import Prelude Box.

Definition kTitlebarHeight : Z := 40.
Definition kBorderWidth : Z := 1.
Definition kButtonWidth : Z := 40.

Definition WLR_EDGE_TOP : Z := Z.shiftl 1 0.
Definition WLR_EDGE_BOTTOM : Z := Z.shiftl 1 1.
Definition WLR_EDGE_LEFT : Z := Z.shiftl 1 2.
Definition WLR_EDGE_RIGHT : Z := Z.shiftl 1 3.

Inductive Part := kNone | kTitlebar | kMinimize | kMaximize | kClose | kResize.

Record HitTarget := Hit { hit_part : Part; hit_edges : Z }.

(** The decoration's scene tree: whether it is shown and where its titlebar is. *)
Record ssd_tree := SsdTree { tree_enabled : bool; titlebar_x : Z; titlebar_y : Z }.

Record Ssd := MkSsd {
  tree_ : option ssd_tree;
  client_geometry_ : wlr_box;
  active_ : bool;
  maximized_ : bool;
  tiled_ : bool;
  dialog_ : bool;
  can_minimize_ : bool;
  can_maximize_ : bool }.

#[export] Instance ssd_fields : Fields Ssd := {| rebuild := fun s =>
  MkSsd (tree_ s) (client_geometry_ s) (active_ s) (maximized_ s) (tiled_ s) (dialog_ s)
    (can_minimize_ s) (can_maximize_ s) |}.

(** [Create] with a renderer that works: a disabled-looking tree of its own. *)
Definition ssd_new : Ssd :=
  MkSsd (Some (SsdTree true 0 0)) zero_box false false false false true true.

Definition BorderWidth (s : Ssd) : Z := if maximized_ s || tiled_ s then 0 else kBorderWidth.
Definition TitlebarHeight (s : Ssd) : Z := kTitlebarHeight.

Definition FrameGeometry (s : Ssd) (client : wlr_box) : wlr_box :=
  let border := BorderWidth s in
  Box (box_x client - border) (box_y client - kTitlebarHeight - border)
    (box_width client + border * 2) (box_height client + kTitlebarHeight + border * 2).

Definition ContentGeometry (s : Ssd) (frame : wlr_box) : wlr_box :=
  let border := BorderWidth s in
  Box (box_x frame + border) (box_y frame + kTitlebarHeight + border)
    (Z.max 1 (box_width frame - border * 2))
    (Z.max 1 (box_height frame - kTitlebarHeight - border * 2)).

(** [a < b] and [a >= b] between a pointer coordinate and an [int]. *)
Definition qlt (a : Q) (b : Z) : bool := Qltb a (inject_Z b).
Definition qge (a : Q) (b : Z) : bool := negb (qlt a b).

Definition border_edges (frame : wlr_box) (border : Z) (x y : Q) : Z :=
  Z.lor
    (if qlt x (box_x frame + border) then WLR_EDGE_LEFT
     else if qge x (box_x frame + box_width frame - border) then WLR_EDGE_RIGHT else 0)
    (if qlt y (box_y frame + border) then WLR_EDGE_TOP
     else if qge y (box_y frame + box_height frame - border) then WLR_EDGE_BOTTOM else 0).

(** The titlebar and its buttons, from the right: close, then maximize and
    minimize where the window has them. *)
Definition titlebar_part (s : Ssd) (close_x : Z) (x : Q) : HitTarget :=
  if qge x close_x then Hit kClose 0
  else
    let max_x := if can_maximize_ s then close_x - kButtonWidth else close_x in
    if can_maximize_ s && qge x max_x then Hit kMaximize 0
    else
      let min_x := if can_minimize_ s then max_x - kButtonWidth else max_x in
      if can_minimize_ s && qge x min_x then Hit kMinimize 0
      else Hit kTitlebar 0.

Definition HitTest (s : Ssd) (x y : Q) : HitTarget :=
  let frame := FrameGeometry s (client_geometry_ s) in
  if qlt x (box_x frame) || qlt y (box_y frame) || qge x (box_x frame + box_width frame) ||
     qge y (box_y frame + box_height frame)
  then Hit kNone 0
  else
    let border := BorderWidth s in
    let edges := border_edges frame border x y in
    if (border >? 0) && negb (edges =? 0) then Hit kResize edges
    else if qge y (box_y (client_geometry_ s)) then Hit kNone 0
    else titlebar_part s (box_x frame + box_width frame - border - kButtonWidth) x.

Section Arrange.
Variable resize_ok : Z -> Z -> bool.

Definition Arrange (s : Ssd) : Ssd :=
  match tree_ s with
  | None => s
  | Some t =>
      let g := client_geometry_ s in
      if (box_width g <=? 0) || (box_height g <=? 0) then
        s <{ tree_ := Some (SsdTree false (titlebar_x t) (titlebar_y t)) }>
      else
        s <{ tree_ := Some (SsdTree (resize_ok (box_width g) kTitlebarHeight)
                              (box_x g) (box_y g - kTitlebarHeight)) }>
  end.

Definition SetGeometry (s : Ssd) (g : wlr_box) : Ssd :=
  let c := client_geometry_ s in
  if (box_x c =? box_x g) && (box_y c =? box_y g) && (box_width c =? box_width g) &&
     (box_height c =? box_height g)
  then s else Arrange (s <{ client_geometry_ := g }>).

Definition SsdSetMaximized (s : Ssd) (maximized : bool) : Ssd :=
  if Bool.eqb (maximized_ s) maximized then s
  else Arrange (s <{ maximized_ := maximized }>).

Definition SetTiled (s : Ssd) (tiled : bool) : Ssd :=
  if Bool.eqb (tiled_ s) tiled then s else Arrange (s <{ tiled_ := tiled }>).

Definition SetDialog (s : Ssd) (dialog : bool) : Ssd :=
  if Bool.eqb (dialog_ s) dialog then s else Arrange (s <{ dialog_ := dialog }>).

End Arrange.

Definition SetActive (s : Ssd) (active : bool) : Ssd :=
  if Bool.eqb (active_ s) active then s else s <{ active_ := active }>.

Definition SetCapabilities (s : Ssd) (can_minimize can_maximize : bool) : Ssd :=
  s <{ can_minimize_ := can_minimize }> <{ can_maximize_ := can_maximize }>.

(** ** Geometry *)

Lemma BorderWidth_range s : 0 <= BorderWidth s <= 1.
Proof. unfold BorderWidth, kBorderWidth. case_ifs; lia. Qed.

Lemma content_of_frame s g :
  0 < box_width g -> 0 < box_height g -> ContentGeometry s (FrameGeometry s g) = g.
Proof.
  pose proof (BorderWidth_range s) as Hb. destruct g as [x y w h]. simpl. intros Hw Hh.
  unfold ContentGeometry, FrameGeometry, kTitlebarHeight. simpl. f_equal; lia.
Qed.

Lemma frame_of_content s f :
  BorderWidth s * 2 < box_width f -> kTitlebarHeight + BorderWidth s * 2 < box_height f ->
  FrameGeometry s (ContentGeometry s f) = f.
Proof.
  destruct f as [x y w h]. unfold ContentGeometry, FrameGeometry, kTitlebarHeight. simpl.
  intros Hw Hh. f_equal; lia.
Qed.

(** Decorating and undecorating are inverse: the content of the frame of a
    client is the client, and the frame of the content of a frame that leaves
    room for a border and a titlebar is that frame, in every state of the
    window. *)
Theorem ssd_geometry_roundtrip (s : Ssd) (g f : wlr_box)
  (Hg : 0 < box_width g /\ 0 < box_height g)
  (Hf : BorderWidth s * 2 < box_width f /\ kTitlebarHeight + BorderWidth s * 2 < box_height f) :
  ContentGeometry s (FrameGeometry s g) = g /\ FrameGeometry s (ContentGeometry s f) = f.
Proof. destruct Hg, Hf. split; [by apply content_of_frame|by apply frame_of_content]. Qed.

Lemma ssd_geometry_roundtrip_witness :
  ContentGeometry ssd_new (FrameGeometry ssd_new (Box 10 20 300 200)) = Box 10 20 300 200 /\
  FrameGeometry ssd_new (ContentGeometry ssd_new (Box 0 0 100 100)) = Box 0 0 100 100.
Proof. apply (ssd_geometry_roundtrip ssd_new); split; reflexivity. Defined.

(** ** Hit testing *)

Lemma qlt_spec a b : qlt a b = true <-> (a < inject_Z b)%Q.
Proof. apply Qltb_lt. Qed.
Lemma qge_spec a b : qge a b = true <-> (inject_Z b <= a)%Q.
Proof. unfold qge, qlt. rewrite negb_true_iff. apply Qltb_ge. Qed.
Lemma qge_qlt a b : qge a b = negb (qlt a b).
Proof. done. Qed.

Lemma qlt_mono a b c : b <= c -> qlt a b = true -> qlt a c = true.
Proof.
  rewrite !qlt_spec. intros Hbc Hab. eapply Qlt_le_trans; [exact Hab|]. by rewrite <- Zle_Qle.
Qed.

(** Both borders of an axis at once only if the frame is thinner than them. *)
Lemma border_edges_ok frame border x y :
  0 <= border -> border * 2 <= box_width frame -> border * 2 <= box_height frame ->
  let e := border_edges frame border x y in
  (has_flag e WLR_EDGE_LEFT = qlt x (box_x frame + border)) /\
  (has_flag e WLR_EDGE_RIGHT = qge x (box_x frame + box_width frame - border)) /\
  (has_flag e WLR_EDGE_TOP = qlt y (box_y frame + border)) /\
  (has_flag e WLR_EDGE_BOTTOM = qge y (box_y frame + box_height frame - border)).
Proof.
  intros Hb Hw Hh. cbv zeta. unfold border_edges. rewrite !qge_qlt.
  pose proof (qlt_mono x (box_x frame + border) (box_x frame + box_width frame - border) ltac:(lia)) as Hx.
  pose proof (qlt_mono y (box_y frame + border) (box_y frame + box_height frame - border) ltac:(lia)) as Hy.
  destruct (qlt x (box_x frame + border)), (qlt x (_ - border)), (qlt y (box_y frame + border)),
    (qlt y (_ - border)); try (specialize (Hx eq_refl)); try (specialize (Hy eq_refl)); done.
Qed.

Lemma titlebar_part_spec s close_x x :
  let h := titlebar_part s close_x x in
  hit_part h <> kNone /\ hit_part h <> kResize /\
  (hit_part h = kMaximize -> can_maximize_ s = true) /\
  (hit_part h = kMinimize -> can_minimize_ s = true).
Proof.
  cbv zeta. unfold titlebar_part. destruct (qge x close_x); [done|].
  destruct (can_maximize_ s), (can_minimize_ s); simpl; case_ifs; done.
Qed.

(** The edges of the border, in terms of the client geometry. *)
Lemma border_edges_client s x y :
  let g := client_geometry_ s in
  let f := FrameGeometry s g in
  let e := border_edges f (BorderWidth s) x y in
  0 < box_width g -> 0 < box_height g ->
  has_flag e WLR_EDGE_LEFT = qlt x (box_x g) /\
  has_flag e WLR_EDGE_RIGHT = qge x (box_x g + box_width g) /\
  (e =? 0) = negb (qlt x (box_x g) || qge x (box_x g + box_width g) ||
                   qlt y (box_y f + BorderWidth s) || qge y (box_y g + box_height g)).
Proof.
  cbv zeta. intros Hw Hh. pose proof (BorderWidth_range s) as Hb. set (g := client_geometry_ s) in *.
  set (f := FrameGeometry s g).
  assert (Ef : box_x f + BorderWidth s = box_x g /\
    box_x f + box_width f - BorderWidth s = box_x g + box_width g /\
    box_y f + box_height f - BorderWidth s = box_y g + box_height g).
  { unfold f, FrameGeometry. simpl. lia. }
  destruct Ef as (E1 & E2 & E3).
  destruct (border_edges_ok f (BorderWidth s) x y) as (H1 & H2 & H3 & H4);
    [lia|unfold f, FrameGeometry; simpl; lia|unfold f, FrameGeometry, kTitlebarHeight; simpl; lia|].
  rewrite E1 in H1. rewrite E2 in H2. rewrite E3 in H4. split_and!; [done|done|].
  rewrite <- H1, <- H2, <- H3, <- H4. unfold border_edges. case_ifs; done.
Qed.

(** Hit testing agrees with the geometry. A point outside the frame or in
    the client's content away from the border hits nothing; resizing is hit
    exactly on the border of a window that is neither maximized nor tiled, with
    the edges that border it; every other point of the frame is on the titlebar,
    where the maximize and minimize buttons exist only if the window has them. *)
Theorem ssd_hit_test (s : Ssd) (x y : Q)
  (Hg : 0 < box_width (client_geometry_ s) /\ 0 < box_height (client_geometry_ s)) :
  let g := client_geometry_ s in
  let f := FrameGeometry s g in
  let inside := qge x (box_x f) && qge y (box_y f) && qlt x (box_x f + box_width f) &&
                qlt y (box_y f + box_height f) in
  let border := BorderWidth s in
  let on_border := negb (border =? 0) && (qlt x (box_x g) || qge x (box_x g + box_width g) ||
                     qlt y (box_y f + border) || qge y (box_y g + box_height g)) in
  let h := HitTest s x y in
  (hit_part h = kNone <-> inside = false \/ (on_border = false /\ qge y (box_y g) = true)) /\
  (hit_part h = kResize <-> inside = true /\ on_border = true) /\
  (hit_part h = kResize -> maximized_ s = false /\ tiled_ s = false /\ hit_edges h <> 0 /\
    has_flag (hit_edges h) WLR_EDGE_LEFT = qlt x (box_x g) /\
    has_flag (hit_edges h) WLR_EDGE_RIGHT = qge x (box_x g + box_width g)) /\
  (hit_part h = kMaximize -> can_maximize_ s = true) /\
  (hit_part h = kMinimize -> can_minimize_ s = true).
Proof.
  cbv zeta. destruct Hg as [Hw Hh]. pose proof (border_edges_client s x y Hw Hh) as (Hl & Hr & He).
  unfold HitTest. set (g := client_geometry_ s) in *. set (f := FrameGeometry s g) in *.
  set (e := border_edges f (BorderWidth s) x y) in *. rewrite !qge_qlt in *.
  replace (qlt x (box_x f) || qlt y (box_y f) || negb (qlt x (box_x f + box_width f)) ||
    negb (qlt y (box_y f + box_height f))) with (negb (negb (qlt x (box_x f)) &&
    negb (qlt y (box_y f)) && qlt x (box_x f + box_width f) && qlt y (box_y f + box_height f)))
    by (destruct (qlt x (box_x f)), (qlt y (box_y f)), (qlt x (box_x f + box_width f)),
      (qlt y (box_y f + box_height f)); reflexivity).
  set (inside := _ && qlt y (box_y f + box_height f)).
  set (near := qlt x (box_x g) || _ || _ || _) in *. rewrite He, negb_involutive.
  destruct inside; simpl negb; cbv iota; [|simpl; naive_solver].
  replace (BorderWidth s >? 0) with (negb (BorderWidth s =? 0))
    by (pose proof (BorderWidth_range s); lia).
  destruct (negb (BorderWidth s =? 0) && near) eqn:En.
  - simpl. prop_bool. unfold BorderWidth in *. destruct (maximized_ s), (tiled_ s); try done.
    split_and!; try naive_solver. intros _. split_and!; auto. lia.
  - destruct (qlt y (box_y g)); simpl; [|naive_solver].
    destruct (titlebar_part_spec s (box_x f + box_width f - BorderWidth s - kButtonWidth) x)
      as (Hn & Hz & Hm & Hi). naive_solver.
Qed.

Lemma ssd_hit_test_witness :
  hit_part (HitTest (ssd_new <{ client_geometry_ := Box 0 0 300 200 }>) (5 # 1) (- 20 # 1)) = kTitlebar /\
  (hit_part (HitTest (ssd_new <{ client_geometry_ := Box 0 0 300 200 }>) (5 # 1) (20 # 1)) = kNone).
Proof.
  split; [reflexivity|].
  destruct (ssd_hit_test (ssd_new <{ client_geometry_ := Box 0 0 300 200 }>) (5 # 1) (20 # 1))
    as [[_ Hn] _]; [split; reflexivity|]. apply Hn. right. split; reflexivity.
Defined.
