(* ===== verification/Window.v ===== *)
(** * Windows: data and per-window operations

    Models struct Toplevel of
    src/src/core/compositor_private/compositor_private.h and its methods in
    compositor_private.cc, for xdg-shell windows (the base class; the XWayland
    subclass is not modelled, so [IsXWayland] is false throughout).

    - a window is the record [Toplevel]; the protocol object behind it is
      [xdg_toplevel], whose [x_...] configure fields are the state scheduled for
      the client by [wlr_xdg_toplevel_set_...];
    - the window's scene node is [scene_node], absent for a null [scene_tree];
    - surfaces and outputs are identified by their addresses;
    - null pointers are [None]. *)

From S2P Require Import Prelude Box Ssd.

(** ** The protocol object *)

Record xdg_toplevel := Xdg {
  x_surface : nat;
  x_initialized : bool;
  x_parent : option nat;            (* surface of the parent toplevel *)
  x_modal : bool;                   (* has a modal xdg dialog *)
  x_min_width : Z; x_max_width : Z; x_min_height : Z; x_max_height : Z;
  x_requested_maximized : bool;
  x_requested_fullscreen : bool;
  x_geometry : wlr_box;
  x_version : Z;                    (* bound version of the global *)
  (* scheduled by the compositor *)
  x_activated : bool;
  x_maximized : bool;
  x_fullscreen : bool;
  x_resizing : bool;
  x_tiled : Z;
  x_width : Z; x_height : Z;
  x_capabilities : Z }.

#[export] Instance xdg_fields : Fields xdg_toplevel := {| rebuild := fun h =>
  Xdg (x_surface h) (x_initialized h) (x_parent h) (x_modal h) (x_min_width h) (x_max_width h)
    (x_min_height h) (x_max_height h) (x_requested_maximized h) (x_requested_fullscreen h)
    (x_geometry h) (x_version h) (x_activated h) (x_maximized h) (x_fullscreen h)
    (x_resizing h) (x_tiled h) (x_width h) (x_height h) (x_capabilities h) |}.

Record scene_node := Node {
  node_x : Z; node_y : Z; node_enabled : bool;
  node_in_tree : bool }.            (* its parent is toplevel_tree_ *)

#[export] Instance node_fields : Fields scene_node := {| rebuild := fun n =>
  Node (node_x n) (node_y n) (node_enabled n) (node_in_tree n) |}.

Record PendingConfigure := Pending {
  pc_size : option wlr_box;
  pc_activated : option bool;
  pc_maximized : option bool;
  pc_fullscreen : option bool;
  pc_tiled : option Z }.

#[export] Instance pending_fields : Fields PendingConfigure := {| rebuild := fun p =>
  Pending (pc_size p) (pc_activated p) (pc_maximized p) (pc_fullscreen p) (pc_tiled p) |}.

Definition no_pending : PendingConfigure := Pending None None None None None.

Inductive Tile := kLeft | kRight | kTopLeft | kBottomLeft | kTopRight | kBottomRight.

(** A shadow drawn for a client-decorated window. *)
Record csd_shadow_state := CsdShadow {
  shadow_frame : wlr_box; shadow_active : bool; shadow_dialog : bool }.

Record Toplevel := MkToplevel {
  tl_id : nat;
  handle : option xdg_toplevel;
  scene_tree : option scene_node;
  mapped : bool;
  placed : bool;
  position_requested : bool;
  keep_centered : bool;
  centered_frame : wlr_box;
  maximized : bool;
  minimized : bool;
  kept_above : bool;
  all_workspaces : bool;
  workspace : Z;
  has_restore_box : bool;
  restore_position_pending : bool;
  tiled : bool;
  tile_position_pending : bool;
  capabilities_advertised : bool;
  advertised_capabilities : Z;
  pending_configure : PendingConfigure;
  restore_box : wlr_box;
  maximized_box : wlr_box;
  tiled_box : wlr_box;
  maximized_output : option nat;
  tile : Tile;
  tiled_output : option nat;
  corner_radius : Z;
  ssd : option Ssd;
  ssd_initial_position_pending : bool;
  csd_shadow : option csd_shadow_state;
  csd_shadow_set : bool;
  csd_shadow_enabled : bool }.

#[export] Instance toplevel_fields : Fields Toplevel := {| rebuild := fun t =>
  MkToplevel (tl_id t) (handle t) (scene_tree t) (mapped t) (placed t) (position_requested t)
    (keep_centered t) (centered_frame t) (maximized t) (minimized t) (kept_above t)
    (all_workspaces t) (workspace t) (has_restore_box t) (restore_position_pending t)
    (tiled t) (tile_position_pending t) (capabilities_advertised t)
    (advertised_capabilities t) (pending_configure t) (restore_box t) (maximized_box t)
    (tiled_box t) (maximized_output t) (tile t) (tiled_output t) (corner_radius t) (ssd t)
    (ssd_initial_position_pending t) (csd_shadow t) (csd_shadow_set t) (csd_shadow_enabled t) |}.

(** A window as its constructor leaves it, on the current workspace. *)
Definition new_toplevel (id : nat) (h : xdg_toplevel) (current_workspace : Z) : Toplevel :=
  MkToplevel id (Some h) None false false false false zero_box false false false false
    current_workspace false false false false false 0 no_pending zero_box zero_box zero_box
    None kLeft None 8 None false None false false.

(** ** Queries *)

Definition IsAlive (t : Toplevel) : bool := bool_decide (handle t <> None).
Definition CanMinimize (t : Toplevel) : bool := bool_decide (handle t <> None).

Definition CanMaximize (t : Toplevel) : bool :=
  match handle t with
  | None => false
  | Some h =>
      if bool_decide (x_parent h <> None) then false
      else if x_modal h then false
      else
        let fixed_width := (x_min_width h >? 0) && (x_max_width h >? 0) &&
                           (x_min_width h =? x_max_width h) in
        let fixed_height := (x_min_height h >? 0) && (x_max_height h >? 0) &&
                            (x_min_height h =? x_max_height h) in
        negb fixed_width && negb fixed_height
  end.

Definition RequestedMaximized (t : Toplevel) : bool :=
  from_option x_requested_maximized false (handle t).
Definition RequestedFullscreen (t : Toplevel) : bool :=
  from_option x_requested_fullscreen false (handle t).
Definition Surface (t : Toplevel) : option nat := x_surface <$> handle t.
Definition ParentSurface (t : Toplevel) : option nat := handle t ≫= x_parent.
Definition Geometry (t : Toplevel) : wlr_box := from_option x_geometry zero_box (handle t).
Definition CanConfigure (t : Toplevel) : bool := from_option x_initialized false (handle t).

Definition tl_FrameGeometry (t : Toplevel) : wlr_box :=
  match ssd t with
  | None => Geometry t
  | Some d => Ssd.FrameGeometry d (Geometry t)
  end.

Definition LayoutFrame (t : Toplevel) : wlr_box :=
  match scene_tree t with
  | None => zero_box
  | Some n =>
      let geometry := Geometry t in
      let frame := tl_FrameGeometry t in
      Box (box_x frame + (node_x n - box_x geometry)) (box_y frame + (node_y n - box_y geometry))
        (box_width frame) (box_height frame)
  end.

(** ** Configuring the client *)

(** [wlr_scene_node_set_position] and [wlr_scene_node_set_enabled]. *)
Definition set_position (x y : Z) (t : Toplevel) : Toplevel :=
  t <{ scene_tree ::= fmap (fun n => n <{ node_x := x }> <{ node_y := y }>) }>.
Definition set_enabled (b : bool) (t : Toplevel) : Toplevel :=
  t <{ scene_tree ::= fmap (fun n => n <{ node_enabled := b }>) }>.

(** A state setter: schedule it when the surface can be configured, else keep
    it for the initial configure. *)
Definition schedule (now : xdg_toplevel -> xdg_toplevel)
    (later : PendingConfigure -> PendingConfigure) (t : Toplevel) : Toplevel :=
  if CanConfigure t then t <{ handle ::= fmap now }>
  else match handle t with
       | Some _ => t <{ pending_configure ::= later }>
       | None => t
       end.

Definition Configure (box : wlr_box) (t : Toplevel) : Toplevel :=
  match scene_tree t with
  | None => t
  | Some _ =>
      if (box_width box <=? 0) || (box_height box <=? 0) then t
      else
        let geometry := Geometry t in
        let content := match ssd t with None => box | Some d => ContentGeometry d box end in
        t |> set_position (box_x content - box_x geometry) (box_y content - box_y geometry)
          |> schedule (fun h => h <{ x_width := box_width content }>
                                  <{ x_height := box_height content }>)
                      (fun p => p <{ pc_size := Some content }>)
  end.

Definition SetActivated (b : bool) : Toplevel -> Toplevel :=
  schedule (fun h => h <{ x_activated := b }>) (fun p => p <{ pc_activated := Some b }>).
Definition SetMaximizedState (b : bool) : Toplevel -> Toplevel :=
  schedule (fun h => h <{ x_maximized := b }>) (fun p => p <{ pc_maximized := Some b }>).
Definition SetFullscreenState (b : bool) : Toplevel -> Toplevel :=
  schedule (fun h => h <{ x_fullscreen := b }>) (fun p => p <{ pc_fullscreen := Some b }>).
Definition SetTiledState (edges : Z) : Toplevel -> Toplevel :=
  schedule (fun h => h <{ x_tiled := edges }>) (fun p => p <{ pc_tiled := Some edges }>).
Definition SetResizingState (b : bool) (t : Toplevel) : Toplevel :=
  if CanConfigure t then t <{ handle ::= fmap (fun h => h <{ x_resizing := b }>) }> else t.

(** [wlr_xdg_toplevel_set_x(handle, *pending.x)] where there is a value. *)
Definition apply_pending {A} (v : option A) (f : A -> xdg_toplevel -> xdg_toplevel)
    (h : xdg_toplevel) : xdg_toplevel := match v with Some a => f a h | None => h end.

Definition SendInitialConfigure (t : Toplevel) : Toplevel :=
  let pending := pending_configure t in
  let size := default zero_box (pc_size pending) in
  t <{ pending_configure := no_pending }>
    <{ handle ::= fmap (fun h => h
       |> apply_pending (pc_tiled pending) (fun v h => h <{ x_tiled := v }>)
       |> apply_pending (pc_maximized pending) (fun v h => h <{ x_maximized := v }>)
       |> apply_pending (pc_fullscreen pending) (fun v h => h <{ x_fullscreen := v }>)
       |> apply_pending (pc_activated pending) (fun v h => h <{ x_activated := v }>)
       |> (fun h => h <{ x_width := box_width size }> <{ x_height := box_height size }>)) }>.

(** ** Capabilities *)

Definition kXdgShellVersion : Z := 5.
Definition CAP_WINDOW_MENU : Z := Z.shiftl 1 0.
Definition CAP_MAXIMIZE : Z := Z.shiftl 1 1.
Definition CAP_FULLSCREEN : Z := Z.shiftl 1 2.
Definition CAP_MINIMIZE : Z := Z.shiftl 1 3.

Definition capabilities_of (t : Toplevel) : Z :=
  let c := Z.lor CAP_FULLSCREEN CAP_WINDOW_MENU in
  let c := if CanMaximize t then Z.lor c CAP_MAXIMIZE else c in
  if CanMinimize t then Z.lor c CAP_MINIMIZE else c.

Definition UpdateCapabilities (t : Toplevel) : Toplevel :=
  let capabilities := capabilities_of t in
  let t := t <{ ssd ::= fmap (fun d => SetCapabilities d (CanMinimize t) (CanMaximize t)) }> in
  match handle t with
  | None => t
  | Some h =>
      if negb (x_initialized h) || (x_version h <? kXdgShellVersion) ||
         (capabilities_advertised t && (advertised_capabilities t =? capabilities))
      then t
      else t <{ handle := Some (h <{ x_capabilities := capabilities }>) }>
             <{ advertised_capabilities := capabilities }>
             <{ capabilities_advertised := true }>
  end.

(** ** Tiling slots *)

Definition TileBox (usable : wlr_box) (tile : Tile) : wlr_box :=
  let left_width := idiv (box_width usable) 2 in
  let right_width := box_width usable - left_width in
  let top_height := idiv (box_height usable) 2 in
  let bottom_height := box_height usable - top_height in
  let '(Box x y w h) := usable in
  match tile with
  | kLeft => Box x y left_width h
  | kRight => Box (x + left_width) y right_width h
  | kTopLeft => Box x y left_width top_height
  | kBottomLeft => Box x (y + top_height) left_width bottom_height
  | kTopRight => Box (x + left_width) y right_width top_height
  | kBottomRight => Box (x + left_width) (y + top_height) right_width bottom_height
  end.

(** The cursor shown while resizing by the given edges. *)
Definition ResizeCursorName (edges : Z) : str :=
  let e := has_flag edges in
  if e WLR_EDGE_TOP && e WLR_EDGE_LEFT then txt "top_left_corner"
  else if e WLR_EDGE_TOP && e WLR_EDGE_RIGHT then txt "top_right_corner"
  else if e WLR_EDGE_BOTTOM && e WLR_EDGE_LEFT then txt "bottom_left_corner"
  else if e WLR_EDGE_BOTTOM && e WLR_EDGE_RIGHT then txt "bottom_right_corner"
  else if e WLR_EDGE_LEFT then txt "left_side"
  else if e WLR_EDGE_RIGHT then txt "right_side"
  else if e WLR_EDGE_TOP then txt "top_side"
  else txt "bottom_side".
