(* ===== verification/Windows.v ===== *)
(** * The window manager core

    Models the window operations of class CompositorPrivate
    (src/src/core/compositor_private/compositor_private.cc): focus, workspaces,
    stacking, placement, maximizing, tiling, minimizing, interactive move and
    resize, and the handlers of struct Toplevel's signals.

    - the compositor's state is the record [compositor]; a [Toplevel*] argument
      is the window's identifier, and a null pointer is an identifier that no
      window has;
    - the seat's keyboard focus, the stacking order of toplevel_tree_ (bottom to
      top) and the pointer position are fields of the state;
    - calls that inform other parts of the program (shell protocols, switchers,
      the renderer, XWayland) are appended to [log] in order;
    - the output layout is the interface [OutputLayout]; doubles are rationals,
      and conversions to [int] truncate. *)

From S2P Require Import Prelude Box Ssd Window.

(** ** Collaborators *)

(** wlr_output_layout as the window manager uses it. *)
Class OutputLayout := {
  output_at : Q -> Q -> option nat;
  center_output : option nat;
  layout_box : option nat -> wlr_box }.

Inductive ui_component :=
| UiWindowSelector | UiAppSwitcher | UiMultitasking | UiWindowPreviews | UiWindowMenu
| UiTitlebarTooltip | UiSplitScreenSwitcher | UiTileAnimation.

Inductive notice :=
| UpdateToplevel (surface : option nat)
| UpdateKeyboardFocus (surface : option nat)
| UpdateWorkspaces
| MapToplevel (surface : option nat)
| UnmapToplevel (surface : option nat)
| UpdateToplevelParent (surface parent : option nat)
| MoveDrag
| SurfaceUnavailable (c : ui_component) (surface : option nat)
| SurfaceUpdated (c : ui_component) (surface : option nat)
| SurfaceActivated (surface : option nat)
| CancelUi (c : ui_component)
| StartTileAnimation (from target : wlr_box)
| ActivatedOnBus (surface : option nat)
| ParkXWayland
| ClearPointerFocus
| CursorName (name : str).

(** Keyboard interactivity of a layer surface. *)
Inductive interactivity := InteractNone | InteractExclusive | InteractOnDemand.

Record LayerSurface := MkLayer {
  ls_mapped : bool;
  ls_handle : option (nat * interactivity) }.   (* surface, interactivity *)

Record Output := MkOutput { out_handle : nat; usable_box : wlr_box }.

Inductive CursorMode := kPassthrough | kMove | kResizing.

#[export] Instance cursor_mode_eq : EqDecision CursorMode.
Proof. solve_decision. Defined.
#[export] Instance interactivity_eq : EqDecision interactivity.
Proof. solve_decision. Defined.

Record compositor := Compositor {
  toplevels_ : list Toplevel;
  layer_surfaces_ : list LayerSurface;
  outputs_ : list Output;
  stacking : list nat;
  no_titlebar_surfaces_ : gset nat;
  workspace_count_ : Z;
  current_workspace_ : Z;
  multitasking_sources_hidden_ : bool;
  window_previews_sources_hidden_ : bool;
  focused_surface : option nat;
  has_keyboard : bool;
  cursor_x : Q;
  cursor_y : Q;
  cursor_mode_ : CursorMode;
  grabbed_toplevel_ : option nat;
  grab_x_ : Q;
  grab_y_ : Q;
  grab_box_ : wlr_box;
  resize_edges_ : Z;
  pending_window_menu_ : option nat;
  maximize_on_release_ : bool;
  round_corners : gmap nat (Z * Z);     (* surface: top and bottom radius *)
  protocol_manager_ : bool;
  session_locked : bool;
  dbus_manager_ : bool;
  xwayland_ : bool;
  blur_renderer_ : bool;
  ui : ui_component -> bool;            (* which components exist *)
  log : list notice }.

#[export] Instance compositor_fields : Fields compositor := {| rebuild := fun s =>
  Compositor (toplevels_ s) (layer_surfaces_ s) (outputs_ s) (stacking s)
    (no_titlebar_surfaces_ s) (workspace_count_ s) (current_workspace_ s)
    (multitasking_sources_hidden_ s) (window_previews_sources_hidden_ s)
    (focused_surface s) (has_keyboard s) (cursor_x s) (cursor_y s) (cursor_mode_ s)
    (grabbed_toplevel_ s) (grab_x_ s) (grab_y_ s) (grab_box_ s) (resize_edges_ s)
    (pending_window_menu_ s) (maximize_on_release_ s) (round_corners s)
    (protocol_manager_ s) (session_locked s) (dbus_manager_ s) (xwayland_ s)
    (blur_renderer_ s) (ui s) (log s) |}.

(** ** Access *)

Definition find_tl (t : nat) (s : compositor) : option Toplevel :=
  List.find (fun w => (tl_id w =? t)%nat) (toplevels_ s).

Definition upd_tl (t : nat) (f : Toplevel -> Toplevel) (s : compositor) : compositor :=
  s <{ toplevels_ ::= map (fun w => if (tl_id w =? t)%nat then f w else w) }>.

(** A step guarded by a non-null window. *)
Definition with_tl (t : nat) (f : Toplevel -> compositor -> compositor) (s : compositor)
    : compositor :=
  match find_tl t s with Some w => f w s | None => s end.

Definition tell (n : notice) (s : compositor) : compositor := s <{ log ::= fun l => l ++ [n] }>.
Definition tell_protocols (n : notice) (s : compositor) : compositor :=
  when (protocol_manager_ s) (tell n) s.
Definition tell_ui (c : ui_component) (n : notice) (s : compositor) : compositor :=
  when (ui s c) (tell n) s.

Definition SessionLocked (s : compositor) : bool := protocol_manager_ s && session_locked s.

(** The windows in order, by identifier: a loop over toplevels_. *)
Definition each_tl (f : nat -> compositor -> compositor) (s : compositor) : compositor :=
  foldl (fun s t => f t s) s (map tl_id (toplevels_ s)).

(** [wlr_scene_node_raise_to_top]. *)
Definition raise_to_top (t : nat) (s : compositor) : compositor :=
  s <{ stacking ::= fun l => if decide (t ∈ l) then List.filter (fun u => negb (u =? t)%nat) l ++ [t]
                             else l }>.

Definition has_surface (surface : nat) (w : Toplevel) : bool :=
  bool_decide (Surface w = Some surface).

(** [wlr_xdg_toplevel_try_from_wlr_surface]: the windows are exactly the xdg
    toplevels. *)
Definition tl_of_surface (surface : nat) (s : compositor) : option Toplevel :=
  List.find (has_surface surface) (toplevels_ s).

Section Core.
Context `{OutputLayout}.
(** [wlr_surface_get_root_surface] on surface addresses. *)
Variable root_surface : nat -> nat.
(** Whether the titlebar renderer can be resized. *)
Variable resize_ok : Z -> Z -> bool.

Definition ToplevelForSurface (surface : option nat) (s : compositor) : option Toplevel :=
  surface ≫= fun f =>
  List.find (fun w => match Surface w with
                      | Some g => (root_surface g =? root_surface f)%nat
                      | None => false end) (toplevels_ s).

(** ** Decorations and shadows *)

Definition RebuildSurfaceClip (t : nat) : compositor -> compositor :=
  with_tl t (fun w s =>
    match Surface w with
    | None => s
    | Some surface =>
        if negb (blur_renderer_ s) then s
        else
          let rounded := (corner_radius w >? 0) && negb (maximized w) && negb (tiled w) &&
                         negb (RequestedFullscreen w) in
          let radius := if rounded then corner_radius w else 0 in
          let top := match ssd w with None => radius | Some _ => 0 end in
          s <{ round_corners ::= <[surface := (top, radius)]> }>
    end).

Definition HasNoTitlebarSurface (surface : option nat) (s : compositor) : bool :=
  match surface with
  | None => false
  | Some f => bool_decide (f ∈ no_titlebar_surfaces_ s)
  end.

Definition SetNoTitlebarSurface (surface : option nat) (no_titlebar : bool) (s : compositor)
    : compositor :=
  match surface with
  | None => s
  | Some f => if no_titlebar then s <{ no_titlebar_surfaces_ ::= fun l => {[f]} ∪ l }>
              else s <{ no_titlebar_surfaces_ ::= fun l => l ∖ {[f]} }>
  end.

Definition UpdateCsdShadow (t : nat) : compositor -> compositor :=
  with_tl t (fun w s =>
    let active := bool_decide (Surface w <> None /\ focused_surface s = Surface w) in
    let wanted := if csd_shadow_set w then csd_shadow_enabled w
                  else HasNoTitlebarSurface (Surface w) s in
    let want_shadow := wanted && mapped w && bool_decide (ssd w = None :> option Ssd) &&
                       negb (maximized w) && negb (tiled w) && negb (RequestedFullscreen w) in
    if negb want_shadow || bool_decide (scene_tree w = None :> option scene_node)
    then upd_tl t (fun w => w <{ csd_shadow := None }>) s
    else
      let g := Geometry w in
      let dialog := bool_decide (ParentSurface w <> None) in
      upd_tl t (fun w => w <{ csd_shadow :=
        Some (CsdShadow (Box 0 0 (box_width g) (box_height g)) active dialog) }>) s).

Definition SetCsdShadow (t : nat) (enabled : bool) : compositor -> compositor :=
  with_tl t (fun w s =>
    if csd_shadow_set w && Bool.eqb (csd_shadow_enabled w) enabled then s
    else s |> upd_tl t (fun w => w <{ csd_shadow_set := true }> <{ csd_shadow_enabled := enabled }>)
           |> UpdateCsdShadow t).

Definition SetRoundCorner (t : nat) (radius : Z) : compositor -> compositor :=
  with_tl t (fun _ s => s |> upd_tl t (fun w => w <{ corner_radius := zclamp radius 0 64 }>)
                          |> RebuildSurfaceClip t).

(** [created] says whether [Ssd::Create] succeeds. *)
Definition AttachSsd (created : bool) (t : nat) : compositor -> compositor :=
  with_tl t (fun w s =>
    match scene_tree w, ssd w with
    | None, _ | _, Some _ => s
    | Some _, None =>
        if negb created then RebuildSurfaceClip t s
        else
          let d := SsdSetMaximized resize_ok ssd_new (maximized w) in
          let d := SetDialog resize_ok d (bool_decide (ParentSurface w <> None)) in
          let d := SetCapabilities d (CanMinimize w) (CanMaximize w) in
          let d := SetGeometry resize_ok d (Geometry w) in
          s |> upd_tl t (fun w => w <{ ssd := Some d }>)
            |> RebuildSurfaceClip t
            |> upd_tl t (fun w => w <{ ssd_initial_position_pending := true }>)
    end).

Definition SetSsdEnabled (created : bool) (t : nat) (enabled : bool) : compositor -> compositor :=
  with_tl t (fun _ s =>
    if enabled then s |> upd_tl t (fun w => w <{ csd_shadow := None }>) |> AttachSsd created t
    else s |> upd_tl t (fun w => w <{ ssd := None }> <{ ssd_initial_position_pending := false }>)
           |> RebuildSurfaceClip t |> UpdateCsdShadow t).

(** ** Focus *)

(** [wlr_seat_keyboard_notify_enter], when the seat has a keyboard. *)
Definition keyboard_enter (surface : option nat) (s : compositor) : compositor :=
  when (has_keyboard s) (fun s => s <{ focused_surface := surface }>) s.

Definition ParkXWaylandFocus (s : compositor) : compositor :=
  when (xwayland_ s) (tell ParkXWayland) s.

(** Deactivates the xdg toplevel that has the keyboard. *)
Definition deactivate_previous (previous : option nat) (s : compositor) : compositor :=
  match previous ≫= fun f => tl_of_surface f s with
  | None => s
  | Some p => if CanConfigure p
              then upd_tl (tl_id p) (fun w => w <{ handle ::= fmap (fun h => h <{ x_activated := false }>) }>) s
              else s
  end.

Definition is_exclusive (l : LayerSurface) : bool :=
  ls_mapped l && match ls_handle l with Some (_, InteractExclusive) => true | _ => false end.

(** The last exclusive layer surface, which keeps the keyboard. *)
Definition exclusive_layer (s : compositor) : option LayerSurface :=
  List.find is_exclusive (rev (layer_surfaces_ s)).

Definition FocusLayerSurface (l : option LayerSurface) (s : compositor) : compositor :=
  match l with
  | Some (MkLayer true (Some (surface, inter))) =>
      if SessionLocked s || bool_decide (inter = InteractNone) then s
      else
        let s := each_tl (fun t s => s
          |> upd_tl t (fun w => w <{ ssd ::= fmap (fun d => SetActive d false) }>)
          |> UpdateCsdShadow t) s in
        let previous := focused_surface s in
        if bool_decide (previous = Some surface) then s
        else s |> deactivate_previous previous
               |> ParkXWaylandFocus
               |> keyboard_enter (Some surface)
               |> tell_protocols (UpdateKeyboardFocus (Some surface))
               |> tell_protocols (UpdateToplevel previous)
  | _ => s
  end.

Definition on_current (w : Toplevel) (s : compositor) : bool :=
  all_workspaces w || (workspace w =? current_workspace_ s).

Definition IsToplevelVisible (w : Toplevel) (s : compositor) : bool :=
  mapped w && negb (minimized w) && on_current w s &&
  negb (multitasking_sources_hidden_ s) && negb (window_previews_sources_hidden_ s).

(** Raises the window, then the other visible kept-above windows over it, and
    itself over them if it is kept above too. *)
Definition raise_focused (t : nat) (s : compositor) : compositor :=
  let s := raise_to_top t s in
  let s := each_tl (fun u s => with_tl u (fun c s =>
    if negb (u =? t)%nat && kept_above c && bool_decide (scene_tree c <> None) &&
       IsToplevelVisible c s then raise_to_top u s else s) s) s in
  with_tl t (fun w s => when (kept_above w) (raise_to_top t) s) s.

Definition FocusToplevel (t : nat) : compositor -> compositor :=
  with_tl t (fun w s =>
    if SessionLocked s || negb (mapped w) || negb (IsAlive w) ||
       bool_decide (Surface w = None) || negb (on_current w s) || minimized w then s
    else
    match exclusive_layer s with
    | Some l => FocusLayerSurface (Some l) s
    | None =>
        let s := each_tl (fun u s => s
          |> upd_tl u (fun c => c <{ ssd ::= fmap (fun d => SetActive d (u =? t)%nat) }>)
          |> UpdateCsdShadow u) s in
        let surface := Surface w in
        let previous := focused_surface s in
        let s := tell_ui UiAppSwitcher (SurfaceActivated surface) s in
        if bool_decide (previous = surface) then
          s |> tell_protocols (UpdateKeyboardFocus surface)
            |> tell_protocols (UpdateToplevel surface)
        else
          s |> deactivate_previous previous
            |> ParkXWaylandFocus
            |> raise_focused t
            |> upd_tl t (SetActivated true)
            |> (fun s => when (dbus_manager_ s) (tell (ActivatedOnBus surface)) s)
            |> keyboard_enter surface
            |> tell_protocols (UpdateKeyboardFocus surface)
            |> tell_protocols (UpdateToplevel previous)
            |> tell_protocols (UpdateToplevel surface)
    end).

(** A window the focus may move to. *)
Definition focus_candidate (excluding : option nat) (s : compositor) (c : Toplevel) : bool :=
  bool_decide (excluding <> Some (tl_id c)) && mapped c && negb (minimized c) && IsAlive c &&
  on_current c s.

Definition FocusNextToplevel (excluding : option nat) (s : compositor) : compositor :=
  if SessionLocked s then s
  else
    match exclusive_layer s with
    | Some l => FocusLayerSurface (Some l) s
    | None =>
        match List.find (focus_candidate excluding s) (rev (toplevels_ s)) with
        | Some c => FocusToplevel (tl_id c) s
        | None => s |> ParkXWaylandFocus
                    |> (fun s => s <{ focused_surface := None }>)
                    |> tell_protocols (UpdateKeyboardFocus None)
        end
    end.

(** ** Interactive grabs: dropping one *)

Definition ResetCursorMode (s : compositor) : compositor :=
  let s := match cursor_mode_ s, grabbed_toplevel_ s with
           | kResizing, Some t => upd_tl t (SetResizingState false) s
           | _, _ => s
           end in
  s <{ cursor_mode_ := kPassthrough }> <{ grabbed_toplevel_ := None }>
    <{ maximize_on_release_ := false }>.

(** ** Workspaces *)

Definition kInitialWorkspaceCount : Z := 4.
Definition kMaximumWorkspaceCount : Z := 6.

(** Shows or hides a window's node to match its visibility. *)
Definition refresh_node (t : nat) : compositor -> compositor :=
  with_tl t (fun w s => upd_tl t (set_enabled (IsToplevelVisible w s)) s).

Definition tell_mapped (s : compositor) : compositor :=
  each_tl (fun t => with_tl t (fun w s =>
    when (mapped w) (tell (UpdateToplevel (Surface w))) s)) s.

Definition SwitchWorkspace (ws : Z) (s : compositor) : compositor :=
  if (ws <? 0) || (ws >=? workspace_count_ s) || (ws =? current_workspace_ s) || SessionLocked s
  then s
  else
    let s := s |> tell_ui UiAppSwitcher (CancelUi UiAppSwitcher)
               |> tell_ui UiWindowMenu (CancelUi UiWindowMenu)
               |> ResetCursorMode in
    let previous := ToplevelForSurface (focused_surface s) s in
    let s := s <{ current_workspace_ := ws }> in
    let s := each_tl (fun t s => s
      |> refresh_node t
      |> with_tl t (fun w s => if negb (on_current w s)
           then upd_tl t (fun w => w <{ ssd ::= fmap (fun d => SetActive d false) }>) s else s)
      |> UpdateCsdShadow t) s in
    let s := match previous with
             | Some p => if negb (on_current p s)
                         then (s |> upd_tl (tl_id p) (SetActivated false)) <{ focused_surface := None }>
                         else s
             | None => s
             end in
    let s := s |> tell ClearPointerFocus |> FocusNextToplevel None in
    if protocol_manager_ s
    then s |> tell UpdateWorkspaces |> (fun s => tell (UpdateKeyboardFocus (focused_surface s)) s)
           |> tell_mapped
    else s.

Definition MoveToplevelToWorkspace (t : nat) (ws : Z) (s : compositor) : compositor * bool :=
  match find_tl t s with
  | None => (s, false)
  | Some w =>
      if (ws <? 0) || (ws >=? workspace_count_ s) || (workspace w =? ws) then (s, false)
      else
        let had_focus := bool_decide (focused_surface s = Surface w) in
        let s := s |> upd_tl t (fun w => w <{ workspace := ws }>) |> refresh_node t in
        let s := if had_focus && negb (ws =? current_workspace_ s)
                 then s |> upd_tl t (SetActivated false) |> FocusNextToplevel (Some t) else s in
        (tell_protocols (UpdateToplevel (Surface w)) s, true)
  end.

Definition AddWorkspace (s : compositor) : compositor * bool :=
  if workspace_count_ s >=? kMaximumWorkspaceCount then (s, false)
  else (s <{ workspace_count_ ::= fun n => n + 1 }> |> tell_protocols UpdateWorkspaces, true).

(** Where an index goes when workspace [ws] is removed, [count] being left. *)
Definition remove_index (ws count i : Z) : Z :=
  if i =? ws then Z.min ws (count - 1) else if i >? ws then i - 1 else i.

Definition RemoveWorkspace (ws : Z) (s : compositor) : compositor * bool :=
  if (workspace_count_ s <=? 1) || (ws <? 0) || (ws >=? workspace_count_ s) then (s, false)
  else
    let count := workspace_count_ s - 1 in
    let s := s <{ workspace_count_ := count }>
               <{ toplevels_ ::= map (fun w => w <{ workspace ::= remove_index ws count }>) }>
               <{ current_workspace_ ::= remove_index ws count }> in
    let s := each_tl refresh_node s in
    (if protocol_manager_ s then s |> tell UpdateWorkspaces |> tell_mapped else s, true).

(** The lambda [remap] of ReorderWorkspace. *)
Definition reorder_index (from to i : Z) : Z :=
  if i =? from then to
  else if (from <? to) && (i >? from) && (i <=? to) then i - 1
  else if (from >? to) && (i >=? to) && (i <? from) then i + 1
  else i.

Definition ReorderWorkspace (from to : Z) (s : compositor) : compositor * bool :=
  if (from <? 0) || (to <? 0) || (from >=? workspace_count_ s) || (to >=? workspace_count_ s) ||
     (from =? to) then (s, false)
  else
    let s := s <{ current_workspace_ ::= reorder_index from to }>
               <{ toplevels_ ::= map (fun w => w <{ workspace ::= reorder_index from to }>) }> in
    (if protocol_manager_ s then s |> tell UpdateWorkspaces |> tell_mapped else s, true).

Definition SetKeptAbove (t : nat) (above : bool) : compositor -> compositor :=
  with_tl t (fun w s =>
    if Bool.eqb (kept_above w) above then s
    else
      let s := upd_tl t (fun w => w <{ kept_above := above }>) s in
      let s := when (bool_decide (scene_tree w <> None) && above) (raise_to_top t) s in
      tell_protocols (UpdateToplevel (Surface w)) s).

Definition SetAllWorkspaces (t : nat) (all : bool) : compositor -> compositor :=
  with_tl t (fun w s =>
    if Bool.eqb (all_workspaces w) all then s
    else
      let s := upd_tl t (fun w => w <{ all_workspaces := all }>) s in
      let s := when (negb all) (fun s => upd_tl t (fun w => w <{ workspace := current_workspace_ s }>) s) s in
      s |> refresh_node t |> tell_protocols (UpdateToplevel (Surface w))).

Definition SetMultitaskingSourcesHidden (hidden : bool) (s : compositor) : compositor :=
  each_tl refresh_node (s <{ multitasking_sources_hidden_ := hidden }>).
Definition SetWindowPreviewsSourcesHidden (hidden : bool) (s : compositor) : compositor :=
  each_tl refresh_node (s <{ window_previews_sources_hidden_ := hidden }>).

(** ** Outputs and placement *)

(** An output whose handle is destroyed keeps an entry with a null handle in the code; here
    [outputs_] holds those with a handle only, so that looking for a null output finds
    none. *)
Definition FindOutput (output : option nat) (s : compositor) : option Output :=
  output ≫= fun o => List.find (fun st => (out_handle st =? o)%nat) (outputs_ s).

Definition UsableOutputBox (output : option nat) (s : compositor) : wlr_box :=
  match FindOutput output s with
  | Some st => if (box_width (usable_box st) >? 0) && (box_height (usable_box st) >? 0)
               then usable_box st else layout_box output
  | None => layout_box output
  end.

Definition OutputBoxAt (x y : Q) : wlr_box :=
  layout_box (match output_at x y with Some o => Some o | None => center_output end).

(** The output under the pointer, or the center one. *)
Definition pointer_output (s : compositor) : option nat :=
  match output_at (cursor_x s) (cursor_y s) with Some o => Some o | None => center_output end.

Definition MoveToplevelFrame (t : nat) (x y : Z) : compositor -> compositor :=
  with_tl t (fun w s =>
    let frame := LayoutFrame w in
    s |> upd_tl t (fun w => match scene_tree w with
           | Some n => set_position (node_x n + x - box_x frame) (node_y n + y - box_y frame) w
           | None => w end)
      |> tell_protocols (UpdateToplevel (Surface w))).

(** [v / 2.0] added to an [int]. *)
Definition mid (v size : Z) : Q := (inject_Z v + inject_Z size / 2)%Q.

Definition ConstrainToUsableArea (t : nat) : compositor -> compositor :=
  with_tl t (fun w s =>
    if negb (IsAlive w) || bool_decide (scene_tree w = None) || maximized w || tiled w ||
       RequestedFullscreen w then s
    else
      let frame := LayoutFrame w in
      if (box_width frame <=? 0) || (box_height frame <=? 0) then s
      else
        let x := box_x frame in
        let y := box_y frame in
        let output := match output_at (mid x (box_width frame)) (mid y (box_height frame)) with
                      | Some o => Some o
                      | None => output_at (inject_Z x) (inject_Z y) end in
        match output with
        | None => s
        | Some _ =>
            let usable := UsableOutputBox output s in
            if (box_width usable <=? 0) || (box_height usable <=? 0) then s
            else
              let new_x := Z.max (Z.min x (box_x usable + box_width usable - box_width frame))
                             (box_x usable) in
              let new_y := Z.max (Z.min y (box_y usable + box_height usable - box_height frame))
                             (box_y usable) in
              if negb (new_x =? x) || negb (new_y =? y)
              then MoveToplevelFrame t new_x new_y s else s
        end).

(** The point a new window is placed around: the middle of its parent's frame,
    or the pointer. *)
Definition placement_anchor (w : Toplevel) (s : compositor) : Q * Q :=
  match ToplevelForSurface (ParentSurface w) s with
  | Some parent =>
      if negb (tl_id parent =? tl_id w)%nat && mapped parent &&
         bool_decide (scene_tree parent <> None)
      then let f := LayoutFrame parent in
           (mid (box_x f) (box_width f), mid (box_y f) (box_height f))
      else (cursor_x s, cursor_y s)
  | None => (cursor_x s, cursor_y s)
  end.

Definition PlaceNewToplevel (t : nat) : compositor -> compositor :=
  with_tl t (fun w s =>
    if negb (IsAlive w) || maximized w || tiled w || RequestedFullscreen w ||
       position_requested w || negb (from_option node_in_tree false (scene_tree w)) then s
    else
      let frame := LayoutFrame w in
      if (box_width frame <=? 0) || (box_height frame <=? 0) then s
      else
        let '(ax, ay) := placement_anchor w s in
        match (match output_at ax ay with Some o => Some o | None => center_output end) with
        | None => s
        | Some o =>
            let usable := UsableOutputBox (Some o) s in
            if (box_width usable <=? 0) || (box_height usable <=? 0) then s
            else
              s |> MoveToplevelFrame t
                     (box_x usable + Z.max 0 (idiv (box_width usable - box_width frame) 2))
                     (box_y usable + Z.max 0 (idiv (box_height usable - box_height frame) 2))
                |> upd_tl t (fun w => w <{ keep_centered := true }>
                                        <{ centered_frame := LayoutFrame w }>)
                |> tell_protocols MoveDrag
        end).

Definition KeepCentered (t : nat) : compositor -> compositor :=
  with_tl t (fun w s =>
    if negb (mapped w) || maximized w || tiled w || RequestedFullscreen w || position_requested w
    then upd_tl t (fun w => w <{ keep_centered := false }>) s
    else
      let frame := LayoutFrame w in
      let centered := centered_frame w in
      if (box_width frame <=? 0) || (box_height frame <=? 0) ||
         ((box_width frame =? box_width centered) && (box_height frame =? box_height centered))
      then s
      else
        s |> MoveToplevelFrame t
               (box_x centered + idiv (box_width centered - box_width frame) 2)
               (box_y centered + idiv (box_height centered - box_height frame) 2)
          |> ConstrainToUsableArea t
          |> upd_tl t (fun w => w <{ centered_frame := LayoutFrame w }>)).

(** ** Maximizing, tiling, minimizing *)

(** The frame to return to, when the window has one. *)
Definition save_restore_box (w : Toplevel) : Toplevel :=
  match scene_tree w with
  | None => w
  | Some n =>
      let frame := tl_FrameGeometry w in
      if (box_width frame >? 0) && (box_height frame >? 0)
      then w <{ restore_box := Box (node_x n + box_x frame) (node_y n + box_y frame)
                                 (box_width frame) (box_height frame) }>
             <{ has_restore_box := true }>
      else w
  end.

Definition ssd_map (f : Ssd -> Ssd) (w : Toplevel) : Toplevel := w <{ ssd ::= fmap f }>.

Definition leave_tile (w : Toplevel) : Toplevel :=
  w <{ tiled := false }> <{ tile_position_pending := false }>
    |> ssd_map (fun d => SetTiled resize_ok d false)
    |> SetTiledState 0.

(** [Configure(restore_box)] and wait for the client to follow. *)
Definition restore_now (w : Toplevel) : Toplevel :=
  if has_restore_box w
  then (Configure (restore_box w) w) <{ restore_position_pending := true }> else w.

(** Fills the usable area [box] of [output]; also brings a hidden window back. *)
Definition maximize_onto (output : option nat) (box : wlr_box) (w : Toplevel) : Toplevel :=
  let w := w <{ maximized_output := output }> <{ maximized_box := box }> in
  let w := if (box_width box >? 0) && (box_height box >? 0) then Configure box w else w in
  if minimized w then (set_enabled true w) <{ minimized := false }> else w.

Definition SetMaximized (t : nat) (max : bool) : compositor -> compositor :=
  with_tl t (fun w s =>
    if negb (IsAlive w) || bool_decide (scene_tree w = None) then s
    else
    let s := tell_ui UiTileAnimation (CancelUi UiTileAnimation) s in
    if Bool.eqb max (maximized w) then
      upd_tl t (fun w =>
        (if negb max && tiled w then restore_now (leave_tile w) else w)
        |> ssd_map (fun d => SsdSetMaximized resize_ok d max)
        |> SetMaximizedState max) s
    else
      let s := s
        |> upd_tl t (fun w => when (max && negb (tiled w)) save_restore_box w)
        |> upd_tl t leave_tile
        |> upd_tl t (fun w => w <{ maximized := max }>
                                |> ssd_map (fun d => SsdSetMaximized resize_ok d max))
        |> RebuildSurfaceClip t
        |> UpdateCsdShadow t in
      let s :=
        if max then
          let output := pointer_output s in
          let box := UsableOutputBox output s in
          upd_tl t (maximize_onto output box) s
        else upd_tl t restore_now s in
      s |> upd_tl t (fun w => when (negb max) (fun w => w <{ maximized_output := None }>) w)
        |> upd_tl t (SetMaximizedState max)
        |> tell_protocols (UpdateToplevel (Surface w))).

Definition ToggleMaximized (t : nat) : compositor -> compositor :=
  with_tl t (fun w s => if CanMaximize w then SetMaximized t (negb (maximized w)) s else s).

Definition all_edges : Z :=
  Z.lor (Z.lor (Z.lor WLR_EDGE_TOP WLR_EDGE_BOTTOM) WLR_EDGE_LEFT) WLR_EDGE_RIGHT.

Definition TileToplevel (t : nat) (slot : Tile) : compositor -> compositor :=
  with_tl t (fun w s =>
    if negb (mapped w) || negb (IsAlive w) || bool_decide (scene_tree w = None) then s
    else
    match pointer_output s with
    | None => s
    | Some output =>
        let usable := UsableOutputBox (Some output) s in
        if (box_width usable <=? 1) || (box_height usable <=? 1) then s
        else
          let target := TileBox usable slot in
          let frame := tl_FrameGeometry w in
          let node := default (Node 0 0 false false) (scene_tree w) in
          s |> upd_tl t (fun w => when (negb (maximized w) && negb (tiled w)) save_restore_box w)
            |> tell_ui UiTileAnimation (StartTileAnimation
                 (Box (box_x frame + node_x node) (box_y frame + node_y node)
                      (box_width frame) (box_height frame)) target)
            |> upd_tl t (fun w => w
                 <{ maximized := false }> <{ maximized_output := None }> <{ tiled := true }>
                 <{ tiled_box := target }> <{ tile := slot }> <{ tiled_output := Some output }>
                 <{ tile_position_pending := true }> <{ restore_position_pending := false }>
                 |> ssd_map (fun d => SetTiled resize_ok (SsdSetMaximized resize_ok d false) true))
            |> RebuildSurfaceClip t
            |> UpdateCsdShadow t
            |> upd_tl t (fun w => w |> SetTiledState all_edges |> SetMaximizedState false
                                    |> Configure target)
            |> upd_tl t (fun w => if minimized w
                                  then set_enabled true (w <{ minimized := false }>) else w)
            |> FocusToplevel t
            |> tell_protocols (UpdateToplevel (Surface w))
    end).

Definition Minimize (t : nat) : compositor -> compositor :=
  with_tl t (fun w s =>
    if negb (CanMinimize w) || negb (mapped w) || minimized w || bool_decide (scene_tree w = None)
    then s
    else
      let s := s |> tell_ui UiTileAnimation (CancelUi UiTileAnimation)
                 |> upd_tl t (fun w => set_enabled false (w <{ minimized := true }>)) in
      let s := if bool_decide (focused_surface s = Surface w)
               then FocusNextToplevel (Some t) s else s in
      s |> tell ClearPointerFocus |> tell_protocols (UpdateToplevel (Surface w))).

(** ** Interactive move and resize *)

Definition qclamp (v lo hi : Q) : Q := if Qltb v lo then lo else if Qltb hi v then hi else v.

Definition RestoreForMove (t : nat) : compositor -> compositor :=
  with_tl t (fun w s =>
    if (negb (maximized w) && negb (tiled w)) || negb (has_restore_box w) then s
    else
      let output_box := OutputBoxAt (cursor_x s) (cursor_y s) in
      let ratio := if box_width output_box >? 0
        then qclamp ((cursor_x s - inject_Z (box_x output_box)) / inject_Z (box_width output_box))%Q 0 1
        else (1 # 2) in
      let rb := restore_box w in
      let frame := tl_FrameGeometry w in
      let max_offset := match ssd w with
                        | None => 48%Q | Some d => inject_Z (TitlebarHeight d) end in
      let node := default (Node 0 0 false false) (scene_tree w) in
      let offset := qclamp (cursor_y s - inject_Z (node_y node + box_y frame))%Q 0 max_offset in
      let s := SetMaximized t false s in
      let frame_x := Qtrunc (cursor_x s - inject_Z (box_width rb) * ratio)%Q in
      let frame_y := Qtrunc (cursor_y s - offset)%Q in
      upd_tl t (fun w =>
        let w := w <{ restore_box ::= fun b => Box frame_x frame_y (box_width b) (box_height b) }> in
        let restored := tl_FrameGeometry w in
        set_position (frame_x - box_x restored) (frame_y - box_y restored) w) s).

Definition CursorAtOutputTop (s : compositor) : bool :=
  let b := OutputBoxAt (cursor_x s) (cursor_y s) in
  (box_width b >? 0) && qge (cursor_x s) (box_x b) && qlt (cursor_x s) (box_x b + box_width b) &&
  Qle_bool (cursor_y s) (inject_Z (box_y b + 4)).

Definition EndInteractive (s : compositor) : compositor :=
  let target := grabbed_toplevel_ s in
  let should := bool_decide (cursor_mode_ s = kMove) && maximize_on_release_ s in
  let s := ResetCursorMode s in
  match target with
  | Some t => if should then SetMaximized t true s else s
  | None => s
  end.

Definition BeginInteractive (t : nat) (mode : CursorMode) (edges : Z) : compositor -> compositor :=
  with_tl t (fun w s =>
    if SessionLocked s || negb (mapped w) || bool_decide (scene_tree w = None) then s
    else
    let s := s |> tell_ui UiTileAnimation (CancelUi UiTileAnimation)
               |> upd_tl t (fun w => w <{ keep_centered := false }>) in
    let s := if bool_decide (mode = kMove) && (maximized w || tiled w)
             then RestoreForMove t s else s in
    let s := s <{ grabbed_toplevel_ := Some t }> <{ cursor_mode_ := mode }>
               <{ resize_edges_ := edges }> in
    with_tl t (fun w s =>
      let node := default (Node 0 0 false false) (scene_tree w) in
      if bool_decide (mode = kMove) then
        s <{ grab_x_ := (cursor_x s - inject_Z (node_x node))%Q }>
          <{ grab_y_ := (cursor_y s - inject_Z (node_y node))%Q }>
      else if (edges =? 0) || maximized w || RequestedFullscreen w then ResetCursorMode s
      else
        let s := s |> upd_tl t (SetResizingState true) |> tell (CursorName (ResizeCursorName edges)) in
        let f := tl_FrameGeometry w in
        let b := Box (box_x f + node_x node) (box_y f + node_y node) (box_width f) (box_height f) in
        let border_x := box_x b + (if has_flag edges WLR_EDGE_RIGHT then box_width b else 0) in
        let border_y := box_y b + (if has_flag edges WLR_EDGE_BOTTOM then box_height b else 0) in
        s <{ grab_box_ := b }> <{ grab_x_ := (cursor_x s - inject_Z border_x)%Q }>
          <{ grab_y_ := (cursor_y s - inject_Z border_y)%Q }>) s).

(** The frame a resize asks for: the grabbed edges follow the pointer, a border
    never crosses the opposite one, and growing upward stops at [usable]. *)
Definition resize_box (grab usable : wlr_box) (geometry_y edges border_x border_y : Z) : wlr_box :=
  let lft := box_x grab in
  let rgt := box_x grab + box_width grab in
  let top := box_y grab in
  let bottom := box_y grab + box_height grab in
  let '(top, bottom) :=
    if has_flag edges WLR_EDGE_TOP then
      let top := Z.min border_y (bottom - 1) in
      let min_top := box_y usable + geometry_y in
      (if (box_width usable >? 0) && (box_height usable >? 0) && (box_y grab >=? min_top)
       then Z.min (Z.max top min_top) (bottom - 1) else top, bottom)
    else if has_flag edges WLR_EDGE_BOTTOM then (top, Z.max border_y (top + 1))
    else (top, bottom) in
  let '(lft, rgt) :=
    if has_flag edges WLR_EDGE_LEFT then (Z.min border_x (rgt - 1), rgt)
    else if has_flag edges WLR_EDGE_RIGHT then (lft, Z.max border_x (lft + 1))
    else (lft, rgt) in
  Box lft top (rgt - lft) (bottom - top).

Definition kMoveTitlebarVisible : Z := 32.

(** The node position a move asks for: the frame's top stays in [usable]. *)
Definition move_y (usable : wlr_box) (frame_offset y : Z) : Z :=
  if (box_width usable >? 0) && (box_height usable >? 0) then
    let min_top := box_y usable in
    let max_top := Z.max min_top (box_y usable + box_height usable - kMoveTitlebarVisible) in
    zclamp (y + frame_offset) min_top max_top - frame_offset
  else y.

Definition ProcessInteractiveMotion (s : compositor) : compositor :=
  match grabbed_toplevel_ s ≫= fun t => find_tl t s with
  | None => ResetCursorMode s
  | Some w =>
      if negb (IsAlive w) then ResetCursorMode s
      else
        let t := tl_id w in
        let usable := UsableOutputBox (output_at (cursor_x s) (cursor_y s)) s in
        if bool_decide (cursor_mode_ s = kMove) then
          let node := default (Node 0 0 false false) (scene_tree w) in
          let x := Qtrunc (cursor_x s - grab_x_ s)%Q in
          let y := Qtrunc (cursor_y s - grab_y_ s)%Q in
          let y := move_y usable (box_y (LayoutFrame w) - node_y node) y in
          let s := upd_tl t (set_position x y) s in
          s <{ maximize_on_release_ := CursorAtOutputTop s }>
        else
          let border_x := Qtrunc (cursor_x s - grab_x_ s)%Q in
          let border_y := Qtrunc (cursor_y s - grab_y_ s)%Q in
          upd_tl t (Configure (resize_box (grab_box_ s) usable (box_y (Geometry w))
                                 (resize_edges_ s) border_x border_y)) s
  end.

(** ** Panels *)

(** Where a floating window with frame [box] goes when the usable area changes
    from [old] to [usable]: it only gives way where a newly reserved strip covers
    an edge that used to be usable. *)
Definition fit_position (box old usable : wlr_box) : Z * Z :=
  let usable_right := box_x usable + box_width usable in
  let usable_bottom := box_y usable + box_height usable in
  let x := box_x box in
  let x := if (box_x box + box_width box >? usable_right) &&
              (box_x box + box_width box <=? box_x old + box_width old)
           then Z.max (usable_right - box_width box) (box_x usable) else x in
  let x := if (box_x box <? box_x usable) && (box_x box >=? box_x old) then box_x usable else x in
  let y := box_y box in
  let y := if (box_y box + box_height box >? usable_bottom) &&
              (box_y box + box_height box <=? box_y old + box_height old)
           then Z.max (usable_bottom - box_height box) (box_y usable) else y in
  let y := if (box_y box <? box_y usable) && (box_y box >=? box_y old) then box_y usable else y in
  (x, y).

Definition fit_one (output : nat) (old usable : wlr_box) (t : nat) : compositor -> compositor :=
  with_tl t (fun w s =>
    let changed := negb (wlr_box_equal (Some old) (Some usable)) in
    if negb (IsAlive w) || bool_decide (scene_tree w = None) then s
    else if maximized w then
      if bool_decide (maximized_output w = Some output)
      then upd_tl t (fun w => Configure usable (w <{ maximized_box := usable }>)) s else s
    else if tiled w then
      if bool_decide (tiled_output w = Some output) && changed
      then upd_tl t (fun w => Configure (TileBox usable (tile w))
             (w <{ tiled_box := TileBox usable (tile w) }> <{ tile_position_pending := true }>)) s
      else s
    else if negb changed || (box_width old <=? 0) || (box_height old <=? 0) || negb (mapped w) ||
            minimized w || RequestedFullscreen w then s
    else
      let box := LayoutFrame w in
      if (box_width box <=? 0) || (box_height box <=? 0) ||
         negb (wlr_box_intersection (Some box) (Some old)).2 then s
      else
        let '(x, y) := fit_position box old usable in
        if (x =? box_x box) && (y =? box_y box) then s else MoveToplevelFrame t x y s).

Definition FitToplevelsToUsableArea (output : Output) (old : wlr_box) (s : compositor) : compositor :=
  let usable := usable_box output in
  if (box_width usable <=? 0) || (box_height usable <=? 0) then s
  else each_tl (fit_one (out_handle output) old usable) s.

(** ** Signal handlers of a window *)

Definition OnMap (t : nat) : compositor -> compositor :=
  with_tl t (fun w s =>
    let s := s |> upd_tl t (fun w => w <{ mapped := true }>) |> refresh_node t
               |> tell_protocols (MapToplevel (Surface w)) in
    let s := when (RequestedMaximized w) (SetMaximized t true) s in
    let s := when (RequestedFullscreen w) (fun s => s
               |> upd_tl t (SetFullscreenState true) |> RebuildSurfaceClip t |> UpdateCsdShadow t) s in
    let s := when (negb (placed w)) (fun s => s
               |> upd_tl t (fun w => w <{ placed := true }>) |> PlaceNewToplevel t) s in
    s |> ConstrainToUsableArea t |> FocusToplevel t).

(** The views are told in this order when a surface goes away. *)
Definition surface_users : list ui_component :=
  [UiWindowSelector; UiAppSwitcher; UiMultitasking; UiWindowPreviews; UiWindowMenu;
   UiTitlebarTooltip; UiSplitScreenSwitcher; UiTileAnimation].

Definition tell_unavailable (surface : option nat) (s : compositor) : compositor :=
  foldl (fun s c => tell_ui c (SurfaceUnavailable c surface) s) s surface_users.

Definition forget_menu (t : nat) (s : compositor) : compositor :=
  if bool_decide (pending_window_menu_ s = Some t)
  then s <{ pending_window_menu_ := None }> else s.

Definition drop_grab (t : nat) (s : compositor) : compositor :=
  if bool_decide (grabbed_toplevel_ s = Some t) then ResetCursorMode s else s.

Definition OnUnmap (t : nat) : compositor -> compositor :=
  with_tl t (fun w s =>
    let had_focus := bool_decide (Surface w <> None /\ focused_surface s = Surface w) in
    let s := s |> tell_unavailable (Surface w) |> forget_menu t
               |> upd_tl t (fun w => w <{ mapped := false }>)
               |> UpdateCsdShadow t
               |> tell_protocols (UnmapToplevel (Surface w))
               |> drop_grab t in
    if had_focus then FocusNextToplevel (Some t) s else s).

(** The frame position a commit puts back: that of the maximized, tiled or
    restored window. *)
Definition reposition_on_commit (w : Toplevel) : Toplevel :=
  let frame := tl_FrameGeometry w in
  let put b := set_position (box_x b - box_x frame) (box_y b - box_y frame) in
  if maximized w && (box_width (maximized_box w) >? 0) && (box_height (maximized_box w) >? 0)
  then put (maximized_box w) w
  else if tile_position_pending w && (box_width (tiled_box w) >? 0) && (box_height (tiled_box w) >? 0)
  then (put (tiled_box w) w) <{ tile_position_pending := false }>
  else if restore_position_pending w && has_restore_box w
  then (put (restore_box w) w) <{ restore_position_pending := false }>
  else w.

Definition update_ssd_on_commit (w : Toplevel) : Toplevel :=
  match ssd w with
  | None => w
  | Some _ =>
      let geometry := Geometry w in
      let w := ssd_map (fun d => SetGeometry resize_ok d geometry) w in
      if ssd_initial_position_pending w && (box_width geometry >? 0) && (box_height geometry >? 0)
      then
        let frame := tl_FrameGeometry w in
        (match scene_tree w with
         | Some n => if (node_x n =? 0) && (node_y n =? 0)
                     then set_position (- box_x frame) (- box_y frame) w else w
         | None => w
         end) <{ ssd_initial_position_pending := false }>
      else w
  end.

(** [initial] is [handle->base->initial_commit]. *)
Definition OnCommit (initial : bool) (t : nat) : compositor -> compositor :=
  with_tl t (fun w s =>
    let s := s |> tell_ui UiMultitasking (SurfaceUpdated UiMultitasking (Surface w))
               |> tell_ui UiWindowPreviews (SurfaceUpdated UiWindowPreviews (Surface w))
               |> RebuildSurfaceClip t in
    if bool_decide (handle w = None) then s
    else
      let s := s |> UpdateCsdShadow t
                 |> upd_tl t UpdateCapabilities
                 |> upd_tl t (when initial SendInitialConfigure)
                 |> upd_tl t update_ssd_on_commit
                 |> upd_tl t reposition_on_commit in
      s |> with_tl t (fun w s => when (keep_centered w) (KeepCentered t) s)
        |> tell_protocols (UpdateToplevel (Surface w))).

Definition OnRequestMaximize (t : nat) : compositor -> compositor :=
  with_tl t (fun w s => if negb (CanConfigure w) then s
                        else SetMaximized t (CanMaximize w && RequestedMaximized w) s).

Definition OnRequestMinimize (t : nat) : compositor -> compositor :=
  with_tl t (fun w s => if CanMinimize w then Minimize t s else s).

Definition OnRequestFullscreen (t : nat) : compositor -> compositor :=
  with_tl t (fun w s => if negb (CanConfigure w) then s
    else s |> upd_tl t (SetFullscreenState (RequestedFullscreen w))
           |> RebuildSurfaceClip t |> UpdateCsdShadow t
           |> tell_protocols (UpdateToplevel (Surface w))).

Definition OnRequestMove (t : nat) : compositor -> compositor := BeginInteractive t kMove 0.
Definition OnRequestResize (t : nat) (edges : Z) : compositor -> compositor :=
  BeginInteractive t kResizing edges.

Definition OnSetParent (t : nat) : compositor -> compositor :=
  with_tl t (fun w s => s
    |> upd_tl t UpdateCapabilities
    |> upd_tl t (fun w => when (bool_decide (handle w <> None))
         (ssd_map (fun d => SetDialog resize_ok d (bool_decide (ParentSurface w <> None)))) w)
    |> UpdateCsdShadow t
    |> (fun s => if maximized w && negb (CanMaximize w) then SetMaximized t false s else s)
    |> tell_protocols (UpdateToplevelParent (Surface w) (ParentSurface w))).

(** The scene node dies with its xdg surface, so it leaves the stacking order. *)
Definition OnDestroy (t : nat) : compositor -> compositor :=
  with_tl t (fun w s => s
    |> tell_unavailable (Surface w) |> forget_menu t |> drop_grab t
    |> (fun s => match Surface w with
         | Some f => (when (blur_renderer_ s) (fun s => s <{ round_corners ::= delete f }>) s)
                       <{ no_titlebar_surfaces_ ::= fun l => l ∖ {[f]} }>
         | None => s end)
    |> (fun s => s <{ stacking ::= List.filter (fun u => negb (u =? t)%nat) }>)
    |> upd_tl t (fun w => w <{ ssd := None }> <{ csd_shadow := None }> <{ handle := None }>
                            <{ scene_tree := None }> <{ mapped := false }>)).

(** A new xdg toplevel with address [id]; [created] says whether its scene tree
    could be created. *)
Definition OnNewToplevel (created : bool) (id : nat) (h : xdg_toplevel) (s : compositor)
    : compositor :=
  if negb created then s
  else
    let w := (new_toplevel id h (current_workspace_ s))
               <{ scene_tree := Some (Node 0 0 true true) }> in
    s <{ toplevels_ ::= fun l => l ++ [w] }> <{ stacking ::= fun l => l ++ [id] }>
      |> RebuildSurfaceClip id.

(** ** Requests of shell protocols (protocol/protocol_manager/protocol_manager.cc) *)

Definition RequestMaximize (surface : option nat) (max : bool) (s : compositor) : compositor :=
  match ToplevelForSurface surface s with
  | Some w => SetMaximized (tl_id w) (max && CanMaximize w) s
  | None => s
  end.

Definition RequestMinimize (surface : option nat) (min : bool) (s : compositor) : compositor :=
  match ToplevelForSurface surface s with
  | Some w =>
      if negb (CanMinimize w) then s
      else if min then Minimize (tl_id w) s
      else s |> upd_tl (tl_id w) (fun w => w <{ minimized := false }>) |> refresh_node (tl_id w)
  | None => s
  end.

(** For the seat of the compositor. *)
Definition RequestActivate (surface : option nat) (s : compositor) : compositor :=
  match ToplevelForSurface surface s with
  | Some w => FocusToplevel (tl_id w) s
  | None => s
  end.

Definition RequestFullscreen (surface : option nat) (full : bool) (s : compositor) : compositor :=
  match ToplevelForSurface surface s with
  | Some w => s |> upd_tl (tl_id w) (SetFullscreenState full) |> tell (UpdateToplevel surface)
  | None => s
  end.

End Core.
