(* ===== verification/WindowFacts.v ===== *)
(** * Shared facts about the window manager core

    How each operation of [Windows] acts on the part of the state the
    invariants speak about ([wview]): workspaces, session flags and, per window,
    identity, workspace, visibility and maximized or tiled state. Most
    operations leave it alone ([neutral]); the others change one window. *)

From S2P Require Import Prelude Box Ssd Window Windows.

(** ** Views *)

Record wcore := Core {
  c_id : nat; c_workspace : Z; c_all : bool; c_mapped : bool; c_minimized : bool;
  c_above : bool; c_maximized : bool; c_tiled : bool; c_surface : option nat;
  c_scene : bool }.

Definition core (w : Toplevel) : wcore :=
  Core (tl_id w) (workspace w) (all_workspaces w) (mapped w) (minimized w) (kept_above w)
    (maximized w) (tiled w) (Surface w) (bool_decide (scene_tree w <> None)).

Definition globals (s : compositor) :=
  (workspace_count_ s, current_workspace_ s, multitasking_sources_hidden_ s,
   window_previews_sources_hidden_ s, SessionLocked s, layer_surfaces_ s, has_keyboard s).

Definition wv : Type := (Z * Z * bool * bool * bool * list LayerSurface * bool) * list wcore.
Definition wview (s : compositor) : wv := (globals s, map core (toplevels_ s)).

Definition wids (s : compositor) : list nat := map tl_id (toplevels_ s).

Lemma wview_ids s : wids s = map c_id (wview s).2.
Proof. unfold wids, wview. simpl. by rewrite map_map. Qed.

(** ** Lookup and update *)

Lemma find_tl_Some t s w : find_tl t s = Some w -> w ∈ toplevels_ s /\ tl_id w = t.
Proof.
  unfold find_tl. intros [Hin Ht]%List.find_some. apply list_elem_of_In in Hin. split; [done|lia].
Qed.

Lemma find_tl_upd t f s u : (forall w, tl_id (f w) = tl_id w) ->
  find_tl u (upd_tl t f s) = (fun w => if (tl_id w =? t)%nat then f w else w) <$> find_tl u s.
Proof.
  intros Hf. unfold find_tl, upd_tl. simpl. induction (toplevels_ s) as [|w l IH]; [done|]. simpl.
  assert (E : tl_id (if (tl_id w =? t)%nat then f w else w) = tl_id w)
    by (destruct (tl_id w =? t)%nat; [apply Hf|done]).
  rewrite E. destruct (tl_id w =? u)%nat; [done|apply IH].
Qed.

Lemma find_tl_upd_eq t f s w : (forall w, tl_id (f w) = tl_id w) ->
  find_tl t s = Some w -> find_tl t (upd_tl t f s) = Some (f w).
Proof.
  intros Hf Hw. rewrite find_tl_upd, Hw by done. simpl.
  apply find_tl_Some in Hw as [_ ->]. by rewrite Nat.eqb_refl.
Qed.

(** Solves [core (f w) = core w] and the like for the record updates of the
    model. *)
Ltac core_done := intros; unfold core, Surface in *; simpl; rewrite ?option_fmap_compose; simpl;
  try done; repeat case_match; simplify_eq/=; try done.

(** ** Neutral steps *)

Lemma wview_tell n s : wview (tell n s) = wview s.
Proof. done. Qed.
Lemma wview_when b f s : (wview (f s) = wview s) -> wview (when b f s) = wview s.
Proof. by destruct b. Qed.
Lemma wview_tell_protocols n s : wview (tell_protocols n s) = wview s.
Proof. by apply wview_when. Qed.
Lemma wview_tell_ui c n s : wview (tell_ui c n s) = wview s.
Proof. by apply wview_when. Qed.

Lemma wview_upd_tl t f s : (forall w, core (f w) = core w) -> wview (upd_tl t f s) = wview s.
Proof.
  intros Hf. unfold wview. f_equal. simpl. rewrite map_map. apply map_ext. intros w.
  destruct (tl_id w =? t)%nat; [apply Hf|done].
Qed.

Lemma wview_with_tl t f s : (forall w, find_tl t s = Some w -> wview (f w s) = wview s) ->
  wview (with_tl t f s) = wview s.
Proof. unfold with_tl. destruct (find_tl t s); auto. Qed.

Lemma wview_foldl {A} (f : compositor -> A -> compositor) l s :
  (forall s x, wview (f s x) = wview s) -> wview (foldl f s l) = wview s.
Proof.
  intros Hf. revert s. induction l as [|x l IH]; intros s; simpl; [done|]. by rewrite IH, Hf.
Qed.

Lemma wview_each_tl f s : (forall t s, wview (f t s) = wview s) -> wview (each_tl f s) = wview s.
Proof. intros Hf. unfold each_tl. apply wview_foldl. auto. Qed.

Lemma wview_raise t s : wview (raise_to_top t s) = wview s.
Proof. done. Qed.

#[export] Hint Rewrite wview_tell wview_tell_protocols wview_tell_ui wview_raise : flake.

(** The fields of the state that the view does not show. *)
Class Unviewed {T} (get : compositor -> T) {F : Field get} : Prop :=
  unviewed : forall f s, wview (modify get f s) = wview s.
#[export] Instance unviewed_outputs : Unviewed outputs_.
Proof. done. Qed.
#[export] Instance unviewed_stacking : Unviewed stacking.
Proof. done. Qed.
#[export] Instance unviewed_no_titlebar_surfaces : Unviewed no_titlebar_surfaces_.
Proof. done. Qed.
#[export] Instance unviewed_focused_surface : Unviewed focused_surface.
Proof. done. Qed.
#[export] Instance unviewed_cursor_mode : Unviewed cursor_mode_.
Proof. done. Qed.
#[export] Instance unviewed_grabbed_toplevel : Unviewed grabbed_toplevel_.
Proof. done. Qed.
#[export] Instance unviewed_grab_x : Unviewed grab_x_.
Proof. done. Qed.
#[export] Instance unviewed_grab_y : Unviewed grab_y_.
Proof. done. Qed.
#[export] Instance unviewed_grab_box : Unviewed grab_box_.
Proof. done. Qed.
#[export] Instance unviewed_resize_edges : Unviewed resize_edges_.
Proof. done. Qed.
#[export] Instance unviewed_pending_window_menu : Unviewed pending_window_menu_.
Proof. done. Qed.
#[export] Instance unviewed_maximize_on_release : Unviewed maximize_on_release_.
Proof. done. Qed.
#[export] Instance unviewed_round_corners : Unviewed round_corners.
Proof. done. Qed.
#[export] Instance unviewed_log : Unviewed log.
Proof. done. Qed.

(** The per-window steps that leave the core alone. *)
Lemma core_set_position x y w : core (set_position x y w) = core w.
Proof.
  unfold core, Surface. simpl. f_equal. apply bool_decide_ext. by destruct (scene_tree w).
Qed.
Lemma core_set_enabled b w : core (set_enabled b w) = core w.
Proof. unfold core, Surface. simpl. f_equal. apply bool_decide_ext. by destruct (scene_tree w). Qed.

Lemma core_schedule now later w : (forall h, x_surface (now h) = x_surface h) ->
  core (schedule now later w) = core w.
Proof.
  intros Hn. unfold schedule, CanConfigure, core, Surface.
  destruct (handle w) as [h|] eqn:E; simpl.
  - destruct (x_initialized h); simpl; rewrite ?E; simpl; by rewrite ?Hn.
  - by rewrite E.
Qed.

Lemma core_Configure b w : core (Configure b w) = core w.
Proof.
  unfold Configure. destruct (scene_tree w); [|done]. destruct (_ || _); [done|].
  rewrite core_schedule by done. apply core_set_position.
Qed.

Lemma core_ssd_map f w : core (ssd_map f w) = core w.
Proof. done. Qed.
Lemma core_SetActivated b w : core (SetActivated b w) = core w.
Proof. by apply core_schedule. Qed.
Lemma core_SetMaximizedState b w : core (SetMaximizedState b w) = core w.
Proof. by apply core_schedule. Qed.
Lemma core_SetFullscreenState b w : core (SetFullscreenState b w) = core w.
Proof. by apply core_schedule. Qed.
Lemma core_SetTiledState e w : core (SetTiledState e w) = core w.
Proof. by apply core_schedule. Qed.
Lemma core_SetResizingState b w : core (SetResizingState b w) = core w.
Proof. unfold SetResizingState, CanConfigure, core, Surface. destruct (handle w) as [h|] eqn:E; simpl;
  [destruct (x_initialized h)|]; simpl; by rewrite ?E. Qed.

#[export] Hint Rewrite core_set_position core_set_enabled core_Configure core_ssd_map core_SetActivated
  core_SetMaximizedState core_SetFullscreenState core_SetTiledState core_SetResizingState : flake.

Lemma core_id w w' : core w = core w' -> tl_id w = tl_id w'.
Proof. by intros [= ->]. Qed.

Ltac core_tac := intros; autorewrite with flake;
  first [done | by core_done | by (repeat case_match; autorewrite with flake)].

Ltac neutral_step :=
  cbv beta zeta;
  match goal with
  | |- wview ?x = wview ?x => reflexivity
  | |- wview (upd_tl ?t ?f ?s) = _ => rewrite (wview_upd_tl t f s) by core_tac
  | |- wview (with_tl ?t ?f ?s) = _ => transitivity (wview s); [apply wview_with_tl; intros ? ?|]
  | |- wview (each_tl ?f ?s) = _ => transitivity (wview s); [apply wview_each_tl; intros|]
  | |- wview (foldl ?f ?s ?l) = _ => transitivity (wview s); [apply wview_foldl; intros|]
  | |- wview (when ?b ?f ?s) = _ => transitivity (wview s); [apply wview_when|]
  | |- wview (modify ?g ?f ?s) = _ => rewrite (unviewed (get := g) f s)
  | |- wview (if ?b then _ else _) = _ => destruct b
  | |- wview (match ?x with _ => _ end) = _ => destruct x
  | |- _ => progress autorewrite with flake
  end.
Ltac neutral := repeat neutral_step.

Section Neutral.
Context `{OutputLayout} (root_surface : nat -> nat) (resize_ok : Z -> Z -> bool).

Lemma wview_RebuildSurfaceClip t s : wview (RebuildSurfaceClip t s) = wview s.
Proof. unfold RebuildSurfaceClip. neutral. Qed.
Lemma wview_UpdateCsdShadow t s : wview (UpdateCsdShadow t s) = wview s.
Proof. unfold UpdateCsdShadow. neutral. Qed.
Lemma wview_Park s : wview (ParkXWaylandFocus s) = wview s.
Proof. unfold ParkXWaylandFocus. neutral. Qed.
Lemma wview_keyboard_enter f s : wview (keyboard_enter f s) = wview s.
Proof. unfold keyboard_enter. neutral. Qed.
Lemma wview_refresh_node t s : wview (refresh_node t s) = wview s.
Proof. unfold refresh_node. neutral. Qed.
Lemma wview_tell_mapped s : wview (tell_mapped s) = wview s.
Proof. unfold tell_mapped. neutral. Qed.
Lemma wview_tell_unavailable f s : wview (tell_unavailable f s) = wview s.
Proof. unfold tell_unavailable. neutral. Qed.

Lemma core_deactivate w :
  core (w <{ handle ::= fmap (fun h => h <{ x_activated := false }>) }>) = core w.
Proof. unfold core, Surface. simpl. by destruct (handle w). Qed.

Lemma wview_deactivate_previous p s : wview (deactivate_previous p s) = wview s.
Proof.
  unfold deactivate_previous. destruct (p ≫= _) as [w|]; [|done].
  destruct (CanConfigure w); [|done]. apply wview_upd_tl, core_deactivate.
Qed.

#[local] Hint Rewrite wview_RebuildSurfaceClip wview_UpdateCsdShadow wview_Park wview_keyboard_enter
  wview_refresh_node wview_tell_mapped wview_tell_unavailable wview_deactivate_previous : flake.

Lemma wview_raise_focused t s : wview (raise_focused t s) = wview s.
Proof. unfold raise_focused. neutral. Qed.
Lemma wview_FocusLayerSurface l s : wview (FocusLayerSurface l s) = wview s.
Proof. unfold FocusLayerSurface. neutral. Qed.

#[local] Hint Rewrite wview_raise_focused wview_FocusLayerSurface : flake.

Lemma wview_FocusToplevel t s : wview (FocusToplevel t s) = wview s.
Proof. unfold FocusToplevel. neutral. Qed.
#[local] Hint Rewrite wview_FocusToplevel : flake.
Lemma wview_FocusNextToplevel e s : wview (FocusNextToplevel e s) = wview s.
Proof. unfold FocusNextToplevel. neutral. Qed.
Lemma wview_ResetCursorMode s : wview (ResetCursorMode s) = wview s.
Proof.
  unfold ResetCursorMode. neutral. Qed.
Lemma wview_MoveToplevelFrame t x y s : wview (MoveToplevelFrame t x y s) = wview s.
Proof.
  unfold MoveToplevelFrame. neutral. Qed.
#[local] Hint Rewrite wview_FocusNextToplevel wview_ResetCursorMode wview_MoveToplevelFrame : flake.
Lemma wview_ConstrainToUsableArea t s : wview (ConstrainToUsableArea t s) = wview s.
Proof. unfold ConstrainToUsableArea. neutral. Qed.
#[local] Hint Rewrite wview_ConstrainToUsableArea : flake.
Lemma wview_PlaceNewToplevel t s : wview (PlaceNewToplevel root_surface t s) = wview s.
Proof. unfold PlaceNewToplevel. neutral. Qed.
Lemma wview_KeepCentered t s : wview (KeepCentered t s) = wview s.
Proof. unfold KeepCentered. neutral. Qed.

#[local] Hint Rewrite wview_PlaceNewToplevel wview_KeepCentered : flake.

Lemma core_UpdateCapabilities w : core (UpdateCapabilities w) = core w.
Proof.
  unfold UpdateCapabilities, core, Surface. simpl. destruct (handle w) as [h|] eqn:E; simpl; [|by rewrite ?E].
  destruct (_ || _); simpl; by rewrite ?E.
Qed.

Lemma core_SendInitialConfigure w : core (SendInitialConfigure w) = core w.
Proof.
  unfold SendInitialConfigure, core, Surface, apply_pending. simpl.
  destruct (handle w) as [h|]; simpl; [|done]. by repeat case_match.
Qed.

Lemma core_update_ssd w : core (update_ssd_on_commit resize_ok w) = core w.
Proof.
  unfold update_ssd_on_commit. destruct (ssd w); [|done]. cbv zeta.
  destruct (_ && _ && _); [|done].
  set (w1 := ssd_map _ w). transitivity (core w1); [|done].
  destruct (scene_tree w1) as [n|]; [|done]. destruct (_ && _); [|done].
  apply core_set_position.
Qed.

Lemma core_reposition w : core (reposition_on_commit w) = core w.
Proof.
  unfold reposition_on_commit. cbv zeta. repeat destruct (_ && _); try done; apply core_set_position.
Qed.

#[local] Hint Rewrite core_UpdateCapabilities core_SendInitialConfigure core_update_ssd core_reposition : flake.

Lemma wview_SetCsdShadow t b s : wview (SetCsdShadow t b s) = wview s.
Proof. unfold SetCsdShadow. neutral. Qed.
Lemma wview_SetRoundCorner t r s : wview (SetRoundCorner t r s) = wview s.
Proof. unfold SetRoundCorner. neutral. Qed.
Lemma wview_AttachSsd ok t s : wview (AttachSsd resize_ok ok t s) = wview s.
Proof. unfold AttachSsd. neutral. Qed.
#[local] Hint Rewrite wview_AttachSsd : flake.
Lemma wview_SetSsdEnabled ok t b s : wview (SetSsdEnabled resize_ok ok t b s) = wview s.
Proof. unfold SetSsdEnabled. neutral. Qed.
Lemma wview_SetNoTitlebarSurface f b s : wview (SetNoTitlebarSurface f b s) = wview s.
Proof. unfold SetNoTitlebarSurface. neutral. Qed.
Lemma wview_fit_one o old u t s : wview (fit_one o old u t s) = wview s.
Proof. unfold fit_one. neutral. Qed.
#[local] Hint Rewrite wview_fit_one : flake.
Lemma wview_Fit o old s : wview (FitToplevelsToUsableArea o old s) = wview s.
Proof. unfold FitToplevelsToUsableArea. neutral. Qed.
Lemma wview_ProcessInteractiveMotion s : wview (ProcessInteractiveMotion s) = wview s.
Proof. unfold ProcessInteractiveMotion. neutral. Qed.
Lemma wview_forget_menu t s : wview (forget_menu t s) = wview s.
Proof. unfold forget_menu. neutral. Qed.
Lemma wview_drop_grab t s : wview (drop_grab t s) = wview s.
Proof. unfold drop_grab. neutral. Qed.
#[local] Hint Rewrite wview_forget_menu wview_drop_grab : flake.

Lemma wview_OnCommit i t s : wview (OnCommit resize_ok i t s) = wview s.
Proof. unfold OnCommit, when. destruct i; neutral. Qed.
Lemma wview_OnRequestFullscreen t s : wview (OnRequestFullscreen t s) = wview s.
Proof. unfold OnRequestFullscreen. neutral. Qed.

(** ** Steps that change one window *)

Definition vupd (t : nat) (g : wcore -> wcore) (v : wv) : wv :=
  (v.1, map (fun c => if (c_id c =? t)%nat then g c else c) v.2).

(** Changes of a window that keep its identity and workspace, and never make it
    both maximized and tiled. *)
Record tame (g : wcore -> wcore) : Prop := {
  tame_id : forall c, c_id (g c) = c_id c;
  tame_workspace : forall c, c_workspace (g c) = c_workspace c;
  tame_state : forall c, (c_maximized c = true -> c_tiled c = false) ->
    c_maximized (g c) = true -> c_tiled (g c) = false }.

Lemma wview_upd_core t f g s : (forall w, core (f w) = g (core w)) ->
  wview (upd_tl t f s) = vupd t g (wview s).
Proof.
  intros Hf. unfold wview, vupd. f_equal. simpl. rewrite !map_map. apply map_ext. intros w.
  simpl. destruct (tl_id w =? t)%nat; [apply Hf|done].
Qed.

Lemma vupd_compose t f g v : (forall c, c_id (f c) = c_id c) ->
  vupd t g (vupd t f v) = vupd t (fun c => g (f c)) v.
Proof.
  intros Hf. unfold vupd. simpl. f_equal. rewrite map_map. apply map_ext. intros c.
  destruct (c_id c =? t)%nat eqn:E; [by rewrite Hf, E|by rewrite E].
Qed.

(** Views reachable by tame changes. *)
Definition tame_reach : wv -> wv -> Prop :=
  rtc (fun v v' => exists t g, tame g /\ v' = vupd t g v).

Lemma tame_refl v v' : v = v' -> tame_reach v v'.
Proof. intros ->. apply rtc_refl. Qed.
Lemma tame_trans v1 v2 v3 : tame_reach v1 v2 -> tame_reach v2 v3 -> tame_reach v1 v3.
Proof. apply transitivity. Qed.
Lemma tame_once v t g : tame g -> tame_reach v (vupd t g v).
Proof. intros Hg. apply rtc_once. by exists t, g. Qed.

Definition set_c_mapped (b : bool) (c : wcore) : wcore :=
  Core (c_id c) (c_workspace c) (c_all c) b (c_minimized c) (c_above c) (c_maximized c) (c_tiled c)
    (c_surface c) (c_scene c).
Definition set_c_minimized (b : bool) (c : wcore) : wcore :=
  Core (c_id c) (c_workspace c) (c_all c) (c_mapped c) b (c_above c) (c_maximized c) (c_tiled c)
    (c_surface c) (c_scene c).
Definition set_c_above (b : bool) (c : wcore) : wcore :=
  Core (c_id c) (c_workspace c) (c_all c) (c_mapped c) (c_minimized c) b (c_maximized c) (c_tiled c)
    (c_surface c) (c_scene c).
Definition set_c_layout (max tile : bool) (c : wcore) : wcore :=
  Core (c_id c) (c_workspace c) (c_all c) (c_mapped c) (c_minimized c) (c_above c) max tile
    (c_surface c) (c_scene c).
Definition set_c_gone (c : wcore) : wcore :=
  Core (c_id c) (c_workspace c) (c_all c) false (c_minimized c) (c_above c) (c_maximized c)
    (c_tiled c) None false.

Lemma core_leave_tile w : core (leave_tile resize_ok w) = set_c_layout (maximized w) false (core w).
Proof. unfold leave_tile. rewrite core_SetTiledState. done. Qed.

Lemma core_save_restore w : core (save_restore_box w) = core w.
Proof. unfold save_restore_box. destruct (scene_tree w); [|done]. by destruct (_ && _). Qed.

Lemma core_when b f w : core (f w) = core w -> core (when b f w) = core w.
Proof. by destruct b. Qed.

Lemma core_restore_now w : core (restore_now w) = core w.
Proof. unfold restore_now. destruct (has_restore_box w); [|done]. apply core_Configure. Qed.

#[local] Hint Rewrite core_save_restore core_restore_now : flake.

(** The change of a window whose maximized state is set: to its present value, or
    to the other one. *)
Definition set_max_same (max : bool) (c : wcore) : wcore :=
  if negb max && c_tiled c then set_c_layout (c_maximized c) false c else c.
Definition set_max_other (max : bool) (c : wcore) : wcore :=
  set_c_layout max false (if max then set_c_minimized false c else c).

Lemma core_max_same (max : bool) w :
  core ((if negb max && tiled w then restore_now (leave_tile resize_ok w) else w)
        |> ssd_map (fun d => SsdSetMaximized resize_ok d max) |> SetMaximizedState max) =
  set_max_same max (core w).
Proof.
  rewrite core_SetMaximizedState, core_ssd_map. unfold set_max_same. simpl c_tiled.
  destruct (negb max && tiled w); [|done]. rewrite core_restore_now. apply core_leave_tile.
Qed.

Lemma core_maximize_onto o b w : core (maximize_onto o b w) = set_c_minimized false (core w).
Proof.
  unfold maximize_onto. cbv zeta. set (w1 := if _ && _ then _ else _).
  assert (E1 : core w1 = core w)
    by (unfold w1; destruct (_ && _); [by rewrite core_Configure|done]).
  transitivity (set_c_minimized false (core w1)); [|by rewrite E1].
  destruct (minimized w1) eqn:Em.
  - transitivity (set_c_minimized false (core (set_enabled true w1))); [done|].
    by rewrite core_set_enabled.
  - unfold set_c_minimized, core. simpl. by rewrite Em.
Qed.

Lemma SetMaximized_view t max s :
  wview (SetMaximized resize_ok t max s) = wview s \/
  (exists w, find_tl t s = Some w /\ maximized w = max /\
     wview (SetMaximized resize_ok t max s) = vupd t (set_max_same max) (wview s)) \/
  (exists w, find_tl t s = Some w /\ maximized w = negb max /\
     wview (SetMaximized resize_ok t max s) = vupd t (set_max_other max) (wview s)).
Proof.
  unfold SetMaximized, with_tl. destruct (find_tl t s) as [w|] eqn:Ew; [|by left].
  destruct (_ || _); [by left|]. right. cbv zeta.
  destruct (Bool.eqb max (maximized w)) eqn:Em.
  - left. apply Bool.eqb_prop in Em. exists w. split_and!; [done|done|].
    rewrite (wview_upd_core _ _ (set_max_same max)) by (intros; apply core_max_same).
    by rewrite wview_tell_ui.
  - right. exists w. split_and!; [done|by destruct max, (maximized w)|].
    autorewrite with flake. rewrite wview_upd_tl by core_tac.
    rewrite wview_upd_tl by (intros; by apply core_when).
    assert (Hmid : forall s0, wview s0 = wview s -> wview (upd_tl t (fun w => w <{ maximized := max }>
        |> ssd_map (fun d => SsdSetMaximized resize_ok d max)) (upd_tl t (leave_tile resize_ok) s0)) =
      vupd t (set_c_layout max false) (wview s)).
    { intros s0 E. rewrite (wview_upd_core _ _ (fun c => set_c_layout max (c_tiled c) c)) by done.
      rewrite (wview_upd_core _ (leave_tile resize_ok) (fun c => set_c_layout (c_maximized c) false c))
        by (intros; apply core_leave_tile).
      rewrite vupd_compose, E by done. done. }
    destruct max.
    + rewrite (wview_upd_core _ _ (set_c_minimized false)).
      * autorewrite with flake. rewrite Hmid.
        -- by rewrite vupd_compose.
        -- rewrite wview_upd_tl by (intros; apply core_when, core_save_restore).
           apply wview_tell_ui.
      * intros. apply core_maximize_onto.
    + rewrite wview_upd_tl by core_tac. autorewrite with flake. rewrite Hmid; [done|].
      rewrite wview_upd_tl by (intros; apply core_when, core_save_restore). apply wview_tell_ui.
Qed.

Lemma tame_set_max_same max : tame (set_max_same max).
Proof.
  split; intros c; unfold set_max_same; destruct (negb max && c_tiled c); auto.
Qed.
Lemma tame_set_max_other max : tame (set_max_other max).
Proof. split; intros c; unfold set_max_other; destruct max; done. Qed.
Lemma tame_mapped b : tame (set_c_mapped b).
Proof. by split. Qed.
Lemma tame_minimized b : tame (set_c_minimized b).
Proof. by split. Qed.
Lemma tame_above b : tame (set_c_above b).
Proof. by split. Qed.
Lemma tame_gone : tame set_c_gone.
Proof. by split. Qed.
Lemma tame_tile : tame (fun c => set_c_layout false true (set_c_minimized false c)).
Proof. by split. Qed.

Lemma tame_SetMaximized t max s : tame_reach (wview s) (wview (SetMaximized resize_ok t max s)).
Proof.
  destruct (SetMaximized_view t max s) as [->|[(w & _ & _ & ->)|(w & _ & _ & ->)]].
  - by apply tame_refl.
  - apply tame_once, tame_set_max_same.
  - apply tame_once, tame_set_max_other.
Qed.

Lemma tame_ToggleMaximized t s : tame_reach (wview s) (wview (ToggleMaximized resize_ok t s)).
Proof.
  unfold ToggleMaximized, with_tl. destruct (find_tl t s) as [w|]; [|by apply tame_refl].
  destruct (CanMaximize w); [apply tame_SetMaximized|by apply tame_refl].
Qed.

Lemma TileToplevel_view t slot s :
  wview (TileToplevel resize_ok t slot s) = wview s \/
  wview (TileToplevel resize_ok t slot s) =
    vupd t (fun c => set_c_layout false true (set_c_minimized false c)) (wview s).
Proof.
  unfold TileToplevel, with_tl. destruct (find_tl t s) as [w|]; [|by left].
  destruct (_ || _); [by left|]. destruct (pointer_output s); [|by left]. cbv zeta.
  destruct (_ || _); [by left|]. right. autorewrite with flake.
  rewrite (wview_upd_core _ _ (set_c_minimized false)).
  2: { intros w0. destruct (minimized w0) eqn:Em; [by rewrite core_set_enabled|].
       unfold set_c_minimized, core. simpl. by rewrite Em. }
  rewrite wview_upd_tl by core_tac. autorewrite with flake.
  rewrite (wview_upd_core _ _ (set_c_layout false true)) by done. autorewrite with flake.
  rewrite wview_upd_tl by (intros; apply core_when, core_save_restore).
  by rewrite vupd_compose.
Qed.

Lemma tame_TileToplevel t slot s : tame_reach (wview s) (wview (TileToplevel resize_ok t slot s)).
Proof.
  destruct (TileToplevel_view t slot s) as [->| ->]; [by apply tame_refl|].
  apply tame_once, tame_tile.
Qed.

Lemma tame_Minimize t s : tame_reach (wview s) (wview (Minimize t s)).
Proof.
  unfold Minimize, with_tl. destruct (find_tl t s) as [w|]; [|by apply tame_refl].
  destruct (_ || _); [by apply tame_refl|]. cbv zeta. autorewrite with flake.
  set (s1 := upd_tl t _ _). assert (E : wview (if bool_decide (focused_surface s1 = Surface w)
    then FocusNextToplevel (Some t) s1 else s1) = wview s1)
    by (destruct (bool_decide _); autorewrite with flake; done).
  rewrite E. unfold s1. rewrite (wview_upd_core _ _ (set_c_minimized true)).
  - autorewrite with flake. apply tame_once, tame_minimized.
  - intros w0. by rewrite core_set_enabled.
Qed.

Lemma tame_RestoreForMove t s : tame_reach (wview s) (wview (RestoreForMove resize_ok t s)).
Proof.
  unfold RestoreForMove, with_tl. destruct (find_tl t s) as [w|]; [|by apply tame_refl].
  destruct (_ || _); [by apply tame_refl|]. cbv zeta.
  rewrite wview_upd_tl; [apply tame_SetMaximized|]. intros w0. by rewrite core_set_position.
Qed.

Lemma tame_EndInteractive s : tame_reach (wview s) (wview (EndInteractive resize_ok s)).
Proof.
  unfold EndInteractive. cbv zeta. rewrite <- (wview_ResetCursorMode s).
  destruct (grabbed_toplevel_ s); [|by apply tame_refl].
  destruct (_ && _); [apply tame_SetMaximized|by apply tame_refl].
Qed.

Lemma tame_BeginInteractive t m e s : tame_reach (wview s) (wview (BeginInteractive resize_ok t m e s)).
Proof.
  unfold BeginInteractive. unfold with_tl at 1. destruct (find_tl t s) as [w|]; [|by apply tame_refl].
  destruct (_ || _); [by apply tame_refl|]. cbv zeta. set (s1 := upd_tl t _ _).
  assert (E1 : wview s1 = wview s) by (unfold s1; neutral). rewrite <- E1.
  set (s2 := if _ && _ then _ else s1). apply (tame_trans _ (wview s2)).
  { unfold s2. destruct (_ && _); [apply tame_RestoreForMove|by apply tame_refl]. }
  clearbody s2. apply tame_refl. symmetry. neutral.
Qed.

Lemma tame_when b f s : (forall s, tame_reach (wview s) (wview (f s))) ->
  tame_reach (wview s) (wview (when b f s)).
Proof. destruct b; [auto|]. intros. by apply tame_refl. Qed.

Lemma tame_OnMap t s : tame_reach (wview s) (wview (OnMap root_surface resize_ok t s)).
Proof.
  unfold OnMap, with_tl. destruct (find_tl t s) as [w|]; [|by apply tame_refl]. cbv zeta.
  autorewrite with flake. set (s1 := tell_protocols _ _).
  apply (tame_trans _ (wview s1)).
  { unfold s1. autorewrite with flake. rewrite (wview_upd_core _ _ (set_c_mapped true)) by done.
    apply tame_once, tame_mapped. }
  set (s2 := when (RequestedMaximized w) _ s1). apply (tame_trans _ (wview s2)).
  { apply tame_when. intros. apply tame_SetMaximized. }
  clearbody s2. apply tame_refl. symmetry. neutral.
Qed.

Lemma tame_OnUnmap t s : tame_reach (wview s) (wview (OnUnmap t s)).
Proof.
  unfold OnUnmap, with_tl. destruct (find_tl t s) as [w|]; [|by apply tame_refl]. cbv zeta.
  set (s1 := drop_grab _ _). assert (E : wview (if bool_decide (Surface w <> None /\
    focused_surface s = Surface w) then FocusNextToplevel (Some t) s1 else s1) = wview s1)
    by (destruct (bool_decide _); autorewrite with flake; done).
  rewrite E. unfold s1. autorewrite with flake. rewrite (wview_upd_core _ _ (set_c_mapped false)) by done.
  autorewrite with flake. apply tame_once, tame_mapped.
Qed.

Lemma tame_OnDestroy t s : tame_reach (wview s) (wview (OnDestroy t s)).
Proof.
  unfold OnDestroy, with_tl. destruct (find_tl t s) as [w|]; [|by apply tame_refl]. cbv zeta.
  rewrite (wview_upd_core _ _ set_c_gone) by done.
  set (s1 := modify stacking _ _). assert (E : wview s1 = wview s) by (unfold s1; neutral).
  rewrite E. apply tame_once, tame_gone.
Qed.

Lemma tame_OnRequestMaximize t s : tame_reach (wview s) (wview (OnRequestMaximize resize_ok t s)).
Proof.
  unfold OnRequestMaximize, with_tl. destruct (find_tl t s) as [w|]; [|by apply tame_refl].
  destruct (negb _); [by apply tame_refl|apply tame_SetMaximized].
Qed.

Lemma tame_OnRequestMinimize t s : tame_reach (wview s) (wview (OnRequestMinimize t s)).
Proof.
  unfold OnRequestMinimize, with_tl. destruct (find_tl t s) as [w|]; [|by apply tame_refl].
  destruct (CanMinimize w); [apply tame_Minimize|by apply tame_refl].
Qed.

Lemma tame_OnSetParent t s : tame_reach (wview s) (wview (OnSetParent resize_ok t s)).
Proof.
  unfold OnSetParent, with_tl. destruct (find_tl t s) as [w|]; [|by apply tame_refl]. cbv zeta.
  autorewrite with flake. set (s1 := UpdateCsdShadow t _). apply (tame_trans _ (wview s1)).
  - apply tame_refl. symmetry. unfold s1. autorewrite with flake.
    rewrite wview_upd_tl by (intros; by apply core_when). neutral.
  - destruct (_ && _); [apply tame_SetMaximized|by apply tame_refl].
Qed.

Lemma tame_SetKeptAbove t b s : tame_reach (wview s) (wview (SetKeptAbove t b s)).
Proof.
  unfold SetKeptAbove, with_tl. destruct (find_tl t s) as [w|]; [|by apply tame_refl].
  destruct (Bool.eqb _ _); [by apply tame_refl|]. cbv zeta. autorewrite with flake.
  rewrite wview_when by done. rewrite (wview_upd_core _ _ (set_c_above b)) by done.
  apply tame_once, tame_above.
Qed.

Lemma tame_RequestMaximize f b s :
  tame_reach (wview s) (wview (RequestMaximize root_surface resize_ok f b s)).
Proof.
  unfold RequestMaximize. destruct (ToplevelForSurface _ f s); [apply tame_SetMaximized|by apply tame_refl].
Qed.

Lemma tame_RequestMinimize f b s :
  tame_reach (wview s) (wview (RequestMinimize root_surface f b s)).
Proof.
  unfold RequestMinimize. destruct (ToplevelForSurface _ f s) as [w|]; [|by apply tame_refl].
  destruct (negb _); [by apply tame_refl|]. destruct b; [apply tame_Minimize|].
  autorewrite with flake. rewrite (wview_upd_core _ _ (set_c_minimized false)) by done.
  apply tame_once, tame_minimized.
Qed.

Lemma wview_RequestActivate f s : wview (RequestActivate root_surface f s) = wview s.
Proof. unfold RequestActivate. neutral. Qed.
Lemma wview_RequestFullscreen f b s : wview (RequestFullscreen root_surface f b s) = wview s.
Proof. unfold RequestFullscreen. neutral. Qed.

End Neutral.

#[export] Hint Rewrite @wview_RebuildSurfaceClip @wview_UpdateCsdShadow @wview_Park
  @wview_keyboard_enter @wview_refresh_node @wview_tell_mapped @wview_tell_unavailable
  @wview_deactivate_previous @wview_raise_focused @wview_FocusLayerSurface @wview_FocusToplevel
  @wview_FocusNextToplevel @wview_ResetCursorMode @wview_MoveToplevelFrame
  @wview_ConstrainToUsableArea @wview_OnCommit @wview_OnRequestFullscreen
  @wview_ProcessInteractiveMotion @wview_Fit @wview_SetSsdEnabled @wview_SetRoundCorner
  @wview_SetCsdShadow @wview_SetNoTitlebarSurface @wview_RequestActivate
  @wview_RequestFullscreen : flake.

(** ** What focusing leaves alone *)

(** A property of a window that does not depend on how active it looks or on the
    activation state sent to its client. *)
Record focus_stable {B} (p : Toplevel -> B) : Prop := {
  fs_ssd : forall f w, p (w <{ ssd ::= f }>) = p w;
  fs_shadow : forall v w, p (w <{ csd_shadow := v }>) = p w;
  fs_activated : forall b w, p (w <{ handle ::= fmap (fun h => h <{ x_activated := b }>) }>) = p w;
  fs_pending : forall f w, p (w <{ pending_configure ::= f }>) = p w }.

Section FocusFrame.
Context {B : Type} (p : Toplevel -> B) (Hp : focus_stable p).

Definition pview (s : compositor) : list B := map p (toplevels_ s).

Lemma pview_upd t f s : (forall w, p (f w) = p w) -> pview (upd_tl t f s) = pview s.
Proof using.
  intros Hf. unfold pview. simpl. rewrite map_map. apply map_ext. intros w.
  destruct (tl_id w =? t)%nat; [apply Hf|done].
Qed.

Lemma pview_with_tl t f s : (forall w s, pview (f w s) = pview s) -> pview (with_tl t f s) = pview s.
Proof using. intros Hf. unfold with_tl. destruct (find_tl t s); [apply Hf|done]. Qed.

Lemma pview_each f s : (forall t s, pview (f t s) = pview s) -> pview (each_tl f s) = pview s.
Proof using.
  intros Hf. unfold each_tl. generalize (map tl_id (toplevels_ s)). intros l. revert s.
  induction l as [|t l IH]; intros s; simpl; [done|]. by rewrite IH, Hf.
Qed.

Lemma pview_when b f s : pview (f s) = pview s -> pview (when b f s) = pview s.
Proof using. by destruct b. Qed.

Lemma p_SetActivated b w : p (SetActivated b w) = p w.
Proof using Hp.
  unfold SetActivated, schedule. destruct (CanConfigure w); [apply (fs_activated p Hp)|].
  destruct (handle w); [apply (fs_pending p Hp)|done].
Qed.

Lemma pview_UpdateCsdShadow t s : pview (UpdateCsdShadow t s) = pview s.
Proof using Hp.
  apply pview_with_tl. intros w s0. cbv zeta.
  destruct (_ || _); apply pview_upd; intros; apply (fs_shadow p Hp).
Qed.

Lemma pview_raise_focused t s : pview (raise_focused t s) = pview s.
Proof using.
  unfold raise_focused. cbv zeta. rewrite pview_with_tl by (intros; by apply pview_when).
  rewrite pview_each; [done|]. intros u s0. apply pview_with_tl. intros w s1. by destruct (_ && _).
Qed.

Lemma pview_deactivate prev s : pview (deactivate_previous prev s) = pview s.
Proof using Hp.
  unfold deactivate_previous. destruct (prev ≫= _) as [w|]; [|done].
  destruct (CanConfigure w); [|done]. apply pview_upd. intros. apply (fs_activated p Hp).
Qed.

Lemma pview_FocusLayerSurface l s : pview (FocusLayerSurface l s) = pview s.
Proof using Hp.
  unfold FocusLayerSurface. destruct l as [[[] [[f i]|]]|]; try done.
  destruct (_ || _); [done|]. cbv zeta. set (s1 := each_tl _ s).
  assert (E1 : pview s1 = pview s).
  { apply pview_each. intros. rewrite pview_UpdateCsdShadow. apply pview_upd. intros. apply (fs_ssd p Hp). }
  clearbody s1. destruct (bool_decide _); [done|]. unfold tell_protocols, keyboard_enter, ParkXWaylandFocus.
  by rewrite !pview_when by done; rewrite pview_deactivate.
Qed.

Lemma pview_FocusToplevel t s : pview (FocusToplevel t s) = pview s.
Proof using Hp.
  apply pview_with_tl. clear s. intros w s. destruct (_ || _); [done|].
  destruct (exclusive_layer s); [apply pview_FocusLayerSurface|]. cbv zeta.
  set (s1 := each_tl _ s). assert (E1 : pview s1 = pview s).
  { apply pview_each. intros. rewrite pview_UpdateCsdShadow. apply pview_upd. intros. apply (fs_ssd p Hp). }
  clearbody s1. rewrite <- E1. unfold tell_ui, tell_protocols, keyboard_enter, ParkXWaylandFocus.
  destruct (bool_decide _); rewrite !pview_when by done; [done|].
  rewrite pview_upd by apply p_SetActivated. rewrite pview_raise_focused, pview_when by done.
  rewrite pview_deactivate. by apply pview_when.
Qed.

Lemma pview_FocusNextToplevel e s : pview (FocusNextToplevel e s) = pview s.
Proof using Hp.
  unfold FocusNextToplevel. destruct (SessionLocked s); [done|].
  destruct (exclusive_layer s); [apply pview_FocusLayerSurface|].
  destruct (List.find _ _); [apply pview_FocusToplevel|].
  unfold tell_protocols, ParkXWaylandFocus. rewrite pview_when by done.
  transitivity (pview (when (xwayland_ s) (tell ParkXWayland) s)); [done|]. by apply pview_when.
Qed.

End FocusFrame.

Lemma focus_stable_scene : focus_stable scene_tree.
Proof. by split. Qed.
Lemma focus_stable_core : focus_stable core.
Proof. split; intros; [done|done| |done]. unfold core, Surface. simpl. by destruct (handle w). Qed.

(** ** Where the focus goes *)

Section FocusTarget.

Lemma focused_each f s : (forall t s, focused_surface (f t s) = focused_surface s) ->
  focused_surface (each_tl f s) = focused_surface s.
Proof.
  intros Hf. unfold each_tl. generalize (map tl_id (toplevels_ s)). intros l. revert s.
  induction l as [|t l IH]; intros s; simpl; [done|]. by rewrite IH, Hf.
Qed.
Lemma focused_with_tl t f s : (forall w s, focused_surface (f w s) = focused_surface s) ->
  focused_surface (with_tl t f s) = focused_surface s.
Proof. intros Hf. unfold with_tl. destruct (find_tl t s); [apply Hf|done]. Qed.
Lemma focused_when b f s : focused_surface (f s) = focused_surface s ->
  focused_surface (when b f s) = focused_surface s.
Proof. by destruct b. Qed.
Lemma focused_UpdateCsdShadow t s : focused_surface (UpdateCsdShadow t s) = focused_surface s.
Proof. apply focused_with_tl. intros. cbv zeta. by destruct (_ || _). Qed.
Lemma focused_RebuildSurfaceClip t s : focused_surface (RebuildSurfaceClip t s) = focused_surface s.
Proof.
  apply focused_with_tl. intros w s0. destruct (Surface w); [|done]. cbv zeta. by destruct (negb _).
Qed.
Lemma focused_deactivate q s : focused_surface (deactivate_previous q s) = focused_surface s.
Proof.
  unfold deactivate_previous. destruct (q ≫= _) as [w|]; [|done]. by destruct (CanConfigure w).
Qed.
Lemma focused_raise_focused t s : focused_surface (raise_focused t s) = focused_surface s.
Proof.
  unfold raise_focused. cbv zeta. rewrite focused_with_tl by (intros; by apply focused_when).
  rewrite focused_each; [done|]. intros. apply focused_with_tl. intros. by destruct (_ && _).
Qed.

(** Entering a surface, as long as the seat has a keyboard. *)
Lemma focused_enter f s :
  focused_surface (keyboard_enter f s) = if has_keyboard s then f else focused_surface s.
Proof. unfold keyboard_enter. by destruct (has_keyboard s). Qed.

Lemma FocusLayerSurface_focused l s :
  focused_surface (FocusLayerSurface (Some l) s) = focused_surface s \/
  exists f i, ls_handle l = Some (f, i) /\ focused_surface (FocusLayerSurface (Some l) s) = Some f.
Proof.
  unfold FocusLayerSurface. destruct l as [[] [[f i]|]]; try by left.
  destruct (_ || _); [by left|]. cbv zeta. set (s1 := each_tl _ s).
  assert (E1 : focused_surface s1 = focused_surface s).
  { apply focused_each. intros. by rewrite focused_UpdateCsdShadow. }
  clearbody s1. destruct (bool_decide _); [by left|]. unfold tell_protocols. rewrite !focused_when by done.
  rewrite focused_enter. destruct (has_keyboard _); [by right; exists f, i|]. left.
  unfold ParkXWaylandFocus. by rewrite focused_when, focused_deactivate.
Qed.

Lemma FocusToplevel_focused t s :
  focused_surface (FocusToplevel t s) = focused_surface s \/
  (exists w, find_tl t s = Some w /\ on_current w s = true /\ mapped w = true /\ minimized w = false /\
     focused_surface (FocusToplevel t s) = Surface w) \/
  (exists l f i, exclusive_layer s = Some l /\ ls_handle l = Some (f, i) /\
     focused_surface (FocusToplevel t s) = Some f).
Proof.
  unfold FocusToplevel, with_tl. destruct (find_tl t s) as [w|] eqn:Ew; [|by left].
  destruct (_ || _) eqn:Eg; [by left|]. prop_bool.
  destruct (exclusive_layer s) as [l|] eqn:El.
  { destruct (FocusLayerSurface_focused l s) as [->|(f & i & Hl & ->)]; [by left|].
    right. right. by exists l, f, i. }
  cbv zeta. set (s1 := each_tl _ s). assert (E1 : focused_surface s1 = focused_surface s).
  { apply focused_each. intros. by rewrite focused_UpdateCsdShadow. }
  clearbody s1. unfold tell_protocols, tell_ui.
  destruct (bool_decide (focused_surface s1 = Surface w)); rewrite !focused_when by done; [by left|].
  rewrite focused_enter. destruct (has_keyboard _).
  - right. left. by exists w.
  - left. rewrite focused_when by done. simpl. unfold ParkXWaylandFocus.
    by rewrite focused_raise_focused, focused_when, focused_deactivate, focused_when.
Qed.

Lemma FocusNextToplevel_focused e s :
  focused_surface (FocusNextToplevel e s) = focused_surface s \/
  focused_surface (FocusNextToplevel e s) = None \/
  (exists w, w ∈ toplevels_ s /\ on_current w s = true /\ mapped w = true /\ minimized w = false /\
     focused_surface (FocusNextToplevel e s) = Surface w) \/
  (exists l f i, exclusive_layer s = Some l /\ ls_handle l = Some (f, i) /\
     focused_surface (FocusNextToplevel e s) = Some f).
Proof.
  unfold FocusNextToplevel. destruct (SessionLocked s); [by left|].
  destruct (exclusive_layer s) as [l|] eqn:El.
  { destruct (FocusLayerSurface_focused l s) as [->|(f & i & Hl & ->)]; [by left|].
    do 3 right. by exists l, f, i. }
  destruct (List.find _ _) as [c|].
  - destruct (FocusToplevel_focused (tl_id c) s) as [->|[(w & Hw & ? & ? & ? & ->)|(l & f & i & ? & _)]];
      [by left| |congruence].
    do 2 right. left. exists w. apply find_tl_Some in Hw as [? _]. by split_and!.
  - right. left. unfold tell_protocols. by rewrite focused_when.
Qed.

End FocusTarget.

(** ** Loops over all windows *)

(** A loop whose step for window [t] changes what [p] shows of that window by
    [g], and keeps [K], changes it by [g] for every window. *)
Lemma each_tl_pview {B} (p : Toplevel -> B) (idb : B -> nat) (K : compositor -> Prop) f g s :
  (forall w, idb (p w) = tl_id w) -> (forall x, idb (g x) = idb x) ->
  (forall t s0, K s0 -> pview p (f t s0) =
     map (fun x => if (idb x =? t)%nat then g x else x) (pview p s0) /\ K (f t s0)) ->
  NoDup (wids s) -> K s -> pview p (each_tl f s) = map g (pview p s) /\ K (each_tl f s).
Proof.
  intros Hp Hg Hf Hnd HK. unfold each_tl. fold (wids s).
  assert (Hl : forall l s0, NoDup l -> K s0 ->
    pview p (foldl (fun s t => f t s) s0 l) =
      map (fun x => if decide (idb x ∈ l) then g x else x) (pview p s0) /\
    K (foldl (fun s t => f t s) s0 l)).
  { induction l as [|t l IH]; intros s0 Hn HK0; cbn [foldl].
    - split; [|done]. rewrite <- (map_id (pview p s0)) at 1. apply map_ext. intros x.
      by rewrite decide_False by apply not_elem_of_nil.
    - apply NoDup_cons in Hn as [Ht Hn]. destruct (Hf t s0 HK0) as [E HK1].
      destruct (IH (f t s0) Hn HK1) as [-> HK2]. split; [|done]. rewrite E, map_map.
      apply map_ext. intros x. destruct (Nat.eqb_spec (idb x) t) as [<-|Hne].
      + rewrite Hg, decide_False by done. by rewrite decide_True by left.
      + destruct (decide (idb x ∈ l)); [by rewrite decide_True by (by right)|].
        rewrite decide_False; [done|]. by intros [?|?]%elem_of_cons. }
  destruct (Hl (wids s) s Hnd HK) as [-> HK']. split; [|done]. apply map_ext_in. intros x Hx.
  rewrite decide_True; [done|]. apply list_elem_of_In, list_elem_of_fmap in Hx as (w & -> & Hw).
  rewrite Hp. by apply list_elem_of_fmap_2.
Qed.

Lemma each_tl_map (K : compositor -> Prop) f g s :
  (forall w, tl_id (g w) = tl_id w) ->
  (forall t s0, K s0 -> toplevels_ (f t s0) =
     map (fun w => if (tl_id w =? t)%nat then g w else w) (toplevels_ s0) /\ K (f t s0)) ->
  NoDup (wids s) -> K s -> toplevels_ (each_tl f s) = map g (toplevels_ s) /\ K (each_tl f s).
Proof.
  intros Hg Hf Hnd HK.
  assert (Hv : forall s0, pview (fun w => w) s0 = toplevels_ s0) by (intros; apply map_id).
  rewrite <- !Hv. apply (each_tl_pview _ tl_id K); auto. intros. rewrite !Hv. auto.
Qed.

Lemma find_tl_unique s w : NoDup (wids s) -> w ∈ toplevels_ s -> find_tl (tl_id w) s = Some w.
Proof.
  unfold wids, find_tl. induction (toplevels_ s) as [|x l IH]; [set_solver|]. simpl.
  intros [Hx Hnd]%NoDup_cons [->|Hw]%elem_of_cons; [by rewrite Nat.eqb_refl|].
  destruct (Nat.eqb_spec (tl_id x) (tl_id w)) as [E|]; [|by apply IH].
  destruct Hx. rewrite E. by apply list_elem_of_fmap_2.
Qed.

(** An update that looks at the window it updates. *)
Lemma with_upd_map t (g : Toplevel -> compositor -> Toplevel -> Toplevel) s :
  NoDup (wids s) ->
  toplevels_ (with_tl t (fun w s => upd_tl t (g w s) s) s) =
    map (fun w => if (tl_id w =? t)%nat then g w s w else w) (toplevels_ s).
Proof.
  intros Hnd. unfold with_tl. destruct (find_tl t s) as [w|] eqn:Ew; simpl.
  - apply map_ext_in. intros w' Hw'. destruct (Nat.eqb_spec (tl_id w') t) as [<-|]; [|done].
    rewrite (find_tl_unique s w' Hnd) in Ew by (by apply list_elem_of_In). by injection Ew as ->.
  - rewrite <- (map_id (toplevels_ s)) at 1. apply map_ext_in. intros w' Hw'.
    destruct (Nat.eqb_spec (tl_id w') t) as [<-|]; [|done].
    by rewrite (find_tl_unique s w' Hnd) in Ew by (by apply list_elem_of_In).
Qed.

(** Visibility only looks at the core of a window and at the globals. *)
Definition visible_core (v : wv) (c : wcore) : bool :=
  let '(_, cur, h1, h2, _, _, _) := v.1 in
  c_mapped c && negb (c_minimized c) && (c_all c || (c_workspace c =? cur)) && negb h1 && negb h2.

Lemma visible_core_eq w s : IsToplevelVisible w s = visible_core (wview s) (core w).
Proof. done. Qed.

(** Refreshing all nodes makes them agree with visibility. *)
Lemma refresh_all s : NoDup (wids s) ->
  toplevels_ (each_tl refresh_node s) =
    map (fun w => set_enabled (IsToplevelVisible w s) w) (toplevels_ s).
Proof.
  intros Hnd. apply (each_tl_map (fun s0 => wview s0 = wview s)); [done| |done|done].
  intros t s0 E. split; [|by rewrite wview_refresh_node]. unfold refresh_node.
  assert (Hnd0 : NoDup (wids s0)) by (rewrite wview_ids, E, <- wview_ids; done).
  rewrite (with_upd_map t (fun w s => set_enabled (IsToplevelVisible w s))) by done.
  apply map_ext. intros w. destruct (_ =? t)%nat; [|done]. by rewrite !visible_core_eq, E.
Qed.

(** Notices change nothing but the log. *)
Lemma tell_mapped_rest s :
  toplevels_ (tell_mapped s) = toplevels_ s /\ focused_surface (tell_mapped s) = focused_surface s /\
  globals (tell_mapped s) = globals s.
Proof.
  unfold tell_mapped, each_tl. generalize (map tl_id (toplevels_ s)). intros l. revert s.
  induction l as [|t l IH]; intros s; simpl; [done|]. destruct (IH (with_tl t (fun w s =>
    when (mapped w) (tell (UpdateToplevel (Surface w))) s) s)) as (-> & -> & ->).
  unfold with_tl. destruct (find_tl t s) as [w|]; [|done]. by destruct (mapped w).
Qed.
