(* ===== verification/KeptFields.v ===== *)
(** * What window operations leave alone

    Focusing, maximizing, minimizing and the like change windows, their stacking,
    the keyboard focus, corner radii and the log, and nothing else. An observation
    [P] of the compositor that does not look at those ([Ignores]) is unchanged by
    them. *)

From S2P Require Import Prelude Box Ssd Window Windows.

#[local] Set Default Proof Using "Type*".

Class Ignores {X : Type} (P : compositor -> X) := {
  ig_toplevels : forall f s, P (s <{ toplevels_ ::= f }>) = P s;
  ig_stacking : forall f s, P (s <{ stacking ::= f }>) = P s;
  ig_focus : forall f s, P (s <{ focused_surface ::= f }>) = P s;
  ig_corners : forall f s, P (s <{ round_corners ::= f }>) = P s;
  ig_log : forall f s, P (s <{ log ::= f }>) = P s }.

(** Observations that do not look at the interactive move or resize either. *)
Class IgnoresGrab {X : Type} (P : compositor -> X) := {
  ig_mode : forall f s, P (s <{ cursor_mode_ ::= f }>) = P s;
  ig_grabbed : forall f s, P (s <{ grabbed_toplevel_ ::= f }>) = P s;
  ig_grab_x : forall f s, P (s <{ grab_x_ ::= f }>) = P s;
  ig_grab_y : forall f s, P (s <{ grab_y_ ::= f }>) = P s;
  ig_grab_box : forall f s, P (s <{ grab_box_ ::= f }>) = P s;
  ig_edges : forall f s, P (s <{ resize_edges_ ::= f }>) = P s;
  ig_on_release : forall f s, P (s <{ maximize_on_release_ ::= f }>) = P s }.

Definition kept {X : Type} (P : compositor -> X) (s s' : compositor) : Prop := P s' = P s.

Section Steps.
Context {X : Type} (P : compositor -> X) `{!Ignores P}.

#[export] Instance kept_preorder : PreOrder (kept P).
Proof. split; [done|]. unfold kept. intros ? ? ?. congruence. Qed.

Lemma kept_trans s1 s2 s3 : kept P s1 s2 -> kept P s2 s3 -> kept P s1 s3.
Proof. apply transitivity. Qed.
Lemma kept_foldl {A} (f : compositor -> A -> compositor) l s :
  (forall a s, kept P s (f s a)) -> kept P s (foldl f s l).
Proof.
  intros Hf. revert s. induction l as [|a l IH]; intros s; simpl; [done|].
  etransitivity; [apply Hf|apply IH].
Qed.
Lemma kept_each f s : (forall t s, kept P s (f t s)) -> kept P s (each_tl f s).
Proof. intros Hf. apply kept_foldl. intros. apply Hf. Qed.
Lemma kept_with_tl t f s : (forall w s, kept P s (f w s)) -> kept P s (with_tl t f s).
Proof. intros Hf. unfold with_tl. by destruct (find_tl t s). Qed.
Lemma kept_when b f s : (forall s, kept P s (f s)) -> kept P s (when b f s).
Proof. by destruct b. Qed.
Lemma kept_upd_tl t f s : kept P s (upd_tl t f s).
Proof. apply ig_toplevels. Qed.
Lemma kept_tell n s : kept P s (tell n s).
Proof. apply ig_log. Qed.
Lemma kept_raise t s : kept P s (raise_to_top t s).
Proof. apply ig_stacking. Qed.
Lemma kept_tell_protocols n s : kept P s (tell_protocols n s).
Proof. apply kept_when. intros. apply kept_tell. Qed.
Lemma kept_tell_ui c n s : kept P s (tell_ui c n s).
Proof. apply kept_when. intros. apply kept_tell. Qed.
Lemma kept_let s x f : kept P s x -> (forall y, kept P y (f y)) -> kept P s (f x).
Proof. intros Hx Hf. eapply kept_trans; [exact Hx|apply Hf]. Qed.

End Steps.

Create HintDb kept discriminated.
#[export] Hint Constants Opaque : kept.

(** Decomposes an operation into assignments, loops and known operations. *)
Ltac kept_prim :=
  first [apply ig_toplevels | apply ig_stacking | apply ig_focus | apply ig_corners | apply ig_log
        | apply ig_mode | apply ig_grabbed | apply ig_grab_x | apply ig_grab_y | apply ig_grab_box
        | apply ig_edges | apply ig_on_release].
Ltac kept_step :=
  cbv beta;
  match goal with
  | |- kept ?P ?a (let s : compositor := ?x in @?f s) => apply (kept_let P a x f)
  | |- kept ?P ?a (let v := ?x in @?f v) => change (kept P a (f x))
  | |- forall _ : compositor, _ => intro
  | |- kept _ ?a ?b => constr_eq a b; reflexivity
  | |- kept ?P _ (upd_tl ?t ?f ?s) => apply (kept_trans P _ s); [|apply (kept_upd_tl P)]
  | |- kept ?P _ (tell ?n ?s) => apply (kept_trans P _ s); [|apply (kept_tell P)]
  | |- kept ?P _ (raise_to_top ?n ?s) => apply (kept_trans P _ s); [|apply (kept_raise P)]
  | |- kept ?P _ (tell_protocols ?n ?s) => apply (kept_trans P _ s); [|apply (kept_tell_protocols P)]
  | |- kept ?P _ (tell_ui ?c ?n ?s) => apply (kept_trans P _ s); [|apply (kept_tell_ui P)]
  | |- kept ?P _ (modify ?g ?f ?s) => apply (kept_trans P _ s); [|kept_prim]
  | |- kept ?P _ (with_tl ?t ?f ?s) => apply (kept_trans P _ s); [|apply (kept_with_tl P); intros]
  | |- kept ?P _ (each_tl ?f ?s) => apply (kept_trans P _ s); [|apply (kept_each P); intros]
  | |- kept ?P _ (foldl ?f ?s ?l) => apply (kept_trans P _ s); [|apply (kept_foldl P); intros]
  | |- kept ?P _ (when ?b ?f ?s) => apply (kept_trans P _ s); [|apply (kept_when P); intros]
  | |- kept _ _ (if ?b then _ else _) => destruct b
  | |- kept _ _ (match ?x with _ => _ end) => destruct x
  | |- kept ?P _ _ => eapply (kept_trans P); [|solve [typeclasses eauto with kept typeclass_instances nocore]]
  end.
Ltac kept_tac := repeat kept_step.

Section Ops.
Context {X : Type} (P : compositor -> X) `{!Ignores P} `{OutputLayout}.
Context (root_surface : nat -> nat) (resize_ok : Z -> Z -> bool).

Lemma kept_RebuildSurfaceClip t s : kept P s (RebuildSurfaceClip t s).
Proof. unfold RebuildSurfaceClip. kept_tac. Qed.
Lemma kept_UpdateCsdShadow t s : kept P s (UpdateCsdShadow t s).
Proof. unfold UpdateCsdShadow. kept_tac. Qed.
Lemma kept_refresh_node t s : kept P s (refresh_node t s).
Proof. unfold refresh_node. kept_tac. Qed.
Lemma kept_MoveToplevelFrame t x y s : kept P s (MoveToplevelFrame t x y s).
Proof. unfold MoveToplevelFrame. kept_tac. Qed.
Lemma kept_ParkXWaylandFocus s : kept P s (ParkXWaylandFocus s).
Proof. unfold ParkXWaylandFocus. kept_tac. Qed.
Lemma kept_keyboard_enter f s : kept P s (keyboard_enter f s).
Proof. unfold keyboard_enter. kept_tac. Qed.
Lemma kept_deactivate_previous f s : kept P s (deactivate_previous f s).
Proof. unfold deactivate_previous. kept_tac. Qed.
Lemma kept_raise_focused t s : kept P s (raise_focused t s).
Proof. unfold raise_focused. kept_tac. Qed.
#[local] Hint Resolve kept_RebuildSurfaceClip kept_UpdateCsdShadow kept_refresh_node
  kept_MoveToplevelFrame kept_ParkXWaylandFocus kept_keyboard_enter kept_deactivate_previous
  kept_raise_focused : kept.
Lemma kept_FocusLayerSurface l s : kept P s (FocusLayerSurface l s).
Proof. unfold FocusLayerSurface. kept_tac. Qed.
#[local] Hint Resolve kept_FocusLayerSurface : kept.
Lemma kept_FocusToplevel t s : kept P s (FocusToplevel t s).
Proof. unfold FocusToplevel. kept_tac. Qed.
#[local] Hint Resolve kept_FocusToplevel : kept.
Lemma kept_FocusNextToplevel e s : kept P s (FocusNextToplevel e s).
Proof. unfold FocusNextToplevel. kept_tac. Qed.
#[local] Hint Resolve kept_FocusNextToplevel : kept.
Lemma kept_ConstrainToUsableArea t s : kept P s (ConstrainToUsableArea t s).
Proof. unfold ConstrainToUsableArea. kept_tac. Qed.
#[local] Hint Resolve kept_ConstrainToUsableArea : kept.
Lemma kept_SetMaximized t max s : kept P s (SetMaximized resize_ok t max s).
Proof. unfold SetMaximized. kept_tac. Qed.
#[local] Hint Resolve kept_SetMaximized : kept.
Lemma kept_ToggleMaximized t s : kept P s (ToggleMaximized resize_ok t s).
Proof. unfold ToggleMaximized. kept_tac. Qed.
Lemma kept_RestoreForMove t s : kept P s (RestoreForMove resize_ok t s).
Proof. unfold RestoreForMove. kept_tac. Qed.

End Ops.

#[export] Hint Resolve kept_FocusLayerSurface kept_FocusToplevel kept_FocusNextToplevel
  kept_SetMaximized kept_ToggleMaximized kept_RestoreForMove : kept.

Section Grabs.
Context {X : Type} (P : compositor -> X) `{!Ignores P, !IgnoresGrab P} `{OutputLayout}.
Context (root_surface : nat -> nat) (resize_ok : Z -> Z -> bool).

Lemma kept_ResetCursorMode s : kept P s (ResetCursorMode s).
Proof. unfold ResetCursorMode. kept_tac. Qed.
#[local] Hint Resolve kept_ResetCursorMode : kept.
Lemma kept_EndInteractive s : kept P s (EndInteractive resize_ok s).
Proof. unfold EndInteractive. kept_tac. Qed.
Lemma kept_BeginInteractive t m e s : kept P s (BeginInteractive resize_ok t m e s).
Proof. unfold BeginInteractive. kept_tac. Qed.
Lemma kept_Minimize t s : kept P s (Minimize t s).
Proof. unfold Minimize. kept_tac. Qed.
Lemma kept_ProcessInteractiveMotion s : kept P s (ProcessInteractiveMotion s).
Proof. unfold ProcessInteractiveMotion. kept_tac. Qed.

End Grabs.

#[export] Hint Resolve kept_ResetCursorMode kept_EndInteractive kept_BeginInteractive kept_Minimize
  kept_ProcessInteractiveMotion : kept.

#[export] Instance cursor_mode_ignores : Ignores cursor_mode_.
Proof. by split. Qed.
#[export] Instance grabbed_ignores : Ignores grabbed_toplevel_.
Proof. by split. Qed.

(** What the handling of a button release depends on. *)
Definition session (s : compositor) : bool * option nat := (SessionLocked s, pending_window_menu_ s).

#[export] Instance session_ignores : Ignores session.
Proof. by split. Qed.
#[export] Instance session_ignores_grab : IgnoresGrab session.
Proof. by split. Qed.
