(* ===== verification/Workspaces.v ===== *)
(** * Workspaces

    Theorems about the workspace operations of [Windows]: the invariant of the
    window manager over all its operations, what adding, removing and reordering
    workspaces does to windows, and which windows a workspace switch shows. *)

From S2P Require Import Prelude Box Ssd Window Windows WindowFacts.

Section Workspaces.
Context `{OutputLayout} (root_surface : nat -> nat) (resize_ok : Z -> Z -> bool).

(** ** Effects on the view *)

(** The workspace counters of a view. *)
Definition v_count (v : wv) : Z := v.1.1.1.1.1.1.1.
Definition v_current (v : wv) : Z := v.1.1.1.1.1.1.2.

Lemma v_count_wview s : v_count (wview s) = workspace_count_ s.
Proof. done. Qed.
Lemma v_current_wview s : v_current (wview s) = current_workspace_ s.
Proof. done. Qed.

Lemma wview_toplevels_map g s :
  (wview (s <{ toplevels_ ::= map g }>)).2 = map core (map g (toplevels_ s)) /\
  (wview (s <{ toplevels_ ::= map g }>)).1 = (wview s).1.
Proof. done. Qed.

(** The guard of a switch. *)
Definition switch_refused (ws : Z) (s : compositor) : bool :=
  (ws <? 0) || (ws >=? workspace_count_ s) || (ws =? current_workspace_ s) || SessionLocked s.

Lemma SwitchWorkspace_accepted ws s : switch_refused ws s = false ->
  wview (SwitchWorkspace root_surface ws s) = wview (s <{ current_workspace_ := ws }>).
Proof.
  intros Hg. unfold SwitchWorkspace. fold (switch_refused ws s). rewrite Hg. cbv zeta. set (s1 := ResetCursorMode _).
  assert (E1 : wview (s1 <{ current_workspace_ := ws }>) = wview (s <{ current_workspace_ := ws }>)).
  { assert (E : wview s1 = wview s) by (unfold s1; autorewrite with flake; done).
    clearbody s1. unfold wview, globals in *. simpl. injection E as -> _ -> -> E5 -> -> ->.
    unfold SessionLocked in *. simpl. by rewrite E5. }
  rewrite <- E1. generalize (s1 <{ current_workspace_ := ws }>). intros s2. clear E1.
  set (s3 := each_tl _ s2). assert (E3 : wview s3 = wview s2).
  { unfold s3. neutral. }
  clearbody s3. rewrite <- E3. 
  match goal with |- context [tell ClearPointerFocus ?x] => set (s4 := x) end.
  assert (E4 : wview s4 = wview s3).
  { unfold s4. destruct (ToplevelForSurface _ _ _) as [p|]; [|done]. neutral. }
  clearbody s4. rewrite <- E4. neutral.
Qed.

Lemma SwitchWorkspace_view ws s :
  SwitchWorkspace root_surface ws s = s \/
  (0 <= ws < workspace_count_ s /\
   wview (SwitchWorkspace root_surface ws s) = wview (s <{ current_workspace_ := ws }>)).
Proof.
  destruct (switch_refused ws s) eqn:Eg.
  - left. unfold SwitchWorkspace. fold (switch_refused ws s). by rewrite Eg.
  - right. split; [|by apply SwitchWorkspace_accepted]. unfold switch_refused in Eg. prop_bool. lia.
Qed.

Lemma MoveToplevelToWorkspace_view t ws s :
  (MoveToplevelToWorkspace t ws s).1 = s \/
  (0 <= ws < workspace_count_ s /\
   wview (MoveToplevelToWorkspace t ws s).1 = wview (upd_tl t (fun w => w <{ workspace := ws }>) s)).
Proof.
  unfold MoveToplevelToWorkspace. destruct (find_tl t s) as [w|]; [|by left].
  destruct (_ || _) eqn:Eg; [by left|]. right. prop_bool. split; [lia|]. simpl fst.
  set (s1 := refresh_node t _).
  assert (E1 : wview s1 = wview (upd_tl t (fun w => w <{ workspace := ws }>) s)) by apply wview_refresh_node.
  rewrite <- E1. clearbody s1. neutral.
Qed.

Lemma RemoveWorkspace_view ws s :
  (RemoveWorkspace ws s).1 = s \/
  (1 < workspace_count_ s /\ 0 <= ws < workspace_count_ s /\
   let count := workspace_count_ s - 1 in
   wview (RemoveWorkspace ws s).1 = wview (s <{ workspace_count_ := count }>
     <{ toplevels_ ::= map (fun w => w <{ workspace ::= remove_index ws count }>) }>
     <{ current_workspace_ ::= remove_index ws count }>)).
Proof.
  unfold RemoveWorkspace. destruct (_ || _) eqn:Eg; [by left|]. right. prop_bool.
  split_and!; [lia|lia|lia|]. cbv zeta. cbn [fst].
  generalize (s <{ workspace_count_ := workspace_count_ s - 1 }>
     <{ toplevels_ ::= map (fun w => w <{ workspace ::= remove_index ws (workspace_count_ s - 1) }>) }>
     <{ current_workspace_ ::= remove_index ws (workspace_count_ s - 1) }>). intros s1. neutral.
Qed.

Lemma ReorderWorkspace_view from to s :
  (ReorderWorkspace from to s).1 = s \/
  (0 <= from < workspace_count_ s /\ 0 <= to < workspace_count_ s /\
   wview (ReorderWorkspace from to s).1 = wview (s <{ current_workspace_ ::= reorder_index from to }>
     <{ toplevels_ ::= map (fun w => w <{ workspace ::= reorder_index from to }>) }>)).
Proof.
  unfold ReorderWorkspace. destruct (_ || _) eqn:Eg; [by left|]. right. prop_bool.
  split_and!; [lia|lia|lia|lia|]. cbv zeta. cbn [fst].
  generalize (s <{ current_workspace_ ::= reorder_index from to }>
     <{ toplevels_ ::= map (fun w => w <{ workspace ::= reorder_index from to }>) }>). intros s1. neutral.
Qed.

Lemma SetAllWorkspaces_view t all s :
  SetAllWorkspaces t all s = s \/
  wview (SetAllWorkspaces t all s) = wview (upd_tl t (fun w =>
    let w := w <{ all_workspaces := all }> in
    if all then w else w <{ workspace := current_workspace_ s }>) s).
Proof.
  unfold SetAllWorkspaces, with_tl. destruct (find_tl t s) as [w|]; [|by left].
  destruct (Bool.eqb _ _); [by left|]. right. cbv zeta. autorewrite with flake.
  destruct all; simpl; [done|]. unfold wview. simpl. f_equal. rewrite !map_map. apply map_ext.
  intros w0. destruct (tl_id w0 =? t)%nat eqn:E; simpl; by rewrite E.
Qed.

(** ** Index arithmetic *)

Lemma remove_index_range ws count i :
  0 <= ws <= count -> 0 < count -> 0 <= i <= count -> 0 <= remove_index ws count i < count.
Proof. unfold remove_index. intros. case_ifs; lia. Qed.

Lemma reorder_index_range from to count i :
  0 <= from < count -> 0 <= to < count -> 0 <= i < count -> 0 <= reorder_index from to i < count.
Proof. unfold reorder_index. intros. case_ifs; prop_bool; lia. Qed.

Lemma reorder_index_inverse from to i : reorder_index to from (reorder_index from to i) = i.
Proof. unfold reorder_index. case_ifs; prop_bool; lia. Qed.

(** ** The invariant *)

Record wm_inv (v : wv) : Prop := {
  wi_count : 1 <= v_count v <= kMaximumWorkspaceCount;
  wi_current : 0 <= v_current v < v_count v;
  wi_windows : forall c, c ∈ v.2 -> 0 <= c_workspace c < v_count v /\
                 (c_maximized c = true -> c_tiled c = false);
  wi_ids : NoDup (map c_id v.2) }.

Lemma wm_inv_vupd t g v : tame g -> wm_inv v -> wm_inv (vupd t g v).
Proof.
  intros Hg [Hc Hcur Hw Hids]. split; [done|done| |].
  - intros c (c0 & -> & Hin)%list_elem_of_fmap. destruct (Hw c0 Hin) as [Hr Hmt].
    destruct (c_id c0 =? t)%nat; [|done]. rewrite (tame_workspace _ Hg).
    split; [done|by apply (tame_state _ Hg)].
  - simpl. rewrite map_map. erewrite map_ext; [exact Hids|].
    intros c. destruct (c_id c =? t)%nat; [apply (tame_id _ Hg)|done].
Qed.

Lemma wm_inv_tame v v' : tame_reach v v' -> wm_inv v -> wm_inv v'.
Proof. induction 1 as [|v1 v2 v3 (t & g & Hg & ->) _ IH]; auto using wm_inv_vupd. Qed.

(** The operations of the window manager, with any arguments. *)
Inductive wm_op (s : compositor) : compositor -> Prop :=
| st_new ok id h : find_tl id s = None -> wm_op s (OnNewToplevel ok id h s)
| st_map t : wm_op s (OnMap root_surface resize_ok t s)
| st_unmap t : wm_op s (OnUnmap t s)
| st_commit i t : wm_op s (OnCommit resize_ok i t s)
| st_destroy t : wm_op s (OnDestroy t s)
| st_req_maximize t : wm_op s (OnRequestMaximize resize_ok t s)
| st_req_minimize t : wm_op s (OnRequestMinimize t s)
| st_req_fullscreen t : wm_op s (OnRequestFullscreen t s)
| st_set_parent t : wm_op s (OnSetParent resize_ok t s)
| st_begin t m e : wm_op s (BeginInteractive resize_ok t m e s)
| st_motion : wm_op s (ProcessInteractiveMotion s)
| st_end : wm_op s (EndInteractive resize_ok s)
| st_toggle t : wm_op s (ToggleMaximized resize_ok t s)
| st_tile t slot : wm_op s (TileToplevel resize_ok t slot s)
| st_focus t : wm_op s (FocusToplevel t s)
| st_focus_next e : wm_op s (FocusNextToplevel e s)
| st_focus_layer l : wm_op s (FocusLayerSurface l s)
| st_fit o old : wm_op s (FitToplevelsToUsableArea o old s)
| st_ssd ok t b : wm_op s (SetSsdEnabled resize_ok ok t b s)
| st_corner t r : wm_op s (SetRoundCorner t r s)
| st_shadow t b : wm_op s (SetCsdShadow t b s)
| st_titlebar f b : wm_op s (SetNoTitlebarSurface f b s)
| st_above t b : wm_op s (SetKeptAbove t b s)
| st_p_maximize f b : wm_op s (RequestMaximize root_surface resize_ok f b s)
| st_p_minimize f b : wm_op s (RequestMinimize root_surface f b s)
| st_p_activate f : wm_op s (RequestActivate root_surface f s)
| st_p_fullscreen f b : wm_op s (RequestFullscreen root_surface f b s)
| st_switch ws : wm_op s (SwitchWorkspace root_surface ws s)
| st_move_ws t ws : wm_op s (MoveToplevelToWorkspace t ws s).1
| st_add_ws : wm_op s (AddWorkspace s).1
| st_remove_ws ws : wm_op s (RemoveWorkspace ws s).1
| st_reorder_ws from to : wm_op s (ReorderWorkspace from to s).1
| st_all_ws t b : wm_op s (SetAllWorkspaces t b s)
| st_multitasking b : wm_op s (SetMultitaskingSourcesHidden b s)
| st_previews b : wm_op s (SetWindowPreviewsSourcesHidden b s).

(** Everything that happens to the window manager: its operations, and changes
    of the environment (clients updating their surfaces, the pointer, layer
    surfaces, outputs, the session lock), which leave the workspaces and the
    windows' management state alone. *)
Inductive wm_step (s : compositor) : compositor -> Prop :=
| st_env s' : v_count (wview s') = v_count (wview s) -> v_current (wview s') = v_current (wview s) ->
    (wview s').2 = (wview s).2 -> wm_step s s'
| st_op s' : wm_op s s' -> wm_step s s'.

Lemma wm_inv_map_workspace (g : Z -> Z) n cur v :
  wm_inv v -> 1 <= n <= kMaximumWorkspaceCount -> 0 <= cur < n ->
  (forall i, 0 <= i < v_count v -> 0 <= g i < n) ->
  forall v', v_count v' = n -> v_current v' = cur ->
  v'.2 = map (fun c => Core (c_id c) (g (c_workspace c)) (c_all c) (c_mapped c) (c_minimized c)
    (c_above c) (c_maximized c) (c_tiled c) (c_surface c) (c_scene c)) v.2 -> wm_inv v'.
Proof.
  intros [Hc Hcur Hw Hids] Hn Hcu Hg v' E1 E2 E3. split; [lia|lia| |].
  - rewrite E3. intros c (c0 & -> & Hin)%list_elem_of_fmap. destruct (Hw c0 Hin) as [Hr Hmt].
    simpl. split; [|done]. rewrite E1. by apply Hg.
  - rewrite E3, map_map. done.
Qed.

Lemma wm_inv_same v v' : wm_inv v -> v_count v' = v_count v -> v_current v' = v_current v ->
  v'.2 = v.2 -> wm_inv v'.
Proof. intros [Hc Hcur Hw Hids] E1 E2 E3. split; rewrite ?E1, ?E2, ?E3; auto. Qed.

Lemma OnNewToplevel_inv ok id h s :
  find_tl id s = None -> wm_inv (wview s) -> wm_inv (wview (OnNewToplevel ok id h s)).
Proof.
  intros Hnew [Hc Hcur Hw Hids]. unfold OnNewToplevel. destruct ok; simpl negb; cbv iota; [|done].
  autorewrite with flake. cbv zeta. split; [done|done| |].
  - intros c Hin. simpl in Hin. rewrite map_app in Hin. apply elem_of_app in Hin as [Hin|Hin].
    { by apply Hw. }
    apply elem_of_cons in Hin as [->|[]%elem_of_nil]. split; [apply Hcur|done].
  - simpl. rewrite map_app, map_app. apply NoDup_app. split_and!; [done| |apply NoDup_singleton].
    intros x Hx [->|[]%elem_of_nil]%elem_of_cons. simpl in Hx. rewrite map_map in Hx.
    apply list_elem_of_fmap in Hx as (w & E & Hin). unfold find_tl in Hnew.
    apply list_elem_of_In in Hin. pose proof (List.find_none _ _ Hnew w Hin) as Hf.
    simpl in E, Hf. subst. by rewrite Nat.eqb_refl in Hf.
Qed.

Lemma SetAllWorkspaces_inv t b s : wm_inv (wview s) -> wm_inv (wview (SetAllWorkspaces t b s)).
Proof.
  intros Hi. destruct (SetAllWorkspaces_view t b s) as [->| ->]; [done|].
  destruct Hi as [Hc Hcur Hw Hids]. split; [done|done| |].
  - intros c. simpl. rewrite map_map. intros (w & -> & Hin)%list_elem_of_fmap.
    destruct (Hw (core w)) as [Hr Hmt]; [by apply list_elem_of_fmap_2|].
    destruct (tl_id w =? t)%nat; [|done]. destruct b; [done|]. simpl. split; [apply Hcur|done].
  - simpl in *. rewrite !map_map in *. erewrite map_ext; [exact Hids|].
    intros w. simpl. destruct (tl_id w =? t)%nat; [by destruct b|done].
Qed.

Lemma MoveToplevelToWorkspace_inv t ws s : wm_inv (wview s) ->
  wm_inv (wview (MoveToplevelToWorkspace t ws s).1).
Proof.
  intros Hi. destruct (MoveToplevelToWorkspace_view t ws s) as [->|[Hr ->]]; [done|].
  destruct Hi as [Hc Hcur Hw Hids]. split; [done|done| |].
  - intros c. simpl. rewrite map_map. intros (w & -> & Hin)%list_elem_of_fmap.
    destruct (Hw (core w)) as [Hrw Hmt]; [by apply list_elem_of_fmap_2|].
    by destruct (tl_id w =? t)%nat.
  - simpl in *. rewrite !map_map in *. erewrite map_ext; [exact Hids|].
    intros w. simpl. by destruct (tl_id w =? t)%nat.
Qed.

Lemma AddWorkspace_inv s : wm_inv (wview s) -> wm_inv (wview (AddWorkspace s).1).
Proof.
  intros Hi. unfold AddWorkspace. destruct (_ >=? _) eqn:E; [done|]. simpl fst.
  rewrite wview_tell_protocols. destruct Hi as [Hc Hcur Hw Hids]. unfold v_count, v_current in *.
  simpl in *. split; unfold v_count, v_current; simpl; [lia|lia| |done]. intros c Hin.
  destruct (Hw c Hin). split; [lia|done].
Qed.

Lemma RemoveWorkspace_inv ws s : wm_inv (wview s) -> wm_inv (wview (RemoveWorkspace ws s).1).
Proof.
  intros Hi. pose proof (wi_current _ Hi). pose proof (wi_count _ Hi).
  destruct (RemoveWorkspace_view ws s) as [->|(Hgt & Hr & ->)]; [done|]. cbv zeta.
  rewrite <- v_count_wview in *. apply (wm_inv_map_workspace
    (remove_index ws (v_count (wview s) - 1)) (v_count (wview s) - 1)
    (remove_index ws (v_count (wview s) - 1) (v_current (wview s))) (wview s)); auto;
    try lia; [apply remove_index_range; lia|intros; apply remove_index_range; lia|].
  simpl. by rewrite !map_map.
Qed.

Lemma ReorderWorkspace_inv from to s : wm_inv (wview s) -> wm_inv (wview (ReorderWorkspace from to s).1).
Proof.
  intros Hi. pose proof (wi_current _ Hi). pose proof (wi_count _ Hi).
  destruct (ReorderWorkspace_view from to s) as [->|(Hgt & Hr & ->)]; [done|].
  rewrite <- v_count_wview in *. apply (wm_inv_map_workspace
    (reorder_index from to) (v_count (wview s)) (reorder_index from to (v_current (wview s))) (wview s));
    auto; [by apply reorder_index_range|intros; by apply reorder_index_range|].
  simpl. by rewrite !map_map.
Qed.

Lemma refresh_all_inv s s' : wm_inv (wview s) -> v_count (wview s') = v_count (wview s) ->
  v_current (wview s') = v_current (wview s) -> (wview s').2 = (wview s).2 ->
  wm_inv (wview (each_tl refresh_node s')).
Proof.
  intros Hi H1 H2 H3. rewrite (wview_each_tl refresh_node) by apply wview_refresh_node.
  by eapply wm_inv_same.
Qed.

Lemma wm_op_inv s s' : wm_op s s' -> wm_inv (wview s) -> wm_inv (wview s').
Proof.
  intros Hstep Hi.
  destruct Hstep; first [
    solve [eapply wm_inv_tame; [|exact Hi]; eauto using tame_OnMap, tame_OnUnmap,
      tame_OnDestroy, tame_OnRequestMaximize, tame_OnRequestMinimize, tame_OnSetParent,
      tame_BeginInteractive, tame_EndInteractive, tame_ToggleMaximized, tame_TileToplevel,
      tame_SetKeptAbove, tame_RequestMaximize, tame_RequestMinimize] |
    by autorewrite with flake |
    by apply (refresh_all_inv s) |
    auto using OnNewToplevel_inv, SetAllWorkspaces_inv, MoveToplevelToWorkspace_inv,
      AddWorkspace_inv, RemoveWorkspace_inv, ReorderWorkspace_inv | idtac ].
  destruct (SwitchWorkspace_view ws s) as [->|[Hr ->]]; [done|]. pose proof (wi_count _ Hi).
  by apply (wm_inv_map_workspace id (v_count (wview s)) ws (wview s)); [..|simpl; rewrite map_map].
Qed.

Lemma wm_step_inv s s' : wm_step s s' -> wm_inv (wview s) -> wm_inv (wview s').
Proof. intros [] Hi; [by eapply wm_inv_same|by eapply wm_op_inv]. Qed.

End Workspaces.

(** The state the compositor starts with: four workspaces, no windows. *)
Definition wm_start : compositor :=
  Compositor [] [] [] [] ∅ kInitialWorkspaceCount 0 false false None true 0%Q 0%Q kPassthrough
    None 0%Q 0%Q zero_box 0 None false ∅ true false true false true (fun _ => true) [].

(** C1. Whatever windows, clients, the pointer, panels and shell protocols do,
    in any order, there are always between one and six workspaces, the current
    one and the workspace of every window exist, no window is both maximized and
    tiled, and windows keep distinct identities. *)
Theorem window_manager_invariant `{OutputLayout} root_surface resize_ok (s : compositor)
  (Hr : rtc (wm_step root_surface resize_ok) wm_start s) : wm_inv (wview s).
Proof.
  assert (Hi : wm_inv (wview wm_start)).
  { split; unfold v_count, v_current; simpl; unfold kInitialWorkspaceCount, kMaximumWorkspaceCount;
      try lia; [set_solver|constructor]. }
  revert Hi. induction Hr as [|s1 s2 s3 Hstep _ IH]; [done|]. intros Hi. apply IH.
  by eapply wm_step_inv.
Qed.

(** A layout of one 1920x1080 output. *)
#[local] Instance demo_layout : OutputLayout := {|
  output_at x y := if Qle_bool 0 x && Qltb x 1920 && Qle_bool 0 y && Qltb y 1080 then Some 1%nat else None;
  center_output := Some 1%nat;
  layout_box _ := Box 0 0 1920 1080 |}.

Definition demo_xdg (surface : nat) : xdg_toplevel :=
  Xdg surface true None false 0 0 0 0 false false (Box 0 0 800 600) 5
    false false false false 0 0 0 0.

(** Two windows are created and mapped, the second is moved to workspace 2. *)
Definition demo_windows : compositor :=
  let s := OnNewToplevel true 1 (demo_xdg 11) wm_start in
  let s := OnMap id (fun _ _ => true) 1 s in
  let s := OnNewToplevel true 2 (demo_xdg 12) s in
  let s := OnMap id (fun _ _ => true) 2 s in
  (MoveToplevelToWorkspace 2 2 s).1.

Lemma window_manager_invariant_witness :
  wm_inv (wview demo_windows) /\ map workspace (toplevels_ demo_windows) = [0; 2] /\
  focused_surface demo_windows = Some 11%nat.
Proof.
  split; [|split; reflexivity]. apply (window_manager_invariant id (fun _ _ => true)).
  unfold demo_windows. cbv zeta.
  eapply rtc_l; [by apply st_op, (st_new id (fun _ _ => true) _ true 1 (demo_xdg 11))|].
  eapply rtc_l; [by apply st_op, (st_map id (fun _ _ => true) _ 1)|].
  eapply rtc_l; [by apply st_op, (st_new id (fun _ _ => true) _ true 2 (demo_xdg 12))|].
  eapply rtc_l; [by apply st_op, (st_map id (fun _ _ => true) _ 2)|].
  apply rtc_once. apply st_op, (st_move_ws id (fun _ _ => true) _ 2 2).
Defined.

(** ** Reordering and removing workspaces *)

Lemma reorder_index_inj from to i j : reorder_index from to i = reorder_index from to j -> i = j.
Proof.
  intros E. rewrite <- (reorder_index_inverse from to i), E. apply reorder_index_inverse.
Qed.

Lemma ReorderWorkspace_true from to s : (ReorderWorkspace from to s).2 = true ->
  let s' := (ReorderWorkspace from to s).1 in
  0 <= from < workspace_count_ s /\ 0 <= to < workspace_count_ s /\ from <> to /\
  toplevels_ s' = map (fun w => w <{ workspace ::= reorder_index from to }>) (toplevels_ s) /\
  focused_surface s' = focused_surface s /\
  globals s' = globals (s <{ current_workspace_ ::= reorder_index from to }>).
Proof.
  unfold ReorderWorkspace. destruct (_ || _) eqn:Eg; [done|]. intros _. prop_bool. cbv zeta.
  set (s1 := modify toplevels_ _ _). cbn [fst].
  destruct (tell_mapped_rest (tell UpdateWorkspaces s1)) as (E1 & E2 & E3).
  destruct (protocol_manager_ s1); rewrite ?E1, ?E2, ?E3; split_and!; (lia || done).
Qed.

(** Reordering workspaces only renames them: every window stays exactly as
    visible as it was (no scene node is touched), the keyboard focus stays,
    windows share a workspace afterwards exactly if they did before, and moving
    the workspace back restores all numbers. *)
Theorem reorder_only_renames (s : compositor) (from to : Z)
  (Hok : (ReorderWorkspace from to s).2 = true) :
  let s' := (ReorderWorkspace from to s).1 in
  map (fun w => IsToplevelVisible w s') (toplevels_ s') =
    map (fun w => IsToplevelVisible w s) (toplevels_ s) /\
  map scene_tree (toplevels_ s') = map scene_tree (toplevels_ s) /\
  focused_surface s' = focused_surface s /\
  (forall i j, reorder_index from to i = reorder_index from to j <-> i = j) /\
  (ReorderWorkspace to from s').2 = true /\
  map workspace (toplevels_ (ReorderWorkspace to from s').1) = map workspace (toplevels_ s) /\
  current_workspace_ (ReorderWorkspace to from s').1 = current_workspace_ s.
Proof.
  cbv zeta. destruct (ReorderWorkspace_true from to s Hok) as (Hf & Ht & Hne & Etl & Efoc & Egl).
  set (s' := (ReorderWorkspace from to s).1) in *. clearbody s'.
  assert (Hb : (ReorderWorkspace to from s').2 = true).
  { unfold ReorderWorkspace. injection Egl as Ec _ _ _ _ _ _.
    destruct (_ || _) eqn:Eg; [|done]. prop_bool; lia. }
  destruct (ReorderWorkspace_true to from s' Hb) as (_ & _ & _ & Etl2 & _ & Egl2).
  split_and!; auto.
  - rewrite Etl, map_map. apply map_ext. intros w. rewrite !visible_core_eq.
    unfold visible_core, wview. cbn [fst]. rewrite Egl. simpl. do 2 f_equal. f_equal. f_equal.
    destruct (Z.eqb_spec (workspace w) (current_workspace_ s)) as [->|Hd]; [apply Z.eqb_refl|].
    apply Z.eqb_neq. by intros E%reorder_index_inj.
  - by rewrite Etl, map_map.
  - intros i j. split; [apply reorder_index_inj|by intros ->].
  - rewrite Etl2, Etl, !map_map. apply map_ext. intros w. apply reorder_index_inverse.
  - injection Egl2 as _ -> _ _ _ _ _. injection Egl as _ Ecur _ _ _ _ _.
    rewrite Ecur. apply reorder_index_inverse.
Qed.

Lemma reorder_only_renames_witness :
  map (fun w => IsToplevelVisible w (ReorderWorkspace 0 3 demo_windows).1)
    (toplevels_ (ReorderWorkspace 0 3 demo_windows).1) = [true; false] /\
  map workspace (toplevels_ (ReorderWorkspace 0 3 demo_windows).1) = [3; 1].
Proof.
  destruct (reorder_only_renames demo_windows 0 3) as [Hv _]; [reflexivity|].
  rewrite Hv. split; reflexivity.
Defined.

Lemma RemoveWorkspace_true ws s : NoDup (wids s) -> (RemoveWorkspace ws s).2 = true ->
  let s' := (RemoveWorkspace ws s).1 in
  let n := workspace_count_ s - 1 in
  1 < workspace_count_ s /\ 0 <= ws < workspace_count_ s /\
  toplevels_ s' = map (fun w => let w' := w <{ workspace ::= remove_index ws n }> in
    set_enabled (IsToplevelVisible w' s') w') (toplevels_ s) /\
  globals s' = globals (s <{ workspace_count_ := n }> <{ current_workspace_ ::= remove_index ws n }>).
Proof.
  intros Hnd. unfold RemoveWorkspace. destruct (_ || _) eqn:Eg; [done|]. intros _. prop_bool.
  cbv zeta. cbn [fst]. set (s1 := modify current_workspace_ _ _).
  assert (Hnd1 : NoDup (wids s1)) by (unfold wids, s1; simpl; rewrite map_map; exact Hnd).
  pose proof (refresh_all s1 Hnd1) as Hr.
  assert (Hg : wview (each_tl refresh_node s1) = wview s1)
    by (apply wview_each_tl; intros; apply wview_refresh_node).
  set (s2 := each_tl refresh_node s1) in *.
  set (s3 := if protocol_manager_ s2 then _ else s2).
  assert (E3 : toplevels_ s3 = toplevels_ s2 /\ globals s3 = globals s2).
  { unfold s3. destruct (protocol_manager_ s2); [|done].
    destruct (tell_mapped_rest (tell UpdateWorkspaces s2)) as (-> & _ & ->). done. }
  destruct E3 as [-> Eg3]. assert (Egl : globals s3 = globals s1).
  { rewrite Eg3. exact (f_equal fst Hg). }
  split_and!; [lia|lia|lia| |].
  - rewrite Hr. unfold s1 at 2. simpl. rewrite map_map. apply map_ext. intros w.
    f_equal. rewrite !visible_core_eq. unfold visible_core, wview. simpl fst. by rewrite Egl.
  - by rewrite Egl.
Qed.

Lemma remove_index_mono ws n i j :
  remove_index ws n i = remove_index ws n j <->
  i = j \/ ((i = ws \/ j = ws) /\ remove_index ws n i = remove_index ws n j).
Proof.
  split; [|intros [->|[_ ?]]; done]. unfold remove_index. intros E. revert E.
  case_ifs; intros; lia.
Qed.

(** C40. Removing a workspace never hides a window: what was visible stays
    visible, windows on the same workspace stay together, only windows of the
    removed workspace can join others, and afterwards every window's scene node
    is enabled exactly when the window is visible. *)
Theorem remove_never_hides (s : compositor) (ws : Z) (i : nat) (w : Toplevel)
  (Hnd : NoDup (wids s)) (Hok : (RemoveWorkspace ws s).2 = true)
  (Hw : toplevels_ s !! i = Some w) :
  let s' := (RemoveWorkspace ws s).1 in
  exists w', toplevels_ s' !! i = Some w' /\ tl_id w' = tl_id w /\
    (IsToplevelVisible w s = true -> IsToplevelVisible w' s' = true) /\
    (forall n, scene_tree w' = Some n -> node_enabled n = IsToplevelVisible w' s') /\
    (forall j v, toplevels_ s !! j = Some v -> exists v', toplevels_ s' !! j = Some v' /\
      (workspace w = workspace v -> workspace w' = workspace v') /\
      (workspace w' = workspace v' -> workspace w = workspace v \/ workspace w = ws \/ workspace v = ws)).
Proof.
  cbv zeta. destruct (RemoveWorkspace_true ws s Hnd Hok) as (Hc & Hr & Etl & Egl).
  set (s' := (RemoveWorkspace ws s).1) in *. clearbody s'. set (n := workspace_count_ s - 1) in *.
  assert (Hl : forall j v, toplevels_ s !! j = Some v -> toplevels_ s' !! j =
    Some (let v' := v <{ workspace ::= remove_index ws n }> in
          set_enabled (IsToplevelVisible v' s') v')).
  { intros j v Hv. rewrite Etl, list_lookup_fmap, Hv. done. }
  eexists. split; [by apply Hl|]. cbv zeta. split_and!.
  - done.
  - intros Hvis. rewrite visible_core_eq, core_set_enabled. revert Hvis. rewrite visible_core_eq.
    unfold visible_core, wview. cbn [fst]. rewrite Egl. simpl. rewrite !andb_true_iff.
    intros ((((Hm & Hmin) & Hon) & H1) & H2). split_and!; auto. apply orb_true_iff in Hon.
    apply orb_true_iff. destruct Hon as [?|Hon]; [by left|right].
    apply Z.eqb_eq in Hon. rewrite Hon. apply Z.eqb_refl.
  - intros nd Hn. rewrite visible_core_eq, core_set_enabled, <- visible_core_eq. simpl in Hn.
    destruct (scene_tree w); [|done]. injection Hn as <-. done.
  - intros j v Hv. eexists. split; [by apply Hl|]. simpl. split; [by intros ->|].
    intros [?|[[?|?] _]]%remove_index_mono; auto.
Qed.

Definition demo_first : Toplevel :=
  default (new_toplevel 0 (demo_xdg 0) 0) (head (toplevels_ demo_windows)).

Lemma remove_never_hides_witness : exists w',
  toplevels_ (RemoveWorkspace 0 demo_windows).1 !! 0%nat = Some w' /\
  IsToplevelVisible w' (RemoveWorkspace 0 demo_windows).1 = true.
Proof.
  destruct (remove_never_hides demo_windows 0 0 demo_first) as (w' & Hl & _ & Hv & _).
  - vm_compute. repeat constructor; set_solver.
  - vm_compute. reflexivity.
  - vm_compute. reflexivity.
  - exists w'. split; [done|]. apply Hv. vm_compute. reflexivity.
Defined.
