(* ===== verification/Focus.v ===== *)
(** * Keyboard focus and stacking

    Theorems about the focus operations of [Windows]: what a workspace switch
    shows and focuses, that a locked session keeps its focus, how focusing
    restacks windows, and two places where the code leaves windows in a state
    that does not match what is shown. *)

From S2P Require Import Prelude Box Ssd Window Windows WindowFacts Workspaces.

Section Switch.
Context `{OutputLayout} (root_surface : nat -> nat).

(** What a window shows: its management state and its scene node. *)
Definition shown (w : Toplevel) : wcore * option scene_node := (core w, scene_tree w).

Lemma focus_stable_shown : focus_stable shown.
Proof.
  split; intros; unfold shown; f_equal; try apply focus_stable_scene; apply focus_stable_core.
Qed.

Definition node_ok (v : wv) (x : wcore * option scene_node) : Prop :=
  forall n, x.2 = Some n -> node_enabled n = visible_core v x.1.

(** The loop of a workspace switch sets every node to the window's visibility. *)
Lemma switch_loop_nodes s : NoDup (wids s) ->
  let s' := each_tl (fun t s => s
      |> refresh_node t
      |> with_tl t (fun w s => if negb (on_current w s)
           then upd_tl t (fun w => w <{ ssd ::= fmap (fun d => SetActive d false) }>) s else s)
      |> UpdateCsdShadow t) s in
  wview s' = wview s /\ Forall (node_ok (wview s)) (pview shown s').
Proof.
  intros Hnd. cbv zeta. set (g := fun x : wcore * option scene_node =>
    (x.1, (fun n => n <{ node_enabled := visible_core (wview s) x.1 }>) <$> x.2)).
  match goal with |- context [each_tl ?f s] => destruct (each_tl_pview shown (fun x => c_id x.1)
    (fun s0 => wview s0 = wview s) f g s) as [E HK]; [done|done| |done|done|] end.
  - intros t s0 E. split; [|by autorewrite with flake; neutral].
    rewrite (pview_UpdateCsdShadow shown focus_stable_shown).
    rewrite pview_with_tl.
    2: { intros w s1. destruct (negb _); [|done]. apply pview_upd. intros. apply focus_stable_shown. }
    unfold pview, refresh_node.
    assert (Hnd0 : NoDup (wids s0)) by (rewrite wview_ids, E, <- wview_ids; done).
    rewrite (with_upd_map t (fun w s => set_enabled (IsToplevelVisible w s))), !map_map by done.
    apply map_ext. intros w. simpl. destruct (tl_id w =? t)%nat; [|done].
    unfold shown, g. rewrite core_set_enabled, visible_core_eq, E. done.
  - split; [done|]. rewrite E. apply Forall_forall. intros x (y & -> & _)%list_elem_of_fmap n.
    unfold g. simpl. destruct (y.2); [|done]. by intros [= <-].
Qed.

(** Windows have surfaces with distinct roots, and layer surfaces are not window
    surfaces. *)
Record surfaces_ok (s : compositor) : Prop := {
  so_roots : forall w w' f f', w ∈ toplevels_ s -> w' ∈ toplevels_ s ->
    Surface w = Some f -> Surface w' = Some f' -> root_surface f = root_surface f' ->
    tl_id w = tl_id w';
  so_layers : forall l f i w, l ∈ layer_surfaces_ s -> ls_handle l = Some (f, i) ->
    w ∈ toplevels_ s -> Surface w <> Some f }.

(** The focus is not on a window of another workspace. *)
Definition focus_here (s : compositor) : Prop :=
  forall w f, w ∈ toplevels_ s -> Surface w = Some f -> focused_surface s = Some f ->
    on_current w s = true.

Definition surfaces_ok_v (v : wv) : Prop :=
  (forall c c' f, c ∈ v.2 -> c' ∈ v.2 -> c_surface c = Some f -> c_surface c' = Some f -> c = c') /\
  (forall l f i c, l ∈ v.1.1.2 -> ls_handle l = Some (f, i) -> c ∈ v.2 -> c_surface c <> Some f).

Definition on_current_v (v : wv) (c : wcore) : bool := c_all c || (c_workspace c =? v_current v).

Definition focus_here_v (v : wv) (focus : option nat) : Prop :=
  forall c f, c ∈ v.2 -> c_surface c = Some f -> focus = Some f -> on_current_v v c = true.

Lemma focus_here_view s : focus_here_v (wview s) (focused_surface s) -> focus_here s.
Proof.
  intros Hv w f Hw Hs Hf. apply (Hv (core w) f); [by apply list_elem_of_fmap_2|done|done].
Qed.

Lemma surfaces_ok_view s : NoDup (wids s) -> surfaces_ok s -> surfaces_ok_v (wview s).
Proof.
  intros Hnd [Hr Hl]. split.
  - intros c c' f (w & -> & Hw)%list_elem_of_fmap (w' & -> & Hw')%list_elem_of_fmap E E'.
    simpl in E, E'. assert (Ei : tl_id w = tl_id w') by by eapply Hr.
    pose proof (find_tl_unique s w Hnd Hw) as E1. pose proof (find_tl_unique s w' Hnd Hw') as E2.
    congruence.
  - intros l f i c Hl' Eh (w & -> & Hw)%list_elem_of_fmap. by eapply Hl.
Qed.

(** Moving the focus keeps it on this workspace. *)
Lemma FocusNextToplevel_here e s : surfaces_ok_v (wview s) ->
  focus_here_v (wview s) (focused_surface s) ->
  focus_here_v (wview s) (focused_surface (FocusNextToplevel e s)).
Proof.
  intros [Hu Hl] Hh c f Hc Hs Hf.
  destruct (FocusNextToplevel_focused e s) as [E|[E|[(w & Hw & Hon & _ & _ & E)|(l & g & i & Hx & Eh & E)]]];
    rewrite E in Hf.
  - by apply (Hh c f).
  - done.
  - assert (c = core w) as -> by (eapply Hu; eauto; by apply list_elem_of_fmap_2). exact Hon.
  - injection Hf as ->. unfold exclusive_layer in Hx. apply List.find_some in Hx as [Hin _].
    apply in_rev, list_elem_of_In in Hin. by destruct (Hl l f i c).
Qed.

(** Before the focus moves on, a window left behind has lost it. *)
Lemma switch_clears s ws : NoDup (wids s) -> surfaces_ok s ->
  forall s3, wview s3 = wview (s <{ current_workspace_ := ws }>) -> focused_surface s3 = focused_surface s ->
  let s4 := match ToplevelForSurface root_surface (focused_surface s) s with
            | Some p => if negb (on_current p s3)
                        then (s3 |> upd_tl (tl_id p) (SetActivated false)) <{ focused_surface := None }>
                        else s3
            | None => s3
            end in
  wview s4 = wview s3 /\ focus_here_v (wview s4) (focused_surface s4) /\
  pview shown s4 = pview shown s3.
Proof.
  intros Hnd Hso s3 Ev Ef. cbv zeta.
  destruct (ToplevelForSurface root_surface (focused_surface s) s) as [p|] eqn:Ep.
  - unfold ToplevelForSurface in Ep. destruct (focused_surface s) as [f0|] eqn:Efs; [|done].
    simpl in Ep. apply List.find_some in Ep as [Hp Er]. apply list_elem_of_In in Hp.
    destruct (Surface p) as [fp|] eqn:Esp; [|done]. apply Nat.eqb_eq in Er.
    destruct (negb (on_current p s3)) eqn:Eon.
    + split_and!; [|done|].
      * transitivity (wview (upd_tl (tl_id p) (SetActivated false) s3)); [done|].
        apply wview_upd_tl. intros. apply core_SetActivated.
      * apply pview_upd. intros. apply p_SetActivated, focus_stable_shown.
    + split_and!; [done| |done]. intros c f Hc Hs Hf. rewrite Ev in Hc.
      apply list_elem_of_fmap in Hc as (w & -> & Hw). simpl in Hs, Hw. rewrite Ef in Hf. injection Hf as ->.
      assert (E : w = p).
      { pose proof (so_roots s Hso w p f fp Hw Hp Hs Esp ltac:(congruence)) as Ei.
        pose proof (find_tl_unique s w Hnd Hw). pose proof (find_tl_unique s p Hnd Hp). congruence. }
      subst w. apply negb_false_iff in Eon. exact Eon.
  - split_and!; [done| |done]. intros c f Hc Hs Hf. rewrite Ev in Hc.
    apply list_elem_of_fmap in Hc as (w & -> & Hw). simpl in Hs, Hw. rewrite Ef in Hf.
    unfold ToplevelForSurface in Ep. rewrite Hf in Ep. simpl in Ep. apply list_elem_of_In in Hw.
    pose proof (List.find_none _ _ Ep w Hw) as Hn. simpl in Hn. rewrite Hs in Hn.
    by rewrite Nat.eqb_refl in Hn.
Qed.

Lemma surfaces_ok_wview s s1 : wview s1 = wview s -> surfaces_ok s -> surfaces_ok s1.
Proof.
  intros Ev [Hr Hl].
  assert (Hc : forall w, w ∈ toplevels_ s1 -> exists w0, w0 ∈ toplevels_ s /\ core w = core w0).
  { intros w Hw. apply (list_elem_of_fmap_2 core) in Hw. change (core w ∈ (wview s1).2) in Hw.
    rewrite Ev in Hw. apply list_elem_of_fmap in Hw as (w0 & E & Hw0). by exists w0. }
  split.
  - intros w w' f f' (w0 & Hw0 & E)%Hc (w1 & Hw1 & E')%Hc Hs Hs' Er.
    injection E as -> _ _ _ _ _ _ _ E8 _. injection E' as -> _ _ _ _ _ _ _ E8' _.
    apply (Hr w0 w1 f f'); congruence.
  - intros l f i w Hin Eh (w0 & Hw0 & E)%Hc. injection E as _ _ _ _ _ _ _ _ -> _.
    apply (Hl l f i w0); auto.
    change (l ∈ (wview s).1.1.2). by rewrite <- Ev.
Qed.

Lemma focused_ResetCursorMode s : focused_surface (ResetCursorMode s) = focused_surface s.
Proof. unfold ResetCursorMode. by destruct (cursor_mode_ s), (grabbed_toplevel_ s). Qed.

(** The announcements that end a switch. *)
Lemma switch_announces s : let s' := (if protocol_manager_ s then tell_mapped
    (tell (UpdateKeyboardFocus (focused_surface (tell UpdateWorkspaces s))) (tell UpdateWorkspaces s))
    else s) in
  pview shown s' = pview shown s /\ focused_surface s' = focused_surface s.
Proof.
  cbv zeta. destruct (protocol_manager_ s); [|done]. unfold pview.
  destruct (tell_mapped_rest (tell (UpdateKeyboardFocus (focused_surface
    (tell UpdateWorkspaces s))) (tell UpdateWorkspaces s))) as (-> & -> & _). done.
Qed.

(** An accepted switch after the grabs and menus are gone, in [s1]. *)
Lemma SwitchWorkspace_shown ws s : NoDup (wids s) -> surfaces_ok s -> switch_refused ws s = false ->
  Forall (node_ok (wview (s <{ current_workspace_ := ws }>)))
    (pview shown (SwitchWorkspace root_surface ws s)) /\
  focus_here_v (wview (s <{ current_workspace_ := ws }>))
    (focused_surface (SwitchWorkspace root_surface ws s)).
Proof.
  intros Hnd Hso Hg. unfold SwitchWorkspace. fold (switch_refused ws s). rewrite Hg. cbv zeta.
  set (s1 := ResetCursorMode _).
  assert (E1 : wview s1 = wview s /\ focused_surface s1 = focused_surface s).
  { unfold s1, tell_ui. rewrite focused_ResetCursorMode, !focused_when by done.
    autorewrite with flake. split; [|done]. rewrite !wview_when by done. done. }
  destruct E1 as [E1 F1]. clearbody s1.
  assert (Hnd2 : NoDup (wids (s1 <{ current_workspace_ := ws }>)))
    by (change (NoDup (wids s1)); rewrite wview_ids, E1, <- wview_ids; done).
  assert (Hso1 : surfaces_ok s1) by (by eapply surfaces_ok_wview).
  assert (E2 : wview (s1 <{ current_workspace_ := ws }>) = wview (s <{ current_workspace_ := ws }>)).
  { unfold wview, globals, SessionLocked in *. simpl. injection E1 as -> _ -> -> -> -> -> ->. done. }
  rewrite <- E2. clear E2. destruct (switch_loop_nodes _ Hnd2) as [E3 Hn3].
  match goal with |- context [each_tl ?f ?x] => set (s3 := each_tl f x) in * end.
  assert (F3 : focused_surface s3 = focused_surface (s1 <{ current_workspace_ := ws }>)).
  { apply focused_each. intros. rewrite focused_UpdateCsdShadow, focused_with_tl.
    - by apply focused_with_tl.
    - intros w s00. by destruct (negb _). }
  clearbody s3. destruct (switch_clears s1 ws Hnd2 Hso1 s3 E3 F3) as (E4 & Hf4 & P4).
  match goal with |- context [tell ClearPointerFocus ?x] => set (s4 := x) in * end. clearbody s4.
  assert (Hso4 : surfaces_ok_v (wview (tell ClearPointerFocus s4))).
  { rewrite wview_tell, E4, E3. apply surfaces_ok_view; [done|]. destruct Hso1. by split. }
  pose proof (FocusNextToplevel_here None _ Hso4 Hf4) as Hf5.
  pose proof (pview_FocusNextToplevel shown focus_stable_shown None (tell ClearPointerFocus s4)) as P5.
  set (s5 := FocusNextToplevel None _) in *. clearbody s5. rewrite wview_tell, E4, E3 in Hf5.
  destruct (switch_announces s5) as [-> ->]. split; [|done]. rewrite P5.
  change (pview shown (tell ClearPointerFocus s4)) with (pview shown s4). by rewrite P4.
Qed.

End Switch.

(** C2. Switching to another workspace shows exactly its windows: afterwards it
    is the current one, every window's scene node is enabled exactly when the
    window is mapped, not minimized, on this workspace (or on all) and not hidden
    by an overview, and the keyboard focus is on no window of another
    workspace. *)
Theorem switch_workspace_shows `{OutputLayout} (root_surface : nat -> nat) (s : compositor) (ws : Z)
  (Hnd : NoDup (wids s)) (Hso : surfaces_ok root_surface s)
  (Hws : 0 <= ws < workspace_count_ s) (Hne : ws <> current_workspace_ s)
  (Hlock : SessionLocked s = false) :
  let s' := SwitchWorkspace root_surface ws s in
  current_workspace_ s' = ws /\
  (forall w n, w ∈ toplevels_ s' -> scene_tree w = Some n -> node_enabled n = IsToplevelVisible w s') /\
  focus_here s'.
Proof.
  cbv zeta. assert (Hg : switch_refused ws s = false).
  { unfold switch_refused. rewrite Hlock. lia. }
  pose proof (SwitchWorkspace_accepted root_surface ws s Hg) as Hv.
  destruct (SwitchWorkspace_shown root_surface ws s Hnd Hso Hg) as [Hn Hf].
  rewrite <- Hv in Hn, Hf. split_and!.
  - by rewrite <- v_current_wview, Hv.
  - intros w n Hw Hs. rewrite Forall_forall in Hn.
    apply (Hn (shown w)); [by apply list_elem_of_fmap_2|done].
  - by apply focus_here_view.
Qed.

#[local] Existing Instance demo_layout.

Lemma surfaces_distinct s : NoDup (map Surface (toplevels_ s)) -> layer_surfaces_ s = [] ->
  surfaces_ok id s.
Proof.
  intros Hnd Hl. split; [|rewrite Hl; intros l f i w Hin; by apply elem_of_nil in Hin].
  intros w w' f f' [i Hi]%list_elem_of_lookup [j Hj]%list_elem_of_lookup Hs Hs' E.
  cbv [id] in E. subst f'. assert (i = j) as <-; [|congruence].
  assert (Hx : forall k v, toplevels_ s !! k = Some v -> map Surface (toplevels_ s) !! k = Some (Surface v)).
  { intros k v Hv. rewrite list_lookup_fmap, Hv. done. }
  apply (NoDup_lookup _ i j (Some f) Hnd); [rewrite (Hx i w)|rewrite (Hx j w')]; congruence.
Qed.

Lemma switch_workspace_shows_witness :
  current_workspace_ (SwitchWorkspace id 2 demo_windows) = 2 /\
  focus_here (SwitchWorkspace id 2 demo_windows) /\
  focused_surface (SwitchWorkspace id 2 demo_windows) = Some 12%nat.
Proof.
  destruct (switch_workspace_shows id demo_windows 2) as (Hc & _ & Hf).
  - vm_compute. repeat constructor; set_solver.
  - apply surfaces_distinct; [|reflexivity]. vm_compute. repeat constructor; set_solver.
  - vm_compute. split; [intros [=]|reflexivity].
  - vm_compute. intros [=].
  - reflexivity.
  - split; [exact Hc|]. split; [exact Hf|reflexivity].
Defined.
