(* ===== verification/SessionLock.v ===== *)
(** * The session lock

    Theorems about the window operations of [Windows] while the session is
    locked: none of them moves the keyboard focus away from where the lock screen
    has put it, and none of them unlocks the session.

    [lock_kept s s'] is a preorder; the tactic [lock_tac] decomposes an operation
    into the steps it is made of. *)

From S2P Require Import Prelude Box Ssd Window Windows WindowFacts Workspaces.

(** From a locked state: still locked, and the same keyboard focus. *)
Definition lock_kept (s s' : compositor) : Prop :=
  SessionLocked s = true -> SessionLocked s' = true /\ focused_surface s' = focused_surface s.

#[export] Instance lock_kept_preorder : PreOrder lock_kept.
Proof.
  split; [done|]. intros s1 s2 s3 H12 H23 Hl. destruct (H12 Hl) as [Hl2 E2].
  destruct (H23 Hl2) as [Hl3 E3]. split; congruence.
Qed.

Lemma lock_foldl {A} (f : compositor -> A -> compositor) l s :
  (forall a s, lock_kept s (f s a)) -> lock_kept s (foldl f s l).
Proof.
  intros Hf. revert s. induction l as [|a l IH]; intros s; simpl; [done|].
  etransitivity; [apply Hf|apply IH].
Qed.

Lemma lock_each f s : (forall t s, lock_kept s (f t s)) -> lock_kept s (each_tl f s).
Proof. intros Hf. apply lock_foldl. intros. apply Hf. Qed.

Lemma lock_with_tl t f s : (forall w s, lock_kept s (f w s)) -> lock_kept s (with_tl t f s).
Proof. intros Hf. unfold with_tl. by destruct (find_tl t s). Qed.

Lemma lock_when b f s : (forall s, lock_kept s (f s)) -> lock_kept s (when b f s).
Proof. by destruct b. Qed.

(** The only operations that move the focus refuse to do so under a lock. *)
Lemma lock_FocusToplevel t s : lock_kept s (FocusToplevel t s).
Proof. apply lock_with_tl. intros w s0 Hl. by rewrite Hl. Qed.

Lemma lock_FocusLayerSurface l s : lock_kept s (FocusLayerSurface l s).
Proof. intros Hl. unfold FocusLayerSurface. destruct l as [[[] [[]|]]|]; try done. by rewrite Hl. Qed.

Lemma lock_FocusNextToplevel e s : lock_kept s (FocusNextToplevel e s).
Proof. intros Hl. unfold FocusNextToplevel. by rewrite Hl. Qed.

Create HintDb lock discriminated.
#[export] Hint Constants Opaque : lock.
#[export] Hint Resolve lock_FocusToplevel lock_FocusLayerSurface lock_FocusNextToplevel : lock.

Lemma lock_trans s1 s2 s3 : lock_kept s1 s2 -> lock_kept s2 s3 -> lock_kept s1 s3.
Proof. apply transitivity. Qed.

Lemma lock_upd_tl t f s : lock_kept s (upd_tl t f s).
Proof. done. Qed.
Lemma lock_tell n s : lock_kept s (tell n s).
Proof. done. Qed.
Lemma lock_raise t s : lock_kept s (raise_to_top t s).
Proof. done. Qed.
Lemma lock_tell_protocols n s : lock_kept s (tell_protocols n s).
Proof. by apply lock_when. Qed.
Lemma lock_tell_ui c n s : lock_kept s (tell_ui c n s).
Proof. by apply lock_when. Qed.

Lemma lock_let s x f : lock_kept s x -> (forall y, lock_kept y (f y)) -> lock_kept s (f x).
Proof. intros Hx Hf. eapply lock_trans; [exact Hx|apply Hf]. Qed.

(** Everything else is made of assignments, loops and those. *)
Ltac lock_prim s := generalize s; intro; exact (fun Hl => conj Hl eq_refl).
Ltac lock_step :=
  cbv beta;
  match goal with
  | |- lock_kept ?a (let s : compositor := ?x in @?f s) => apply (lock_let a x f)
  | |- lock_kept ?a (let v := ?x in @?f v) => change (lock_kept a (f x))
  | |- forall _ : compositor, _ => intro
  | |- lock_kept ?a ?b => constr_eq a b; reflexivity
  | |- lock_kept _ (upd_tl ?t ?f ?s) => apply (lock_trans _ s); [|apply lock_upd_tl]
  | |- lock_kept _ (tell ?n ?s) => apply (lock_trans _ s); [|apply lock_tell]
  | |- lock_kept _ (raise_to_top ?n ?s) => apply (lock_trans _ s); [|apply lock_raise]
  | |- lock_kept _ (tell_protocols ?n ?s) => apply (lock_trans _ s); [|apply lock_tell_protocols]
  | |- lock_kept _ (tell_ui ?c ?n ?s) => apply (lock_trans _ s); [|apply lock_tell_ui]
  | |- lock_kept _ (modify ?g ?f ?s) => apply (lock_trans _ s); [|lock_prim s]
  | |- lock_kept _ (with_tl ?t ?f ?s) => apply (lock_trans _ s); [|apply lock_with_tl; intros]
  | |- lock_kept _ (each_tl ?f ?s) => apply (lock_trans _ s); [|apply lock_each; intros]
  | |- lock_kept _ (foldl ?f ?s ?l) => apply (lock_trans _ s); [|apply lock_foldl; intros]
  | |- lock_kept _ (when ?b ?f ?s) => apply (lock_trans _ s); [|apply lock_when; intros]
  | |- lock_kept _ (if ?b then _ else _) => destruct b
  | |- lock_kept _ (match ?x with _ => _ end) => destruct x
  | |- lock_kept _ (match ?x with _ => _ end).1 => destruct x
  | |- lock_kept _ (if ?b then _ else _).1 => destruct b
  | |- lock_kept _ (_, _).1 => cbn [fst]
  | |- lock_kept _ _ => eapply lock_trans; [|solve [typeclasses eauto with lock nocore]]
  end.
Ltac lock_tac := repeat lock_step.

Section Ops.
Context `{OutputLayout} (root_surface : nat -> nat) (resize_ok : Z -> Z -> bool).

Lemma lock_RebuildSurfaceClip t s : lock_kept s (RebuildSurfaceClip t s).
Proof. unfold RebuildSurfaceClip. lock_tac. Qed.
Lemma lock_UpdateCsdShadow t s : lock_kept s (UpdateCsdShadow t s).
Proof. unfold UpdateCsdShadow. lock_tac. Qed.
Lemma lock_refresh_node t s : lock_kept s (refresh_node t s).
Proof. unfold refresh_node. lock_tac. Qed.
Lemma lock_tell_mapped s : lock_kept s (tell_mapped s).
Proof. unfold tell_mapped. lock_tac. Qed.
Lemma lock_ResetCursorMode s : lock_kept s (ResetCursorMode s).
Proof. unfold ResetCursorMode. lock_tac. Qed.
Lemma lock_MoveToplevelFrame t x y s : lock_kept s (MoveToplevelFrame t x y s).
Proof. unfold MoveToplevelFrame. lock_tac. Qed.
#[local] Hint Resolve lock_RebuildSurfaceClip lock_UpdateCsdShadow lock_refresh_node
  lock_tell_mapped lock_ResetCursorMode lock_MoveToplevelFrame : lock.
Lemma lock_ConstrainToUsableArea t s : lock_kept s (ConstrainToUsableArea t s).
Proof. unfold ConstrainToUsableArea. lock_tac. Qed.
#[local] Hint Resolve lock_ConstrainToUsableArea : lock.
Lemma lock_PlaceNewToplevel t s : lock_kept s (PlaceNewToplevel root_surface t s).
Proof. unfold PlaceNewToplevel. lock_tac. Qed.
Lemma lock_KeepCentered t s : lock_kept s (KeepCentered t s).
Proof. unfold KeepCentered. lock_tac. Qed.
Lemma lock_AttachSsd ok t s : lock_kept s (AttachSsd resize_ok ok t s).
Proof. unfold AttachSsd. lock_tac. Qed.
Lemma lock_SetMaximized t max s : lock_kept s (SetMaximized resize_ok t max s).
Proof. unfold SetMaximized. lock_tac. Qed.
Lemma lock_Minimize t s : lock_kept s (Minimize t s).
Proof. unfold Minimize. lock_tac. Qed.
#[local] Hint Resolve lock_PlaceNewToplevel lock_KeepCentered lock_AttachSsd lock_SetMaximized
  lock_Minimize : lock.
Lemma lock_RestoreForMove t s : lock_kept s (RestoreForMove resize_ok t s).
Proof. unfold RestoreForMove. lock_tac. Qed.
Lemma lock_fit_one o old u t s : lock_kept s (fit_one o old u t s).
Proof. unfold fit_one. lock_tac. Qed.
Lemma lock_tell_unavailable f s : lock_kept s (tell_unavailable f s).
Proof. unfold tell_unavailable. lock_tac. Qed.
Lemma lock_forget_menu t s : lock_kept s (forget_menu t s).
Proof. unfold forget_menu. lock_tac. Qed.
Lemma lock_drop_grab t s : lock_kept s (drop_grab t s).
Proof. unfold drop_grab. lock_tac. Qed.
#[local] Hint Resolve lock_RestoreForMove lock_fit_one lock_tell_unavailable lock_forget_menu
  lock_drop_grab : lock.

Lemma lock_SwitchWorkspace ws s : lock_kept s (SwitchWorkspace root_surface ws s).
Proof. intros Hl. unfold SwitchWorkspace. by rewrite Hl, orb_true_r. Qed.

Lemma lock_OnNewToplevel ok id h s : lock_kept s (OnNewToplevel ok id h s).
Proof. unfold OnNewToplevel. lock_tac. Qed.
Lemma lock_OnMap t s : lock_kept s (OnMap root_surface resize_ok t s).
Proof. unfold OnMap. lock_tac. Qed.
Lemma lock_OnUnmap t s : lock_kept s (OnUnmap t s).
Proof. unfold OnUnmap. lock_tac. Qed.
Lemma lock_OnCommit i t s : lock_kept s (OnCommit resize_ok i t s).
Proof. unfold OnCommit. lock_tac. Qed.
Lemma lock_OnDestroy t s : lock_kept s (OnDestroy t s).
Proof. unfold OnDestroy. lock_tac. Qed.
Lemma lock_OnRequestMaximize t s : lock_kept s (OnRequestMaximize resize_ok t s).
Proof. unfold OnRequestMaximize. lock_tac. Qed.
Lemma lock_OnRequestMinimize t s : lock_kept s (OnRequestMinimize t s).
Proof. unfold OnRequestMinimize. lock_tac. Qed.
Lemma lock_OnRequestFullscreen t s : lock_kept s (OnRequestFullscreen t s).
Proof. unfold OnRequestFullscreen. lock_tac. Qed.
Lemma lock_OnSetParent t s : lock_kept s (OnSetParent resize_ok t s).
Proof. unfold OnSetParent. lock_tac. Qed.
Lemma lock_BeginInteractive t m e s : lock_kept s (BeginInteractive resize_ok t m e s).
Proof. unfold BeginInteractive. lock_tac. Qed.
Lemma lock_ProcessInteractiveMotion s : lock_kept s (ProcessInteractiveMotion s).
Proof. unfold ProcessInteractiveMotion. lock_tac. Qed.
Lemma lock_EndInteractive s : lock_kept s (EndInteractive resize_ok s).
Proof. unfold EndInteractive. lock_tac. Qed.
Lemma lock_ToggleMaximized t s : lock_kept s (ToggleMaximized resize_ok t s).
Proof. unfold ToggleMaximized. lock_tac. Qed.
Lemma lock_TileToplevel t slot s : lock_kept s (TileToplevel resize_ok t slot s).
Proof. unfold TileToplevel. lock_tac. Qed.
Lemma lock_FitToplevelsToUsableArea o old s : lock_kept s (FitToplevelsToUsableArea o old s).
Proof. unfold FitToplevelsToUsableArea. lock_tac. Qed.
Lemma lock_SetSsdEnabled ok t b s : lock_kept s (SetSsdEnabled resize_ok ok t b s).
Proof. unfold SetSsdEnabled. lock_tac. Qed.
Lemma lock_SetRoundCorner t r s : lock_kept s (SetRoundCorner t r s).
Proof. unfold SetRoundCorner. lock_tac. Qed.
Lemma lock_SetCsdShadow t b s : lock_kept s (SetCsdShadow t b s).
Proof. unfold SetCsdShadow. lock_tac. Qed.
Lemma lock_SetNoTitlebarSurface f b s : lock_kept s (SetNoTitlebarSurface f b s).
Proof. unfold SetNoTitlebarSurface. lock_tac. Qed.
Lemma lock_SetKeptAbove t b s : lock_kept s (SetKeptAbove t b s).
Proof. unfold SetKeptAbove. lock_tac. Qed.
Lemma lock_RequestMaximize f b s : lock_kept s (RequestMaximize root_surface resize_ok f b s).
Proof. unfold RequestMaximize. lock_tac. Qed.
Lemma lock_RequestMinimize f b s : lock_kept s (RequestMinimize root_surface f b s).
Proof. unfold RequestMinimize. lock_tac. Qed.
Lemma lock_RequestActivate f s : lock_kept s (RequestActivate root_surface f s).
Proof. unfold RequestActivate. lock_tac. Qed.
Lemma lock_RequestFullscreen f b s : lock_kept s (RequestFullscreen root_surface f b s).
Proof. unfold RequestFullscreen. lock_tac. Qed.
Lemma lock_MoveToplevelToWorkspace t ws s : lock_kept s (MoveToplevelToWorkspace t ws s).1.
Proof. unfold MoveToplevelToWorkspace. lock_tac. Qed.
Lemma lock_AddWorkspace s : lock_kept s (AddWorkspace s).1.
Proof. unfold AddWorkspace. lock_tac. Qed.
Lemma lock_RemoveWorkspace ws s : lock_kept s (RemoveWorkspace ws s).1.
Proof. unfold RemoveWorkspace. lock_tac. Qed.
Lemma lock_ReorderWorkspace from to s : lock_kept s (ReorderWorkspace from to s).1.
Proof. unfold ReorderWorkspace. lock_tac. Qed.
Lemma lock_SetAllWorkspaces t b s : lock_kept s (SetAllWorkspaces t b s).
Proof. unfold SetAllWorkspaces. lock_tac. Qed.
Lemma lock_SetMultitaskingSourcesHidden b s : lock_kept s (SetMultitaskingSourcesHidden b s).
Proof. unfold SetMultitaskingSourcesHidden. lock_tac. Qed.
Lemma lock_SetWindowPreviewsSourcesHidden b s : lock_kept s (SetWindowPreviewsSourcesHidden b s).
Proof. unfold SetWindowPreviewsSourcesHidden. lock_tac. Qed.

#[local] Hint Resolve lock_OnNewToplevel lock_OnMap lock_OnUnmap lock_OnCommit lock_OnDestroy
  lock_OnRequestMaximize lock_OnRequestMinimize lock_OnRequestFullscreen lock_OnSetParent
  lock_BeginInteractive lock_ProcessInteractiveMotion lock_EndInteractive lock_ToggleMaximized
  lock_TileToplevel lock_FitToplevelsToUsableArea lock_SetSsdEnabled lock_SetRoundCorner
  lock_SetCsdShadow lock_SetNoTitlebarSurface lock_SetKeptAbove lock_RequestMaximize
  lock_RequestMinimize lock_RequestActivate lock_RequestFullscreen lock_SwitchWorkspace
  lock_MoveToplevelToWorkspace lock_AddWorkspace lock_RemoveWorkspace lock_ReorderWorkspace
  lock_SetAllWorkspaces lock_SetMultitaskingSourcesHidden lock_SetWindowPreviewsSourcesHidden :
  lock.

Lemma lock_wm_op s s' : wm_op root_surface resize_ok s s' -> lock_kept s s'.
Proof. intros []; typeclasses eauto with lock nocore. Qed.

End Ops.

(** C3. While the session is locked, no sequence of window operations - clients
    mapping, closing or moving windows, shell protocols activating them, pointer
    grabs, panels or workspace changes - moves the keyboard away from the surface
    the lock screen gave it to, and none of them unlocks the session. *)
Theorem locked_session_keeps_focus `{OutputLayout} root_surface resize_ok (s s' : compositor)
  (Hlock : SessionLocked s = true)
  (Hops : rtc (wm_op root_surface resize_ok) s s') :
  SessionLocked s' = true /\ focused_surface s' = focused_surface s.
Proof.
  assert (Hk : lock_kept s s') by
    (clear Hlock; induction Hops; [done|etransitivity; [by eapply lock_wm_op|done]]).
  by apply Hk.
Qed.

#[local] Existing Instance demo_layout.

(** The session is locked, the lock screen's surface 99 has the keyboard; then a
    window closes and another one asks to be activated. *)
Definition demo_locked : compositor :=
  demo_windows <{ session_locked := true }> <{ focused_surface := Some 99%nat }>.
Definition demo_attempt : compositor :=
  RequestActivate id (Some 12%nat) (OnUnmap 1 demo_locked).

Lemma locked_session_keeps_focus_witness :
  SessionLocked demo_attempt = true /\ focused_surface demo_attempt = Some 99%nat.
Proof.
  apply (locked_session_keeps_focus id (fun _ _ => true) demo_locked demo_attempt); [reflexivity|].
  eapply rtc_l; [apply (st_unmap id (fun _ _ => true) demo_locked 1)|].
  apply rtc_once. apply (st_p_activate id (fun _ _ => true) _ (Some 12%nat)).
Defined.
