(* ===== verification/Stacking.v ===== *)
(** * Stacking order and the next window to focus

    Theorems about the order of windows on the screen after focusing one, and
    about which window gets the keyboard when the focused one goes away. *)

From S2P Require Import Prelude Box Ssd Window Windows WindowFacts Workspaces Focus.

(** ** Raising *)

(** The effect of [raise_to_top] on the stacking order. *)
Definition raise (u : nat) (l : list nat) : list nat :=
  if decide (u ∈ l) then List.filter (fun v => negb (v =? u)%nat) l ++ [u] else l.

Definition without (us : list nat) (l : list nat) : list nat :=
  List.filter (fun v => bool_decide (v ∉ us)) l.

Lemma without_app us l1 l2 : without us (l1 ++ l2) = without us l1 ++ without us l2.
Proof. apply List.filter_app. Qed.

Lemma without_filter us u l :
  without us (List.filter (fun v => negb (v =? u)%nat) l) = without (u :: us) l.
Proof.
  induction l as [|v l IH]; [done|]. unfold without in *. cbn [List.filter].
  destruct (Nat.eqb_spec v u) as [->|Hne]; cbn [negb List.filter].
  - rewrite (bool_decide_eq_false_2 (u ∉ u :: us)) by set_solver. apply IH.
  - rewrite IH. destruct (decide (v ∈ us)).
    + by rewrite !bool_decide_eq_false_2 by set_solver.
    + by rewrite !bool_decide_eq_true_2 by set_solver.
Qed.

Lemma without_nil l : without [] l = l.
Proof.
  induction l as [|v l IH]; [done|]. unfold without in *. cbn [List.filter].
  by rewrite (bool_decide_eq_true_2 (v ∉ [])), IH by apply not_elem_of_nil.
Qed.

Lemma elem_of_raise u v l : v ∈ l -> v ∈ raise u l.
Proof.
  intros Hv. unfold raise. destruct (decide (u ∈ l)); [|done].
  destruct (decide (v = u)) as [->|Hne]; [set_solver|]. apply elem_of_app. left.
  apply list_elem_of_In, filter_In. split; [by apply list_elem_of_In|].
  apply negb_true_iff, Nat.eqb_neq. done.
Qed.

(** Raising some windows one after the other puts them on top in that order. *)
Lemma raise_all us l : NoDup us -> (forall u, u ∈ us -> u ∈ l) ->
  foldl (fun l u => raise u l) l us = without us l ++ us.
Proof.
  revert l. induction us as [|u us IH]; intros l Hnd Hin; simpl.
  - by rewrite without_nil, app_nil_r.
  - apply NoDup_cons in Hnd as [Hu Hnd]. rewrite IH; [|done|].
    2: { intros v Hv. apply elem_of_raise, Hin. by right. }
    unfold raise. rewrite decide_True by (apply Hin; by left).
    rewrite without_app, without_filter. unfold without at 2. simpl.
    rewrite bool_decide_eq_true_2 by done. by rewrite <- app_assoc.
Qed.

(** ** Raising the focused window *)

(** The kept-above windows that stay over a focused window [t]. *)
Definition stays_above (t : nat) (v : wv) (c : wcore) : bool :=
  negb (c_id c =? t)%nat && c_above c && c_scene c && visible_core v c.

Definition above_ids (t : nat) (v : wv) : list nat := map c_id (List.filter (stays_above t v) v.2).

Lemma raise_loop t s : NoDup (wids s) ->
  let s' := each_tl (fun u s => with_tl u (fun c s =>
    if negb (u =? t)%nat && kept_above c && bool_decide (scene_tree c <> None) &&
       IsToplevelVisible c s then raise_to_top u s else s) s) s in
  toplevels_ s' = toplevels_ s /\
  stacking s' = foldl (fun l u => raise u l) (stacking s) (above_ids t (wview s)).
Proof.
  intros Hnd. cbv zeta. unfold each_tl, above_ids.
  set (step := fun s u => with_tl u (fun c s => if negb (u =? t)%nat && kept_above c &&
    bool_decide (scene_tree c <> None) && IsToplevelVisible c s then raise_to_top u s else s) s).
  assert (Hstep : forall w s0, w ∈ toplevels_ s -> toplevels_ s0 = toplevels_ s -> globals s0 = globals s ->
    step s0 (tl_id w) = (if stays_above t (wview s) (core w) then raise_to_top (tl_id w) s0 else s0)).
  { intros w s0 Hw Et Eg. unfold step, with_tl, find_tl. rewrite Et. fold (find_tl (tl_id w) s).
    rewrite (find_tl_unique s w Hnd Hw), visible_core_eq. unfold wview, visible_core, stays_above.
    simpl fst. by rewrite Eg. }
  assert (Hl : forall L s0, (forall w, w ∈ L -> w ∈ toplevels_ s) -> toplevels_ s0 = toplevels_ s ->
    globals s0 = globals s -> let s' := foldl step s0 (map tl_id L) in
    toplevels_ s' = toplevels_ s /\ stacking s' = foldl (fun l u => raise u l) (stacking s0)
      (map c_id (List.filter (stays_above t (wview s)) (map core L)))).
  { induction L as [|w L IH]; intros s0 Hin Et Eg; [done|]. cbn [map foldl List.filter].
    rewrite Hstep by (done || apply Hin; by left).
    destruct (stays_above t (wview s) (core w)); apply IH; try done; intros; apply Hin; by right. }
  apply (Hl (toplevels_ s)); done.
Qed.

Lemma above_ids_spec t (v : wv) : NoDup (map c_id v.2) ->
  NoDup (above_ids t v) /\ (t ∉ above_ids t v) /\
  (forall u, u ∈ above_ids t v -> exists c, c ∈ v.2 /\ c_id c = u /\ c_scene c = true).
Proof.
  intros Hnd. unfold above_ids. split_and!.
  - induction (v.2) as [|c l IH]; [constructor|]. simpl in *. apply NoDup_cons in Hnd as [Hc Hnd].
    destruct (stays_above t v c); [|by apply IH]. simpl. apply NoDup_cons. split; [|by apply IH].
    intros (c' & E & Hc')%list_elem_of_fmap. apply Hc. rewrite E. apply list_elem_of_fmap_2.
    apply list_elem_of_In. apply list_elem_of_In, filter_In in Hc' as [? _]. done.
  - intros (c & -> & Hc)%list_elem_of_fmap. apply list_elem_of_In, filter_In in Hc as [_ Hc].
    unfold stays_above in Hc. by rewrite Nat.eqb_refl in Hc.
  - intros u (c & -> & Hc)%list_elem_of_fmap. apply list_elem_of_In, filter_In in Hc as [Hin Hc].
    unfold stays_above in Hc. rewrite !andb_true_iff in Hc. exists c.
    split; [by apply list_elem_of_In|]. tauto.
Qed.

(** Every window with a scene node is in the stacking order. *)
Definition stacked (s : compositor) : Prop :=
  forall c, c ∈ (wview s).2 -> c_scene c = true -> c_id c ∈ stacking s.

Lemma raise_focused_stacking t s w : NoDup (wids s) -> find_tl t s = Some w ->
  scene_tree w <> None -> stacked s ->
  let above := above_ids t (wview s) in
  stacking (raise_focused t s) = without (t :: above) (stacking s) ++
    (if kept_above w then above ++ [t] else t :: above).
Proof.
  intros Hnd Hw Hn Hst. cbv zeta. unfold raise_focused. cbv zeta.
  assert (Hin : t ∈ stacking s).
  { apply find_tl_Some in Hw as [Hin <-]. apply (Hst (core w)); [by apply list_elem_of_fmap_2|].
    by apply bool_decide_eq_true_2. }
  destruct (raise_loop t (raise_to_top t s)) as [Et Es]; [done|]. set (s1 := each_tl _ _) in *.
  change (wview (raise_to_top t s)) with (wview s) in Es.
  change (stacking (raise_to_top t s)) with (raise t (stacking s)) in Es.
  destruct (above_ids_spec t (wview s)) as (Hna & Hta & Hca); [by rewrite wview_ids in Hnd|].
  set (A := above_ids t (wview s)) in *.
  assert (E1 : stacking s1 = without (t :: A) (stacking s) ++ t :: A).
  { rewrite Es, raise_all; [|done|].
    - unfold raise. rewrite decide_True by done. rewrite without_app, without_filter.
      unfold without at 2. cbn [List.filter]. rewrite bool_decide_eq_true_2 by done.
      by rewrite <- app_assoc.
    - intros u Hu. destruct (Hca u Hu) as (c & Hc & <- & Hs). by apply elem_of_raise, (Hst c). }
  unfold with_tl, find_tl. rewrite Et. change (List.find _ (toplevels_ (raise_to_top t s))) with (find_tl t s).
  rewrite Hw. destruct (kept_above w); [|done]. cbn [when].
  change (stacking (raise_to_top t s1)) with (raise t (stacking s1)). rewrite E1. unfold raise.
  rewrite decide_True by set_solver. rewrite List.filter_app. cbn [List.filter].
  rewrite Nat.eqb_refl. cbn [negb]. rewrite <- app_assoc. f_equal; [|f_equal].
  - clear. induction (stacking s) as [|v l IH]; [done|]. unfold without in *. cbn [List.filter].
    destruct (decide (v ∈ t :: A)); [by rewrite bool_decide_eq_false_2 by tauto|].
    rewrite bool_decide_eq_true_2 by done. cbn [List.filter].
    destruct (Nat.eqb_spec v t) as [->|]; [set_solver|]. cbn [negb]. by rewrite IH.
  - clear -Hta. induction A as [|v l IH]; [done|]. cbn [List.filter].
    destruct (Nat.eqb_spec v t) as [->|]; [set_solver|]. cbn [negb]. rewrite IH; [done|set_solver].
Qed.

(** ** Focusing a window *)

Lemma stacking_each f s : (forall t s, stacking (f t s) = stacking s) ->
  stacking (each_tl f s) = stacking s.
Proof.
  intros Hf. unfold each_tl. generalize (map tl_id (toplevels_ s)). intros l. revert s.
  induction l as [|t l IH]; intros s; simpl; [done|]. by rewrite IH, Hf.
Qed.
Lemma stacking_when b f s : stacking (f s) = stacking s -> stacking (when b f s) = stacking s.
Proof. by destruct b. Qed.
Lemma stacking_UpdateCsdShadow t s : stacking (UpdateCsdShadow t s) = stacking s.
Proof.
  unfold UpdateCsdShadow, with_tl. destruct (find_tl t s); [|done]. cbv zeta. by destruct (_ || _).
Qed.
Lemma stacking_deactivate q s : stacking (deactivate_previous q s) = stacking s.
Proof.
  unfold deactivate_previous. destruct (q ≫= _) as [w|]; [|done]. by destruct (CanConfigure w).
Qed.

(** Nothing keeps window [w] from getting the focus, and it does not have it. *)
Record focusable (w : Toplevel) (s : compositor) : Prop := {
  fc_unlocked : SessionLocked s = false;
  fc_no_layer : exclusive_layer s = None;
  fc_mapped : mapped w = true;
  fc_surface : Surface w <> None;
  fc_node : scene_tree w <> None;
  fc_workspace : on_current w s = true;
  fc_minimized : minimized w = false }.

Lemma find_tl_shown t s s1 w : pview shown s1 = pview shown s -> find_tl t s = Some w ->
  exists w1, find_tl t s1 = Some w1 /\ shown w1 = shown w.
Proof.
  unfold pview, find_tl. generalize (toplevels_ s1). intros l1. revert l1.
  induction (toplevels_ s) as [|v l IH]; intros [|v1 l1] E Hw; try done. simpl in Hw |- *.
  assert (Es : shown v1 = shown v) by exact (f_equal (from_option id (shown v) ∘ head) E).
  assert (Ei : tl_id v1 = tl_id v) by (by injection Es). rewrite Ei. destruct (tl_id v =? t)%nat.
  - injection Hw as <-. by exists v1.
  - apply IH; [exact (f_equal tail E)|done].
Qed.

Lemma stacking_enter f s : stacking (keyboard_enter f s) = stacking s.
Proof. unfold keyboard_enter. by destruct (has_keyboard s). Qed.

Lemma FocusToplevel_raises t s w : find_tl t s = Some w -> focusable w s ->
  focused_surface s <> Surface w ->
  exists s1 w1, find_tl t s1 = Some w1 /\ shown w1 = shown w /\ wview s1 = wview s /\
    stacking s1 = stacking s /\
    stacking (FocusToplevel t s) = stacking (raise_focused t s1) /\
    focused_surface (FocusToplevel t s) = if has_keyboard s then Surface w else focused_surface s.
Proof.
  intros Hw [Hl Hx Hm Hs Hn Ho Hmin] Hf. unfold FocusToplevel at 1 2. unfold with_tl at 1 2. rewrite Hw.
  assert (Ha : IsAlive w = true).
  { apply bool_decide_eq_true_2. intros E. apply Hs. unfold Surface. by rewrite E. }
  rewrite Hl, Hm, Ha, Ho, Hmin, (bool_decide_eq_false_2 _ Hs), Hx. cbn [negb orb]. cbv zeta iota.
  set (s0 := each_tl _ s). assert (Hp0 : pview shown s0 = pview shown s).
  { unfold s0. apply pview_each. intros u s'. rewrite (pview_UpdateCsdShadow shown focus_stable_shown).
    apply pview_upd. intros. apply focus_stable_shown. }
  assert (E0 : stacking s0 = stacking s /\ focused_surface s0 = focused_surface s).
  { split; [apply stacking_each|apply focused_each]; intros;
      [by rewrite stacking_UpdateCsdShadow|by rewrite focused_UpdateCsdShadow]. }
  assert (Hv0 : wview s0 = wview s) by (unfold s0; neutral). clearbody s0. destruct E0 as [E0 F0].
  rewrite F0, (bool_decide_eq_false_2 _ Hf).
  set (s1 := ParkXWaylandFocus (deactivate_previous _ _)). exists s1.
  assert (Hp1 : pview shown s1 = pview shown s).
  { unfold s1, ParkXWaylandFocus, tell_ui. rewrite pview_when by done.
    rewrite (pview_deactivate shown focus_stable_shown), pview_when; done. }
  assert (E1 : stacking s1 = stacking s /\ focused_surface s1 = focused_surface s /\ wview s1 = wview s).
  { unfold s1, ParkXWaylandFocus, tell_ui. rewrite stacking_when, stacking_deactivate, stacking_when by done.
    rewrite focused_when, focused_deactivate, focused_when by done. split_and!; [done|done|].
    rewrite wview_when, wview_deactivate_previous, wview_when; done. }
  destruct E1 as (E1 & F1 & V1). clearbody s1.
  destruct (find_tl_shown t s s1 w Hp1 Hw) as (w1 & Hw1 & Es). exists w1.
  split_and!; auto; unfold tell_protocols.
  - rewrite !stacking_when by done. by rewrite stacking_enter, stacking_when.
  - rewrite !focused_when by done. rewrite focused_enter, focused_when by done.
    set (s2 := when _ _ _). assert (K : has_keyboard s2 = has_keyboard s).
    { transitivity (wview s2).1.2; [done|]. unfold s2. rewrite wview_when by done.
      rewrite wview_upd_tl by (intros; apply core_SetActivated). by rewrite wview_raise_focused, V1. }
    rewrite K. simpl. by rewrite focused_raise_focused, F1.
Qed.

(** C36. Focusing a window raises it over every other window except the visible
    kept-above ones, which stay on top of it in their own order; if it is itself
    kept above, it ends up over those too. No other windows change their order,
    and the keyboard goes to the window's surface. *)
Theorem focus_raises_below_kept_above (t : nat) (s : compositor) (w : Toplevel)
  (Hw : find_tl t s = Some w) (Hf : focusable w s) (Hne : focused_surface s <> Surface w)
  (Hnd : NoDup (wids s)) (Hst : stacked s) (Hk : has_keyboard s = true) :
  let above := above_ids t (wview s) in
  stacking (FocusToplevel t s) = without (t :: above) (stacking s) ++
    (if kept_above w then above ++ [t] else t :: above) /\
  focused_surface (FocusToplevel t s) = Surface w.
Proof.
  cbv zeta. destruct (FocusToplevel_raises t s w Hw Hf Hne) as (s1 & w1 & Hw1 & Es & Hv & E1 & -> & ->).
  rewrite Hk. split; [|done]. rewrite (raise_focused_stacking t s1 w1).
  - injection Es as _ _ _ _ _ -> _ _ _ _ _. by rewrite Hv, E1.
  - by rewrite wview_ids, Hv, <- wview_ids.
  - done.
  - injection Es as _ _ _ _ _ _ _ _ _ _ ->. apply (fc_node _ _ Hf).
  - unfold stacked. by rewrite Hv, E1.
Qed.

#[local] Existing Instance demo_layout.

(** Three windows; the oldest is kept above, the newest has the keyboard. *)
Definition demo_three : compositor :=
  let ok := fun _ _ => true in
  let new i s := OnMap id ok i (OnNewToplevel true i (demo_xdg (10 + i)) s) in
  SetKeptAbove 1 true (new 3 (new 2 (new 1 wm_start)))%nat.

Lemma stacked_check s :
  forallb (fun c => bool_decide (c_id c ∈ stacking s)) (wview s).2 = true -> stacked s.
Proof.
  intros Hc c Hin _. rewrite forallb_forall in Hc.
  by apply list_elem_of_In, Hc, bool_decide_eq_true_1 in Hin.
Qed.

Lemma focus_raises_below_kept_above_witness :
  stacking demo_three = [2; 3; 1]%nat /\
  stacking (FocusToplevel 2 demo_three) = [3; 2; 1]%nat /\
  focused_surface (FocusToplevel 2 demo_three) = Some 12%nat.
Proof.
  split; [vm_compute; reflexivity|].
  destruct (focus_raises_below_kept_above 2 demo_three
    (default (new_toplevel 0 (demo_xdg 0) 0) (find_tl 2 demo_three))) as [Hs Hf].
  - vm_compute. reflexivity.
  - split; vm_compute; congruence.
  - vm_compute. congruence.
  - vm_compute. repeat constructor; set_solver.
  - apply stacked_check. vm_compute. reflexivity.
  - reflexivity.
  - rewrite Hs, Hf. split; vm_compute; reflexivity.
Defined.

(** The window that gets the keyboard after another one is the newest eligible
    one, wherever it is stacked: with window 2 raised over window 3, closing
    window 1 gives the keyboard to window 3, although 2 is the topmost left. *)
Example focus_next_is_not_topmost :
  let s := FocusToplevel 1 (SetKeptAbove 1 false (FocusToplevel 2 demo_three)) in
  stacking s = [3; 2; 1]%nat /\ focused_surface s = Some 11%nat /\
  focused_surface (OnUnmap 1 s) = Some 13%nat.
Proof. vm_compute. split_and!; reflexivity. Qed.
