(* ===== verification/Placement.v ===== *)
(** * Placement and geometry of windows

    Theorems about where the operations of [Windows] put a window's frame:
    tiling slots, placing and constraining new windows, maximizing and restoring,
    interactive moves and resizes, and giving way to panels. [frame_at] is the
    frame of a window in layout coordinates. *)

From S2P Require Import Prelude Box Ssd Window Windows WindowFacts Workspaces.

(** ** Tiling slots *)

(** The point (x, y) of the layout is in the box. *)
Definition covers (b : wlr_box) (x y : Z) : bool :=
  (box_x b <=? x) && (x <? box_x b + box_width b) && (box_y b <=? y) && (y <? box_y b + box_height b).

(** The tiling slots partition the usable area: every point of it is in
    exactly one half and in exactly one quarter, no slot reaches outside, each
    half is made of its two quarters, and no slot is empty on any area that
    TileToplevel accepts (at least 2x2). *)
Theorem TileBox_partition (u : wlr_box) (Hw : 1 < box_width u) (Hh : 1 < box_height u) :
  let slot t := covers (TileBox u t) in
  (forall x y, covers u x y = xorb (slot kLeft x y) (slot kRight x y)) /\
  (forall x y, slot kLeft x y && slot kRight x y = false) /\
  (forall x y, slot kLeft x y = xorb (slot kTopLeft x y) (slot kBottomLeft x y)) /\
  (forall x y, slot kTopLeft x y && slot kBottomLeft x y = false) /\
  (forall x y, slot kRight x y = xorb (slot kTopRight x y) (slot kBottomRight x y)) /\
  (forall x y, slot kTopRight x y && slot kBottomRight x y = false) /\
  (forall t, 0 < box_width (TileBox u t) /\ 0 < box_height (TileBox u t)).
Proof.
  destruct u as [ux uy w h]. simpl in Hw, Hh. cbv zeta. unfold TileBox, covers, idiv. simpl.
  assert (Hw2 : 0 < Z.quot w 2 < w) by (split; [apply Z.quot_str_pos; lia|apply Z.quot_lt; lia]).
  assert (Hh2 : 0 < Z.quot h 2 < h) by (split; [apply Z.quot_str_pos; lia|apply Z.quot_lt; lia]).
  generalize dependent (Z.quot w 2). generalize dependent (Z.quot h 2). intros h2 Hh2 w2 Hw2.
  split_and!; intros; try lia. destruct t; simpl; lia.
Qed.

Lemma TileBox_partition_witness :
  (forall x y, covers (Box 0 30 1919 1051) x y =
     xorb (covers (Box 0 30 959 1051) x y) (covers (Box 959 30 960 1051) x y)) /\
  TileBox (Box 0 30 1919 1051) kBottomRight = Box 959 555 960 526.
Proof.
  split; [|reflexivity]. apply (TileBox_partition (Box 0 30 1919 1051)); reflexivity.
Defined.

(** ** Moving a frame *)

Definition frame_at (t : nat) (s : compositor) : option wlr_box := LayoutFrame <$> find_tl t s.

Lemma find_tl_tell_protocols t n s : find_tl t (tell_protocols n s) = find_tl t s.
Proof. unfold tell_protocols. by destruct (protocol_manager_ s). Qed.

Lemma find_tl_tell_ui t c n s : find_tl t (tell_ui c n s) = find_tl t s.
Proof. unfold tell_ui. by destruct (ui s c). Qed.

Lemma LayoutFrame_set_position x y w n : scene_tree w = Some n ->
  LayoutFrame (set_position x y w) =
  Box (box_x (LayoutFrame w) + (x - node_x n)) (box_y (LayoutFrame w) + (y - node_y n))
    (box_width (LayoutFrame w)) (box_height (LayoutFrame w)).
Proof.
  intros Hn. unfold LayoutFrame. simpl. rewrite Hn. simpl.
  change (tl_FrameGeometry (set_position x y w)) with (tl_FrameGeometry w).
  change (Geometry (set_position x y w)) with (Geometry w). f_equal; lia.
Qed.

Lemma MoveToplevelFrame_frame t x y s w : find_tl t s = Some w -> scene_tree w <> None ->
  frame_at t (MoveToplevelFrame t x y s) =
  Some (Box x y (box_width (LayoutFrame w)) (box_height (LayoutFrame w))).
Proof.
  intros Hw Hn. destruct (scene_tree w) as [n|] eqn:En; [|done].
  unfold frame_at, MoveToplevelFrame, with_tl. rewrite Hw, find_tl_tell_protocols.
  rewrite (find_tl_upd_eq t _ s w); [|by intros v; destruct (scene_tree v)|done]. simpl. rewrite En.
  rewrite (LayoutFrame_set_position _ _ w n En). do 2 f_equal; lia.
Qed.

(** ** Constraining *)

(** A window whose position the compositor manages. *)
Record floating (w : Toplevel) : Prop := {
  fl_alive : IsAlive w = true;
  fl_node : scene_tree w <> None;
  fl_maximized : maximized w = false;
  fl_tiled : tiled w = false;
  fl_fullscreen : RequestedFullscreen w = false;
  fl_width : 0 < box_width (LayoutFrame w);
  fl_height : 0 < box_height (LayoutFrame w) }.

(** Frame [f'] has the size of [f] and lies in [u] along every axis on which it
    fits; along the others it starts where [u] does or later. *)
Record reachable_in (u f f' : wlr_box) : Prop := {
  ri_size : box_width f' = box_width f /\ box_height f' = box_height f;
  ri_top_left : box_x u <= box_x f' /\ box_y u <= box_y f';
  ri_right : box_width f <= box_width u -> box_x f' + box_width f' <= box_x u + box_width u;
  ri_bottom : box_height f <= box_height u -> box_y f' + box_height f' <= box_y u + box_height u }.

Section Placement.
Context `{OutputLayout} (root_surface : nat -> nat).

(** The output a frame belongs to: that of its middle, else that of its corner. *)
Definition output_of_frame (f : wlr_box) : option nat :=
  match output_at (mid (box_x f) (box_width f)) (mid (box_y f) (box_height f)) with
  | Some o => Some o
  | None => output_at (inject_Z (box_x f)) (inject_Z (box_y f))
  end.

Definition nonempty (b : wlr_box) : Prop := 0 < box_width b /\ 0 < box_height b.

Lemma ConstrainToUsableArea_frame t s w o : find_tl t s = Some w -> floating w ->
  output_of_frame (LayoutFrame w) = Some o -> nonempty (UsableOutputBox (Some o) s) ->
  let f := LayoutFrame w in
  let u := UsableOutputBox (Some o) s in
  let x := Z.max (Z.min (box_x f) (box_x u + box_width u - box_width f)) (box_x u) in
  let y := Z.max (Z.min (box_y f) (box_y u + box_height u - box_height f)) (box_y u) in
  ConstrainToUsableArea t s =
    (if (x =? box_x f) && (y =? box_y f) then s else MoveToplevelFrame t x y s) /\
  frame_at t (ConstrainToUsableArea t s) = Some (Box x y (box_width f) (box_height f)).
Proof.
  intros Hw [Ha Hn Hm Ht Hf Hfw Hfh] Ho [Huw Huh]. cbv zeta.
  set (f := LayoutFrame w) in *. set (u := UsableOutputBox (Some o) s) in *.
  set (x := Z.max _ (box_x u)). set (y := Z.max _ (box_y u)).
  assert (E : ConstrainToUsableArea t s =
    (if (x =? box_x f) && (y =? box_y f) then s else MoveToplevelFrame t x y s)).
  { unfold ConstrainToUsableArea, with_tl. rewrite Hw, Ha, Hm, Ht, Hf.
    rewrite (bool_decide_eq_false_2 _ Hn). cbv zeta. fold f. simpl.
    replace ((box_width f <=? 0) || (box_height f <=? 0)) with false by lia.
    unfold output_of_frame in Ho. rewrite Ho. fold u.
    replace ((box_width u <=? 0) || (box_height u <=? 0)) with false by lia. fold x y.
    rewrite <- negb_andb. by destruct ((x =? box_x f) && (y =? box_y f)). }
  split; [done|]. rewrite E. destruct ((x =? box_x f) && (y =? box_y f)) eqn:Exy.
  - unfold frame_at. rewrite Hw. simpl. fold f. f_equal. destruct f as [fx fy fw fh] eqn:Ef.
    simpl in *. f_equal; lia.
  - by apply MoveToplevelFrame_frame.
Qed.

End Placement.

(** Constraining a floating window to the screen it is on moves its frame
    into the usable area along every axis on which it fits, and to the area's
    left or top edge along the others, so that its titlebar stays reachable; it
    keeps its size, and a window that already is inside is not touched at all. *)
Theorem constrain_keeps_reachable `{OutputLayout} (t : nat) (s : compositor) (w : Toplevel) (o : nat)
  (Hw : find_tl t s = Some w) (Hf : floating w)
  (Ho : output_of_frame (LayoutFrame w) = Some o) (Hu : nonempty (UsableOutputBox (Some o) s)) :
  let u := UsableOutputBox (Some o) s in
  (exists f', frame_at t (ConstrainToUsableArea t s) = Some f' /\ reachable_in u (LayoutFrame w) f') /\
  (box_width (LayoutFrame w) <= box_width u -> box_height (LayoutFrame w) <= box_height u ->
   reachable_in u (LayoutFrame w) (LayoutFrame w) -> ConstrainToUsableArea t s = s).
Proof.
  cbv zeta. destruct (ConstrainToUsableArea_frame t s w o Hw Hf Ho Hu) as [E Efr].
  pose proof (fl_width w Hf). pose proof (fl_height w Hf). destruct Hu as [Huw Huh]. split.
  - eexists. split; [exact Efr|]. split; simpl; lia.
  - intros Hfw Hfh [_ Htl Hr Hb]. rewrite E.
    match goal with |- (if ?b then _ else _) = _ => replace b with true by lia end. done.
Qed.

#[local] Existing Instance demo_layout.

(** The first window of the demonstration, dragged over the lower right corner. *)
Definition demo_offscreen : compositor := upd_tl 1 (set_position 1500 900) demo_windows.
Definition demo_offscreen_window : Toplevel := set_position 1500 900 demo_first.

Lemma demo_offscreen_floating : floating demo_offscreen_window.
Proof. split; vm_compute; congruence. Qed.

Lemma constrain_keeps_reachable_witness :
  frame_at 1 demo_offscreen = Some (Box 1500 900 800 600) /\
  frame_at 1 (ConstrainToUsableArea 1 demo_offscreen) = Some (Box 1120 480 800 600) /\
  exists f', frame_at 1 (ConstrainToUsableArea 1 demo_offscreen) = Some f' /\
    box_x f' + box_width f' <= 1920.
Proof.
  split; [vm_compute; reflexivity|]. split; [vm_compute; reflexivity|].
  destruct (constrain_keeps_reachable 1 demo_offscreen demo_offscreen_window 1)
    as [(f' & Hf & Hr) _].
  - vm_compute. reflexivity.
  - exact demo_offscreen_floating.
  - vm_compute. reflexivity.
  - split; vm_compute; reflexivity.
  - exists f'. split; [exact Hf|]. apply (ri_right _ _ _ Hr). vm_compute. congruence.
Defined.

(** ** Placing a new window *)

(** A new floating window opens centered in the usable area of the screen of
    its parent, or of the screen under the pointer: its frame lies in that area
    along every axis on which it fits, with the space on both sides differing by
    at most one pixel, and starts at the area's edge where it does not fit. *)
Theorem new_window_centered `{OutputLayout} (root_surface : nat -> nat) (t : nat) (s : compositor)
  (w : Toplevel) (o : nat)
  (Hw : find_tl t s = Some w) (Hf : floating w)
  (Hpos : position_requested w = false)
  (Htree : from_option node_in_tree false (scene_tree w) = true)
  (Ho : match output_at (placement_anchor root_surface w s).1 (placement_anchor root_surface w s).2 with
        | Some o => Some o | None => center_output end = Some o)
  (Hu : nonempty (UsableOutputBox (Some o) s)) :
  let u := UsableOutputBox (Some o) s in
  let f := LayoutFrame w in
  exists f', frame_at t (PlaceNewToplevel root_surface t s) = Some f' /\ reachable_in u f f' /\
    (box_width f <= box_width u -> let left := box_x f' - box_x u in
       let right := box_x u + box_width u - (box_x f' + box_width f') in 0 <= right - left <= 1) /\
    (box_height f <= box_height u -> let above := box_y f' - box_y u in
       let below := box_y u + box_height u - (box_y f' + box_height f') in 0 <= below - above <= 1).
Proof.
  cbv zeta. destruct Hf as [Ha Hn Hm Htl Hfs Hfw Hfh]. destruct Hu as [Huw Huh].
  set (f := LayoutFrame w) in *. set (u := UsableOutputBox (Some o) s) in *.
  set (x := box_x u + Z.max 0 (idiv (box_width u - box_width f) 2)).
  set (y := box_y u + Z.max 0 (idiv (box_height u - box_height f) 2)).
  assert (Ef : frame_at t (PlaceNewToplevel root_surface t s) =
    Some (Box x y (box_width f) (box_height f))).
  { unfold PlaceNewToplevel, with_tl. rewrite Hw, Ha, Hm, Htl, Hfs, Hpos, Htree. simpl. fold f.
    replace ((box_width f <=? 0) || (box_height f <=? 0)) with false by lia.
    destruct (placement_anchor root_surface w s) as [ax ay]. simpl in Ho. rewrite Ho. fold u.
    replace ((box_width u <=? 0) || (box_height u <=? 0)) with false by lia.
    unfold frame_at. rewrite find_tl_tell_protocols, find_tl_upd by done.
    pose proof (MoveToplevelFrame_frame t x y s w Hw Hn) as E. unfold frame_at in E. fold x y.
    destruct (find_tl t (MoveToplevelFrame t x y s)) as [v|]; [|done]. simpl in E |- *.
    transitivity (Some (LayoutFrame v)); [by destruct (tl_id v =? t)%nat|exact E]. }
  eexists. split; [exact Ef|]. clear Ef. unfold x, y, idiv in *.
  assert (Hq : forall a, 0 <= a -> 0 <= Z.quot a 2 /\ 0 <= a - 2 * Z.quot a 2 <= 1).
  { intros a Hpa. rewrite Z.quot_div_nonneg by lia. pose proof (Z.div_mod a 2 ltac:(lia)).
    pose proof (Z.mod_pos_bound a 2 ltac:(lia)). pose proof (Z.div_pos a 2). lia. }
  pose proof (Hq (box_width u - box_width f)). pose proof (Hq (box_height u - box_height f)).
  split_and!; [split|..]; simpl; lia.
Qed.

Definition demo_new : compositor :=
  upd_tl 1 (fun w => w <{ mapped := true }> <{ placed := true }>)
    (OnNewToplevel true 1 (demo_xdg 11) wm_start).
Definition demo_new_window : Toplevel :=
  default (new_toplevel 0 (demo_xdg 0) 0) (head (toplevels_ demo_new)).

Lemma new_window_centered_witness :
  frame_at 1 (PlaceNewToplevel id 1 demo_new) = Some (Box 560 240 800 600) /\
  exists f', frame_at 1 (PlaceNewToplevel id 1 demo_new) = Some f' /\ 0 <= box_x f' <= 1120.
Proof.
  split; [vm_compute; reflexivity|].
  destruct (new_window_centered id 1 demo_new demo_new_window 1) as (f' & Hf & Hr & _).
  - vm_compute. reflexivity.
  - split; vm_compute; congruence.
  - reflexivity.
  - reflexivity.
  - vm_compute. reflexivity.
  - split; vm_compute; reflexivity.
  - exists f'. split; [exact Hf|]. destruct (ri_size _ _ _ Hr) as [Es _].
    destruct (ri_top_left _ _ _ Hr) as [Hx _]. pose proof (ri_right _ _ _ Hr) as Hright.
    rewrite Es in Hright. change (0 <= box_x f') in Hx.
    change (800 <= 1920 -> box_x f' + 800 <= 1920) in Hright. lia.
Defined.

(** ** Maximizing and restoring *)

Lemma find_tl_RebuildSurfaceClip t u s : find_tl t (RebuildSurfaceClip u s) = find_tl t s.
Proof.
  unfold RebuildSurfaceClip, with_tl. destruct (find_tl u s) as [w|]; [|done].
  destruct (Surface w); [|done]. by destruct (blur_renderer_ s).
Qed.

Lemma find_tl_UpdateCsdShadow t s w : find_tl t s = Some w ->
  exists v, find_tl t (UpdateCsdShadow t s) = Some (w <{ csd_shadow := v }>).
Proof.
  intros Hw. unfold UpdateCsdShadow, with_tl. rewrite Hw. cbv zeta.
  destruct (_ || _); eexists; by apply find_tl_upd_eq.
Qed.

(** The parts of the state that maximizing reads. *)
Definition layout_inputs (s : compositor) := (outputs_ s, cursor_x s, cursor_y s).

Lemma layout_inputs_UpdateCsdShadow t s : layout_inputs (UpdateCsdShadow t s) = layout_inputs s.
Proof. unfold UpdateCsdShadow, with_tl. destruct (find_tl t s); [|done]. cbv zeta. by destruct (_ || _). Qed.
Lemma layout_inputs_RebuildSurfaceClip t s : layout_inputs (RebuildSurfaceClip t s) = layout_inputs s.
Proof.
  unfold RebuildSurfaceClip, with_tl. destruct (find_tl t s) as [w|]; [|done].
  destruct (Surface w); [|done]. by destruct (blur_renderer_ s).
Qed.
Lemma layout_inputs_tell_ui c n s : layout_inputs (tell_ui c n s) = layout_inputs s.
Proof. unfold tell_ui. by destruct (ui s c). Qed.

Section Maximize.
Context `{OutputLayout} (resize_ok : Z -> Z -> bool).

(** The window after the common part of a change of the maximized state. *)
Definition change_maximized (max : bool) (shadow : option csd_shadow_state) (w : Toplevel) : Toplevel :=
  ((leave_tile resize_ok (when (max && negb (tiled w)) save_restore_box w)) <{ maximized := max }>
    |> ssd_map (fun d => SsdSetMaximized resize_ok d max)) <{ csd_shadow := shadow }>.

(** Where the window is put by it. *)
Definition finish_maximized (max : bool) (output : option nat) (box : wlr_box) (w : Toplevel) : Toplevel :=
  (if max then maximize_onto output box w
   else (restore_now w) <{ maximized_output := None }>) |> SetMaximizedState max.

Lemma id_save_restore w : tl_id (save_restore_box w) = tl_id w.
Proof. unfold save_restore_box. destruct (scene_tree w); [|done]. by case_ifs. Qed.
Lemma id_schedule now later w : tl_id (schedule now later w) = tl_id w.
Proof. unfold schedule. destruct (CanConfigure w); [done|]. by destruct (handle w). Qed.
Lemma id_leave_tile w : tl_id (leave_tile resize_ok w) = tl_id w.
Proof. unfold leave_tile, SetTiledState. by rewrite id_schedule. Qed.
Lemma id_Configure b w : tl_id (Configure b w) = tl_id w.
Proof.
  unfold Configure. destruct (scene_tree w); [|done]. destruct (_ || _); [done|]. by rewrite id_schedule.
Qed.
Lemma id_maximize_onto o b w : tl_id (maximize_onto o b w) = tl_id w.
Proof. unfold maximize_onto. cbv zeta. case_ifs; simpl; by rewrite ?id_Configure. Qed.
Lemma id_restore_now w : tl_id (restore_now w) = tl_id w.
Proof. unfold restore_now. destruct (has_restore_box w); [|done]. simpl. apply id_Configure. Qed.

Lemma SetMaximized_window t max s w : find_tl t s = Some w -> IsAlive w = true ->
  scene_tree w <> None -> maximized w = negb max ->
  exists v, find_tl t (SetMaximized resize_ok t max s) =
    Some (finish_maximized max (pointer_output s) (UsableOutputBox (pointer_output s) s)
            (change_maximized max v w)).
Proof.
  intros Hw Ha Hn Hm. unfold SetMaximized, with_tl. rewrite Hw, Ha, (bool_decide_eq_false_2 _ Hn).
  cbv beta iota zeta. simpl orb. cbv iota. rewrite Hm.
  replace (Bool.eqb max (negb max)) with false by by destruct max. cbv iota.
  set (s1 := tell_ui _ _ s). assert (Hw1 : find_tl t s1 = Some w) by (unfold s1; by rewrite find_tl_tell_ui).
  assert (L1 : layout_inputs s1 = layout_inputs s) by apply layout_inputs_tell_ui. clearbody s1.
  set (s2 := upd_tl t (fun w => _) (upd_tl t (leave_tile resize_ok) _)).
  set (w2 := (leave_tile resize_ok (when (max && negb (tiled w)) save_restore_box w)) <{ maximized := max }>
    |> ssd_map (fun d => SsdSetMaximized resize_ok d max)).
  assert (Hw2 : find_tl t s2 = Some w2).
  { unfold s2. erewrite find_tl_upd_eq; [|done|]; [reflexivity|].
    erewrite find_tl_upd_eq; [|apply id_leave_tile|]; [reflexivity|].
    apply (find_tl_upd_eq t (fun w => when (max && negb (tiled w)) save_restore_box w)); [|done].
    intros v. destruct (max && negb (tiled v)); [apply id_save_restore|done]. }
  assert (L2 : layout_inputs s2 = layout_inputs s) by exact L1. clearbody s2.
  rewrite <- (find_tl_RebuildSurfaceClip t t) in Hw2.
  destruct (find_tl_UpdateCsdShadow _ _ _ Hw2) as [v Hv].
  assert (L3 : layout_inputs (UpdateCsdShadow t (RebuildSurfaceClip t s2)) = layout_inputs s)
    by (rewrite layout_inputs_UpdateCsdShadow, layout_inputs_RebuildSurfaceClip; done).
  set (s3 := UpdateCsdShadow t _) in *. clearbody s3. exists v. rewrite find_tl_tell_protocols.
  assert (Eo : pointer_output s3 = pointer_output s)
    by (unfold pointer_output; injection L3 as _ -> ->; done).
  assert (Eu : UsableOutputBox (pointer_output s3) s3 = UsableOutputBox (pointer_output s) s)
    by (rewrite Eo; unfold UsableOutputBox, FindOutput; injection L3 as -> _ _; done).
  erewrite find_tl_upd_eq; [|intros; apply id_schedule|].
  2: { apply find_tl_upd_eq; [by intros u; destruct max|]. instantiate (1 := if max
         then maximize_onto (pointer_output s) (UsableOutputBox (pointer_output s) s)
           (change_maximized max v w)
         else restore_now (change_maximized max v w)).
       destruct max; [rewrite Eu, Eo|]; apply find_tl_upd_eq; auto using id_maximize_onto, id_restore_now. }
  unfold finish_maximized. by destruct max.
Qed.

End Maximize.

(** What the restore position of a window is computed from. *)
Record restorable (w : Toplevel) : Prop := {
  rs_floating : floating w;
  rs_configurable : CanConfigure w = true;
  rs_size : nonempty (Geometry w);
  rs_decoration : forall d, ssd w = Some d -> maximized_ d = false /\ tiled_ d = false }.

Lemma Arrange_flags resize_ok d :
  maximized_ (Arrange resize_ok d) = maximized_ d /\ tiled_ (Arrange resize_ok d) = tiled_ d.
Proof. unfold Arrange. destruct (tree_ d); [|done]. cbv zeta. by case_ifs. Qed.

Lemma SsdSetMaximized_flags resize_ok d b :
  maximized_ (SsdSetMaximized resize_ok d b) = b /\ tiled_ (SsdSetMaximized resize_ok d b) = tiled_ d.
Proof.
  unfold SsdSetMaximized. destruct (Bool.eqb (maximized_ d) b) eqn:E; [by apply eqb_prop in E|].
  destruct (Arrange_flags resize_ok (d <{ maximized_ := b }>)) as [-> ->]. done.
Qed.

Lemma SetTiled_flags resize_ok d b :
  tiled_ (SetTiled resize_ok d b) = b /\ maximized_ (SetTiled resize_ok d b) = maximized_ d.
Proof.
  unfold SetTiled. destruct (Bool.eqb (tiled_ d) b) eqn:E; [by apply eqb_prop in E|].
  destruct (Arrange_flags resize_ok (d <{ tiled_ := b }>)) as [-> ->]. done.
Qed.

Section Restore.
Context `{OutputLayout} (resize_ok : Z -> Z -> bool).

(** A configurable window after the two halves of [SetMaximized]. *)
Lemma change_maximized_handle max v w h : handle w = Some h -> x_initialized h = true ->
  handle (change_maximized resize_ok max v w) = Some (h <{ x_tiled := 0 }>) /\
  scene_tree (change_maximized resize_ok max v w) = scene_tree w /\
  minimized (change_maximized resize_ok max v w) = minimized w /\
  maximized (change_maximized resize_ok max v w) = max /\
  tiled (change_maximized resize_ok max v w) = false /\
  ssd (change_maximized resize_ok max v w) =
    (fun d => SsdSetMaximized resize_ok (SetTiled resize_ok d false) max) <$> ssd w.
Proof.
  intros Hh Hi. unfold change_maximized, leave_tile, SetTiledState, schedule, CanConfigure.
  assert (E : forall b, handle (when b save_restore_box w) = handle w /\
    scene_tree (when b save_restore_box w) = scene_tree w /\
    minimized (when b save_restore_box w) = minimized w /\ ssd (when b save_restore_box w) = ssd w).
  { intros []; [|done]. simpl. unfold save_restore_box. destruct (scene_tree w) eqn:En; [|done].
    by case_ifs. }
  destruct (E (max && negb (tiled w))) as (E1 & E2 & E3 & E4). set (w0 := when _ _ w) in *.
  clearbody w0. simpl. rewrite E1, Hh. simpl. rewrite Hi. simpl. rewrite E1, E2, E3, E4, Hh.
  split_and!; try done. by destruct (ssd w).
Qed.

Lemma restore_box_change v w n : scene_tree w = Some n -> tiled w = false ->
  0 < box_width (tl_FrameGeometry w) -> 0 < box_height (tl_FrameGeometry w) ->
  has_restore_box (change_maximized resize_ok true v w) = true /\
  restore_box (change_maximized resize_ok true v w) =
    Box (node_x n + box_x (tl_FrameGeometry w)) (node_y n + box_y (tl_FrameGeometry w))
      (box_width (tl_FrameGeometry w)) (box_height (tl_FrameGeometry w)).
Proof.
  intros Hn Ht Hw Hh. unfold change_maximized, leave_tile, SetTiledState, schedule, CanConfigure.
  rewrite Ht. simpl. unfold save_restore_box. rewrite Hn.
  replace ((box_width (tl_FrameGeometry w) >? 0) && (box_height (tl_FrameGeometry w) >? 0)) with true by lia.
  simpl. destruct (from_option _ _ _); [done|]. by destruct (handle w).
Qed.

Lemma restore_box_kept v w :
  has_restore_box (change_maximized resize_ok false v w) = has_restore_box w /\
  restore_box (change_maximized resize_ok false v w) = restore_box w.
Proof.
  unfold change_maximized, leave_tile, SetTiledState, schedule, CanConfigure. simpl.
  destruct (from_option _ _ _); [done|]. by destruct (handle w).
Qed.

Definition content_of (w : Toplevel) (b : wlr_box) : wlr_box :=
  match ssd w with None => b | Some d => ContentGeometry d b end.

Lemma Configure_window b w h n : handle w = Some h -> x_initialized h = true ->
  scene_tree w = Some n -> nonempty b ->
  let c := content_of w b in
  Configure b w = w
    <{ scene_tree := Some (n <{ node_x := box_x c - box_x (x_geometry h) }>
                             <{ node_y := box_y c - box_y (x_geometry h) }>) }>
    <{ handle := Some (h <{ x_width := box_width c }> <{ x_height := box_height c }>) }>.
Proof.
  intros Hh Hi Hn [Hbw Hbh]. cbv zeta. unfold Configure. rewrite Hn.
  replace ((box_width b <=? 0) || (box_height b <=? 0)) with false by lia.
  unfold Geometry, schedule, CanConfigure. simpl. rewrite Hh. simpl. rewrite Hi. fold (content_of w b).
  unfold set_position. destruct w. simpl in *. by rewrite Hn, Hh.
Qed.

(** Maximizing a configurable window. *)
Lemma finish_true_window o b w h n : handle w = Some h -> x_initialized h = true ->
  scene_tree w = Some n -> nonempty b ->
  let w' := finish_maximized true o b w in
  let c := content_of w b in
  handle w' = Some (h <{ x_width := box_width c }> <{ x_height := box_height c }> <{ x_maximized := true }>) /\
  (exists n', scene_tree w' = Some n') /\
  maximized w' = maximized w /\ tiled w' = tiled w /\ ssd w' = ssd w /\
  has_restore_box w' = has_restore_box w /\ restore_box w' = restore_box w /\ maximized_box w' = b.
Proof.
  intros Hh Hi Hn Hb. cbv zeta. unfold finish_maximized, maximize_onto, SetMaximizedState. cbv zeta.
  destruct Hb as [Hbw Hbh]. replace ((box_width b >? 0) && (box_height b >? 0)) with true by lia.
  rewrite (Configure_window b _ h n) by done. simpl.
  destruct (minimized w); unfold schedule, CanConfigure; simpl; rewrite Hi; simpl; split_and!; by eauto.
Qed.

(** Restoring a configurable window. *)
Lemma finish_false_window o b w h n : handle w = Some h -> x_initialized h = true ->
  scene_tree w = Some n -> has_restore_box w = true -> nonempty (restore_box w) ->
  let w' := finish_maximized false o b w in
  let c := content_of w (restore_box w) in
  handle w' = Some (h <{ x_width := box_width c }> <{ x_height := box_height c }> <{ x_maximized := false }>) /\
  scene_tree w' = Some (n <{ node_x := box_x c - box_x (x_geometry h) }>
                          <{ node_y := box_y c - box_y (x_geometry h) }>) /\
  maximized w' = maximized w /\ tiled w' = tiled w /\ ssd w' = ssd w.
Proof.
  intros Hh Hi Hn Hr Hb. cbv zeta. unfold finish_maximized, restore_now, SetMaximizedState.
  rewrite Hr, (Configure_window _ _ h n) by done.
  unfold schedule, CanConfigure; simpl; rewrite Hi; simpl. by split_and!.
Qed.

(** Decorations with the same border have the same geometry. *)
Lemma frame_geometry_border d d' : BorderWidth d = BorderWidth d' ->
  FrameGeometry d = FrameGeometry d' /\ ContentGeometry d = ContentGeometry d'.
Proof. intros E. unfold FrameGeometry, ContentGeometry. by rewrite E. Qed.

Lemma restored_border d : maximized_ d = false -> tiled_ d = false ->
  let d1 := SsdSetMaximized resize_ok (SetTiled resize_ok d false) true in
  BorderWidth (SsdSetMaximized resize_ok (SetTiled resize_ok d1 false) false) = BorderWidth d.
Proof.
  intros Hm Ht. cbv zeta. unfold BorderWidth.
  repeat match goal with
  | |- context [maximized_ (SsdSetMaximized ?r ?d ?b)] =>
      rewrite (proj1 (SsdSetMaximized_flags r d b))
  | |- context [tiled_ (SsdSetMaximized ?r ?d ?b)] =>
      rewrite (proj2 (SsdSetMaximized_flags r d b))
  | |- context [tiled_ (SetTiled ?r ?d ?b)] => rewrite (proj1 (SetTiled_flags r d b))
  end. by rewrite Hm, Ht.
Qed.

(** A window whose node is put back to where its saved frame was. *)
Lemma restored_frame w w2 n n1 h h2 c : handle w = Some h -> handle w2 = Some h2 ->
  x_geometry h2 = x_geometry h -> scene_tree w = Some n ->
  nonempty (tl_FrameGeometry w) ->
  (forall d, ssd w = Some d -> exists d2, ssd w2 = Some d2 /\ BorderWidth d2 = BorderWidth d) ->
  (ssd w = None -> ssd w2 = None) ->
  c = content_of w2 (Box (node_x n + box_x (tl_FrameGeometry w)) (node_y n + box_y (tl_FrameGeometry w))
        (box_width (tl_FrameGeometry w)) (box_height (tl_FrameGeometry w))) ->
  scene_tree w2 = Some (n1 <{ node_x := box_x c - box_x (x_geometry h) }>
                           <{ node_y := box_y c - box_y (x_geometry h) }>) ->
  LayoutFrame w2 = LayoutFrame w /\
  (nonempty (x_geometry h) -> box_width c = box_width (x_geometry h) /\ box_height c = box_height (x_geometry h)).
Proof.
  intros Hh Hh2 Hg Hn [Hfw Hfh] Hd Hno Ec Hn2.
  unfold LayoutFrame, tl_FrameGeometry, content_of, Geometry in *. rewrite Hn, Hn2, Hh, Hh2. simpl.
  rewrite Hg. rewrite Hh in *. simpl in *. destruct (ssd w) as [d|].
  - destruct (Hd d eq_refl) as (d2 & E2 & Eb). rewrite E2 in *.
    destruct (frame_geometry_border d2 d Eb) as [Ef Eg]. rewrite Ef, Ec, Eg.
    unfold ContentGeometry, FrameGeometry, kTitlebarHeight in *. simpl in *.
    pose proof (BorderWidth_range d). split; [f_equal; lia|]. intros [? ?]. lia.
  - rewrite (Hno eq_refl) in *. subst c. simpl. split; [f_equal; lia|done].
Qed.

End Restore.

(** C38. Maximizing a floating window and taking it back restores it: in between
    it is asked to fill the content area of the screen under the pointer, and
    afterwards it is neither maximized nor tiled, its frame is exactly where it
    was, and its client is asked for its old size again. *)
Theorem maximize_then_restore `{OutputLayout} (resize_ok : Z -> Z -> bool) (t : nat) (s : compositor)
  (w : Toplevel) (Hw : find_tl t s = Some w) (Hr : restorable w)
  (Hu : nonempty (UsableOutputBox (pointer_output s) s)) :
  let s1 := SetMaximized resize_ok t true s in
  let s2 := SetMaximized resize_ok t false s1 in
  (exists w1 h1, find_tl t s1 = Some w1 /\ maximized w1 = true /\ handle w1 = Some h1 /\
     x_maximized h1 = true /\ maximized_box w1 = UsableOutputBox (pointer_output s) s) /\
  (exists w2 h2, find_tl t s2 = Some w2 /\ maximized w2 = false /\ tiled w2 = false /\
     handle w2 = Some h2 /\ x_maximized h2 = false /\
     (x_width h2, x_height h2) = (box_width (Geometry w), box_height (Geometry w)) /\
     LayoutFrame w2 = LayoutFrame w).
Proof.
  cbv zeta. destruct Hr as [[Ha Hn Hm Ht _ Hfw Hfh] Hc Hgs Hsync].
  destruct (handle w) as [h|] eqn:Hh; [|unfold CanConfigure in Hc; by rewrite Hh in Hc].
  assert (Hi : x_initialized h = true) by (unfold CanConfigure in Hc; by rewrite Hh in Hc).
  destruct (scene_tree w) as [n|] eqn:En; [|done]. rewrite <- En in Hn.
  assert (Hsz : nonempty (tl_FrameGeometry w)).
  { unfold LayoutFrame in Hfw, Hfh. rewrite En in Hfw, Hfh. by split. }
  destruct (SetMaximized_window resize_ok t true s w Hw Ha Hn Hm) as [v1 F1].
  destruct (change_maximized_handle resize_ok true v1 w h Hh Hi) as (C1 & C2 & _ & C4 & C5 & C6).
  destruct (restore_box_change resize_ok v1 w n En Ht (proj1 Hsz) (proj2 Hsz)) as [R1 R2].
  set (U := UsableOutputBox (pointer_output s) s) in *.
  set (c1 := change_maximized resize_ok true v1 w) in *. clearbody c1.
  destruct (finish_true_window (pointer_output s) U c1 _ n C1 Hi
    (eq_trans C2 En) Hu) as (T1 & (n1 & T2) & T3 & T4 & T5 & T6 & T7 & T8).
  set (w1 := finish_maximized true _ _ _) in *. clearbody w1.
  split; [eexists w1, _; split_and!; eauto; congruence|].
  assert (Ha1 : IsAlive w1 = true) by (apply bool_decide_eq_true_2; by rewrite T1).
  assert (Hn1 : scene_tree w1 <> None) by (by rewrite T2).
  assert (Hm1 : maximized w1 = negb false) by (by rewrite T3, C4).
  destruct (SetMaximized_window resize_ok t false _ w1 F1 Ha1 Hn1 Hm1) as [v2 F2].
  destruct (change_maximized_handle resize_ok false v2 w1 _ T1 Hi) as (D1 & D2 & _ & D4 & D5 & D6).
  destruct (restore_box_kept resize_ok v2 w1) as [R3 R4].
  set (c2 := change_maximized resize_ok false v2 w1) in *. clearbody c2.
  assert (Er : restore_box c2 = Box (node_x n + box_x (tl_FrameGeometry w))
    (node_y n + box_y (tl_FrameGeometry w)) (box_width (tl_FrameGeometry w))
    (box_height (tl_FrameGeometry w))) by congruence.
  set (o2 := pointer_output _) in F2. set (b2 := UsableOutputBox _ _) in F2. clearbody o2 b2.
  destruct (finish_false_window o2 b2 c2 _ n1 D1 Hi ltac:(congruence) ltac:(congruence)
    ltac:(rewrite Er; exact Hsz)) as (G1 & G2 & G3 & G4 & G5).
  set (w2 := finish_maximized false _ _ _) in *. clearbody w2.
  destruct (restored_frame w w2 n n1 h _ (content_of c2 (restore_box c2)) Hh G1 eq_refl En Hsz)
    as [Ef Es]; [..|exact G2|].
  - intros d Ed. destruct (Hsync d Ed) as [Hmd Htd].
    eexists. split; [|by apply (restored_border resize_ok d)]. rewrite G5, D6, T5, C6, Ed. done.
  - intros Ed. by rewrite G5, D6, T5, C6, Ed.
  - unfold content_of. by rewrite G5, Er.
  - assert (Eg : Geometry w = x_geometry h) by (unfold Geometry; by rewrite Hh).
    rewrite Eg in *. destruct (Es Hgs) as [Ew Eh].
    eexists w2, _. split_and!; [done|congruence|congruence|exact G1|done| |done].
    simpl. by rewrite Ew, Eh.
Qed.

(** The first window with a decoration of its own. *)
Definition demo_decorated : compositor := AttachSsd (fun _ _ => true) true 1 demo_windows.
Definition demo_decorated_window : Toplevel :=
  default (new_toplevel 0 (demo_xdg 0) 0) (head (toplevels_ demo_decorated)).

Lemma maximize_then_restore_witness : exists w2,
  find_tl 1 (SetMaximized (fun _ _ => true) 1 false (SetMaximized (fun _ _ => true) 1 true demo_decorated))
    = Some w2 /\ LayoutFrame w2 = LayoutFrame demo_decorated_window /\
  LayoutFrame demo_decorated_window = Box 559 199 802 642.
Proof.
  destruct (maximize_then_restore (fun _ _ => true) 1 demo_decorated demo_decorated_window)
    as [_ (w2 & h2 & Hw2 & _ & _ & _ & _ & _ & Hf)].
  - vm_compute. reflexivity.
  - split; [split; vm_compute; congruence|reflexivity|split; reflexivity|].
    intros d Hd. vm_compute in Hd. injection Hd as <-. split; reflexivity.
  - split; vm_compute; reflexivity.
  - exists w2. split; [exact Hw2|]. split; [exact Hf|vm_compute; reflexivity].
Defined.
