(* ===== verification/Motion.v ===== *)
(** * Moving, resizing, and giving way to panels

    Theorems about the operations of [Windows] that move windows while the user
    or a panel does something: an interactive move keeps the titlebar reachable,
    an interactive resize holds the opposite edge, and a change of the usable
    area moves exactly the windows that the reserved strip would cover. *)

From S2P Require Import Prelude Box Ssd Window Windows WindowFacts Workspaces Placement.

(** ** Interactive motion *)

(** C39. While a window is dragged, the top of its frame stays inside the usable
    area of the screen under the pointer, at least 32 pixels above its lower edge
    if the area is that tall, so the titlebar can always be grabbed again; its
    size does not change, horizontally it follows the pointer, and no other
    window moves. *)
Theorem move_keeps_titlebar `{OutputLayout} (s : compositor) (t : nat) (w : Toplevel) (n : scene_node)
  (Hg : grabbed_toplevel_ s = Some t) (Hm : cursor_mode_ s = kMove)
  (Hw : find_tl t s = Some w) (Ha : IsAlive w = true) (Hn : scene_tree w = Some n)
  (Hu : nonempty (UsableOutputBox (output_at (cursor_x s) (cursor_y s)) s)) :
  let u := UsableOutputBox (output_at (cursor_x s) (cursor_y s)) s in
  let s' := ProcessInteractiveMotion s in
  (exists f', frame_at t s' = Some f' /\
    box_width f' = box_width (LayoutFrame w) /\ box_height f' = box_height (LayoutFrame w) /\
    box_x f' - box_x (LayoutFrame w) = Qtrunc (cursor_x s - grab_x_ s)%Q - node_x n /\
    box_y u <= box_y f' <= Z.max (box_y u) (box_y u + box_height u - 32)) /\
  (forall v, v <> t -> find_tl v s' = find_tl v s).
Proof.
  cbv zeta. destruct Hu as [Huw Huh]. set (u := UsableOutputBox _ s) in *.
  assert (Et : tl_id w = t) by apply (find_tl_Some t s w Hw).
  assert (E : exists y, toplevels_ (ProcessInteractiveMotion s) =
      toplevels_ (upd_tl t (set_position (Qtrunc (cursor_x s - grab_x_ s)%Q) y) s) /\
    y = move_y u (box_y (LayoutFrame w) - node_y n) (Qtrunc (cursor_y s - grab_y_ s)%Q)).
  { eexists. split; [|done]. unfold ProcessInteractiveMotion. rewrite Hg. simpl. rewrite Hw.
    rewrite Ha, Hm. simpl. rewrite Hn, Et. done. }
  destruct E as (y & E & ->). set (x := Qtrunc (cursor_x s - grab_x_ s)%Q) in *.
  set (y := move_y _ _ _) in *.
  assert (Ef : forall v, find_tl v (ProcessInteractiveMotion s) = find_tl v (upd_tl t (set_position x y) s))
    by (intros v; unfold find_tl; by rewrite E).
  unfold frame_at. setoid_rewrite Ef. split.
  - rewrite (find_tl_upd_eq t _ s w) by done. eexists. split; [reflexivity|].
    rewrite (LayoutFrame_set_position x y w n Hn). simpl.
    split_and!; try lia; unfold y, move_y, zclamp, kMoveTitlebarVisible;
      replace ((box_width u >? 0) && (box_height u >? 0)) with true by lia; case_ifs; lia.
  - intros v Hv. rewrite find_tl_upd by done. destruct (find_tl v s) as [w'|] eqn:Ew; [|done]. simpl.
    apply find_tl_Some in Ew as [_ Ew]. by destruct (Nat.eqb_spec (tl_id w') t); [congruence|].
Qed.

(** What a resize by [edges] may make of a frame [g], [top] being the highest
    position of its upper edge. *)
Record resized (g b : wlr_box) (edges : Z) : Prop := {
  rz_size : 1 <= box_width b /\ 1 <= box_height b;
  rz_left : has_flag edges WLR_EDGE_LEFT = true -> box_x b + box_width b = box_x g + box_width g;
  rz_right : has_flag edges WLR_EDGE_LEFT = false -> box_x b = box_x g /\
    (has_flag edges WLR_EDGE_RIGHT = false -> box_width b = box_width g);
  rz_top : has_flag edges WLR_EDGE_TOP = true -> box_y b + box_height b = box_y g + box_height g;
  rz_bottom : has_flag edges WLR_EDGE_TOP = false -> box_y b = box_y g /\
    (has_flag edges WLR_EDGE_BOTTOM = false -> box_height b = box_height g) }.

Lemma resize_box_resized g u gy edges bx by_ : 1 <= box_width g -> 1 <= box_height g ->
  let b := resize_box g u gy edges bx by_ in
  resized g b edges /\
  (has_flag edges WLR_EDGE_TOP = true -> nonempty u -> box_y u + gy <= box_y g ->
   box_y u + gy <= box_y b).
Proof.
  intros Hw Hh. cbv zeta. unfold resize_box, nonempty.
  destruct (has_flag edges WLR_EDGE_TOP) eqn:Et, (has_flag edges WLR_EDGE_BOTTOM) eqn:Eb,
    (has_flag edges WLR_EDGE_LEFT) eqn:El, (has_flag edges WLR_EDGE_RIGHT) eqn:Er;
  (split; [split; simpl; rewrite ?Et, ?Eb, ?El, ?Er; case_ifs; intros; lia|simpl; case_ifs; lia]).
Qed.

(** An interactive resize only moves the grabbed edges: the client is asked
    for a frame at least one pixel wide and tall whose opposite edges are where
    they were when the grab began, axes that are not grabbed do not change, and a
    window that began below the top panel does not grow under it. *)
Theorem resize_holds_opposite `{OutputLayout} (s : compositor) (t : nat) (w : Toplevel)
  (Hg : grabbed_toplevel_ s = Some t) (Hm : cursor_mode_ s = kResizing)
  (Hw : find_tl t s = Some w) (Ha : IsAlive w = true)
  (Hgw : 1 <= box_width (grab_box_ s)) (Hgh : 1 <= box_height (grab_box_ s)) :
  let u := UsableOutputBox (output_at (cursor_x s) (cursor_y s)) s in
  exists b, find_tl t (ProcessInteractiveMotion s) = Some (Configure b w) /\
    resized (grab_box_ s) b (resize_edges_ s) /\
    (has_flag (resize_edges_ s) WLR_EDGE_TOP = true -> nonempty u ->
     box_y u + box_y (Geometry w) <= box_y (grab_box_ s) ->
     box_y u + box_y (Geometry w) <= box_y b).
Proof.
  cbv zeta. set (u := UsableOutputBox _ s). assert (Et : tl_id w = t) by apply (find_tl_Some t s w Hw).
  eexists. split; [|by apply (resize_box_resized _ u _ _ (Qtrunc (cursor_x s - grab_x_ s)%Q)
    (Qtrunc (cursor_y s - grab_y_ s)%Q))].
  unfold ProcessInteractiveMotion. rewrite Hg. simpl. rewrite Hw, Ha, Hm. simpl. rewrite Et.
  apply (find_tl_upd_eq t (Configure _) s w); [apply id_Configure|done].
Qed.

#[local] Existing Instance demo_layout.

(** The first window of the demonstration is grabbed at its middle and dragged
    below the screen's lower edge; then grabbed at its lower right corner. *)
Definition demo_move : compositor :=
  (BeginInteractive (fun _ _ => true) 1 kMove 0 (demo_windows <{ cursor_x := 960%Q }> <{ cursor_y := 540%Q }>))
    <{ cursor_x := 1900%Q }> <{ cursor_y := 1079%Q }>.
Definition demo_resize : compositor :=
  (BeginInteractive (fun _ _ => true) 1 kResizing 10
     (demo_windows <{ cursor_x := 1360%Q }> <{ cursor_y := 840%Q }>))
    <{ cursor_x := 100%Q }> <{ cursor_y := 1000%Q }>.
Definition grabbed_window (s : compositor) : Toplevel :=
  default (new_toplevel 0 (demo_xdg 0) 0) (find_tl 1 s).

Lemma move_keeps_titlebar_witness :
  frame_at 1 (ProcessInteractiveMotion demo_move) = Some (Box 1500 779 800 600) /\
  exists f', frame_at 1 (ProcessInteractiveMotion demo_move) = Some f' /\ 0 <= box_y f' <= 1048.
Proof.
  split; [vm_compute; reflexivity|].
  destruct (move_keeps_titlebar demo_move 1 (grabbed_window demo_move) (Node 560 240 true true))
    as [(f' & Hf & _ & _ & _ & Hy) _]; try (vm_compute; reflexivity).
  - split; vm_compute; reflexivity.
  - exists f'. split; [exact Hf|]. vm_compute in Hy |- *. exact Hy.
Defined.

Lemma resize_holds_opposite_witness : exists b,
  find_tl 1 (ProcessInteractiveMotion demo_resize) = Some (Configure b (grabbed_window demo_resize)) /\
  box_x b = 560 /\ box_y b = 240 /\ 1 <= box_width b.
Proof.
  destruct (resize_holds_opposite demo_resize 1 (grabbed_window demo_resize)) as (b & Hb & Hr & _);
    try (vm_compute; reflexivity); try (vm_compute; congruence).
  exists b. split; [exact Hb|].
  split; [exact (proj1 (rz_right _ _ _ Hr eq_refl))|].
  split; [exact (proj1 (rz_bottom _ _ _ Hr eq_refl))|]. exact (proj1 (rz_size _ _ _ Hr)).
Defined.

(** ** Panels *)

(** What a change of the usable area does to one window. *)
Definition fit_window (output : nat) (old usable : wlr_box) (w : Toplevel) : Toplevel :=
  let changed := negb (wlr_box_equal (Some old) (Some usable)) in
  match scene_tree w with
  | Some n =>
      if negb (IsAlive w) then w
      else if maximized w then
        if bool_decide (maximized_output w = Some output)
        then Configure usable (w <{ maximized_box := usable }>) else w
      else if tiled w then
        if bool_decide (tiled_output w = Some output) && changed
        then Configure (TileBox usable (tile w))
               (w <{ tiled_box := TileBox usable (tile w) }> <{ tile_position_pending := true }>)
        else w
      else if negb changed || (box_width old <=? 0) || (box_height old <=? 0) || negb (mapped w) ||
              minimized w || RequestedFullscreen w then w
      else
        let f := LayoutFrame w in
        if (box_width f <=? 0) || (box_height f <=? 0) ||
           negb (wlr_box_intersection (Some f) (Some old)).2 then w
        else
          let '(x, y) := fit_position f old usable in
          set_position (node_x n + x - box_x f) (node_y n + y - box_y f) w
  | None => w
  end.

Lemma id_fit_window o old u w : tl_id (fit_window o old u w) = tl_id w.
Proof.
  unfold fit_window. destruct (scene_tree w); [|done]. destruct (fit_position _ old u).
  case_ifs; rewrite ?id_Configure; done.
Qed.

Lemma set_position_same w n : scene_tree w = Some n -> set_position (node_x n) (node_y n) w = w.
Proof. intros Hn. unfold set_position. destruct w, n. simpl in *. by rewrite Hn. Qed.

Lemma fit_one_window o old u t s w : find_tl t s = Some w -> NoDup (wids s) ->
  toplevels_ (fit_one o old u t s) =
  map (fun w => if (tl_id w =? t)%nat then fit_window o old u w else w) (toplevels_ s).
Proof.
  intros Hw Hnd.
  assert (Hmap : forall f, (f w = fit_window o old u w) ->
    map (fun w => if (tl_id w =? t)%nat then f w else w) (toplevels_ s) =
    map (fun w => if (tl_id w =? t)%nat then fit_window o old u w else w) (toplevels_ s)).
  { intros f Hf. apply map_ext_in. intros w' Hw'. destruct (Nat.eqb_spec (tl_id w') t) as [<-|]; [|done].
    rewrite (find_tl_unique s w' Hnd) in Hw by (by apply list_elem_of_In). by injection Hw as ->. }
  assert (Hid : fit_window o old u w = w -> toplevels_ s =
    map (fun w => if (tl_id w =? t)%nat then fit_window o old u w else w) (toplevels_ s)).
  { intros Hf. rewrite <- (Hmap (fun w => w)) by done. rewrite <- (map_id (toplevels_ s)) at 1.
    apply map_ext. intros v. by destruct (_ =? t)%nat. }
  assert (Efit : fit_window o old u w = fit_window o old u w) by done.
  unfold fit_window at 2 in Efit. unfold fit_one, with_tl. rewrite Hw. cbv zeta in Efit |- *.
  set (R := fit_window o old u w) in *.
  destruct (scene_tree w) as [n|] eqn:En; [|rewrite orb_true_r; by apply Hid].
  rewrite bool_decide_eq_false_2, orb_false_r by done.
  destruct (negb (IsAlive w)); [by apply Hid|].
  destruct (maximized w); [destruct (bool_decide _); [by apply Hmap|by apply Hid]|].
  destruct (tiled w); [destruct (_ && _); [by apply Hmap|by apply Hid]|].
  destruct (_ || RequestedFullscreen w); [by apply Hid|].
  destruct (_ || negb _); [by apply Hid|]. destruct (fit_position _ old u) as [x y].
  destruct (_ && _) eqn:Exy.
  - apply Hid. rewrite Efit. replace (node_x n + x - _) with (node_x n) by lia.
    replace (node_y n + y - _) with (node_y n) by lia. by apply set_position_same.
  - unfold MoveToplevelFrame, with_tl, tell_protocols. rewrite Hw.
    assert (Et : forall b m s, toplevels_ (when b (tell m) s) = toplevels_ s) by by intros [].
    rewrite Et. simpl. rewrite <- Hmap with (f := fun v => match scene_tree v with
      | Some m => set_position (node_x m + x - box_x (LayoutFrame w)) (node_y m + y - box_y (LayoutFrame w)) v
      | None => v end); [done|]. by rewrite En.
Qed.

Lemma map_absent t g s : find_tl t s = None ->
  map (fun w => if (tl_id w =? t)%nat then g w else w) (toplevels_ s) = toplevels_ s.
Proof.
  intros Hn. rewrite <- (map_id (toplevels_ s)) at 2. apply map_ext_in. intros w Hw.
  by rewrite (List.find_none _ _ Hn w Hw).
Qed.

Lemma FitToplevels_windows o old s : NoDup (wids s) -> nonempty (usable_box o) ->
  toplevels_ (FitToplevelsToUsableArea o old s) =
  map (fit_window (out_handle o) old (usable_box o)) (toplevels_ s).
Proof.
  intros Hnd [Hw Hh]. unfold FitToplevelsToUsableArea. cbv zeta.
  replace ((box_width (usable_box o) <=? 0) || (box_height (usable_box o) <=? 0)) with false by lia.
  apply (each_tl_map (fun s0 => NoDup (wids s0)));
    [intros; apply id_fit_window| |done|done].
  intros t s0 Hnd0. split.
  - destruct (find_tl t s0) as [w|] eqn:Ew; [by eapply fit_one_window|].
    rewrite map_absent by done. unfold fit_one, with_tl. by rewrite Ew.
  - by rewrite wview_ids, wview_fit_one, <- wview_ids.
Qed.

(** Frame [f] lies in [u]. *)
Definition inside (f u : wlr_box) : Prop :=
  box_x u <= box_x f /\ box_x f + box_width f <= box_x u + box_width u /\
  box_y u <= box_y f /\ box_y f + box_height f <= box_y u + box_height u.

Lemma fit_position_inside f old u : inside f old ->
  box_width f <= box_width u -> box_height f <= box_height u ->
  let '(x, y) := fit_position f old u in
  inside (Box x y (box_width f) (box_height f)) u /\
  (inside f u -> x = box_x f /\ y = box_y f).
Proof.
  intros (H1 & H2 & H3 & H4) Hw Hh. unfold fit_position, inside in *. simpl. case_ifs; lia.
Qed.

Lemma fit_window_floating o old u w : floating w -> mapped w = true -> minimized w = false ->
  nonempty u -> inside (LayoutFrame w) old ->
  box_width (LayoutFrame w) <= box_width u -> box_height (LayoutFrame w) <= box_height u ->
  inside (LayoutFrame (fit_window o old u w)) u /\
  box_width (LayoutFrame (fit_window o old u w)) = box_width (LayoutFrame w) /\
  box_height (LayoutFrame (fit_window o old u w)) = box_height (LayoutFrame w) /\
  (inside (LayoutFrame w) u -> fit_window o old u w = w).
Proof.
  intros [Ha Hn Hm Ht Hf Hfw Hfh] Hmap Hmin [Huw Huh] Hin Hw Hh. unfold fit_window.
  destruct (scene_tree w) as [n|] eqn:En; [|done]. rewrite Ha, Hm, Ht, Hmap, Hmin, Hf. cbv zeta. cbn [negb].
  assert (Hold : nonempty old) by (destruct Hin as (? & ? & ? & ?); split; lia).
  destruct Hold as [Hxw Hxh]. replace (box_width old <=? 0) with false by lia.
  replace (box_height old <=? 0) with false by lia. rewrite !orb_false_r.
  destruct (negb (negb (wlr_box_equal (Some old) (Some u)))) eqn:Eeq.
  { apply negb_true_iff, negb_false_iff, wlr_box_equal_spec in Eeq.
    destruct Eeq as [[E _]|[_ <-]]; [|done]. simpl in E. lia. }
  set (f := LayoutFrame w) in *. rewrite box_intersection_unfold. cbv zeta.
  match goal with |- context [if ?b then (_, true) else _] => replace b with true by
    (destruct Hin as (? & ? & ? & ?); lia) end.
  replace ((box_width f <=? 0) || (box_height f <=? 0)) with false by lia. cbn [negb orb snd].
  pose proof (fit_position_inside f old u Hin Hw Hh) as Hp.
  destruct (fit_position f old u) as [x y]. destruct Hp as [Hp1 Hp2].
  rewrite (LayoutFrame_set_position _ _ w n En). fold f. simpl.
  replace (box_x f + (node_x n + x - box_x f - node_x n)) with x by lia.
  replace (box_y f + (node_y n + y - box_y f - node_y n)) with y by lia.
  refine (conj Hp1 (conj eq_refl (conj eq_refl _))). intros Hi. destruct (Hp2 Hi) as [-> ->].
  replace (node_x n + box_x f - box_x f) with (node_x n) by lia.
  replace (node_y n + box_y f - box_y f) with (node_y n) by lia. by apply set_position_same.
Qed.

(** When a panel changes the usable area of a screen, windows give way
    exactly as needed: a floating window that was inside the old area and fits
    the new one ends up inside the new one with its size kept, and is untouched
    if it already was; a window maximized on that screen is asked to fill the new
    area; windows maximized or tiled on other screens are untouched. *)
Theorem panels_push_windows (o : Output) (old : wlr_box) (s : compositor) (i : nat) (w : Toplevel)
  (Hnd : NoDup (wids s)) (Hu : nonempty (usable_box o)) (Hw : toplevels_ s !! i = Some w) :
  let u := usable_box o in
  exists w', toplevels_ (FitToplevelsToUsableArea o old s) !! i = Some w' /\ tl_id w' = tl_id w /\
    (floating w -> mapped w = true -> minimized w = false -> inside (LayoutFrame w) old ->
     box_width (LayoutFrame w) <= box_width u -> box_height (LayoutFrame w) <= box_height u ->
     inside (LayoutFrame w') u /\ box_width (LayoutFrame w') = box_width (LayoutFrame w) /\
     box_height (LayoutFrame w') = box_height (LayoutFrame w) /\
     (inside (LayoutFrame w) u -> w' = w)) /\
    (IsAlive w = true -> scene_tree w <> None -> maximized w = true ->
     maximized_output w = Some (out_handle o) ->
     w' = Configure u (w <{ maximized_box := u }>)) /\
    (maximized w = true -> maximized_output w <> Some (out_handle o) -> w' = w) /\
    (maximized w = false -> tiled w = true -> tiled_output w <> Some (out_handle o) -> w' = w).
Proof.
  cbv zeta. exists (fit_window (out_handle o) old (usable_box o) w).
  rewrite FitToplevels_windows, list_lookup_fmap, Hw by done.
  split; [done|]. split; [apply id_fit_window|]. split; [intros; by apply fit_window_floating|].
  unfold fit_window. destruct (scene_tree w); [|naive_solver].
  split_and!; [intros -> _ -> ->|intros -> Ho|intros -> -> Ho]; simpl.
  - by rewrite bool_decide_eq_true_2.
  - rewrite bool_decide_eq_false_2 by done. by destruct (negb _).
  - rewrite bool_decide_eq_false_2 by done. by destruct (negb _).
Qed.

(** A dock of 80 pixels appears at the bottom of the screen; the first window,
    which touched its lower edge, moves up. *)
Definition demo_docked : compositor := upd_tl 1 (set_position 100 480) demo_windows.

Lemma panels_push_windows_witness : exists w',
  toplevels_ (FitToplevelsToUsableArea (MkOutput 1 (Box 0 0 1920 1000)) (Box 0 0 1920 1080) demo_docked)
    !! 0%nat = Some w' /\ inside (LayoutFrame w') (Box 0 0 1920 1000) /\
  LayoutFrame w' = Box 100 400 800 600.
Proof.
  destruct (panels_push_windows (MkOutput 1 (Box 0 0 1920 1000)) (Box 0 0 1920 1080) demo_docked 0
    (set_position 100 480 demo_first)) as (w' & Hw & _ & Hf & _).
  - vm_compute. repeat constructor; set_solver.
  - split; vm_compute; reflexivity.
  - vm_compute. reflexivity.
  - exists w'. split; [exact Hw|]. split; [|vm_compute in Hw; injection Hw as <-; reflexivity].
    apply Hf; try (vm_compute; congruence).
    + split; vm_compute; congruence.
    + repeat split; vm_compute; congruence.
Defined.
