(* ===== verification/Divergences.v ===== *)
(** * Where the window manager does not do what it means to

    Behaviours of [Windows] that contradict another part of the code or its
    comments, each shown on a concrete run. *)

From S2P Require Import Prelude Box Ssd Window Windows WindowFacts Workspaces Focus Placement.

#[local] Existing Instance demo_layout.

Definition node_shown (t : nat) (s : compositor) : option bool :=
  find_tl t s ≫= fun w => node_enabled <$> scene_tree w.
Definition visible (t : nat) (s : compositor) : option bool :=
  (fun w => IsToplevelVisible w s) <$> find_tl t s.
Definition activated (t : nat) (s : compositor) : option bool :=
  find_tl t s ≫= fun w => x_activated <$> handle w.

(** Window 2 of the demonstration, on workspace 2, is minimized; a request to
    maximize it enables its scene node although workspace 0 is shown, where
    un-minimizing it through the shell protocol leaves the node disabled. *)
Example maximize_shows_window_of_other_workspace :
  let s := Minimize 2 demo_windows in
  let shown_by_maximize := RequestMaximize id (fun _ _ => true) (Some 12%nat) true s in
  let kept_hidden := RequestMinimize id (Some 12%nat) false s in
  current_workspace_ s = 0 /\
  visible 2 shown_by_maximize = Some false /\ node_shown 2 shown_by_maximize = Some true /\
  visible 2 kept_hidden = Some false /\ node_shown 2 kept_hidden = Some false.
Proof. vm_compute. split_and!; reflexivity. Qed.

(** Tiling does the same. *)
Example tile_shows_window_of_other_workspace :
  let s := TileToplevel (fun _ _ => true) 2 kLeft (Minimize 2 demo_windows) in
  visible 2 s = Some false /\ node_shown 2 s = Some true.
Proof. vm_compute. split_and!; reflexivity. Qed.

(** Minimizing the only window of a workspace takes the keyboard away from it but
    leaves its client activated; moving it to another workspace deactivates it. *)
Example minimize_leaves_client_activated :
  activated 1 demo_windows = Some true /\
  focused_surface (Minimize 1 demo_windows) = None /\
  activated 1 (Minimize 1 demo_windows) = Some true /\
  activated 1 (MoveToplevelToWorkspace 1 3 demo_windows).1 = Some false.
Proof. vm_compute. split_and!; reflexivity. Qed.

(** Decorating a tiled window gives it a border: the new decoration is told
    whether the window is maximized, but not that it is tiled. *)
Lemma attach_ssd_forgets_tiling resize_ok t s w n : find_tl t s = Some w -> scene_tree w = Some n ->
  ssd w = None -> tiled w = true -> maximized w = false ->
  exists w' d, find_tl t (AttachSsd resize_ok true t s) = Some w' /\ ssd w' = Some d /\
    tiled w' = true /\ tiled_ d = false /\ BorderWidth d = kBorderWidth.
Proof.
  intros Hw Hn Hs Ht Hm. unfold AttachSsd, with_tl. rewrite Hw, Hn, Hs. cbn [negb]. cbv zeta iota.
  set (d := SetGeometry _ _ _).
  assert (Ed : tiled_ d = false /\ maximized_ d = false).
  { assert (Hg : forall d0 g, tiled_ (SetGeometry resize_ok d0 g) = tiled_ d0 /\
      maximized_ (SetGeometry resize_ok d0 g) = maximized_ d0).
    { intros d0 g. unfold SetGeometry. cbv zeta. destruct (_ && _); [done|].
      by destruct (Arrange_flags resize_ok (d0 <{ client_geometry_ := g }>)) as [-> ->]. }
    assert (Hd : forall d0 b, tiled_ (SetDialog resize_ok d0 b) = tiled_ d0 /\
      maximized_ (SetDialog resize_ok d0 b) = maximized_ d0).
    { intros d0 b. unfold SetDialog. destruct (Bool.eqb _ _); [done|].
      by destruct (Arrange_flags resize_ok (d0 <{ dialog_ := b }>)) as [-> ->]. }
    unfold d. rewrite !(proj1 (Hg _ _)), !(proj2 (Hg _ _)). unfold SetCapabilities. simpl.
    rewrite (proj1 (Hd _ _)), (proj2 (Hd _ _)), Hm. done. }
  clearbody d. eexists _, d.
  split; [apply find_tl_upd_eq; [done|]; rewrite find_tl_RebuildSurfaceClip; by apply find_tl_upd_eq|].
  simpl. split_and!; try done; [apply Ed|]. unfold BorderWidth. by destruct Ed as [-> ->].
Qed.
