(* ===== verification/Serials.v ===== *)
(** * Event serials of a client

    Models the serials wlroots hands to clients with input events and later
    accepts back (src/libs/wlroots/types/seat/wlr_seat.c:
    wlr_seat_client_next_serial, wlr_seat_client_validate_event_serial; the ring
    set of include/wlr/types/wlr_seat.h) on top of the display's counter
    (src/libs/wayland/src/wayland-server.c: wl_display_next_serial).

    Serials are 32-bit counters that wrap; the theorem counts them without
    wrapping ("ticks") and shows that the ring set, which stores ranges of
    wrapped serials, answers as if it stored the ticks themselves. *)

From S2P Require Import Prelude.

Definition WLR_SERIAL_RINGSET_SIZE : Z := 128.
Definition UINT32_MAX : Z := 2 ^ 32 - 1.

Record wlr_serial_range := Range { min_incl : Z; max_incl : Z }.
Record wlr_serial_ringset := Ringset {
  rs_data : list wlr_serial_range; rs_end : Z; rs_count : Z }.

(** A client's zero-initialised set. *)
Definition empty_ringset : wlr_serial_ringset :=
  Ringset (replicate (Z.to_nat WLR_SERIAL_RINGSET_SIZE) (Range 0 0)) 0 0.

Definition wl_display_next_serial (serial : Z) : Z := u32 (serial + 1).

Definition range_at (set : wlr_serial_ringset) (j : Z) : wlr_serial_range :=
  nth (Z.to_nat j) (rs_data set) (Range 0 0).

Definition put_range (j : Z) (r : wlr_serial_range) (set : wlr_serial_ringset)
    : list wlr_serial_range := <[Z.to_nat j := r]> (rs_data set).

(** Returns the display's counter, the client's set and the new serial. *)
Definition wlr_seat_client_next_serial (display : Z) (set : wlr_serial_ringset)
    : Z * wlr_serial_ringset * Z :=
  let serial := wl_display_next_serial display in
  let serial := if serial =? 0 then wl_display_next_serial serial else serial in
  let last := range_at set (rs_end set) in
  let set' :=
    if rs_count set =? 0 then Ringset (put_range 0 (Range serial serial) set) 0 1
    else if negb (u32 (max_incl last + 1) =? serial) then
      let count := if rs_count set <? WLR_SERIAL_RINGSET_SIZE then rs_count set + 1
                   else rs_count set in
      let e := (rs_end set + 1) mod WLR_SERIAL_RINGSET_SIZE in
      Ringset (put_range e (Range serial serial) set) e count
    else Ringset (put_range (rs_end set) (Range (min_incl last) serial) set)
           (rs_end set) (rs_count set) in
  (serial, set', serial).

(** The loop over the ranges, newest first; [n] ranges are left. *)
Fixpoint validate_loop (set : wlr_serial_ringset) (cur rev_dist : Z) (n : nat) (i : Z) : bool :=
  match n with
  | O => rs_count set =? WLR_SERIAL_RINGSET_SIZE
  | S n =>
      let r := range_at set ((rs_end set - i + WLR_SERIAL_RINGSET_SIZE) mod WLR_SERIAL_RINGSET_SIZE) in
      if rev_dist <? u32 (cur - max_incl r) then false
      else if rev_dist <=? u32 (cur - min_incl r) then true
      else validate_loop set cur rev_dist n (i + 1)
  end.

Definition wlr_seat_client_validate_event_serial (cur : Z) (set : wlr_serial_ringset) (serial : Z)
    : bool :=
  let rev_dist := u32 (cur - serial) in
  if rev_dist >=? UINT32_MAX / 2 then false
  else validate_loop set cur rev_dist (Z.to_nat (rs_count set)) 0.

(** ** Runs *)

(** From a display counter [d0]: [n] is the counter without wrapping, [issued]
    are the ticks of the serials the client got. Other parts of the program take
    serials too. *)
Inductive serial_run (d0 : Z) : Z -> wlr_serial_ringset -> list Z -> Prop :=
| run_start : serial_run d0 d0 empty_ringset []
| run_other n set issued : serial_run d0 n set issued -> serial_run d0 (n + 1) set issued
| run_issue n set issued : serial_run d0 n set issued ->
    let tick := if u32 (n + 1) =? 0 then n + 2 else n + 1 in
    serial_run d0 tick (wlr_seat_client_next_serial (u32 n) set).1.2 (tick :: issued).

(** The range of ticks that the ring holds in place [i], newest first. *)
Definition slot (e i : Z) : Z := (e - i + WLR_SERIAL_RINGSET_SIZE) mod WLR_SERIAL_RINGSET_SIZE.

(** Ranges of ticks, newest first, separated by gaps, none newer than [n]. *)
Fixpoint ranges_ok (n : Z) (ranges : list (Z * Z)) : Prop :=
  match ranges with
  | [] => True
  | (a, b) :: rest => a <= b <= n /\ ranges_ok (a - 2) rest
  end.

Record ring_inv (d0 n : Z) (set : wlr_serial_ringset) (issued : list Z) (ranges : list (Z * Z)) : Prop := {
  ri_length : length (rs_data set) = Z.to_nat WLR_SERIAL_RINGSET_SIZE;
  ri_end : 0 <= rs_end set < WLR_SERIAL_RINGSET_SIZE;
  ri_count : rs_count set = Z.min WLR_SERIAL_RINGSET_SIZE (Z.of_nat (length ranges));
  ri_held : forall i a b, (i < Z.to_nat (rs_count set))%nat -> ranges !! i = Some (a, b) ->
    range_at set (slot (rs_end set) (Z.of_nat i)) = Range (u32 a) (u32 b);
  ri_ranges : ranges_ok n ranges;
  ri_first : forall a b, (a, b) ∈ ranges -> d0 < a;
  ri_issued : forall t, t ∈ issued <-> exists a b, (a, b) ∈ ranges /\ a <= t <= b;
  ri_now : d0 <= n }.

(** ** Wrapping *)

Lemma u32_range z : 0 <= u32 z < 2 ^ 32.
Proof. unfold u32. apply Z.mod_pos_bound. lia. Qed.

Lemma u32_small z : 0 <= z < 2 ^ 32 -> u32 z = z.
Proof. apply Z.mod_small. Qed.

Lemma u32_sub a b : u32 (u32 a - u32 b) = u32 (a - b).
Proof. unfold u32. by rewrite <- Zminus_mod. Qed.

Lemma u32_add1 a : u32 (u32 a + 1) = u32 (a + 1).
Proof. unfold u32. by rewrite Zplus_mod_idemp_l. Qed.

(** Ticks less than 2^32 apart are told apart by their serials. *)
Lemma u32_inj a b : Z.abs (a - b) < 2 ^ 32 -> u32 a = u32 b -> a = b.
Proof.
  unfold u32. intros Hd E. pose proof (Z.div_mod a (2 ^ 32) ltac:(lia)).
  pose proof (Z.div_mod b (2 ^ 32) ltac:(lia)). rewrite E in *.
  assert (a - b = 2 ^ 32 * (a / 2 ^ 32 - b / 2 ^ 32)) by lia. nia.
Qed.

Lemma slot_range e i : 0 <= slot e i < WLR_SERIAL_RINGSET_SIZE.
Proof. unfold slot, WLR_SERIAL_RINGSET_SIZE. apply Z.mod_pos_bound. lia. Qed.

Lemma slot_0 e : 0 <= e < WLR_SERIAL_RINGSET_SIZE -> slot e 0 = e.
Proof.
  unfold slot, WLR_SERIAL_RINGSET_SIZE. intros He. rewrite Z.sub_0_r.
  rewrite Z.add_mod, Z.mod_same, Z.add_0_r, Z.mod_mod, Z.mod_small; lia.
Qed.

(** After a new range is put at the next place, the older ones are one further. *)
Lemma slot_next e i : slot ((e + 1) mod WLR_SERIAL_RINGSET_SIZE) (i + 1) = slot e i.
Proof.
  unfold slot, WLR_SERIAL_RINGSET_SIZE.
  replace ((e + 1) mod 128 - (i + 1) + 128) with ((e + 1) mod 128 + (127 - i)) by lia.
  rewrite Zplus_mod_idemp_l. f_equal. lia.
Qed.

Lemma slot_distinct e i : 0 <= e < WLR_SERIAL_RINGSET_SIZE -> 0 < i < WLR_SERIAL_RINGSET_SIZE ->
  slot e i <> e.
Proof.
  unfold slot, WLR_SERIAL_RINGSET_SIZE. intros He Hi E.
  pose proof (Z.div_mod (e - i + 128) 128 ltac:(lia)). lia.
Qed.

(** ** The ring holds the newest ranges *)

Lemma ranges_ok_mono n n' ranges : n <= n' -> ranges_ok n ranges -> ranges_ok n' ranges.
Proof. destruct ranges as [|[a b] rest]; simpl; [done|]. intros Hn [? ?]. split; [lia|done]. Qed.

Lemma ranges_ok_bound n ranges a b : ranges_ok n ranges -> (a, b) ∈ ranges -> a <= b <= n.
Proof.
  revert n. induction ranges as [|[a' b'] rest IH]; intros n; simpl; [set_solver|].
  intros [Hab Hr] [[= -> ->]|Hin]%elem_of_cons; [done|]. pose proof (IH _ Hr Hin). lia.
Qed.

Definition next_tick (n : Z) : Z := if u32 (n + 1) =? 0 then n + 2 else n + 1.

Lemma next_tick_later n : n < next_tick n <= n + 2.
Proof. unfold next_tick. case_ifs; lia. Qed.

Lemma issued_serial n : (let serial := wl_display_next_serial (u32 n) in
  if serial =? 0 then wl_display_next_serial serial else serial) = u32 (next_tick n).
Proof.
  unfold wl_display_next_serial, next_tick. rewrite u32_add1.
  destruct (u32 (n + 1) =? 0) eqn:E; [|done]. rewrite u32_add1. f_equal. lia.
Qed.

Lemma range_put_same set j r e c : 0 <= j -> (Z.to_nat j < length (rs_data set))%nat ->
  range_at (Ringset (put_range j r set) e c) j = r.
Proof.
  intros Hj Hl. unfold range_at, put_range. simpl. apply nth_lookup_Some. by apply list_lookup_insert_eq.
Qed.

Lemma range_put_other set j k r e c : 0 <= j -> 0 <= k -> j <> k ->
  range_at (Ringset (put_range j r set) e c) k = range_at set k.
Proof.
  intros Hj Hk Hne. unfold range_at, put_range. simpl. rewrite !nth_lookup.
  by rewrite list_lookup_insert_ne by lia.
Qed.

(** A serial that extends the newest range. *)
Lemma ring_extend d0 n set issued a b rest tick : ring_inv d0 n set issued ((a, b) :: rest) ->
  tick = b + 1 -> n < tick ->
  ring_inv d0 tick (Ringset (put_range (rs_end set)
      (Range (min_incl (range_at set (rs_end set))) (u32 tick)) set) (rs_end set) (rs_count set))
    (tick :: issued) ((a, tick) :: rest).
Proof.
  intros [Hl He Hc Hh Hr Hf Hi Hn] Et Hnt. pose proof (Hh 0%nat a b) as Hh0.
  rewrite slot_0 in Hh0 by done. unfold WLR_SERIAL_RINGSET_SIZE in *. simpl length in *.
  rewrite Hh0 by (done || lia). simpl min_incl. split; simpl; auto.
  - unfold put_range. by rewrite length_insert.
  - intros i a' b' Hi' Hlk. destruct i as [|i]; simpl in Hlk.
    + injection Hlk as -> ->. rewrite slot_0 by (unfold WLR_SERIAL_RINGSET_SIZE; lia).
      apply range_put_same; lia.
    + rewrite range_put_other; [by apply (Hh (S i))|lia|apply slot_range|].
      symmetry. apply slot_distinct; unfold WLR_SERIAL_RINGSET_SIZE; lia.
  - destruct Hr as [Hab Hr]. split; [lia|done].
  - intros a' b' [[= -> ->]|Hin]%elem_of_cons; [apply (Hf a b); set_solver|apply (Hf a' b'); set_solver].
  - intros t. rewrite elem_of_cons, Hi. split.
    + intros [->|(a' & b' & [[= -> ->]|Hin]%elem_of_cons & Ht)].
      * exists a, tick. destruct Hr as [? _]. split; [set_solver|lia].
      * exists a, tick. split; [set_solver|lia].
      * exists a', b'. split; [set_solver|done].
    + intros (a' & b' & [[= -> ->]|Hin]%elem_of_cons & Ht).
      * destruct (decide (t = tick)) as [->|]; [by left|]. right. exists a, b. split; [set_solver|lia].
      * right. exists a', b'. split; [set_solver|done].
  - lia.
Qed.

(** A serial that starts a new range, in place [e]. *)
Lemma ring_push d0 n set issued ranges tick e : ring_inv d0 n set issued ranges ->
  ranges_ok (tick - 2) ranges -> n < tick -> 0 <= e < WLR_SERIAL_RINGSET_SIZE ->
  (forall i, (S i < Z.to_nat WLR_SERIAL_RINGSET_SIZE)%nat -> (i < length ranges)%nat ->
     slot e (Z.of_nat (S i)) = slot (rs_end set) (Z.of_nat i)) ->
  ring_inv d0 tick (Ringset (put_range e (Range (u32 tick) (u32 tick)) set) e
      (Z.min WLR_SERIAL_RINGSET_SIZE (rs_count set + 1)))
    (tick :: issued) ((tick, tick) :: ranges).
Proof.
  intros [Hl He Hc Hh Hr Hf Hi Hn] Hr' Hnt He' Hslot.
  unfold WLR_SERIAL_RINGSET_SIZE in *. split; simpl; auto.
  - unfold put_range. by rewrite length_insert.
  - unfold WLR_SERIAL_RINGSET_SIZE. lia.
  - intros i a' b' Hi' Hlk. destruct i as [|i]; simpl in Hlk.
    + injection Hlk as <- <-. rewrite slot_0 by done. apply range_put_same; lia.
    + pose proof (lookup_lt_Some _ _ _ Hlk). rewrite range_put_other; [|lia|apply slot_range|].
      * rewrite Hslot by lia. apply (Hh i); [lia|done].
      * symmetry. apply slot_distinct; unfold WLR_SERIAL_RINGSET_SIZE; lia.
  - split; [lia|done].
  - intros a b [[= -> ->]|Hin]%elem_of_cons; [lia|by apply (Hf a b)].
  - intros t. rewrite elem_of_cons, Hi. split.
    + intros [->|(a & b & Hin & Ht)]; [exists tick, tick|exists a, b]; split; (set_solver || lia).
    + intros (a & b & [[= -> ->]|Hin]%elem_of_cons & Ht); [left; lia|right; by exists a, b].
  - lia.
Qed.

Lemma ring_inv_other d0 n set issued ranges :
  ring_inv d0 n set issued ranges -> ring_inv d0 (n + 1) set issued ranges.
Proof.
  intros [Hl He Hc Hh Hr Hf Hi Hn]. split; auto; [|lia]. eapply ranges_ok_mono; [|done]. lia.
Qed.

Lemma ring_inv_issue d0 n set issued ranges : ring_inv d0 n set issued ranges ->
  next_tick n - d0 < 2 ^ 32 ->
  exists ranges', ring_inv d0 (next_tick n) (wlr_seat_client_next_serial (u32 n) set).1.2
    (next_tick n :: issued) ranges'.
Proof.
  intros Hinv Hb. pose proof Hinv as [Hl He Hc Hh Hr Hf Hi Hn]. pose proof (next_tick_later n).
  unfold wlr_seat_client_next_serial. pose proof (issued_serial n) as Es. cbv zeta in Es |- *.
  rewrite Es. cbn [fst snd]. clear Es. unfold WLR_SERIAL_RINGSET_SIZE in *.
  destruct ranges as [|[a b] rest].
  - simpl in Hc. rewrite Hc. exists [(next_tick n, next_tick n)].
    replace 1 with (Z.min WLR_SERIAL_RINGSET_SIZE (rs_count set + 1)) by (by rewrite Hc).
    eapply ring_push; eauto; [lia|unfold WLR_SERIAL_RINGSET_SIZE; lia|]. simpl. intros. lia.
  - simpl length in Hc. destruct (rs_count set =? 0) eqn:E0; [lia|]. clear E0.
    pose proof (Hh 0%nat a b ltac:(lia) eq_refl) as Hh0. rewrite slot_0 in Hh0 by done.
    assert (Hda : d0 < a) by (apply (Hf a b); set_solver). pose proof Hr as [Hab _].
    rewrite Hh0. cbn [max_incl]. rewrite u32_add1.
    destruct (Z.eqb_spec (u32 (b + 1)) (u32 (next_tick n))) as [E|E]; cbn [negb].
    + apply u32_inj in E; [|lia]. exists ((a, next_tick n) :: rest). rewrite <- Hh0.
      eapply ring_extend; eauto; lia.
    + exists ((next_tick n, next_tick n) :: (a, b) :: rest).
      replace (if rs_count set <? 128 then rs_count set + 1 else rs_count set) with
        (Z.min WLR_SERIAL_RINGSET_SIZE (rs_count set + 1))
        by (unfold WLR_SERIAL_RINGSET_SIZE; destruct (rs_count set <? 128) eqn:?; lia).
      eapply ring_push; eauto.
      * destruct Hr as [? Hr]. split; [|done]. split; [lia|].
        destruct (decide (b + 1 = next_tick n)) as [Ex|]; [by rewrite Ex in E|lia].
      * lia.
      * apply (Z.mod_pos_bound _ 128). lia.
      * intros i _ _. rewrite Nat2Z.inj_succ. apply slot_next.
Qed.

Lemma serial_run_inv d0 n set issued : serial_run d0 n set issued -> n - d0 < 2 ^ 32 ->
  exists ranges, ring_inv d0 n set issued ranges.
Proof.
  induction 1 as [|n set issued Hr IH|n set issued Hr IH]; intros Hb.
  - exists []. split; simpl; unfold WLR_SERIAL_RINGSET_SIZE; try done; try lia.
    + intros a b Hin. by apply elem_of_nil in Hin.
    + intros t. split; [set_solver|]. intros (a & b & Hin & _). set_solver.
  - destruct IH as [ranges Hinv]; [lia|]. exists ranges. by apply ring_inv_other.
  - fold (next_tick n) in *. pose proof (next_tick_later n). destruct IH as [ranges Hinv]; [lia|].
    subst tick. by eapply ring_inv_issue.
Qed.

(** ** Validation *)

Lemma ranges_sorted n ranges i j a b a' b' : ranges_ok n ranges -> (i < j)%nat ->
  ranges !! i = Some (a, b) -> ranges !! j = Some (a', b') -> b' < a.
Proof.
  revert n i j. induction ranges as [|[a0 b0] rest IH]; intros n i j; [done|]. intros [Hab Hr] Hij Hi Hj.
  destruct j as [|j]; [lia|]. destruct i as [|i]; simpl in *.
  - injection Hi as -> ->. apply list_elem_of_lookup_2 in Hj.
    pose proof (ranges_ok_bound _ _ _ _ Hr Hj). lia.
  - eapply (IH _ i j); eauto; lia.
Qed.

Lemma validate_loop_spec d0 n set issued ranges m k i : ring_inv d0 n set issued ranges ->
  n - d0 < 2 ^ 32 -> m <= n -> (i + k)%nat = Z.to_nat (rs_count set) ->
  validate_loop set (u32 n) (n - m) k (Z.of_nat i) = true <->
  (exists j a b, (i <= j < Z.to_nat (rs_count set))%nat /\ ranges !! j = Some (a, b) /\ a <= m <= b) \/
  (rs_count set = WLR_SERIAL_RINGSET_SIZE /\
   forall j a b, (i <= j < Z.to_nat (rs_count set))%nat -> ranges !! j = Some (a, b) -> m < a).
Proof.
  intros Hinv Hb Hm. pose proof Hinv as [Hl He Hc Hh Hr Hf _ Hn]. unfold WLR_SERIAL_RINGSET_SIZE in *.
  revert i. induction k as [|k IH]; intros i Hk.
  { cbn [validate_loop]. rewrite Z.eqb_eq. unfold WLR_SERIAL_RINGSET_SIZE. split.
    - intros E. right. split; [done|]. lia.
    - intros [(j & a & b & Hj & _)|[E _]]; [lia|done]. }
  destruct (ranges !! i) as [[a b]|] eqn:Ei; [|apply lookup_ge_None in Ei; lia].
  assert (Hin : (a, b) ∈ ranges) by by eapply list_elem_of_lookup_2.
  pose proof (ranges_ok_bound _ _ _ _ Hr Hin). pose proof (Hf _ _ Hin).
  cbn [validate_loop]. fold (slot (rs_end set) (Z.of_nat i)).
  rewrite (Hh i a b) by (done || lia). cbn [max_incl min_incl]. rewrite !u32_sub.
  rewrite !u32_small by lia. replace (Z.of_nat i + 1) with (Z.of_nat (S i)) by lia.
  destruct (Z.ltb_spec (n - m) (n - b)) as [Hgt|Hle].
  { split; [done|]. intros [(j & a' & b' & Hj & Hlk & Hmj)|[_ Hall]].
    - destruct (decide (j = i)) as [->|]; [rewrite Ei in Hlk; injection Hlk as <- <-; lia|].
      pose proof (ranges_sorted n ranges i j a b a' b' Hr ltac:(lia) Ei Hlk). lia.
    - pose proof (Hall i a b ltac:(lia) Ei). lia. }
  destruct (Z.leb_spec (n - m) (n - a)) as [Hge|Hlt].
  { split; [|done]. intros _. left. exists i, a, b. split; [lia|]. split; [done|lia]. }
  rewrite IH by lia. split.
  - intros [(j & a' & b' & Hj & Hlk & Hmj)|[Ec Hall]]; [left; exists j, a', b'; split; [lia|done]|].
    right. split; [done|]. intros j a' b' Hj Hlk. destruct (decide (j = i)) as [->|].
    + rewrite Ei in Hlk. injection Hlk as <- <-. lia.
    + apply (Hall j a' b'); [lia|done].
  - intros [(j & a' & b' & Hj & Hlk & Hmj)|[Ec Hall]].
    + left. exists j, a', b'. split; [|done]. destruct (decide (j = i)) as [->|]; [|lia].
      rewrite Ei in Hlk. injection Hlk as <- <-. lia.
    + right. split; [done|]. intros j a' b' Hj. apply Hall. lia.
Qed.

(** The tick that a serial stands for, seen from tick [n]. *)
Definition tick_of (n serial : Z) : Z := n - u32 (u32 n - serial).

Lemma tick_of_serial n serial : 0 <= serial < 2 ^ 32 ->
  tick_of n serial <= n /\ u32 (tick_of n serial) = serial.
Proof.
  intros Hs. unfold tick_of. split; [pose proof (u32_range (u32 n - serial)); lia|].
  pose proof (Z.div_mod n (2 ^ 32) ltac:(lia)) as Hd. fold (u32 n) in Hd.
  unfold u32 at 1 2. rewrite Zminus_mod_idemp_r.
  replace (n - (u32 n - serial)) with (serial + n / 2 ^ 32 * 2 ^ 32) by lia.
  rewrite Z.mod_add, Z.mod_small; lia.
Qed.

Lemma issued_tick d0 n set issued ranges serial : ring_inv d0 n set issued ranges ->
  n - d0 < 2 ^ 31 - 1 -> 0 <= serial < 2 ^ 32 ->
  serial ∈ map u32 issued <-> u32 (u32 n - serial) < 2 ^ 31 - 1 /\ tick_of n serial ∈ issued.
Proof.
  intros [_ _ _ _ Hr Hf Hi _] Hspan Hs. destruct (tick_of_serial n serial Hs) as [_ Hum]. split.
  - intros (t & -> & Ht)%list_elem_of_fmap. pose proof Ht as Ht'.
    apply Hi in Ht' as (a & b & Hab & Htab). pose proof (Hf _ _ Hab).
    pose proof (ranges_ok_bound _ _ _ _ Hr Hab). unfold tick_of. rewrite u32_sub, u32_small by lia.
    replace (n - (n - t)) with t by lia. split; [lia|done].
  - intros [_ Ht]. rewrite <- Hum. by apply list_elem_of_fmap_2.
Qed.

Lemma validate_spec d0 n set issued ranges serial : ring_inv d0 n set issued ranges ->
  n - d0 < 2 ^ 31 - 1 -> 0 <= serial < 2 ^ 32 -> let m := tick_of n serial in
  wlr_seat_client_validate_event_serial (u32 n) set serial = true <->
  u32 (u32 n - serial) < 2 ^ 31 - 1 /\ ((exists j a b, (j < Z.to_nat (rs_count set))%nat /\
    ranges !! j = Some (a, b) /\ a <= m <= b) \/ (rs_count set = WLR_SERIAL_RINGSET_SIZE /\
    forall j a b, (j < Z.to_nat (rs_count set))%nat -> ranges !! j = Some (a, b) -> m < a)).
Proof.
  intros Hinv Hspan Hs. cbv zeta. destruct (tick_of_serial n serial Hs) as [Hm _].
  unfold wlr_seat_client_validate_event_serial. cbv zeta. change (UINT32_MAX / 2) with (2 ^ 31 - 1).
  destruct (_ >=? _) eqn:E; [split; [done|lia]|].
  replace (u32 (u32 n - serial)) with (n - tick_of n serial) in * by (unfold tick_of; lia).
  rewrite (validate_loop_spec d0 n set issued ranges (tick_of n serial)
    (Z.to_nat (rs_count set)) 0 Hinv ltac:(lia) Hm eq_refl).
  split; [intros Hd; split; [lia|]|intros [_ Hd]];
    (destruct Hd as [(j & a & b & Hj & Hx)|[Ec Hall]];
     [left; exists j, a, b; split; [lia|exact Hx]|right; split; [exact Ec|];
      intros j a b Hj; apply Hall; lia]).
Qed.

(** C28. A client's serial is accepted exactly when it was sent to that client:
    for fewer than 2^31 serials drawn from the display, by whomever and across
    the wrap-around of the counter, every serial ever sent to the client
    validates, and a serial that was not sent to it does not, unless the ring of
    128 ranges has filled up and the serial is older than all of them, in which
    case it could have been recycled. *)
Theorem serial_validation_exact (d0 n : Z) (set : wlr_serial_ringset) (issued : list Z) (serial : Z)
  (Hrun : serial_run d0 n set issued) (Hspan : n - d0 < 2 ^ 31 - 1) (Hs : 0 <= serial < 2 ^ 32) :
  let ok := wlr_seat_client_validate_event_serial (u32 n) set serial in
  (serial ∈ map u32 issued -> ok = true) /\
  (ok = true -> serial ∈ map u32 issued \/
     (rs_count set = WLR_SERIAL_RINGSET_SIZE /\
      forall i, 0 <= i < WLR_SERIAL_RINGSET_SIZE ->
        u32 (u32 n - min_incl (range_at set (slot (rs_end set) i))) < u32 (u32 n - serial))) /\
  (rs_count set < WLR_SERIAL_RINGSET_SIZE -> ok = true <-> serial ∈ map u32 issued).
Proof.
  cbv zeta. destruct (serial_run_inv _ _ _ _ Hrun ltac:(lia)) as [ranges Hinv].
  pose proof Hinv as [Hl He Hc Hh Hr Hf Hi Hn].
  rewrite (issued_tick d0 n set issued ranges) by done.
  pose proof (validate_spec d0 n set issued ranges serial Hinv Hspan Hs) as Hok. cbv zeta in Hok.
  set (m := tick_of n serial) in *.
  assert (Hany : (exists j a b, ranges !! j = Some (a, b) /\ a <= m <= b) <-> m ∈ issued).
  { rewrite Hi. split; [intros (j & a & b & Hlk & ?)|intros (a & b & Hab & ?)].
    - exists a, b. split; [by eapply list_elem_of_lookup_2|done].
    - apply list_elem_of_lookup in Hab as [j Hlk]. by exists j, a, b. }
  unfold WLR_SERIAL_RINGSET_SIZE in *. split_and!.
  - intros [Hd Ht]. apply Hok. split; [done|].
    apply Hany in Ht as (j & a & b & Hlk & Hab). pose proof (lookup_lt_Some _ _ _ Hlk).
    destruct (decide (j < Z.to_nat (rs_count set))%nat) as [Hj|Hj]; [left; by exists j, a, b|].
    right. split; [lia|]. intros j' a' b' Hj' Hlk'.
    pose proof (ranges_sorted n ranges j' j a' b' a b Hr ltac:(lia) Hlk' Hlk). lia.
  - intros [Hd [(j & a & b & _ & Hlk & Hab)|[Ec Hall]]]%Hok; [left; split; [done|]; apply Hany; by exists j, a, b|].
    right. split; [done|]. intros i Hi'.
    destruct (ranges !! Z.to_nat i) as [[a b]|] eqn:Ei; [|apply lookup_ge_None in Ei; lia].
    pose proof (Hall (Z.to_nat i) a b ltac:(lia) Ei). pose proof (Hh (Z.to_nat i) a b ltac:(lia) Ei) as Hr'.
    rewrite Z2Nat.id in Hr' by lia. rewrite Hr'. cbn [min_incl]. rewrite u32_sub.
    assert (Hab : (a, b) ∈ ranges) by by eapply list_elem_of_lookup_2.
    pose proof (ranges_ok_bound _ _ _ _ Hr Hab). pose proof (Hf _ _ Hab). rewrite u32_small by lia. unfold m, tick_of in *. lia.
  - intros Hlt. rewrite Hok. split; intros [Hd Ht]; (split; [done|]).
    + destruct Ht as [(j & a & b & _ & Hlk & Hab)|[Ec _]]; [|lia]. apply Hany. by exists j, a, b.
    + left. apply Hany in Ht as (j & a & b & Hlk & Hab). pose proof (lookup_lt_Some _ _ _ Hlk).
      exists j, a, b. split; [lia|done].
Qed.

(** Two serials around the wrap-around, with one drawn by someone else between
    them: 2^32 - 1 and 2; zero is skipped. *)
Definition demo_serials : wlr_serial_ringset :=
  (wlr_seat_client_next_serial 1
     (wlr_seat_client_next_serial (2 ^ 32 - 2) empty_ringset).1.2).1.2.

Lemma demo_serials_run : serial_run (2 ^ 32 - 2) (2 ^ 32 + 2) demo_serials [2 ^ 32 + 2; 2 ^ 32 - 1].
Proof.
  assert (H1 := run_issue _ _ _ _ (run_start (2 ^ 32 - 2))).
  assert (H2 := run_other _ _ _ _ (run_other _ _ _ _ H1)).
  assert (H3 := run_issue _ _ _ _ H2). vm_compute in H3. vm_compute. exact H3.
Qed.

Lemma serial_validation_exact_witness :
  wlr_seat_client_validate_event_serial 2 demo_serials (2 ^ 32 - 1) = true /\
  wlr_seat_client_validate_event_serial 2 demo_serials 1 = false /\
  (wlr_seat_client_validate_event_serial 2 demo_serials 2 = true <->
   2 ∈ map u32 [2 ^ 32 + 2; 2 ^ 32 - 1]).
Proof.
  split; [reflexivity|]. split; [reflexivity|].
  change 2 with (u32 (2 ^ 32 + 2)) at 1.
  apply (serial_validation_exact (2 ^ 32 - 2) (2 ^ 32 + 2) demo_serials [2 ^ 32 + 2; 2 ^ 32 - 1] 2);
    [exact demo_serials_run|lia|lia|reflexivity].
Defined.
