(* ===== verification/Seat.v ===== *)
(** * The seat: clients, resources and events

    The state of src/libs/wlroots/types/seat/wlr_seat.c shared by its pointer
    ([SeatPointer]) and touch ([SeatTouch]) halves, and the life of its clients.

    - a wl_client is a number; [seat_clients] holds the clients that have bound
      the seat; a surface's client is [surface_client];
    - a wl_pointer or wl_touch object is a [resource] with an identity of its own,
      its version, and whether it is live (made while the seat had the
      capability); lists are newest first, as wl_list_insert builds them;
    - what is sent to clients is appended to [wire], tagged with the resource;
    - the display's serial counter is a field of the seat. *)

From S2P Require Import Prelude Serials.

Inductive wl_pointer_axis := AxisVertical | AxisHorizontal.

#[export] Instance wl_pointer_axis_eq : EqDecision wl_pointer_axis.
Proof. solve_decision. Defined.

(** Events; coordinates are wl_fixed_t. *)
Inductive wl_event :=
| PEnter (serial : Z) (surface : nat) (sx sy : Z)
| PLeave (serial : Z) (surface : nat)
| PMotion (time sx sy : Z)
| PButton (serial time button : Z) (pressed : bool)
| PAxisSource (source : Z)
| PAxisRelativeDirection (axis : wl_pointer_axis) (direction : Z)
| PAxisValue120 (axis : wl_pointer_axis) (value : Z)
| PAxisDiscrete (axis : wl_pointer_axis) (discrete : Z)
| PAxis (time : Z) (axis : wl_pointer_axis) (value : Z)
| PAxisStop (time : Z) (axis : wl_pointer_axis)
| PFrame
| TDown (serial time : Z) (surface : option nat) (id sx sy : Z)
| TUp (serial time id : Z)
| TMotion (time id sx sy : Z)
| TFrame
| TCancel.

Record resource := Res { res_id : nat; res_version : Z; res_live : bool }.

(** High resolution scrolling, per axis. *)
Record value120 := Value120 { acc_discrete : Z; last_discrete : Z; acc_axis : Q }.

Record wlr_seat_client := SeatClient {
  sc_pointers : list resource;
  sc_touches : list resource;
  sc_serials : wlr_serial_ringset;
  sc_needs_touch_frame : bool;
  sc_value120 : wl_pointer_axis -> value120 }.

#[export] Instance seat_client_fields : Fields wlr_seat_client := {| rebuild := fun c =>
  SeatClient (sc_pointers c) (sc_touches c) (sc_serials c) (sc_needs_touch_frame c)
    (sc_value120 c) |}.

Record wlr_touch_point := TouchPt {
  tp_addr : nat;
  tp_touch_id : Z;
  tp_surface : option nat;          (* None once destroyed *)
  tp_client : nat;
  tp_focus_surface : option nat;
  tp_focus_client : option nat;
  tp_sx : Q; tp_sy : Q }.

#[export] Instance touch_point_fields : Fields wlr_touch_point := {| rebuild := fun p =>
  TouchPt (tp_addr p) (tp_touch_id p) (tp_surface p) (tp_client p) (tp_focus_surface p)
    (tp_focus_client p) (tp_sx p) (tp_sy p) |}.

Record wlr_seat_touch_state := TouchSt {
  touch_points : list wlr_touch_point;
  ts_grab_serial : Z;
  ts_grab_id : Z }.

#[export] Instance touch_state_fields : Fields wlr_seat_touch_state := {| rebuild := fun s =>
  TouchSt (touch_points s) (ts_grab_serial s) (ts_grab_id s) |}.

Record wlr_seat_pointer_button := PtrButton { button : Z; n_pressed : Z }.

(** [ps_xy] is the position in the focused surface, [None] for NaN. *)
Record wlr_seat_pointer_state := PtrState {
  focused_client : option nat;
  ptr_focused_surface : option nat;
  ps_xy : option (Q * Q);
  sent_axis_source : bool;
  cached_axis_source : Z;
  buttons : list wlr_seat_pointer_button;
  grab_button : Z;
  ps_grab_serial : Z;
  grab_time : Z }.

#[export] Instance pointer_state_fields : Fields wlr_seat_pointer_state := {| rebuild := fun s =>
  PtrState (focused_client s) (ptr_focused_surface s) (ps_xy s) (sent_axis_source s)
    (cached_axis_source s) (buttons s) (grab_button s) (ps_grab_serial s) (grab_time s) |}.

Record wlr_seat := Seat {
  seat_clients : gmap nat wlr_seat_client;
  pointer_state : wlr_seat_pointer_state;
  touch_state : wlr_seat_touch_state;
  has_pointer : bool;               (* capabilities *)
  has_touch : bool;
  display_serial : Z;
  next_resource : nat;              (* identity of the next resource *)
  wire : list (nat * wl_event) }.

#[export] Instance seat_fields : Fields wlr_seat := {| rebuild := fun s =>
  Seat (seat_clients s) (pointer_state s) (touch_state s) (has_pointer s) (has_touch s)
    (display_serial s) (next_resource s) (wire s) |}.

Definition initial_pointer_state : wlr_seat_pointer_state :=
  PtrState None None (Some (0%Q, 0%Q)) false 0 [] 0 0 0.
Definition wlr_seat_create : wlr_seat :=
  Seat ∅ initial_pointer_state (TouchSt [] 0 0) true true 0 0 [].

(** Fixed point with 8 fractional bits. *)
Definition wl_fixed_from_double (d : Q) : Z := lround (d * 256).

(** ** Sending *)

Definition upd_client (client : nat) (f : wlr_seat_client -> wlr_seat_client) (s : wlr_seat)
    : wlr_seat := s <{ seat_clients ::= alter f client }>.

(** [wlr_seat_client_next_serial] on the seat's state. *)
Definition next_serial (client : nat) (s : wlr_seat) : wlr_seat * Z :=
  let set := from_option sc_serials empty_ringset (seat_clients s !! client) in
  let '(display, set, serial) := wlr_seat_client_next_serial (display_serial s) set in
  (s <{ display_serial := display }>
     |> upd_client client (fun c => c <{ sc_serials := set }>), serial).

Definition post (r : resource) (e : wl_event) (s : wlr_seat) : wlr_seat :=
  s <{ wire ::= fun l => l ++ [(res_id r, e)] }>.

(** A loop over resources. *)
Definition for_each (l : list resource) (f : resource -> wlr_seat -> wlr_seat) (s : wlr_seat)
    : wlr_seat := foldl (fun s r => f r s) s l.

Definition pointers_of (client : nat) (s : wlr_seat) : list resource :=
  from_option sc_pointers [] (seat_clients s !! client).
Definition touches_of (client : nat) (s : wlr_seat) : list resource :=
  from_option sc_touches [] (seat_clients s !! client).

(** The loops skip resources whose seat client is gone. *)
Definition live (l : list resource) : list resource := List.filter res_live l.

Section Clients.
Variable surface_client : nat -> nat.

(** ** Clients *)

Definition no_value120 : value120 := Value120 0 0 0.

(** [seat_client_create], when the client binds the seat for the first time. *)
Definition seat_client_create (client : nat) (s : wlr_seat) : wlr_seat :=
  let c := SeatClient [] [] empty_ringset false (fun _ => no_value120) in
  let s := s <{ seat_clients ::= insert client c }> in
  match ptr_focused_surface (pointer_state s) with
  | Some f => if (surface_client f =? client)%nat
              then s <{ pointer_state ::= fun p => p <{ focused_client := Some client }> }> else s
  | None => s
  end.

(** The destroy signal destroys the client's touch points
    (touch_point_handle_client_destroy); the client's resources become inert. *)
Definition seat_client_destroy (client : nat) (s : wlr_seat) : wlr_seat :=
  s <{ touch_state ::= fun t => t <{ touch_points ::= List.filter (fun p => negb (tp_client p =? client)%nat) }> }>
    <{ pointer_state ::= fun p => if bool_decide (focused_client p = Some client)
                                  then p <{ focused_client := None }> else p }>
    <{ seat_clients ::= delete client }>.

(** wl_seat.get_pointer on a bound seat with the capability. A new pointer of the
    focused client is told where the pointer is. *)
Definition seat_client_create_pointer (client : nat) (version : Z) (s : wlr_seat) : wlr_seat :=
  let r := Res (next_resource s) version (has_pointer s) in
  let s := s <{ next_resource ::= S }>
             |> upd_client client (fun c => c <{ sc_pointers ::= cons r }>) in
  if negb (has_pointer s) then s
  else
    match ptr_focused_surface (pointer_state s), ps_xy (pointer_state s) with
    | Some f, Some (x, y) =>
        if bool_decide (focused_client (pointer_state s) = Some client) then
          let '(s, serial) := next_serial client s in
          let s := post r (PEnter serial f (wl_fixed_from_double x) (wl_fixed_from_double y)) s in
          if 5 <=? version then post r PFrame s else s
        else s
    | _, _ => s
    end.

Definition seat_client_destroy_pointer (client id : nat) (s : wlr_seat) : wlr_seat :=
  upd_client client (fun c => c <{ sc_pointers ::= List.filter (fun r => negb (res_id r =? id)%nat) }>) s.

Definition seat_client_create_touch (client : nat) (version : Z) (s : wlr_seat) : wlr_seat :=
  let r := Res (next_resource s) version (has_touch s) in
  s <{ next_resource ::= S }> |> upd_client client (fun c => c <{ sc_touches ::= cons r }>).

Definition seat_client_destroy_touch (client id : nat) (s : wlr_seat) : wlr_seat :=
  upd_client client (fun c => c <{ sc_touches ::= List.filter (fun r => negb (res_id r =? id)%nat) }>) s.

End Clients.
