(* ===== verification/SeatPointer.v ===== *)
(** * The seat's pointer

    Models src/libs/wlroots/types/seat/wlr_seat_pointer.c with the default grab:
    which surface has the pointer, the buttons held on it, and the motion,
    button and scroll events sent to its client. *)

From S2P Require Import Prelude Serials Seat.

Definition WLR_POINTER_BUTTONS_CAP : nat := 16.
Definition WLR_POINTER_AXIS_DISCRETE_STEP : Z := 120.

Definition upd_ptr (f : wlr_seat_pointer_state -> wlr_seat_pointer_state) (s : wlr_seat) : wlr_seat :=
  s <{ pointer_state ::= f }>.

Definition pointer_send_frame (r : resource) (s : wlr_seat) : wlr_seat :=
  if 5 <=? res_version r then post r PFrame s else s.

Section Pointer.
Variable surface_client : nat -> nat.

(** ** Focus *)

Definition wlr_seat_pointer_warp (xy : option (Q * Q)) (s : wlr_seat) : wlr_seat :=
  upd_ptr (fun p => p <{ ps_xy := xy }>) s.

Definition seat_client_send_pointer_leave_raw (client surface : nat) (s : wlr_seat) : wlr_seat :=
  let '(s, serial) := next_serial client s in
  for_each (live (pointers_of client s)) (fun r s =>
    s |> post r (PLeave serial surface) |> pointer_send_frame r) s.

(** The seat client of a surface, [None] if its client has not bound the seat. *)
Definition client_of (surface : option nat) (s : wlr_seat) : option nat :=
  match surface with
  | Some f => match seat_clients s !! surface_client f with
              | Some _ => Some (surface_client f)
              | None => None
              end
  | None => None
  end.

Definition wlr_seat_pointer_enter (surface : option nat) (sx sy : Q) (s : wlr_seat) : wlr_seat :=
  if bool_decide (ptr_focused_surface (pointer_state s) = surface) then s
  else
    let client := client_of surface s in
    let s := match focused_client (pointer_state s), ptr_focused_surface (pointer_state s) with
             | Some c, Some f => seat_client_send_pointer_leave_raw c f s
             | _, _ => s
             end in
    let s := match client, surface with
             | Some c, Some f =>
                 let '(s, serial) := next_serial c s in
                 for_each (live (pointers_of c s)) (fun r s =>
                   s |> post r (PEnter serial f (wl_fixed_from_double sx) (wl_fixed_from_double sy))
                     |> pointer_send_frame r) s
             | _, _ => s
             end in
    s |> upd_ptr (fun p => p <{ focused_client := client }> <{ ptr_focused_surface := surface }>)
      |> wlr_seat_pointer_warp (match surface with Some _ => Some (sx, sy) | None => None end).

Definition wlr_seat_pointer_clear_focus (s : wlr_seat) : wlr_seat := wlr_seat_pointer_enter None 0 0 s.

Definition seat_pointer_handle_surface_destroy (surface : nat) (s : wlr_seat) : wlr_seat :=
  if bool_decide (ptr_focused_surface (pointer_state s) = Some surface)
  then wlr_seat_pointer_clear_focus s else s.

Definition reset_buttons (s : wlr_seat) : wlr_seat := upd_ptr (fun p => p <{ buttons := [] }>) s.

Definition wlr_seat_pointer_notify_enter (surface : nat) (sx sy : Q) (s : wlr_seat) : wlr_seat :=
  let before := ptr_focused_surface (pointer_state s) in
  let s := wlr_seat_pointer_enter (Some surface) sx sy s in
  if bool_decide (before <> ptr_focused_surface (pointer_state s)) then reset_buttons s else s.

Definition wlr_seat_pointer_notify_clear_focus (s : wlr_seat) : wlr_seat :=
  let before := ptr_focused_surface (pointer_state s) in
  let s := wlr_seat_pointer_clear_focus s in
  if bool_decide (before <> ptr_focused_surface (pointer_state s)) then reset_buttons s else s.

(** ** Motion *)

Definition fixed_xy (xy : Q * Q) : Z * Z := (wl_fixed_from_double xy.1, wl_fixed_from_double xy.2).

Definition wlr_seat_pointer_send_motion (time : Z) (sx sy : Q) (s : wlr_seat) : wlr_seat :=
  match focused_client (pointer_state s) with
  | None => s
  | Some c =>
      let fixed := fixed_xy (sx, sy) in
      let s := if bool_decide (fixed_xy <$> ps_xy (pointer_state s) <> Some fixed)
               then for_each (live (pointers_of c s)) (fun r => post r (PMotion time fixed.1 fixed.2)) s
               else s in
      wlr_seat_pointer_warp (Some (sx, sy)) s
  end.

Definition wlr_seat_pointer_notify_motion (time : Z) (sx sy : Q) (s : wlr_seat) : wlr_seat :=
  wlr_seat_pointer_send_motion time sx sy s.

(** ** Buttons *)

Definition wlr_seat_pointer_send_button (time b : Z) (pressed : bool) (s : wlr_seat) : wlr_seat * Z :=
  match focused_client (pointer_state s) with
  | None => (s, 0)
  | Some c =>
      let '(s, serial) := next_serial c s in
      (for_each (live (pointers_of c s)) (fun r => post r (PButton serial time b pressed)) s, serial)
  end.

(** The first entry of a button, by position. *)
Fixpoint find_button (b : Z) (l : list wlr_seat_pointer_button) : option nat :=
  match l with
  | [] => None
  | x :: l => if button x =? b then Some 0%nat else S <$> find_button b l
  end.

Definition pressed_at (l : list wlr_seat_pointer_button) (i : nat) : Z :=
  from_option n_pressed 0 (l !! i).

(** [*pointer_button = buttons[--button_count]]. *)
Definition remove_button (i : nat) (l : list wlr_seat_pointer_button) : list wlr_seat_pointer_button :=
  match last l with
  | Some x => take (length l - 1) (<[i := x]> l)
  | None => l
  end.

(** The bookkeeping of a press: whether the event is to be sent on. *)
Definition press_button (b : Z) (l : list wlr_seat_pointer_button) : list wlr_seat_pointer_button * bool :=
  match find_button b l with
  | Some i => (alter (fun x => PtrButton (button x) (n_pressed x + 1)) i l, false)
  | None => if (length l =? WLR_POINTER_BUTTONS_CAP)%nat then (l, false)
            else (l ++ [PtrButton b 1], true)
  end.

Definition release_button (b : Z) (l : list wlr_seat_pointer_button) : list wlr_seat_pointer_button * bool :=
  match find_button b l with
  | Some i =>
      let n := pressed_at l i - 1 in
      if 0 <? n then (alter (fun x => PtrButton (button x) n) i l, false)
      else (remove_button i l, true)
  | None => (l, false)
  end.

Definition wlr_seat_pointer_notify_button (time b : Z) (pressed : bool) (s : wlr_seat) : wlr_seat * Z :=
  let held := buttons (pointer_state s) in
  let s := if pressed && bool_decide (held = [])
           then upd_ptr (fun p => p <{ grab_button := b }> <{ grab_time := time }>) s else s in
  let '(held, forward) := if pressed then press_button b held else release_button b held in
  let s := upd_ptr (fun p => p <{ buttons := held }>) s in
  if negb forward then (s, 0)
  else
    let '(s, serial) := wlr_seat_pointer_send_button time b pressed s in
    if negb (serial =? 0) && (length (buttons (pointer_state s)) =? 1)%nat && pressed
    then (upd_ptr (fun p => p <{ ps_grab_serial := serial }>) s, serial)
    else (s, serial).

(** ** Scrolling *)

Definition should_reset_value120_accumulators (current last : Z) : bool :=
  if last =? 0 then true
  else ((current <? 0) && (0 <? last)) || ((0 <? current) && (last <? 0)).

(** Returns the accumulators and the low resolution value and steps. *)
Definition update_value120_accumulators (v : value120) (value : Q) (value_discrete : Z)
    : value120 * Q * Z :=
  if value_discrete =? 0 then (v, 0%Q, 0)
  else
    let reset := should_reset_value120_accumulators value_discrete (last_discrete v) in
    let acc_d := (if reset then 0 else acc_discrete v) + value_discrete in
    let acc_a := ((if reset then 0 else acc_axis v) + value)%Q in
    let steps := idiv acc_d WLR_POINTER_AXIS_DISCRETE_STEP in
    if steps =? 0 then (Value120 acc_d value_discrete acc_a, 0%Q, steps)
    else (Value120 (acc_d - steps * WLR_POINTER_AXIS_DISCRETE_STEP) value_discrete 0, acc_a, steps).

Definition axis_set (axis : wl_pointer_axis) (v : value120) (f : wl_pointer_axis -> value120)
    (a : wl_pointer_axis) : value120 := if decide (a = axis) then v else f a.

(** What one resource gets of a scroll event. *)
Definition axis_events (r : resource) (time : Z) (axis : wl_pointer_axis) (value : Q)
    (value_discrete source direction : Z) (send_source : bool) (low_value : Q) (low_discrete : Z)
    : list wl_event :=
  let v := res_version r in
  if (v <? 8) && negb (value_discrete =? 0) && (low_discrete =? 0) then []
  else
    (if send_source && (5 <=? v) then [PAxisSource source] else []) ++
    (if negb (Qeq_bool value 0) then
       (if 9 <=? v then [PAxisRelativeDirection axis direction] else []) ++
       (if negb (value_discrete =? 0) then
          if 8 <=? v then
            [PAxisValue120 axis value_discrete; PAxis time axis (wl_fixed_from_double value)]
          else (if 5 <=? v then [PAxisDiscrete axis low_discrete] else []) ++
               [PAxis time axis (wl_fixed_from_double low_value)]
        else [PAxis time axis (wl_fixed_from_double value)])
     else if 5 <=? v then [PAxisStop time axis] else []).

(** [None] is a failed assertion: two sources within one frame. *)
Definition wlr_seat_pointer_send_axis (time : Z) (axis : wl_pointer_axis) (value : Q)
    (value_discrete source direction : Z) (s : wlr_seat) : option wlr_seat :=
  match focused_client (pointer_state s) with
  | None => Some s
  | Some c =>
      if sent_axis_source (pointer_state s) && negb (cached_axis_source (pointer_state s) =? source)
      then None
      else
        let send_source := negb (sent_axis_source (pointer_state s)) in
        let s := upd_ptr (fun p => p <{ sent_axis_source := true }> <{ cached_axis_source := source }>) s in
        let v := from_option (fun c => sc_value120 c axis) no_value120 (seat_clients s !! c) in
        let '(v, low_value, low_discrete) := update_value120_accumulators v value value_discrete in
        let s := upd_client c (fun c => c <{ sc_value120 ::= axis_set axis v }>) s in
        Some (for_each (live (pointers_of c s)) (fun r s =>
          foldl (fun s e => post r e s) s
            (axis_events r time axis value value_discrete source direction send_source
               low_value low_discrete)) s)
  end.

Definition wlr_seat_pointer_notify_axis := wlr_seat_pointer_send_axis.

Definition wlr_seat_pointer_send_frame (s : wlr_seat) : wlr_seat :=
  match focused_client (pointer_state s) with
  | None => s
  | Some c => s |> upd_ptr (fun p => p <{ sent_axis_source := false }>)
                |> for_each (live (pointers_of c s)) pointer_send_frame
  end.

Definition wlr_seat_pointer_notify_frame (s : wlr_seat) : wlr_seat := wlr_seat_pointer_send_frame s.

Definition wlr_seat_validate_pointer_grab_serial (origin : option nat) (serial : Z) (s : wlr_seat) : bool :=
  let p := pointer_state s in
  (length (buttons p) =? 1)%nat && (ps_grab_serial p =? serial) &&
  (bool_decide (origin = None) || bool_decide (ptr_focused_surface p = origin)).

End Pointer.

(** ** What a client sees

    A wl_pointer object follows a protocol: it is entered and left in turn, and
    while it is on a surface a button is pressed only when it is up and released
    only when it is down; motion and scrolling only happen on a surface. [pview]
    is what a client knows of its pointer: the surface and the buttons down. *)

Definition pview := option (nat * gset Z).

Definition stream_step (st : option pview) (e : wl_event) : option pview :=
  v ← st;
  match e, v with
  | PEnter _ f _ _, None => Some (Some (f, ∅))
  | PLeave _ f, Some (g, _) => if (f =? g)%nat then Some None else None
  | PButton _ _ b true, Some (f, h) => if decide (b ∈ h) then None else Some (Some (f, {[b]} ∪ h))
  | PButton _ _ b false, Some (f, h) => if decide (b ∈ h) then Some (Some (f, h ∖ {[b]})) else None
  | (PMotion _ _ _ | PAxisSource _ | PAxisRelativeDirection _ _ | PAxisValue120 _ _
     | PAxisDiscrete _ _ | PAxis _ _ _ | PAxisStop _ _), Some _ => Some v
  | (PFrame | TDown _ _ _ _ _ _ | TUp _ _ _ | TMotion _ _ _ _ | TFrame | TCancel), _ => Some v
  | _, _ => None
  end.

Definition events_of (id : nat) (w : list (nat * wl_event)) : list wl_event :=
  map snd (List.filter (fun x => (x.1 =? id)%nat) w).

(** What the events received so far make of an object; [None] is a violation. *)
Definition stream (id : nat) (w : list (nat * wl_event)) : option pview :=
  foldl stream_step (Some None) (events_of id w).

Definition button_set (l : list wlr_seat_pointer_button) : gset Z := list_to_set (map button l).
Definition held_set (p : wlr_seat_pointer_state) : gset Z := button_set (buttons p).

(** The view the seat has of a client's pointer. *)
Definition seat_view (client : nat) (p : wlr_seat_pointer_state) : pview :=
  if bool_decide (focused_client p = Some client)
  then (fun f => (f, held_set p)) <$> ptr_focused_surface p else None.

(** Steps of the seat. A client that has the pointer asks for another wl_pointer
    object only while no button is down. *)
Inductive pointer_op :=
| OpBind (client : nat)
| OpUnbind (client : nat)
| OpGetPointer (client : nat) (version : Z)
| OpRelease (client id : nat)
| OpEnter (surface : nat) (sx sy : Q)
| OpClearFocus
| OpNotifyClearFocus
| OpSurfaceDestroy (surface : nat)
| OpMotion (time : Z) (sx sy : Q)
| OpButton (time b : Z) (pressed : bool)
| OpAxis (time : Z) (axis : wl_pointer_axis) (value : Q) (value_discrete source direction : Z)
| OpFrame.

Section Stream.
Variable surface_client : nat -> nat.

Definition pointer_step (op : pointer_op) (s : wlr_seat) : option wlr_seat :=
  match op with
  | OpBind c =>
      if bool_decide (seat_clients s !! c = None)
      then Some (seat_client_create surface_client c s) else None
  | OpUnbind c => Some (seat_client_destroy c s)
  | OpGetPointer c v =>
      if bool_decide (focused_client (pointer_state s) <> Some c) || bool_decide (buttons (pointer_state s) = [])
      then Some (seat_client_create_pointer c v s) else None
  | OpRelease c id => Some (seat_client_destroy_pointer c id s)
  | OpEnter f sx sy => Some (wlr_seat_pointer_notify_enter surface_client f sx sy s)
  | OpClearFocus => Some (wlr_seat_pointer_clear_focus surface_client s)
  | OpNotifyClearFocus => Some (wlr_seat_pointer_notify_clear_focus surface_client s)
  | OpSurfaceDestroy f => Some (seat_pointer_handle_surface_destroy surface_client f s)
  | OpMotion t sx sy => Some (wlr_seat_pointer_notify_motion t sx sy s)
  | OpButton t b p => Some (wlr_seat_pointer_notify_button t b p s).1
  | OpAxis t a v d src dir => wlr_seat_pointer_notify_axis t a v d src dir s
  | OpFrame => Some (wlr_seat_pointer_notify_frame s)
  end.

Fixpoint pointer_run (ops : list pointer_op) (s : wlr_seat) : option wlr_seat :=
  match ops with
  | [] => Some s
  | op :: ops => s ← pointer_step op s; pointer_run ops s
  end.

End Stream.

(** ** Sending as one append *)

Definition posts (l : list resource) (ev : resource -> list wl_event) : list (nat * wl_event) :=
  flat_map (fun r => map (pair (res_id r)) (ev r)) l.

Definition post_all (l : list resource) (ev : resource -> list wl_event) (s : wlr_seat) : wlr_seat :=
  s <{ wire ::= fun w => w ++ posts l ev }>.

Definition posting (f : resource -> wlr_seat -> wlr_seat) (ev : resource -> list wl_event) : Prop :=
  forall r s, f r s = s <{ wire ::= fun w => w ++ map (pair (res_id r)) (ev r) }>.

Lemma seat_wire_id (s : wlr_seat) : s <{ wire ::= fun w => w ++ [] }> = s.
Proof. destruct s. unfold modify. simpl. by rewrite app_nil_r. Qed.

Lemma for_each_posts f ev l s : posting f ev -> for_each l f s = post_all l ev s.
Proof.
  intros Hf. unfold for_each, post_all, posts. revert s.
  induction l as [|r l IH]; intros s; simpl; [by rewrite seat_wire_id|].
  rewrite Hf, IH. unfold modify. simpl. by rewrite <- app_assoc.
Qed.

Definition frame_ev (r : resource) : list wl_event := if 5 <=? res_version r then [PFrame] else [].

Lemma posting_frame : posting pointer_send_frame frame_ev.
Proof.
  intros r s. unfold pointer_send_frame, frame_ev, post. destruct (5 <=? _); simpl; [done|].
  by rewrite seat_wire_id.
Qed.

Lemma posting_then f g ev ev' : posting f ev -> posting g ev' ->
  posting (fun r s => g r (f r s)) (fun r => ev r ++ ev' r).
Proof.
  intros Hf Hg r s. rewrite Hf, Hg. unfold modify. simpl. by rewrite map_app, <- app_assoc.
Qed.

Lemma posting_one e : posting (fun r => post r (e r)) (fun r => [e r]).
Proof. by intros r s. Qed.

Lemma posting_framed e : posting (fun r s => pointer_send_frame r (post r e s)) (fun r => e :: frame_ev r).
Proof.
  exact (posting_then _ _ _ _ (posting_one (fun _ => e)) posting_frame).
Qed.

Lemma posting_list ev : posting (fun r s => foldl (fun s e => post r e s) s (ev r)) ev.
Proof.
  intros r s. revert s. induction (ev r) as [|e l IH]; intros s; simpl; [by rewrite seat_wire_id|].
  rewrite IH. unfold post, modify. simpl. by rewrite <- app_assoc.
Qed.

Lemma events_of_app id w w' : events_of id (w ++ w') = events_of id w ++ events_of id w'.
Proof. unfold events_of. by rewrite List.filter_app, map_app. Qed.

Lemma events_of_resource id r l :
  events_of id (map (pair (res_id r)) l) = if (res_id r =? id)%nat then l else [].
Proof.
  unfold events_of. induction l as [|e l IH]; simpl; [by destruct (_ =? _)%nat|].
  destruct (Nat.eqb_spec (res_id r) id); simpl; rewrite IH; done.
Qed.

Lemma events_of_posts_in l ev r : NoDup (map res_id l) -> r ∈ l ->
  events_of (res_id r) (posts l ev) = ev r.
Proof.
  unfold posts. induction l as [|x l IH]; simpl; [by intros ? ?%elem_of_nil|].
  rewrite NoDup_cons. intros [Hx Hnd] [->|Hr]%elem_of_cons; rewrite events_of_app, events_of_resource.
  - rewrite Nat.eqb_refl. replace (events_of (res_id x) _) with (@nil wl_event); [by rewrite app_nil_r|].
    clear IH Hnd. symmetry. induction l as [|y l IH]; [done|]. simpl in *.
    rewrite events_of_app, events_of_resource, IH by set_solver.
    destruct (Nat.eqb_spec (res_id y) (res_id x)); [set_solver|done].
  - rewrite IH by done. destruct (Nat.eqb_spec (res_id x) (res_id r)) as [E|]; [|done].
    exfalso. apply Hx. rewrite E. apply list_elem_of_fmap. eauto.
Qed.

Lemma events_of_posts_out l ev id : id ∉ map res_id l -> events_of id (posts l ev) = [].
Proof.
  unfold posts. induction l as [|y l IH]; [done|]. simpl. intros Hid.
  rewrite events_of_app, events_of_resource, IH by set_solver.
  destruct (Nat.eqb_spec (res_id y) id); [set_solver|done].
Qed.

(** ** The invariant *)

(** The wl_pointer objects of each client. *)
Definition res_view (s : wlr_seat) : gmap nat (list resource) := sc_pointers <$> seat_clients s.

Record buttons_ok (l : list wlr_seat_pointer_button) : Prop := {
  bo_distinct : NoDup (map button l);
  bo_pressed : Forall (fun x => 0 < n_pressed x) l;
  bo_cap : (length l <= WLR_POINTER_BUTTONS_CAP)%nat }.

Record ptr_ok (rv : gmap nat (list resource)) (p : wlr_seat_pointer_state)
    (w : list (nat * wl_event)) (n : nat) : Prop := {
  po_fresh : forall c l r, rv !! c = Some l -> r ∈ l -> (res_id r < n)%nat;
  po_sent : forall id e, (id, e) ∈ w -> (id < n)%nat;
  po_nodup : forall c l, rv !! c = Some l -> NoDup (map res_id l);
  po_apart : forall c c' l l' r r', rv !! c = Some l -> rv !! c' = Some l' -> r ∈ l -> r' ∈ l' ->
    res_id r = res_id r' -> c = c';
  po_focus : forall c, focused_client p = Some c ->
    is_Some (ptr_focused_surface p) /\ is_Some (rv !! c);
  po_buttons : buttons_ok (buttons p);
  po_valid : forall id, stream id w <> None;
  po_view : forall c l r, rv !! c = Some l -> r ∈ l -> res_live r = true ->
    stream (res_id r) w = Some (seat_view c p) }.

Lemma stream_app id w w' : stream id (w ++ w') = foldl stream_step (stream id w) (events_of id w').
Proof. unfold stream. by rewrite events_of_app, foldl_app. Qed.

Lemma live_elem r l : r ∈ live l <-> r ∈ l /\ res_live r = true.
Proof. unfold live. rewrite !list_elem_of_In, filter_In. done. Qed.

Lemma filter_sublist' {A} (g : A -> bool) l : sublist (List.filter g l) l.
Proof. induction l as [|x l IH]; simpl; [constructor|]. destruct (g x); by constructor. Qed.

Lemma map_filter_sublist {A B} (f : A -> B) g l : sublist (map f (List.filter g l)) (map f l).
Proof. apply fmap_sublist, filter_sublist'. Qed.

Lemma live_nodup l : NoDup (map res_id l) -> NoDup (map res_id (live l)).
Proof. intros. eapply sublist_NoDup; [done|apply map_filter_sublist]. Qed.

Lemma posts_elem l ev id e : (id, e) ∈ posts l ev -> exists r, r ∈ l /\ res_id r = id.
Proof.
  unfold posts. rewrite list_elem_of_In, in_flat_map. intros (r & Hr & He).
  apply in_map_iff in He as (e' & [= <- <-] & _). exists r. by rewrite list_elem_of_In.
Qed.

(** Events to the live pointers of one client that take its view from [p] to [p']. *)
Lemma ptr_ok_post rv p w n c l ev p' : ptr_ok rv p w n -> rv !! c = Some l ->
  (forall r, r ∈ l -> res_live r = true ->
    foldl stream_step (Some (seat_view c p)) (ev r) = Some (seat_view c p')) ->
  (forall c', c' <> c -> seat_view c' p' = seat_view c' p) ->
  (forall c, focused_client p' = Some c -> is_Some (ptr_focused_surface p') /\ is_Some (rv !! c)) ->
  buttons_ok (buttons p') ->
  ptr_ok rv p' (w ++ posts (live l) ev) n.
Proof.
  intros [F S D A Fo B V W] Hl Hev Hother Hf Hb.
  assert (Hin : forall r, r ∈ live l -> events_of (res_id r) (posts (live l) ev) = ev r).
  { intros r. apply events_of_posts_in, live_nodup. eauto. }
  split; try done.
  - intros id e [|(r & Hr & <-)%posts_elem]%elem_of_app; [eauto|]. apply live_elem in Hr as [Hr _]. eauto.
  - intros id. rewrite stream_app.
    destruct (decide (id ∈ map res_id (live l))) as [(r & -> & Hr)%list_elem_of_fmap|Hn].
    + rewrite Hin by done. apply live_elem in Hr as [Hr Hlive].
      rewrite (W c l r) by done. by rewrite Hev.
    + rewrite events_of_posts_out by done. apply V.
  - intros c' l' r Hl' Hr Hlive. rewrite stream_app, (W c' l' r) by done.
    destruct (decide (c' = c)) as [->|Hne].
    + assert (l' = l) as -> by congruence. rewrite Hin by (by apply live_elem). by apply Hev.
    + rewrite events_of_posts_out; [simpl; by rewrite Hother|].
      intros (r' & E & [Hr' _]%live_elem)%list_elem_of_fmap. eauto.
Qed.

(** A change of the state that sends nothing and no client can see. *)
Lemma ptr_ok_silent rv p w n p' : ptr_ok rv p w n ->
  (forall c, seat_view c p' = seat_view c p) ->
  (forall c, focused_client p' = Some c -> is_Some (ptr_focused_surface p') /\ is_Some (rv !! c)) ->
  buttons_ok (buttons p') -> ptr_ok rv p' w n.
Proof. intros [F S D A Fo B V W] Hv Hf Hb. split; try done. intros. rewrite Hv. eauto. Qed.

(** ** Buttons *)

Lemma find_button_None b l : find_button b l = None -> b ∉ map button l.
Proof.
  induction l as [|x l IH]; simpl; [set_solver|]. destruct (Z.eqb_spec (button x) b); [done|].
  destruct (find_button b l); [done|]. intros _. rewrite not_elem_of_cons. auto.
Qed.

Lemma find_button_Some b l i : find_button b l = Some i -> exists x, l !! i = Some x /\ button x = b.
Proof.
  revert i. induction l as [|x l IH]; [done|]. simpl. intros i.
  destruct (Z.eqb_spec (button x) b); [intros [= <-]; eauto|].
  destruct (find_button b l) as [j|]; [|done]. intros [= <-]. apply IH. done.
Qed.

Lemma map_button_alter f i l : (forall x, button (f x) = button x) ->
  map button (alter f i l) = map button l.
Proof.
  intros Hf. revert i. induction l as [|x l IH]; intros [|i]; simpl; try done.
  - by rewrite Hf.
  - f_equal. apply IH.
Qed.

(** Dropping an entry by moving the last one into its place. *)
Lemma remove_button_perm i l x : l !! i = Some x -> remove_button i l ≡ₚ delete i l.
Proof.
  intros Hi. unfold remove_button. destruct (last l) as [y|] eqn:Hy.
  2: { apply last_None in Hy. by subst. }
  apply last_Some in Hy as [l' ->]. rewrite length_app. simpl.
  replace (length l' + 1 - 1)%nat with (length l') by lia.
  destruct (decide (i < length l')%nat) as [Hlt|Hge].
  - rewrite insert_app_l, take_app_length' by (rewrite ?length_insert; lia).
    rewrite delete_take_drop, take_app_le, drop_app_le by lia.
    rewrite insert_take_drop by lia. rewrite (Permutation_app_comm (drop _ _)). done.
  - assert (i = length l') as ->.
    { apply lookup_lt_Some in Hi. rewrite length_app in Hi. simpl in Hi. lia. }
    rewrite insert_app_r_alt, take_app_length' by lia.
    rewrite delete_take_drop, take_app_length, drop_ge by (rewrite length_app; simpl; lia).
    by rewrite app_nil_r.
Qed.

Lemma buttons_ok_alter f i l x : buttons_ok l -> (forall x, button (f x) = button x) ->
  l !! i = Some x -> 0 < n_pressed (f x) -> buttons_ok (alter f i l).
Proof.
  intros [D P C] Hf Hi Hx. split.
  - by rewrite map_button_alter.
  - apply Forall_alter; [done|]. intros y Hy _. congruence.
  - by rewrite length_alter.
Qed.

Lemma press_button_spec b l l' forward : buttons_ok l -> press_button b l = (l', forward) ->
  buttons_ok l' /\
  (if forward then (b ∉ map button l) /\ map button l' = map button l ++ [b]
   else map button l' = map button l).
Proof.
  intros Hok. unfold press_button. destruct (find_button b l) as [i|] eqn:Ef.
  - apply find_button_Some in Ef as (x & Hi & _). intros [= <- <-].
    split; [|by apply map_button_alter]. eapply buttons_ok_alter; try done. simpl.
    pose proof (Forall_lookup_1 _ _ _ _ (bo_pressed _ Hok) Hi). simpl in *. lia.
  - apply find_button_None in Ef. destruct (Nat.eqb_spec (length l) WLR_POINTER_BUTTONS_CAP).
    { by intros [= <- <-]. }
    intros [= <- <-]. destruct Hok as [D P C]. split; [|split; [done|by rewrite map_app]]. split.
    + rewrite map_app. apply NoDup_app. simpl. split_and!; [done|set_solver|apply NoDup_singleton].
    + apply Forall_app_2; [done|]. by repeat constructor.
    + rewrite length_app. simpl. lia.
Qed.

Lemma release_button_spec b l l' forward : buttons_ok l -> release_button b l = (l', forward) ->
  buttons_ok l' /\
  (if forward then b ∈ map button l /\ map button l' ≡ₚ List.filter (fun x => negb (x =? b)) (map button l)
   else map button l' = map button l).
Proof.
  intros Hok. unfold release_button. destruct (find_button b l) as [i|] eqn:Ef; [|by intros [= <- <-]].
  apply find_button_Some in Ef as (x & Hi & Hb). unfold pressed_at. rewrite Hi. simpl.
  destruct (Z.ltb_spec 0 (n_pressed x - 1)); intros [= <- <-].
  - split; [|by apply map_button_alter]. eapply buttons_ok_alter; done.
  - pose proof (remove_button_perm i l x Hi) as Hp. destruct Hok as [D P C].
    assert (Hd : map button (delete i l) = List.filter (fun x => negb (x =? b)) (map button l)).
    { subst b. clear Hp P C. revert i Hi. induction l as [|y l IH]; [done|]. simpl in D.
      apply NoDup_cons in D as [Hy D]. intros [|i]; simpl.
      - intros [= ->]. rewrite Z.eqb_refl. simpl. symmetry. apply forallb_filter_id, forallb_forall.
        intros z Hz%list_elem_of_In. apply negb_true_iff, Z.eqb_neq. intros ->. done.
      - intros Hi. rewrite (proj2 (Z.eqb_neq (button y) (button x))); [simpl; f_equal; by apply IH|].
        intros E. apply Hy. rewrite E. apply list_elem_of_fmap. eauto using list_elem_of_lookup_2. }
    split; [split|split].
    + rewrite Hp, Hd. by apply NoDup_ListNoDup, List.NoDup_filter, NoDup_ListNoDup.
    + rewrite Hp. by apply Forall_delete.
    + rewrite Hp. rewrite length_delete by eauto. lia.
    + rewrite <- Hb. apply list_elem_of_fmap. eauto using list_elem_of_lookup_2.
    + by rewrite Hp, Hd.
Qed.

Lemma held_press l l' b : map button l' = map button l ++ [b] ->
  button_set l' = {[b]} ∪ button_set l.
Proof. unfold button_set. intros ->. set_solver. Qed.

Lemma held_release l l' b :
  map button l' ≡ₚ List.filter (fun x => negb (x =? b)) (map button l) ->
  button_set l' = button_set l ∖ {[b]}.
Proof.
  unfold button_set. intros ->. apply set_eq. intros x.
  rewrite elem_of_difference, !elem_of_list_to_set, !list_elem_of_In, filter_In, elem_of_singleton.
  rewrite negb_true_iff, Z.eqb_neq. done.
Qed.

(** ** Steps *)

Definition ptr_inv (s : wlr_seat) : Prop :=
  ptr_ok (res_view s) (pointer_state s) (wire s) (next_resource s).

Definition same_but_wire (s s' : wlr_seat) : Prop :=
  res_view s' = res_view s /\ pointer_state s' = pointer_state s /\ next_resource s' = next_resource s.

Lemma res_view_upd_client c f s : (forall x, sc_pointers (f x) = sc_pointers x) ->
  res_view (upd_client c f s) = res_view s.
Proof.
  intros Hf. unfold res_view, upd_client, modify. simpl. apply map_eq. intros i.
  rewrite !lookup_fmap. destruct (decide (i = c)) as [->|].
  - rewrite lookup_alter_eq. destruct (_ !! c); simpl; by rewrite ?Hf.
  - by rewrite lookup_alter_ne.
Qed.

Lemma next_serial_same c s s' n : next_serial c s = (s', n) ->
  same_but_wire s s' /\ wire s' = wire s.
Proof.
  unfold next_serial. destruct (wlr_seat_client_next_serial _ _) as [[d set] m].
  intros [= <- <-]. split; [|done]. split; [|done]. by rewrite res_view_upd_client.
Qed.

Lemma pointers_of_view c s : pointers_of c s = default [] (res_view s !! c).
Proof. unfold pointers_of, res_view. rewrite lookup_fmap. by destruct (_ !! c). Qed.

Lemma post_all_same l ev s : same_but_wire s (post_all l ev s) /\
  wire (post_all l ev s) = wire s ++ posts l ev.
Proof. done. Qed.

Lemma same_trans s1 s2 s3 : same_but_wire s1 s2 -> same_but_wire s2 s3 -> same_but_wire s1 s3.
Proof. unfold same_but_wire. intuition congruence. Qed.

Definition leave_ev (serial : Z) (f : nat) (r : resource) : list wl_event :=
  PLeave serial f :: frame_ev r.
Definition enter_ev (serial : Z) (f : nat) (x y : Z) (r : resource) : list wl_event :=
  PEnter serial f x y :: frame_ev r.

(** A loop that takes a serial and posts to the live pointers of a client. *)
Lemma serial_posts c s f ev s1 n : next_serial c s = (s1, n) -> posting f ev ->
  let s' := for_each (live (pointers_of c s1)) f s1 in
  same_but_wire s s' /\ wire s' = wire s ++ posts (live (default [] (res_view s !! c))) ev.
Proof.
  intros (Hsame & Hw)%next_serial_same Hf. cbv zeta. rewrite (for_each_posts f ev) by done.
  rewrite pointers_of_view. destruct Hsame as (Hr & Hp & Hn). rewrite Hr.
  split; [by split|]. simpl. by rewrite Hw.
Qed.

Lemma leave_raw_same c f s : exists n, let s' := seat_client_send_pointer_leave_raw c f s in
  same_but_wire s s' /\ wire s' = wire s ++ posts (live (default [] (res_view s !! c))) (leave_ev n f).
Proof.
  unfold seat_client_send_pointer_leave_raw. destruct (next_serial c s) as [s1 n] eqn:En.
  exists n. apply (serial_posts _ _ _ _ _ _ En), posting_framed.
Qed.

Lemma foldl_frame v r : foldl stream_step (Some v) (frame_ev r) = Some v.
Proof. unfold frame_ev. by destruct (5 <=? _). Qed.

(** Leaving the focused surface. *)
Definition unfocused (p : wlr_seat_pointer_state) : wlr_seat_pointer_state :=
  p <{ focused_client := None }> <{ ptr_focused_surface := None }>.

Lemma ptr_ok_leave rv p w n c f k : ptr_ok rv p w n ->
  focused_client p = Some c -> ptr_focused_surface p = Some f ->
  ptr_ok rv (unfocused p) (w ++ posts (live (default [] (rv !! c))) (leave_ev k f)) n.
Proof.
  intros Hok Hc Hf. destruct (po_focus _ _ _ _ Hok c Hc) as [_ [l Hl]]. rewrite Hl. simpl.
  eapply (ptr_ok_post _ p); try done.
  - intros r _ _. unfold seat_view. rewrite Hc, Hf, bool_decide_true by done. simpl.
    rewrite Nat.eqb_refl. apply foldl_frame.
  - intros c' Hne. unfold seat_view. simpl. rewrite Hc.
    rewrite !bool_decide_false by congruence. done.
  - apply (po_buttons _ _ _ _ Hok).
Qed.

Lemma ptr_ok_unfocused rv p w n : ptr_ok rv p w n -> focused_client p = None ->
  ptr_ok rv (unfocused p) w n.
Proof.
  intros Hok Hc. apply (ptr_ok_silent _ p); try done.
  - intros c. unfold seat_view. simpl. by rewrite Hc, !bool_decide_false by done.
  - apply (po_buttons _ _ _ _ Hok).
Qed.

(** Entering a surface from nowhere, with no button down. *)
Definition focused_on (client surface : option nat) (xy : option (Q * Q)) (p : wlr_seat_pointer_state)
    : wlr_seat_pointer_state :=
  p <{ focused_client := client }> <{ ptr_focused_surface := surface }> <{ ps_xy := xy }>
    <{ buttons := [] }>.

Lemma buttons_ok_nil : buttons_ok [].
Proof. split; [constructor|constructor|simpl; unfold WLR_POINTER_BUTTONS_CAP; lia]. Qed.

Lemma ptr_ok_enter rv p w n c f k x y xy : ptr_ok rv p w n -> focused_client p = None ->
  is_Some (rv !! c) ->
  ptr_ok rv (focused_on (Some c) (Some f) xy p)
    (w ++ posts (live (default [] (rv !! c))) (enter_ev k f x y)) n.
Proof.
  intros Hok Hc [l Hl]. rewrite Hl. simpl. eapply (ptr_ok_post _ p); try done.
  - intros r _ _. unfold seat_view. rewrite Hc. simpl. rewrite bool_decide_true by done. simpl.
    apply foldl_frame.
  - intros c' Hne. unfold seat_view. simpl. rewrite Hc, !bool_decide_false by congruence. done.
  - intros c' [= ->]. simpl. eauto.
  - apply buttons_ok_nil.
Qed.

Lemma ptr_ok_nobody rv p w n f xy : ptr_ok rv p w n -> focused_client p = None ->
  ptr_ok rv (focused_on None f xy p) w n.
Proof.
  intros Hok Hc. apply (ptr_ok_silent _ p); try done; [|apply buttons_ok_nil].
  intros c. unfold seat_view. simpl. by rewrite Hc, !bool_decide_false by done.
Qed.

Section Preservation.
Variable surface_client : nat -> nat.

Lemma enter_inv surface sx sy s : ptr_inv s -> ptr_focused_surface (pointer_state s) <> surface ->
  let s' := wlr_seat_pointer_enter surface_client surface sx sy s in
  ptr_inv (reset_buttons s') /\ buttons (pointer_state s') = buttons (pointer_state s) /\
  ptr_focused_surface (pointer_state s') = surface /\
  focused_client (pointer_state s') = client_of surface_client surface s.
Proof.
  intros Hok Hne. unfold wlr_seat_pointer_enter. rewrite bool_decide_false by done. cbv zeta.
  set (client := client_of _ surface s).
  set (s1 := match focused_client _ with Some _ => _ | None => _ end).
  assert (Hs1 : same_but_wire s s1 /\
    ptr_ok (res_view s) (unfocused (pointer_state s)) (wire s1) (next_resource s)).
  { subst s1. destruct (focused_client (pointer_state s)) as [c|] eqn:Hc.
    - destruct (po_focus _ _ _ _ Hok c Hc) as [[f Hf] _]. rewrite Hf.
      destruct (leave_raw_same c f s) as (k & Hsame & Hw). split; [done|]. rewrite Hw.
      by apply ptr_ok_leave.
    - split; [done|]. by apply ptr_ok_unfocused. }
  clearbody s1. destruct Hs1 as [Hsame Hok1].
  set (s2 := match client with Some _ => _ | None => _ end).
  assert (Hs2 : same_but_wire s s2 /\ forall xy,
    ptr_ok (res_view s) (focused_on client surface xy (pointer_state s)) (wire s2) (next_resource s)).
  { subst s2 client. unfold client_of. destruct surface as [f|]; [|split; [done|]].
    2: { intros. by apply (ptr_ok_nobody _ (unfocused (pointer_state s))). }
    destruct (seat_clients s !! surface_client f) as [sc|] eqn:Hsc; [|split; [done|]].
    2: { intros. by apply (ptr_ok_nobody _ (unfocused (pointer_state s))). }
    destruct (next_serial (surface_client f) s1) as [s3 k] eqn:En.
    destruct (serial_posts _ _ _ _ _ _ En (posting_framed
      (PEnter k f (wl_fixed_from_double sx) (wl_fixed_from_double sy)))) as [Hsame2 Hw].
    split; [by eapply same_trans|]. intros xy. rewrite Hw. destruct Hsame as (-> & _ & _).
    apply (ptr_ok_enter _ (unfocused (pointer_state s))); [done|done|].
    unfold res_view. rewrite lookup_fmap, Hsc. eauto. }
  clearbody s2. destruct Hs2 as [(Hr & Hp & Hn) Hok2].
  split; [|simpl; by rewrite Hp]. unfold ptr_inv. simpl. rewrite Hp, Hn.
  change (res_view _) with (res_view s2). rewrite Hr. apply Hok2.
Qed.

Lemma enter_same surface sx sy s : ptr_focused_surface (pointer_state s) = surface ->
  wlr_seat_pointer_enter surface_client surface sx sy s = s.
Proof. intros. unfold wlr_seat_pointer_enter. by rewrite bool_decide_true. Qed.

Lemma notify_enter_inv f sx sy s : ptr_inv s ->
  ptr_inv (wlr_seat_pointer_notify_enter surface_client f sx sy s).
Proof.
  intros Hok. unfold wlr_seat_pointer_notify_enter.
  destruct (decide (ptr_focused_surface (pointer_state s) = Some f)) as [E|E].
  - rewrite enter_same by done. by rewrite bool_decide_false by naive_solver.
  - destruct (enter_inv (Some f) sx sy s Hok E) as (Hok' & _ & Ef & _).
    rewrite bool_decide_true by congruence. done.
Qed.

Lemma clear_focus_inv s : ptr_inv s -> ptr_inv (wlr_seat_pointer_clear_focus surface_client s).
Proof.
  intros Hok. unfold wlr_seat_pointer_clear_focus.
  destruct (decide (ptr_focused_surface (pointer_state s) = None)) as [E|E].
  - by rewrite enter_same.
  - destruct (enter_inv None 0 0 s Hok E) as (Hok' & Hb & _ & Hc). simpl in Hc.
    set (s' := wlr_seat_pointer_enter _ _ _ _ _) in *. clearbody s'.
    refine (ptr_ok_silent _ _ _ _ _ Hok' _ _ _).
    + intros c. unfold seat_view. simpl. by rewrite Hc.
    + intros c. by rewrite Hc.
    + rewrite Hb. apply (po_buttons _ _ _ _ Hok).
Qed.

Lemma reset_unfocused_inv s : ptr_inv s -> focused_client (pointer_state s) = None ->
  ptr_inv (reset_buttons s).
Proof.
  intros Hok Hc. refine (ptr_ok_silent _ _ _ _ _ Hok _ _ _).
  - intros c. unfold seat_view. simpl. by rewrite Hc.
  - intros c. simpl. by rewrite Hc.
  - apply buttons_ok_nil.
Qed.

Lemma cleared_focus s : ptr_inv s ->
  focused_client (pointer_state (wlr_seat_pointer_clear_focus surface_client s)) = None.
Proof.
  intros Hok. unfold wlr_seat_pointer_clear_focus.
  destruct (decide (ptr_focused_surface (pointer_state s) = None)) as [E|E].
  - rewrite enter_same by done.
    destruct (focused_client _) as [c|] eqn:Hc; [|done].
    destruct (po_focus _ _ _ _ Hok c Hc) as [[f Hf] _]. congruence.
  - apply (enter_inv None 0 0 s Hok E).
Qed.

Lemma notify_clear_focus_inv s : ptr_inv s ->
  ptr_inv (wlr_seat_pointer_notify_clear_focus surface_client s).
Proof.
  intros Hok. unfold wlr_seat_pointer_notify_clear_focus. case_ifs.
  - apply reset_unfocused_inv; auto using clear_focus_inv, cleared_focus.
  - by apply clear_focus_inv.
Qed.

(** Events of a pointer on a surface that change neither surface nor buttons. *)
Definition passive (e : wl_event) : Prop := forall x, stream_step (Some (Some x)) e = Some (Some x).

Lemma foldl_passive l x : Forall passive l -> foldl stream_step (Some (Some x)) l = Some (Some x).
Proof. induction 1 as [|e l He Hl IH]; [done|]. cbn [foldl]. by rewrite He. Qed.

(** The fields of the pointer state that clients can see stay. *)
Definition same_focus (p p' : wlr_seat_pointer_state) : Prop :=
  focused_client p' = focused_client p /\ ptr_focused_surface p' = ptr_focused_surface p /\
  buttons p' = buttons p.

Lemma same_focus_view p p' c : same_focus p p' -> seat_view c p' = seat_view c p.
Proof. intros (H1 & H2 & H3). unfold seat_view, held_set. by rewrite H1, H2, H3. Qed.

Lemma ptr_ok_passive rv p w n c ev p' : ptr_ok rv p w n -> focused_client p = Some c ->
  (forall r, Forall passive (ev r)) -> same_focus p p' ->
  ptr_ok rv p' (w ++ posts (live (default [] (rv !! c))) ev) n.
Proof.
  intros Hok Hc Hev Hp. destruct (po_focus _ _ _ _ Hok c Hc) as [[f Hf] [l Hl]]. rewrite Hl. simpl.
  eapply (ptr_ok_post _ p); try done.
  - intros r _ _. rewrite (same_focus_view p p') by done. unfold seat_view.
    rewrite Hc, Hf, bool_decide_true by done. by apply foldl_passive.
  - intros. by apply same_focus_view.
  - intros c'. destruct Hp as (-> & -> & _). apply (po_focus _ _ _ _ Hok).
  - destruct Hp as (_ & _ & ->). apply (po_buttons _ _ _ _ Hok).
Qed.

Lemma ptr_ok_same_focus rv p w n p' : ptr_ok rv p w n -> same_focus p p' -> ptr_ok rv p' w n.
Proof.
  intros Hok Hp. apply (ptr_ok_silent _ p); try done.
  - intros. by apply same_focus_view.
  - intros c'. destruct Hp as (-> & -> & _). apply (po_focus _ _ _ _ Hok).
  - destruct Hp as (_ & _ & ->). apply (po_buttons _ _ _ _ Hok).
Qed.

Lemma motion_inv t sx sy s : ptr_inv s -> ptr_inv (wlr_seat_pointer_notify_motion t sx sy s).
Proof.
  intros Hok. unfold wlr_seat_pointer_notify_motion, wlr_seat_pointer_send_motion.
  destruct (focused_client (pointer_state s)) as [c|] eqn:Hc; [|done].
  set (fixed := fixed_xy _). case_ifs; [|by apply (ptr_ok_same_focus _ _ _ _ _ Hok)].
  rewrite (for_each_posts _ (fun _ => [PMotion t fixed.1 fixed.2])) by apply (posting_one (fun _ => _)).
  rewrite pointers_of_view. apply (ptr_ok_passive _ _ _ _ _ _ _ Hok); [done| |done].
  intros r. by repeat constructor.
Qed.

Lemma frame_inv s : ptr_inv s -> ptr_inv (wlr_seat_pointer_notify_frame s).
Proof.
  intros Hok. unfold wlr_seat_pointer_notify_frame, wlr_seat_pointer_send_frame.
  destruct (focused_client (pointer_state s)) as [c|] eqn:Hc; [|done].
  rewrite (for_each_posts _ _ _ _ posting_frame), pointers_of_view.
  apply (ptr_ok_passive _ _ _ _ _ _ _ Hok); [done| |done].
  intros r. unfold frame_ev. destruct (5 <=? _); by repeat constructor.
Qed.

Lemma axis_events_passive r t a v d src dir snd lv ld :
  Forall passive (axis_events r t a v d src dir snd lv ld).
Proof. unfold axis_events. case_ifs; simpl; repeat (constructor; try done). Qed.

Lemma axis_inv t a v d src dir s s' : ptr_inv s ->
  wlr_seat_pointer_notify_axis t a v d src dir s = Some s' -> ptr_inv s'.
Proof.
  intros Hok. unfold wlr_seat_pointer_notify_axis, wlr_seat_pointer_send_axis.
  destruct (focused_client (pointer_state s)) as [c|] eqn:Hc; [|by intros [= <-]].
  case_ifs; [done|]. destruct (update_value120_accumulators _ _ _) as [[v' lv] ld]. intros [= <-].
  set (s1 := upd_client _ _ _).
  assert (Hr : res_view s1 = res_view s) by (subst s1; by rewrite res_view_upd_client).
  rewrite (for_each_posts _ _ _ _ (posting_list _)), pointers_of_view, Hr.
  unfold ptr_inv. change (res_view (post_all _ _ s1)) with (res_view s1). rewrite Hr.
  apply (ptr_ok_passive _ _ _ _ _ _ _ Hok); [done| |done]. intros r. apply axis_events_passive.
Qed.

(** A press or release that is sent on to the focused client. *)
Lemma send_button_inv t b (pressed : bool) held s s' n : ptr_inv s -> buttons_ok held ->
  (if pressed then (b ∉ held_set (pointer_state s)) /\
     button_set held = {[b]} ∪ held_set (pointer_state s)
   else b ∈ held_set (pointer_state s) /\
     button_set held = held_set (pointer_state s) ∖ {[b]}) ->
  wlr_seat_pointer_send_button t b pressed (upd_ptr (fun p => p <{ buttons := held }>) s) = (s', n) ->
  ptr_inv s'.
Proof.
  intros Hok Hb Hheld. unfold wlr_seat_pointer_send_button.
  change (focused_client (pointer_state (upd_ptr _ s))) with (focused_client (pointer_state s)).
  destruct (focused_client (pointer_state s)) as [c|] eqn:Hc.
  2: { intros [= <- <-]. apply (ptr_ok_silent _ _ _ _ _ Hok); [| |done].
       - intros c. unfold seat_view. simpl. by rewrite Hc.
       - intros c. simpl. by rewrite Hc. }
  match goal with |- context [next_serial c ?x] => destruct (next_serial c x) as [s1 k] eqn:En end.
  intros [= <- <-]. destruct (serial_posts _ _ _ _ _ _ En (posting_one (fun _ => PButton k t b pressed)))
    as [(Hr & Hp & Hn) Hw].
  destruct (po_focus _ _ _ _ Hok c Hc) as [[f Hf] [l Hl]].
  unfold ptr_inv. rewrite Hr, Hp, Hn, Hw. change (res_view (upd_ptr _ s)) with (res_view s).
  rewrite Hl. eapply (ptr_ok_post _ (pointer_state s)); try done.
  - intros r _ _. unfold seat_view. simpl. rewrite Hc, Hf, bool_decide_true by done. simpl.
    unfold held_set in *. simpl in *. destruct pressed; destruct Hheld as [Hin ->].
    + by rewrite decide_False.
    + by rewrite decide_True.
  - intros c' Hne. unfold seat_view. simpl. by rewrite Hc, !bool_decide_false by congruence.
  - intros c' [= <-]%(eq_trans (eq_sym Hc)). simpl. rewrite Hf, Hl. eauto.
Qed.

Lemma button_inv t b pressed s : ptr_inv s ->
  ptr_inv (wlr_seat_pointer_notify_button t b pressed s).1.
Proof.
  intros Hok. unfold wlr_seat_pointer_notify_button. set (s0 := if pressed && _ then _ else _).
  assert (Hok0 : ptr_inv s0 /\ buttons (pointer_state s0) = buttons (pointer_state s)).
  { subst s0. case_ifs; [|done]. split; [|done]. by apply (ptr_ok_same_focus _ _ _ _ _ Hok). }
  clearbody s0. destruct Hok0 as [Hok0 Eb]. rewrite <- Eb. clear s Hok Eb. set (p := pointer_state s0).
  destruct (if pressed then _ else _) as [held forward] eqn:E.
  assert (Hspec : buttons_ok held /\ (if forward then
     (if pressed then (b ∉ held_set p) /\ button_set held = {[b]} ∪ held_set p
      else b ∈ held_set p /\ button_set held = held_set p ∖ {[b]})
     else map button held = map button (buttons p))).
  { destruct pressed.
    - apply press_button_spec in E as [Hb H]; [|apply (po_buttons _ _ _ _ Hok0)]. split; [done|].
      destruct forward; [|done]. destruct H as [Hn Hm]. split; [unfold held_set, button_set; set_solver|].
      by apply held_press.
    - apply release_button_spec in E as [Hb H]; [|apply (po_buttons _ _ _ _ Hok0)]. split; [done|].
      destruct forward; [|done]. destruct H as [Hn Hm]. split; [unfold held_set, button_set; set_solver|].
      by apply held_release. }
  destruct Hspec as [Hb Hspec]. destruct forward; simpl.
  - destruct (wlr_seat_pointer_send_button t b pressed _) as [s' n] eqn:Es.
    assert (Hok' : ptr_inv s') by (by eapply send_button_inv).
    case_ifs; [|done]. by apply (ptr_ok_same_focus _ _ _ _ _ Hok').
  - apply (ptr_ok_silent _ _ _ _ _ Hok0); [| |done].
    + intros c. unfold seat_view, held_set, button_set. simpl. by rewrite Hspec.
    + apply (po_focus _ _ _ _ Hok0).
Qed.

(** Clients come and go: no object is added, and those that stay see no change. *)
Lemma ptr_ok_fewer rv p w n rv' p' : ptr_ok rv p w n ->
  (forall c, sublist (default [] (rv' !! c)) (default [] (rv !! c))) ->
  (forall c, is_Some (rv' !! c) -> seat_view c p' = seat_view c p) ->
  (forall c, focused_client p' = Some c -> is_Some (ptr_focused_surface p') /\ is_Some (rv' !! c)) ->
  buttons p' = buttons p -> ptr_ok rv' p' w n.
Proof.
  intros [F S D A Fo B V W] Hsub Hv Hf Hb.
  assert (Hold : forall c l' r, rv' !! c = Some l' -> r ∈ l' -> exists l, rv !! c = Some l /\ r ∈ l).
  { intros c l' r Hl Hr. specialize (Hsub c). rewrite Hl in Hsub. simpl in Hsub.
    eapply elem_of_sublist in Hr; [|done].
    destruct (rv !! c) as [l|]; simpl in Hr; [eauto|by apply elem_of_nil in Hr]. }
  split; try done.
  - intros c l r Hl Hr. destruct (Hold c l r Hl Hr) as (l0 & ? & ?). eauto.
  - intros c l Hl. specialize (Hsub c). rewrite Hl in Hsub. simpl in Hsub.
    destruct (rv !! c) as [l0|] eqn:E; simpl in Hsub.
    + eapply sublist_NoDup; [by eapply D|]. by apply fmap_sublist.
    + apply sublist_nil_r in Hsub as ->. constructor.
  - intros c c' l l' r r' Hl Hl' Hr Hr'.
    destruct (Hold c l r Hl Hr) as (l0 & ? & ?), (Hold c' l' r' Hl' Hr') as (l1 & ? & ?). eauto.
  - by rewrite Hb.
  - intros c l r Hl Hr Hlive. rewrite Hv by eauto.
    destruct (Hold c l r Hl Hr) as (l0 & ? & ?). eauto.
Qed.

(** The focused client is the one of the focused surface, and the seat knows where
    the pointer is on it. *)
Definition anchored (p : wlr_seat_pointer_state) : Prop :=
  forall f, ptr_focused_surface p = Some f ->
    is_Some (ps_xy p) /\ forall c, focused_client p = Some c -> surface_client f = c.

Lemma bind_inv c s : ptr_inv s -> anchored (pointer_state s) -> seat_clients s !! c = None ->
  ptr_inv (seat_client_create surface_client c s).
Proof.
  intros Hok Han Hc. unfold seat_client_create. set (s1 := s <{ seat_clients ::= _ }>).
  assert (Hsub : forall c', sublist (default [] (res_view s1 !! c')) (default [] (res_view s !! c'))).
  { intros c'. unfold res_view. subst s1. simpl. rewrite !lookup_fmap.
    destruct (decide (c' = c)) as [->|]; [rewrite lookup_insert_eq, Hc|rewrite lookup_insert_ne]; done. }
  assert (Hkeep : forall c', focused_client (pointer_state s) = Some c' ->
    is_Some (ptr_focused_surface (pointer_state s)) /\ is_Some (res_view s1 !! c')).
  { intros c' Hc'. destruct (po_focus _ _ _ _ Hok c' Hc') as [? Hl]. split; [done|].
    unfold res_view in *. subst s1. simpl. rewrite lookup_fmap in *.
    destruct (decide (c' = c)) as [->|]; [rewrite lookup_insert_eq|rewrite lookup_insert_ne]; eauto. }
  assert (Hok1 : ptr_inv s1) by (by apply (ptr_ok_fewer _ _ _ _ _ _ Hok)).
  change (pointer_state s1) with (pointer_state s).
  destruct (ptr_focused_surface (pointer_state s)) as [f|] eqn:Ef; [|done].
  destruct (Nat.eqb_spec (surface_client f) c) as [Hsc|]; [|done].
  assert (Hnone : focused_client (pointer_state s) = None).
  { destruct (focused_client (pointer_state s)) as [c0|] eqn:E0; [|done].
    destruct (Han f Ef) as [_ Ha]. specialize (Ha c0 E0).
    destruct (po_focus _ _ _ _ Hok c0 E0) as [_ Hl]. unfold res_view in Hl. rewrite lookup_fmap in Hl.
    assert (c0 = c) as -> by congruence. rewrite Hc in Hl. by destruct Hl. }
  (* nothing was sent to the client, which has no object yet *)
  destruct Hok1 as [F S D A Fo B V W]. split; try done.
  - intros c' [= <-]. simpl. rewrite Ef. split; [done|]. unfold res_view. subst s1. simpl.
    rewrite lookup_fmap, lookup_insert_eq. done.
  - intros c' l r Hl Hr Hlive. etransitivity; [exact (W c' l r Hl Hr Hlive)|]. unfold seat_view. simpl. rewrite Hnone.
    destruct (decide (c' = c)) as [->|]; [|by rewrite !bool_decide_false by congruence].
    unfold res_view in Hl. subst s1. simpl in Hl. rewrite lookup_fmap, lookup_insert_eq in Hl. injection Hl as <-.
    by apply elem_of_nil in Hr.
Qed.

Lemma unbind_inv c s : ptr_inv s -> ptr_inv (seat_client_destroy c s).
Proof.
  intros Hok. apply (ptr_ok_fewer _ _ _ _ _ _ Hok); unfold res_view; simpl.
  - intros c'. rewrite !lookup_fmap. destruct (decide (c' = c)) as [->|].
    + rewrite lookup_delete_eq. simpl. apply sublist_nil_l.
    + by rewrite lookup_delete_ne.
  - intros c'. rewrite lookup_fmap. destruct (decide (c' = c)) as [->|Hne].
    { rewrite lookup_delete_eq. by intros [? ?]. }
    intros _. case_ifs; [|done]. apply bool_decide_eq_true in E. unfold seat_view. simpl.
    by rewrite E, !bool_decide_false by congruence.
  - intros c' Hc'. rewrite lookup_fmap. case_ifs; [done|].
    destruct (po_focus _ _ _ _ Hok c' Hc') as [? Hl]. split; [done|].
    unfold res_view in Hl. rewrite lookup_fmap in Hl. rewrite lookup_delete_ne; [done|].
    intros ->. by apply bool_decide_eq_false in E.
  - by case_ifs.
Qed.

Lemma res_view_upd c f g s : (forall x, sc_pointers (f x) = g (sc_pointers x)) ->
  res_view (upd_client c f s) = alter g c (res_view s).
Proof.
  intros Hf. unfold res_view, upd_client, modify. simpl. apply map_eq. intros i.
  rewrite lookup_fmap. destruct (decide (i = c)) as [->|].
  - rewrite !lookup_alter_eq, lookup_fmap. destruct (_ !! c); simpl; by rewrite ?Hf.
  - by rewrite !lookup_alter_ne, lookup_fmap.
Qed.

Lemma release_inv c id s : ptr_inv s -> ptr_inv (seat_client_destroy_pointer c id s).
Proof.
  intros Hok. unfold ptr_inv, seat_client_destroy_pointer.
  rewrite (res_view_upd _ _ (List.filter (fun r => negb (res_id r =? id)%nat))) by done.
  apply (ptr_ok_fewer _ _ _ _ _ _ Hok); try done.
  - intros c'. destruct (decide (c' = c)) as [->|]; [|by rewrite lookup_alter_ne].
    rewrite lookup_alter_eq. destruct (_ !! c) as [l|]; [|done]. simpl.
    apply filter_sublist'.
  - intros c' Hc'. destruct (po_focus _ _ _ _ Hok c' Hc') as [? Hl]. split; [done|].
    destruct (decide (c' = c)) as [->|]; [|by rewrite lookup_alter_ne].
    rewrite lookup_alter_eq. by apply fmap_is_Some.
Qed.

Lemma stream_fresh id w n : (forall i e, (i, e) ∈ w -> (i < n)%nat) -> (n <= id)%nat ->
  stream id w = Some None.
Proof.
  intros Hw Hn. unfold stream, events_of. replace (List.filter _ w) with (@nil (nat * wl_event)); [done|].
  symmetry. induction w as [|[i e] w IH]; [done|]. simpl.
  assert (i < n)%nat by (eapply Hw; left). rewrite (proj2 (Nat.eqb_neq i id)) by lia.
  apply IH. intros. eapply Hw. by right.
Qed.

Lemma events_of_one id n evs : events_of id (map (pair n) evs) = if (n =? id)%nat then evs else [].
Proof.
  unfold events_of. induction evs as [|e evs IH]; simpl; [by destruct (n =? id)%nat|].
  destruct (n =? id)%nat; simpl; by rewrite IH.
Qed.

(** A new object, which is told [evs]. *)
Lemma ptr_ok_object rv p w n c v b evs : ptr_ok rv p w n ->
  (if b : bool then foldl stream_step (Some None) evs = Some (seat_view c p) else evs = []) ->
  ptr_ok (alter (cons (Res n v b)) c rv) p (w ++ map (pair n) evs) (S n).
Proof.
  intros [F S D A Fo B V W] Hev.
  assert (Hold : forall c' l r, alter (cons (Res n v b)) c rv !! c' = Some l -> r ∈ l ->
    (c' = c /\ r = Res n v b) \/ exists l0, rv !! c' = Some l0 /\ r ∈ l0).
  { intros c' l r. destruct (decide (c' = c)) as [->|]; [|rewrite lookup_alter_ne; eauto].
    rewrite lookup_alter_eq. destruct (rv !! c) as [l0|]; [|done]. intros [= <-] [->|]%elem_of_cons; eauto. }
  assert (Hnew : stream n (w ++ map (pair n) evs) = foldl stream_step (Some None) evs).
  { rewrite stream_app, events_of_one, Nat.eqb_refl, (stream_fresh _ _ n) by (done || lia). done. }
  assert (Hothers : forall id, id <> n -> stream id (w ++ map (pair n) evs) = stream id w).
  { intros id Hne. rewrite stream_app, events_of_one. by rewrite (proj2 (Nat.eqb_neq n id)) by done. }
  split; try done.
  - intros c' l r Hl Hr. destruct (Hold c' l r Hl Hr) as [[_ ->]|(l0 & ? & ?)]; [simpl; lia|].
    assert (res_id r < n)%nat by eauto. lia.
  - intros id e [He%S|(x & [= <- <-] & _)%list_elem_of_fmap]%elem_of_app; lia.
  - intros c' l. destruct (decide (c' = c)) as [->|]; [|rewrite lookup_alter_ne; eauto].
    rewrite lookup_alter_eq. destruct (rv !! c) as [l0|] eqn:E; [|done]. intros [= <-]. simpl.
    apply NoDup_cons. split; [|eauto]. intros (r & Hr & Hin)%list_elem_of_fmap.
    assert (res_id r < n)%nat by eauto. lia.
  - intros c1 c2 l1 l2 r1 r2 H1 H2 Hr1 Hr2 E.
    destruct (Hold c1 l1 r1 H1 Hr1) as [[-> ->]|(l3 & ? & ?)],
      (Hold c2 l2 r2 H2 Hr2) as [[-> ->]|(l4 & ? & ?)]; simpl in E; [done| | |eauto].
    + assert (res_id r2 < n)%nat by eauto. lia.
    + assert (res_id r1 < n)%nat by eauto. lia.
  - intros c' Hf. destruct (Fo c' Hf) as [? ?]. split; [done|].
    destruct (decide (c' = c)) as [->|]; [|by rewrite lookup_alter_ne].
    rewrite lookup_alter_eq. by apply fmap_is_Some.
  - intros id. destruct (decide (id = n)) as [->|Hne]; [|by rewrite Hothers].
    rewrite Hnew. destruct b; [by rewrite Hev|by rewrite Hev].
  - intros c' l r Hl Hr Hlive. destruct (Hold c' l r Hl Hr) as [[-> ->]|(l0 & ? & ?)]; simpl in *.
    + subst b. by rewrite Hnew.
    + rewrite Hothers; [eauto|]. assert (res_id r < n)%nat by eauto. lia.
Qed.

(** A client asks for a pointer: it does not have it, or no button is down. *)
Lemma get_pointer_inv c v s : ptr_inv s -> anchored (pointer_state s) ->
  focused_client (pointer_state s) <> Some c \/ buttons (pointer_state s) = [] ->
  ptr_inv (seat_client_create_pointer c v s).
Proof.
  intros Hok Han Hc. unfold seat_client_create_pointer. set (r := Res _ _ _). set (s1 := upd_client _ _ _).
  assert (Hobj : forall evs, (if has_pointer s then foldl stream_step (Some None) evs = Some (seat_view c (pointer_state s)) else evs = []) ->
    ptr_ok (res_view s1) (pointer_state s) (wire s ++ map (pair (next_resource s)) evs) (S (next_resource s))).
  { intros evs Hev. subst s1. rewrite (res_view_upd _ _ (cons r)) by done. by apply ptr_ok_object. }
  change (has_pointer s1) with (has_pointer s). change (pointer_state s1) with (pointer_state s).
  destruct (has_pointer s) eqn:Eh; cbn [negb].
  2: { specialize (Hobj [] eq_refl). by rewrite app_nil_r in Hobj. }
  assert (Hplain : seat_view c (pointer_state s) = None -> ptr_inv s1).
  { intros Hv. specialize (Hobj []). simpl in Hobj. rewrite Hv, app_nil_r in Hobj. by apply Hobj. }
  destruct (ptr_focused_surface (pointer_state s)) as [f|] eqn:Ef.
  2: { apply Hplain. unfold seat_view. rewrite Ef. by destruct (bool_decide _). }
  destruct (Han f Ef) as [[[x y] Exy] _]. rewrite Exy.
  case_bool_decide as Hfc; [|apply Hplain; unfold seat_view; by rewrite bool_decide_false].
  destruct Hc as [Hc|Hb]; [done|]. destruct (next_serial c s1) as [s2 k] eqn:En.
  apply next_serial_same in En as [(Er & Ep & Enr) Ew].
  assert (Hev : forall fr : bool, foldl stream_step (Some None)
    (PEnter k f (wl_fixed_from_double x) (wl_fixed_from_double y) :: if fr then [PFrame] else []) = Some (seat_view c (pointer_state s))).
  { intros fr. unfold seat_view, held_set, button_set. rewrite bool_decide_true, Ef, Hb by done. by destruct fr. }
  specialize (fun fr => Hobj _ (Hev fr)). unfold ptr_inv. destruct (5 <=? v); [specialize (Hobj true)|specialize (Hobj false)];
    simpl in *; rewrite Ep, Enr, Ew; change (res_view _) with (res_view s2); rewrite Er.
  - rewrite <- app_assoc. exact Hobj.
  - exact Hobj.
Qed.

Lemma anchored_same s s' : same_but_wire s s' -> anchored (pointer_state s) -> anchored (pointer_state s').
Proof. by intros (_ & -> & _). Qed.

Lemma for_each_pointer l f ev s : posting f ev -> pointer_state (for_each l f s) = pointer_state s.
Proof. intros Hf. by rewrite (for_each_posts f ev) by done. Qed.

Lemma enter_anchored surface sx sy s : anchored (pointer_state s) ->
  anchored (pointer_state (wlr_seat_pointer_enter surface_client surface sx sy s)).
Proof.
  intros Han. unfold wlr_seat_pointer_enter. case_bool_decide; [done|]. cbv zeta.
  intros f. simpl. intros ->. simpl. split; [done|]. intros c. unfold client_of.
  by destruct (seat_clients s !! surface_client f); intros [= <-].
Qed.

Lemma button_anchored t b pressed s : anchored (pointer_state s) ->
  anchored (pointer_state (wlr_seat_pointer_notify_button t b pressed s).1).
Proof.
  intros Han. unfold wlr_seat_pointer_notify_button. set (s0 := if _ && _ then _ else s).
  assert (H0 : anchored (pointer_state s0)) by (subst s0; by destruct (_ && _)). clearbody s0.
  destruct (if pressed then _ else _) as [held forward]. destruct (negb forward); [done|].
  set (s1 := upd_ptr _ s0). assert (H1 : anchored (pointer_state s1)) by done. clearbody s1.
  assert (H2 : anchored (pointer_state (wlr_seat_pointer_send_button t b pressed s1).1)).
  { unfold wlr_seat_pointer_send_button. destruct (focused_client _) as [c|]; [|done].
    destruct (next_serial c s1) as [s2 n] eqn:En. simpl.
    rewrite (for_each_pointer _ _ (fun r => [PButton n t b pressed])) by apply posting_one.
    apply next_serial_same in En as [Hs _]. by eapply anchored_same. }
  destruct (wlr_seat_pointer_send_button t b pressed s1) as [s2 n]. simpl in *. by destruct (_ && _).
Qed.

Lemma anchored_step op s s' : anchored (pointer_state s) -> pointer_step surface_client op s = Some s' -> anchored (pointer_state s').
Proof.
  intros Han. destruct op; simpl; try (intros [= <-]).
  - case_ifs; [|done]. intros [= <-]. unfold seat_client_create. destruct (ptr_focused_surface _) as [f|] eqn:Ef; [|done].
    destruct (Nat.eqb_spec (surface_client f) client); [|done]. intros g. simpl. simpl in Ef. rewrite Ef. intros [= <-].
    destruct (Han f Ef) as [? _]. split; [done|]. by intros c [= <-].
  - unfold seat_client_destroy. simpl. case_ifs; [|done]. intros f Hf. destruct (Han f Hf) as [? _]. by split.
  - case_ifs; [|done]. clear E. intros [= <-]. unfold seat_client_create_pointer. set (s1 := upd_client _ _ _).
    assert (H1 : anchored (pointer_state s1)) by done. clearbody s1. destruct (negb _); [done|].
    destruct (ptr_focused_surface (pointer_state s1)), (ps_xy (pointer_state s1)) as [[x y]|]; try done. case_bool_decide; [|done].
    destruct (next_serial client s1) as [s2 k] eqn:En. apply next_serial_same in En as [Hs _].
    destruct (5 <=? version); change (anchored (pointer_state s2)); by eapply anchored_same.
  - done.
  - unfold wlr_seat_pointer_notify_enter. case_bool_decide; by apply enter_anchored.
  - by apply enter_anchored.
  - unfold wlr_seat_pointer_notify_clear_focus. case_bool_decide; by apply enter_anchored.
  - unfold seat_pointer_handle_surface_destroy. case_bool_decide; [by apply enter_anchored|done].
  - unfold wlr_seat_pointer_notify_motion, wlr_seat_pointer_send_motion. destruct (focused_client _) as [c|]; [|done].
    cbv zeta. set (s1 := if bool_decide _ then _ else s). assert (E : pointer_state s1 = pointer_state s).
    { subst s1. case_bool_decide; [|done]. by apply (for_each_pointer _ _ (fun r => [PMotion time (fixed_xy (sx, sy)).1 (fixed_xy (sx, sy)).2])), posting_one. }
    intros f. simpl. rewrite E. intros Hf. destruct (Han f Hf) as [_ ?]. by split.
  - by apply button_anchored.
  - unfold wlr_seat_pointer_notify_axis, wlr_seat_pointer_send_axis. destruct (focused_client _) as [c|]; [|by intros [= <-]].
    case_ifs; [done|]. destruct (update_value120_accumulators _ _ _) as [[v low] ld]. intros [= <-].
    erewrite for_each_pointer by (apply (posting_list (fun r => axis_events r time axis value value_discrete source direction _ low ld))). done.
  - unfold wlr_seat_pointer_notify_frame, wlr_seat_pointer_send_frame. destruct (focused_client _) as [c|]; [|done].
    rewrite (for_each_pointer _ _ frame_ev) by apply posting_frame. done.
Qed.

Lemma pointer_step_inv op s s' : ptr_inv s -> anchored (pointer_state s) -> pointer_step surface_client op s = Some s' -> ptr_inv s'.
Proof.
  intros Hok Han. destruct op; simpl; try (intros [= <-]).
  - case_ifs; [|done]. intros [= <-]. apply bool_decide_eq_true in E. by apply bind_inv.
  - by apply unbind_inv.
  - case_ifs; [|done]. intros [= <-]. apply get_pointer_inv; [done|done|].
    apply orb_true_iff in E as [E|E]; apply bool_decide_eq_true in E; auto.
  - by apply release_inv.
  - by apply notify_enter_inv.
  - by apply clear_focus_inv.
  - by apply notify_clear_focus_inv.
  - unfold seat_pointer_handle_surface_destroy. case_ifs; [by apply clear_focus_inv|done].
  - by apply motion_inv.
  - by apply button_inv.
  - by apply axis_inv.
  - by apply frame_inv.
Qed.

Lemma pointer_run_inv ops s s' : ptr_inv s -> anchored (pointer_state s) -> pointer_run surface_client ops s = Some s' -> ptr_inv s'.
Proof.
  revert s. induction ops as [|op ops IH]; simpl; intros s Hok Han; [by intros [= <-]|].
  destruct (pointer_step surface_client op s) as [s1|] eqn:E; [|done]. simpl.
  apply IH; [by eapply pointer_step_inv|by eapply anchored_step].
Qed.

Lemma initial_ptr_inv : ptr_inv wlr_seat_create.
Proof.
  split; simpl; try done; try (by intros ? ? ? ?%lookup_empty_Some); try (by intros ? ? ?%lookup_empty_Some).
  - by intros ? ? ?%elem_of_nil.
  - apply buttons_ok_nil.
Qed.

End Preservation.

(** C12. Whatever happens to the seat, but a client with the pointer asking for a new
    wl_pointer object while a button is down, every wl_pointer object sees a well-formed
    stream: surfaces are entered and left in turn, a button goes down only when it
    is up and up only when it is down, and motion and scrolling only arrive on a
    surface; and a live object's view (its surface and the buttons down) is the
    seat's: that of the focused surface with the buttons the seat holds, or
    nothing for clients that do not have the pointer. *)
Theorem pointer_streams_wellformed (surface_client : nat -> nat) (ops : list pointer_op) (s : wlr_seat) :
  pointer_run surface_client ops wlr_seat_create = Some s ->
  (forall id, stream id (wire s) <> None) /\
  (forall c sc r, seat_clients s !! c = Some sc -> r ∈ sc_pointers sc -> res_live r = true ->
     stream (res_id r) (wire s) = Some (seat_view c (pointer_state s))) /\
  (length (buttons (pointer_state s)) <= WLR_POINTER_BUTTONS_CAP)%nat.
Proof.
  intros Hrun. pose proof (pointer_run_inv _ _ _ _ initial_ptr_inv (fun f Hf => ltac:(discriminate Hf)) Hrun) as Hok. split_and!.
  - apply (po_valid _ _ _ _ Hok).
  - intros c sc r Hc Hr Hlive. refine (po_view _ _ _ _ Hok c (sc_pointers sc) r _ Hr Hlive).
    unfold res_view. by rewrite lookup_fmap, Hc.
  - apply (bo_cap _ (po_buttons _ _ _ _ Hok)).
Qed.

(** Two clients; a button held while the pointer moves to the other window. *)
Definition demo_pointer_ops : list pointer_op :=
  [OpBind 1; OpGetPointer 1 7; OpEnter 20 0 0; OpBind 2; OpGetPointer 2 9; OpEnter 10 0 0; OpButton 5 272 true;
   OpMotion 6 3 4; OpAxis 7 AxisVertical 15 120 0 0; OpFrame; OpEnter 20 0 0; OpButton 8 272 false;
   OpButton 9 273 true].

Definition demo_pointer_seat : wlr_seat :=
  default wlr_seat_create (pointer_run (fun f => f / 10)%nat demo_pointer_ops wlr_seat_create).

Lemma pointer_streams_wellformed_witness :
  pointer_run (fun f => f / 10)%nat demo_pointer_ops wlr_seat_create = Some demo_pointer_seat /\
  stream 1 (wire demo_pointer_seat) = Some (Some (20%nat, {[273]})).
Proof.
  assert (Hrun : pointer_run (fun f => f / 10)%nat demo_pointer_ops wlr_seat_create =
    Some demo_pointer_seat) by (vm_compute; reflexivity).
  split; [exact Hrun|].
  pose proof (proj1 (proj2 (pointer_streams_wellformed _ _ _ Hrun)) 2%nat
    (default (SeatClient [] [] empty_ringset false (fun _ => no_value120))
      (seat_clients demo_pointer_seat !! 2%nat)) (Res 1 9 true)) as Hview.
  change 1%nat with (res_id (Res 1 9 true)). rewrite Hview.
  - vm_compute. reflexivity.
  - vm_compute. reflexivity.
  - vm_compute. left.
  - reflexivity.
Defined.

(** The client asks for another object while the button is down: that one sees a
    release without a press. *)
Definition get_pointer_while_held : wlr_seat :=
  default wlr_seat_create (pointer_run (fun f => f / 10)%nat
    [OpBind 1; OpGetPointer 1 7; OpEnter 10 0 0; OpButton 5 272 true] wlr_seat_create)
  |> seat_client_create_pointer 1 7 |> (fun s => (wlr_seat_pointer_notify_button 6 272 false s).1).

Example new_pointer_sees_half_click :
  stream 0 (wire get_pointer_while_held) = Some (Some (10%nat, ∅)) /\ stream 1 (wire get_pointer_while_held) = None.
Proof. split; vm_compute; reflexivity. Qed.

(** ** Scrolling *)

(** A run of wheel events (value, steps of 1/120) on one axis, with the sum of the
    low resolution values and steps it produces. *)
Fixpoint wheel_run (v : value120) (events : list (Q * Z)) : value120 * Q * Z :=
  match events with
  | [] => (v, 0%Q, 0)
  | (value, d) :: events =>
      let '(v, low, steps) := update_value120_accumulators v value d in
      let '(v, low', steps') := wheel_run v events in
      (v, (low + low')%Q, steps + steps')
  end.

Definition total_steps (events : list (Q * Z)) : Z := foldr (fun e n => e.2 + n) 0 events.
Definition total_value (events : list (Q * Z)) : Q := foldr (fun e n => e.1 + n)%Q 0%Q events.

(** The accumulators hold what has not been sent: [acc] steps, [axis] of value. *)
Lemma wheel_run_spec sgn v events v' low steps :
  (sgn = 1 \/ sgn = -1) -> Forall (fun e => 0 < sgn * e.2) events ->
  0 <= sgn * acc_discrete v < 120 -> 0 < sgn * last_discrete v ->
  wheel_run v events = (v', low, steps) ->
  120 * steps + acc_discrete v' = acc_discrete v + total_steps events /\
  0 <= sgn * acc_discrete v' < 120 /\
  (low + acc_axis v' == acc_axis v + total_value events)%Q.
Proof.
  intros Hs Hev. revert v v' low steps. induction Hev as [|[value d] events Hd Hev IH]; simpl in *.
  { intros v v' low steps Ha Hl [= <- <- <-]. split_and!; [lia..|]. ring. }
  intros v v' low steps Ha Hl.
  destruct (update_value120_accumulators v value d) as [[v1 low1] steps1] eqn:E1.
  destruct (wheel_run v1 events) as [[v2 low2] steps2] eqn:E2. intros [= <- <- <-].
  assert (H1 : 120 * steps1 + acc_discrete v1 = acc_discrete v + d /\
    0 <= sgn * acc_discrete v1 < 120 /\ 0 < sgn * last_discrete v1 /\
    (low1 + acc_axis v1 == acc_axis v + value)%Q).
  { revert E1. unfold update_value120_accumulators, should_reset_value120_accumulators.
    rewrite (proj2 (Z.eqb_neq d 0)), (proj2 (Z.eqb_neq (last_discrete v) 0)) by lia.
    replace (_ || _) with false by lia.
    unfold idiv, WLR_POINTER_AXIS_DISCRETE_STEP. Z.to_euclidean_division_equations.
    destruct (Z.eqb_spec q 0) as [->|Hq]; intros [= <- <- <-]; simpl; split_and!; try lia; ring. }
  destruct H1 as (Hd1 & Ha1 & Hl1 & Hv1).
  destruct (IH v1 v2 low2 steps2 Ha1 Hl1 E2) as (Hd2 & Ha2 & Hv2). split_and!; [lia..|].
  rewrite <- Qplus_assoc, Hv2, Qplus_assoc, Hv1. ring.
Qed.

(** Clients without high resolution scrolling lose nothing: over a turn of the
    wheel in one direction, however finely it is reported, they get exactly the
    whole steps of the total, the rest (less than a step) is kept, and the scroll
    distance they got and what is kept add up to the whole. *)
Theorem wheel_steps_exact (v : value120) (events : list (Q * Z)) (sgn : Z)
    (v' : value120) (low : Q) (steps : Z)
    (Hsgn : sgn = 1 \/ sgn = -1) (Hdir : Forall (fun e => 0 < sgn * e.2) events)
    (Hsome : events <> []) (Hturn : sgn * last_discrete v <= 0)
    (Hrun : wheel_run v events = (v', low, steps)) :
  steps = Z.quot (total_steps events) 120 /\
  acc_discrete v' = Z.rem (total_steps events) 120 /\
  (low + acc_axis v' == total_value events)%Q.
Proof.
  destruct events as [|[value d] events]; [done|]. inversion_clear Hdir as [|? ? Hd Hev]. simpl in Hd.
  revert Hrun. simpl.
  destruct (update_value120_accumulators v value d) as [[v1 low1] steps1] eqn:E1.
  destruct (wheel_run v1 events) as [[v2 low2] steps2] eqn:E2. intros [= <- <- <-].
  assert (H1 : 120 * steps1 + acc_discrete v1 = d /\
    0 <= sgn * acc_discrete v1 < 120 /\ 0 < sgn * last_discrete v1 /\
    (low1 + acc_axis v1 == value)%Q).
  { revert E1. unfold update_value120_accumulators, should_reset_value120_accumulators.
    rewrite (proj2 (Z.eqb_neq d 0)) by lia.
    replace (if last_discrete v =? 0 then true else _) with true by (case_ifs; lia).
    unfold idiv, WLR_POINTER_AXIS_DISCRETE_STEP. Z.to_euclidean_division_equations.
    destruct (Z.eqb_spec q 0) as [->|Hq]; intros [= <- <- <-]; simpl; split_and!; try lia; ring. }
  destruct H1 as (Hd1 & Ha1 & Hl1 & Hv1).
  destruct (wheel_run_spec sgn _ _ _ _ _ Hsgn Hev Ha1 Hl1 E2) as (Hd2 & Ha2 & Hv2).
  assert (Hpos : 0 <= sgn * total_steps events).
  { clear -Hev Hsgn. induction Hev; simpl in *; [lia|]. lia. }
  split_and!.
  - Z.to_euclidean_division_equations. lia.
  - Z.to_euclidean_division_equations. lia.
  - rewrite <- Qplus_assoc, Hv2, Qplus_assoc, Hv1. ring.
Qed.

Lemma wheel_steps_exact_witness : exists v' low steps,
  wheel_run no_value120 [(5%Q, 50); (5%Q, 50); (5%Q, 50); (20%Q, 200)] = (v', low, steps) /\
  steps = 2 /\ acc_discrete v' = 110.
Proof.
  do 3 eexists. split; [vm_compute; reflexivity|].
  match goal with |- ?steps = _ /\ acc_discrete ?v = _ =>
    destruct (wheel_steps_exact no_value120 [(5%Q, 50); (5%Q, 50); (5%Q, 50); (20%Q, 200)] 1 v
      (15 + 20)%Q steps) as (H1 & H2 & _) end.
  - lia.
  - repeat constructor.
  - discriminate.
  - simpl. lia.
  - vm_compute. reflexivity.
  - split; [exact H1|exact H2].
Defined.

(** A frame that arrives while no client has the pointer does not end the scroll
    source of the frame before: scrolling with another device after the pointer
    comes back fails the assertion of wlr_seat_pointer_send_axis. *)
Example axis_source_outlives_frame :
  pointer_run (fun f => f / 10)%nat
    [OpBind 1; OpGetPointer 1 7; OpEnter 10 0 0; OpAxis 1 AxisVertical 15 120 0 0; OpClearFocus;
     OpFrame; OpEnter 10 0 0; OpAxis 2 AxisVertical 3 0 1 0] wlr_seat_create = None.
Proof. vm_compute. reflexivity. Qed.
