(* ===== verification/SeatTouch.v ===== *)
(** * Touch points of the seat

    Models src/libs/wlroots/types/seat/wlr_seat_touch.c with the default grab:
    the seat's touch points, newest first as wl_list_insert puts them, and the
    events they send to the clients of the touched surfaces. A touch point is a
    record with an address. *)

From S2P Require Import Prelude Serials Seat.

Definition upd_touch (f : wlr_seat_touch_state -> wlr_seat_touch_state) (s : wlr_seat) : wlr_seat :=
  s <{ touch_state ::= f }>.

Definition upd_points (f : list wlr_touch_point -> list wlr_touch_point) (s : wlr_seat) : wlr_seat :=
  upd_touch (fun t => t <{ touch_points ::= f }>) s.

Definition points (s : wlr_seat) : list wlr_touch_point := touch_points (touch_state s).

Section Seat.
Variable surface_client : nat -> nat.

(** ** Points *)

Definition touch_point_clear_focus (p : wlr_touch_point) : wlr_touch_point :=
  p <{ tp_focus_surface := None }> <{ tp_focus_client := None }>.

Definition upd_point (addr : nat) (f : wlr_touch_point -> wlr_touch_point) (s : wlr_seat)
    : wlr_seat :=
  upd_points (map (fun p => if (tp_addr p =? addr)%nat then f p else p)) s.

Definition touch_point_destroy (p : wlr_touch_point) (s : wlr_seat) : wlr_seat :=
  upd_points (List.filter (fun q => negb (tp_addr q =? tp_addr p)%nat)) s.

(** The surface of some points is destroyed. *)
Definition touch_point_handle_surface_destroy (surface : nat) (s : wlr_seat) : wlr_seat :=
  upd_points (map (fun p => if bool_decide (tp_surface p = Some surface)
                            then p <{ tp_surface := None }> else p)) s.

(** [addr] is the address [calloc] returns, [None] if it fails. *)
Definition touch_point_create (addr : option nat) (touch_id : Z) (surface : nat) (sx sy : Q)
    (s : wlr_seat) : option (wlr_seat * wlr_touch_point) :=
  match seat_clients s !! surface_client surface with
  | None => None
  | Some c =>
      if bool_decide (sc_touches c = []) then None
      else match addr with
      | None => None
      | Some a =>
          let p := TouchPt a touch_id (Some surface) (surface_client surface) None None sx sy in
          Some (upd_points (cons p) s, p)
      end
  end.

Definition wlr_seat_touch_get_point (touch_id : Z) (s : wlr_seat) : option wlr_touch_point :=
  List.find (fun p => tp_touch_id p =? touch_id) (points s).

Definition wlr_seat_touch_num_points (s : wlr_seat) : nat := length (points s).

(** ** Sending events *)

(** One event on every live wl_touch resource of the client. *)
Definition send (client : nat) (e : wl_event) (s : wlr_seat) : wlr_seat :=
  for_each (live (touches_of client s)) (fun r => post r e) s.

Definition need_frame (client : nat) (s : wlr_seat) : wlr_seat :=
  upd_client client (fun c => c <{ sc_needs_touch_frame := true }>) s.

Definition wlr_seat_touch_send_down (surface : option nat) (time touch_id : Z) (sx sy : Q)
    (s : wlr_seat) : wlr_seat * Z :=
  match wlr_seat_touch_get_point touch_id s with
  | None => (s, 0)
  | Some p =>
      let '(s, serial) := next_serial (tp_client p) s in
      (s |> send (tp_client p) (TDown serial time surface touch_id (wl_fixed_from_double sx) (wl_fixed_from_double sy))
         |> need_frame (tp_client p), serial)
  end.

Definition wlr_seat_touch_send_up (time touch_id : Z) (s : wlr_seat) : wlr_seat * Z :=
  match wlr_seat_touch_get_point touch_id s with
  | None => (s, 0)
  | Some p =>
      let '(s, serial) := next_serial (tp_client p) s in
      (s |> send (tp_client p) (TUp serial time touch_id)
         |> need_frame (tp_client p), serial)
  end.

Definition wlr_seat_touch_send_motion (time touch_id : Z) (sx sy : Q) (s : wlr_seat)
    : wlr_seat :=
  match wlr_seat_touch_get_point touch_id s with
  | None => s
  | Some p =>
      s |> send (tp_client p) (TMotion time touch_id (wl_fixed_from_double sx) (wl_fixed_from_double sy))
        |> need_frame (tp_client p)
  end.

(** The clients in the order of the map. *)
Definition wlr_seat_touch_send_frame (s : wlr_seat) : wlr_seat :=
  foldl (fun s client =>
    match seat_clients s !! client with
    | Some c => if sc_needs_touch_frame c
                then s |> for_each (sc_touches c) (fun r => post r TFrame)
                       |> upd_client client (fun c => c <{ sc_needs_touch_frame := false }>)
                else s
    | None => s
    end) s (map fst (map_to_list (seat_clients s))).

Definition wlr_seat_touch_send_cancel (client : nat) (s : wlr_seat) : wlr_seat :=
  send client TCancel s.

(** ** Notifications, with the default grab *)

Definition wlr_seat_touch_notify_down (addr : option nat) (surface : nat) (time touch_id : Z)
    (sx sy : Q) (s : wlr_seat) : wlr_seat * Z :=
  match touch_point_create addr touch_id surface sx sy s with
  | None => (s, 0)
  | Some (s, p) =>
      let '(s, serial) := wlr_seat_touch_send_down (tp_surface p) time (tp_touch_id p)
                            (tp_sx p) (tp_sy p) s in
      if serial =? 0 then (touch_point_destroy p s, 0)
      else if (wlr_seat_touch_num_points s =? 1)%nat
           then (upd_touch (fun t => t <{ ts_grab_serial := serial }> <{ ts_grab_id := touch_id }>) s, serial)
           else (s, serial)
  end.

Definition wlr_seat_touch_notify_up (time touch_id : Z) (s : wlr_seat) : wlr_seat * Z :=
  match wlr_seat_touch_get_point touch_id s with
  | None => (s, 0)
  | Some p =>
      let '(s, serial) := wlr_seat_touch_send_up time (tp_touch_id p) s in
      (touch_point_destroy p s, serial)
  end.

Definition wlr_seat_touch_notify_motion (time touch_id : Z) (sx sy : Q) (s : wlr_seat)
    : wlr_seat :=
  match wlr_seat_touch_get_point touch_id s with
  | None => s
  | Some p =>
      let s := upd_point (tp_addr p) (fun p => p <{ tp_sx := sx }> <{ tp_sy := sy }>) s in
      if bool_decide (tp_focus_surface p = None) || bool_decide (tp_focus_surface p = tp_surface p)
      then wlr_seat_touch_send_motion time touch_id sx sy s else s
  end.

Definition wlr_seat_touch_notify_frame (s : wlr_seat) : wlr_seat :=
  wlr_seat_touch_send_frame s.

Definition wlr_seat_touch_notify_cancel (client : nat) (s : wlr_seat) : wlr_seat :=
  let s := wlr_seat_touch_send_cancel client s in
  foldl (fun s p => if (tp_client p =? client)%nat then touch_point_destroy p s else s)
    s (points s).

Definition touch_point_set_focus (surface : option nat) (sx sy : Q) (s : wlr_seat)
    (p : wlr_touch_point) : wlr_touch_point :=
  if bool_decide (tp_focus_surface p = surface) then p
  else
    let p := touch_point_clear_focus p in
    match surface with
    | None => p
    | Some f =>
        match seat_clients s !! surface_client f with
        | Some c => if bool_decide (sc_touches c = []) then p
                    else p <{ tp_focus_surface := Some f }> <{ tp_focus_client := Some (surface_client f) }>
                           <{ tp_sx := sx }> <{ tp_sy := sy }>
        | None => p
        end
    end.

(** The default grab does nothing on enter. *)
Definition wlr_seat_touch_point_focus (surface : nat) (touch_id : Z) (sx sy : Q) (s : wlr_seat)
    : wlr_seat :=
  match wlr_seat_touch_get_point touch_id s with
  | None => s
  | Some p => upd_point (tp_addr p) (touch_point_set_focus (Some surface) sx sy s) s
  end.

Definition wlr_seat_touch_point_clear_focus (touch_id : Z) (s : wlr_seat) : wlr_seat :=
  match wlr_seat_touch_get_point touch_id s with
  | None => s
  | Some p => upd_point (tp_addr p) touch_point_clear_focus s
  end.

Definition wlr_seat_validate_touch_grab_serial (origin : option nat) (serial : Z) (s : wlr_seat)
    : option wlr_touch_point :=
  if negb (wlr_seat_touch_num_points s =? 1)%nat || negb (ts_grab_serial (touch_state s) =? serial) then None
  else List.find (fun p => bool_decide (origin = None) || bool_decide (tp_surface p = origin)) (points s).

Definition wlr_surface_accepts_touch (surface : nat) (s : wlr_seat) : bool :=
  match seat_clients s !! surface_client surface with
  | None => false
  | Some c => negb (bool_decide (sc_touches c = []))
  end.

End Seat.
