(* ===== verification/Desktop.v ===== *)
(** * The desktop: windows, seat and views together

    State shared by the pointer and touch handlers of CompositorPrivate: the
    window manager ([Windows]), the seat ([Seat], [SeatPointer], [SeatTouch]), the
    views on top of the windows, and the fields of the handlers themselves.

    - the views (switchers, overviews, menus, tooltips) are the interface [Views]:
      they have a state of their own, may take pointer events, and may act on the
      windows when they do;
    - finding the scene node under a point is the interface [Scene];
    - notices of the window manager that concern the seat or the views are carried
      out when the operation returns ([enter_wm]). *)

From S2P Require Import Prelude Box Ssd Window Windows Serials Seat SeatPointer SeatTouch.

Definition BTN_LEFT : Z := 272.
Definition BTN_RIGHT : Z := 273.

(** What a view may do with pointer events; it sees and changes the windows. *)
Class Views (V : Type) := {
  view_motion : ui_component -> Q -> Q -> V * compositor -> V * compositor * bool;
  view_button : ui_component -> Z -> bool -> V * compositor -> V * compositor * bool;
  view_active : ui_component -> V -> bool;
  view_cancel : ui_component -> V * compositor -> V * compositor;
  view_notice : notice -> V * compositor -> V * compositor;
  menu_show : option nat -> Q -> Q -> V * compositor -> V * compositor * bool;
  hover_maximize : option nat -> Q -> Q -> Z -> V -> V;
  leave_maximize : V -> V;
  tooltip_hover : option nat -> Part -> Q -> Q -> V -> V }.

(** A node under a point: the surface of a surface buffer, the data of its parents
    from the nearest up, and the point in its coordinates. *)
Record scene_hit := SceneHit {
  sh_surface : option nat;
  sh_parents : list (option nat);
  sh_x : Q; sh_y : Q }.

Class Scene := {
  scene_node_at : Q -> Q -> compositor -> option scene_hit;
  (* XWaylandManager: its surfaces and their scale *)
  OwnsSurface : nat -> bool;
  x_scale : Q }.

Inductive CursorImage :=
| CursorKindName (name : str)
| CursorKindSurface (surface : nat) (hotspot_x hotspot_y : Z)
| CursorKindNone.

Inductive TouchPointMode := kNative | kPointer | kSelector | kMultitasking | kWindowPreviews | kIgnored.

#[export] Instance touch_mode_eq : EqDecision TouchPointMode.
Proof. solve_decision. Defined.

Record TouchPoint := MkTouch {
  tch_touch : nat; tch_id : Z; tch_mode : TouchPointMode; tch_last_x : Q; tch_last_y : Q }.

#[export] Instance touch_fields : Fields TouchPoint := {| rebuild := fun p =>
  MkTouch (tch_touch p) (tch_id p) (tch_mode p) (tch_last_x p) (tch_last_y p) |}.

(** Calls into parts that are not modelled. *)
Inductive call :=
| NotifyPointer (time : Z)
| NotifyTouch (surface : option nat) (time : Z)
| UpdatePointerFocus (surface : option nat)
| SendClose (surface : option nat)
| MoveDragCall
| TouchGestureDown (touch : nat) (id : Z) (x y : Q)
| TouchGestureMotion (touch : nat) (id : Z) (x y : Q)
| TouchGestureUp (touch : nat) (id : Z) (cancelled : bool)
| FeedbackDown (touch : nat) (id : Z) (x y : Q)
| FeedbackMotion (touch : nat) (id : Z) (x y : Q)
| FeedbackUp (touch : nat) (id : Z)
| FeedbackCancel (touch : nat) (id : Z)
| FeedbackCancelDevice (touch : nat)
| EmulatedButton (pressed : bool)       (* SendPointerTouchButton *)
| ShakeMotion.

Record desktop (V : Type) := Desktop {
  wm : compositor;
  views : V;
  seat_ : wlr_seat;
  suppress_button_release_ : bool;
  last_click_toplevel_ : option nat;
  last_click_time_msec_ : Z;
  last_click_x_ : Q;
  last_click_y_ : Q;
  cursor_hidden_by_touch_ : bool;
  cursor_image_ : CursorImage;
  cursor_image_locked_ : bool;
  cursor_shown : CursorImage;           (* what wlr_cursor displays *)
  ssd_hovered : gmap nat HitTarget;     (* by window *)
  ssd_pressed : gmap nat HitTarget;
  touch_points_ : list TouchPoint;
  touch_pointer_frame_pending_ : bool;
  touch_feedback_ : bool;
  shake_cursor_ : bool;
  calls : list call }.

Arguments Desktop {V}.
Arguments wm {V}. Arguments views {V}. Arguments seat_ {V}.
Arguments suppress_button_release_ {V}. Arguments last_click_toplevel_ {V}.
Arguments last_click_time_msec_ {V}. Arguments last_click_x_ {V}. Arguments last_click_y_ {V}.
Arguments cursor_hidden_by_touch_ {V}. Arguments cursor_image_ {V}.
Arguments cursor_image_locked_ {V}. Arguments cursor_shown {V}. Arguments ssd_hovered {V}.
Arguments ssd_pressed {V}. Arguments touch_points_ {V}. Arguments touch_pointer_frame_pending_ {V}.
Arguments touch_feedback_ {V}. Arguments shake_cursor_ {V}. Arguments calls {V}.

#[export] Instance desktop_fields (V : Type) : Fields (desktop V) := {| rebuild := fun d =>
  Desktop (wm d) (views d) (seat_ d) (suppress_button_release_ d) (last_click_toplevel_ d)
    (last_click_time_msec_ d) (last_click_x_ d) (last_click_y_ d) (cursor_hidden_by_touch_ d)
    (cursor_image_ d) (cursor_image_locked_ d) (cursor_shown d) (ssd_hovered d) (ssd_pressed d)
    (touch_points_ d) (touch_pointer_frame_pending_ d) (touch_feedback_ d) (shake_cursor_ d)
    (calls d) |}.

Section State.
Context {V : Type} `{OutputLayout} `{Views V} `{Scene}.
Variable root_surface : nat -> nat.
Variable surface_client : nat -> nat.

Definition call_out (c : call) (d : desktop V) : desktop V := d <{ calls ::= fun l => l ++ [c] }>.
Definition call_protocols (c : call) (d : desktop V) : desktop V :=
  when (protocol_manager_ (wm d)) (call_out c) d.

(** ** The cursor image *)

Definition ApplyCursorImage (d : desktop V) : desktop V := d <{ cursor_shown := cursor_image_ d }>.

Definition set_image (i : CursorImage) (d : desktop V) : desktop V :=
  let d := d <{ cursor_image_ := i }> in
  if negb (cursor_image_locked_ d) then ApplyCursorImage d else d.

Definition SetCursorName (name : str) : desktop V -> desktop V := set_image (CursorKindName name).
Definition SetCursorSurface (surface : option nat) (hx hy : Z) : desktop V -> desktop V :=
  set_image (match surface with Some f => CursorKindSurface f hx hy | None => CursorKindNone end).
Definition UnsetCursorImage : desktop V -> desktop V := set_image CursorKindNone.

Definition LockCursorImage (locked : bool) (d : desktop V) : desktop V :=
  if Bool.eqb (cursor_image_locked_ d) locked then d
  else
    let d := d <{ cursor_image_locked_ := locked }> in
    if locked then d <{ cursor_shown := CursorKindNone }> else ApplyCursorImage d.

(** wlr_cursor drops a destroyed cursor surface. *)
Definition OnCursorSurfaceDestroy (surface : nat) (d : desktop V) : desktop V :=
  let d := match cursor_shown d with
           | CursorKindSurface f _ _ => if (f =? surface)%nat then d <{ cursor_shown := CursorKindNone }> else d
           | _ => d
           end in
  match cursor_image_ d with
  | CursorKindSurface f _ _ => if (f =? surface)%nat then d <{ cursor_image_ := CursorKindNone }> else d
  | _ => d
  end.

(** ** The pointer's focus *)

Definition OnPointerFocusChange (surface : option nat) (d : desktop V) : desktop V :=
  let d := if bool_decide (surface = None) then SetCursorName (txt "default") d else d in
  call_protocols (UpdatePointerFocus surface) d.

(** A call that may move the pointer's focus, with the signal it emits. *)
Definition refocus (f : wlr_seat -> wlr_seat) (d : desktop V) : desktop V :=
  let before := ptr_focused_surface (pointer_state (seat_ d)) in
  let d := d <{ seat_ ::= f }> in
  let after := ptr_focused_surface (pointer_state (seat_ d)) in
  if bool_decide (before = after) then d else OnPointerFocusChange after d.

Definition clear_pointer_focus : desktop V -> desktop V :=
  refocus (wlr_seat_pointer_clear_focus surface_client).
Definition pointer_enter (surface : nat) (sx sy : Q) : desktop V -> desktop V :=
  refocus (wlr_seat_pointer_notify_enter surface_client surface sx sy).

(** Only the client under the pointer may set the cursor. *)
Definition OnRequestCursor (client : nat) (owned_by_x : bool) (surface : option nat) (hx hy : Z)
    (d : desktop V) : desktop V :=
  if bool_decide (focused_client (pointer_state (seat_ d)) = Some client) then
    let from_x v := if xwayland_ (wm d) && owned_by_x then lround (inject_Z v / x_scale) else v in
    SetCursorSurface surface (from_x hx) (from_x hy) d
  else d.

(** ** Running window operations *)

Definition seat_notice (n : notice) (d : desktop V) : desktop V :=
  match n with
  | ClearPointerFocus => clear_pointer_focus d
  | CursorName name => SetCursorName name d
  | _ => d
  end.

(** A view's effect on the windows. *)
Definition enter_view (vw : V * compositor) (d : desktop V) : desktop V :=
  let old := length (log (wm d)) in
  foldl (fun d n => seat_notice n d) (d <{ views := vw.1 }> <{ wm := vw.2 }>) (drop old (log vw.2)).

Definition deliver (n : notice) (d : desktop V) : desktop V :=
  match n with
  | ClearPointerFocus | CursorName _ => seat_notice n d
  | _ => enter_view (view_notice n (views d, wm d)) d
  end.

(** An operation of [Windows], then its notices. *)
Definition run (f : compositor -> compositor) (d : desktop V) : desktop V :=
  let w := f (wm d) in
  foldl (fun d n => deliver n d) (d <{ wm := w }>) (drop (length (log (wm d))) (log w)).

(** ** Asking the views *)

Definition has_view (c : ui_component) (d : desktop V) : bool := ui (wm d) c.

Definition ask_motion (c : ui_component) (d : desktop V) : desktop V * bool :=
  if has_view c d then
    let '(vw, taken) := view_motion c (cursor_x (wm d)) (cursor_y (wm d)) (views d, wm d) in
    (enter_view vw d, taken)
  else (d, false).

Definition ask_button (c : ui_component) (b : Z) (pressed : bool) (d : desktop V) : desktop V * bool :=
  if has_view c d then
    let '(vw, taken) := view_button c b pressed (views d, wm d) in (enter_view vw d, taken)
  else (d, false).

Definition is_view_active (c : ui_component) (d : desktop V) : bool :=
  has_view c d && view_active c (views d).

Definition cancel_view (c : ui_component) (d : desktop V) : desktop V :=
  if has_view c d then enter_view (view_cancel c (views d, wm d)) d else d.

Definition on_views (c : ui_component) (f : V -> V) (d : desktop V) : desktop V :=
  when (has_view c d) (fun d => d <{ views ::= f }>) d.

(** ** Hit testing *)

(** The window, the surface and the point in the surface's coordinates. *)
Definition ToplevelAt (x y : Q) (w : compositor) : option nat * option nat * (Q * Q) :=
  match scene_node_at x y w with
  | None => (None, None, (0%Q, 0%Q))
  | Some h =>
      (match List.find (fun o => bool_decide (o <> None)) (sh_parents h) with
       | Some t => t
       | None => None
       end, sh_surface h, (sh_x h, sh_y h))
  end.

Definition no_hit : HitTarget := Hit kNone 0.

Definition SsdHitAt (t : option nat) (w : compositor) : HitTarget :=
  match t ≫= fun t => find_tl t w with
  | None => no_hit
  | Some tl =>
      match ssd tl, scene_tree tl with
      | Some s, Some n => HitTest s (cursor_x w - inject_Z (node_x n))%Q (cursor_y w - inject_Z (node_y n))%Q
      | _, _ => no_hit
      end
  end.

Definition IsTitlebarPoint (t : option nat) (surface : option nat) (surface_y : Q) (w : compositor) : bool :=
  match t ≫= fun t => find_tl t w with
  | None => false
  | Some tl =>
      if negb (IsAlive tl) || bool_decide (ssd tl <> None) || negb (bool_decide (surface = Surface tl))
      then false
      else let y := box_y (Geometry tl) in qge surface_y y && qlt surface_y (y + 48)
  end.

Definition kCsdResizeMargin : Z := 8.

(** The edges of a client-decorated window near the pointer, if it can be resized. *)
Definition csd_edges (tl : Toplevel) (w : compositor) : Z :=
  match scene_tree tl, handle tl with
  | Some n, Some h =>
      if bool_decide (ssd tl <> None) || negb (mapped tl) || minimized tl || maximized tl ||
         tiled tl || RequestedFullscreen tl then 0
      else
        let g := Geometry tl in
        if (box_width g <=? 0) || (box_height g <=? 0) then 0
        else
          let left := node_x n in
          let top := node_y n in
          let right := left + box_width g in
          let bottom := top + box_height g in
          let x := cursor_x w in
          let y := cursor_y w in
          if qlt x (left - kCsdResizeMargin) || qge x (right + kCsdResizeMargin) ||
             qlt y (top - kCsdResizeMargin) || qge y (bottom + kCsdResizeMargin) then 0
          else
            let ex := if qlt x (left + kCsdResizeMargin) then WLR_EDGE_LEFT
                      else if qge x (right - kCsdResizeMargin) then WLR_EDGE_RIGHT else 0 in
            let ey := if qlt y (top + kCsdResizeMargin) then WLR_EDGE_TOP
                      else if qge y (bottom - kCsdResizeMargin) then WLR_EDGE_BOTTOM else 0 in
            let fixed_width := (0 <? x_min_width h) && (0 <? x_max_width h) &&
                               (x_min_width h =? x_max_width h) in
            let fixed_height := (0 <? x_min_height h) && (0 <? x_max_height h) &&
                                (x_min_height h =? x_max_height h) in
            Z.lor (if fixed_width then 0 else ex) (if fixed_height then 0 else ey)
  | _, _ => 0
  end.

(** The topmost such window: toplevel_tree_ from top to bottom. *)
Definition CsdResizeHitAt (w : compositor) : option (nat * Z) :=
  foldl (fun found t =>
    match found with
    | Some _ => found
    | None => match find_tl t w with
              | Some tl => let e := csd_edges tl w in if e =? 0 then None else Some (t, e)
              | None => None
              end
    end) None (rev (stacking w)).

Definition LayerSurfaceFor (surface : option nat) (w : compositor) : option LayerSurface :=
  match surface with
  | None => None
  | Some f => List.find (fun l => match ls_handle l with
                                  | Some (g, _) => (g =? root_surface f)%nat
                                  | None => false
                                  end) (layer_surfaces_ w)
  end.

(** XWaylandManager::ToSurfaceX, when XWayland runs. *)
Definition ToSurfaceX (surface : option nat) (xy : Q * Q) (w : compositor) : Q * Q :=
  match surface with
  | Some f => if xwayland_ w && OwnsSurface f then (xy.1 * x_scale, xy.2 * x_scale)%Q else xy
  | None => xy
  end.

End State.
