(* ===== verification/Pointer.v ===== *)
(** * Pointer events

    Models the pointer handlers of CompositorPrivate
    (src/src/core/compositor_private/compositor_private.cc: ProcessCursorMotion,
    OnCursorButton, OnCursorFrame, ShowWindowMenu) over the state of [Desktop]: the session lock
    and the views come first, then interactive grabs, decorations and finally the
    client under the pointer.

    The theorems follow the strokes of a button through all of that. *)

From Stdlib Require Import Qabs.
From S2P Require Import Prelude Box Ssd Window Windows WindowFacts KeptFields.
From S2P Require Import Workspaces Serials Seat SeatPointer Desktop.

Definition kDoubleClickIntervalMs : Z := 400.
Definition kDoubleClickDistance : Q := 6.

Section Handlers.
Context {V : Type} `{OutputLayout} `{Views V} `{Scene}.
Variable root_surface : nat -> nat.
Variable surface_client : nat -> nat.
Variable resize_ok : Z -> Z -> bool.

#[local] Abbreviation run := (run surface_client).
#[local] Abbreviation clear_pointer_focus := (clear_pointer_focus surface_client).

(** ** Motion *)

(** A view has the pointer. *)
Definition over_view (d : desktop V) : desktop V :=
  d |> SetCursorName (txt "default") |> clear_pointer_focus.

(** Hovering over the decorations. *)
Definition set_hovered (t : option nat) (hit : HitTarget) (d : desktop V) : desktop V :=
  foldl (fun d tl =>
    if bool_decide (ssd tl <> None)
    then d <{ ssd_hovered ::= insert (tl_id tl) (if bool_decide (t = Some (tl_id tl)) then hit else no_hit) }>
    else d) d (toplevels_ (wm d)).

Definition surface_of (t : option nat) (d : desktop V) : option nat :=
  match t ≫= fun t => find_tl t (wm d) with Some tl => Surface tl | None => None end.

(** The tooltip and the tiling menu of the titlebar's buttons. *)
Definition hover_buttons (t : option nat) (hit : HitTarget) (d : desktop V) : desktop V :=
  match hit_part hit, t ≫= (fun t => find_tl t (wm d)), surface_of t d with
  | kMaximize, Some tl, Some f =>
      let client_top := node_y (default (Node 0 0 false false) (scene_tree tl)) + box_y (Geometry tl) in
      d |> cancel_view surface_client UiTitlebarTooltip
        |> on_views UiSplitScreenSwitcher
             (hover_maximize (Some f) (cursor_x (wm d)) (cursor_y (wm d)) client_top)
  | part, _, f =>
      let hint := match part with kMinimize => kMinimize | kClose => kClose | _ => kNone end in
      d |> on_views UiSplitScreenSwitcher leave_maximize
        |> on_views UiTitlebarTooltip (tooltip_hover f hint (cursor_x (wm d)) (cursor_y (wm d)))
  end.

(** Motion over windows and decorations. *)
Definition passthrough_motion (time : Z) (d : desktop V) : desktop V :=
  let '(t, surface, xy) := ToplevelAt (cursor_x (wm d)) (cursor_y (wm d)) (wm d) in
  let hit := SsdHitAt t (wm d) in
  let d := set_hovered t hit d in
  match CsdResizeHitAt (wm d) with
  | Some (_, edges) =>
      d |> cancel_view surface_client UiTitlebarTooltip
        |> on_views UiSplitScreenSwitcher leave_maximize
        |> SetCursorName (ResizeCursorName edges)
        |> clear_pointer_focus
  | None =>
      let d := hover_buttons t hit d in
      match hit_part hit with
      | kNone =>
          let d := if bool_decide (t = None) then SetCursorName (txt "default") d else d in
          match surface with
          | Some f =>
              let '(x, y) := ToSurfaceX (Some f) xy (wm d) in
              d |> pointer_enter surface_client f x y
                |> (fun d => d <{ seat_ ::= wlr_seat_pointer_notify_motion time x y }>)
          | None => clear_pointer_focus d
          end
      | part =>
          let name := match part with kResize => ResizeCursorName (hit_edges hit) | _ => txt "default" end in
          d |> SetCursorName name |> clear_pointer_focus
      end
  end.

Definition ProcessCursorMotion (time : Z) (d : desktop V) : desktop V :=
  let '(d, taken) := ask_motion surface_client UiWindowMenu d in
  if taken then over_view d
  else
  let '(d, taken) := ask_motion surface_client UiSplitScreenSwitcher d in
  if taken then over_view (cancel_view surface_client UiTitlebarTooltip d)
  else
  let '(d, taken) := ask_motion surface_client UiWindowPreviews d in
  if taken then over_view d
  else
  let '(d, taken) := ask_motion surface_client UiMultitasking d in
  if taken then over_view d
  else
  let '(d, taken) := ask_motion surface_client UiWindowSelector d in
  if taken then clear_pointer_focus d
  else if negb (bool_decide (cursor_mode_ (wm d) = kPassthrough)) then
    d |> cancel_view surface_client UiTitlebarTooltip
      |> cancel_view surface_client UiSplitScreenSwitcher
      |> run ProcessInteractiveMotion
  else passthrough_motion time d.

(** ** Buttons *)

Definition notify_button (time b : Z) (pressed : bool) (d : desktop V) : desktop V :=
  d <{ seat_ ::= fun s => (wlr_seat_pointer_notify_button time b pressed s).1 }>.

Definition set_suppress (v : bool) (d : desktop V) : desktop V :=
  d <{ suppress_button_release_ := v }>.
Definition forget_click (d : desktop V) : desktop V := d <{ last_click_toplevel_ := None }>.
Definition remember_click (t : option nat) (time : Z) (d : desktop V) : desktop V :=
  d <{ last_click_toplevel_ := t }> <{ last_click_time_msec_ := time }>
    <{ last_click_x_ := cursor_x (wm d) }> <{ last_click_y_ := cursor_y (wm d) }>.

(** The press is a second one: same window, in time and nearby. *)
Definition second_click (t : nat) (time : Z) (d : desktop V) : bool :=
  bool_decide (last_click_toplevel_ d = Some t) &&
  (u32 (time - last_click_time_msec_ d) <=? kDoubleClickIntervalMs) &&
  Qle_bool (Qabs (cursor_x (wm d) - last_click_x_ d)) kDoubleClickDistance &&
  Qle_bool (Qabs (cursor_y (wm d) - last_click_y_ d)) kDoubleClickDistance.

Definition ShowWindowMenu (t : nat) (x y : Q) (d : desktop V) : desktop V :=
  match find_tl t (wm d) with
  | Some tl =>
      if negb (has_view UiWindowMenu d) || negb (mapped tl) || negb (IsAlive tl) ||
         bool_decide (Surface tl = None) || SessionLocked (wm d) then d
      else
        let d := d |> cancel_view surface_client UiAppSwitcher
                   |> cancel_view surface_client UiMultitasking
                   |> cancel_view surface_client UiWindowPreviews
                   |> cancel_view surface_client UiWindowSelector
                   |> run ResetCursorMode
                   |> run (FocusToplevel t)
                   |> clear_pointer_focus in
        enter_view surface_client (menu_show (Surface tl) x y (views d, wm d)).1 d
  | None => d
  end.

(** A press on a decoration of window [t]. *)
Definition press_decoration (t : nat) (hit : HitTarget) (time b : Z) (d : desktop V) : desktop V :=
  let d := d |> run (FocusToplevel t) |> set_suppress true in
  if negb (b =? BTN_LEFT) then
    d <{ wm ::= fun w => w <{ pending_window_menu_ :=
          match hit_part hit with kTitlebar => if b =? BTN_RIGHT then Some t else None | _ => None end }> }>
  else
    let d := d <{ ssd_pressed ::= insert t hit }> in
    match hit_part hit with
    | kClose => d |> forget_click |> call_out (SendClose (surface_of (Some t) d))
    | kMinimize => d |> forget_click |> run (Minimize t)
    | kMaximize => d |> forget_click |> cancel_view surface_client UiSplitScreenSwitcher
                     |> run (ToggleMaximized resize_ok t)
    | kResize => d |> forget_click |> run (BeginInteractive resize_ok t kResizing (hit_edges hit))
    | _ =>
        if second_click t time d then
          d |> forget_click |> run (EndInteractive resize_ok) |> run (ToggleMaximized resize_ok t)
        else d |> remember_click (Some t) time |> run (BeginInteractive resize_ok t kMove 0)
    end.

(** A press on a window's surface, or on nothing. *)
Definition press_surface (t surface : option nat) (surface_y : Q) (time b : Z) (d : desktop V) : desktop V :=
  let titlebar_click := (b =? BTN_LEFT) && IsTitlebarPoint t surface surface_y (wm d) in
  let again := match t with Some t => second_click t time d | None => false end in
  match t with
  | Some t =>
      if titlebar_click && again then
        d |> forget_click |> set_suppress true |> run (EndInteractive resize_ok)
          |> run (ToggleMaximized resize_ok t) |> run (FocusToplevel t)
      else
        (if titlebar_click then remember_click (Some t) time d else forget_click d)
          |> notify_button time b true |> run (FocusToplevel t)
  | None =>
      d |> forget_click |> notify_button time b true
        |> (fun d => run (FocusLayerSurface (LayerSurfaceFor root_surface surface (wm d))) d)
  end.

Definition press_button_at (time b : Z) (d : desktop V) : desktop V :=
  if negb (bool_decide (cursor_mode_ (wm d) = kPassthrough)) then
    d |> run (EndInteractive resize_ok) |> set_suppress true
  else
    let '(t, surface, xy) := ToplevelAt (cursor_x (wm d)) (cursor_y (wm d)) (wm d) in
    let hit := SsdHitAt t (wm d) in
    match CsdResizeHitAt (wm d), b =? BTN_LEFT with
    | Some (u, edges), true =>
        d |> run (FocusToplevel u) |> set_suppress true |> forget_click
          |> run (BeginInteractive resize_ok u kResizing edges)
    | _, _ =>
        match hit_part hit, t with
        | kNone, _ | _, None => press_surface t surface xy.2 time b d
        | _, Some t => press_decoration t hit time b d
        end
    end.

Definition clear_pressed (d : desktop V) : desktop V :=
  foldl (fun d tl => if bool_decide (ssd tl <> None)
                     then d <{ ssd_pressed ::= insert (tl_id tl) no_hit }> else d)
    d (toplevels_ (wm d)).

Definition release_button_at (time b : Z) (d : desktop V) : desktop V :=
  let d := clear_pressed d in
  match pending_window_menu_ (wm d), b =? BTN_RIGHT with
  | Some t, true =>
      d |> (fun d => d <{ wm ::= fun w => w <{ pending_window_menu_ := None }> }>)
        |> set_suppress false
        |> run (EndInteractive resize_ok)
        |> (fun d => ShowWindowMenu t (cursor_x (wm d)) (cursor_y (wm d)) d)
  | _, _ =>
      (if suppress_button_release_ d then set_suppress false d else notify_button time b false d)
        |> run (EndInteractive resize_ok)
  end.

(** A view that took a button; the pointer is looked at again once it is gone. *)
Definition after_view (c : ui_component) (time : Z) (d : desktop V) : desktop V :=
  if is_view_active c d then d else ProcessCursorMotion time d.

(** [from_pointer] is false for buttons emulated from touches. *)
Definition OnCursorButton (from_pointer : bool) (time b : Z) (pressed : bool) (d : desktop V) : desktop V :=
  let d := if from_pointer && cursor_hidden_by_touch_ d
           then (SetCursorName (txt "default") d) <{ cursor_hidden_by_touch_ := false }> else d in
  let d := call_protocols (NotifyPointer time) d in
  if SessionLocked (wm d) then notify_button time b pressed d
  else
  let '(d, taken) := ask_button surface_client UiWindowMenu b pressed d in
  if taken then
    if is_view_active UiWindowMenu d then d
    else ProcessCursorMotion time (if pressed then set_suppress true d else d)
  else
  let '(d, taken) := ask_button surface_client UiSplitScreenSwitcher b pressed d in
  if taken then d
  else
  let '(d, taken) := ask_button surface_client UiMultitasking b pressed d in
  if taken then after_view UiMultitasking time d
  else
  let '(d, taken) := ask_button surface_client UiWindowPreviews b pressed d in
  if taken then after_view UiWindowPreviews time d
  else
  let '(d, taken) := ask_button surface_client UiWindowSelector b pressed d in
  if taken then after_view UiWindowSelector time d
  else if pressed then press_button_at time b d else release_button_at time b d.

Definition OnCursorFrame (d : desktop V) : desktop V := d <{ seat_ ::= wlr_seat_pointer_notify_frame }>.

End Handlers.

(** ** Quiet views

    A view that is not shown takes no events and leaves the windows alone; the
    menu only shows itself. [quiet] is a state in which all views are like that. *)

Class QuietViews {V : Type} `{Views V} (quiet : V -> Prop) := {
  quiet_motion : forall v w c x y, quiet v -> exists v', view_motion c x y (v, w) = (v', w, false) /\ quiet v';
  quiet_button : forall v w c b p, quiet v -> exists v', view_button c b p (v, w) = (v', w, false) /\ quiet v';
  quiet_cancel : forall v w c, quiet v -> exists v', view_cancel c (v, w) = (v', w) /\ quiet v';
  quiet_notice : forall v w n, quiet v -> exists v', view_notice n (v, w) = (v', w) /\ quiet v';
  quiet_menu : forall v w f x y, quiet v -> exists v' shown, menu_show f x y (v, w) = (v', w, shown);
  quiet_hover : forall v f x y top, quiet v -> quiet (hover_maximize f x y top v);
  quiet_leave : forall v, quiet v -> quiet (leave_maximize v);
  quiet_tooltip : forall v f h x y, quiet v -> quiet (tooltip_hover f h x y v) }.

(** The buttons the seat holds. *)
Definition held {V} (d : desktop V) : list wlr_seat_pointer_button := buttons (pointer_state (seat_ d)).

Section Strokes.
Context {V : Type} `{OutputLayout} `{VV : !Views V} `{Scene} (quiet : V -> Prop) `{!QuietViews quiet}.
Context (root_surface surface_client : nat -> nat) (resize_ok : Z -> Z -> bool).
#[local] Set Default Proof Using "Type*".

(** A step that changes neither the windows, nor what release handling depends on;
    the seat may forget held buttons when the pointer changes surface. *)
Definition calm (d d' : desktop V) : Prop :=
  quiet (views d) -> quiet (views d') /\ wm d' = wm d /\
  suppress_button_release_ d' = suppress_button_release_ d /\ (held d' = held d \/ held d' = []).

#[local] Instance calm_preorder : PreOrder calm.
Proof.
  split; [intros d Hq; auto|]. intros d1 d2 d3 H12 H23 Hq.
  destruct (H12 Hq) as (Hq2 & E2 & S2 & B2). destruct (H23 Hq2) as (Hq3 & E3 & S3 & B3).
  split_and!; [done|congruence|congruence|]. destruct B3 as [->| ->]; auto.
Qed.

Lemma calm_trans d1 d2 d3 : calm d1 d2 -> calm d2 d3 -> calm d1 d3.
Proof. apply transitivity. Qed.

Lemma calm_foldl {A} (f : desktop V -> A -> desktop V) l d :
  (forall a d, calm d (f d a)) -> calm d (foldl f d l).
Proof.
  intros Hf. revert d. induction l as [|a l IH]; intros d; simpl; [done|].
  etransitivity; [apply Hf|apply IH].
Qed.

Lemma calm_set_image i d : calm d (set_image i d).
Proof. unfold set_image, ApplyCursorImage. case_ifs; unfold calm, held; simpl; auto. Qed.

Lemma calm_call_out c d : calm d (call_out c d).
Proof. unfold calm, held. simpl. auto. Qed.

Lemma calm_call_protocols c d : calm d (call_protocols c d).
Proof. unfold call_protocols, when. case_ifs; [apply calm_call_out|done]. Qed.

Lemma calm_refocus f d :
  (forall s, buttons (pointer_state (f s)) = buttons (pointer_state s) \/ buttons (pointer_state (f s)) = []) ->
  calm d (refocus f d).
Proof.
  intros Hf. unfold refocus. set (d1 := d <{ seat_ ::= f }>).
  assert (H1 : calm d d1) by (unfold calm, held; simpl; auto).
  case_ifs; [done|]. unfold OnPointerFocusChange. eapply calm_trans; [exact H1|].
  eapply calm_trans; [|apply calm_call_protocols]. case_ifs; [apply calm_set_image|done].
Qed.

Lemma enter_buttons surface sx sy s :
  buttons (pointer_state (wlr_seat_pointer_enter surface_client surface sx sy s)) = buttons (pointer_state s).
Proof.
  unfold wlr_seat_pointer_enter. destruct (bool_decide _); [done|]. set (client := client_of _ surface s).
  set (s1 := match focused_client _ with Some _ => _ | None => _ end).
  assert (H1 : pointer_state s1 = pointer_state s).
  { subst s1. destruct (focused_client _) as [c|]; [|done].
    destruct (ptr_focused_surface _) as [f|]; [|done].
    destruct (leave_raw_same c f s) as (k & (_ & Hp & _) & _). done. }
  set (s2 := match client with Some _ => _ | None => _ end).
  assert (H2 : pointer_state s2 = pointer_state s).
  { rewrite <- H1. subst s2. destruct client as [c|]; [|done]. destruct surface as [f|]; [|done].
    destruct (next_serial c s1) as [s3 k] eqn:En.
    destruct (serial_posts _ _ _ _ _ _ En (posting_framed
      (PEnter k f (wl_fixed_from_double sx) (wl_fixed_from_double sy)))) as [(_ & Hp & _) _]. done. }
  simpl. by rewrite H2.
Qed.

Lemma calm_clear_pointer_focus d : calm d (clear_pointer_focus surface_client d).
Proof. apply calm_refocus. intros s. left. apply enter_buttons. Qed.

Lemma calm_pointer_enter f x y d : calm d (pointer_enter surface_client f x y d).
Proof.
  apply calm_refocus. intros s. unfold wlr_seat_pointer_notify_enter. case_ifs; [by right|].
  left. apply enter_buttons.
Qed.

Lemma calm_motion t x y d : calm d (d <{ seat_ ::= wlr_seat_pointer_notify_motion t x y }>).
Proof.
  unfold calm, held. simpl. intros Hq. split_and!; try done. left.
  unfold wlr_seat_pointer_notify_motion, wlr_seat_pointer_send_motion.
  destruct (focused_client _) as [c|]; [|done]. set (fixed := fixed_xy _). case_ifs; [|done].
  by rewrite (for_each_posts _ (fun _ => [PMotion t fixed.1 fixed.2])) by apply (posting_one (fun _ => _)).
Qed.

(** A quiet view's answer changes nothing but the view. *)
Lemma calm_enter_view v d : (quiet (views d) -> quiet v) -> calm d (enter_view surface_client (v, wm d) d).
Proof.
  intros Hv Hq. unfold enter_view. simpl. rewrite drop_all. simpl. unfold held. simpl. auto.
Qed.

Lemma calm_seat_notice n d : calm d (seat_notice surface_client n d).
Proof. destruct n; try done; [apply calm_clear_pointer_focus|apply calm_set_image]. Qed.

Lemma calm_deliver n d : calm d (deliver surface_client n d).
Proof.
  intros Hq. assert (H1 : calm d (enter_view surface_client (view_notice n (views d, wm d)) d)).
  { destruct (quiet_notice (views d) (wm d) n Hq) as (v & -> & Hv). by apply calm_enter_view. }
  destruct n; first [by apply H1|by apply calm_seat_notice].
Qed.

Lemma calm_cancel_view c d : calm d (cancel_view surface_client c d).
Proof.
  intros Hq. unfold cancel_view. case_ifs; [|by auto].
  destruct (quiet_cancel (views d) (wm d) c Hq) as (v & -> & Hv). by apply calm_enter_view.
Qed.

Lemma calm_ask_motion c d : quiet (views d) ->
  exists d', ask_motion surface_client c d = (d', false) /\ calm d d'.
Proof.
  intros Hq. unfold ask_motion. case_ifs; [|by exists d].
  destruct (quiet_motion (views d) (wm d) c (cursor_x (wm d)) (cursor_y (wm d)) Hq) as (v & -> & Hv).
  eexists. split; [done|]. by apply calm_enter_view.
Qed.

Lemma calm_ask_button c b p d : quiet (views d) ->
  exists d', ask_button surface_client c b p d = (d', false) /\ calm d d'.
Proof.
  intros Hq. unfold ask_button. case_ifs; [|by exists d].
  destruct (quiet_button (views d) (wm d) c b p Hq) as (v & -> & Hv).
  eexists. split; [done|]. by apply calm_enter_view.
Qed.

Lemma calm_on_views c f d : (forall v, quiet v -> quiet (f v)) -> calm d (on_views c f d).
Proof. intros Hf. unfold on_views, when. case_ifs; [|done]. unfold calm, held. simpl. auto. Qed.

(** An operation on the windows runs as it is, and its notices are calm. *)
Lemma run_calm f d : calm (d <{ wm ::= f }>) (run surface_client f d).
Proof. unfold run. apply calm_foldl. intros n d'. apply calm_deliver. Qed.

(** As [calm], but windows may change as long as the session stays as it is. *)
Definition steady (d d' : desktop V) : Prop :=
  quiet (views d) -> quiet (views d') /\ session (wm d') = session (wm d) /\
  suppress_button_release_ d' = suppress_button_release_ d /\ (held d' = held d \/ held d' = []).

Lemma calm_steady d d' : calm d d' -> steady d d'.
Proof. intros Hc Hq. destruct (Hc Hq) as (? & -> & ? & ?). done. Qed.

#[local] Instance steady_preorder : PreOrder steady.
Proof.
  split; [intros d Hq; auto|]. intros d1 d2 d3 H12 H23 Hq.
  destruct (H12 Hq) as (Hq2 & E2 & S2 & B2). destruct (H23 Hq2) as (Hq3 & E3 & S3 & B3).
  split_and!; [done|congruence|congruence|]. destruct B3 as [->| ->]; auto.
Qed.

Lemma steady_trans d1 d2 d3 : steady d1 d2 -> steady d2 d3 -> steady d1 d3.
Proof. apply transitivity. Qed.

Lemma steady_run f d : kept session (wm d) (f (wm d)) ->
  steady d (run surface_client f d).
Proof.
  intros Hf. apply (steady_trans _ (d <{ wm ::= f }>)).
  - unfold steady, held. simpl. auto.
  - apply calm_steady, run_calm.
Qed.

Lemma run_wm f d : quiet (views d) -> wm (run surface_client f d) = f (wm d).
Proof. intros Hq. by destruct (run_calm f d Hq) as (_ & -> & _). Qed.

Lemma calm_hovered t hit d : calm d (set_hovered t hit d).
Proof. apply calm_foldl. intros tl d'. case_ifs; unfold calm, held; simpl; auto. Qed.

Lemma calm_hover_buttons t hit d : calm d (hover_buttons surface_client t hit d).
Proof.
  assert (Hother : forall f h, calm d (d |> on_views UiSplitScreenSwitcher leave_maximize
    |> on_views UiTitlebarTooltip (tooltip_hover f h (cursor_x (wm d)) (cursor_y (wm d))))).
  { intros f h. eapply calm_trans; apply calm_on_views; intros; [by apply quiet_leave|by apply quiet_tooltip]. }
  unfold hover_buttons. destruct (hit_part hit); try apply Hother.
  destruct (t ≫= _) as [tl|]; [|apply Hother]. destruct (surface_of t d) as [f|]; [|apply Hother].
  eapply calm_trans; [apply calm_cancel_view|]. apply calm_on_views. intros. by apply quiet_hover.
Qed.

Lemma calm_cursor_focus name d :
  calm d (d |> SetCursorName name |> clear_pointer_focus surface_client).
Proof. eapply calm_trans; [apply calm_set_image|apply calm_clear_pointer_focus]. Qed.

Lemma calm_passthrough_motion time d : calm d (passthrough_motion surface_client time d).
Proof.
  unfold passthrough_motion. destruct (ToplevelAt _ _ _) as [[t surface] xy].
  set (hit := SsdHitAt t (wm d)). apply (calm_trans _ (set_hovered t hit d)); [apply calm_hovered|].
  set (d1 := set_hovered t hit d). clearbody d1. destruct (CsdResizeHitAt (wm d1)) as [[u e]|].
  { eapply calm_trans; [apply calm_cancel_view|].
    eapply calm_trans; [apply calm_on_views; intros; by apply quiet_leave|]. apply calm_cursor_focus. }
  apply (calm_trans _ (hover_buttons surface_client t hit d1)); [apply calm_hover_buttons|].
  set (d2 := hover_buttons _ t hit d1). clearbody d2.
  destruct (hit_part hit); try apply calm_cursor_focus.
  apply (calm_trans _ (if bool_decide (t = None) then SetCursorName (txt "default") d2 else d2)).
  { case_ifs; [apply calm_set_image|done]. }
  set (d3 := if bool_decide _ then _ else _). clearbody d3.
  destruct surface as [f|]; [|apply calm_clear_pointer_focus].
  destruct (ToSurfaceX _ _ _) as [x y]. eapply calm_trans; [apply calm_pointer_enter|apply calm_motion].
Qed.

(** Asks a view that says no. *)
Ltac ask_tac Hq :=
  match goal with
  | |- context [ask_motion surface_client ?c ?d] =>
      let d' := fresh "d" in let Hc := fresh "Hc" in
      destruct (calm_ask_motion c d Hq) as (d' & -> & Hc);
      eapply steady_trans; [apply calm_steady, Hc|]; destruct (Hc Hq) as [Hq' _];
      clear Hq Hc; rename Hq' into Hq; try clear d; cbn [fst snd]
  end.

Lemma steady_motion time d : quiet (views d) -> steady d (ProcessCursorMotion surface_client time d).
Proof.
  intros Hq. unfold ProcessCursorMotion. do 5 ask_tac Hq. destruct (negb _).
  - eapply steady_trans; [apply calm_steady, calm_cancel_view|].
    eapply steady_trans; [apply calm_steady, calm_cancel_view|].
    apply steady_run. kept_tac.
  - apply calm_steady, calm_passthrough_motion.
Qed.

(** ** The stroke of a button *)

(** How often the seat counts a button as pressed. *)
Definition pressed_count (b : Z) (l : list wlr_seat_pointer_button) : Z :=
  from_option (pressed_at l) 0 (find_button b l).

(** Before a press. *)
Record ready (b : Z) (d : desktop V) : Prop := {
  rd_quiet : quiet (views d);
  rd_session : session (wm d) = (false, None);
  rd_suppress : suppress_button_release_ d = false;
  rd_held : find_button b (held d) = None;
  rd_ok : buttons_ok (held d) }.

(** Between a press and its release: either the press was kept from the client, or
    the seat counts it once. *)
Record armed (b : Z) (d : desktop V) : Prop := {
  ar_quiet : quiet (views d);
  ar_unlocked : SessionLocked (wm d) = false;
  ar_case : (suppress_button_release_ d = true /\ find_button b (held d) = None) \/
            (suppress_button_release_ d = false /\ pending_window_menu_ (wm d) = None /\
             pressed_count b (held d) <= 1);
  ar_ok : buttons_ok (held d) }.

Lemma held_shrinks b (d d' : desktop V) : held d' = held d \/ held d' = [] ->
  (find_button b (held d) = None -> find_button b (held d') = None) /\
  (pressed_count b (held d) <= 1 -> pressed_count b (held d') <= 1) /\
  (buttons_ok (held d) -> buttons_ok (held d')).
Proof.
  intros [->| ->]; [done|]. unfold pressed_count. simpl. split_and!; [done|lia|].
  intros _. apply buttons_ok_nil.
Qed.

Lemma armed_steady b d d' : armed b d -> steady d d' -> armed b d'.
Proof.
  intros [Hq Hl Hc Hok] Hs. destruct (Hs Hq) as (Hq' & [= El Ep] & Es & Eh).
  destruct (held_shrinks b d d' Eh) as (H1 & H2 & H3). split; [done|congruence| |auto].
  rewrite Es, Ep. destruct Hc as [[? ?]|(? & ? & ?)]; auto.
Qed.

Lemma ready_steady b d d' : ready b d -> steady d d' -> ready b d'.
Proof.
  intros [Hq Hl Hs Hh Hok] Hst. destruct (Hst Hq) as (Hq' & El & Es & Eh).
  destruct (held_shrinks b d d' Eh) as (H1 & H2 & H3). split; [done|congruence|congruence|auto|auto].
Qed.

(** A press that the compositor keeps. *)
Lemma armed_suppressed b d d' : ready b d -> steady (set_suppress true d) d' -> armed b d'.
Proof.
  intros [Hq [= Hl Hp] Hs Hh Hok]. apply armed_steady. split; simpl; auto.
Qed.

(** Assignments to the handlers' own fields. *)
Lemma steady_forget d : steady d (forget_click d).
Proof. unfold steady, held. simpl. auto. Qed.
Lemma steady_remember t time d : steady d (remember_click t time d).
Proof. unfold steady, held. simpl. auto. Qed.
Lemma steady_pressed f d : steady d (d <{ ssd_pressed ::= f }>).
Proof. unfold steady, held. simpl. auto. Qed.
Lemma steady_call c d : steady d (call_out c d).
Proof. apply calm_steady, calm_call_out. Qed.
Lemma steady_cancel c d : steady d (cancel_view surface_client c d).
Proof. apply calm_steady, calm_cancel_view. Qed.

Ltac steady_step :=
  match goal with
  | |- steady ?a ?b => constr_eq a b; reflexivity
  | |- steady _ (run _ _ _) => eapply steady_trans; [|apply steady_run; kept_tac]
  | |- steady _ (forget_click _) => eapply steady_trans; [|apply steady_forget]
  | |- steady _ (remember_click _ _ _) => eapply steady_trans; [|apply steady_remember]
  | |- steady _ (call_out _ _) => eapply steady_trans; [|apply steady_call]
  | |- steady _ (cancel_view _ _ _) => eapply steady_trans; [|apply steady_cancel]
  | |- steady _ (_ <{ ssd_pressed ::= _ }>) => eapply steady_trans; [|apply steady_pressed]
  end.
Ltac steady_tac := repeat steady_step.

(** A press forwarded to the seat. *)
Lemma held_notify time b p (d : desktop V) :
  held (notify_button time b p d) =
  (if p then press_button b (held d) else release_button b (held d)).1.
Proof.
  unfold notify_button, held. simpl. unfold wlr_seat_pointer_notify_button.
  set (s0 := if p && _ then _ else _). set (l := buttons (pointer_state (seat_ d))).
  destruct (if p then _ else _) as [l' forward]. destruct forward; [|done]. simpl.
  set (s1 := upd_ptr _ s0).
  assert (Hs : buttons (pointer_state (wlr_seat_pointer_send_button time b p s1).1) = l').
  { unfold wlr_seat_pointer_send_button. destruct (focused_client _) as [c|]; [|done].
    destruct (next_serial c s1) as [s2 k] eqn:En.
    destruct (serial_posts _ _ _ _ _ _ En (posting_one (fun _ => PButton k time b p))) as [(_ & Hp & _) _].
    cbn [fst]. by rewrite Hp. }
  destruct (wlr_seat_pointer_send_button time b p s1) as [s2 n]. simpl in Hs.
  by destruct (negb _ && _ && _).
Qed.

Lemma find_button_app b l x : find_button b l = None -> button x = b ->
  find_button b (l ++ [x]) = Some (length l).
Proof.
  induction l as [|y l IH]; simpl; intros Hf Hx; [by rewrite Hx, Z.eqb_refl|].
  destruct (button y =? b); [done|]. destruct (find_button b l); [done|]. by rewrite IH.
Qed.

Lemma armed_forwarded b time d d' : ready b d -> steady (notify_button time b true d) d' -> armed b d'.
Proof.
  intros [Hq [= Hl Hp] Hs Hh Hok]. apply armed_steady. split; [done|done| |].
  2: { rewrite held_notify. destruct (press_button b (held d)) as [l fw] eqn:E.
       by apply (press_button_spec _ _ _ _ Hok) in E as [? _]. }
  right. split_and!; [done|done|]. rewrite held_notify. unfold press_button. rewrite Hh. case_ifs; simpl.
  - unfold pressed_count. rewrite Hh. simpl. lia.
  - unfold pressed_count. erewrite find_button_app by done. simpl. unfold pressed_at.
    by rewrite list_lookup_middle.
Qed.

Lemma armed_decoration t hit time b d : ready b d ->
  armed b (press_decoration surface_client resize_ok t hit time b d).
Proof.
  intros Hr. assert (Hr1 : ready b (run surface_client (FocusToplevel t) d)).
  { eapply ready_steady; [done|]. steady_tac. }
  unfold press_decoration. set (d1 := run _ _ d) in *. clearbody d1. destruct (negb _).
  - destruct Hr1 as [Hq [= Hl Hp] Hs Hh Hok]. split; [done|done| |done]. by left.
  - apply (armed_suppressed _ d1); [done|]. destruct (hit_part hit); try (destruct (second_click _ _ _)); steady_tac.
Qed.

Lemma armed_surface t surface y time b d : ready b d ->
  armed b (press_surface root_surface surface_client resize_ok t surface y time b d).
Proof.
  intros Hr. unfold press_surface. set (click := (b =? BTN_LEFT) && _). destruct t as [t|].
  - destruct (click && _).
    + apply (armed_suppressed _ (forget_click d)); [|steady_tac].
      eapply ready_steady; [done|apply steady_forget].
    + apply (armed_forwarded _ time (if click then remember_click (Some t) time d else forget_click d));
        [|steady_tac]. destruct click; (eapply ready_steady; [done|]).
      * apply steady_remember.
      * apply steady_forget.
  - apply (armed_forwarded _ time (forget_click d)); [|steady_tac].
    eapply ready_steady; [done|]. apply steady_forget.
Qed.

Lemma armed_press time b d : ready b d ->
  armed b (press_button_at root_surface surface_client resize_ok time b d).
Proof.
  intros Hr. unfold press_button_at. destruct (negb _).
  - set (d1 := run _ _ d). assert (Hr1 : ready b d1) by (eapply ready_steady; [done|]; subst d1; steady_tac).
    apply (armed_suppressed _ d1); [done|reflexivity].
  - destruct (ToplevelAt _ _ _) as [[t surface] xy].
    assert (Hrest : armed b (match hit_part (SsdHitAt t (wm d)), t with
      | kNone, _ | _, None => press_surface root_surface surface_client resize_ok t surface xy.2 time b d
      | _, Some t0 => press_decoration surface_client resize_ok t0 (SsdHitAt t (wm d)) time b d end)).
    { destruct (hit_part _), t; auto using armed_surface, armed_decoration. }
    destruct (CsdResizeHitAt (wm d)) as [[u e]|]; [|exact Hrest]. destruct (b =? BTN_LEFT); [|exact Hrest].
    set (d1 := run _ _ d). assert (Hr1 : ready b d1) by (eapply ready_steady; [done|]; subst d1; steady_tac).
    apply (armed_suppressed _ d1); [done|]. steady_tac.
Qed.

(** Up to the views, which are quiet. *)
Lemma button_reaches fp time b pressed d : quiet (views d) -> SessionLocked (wm d) = false ->
  exists d', steady d d' /\
  OnCursorButton root_surface surface_client resize_ok fp time b pressed d =
  if pressed then press_button_at root_surface surface_client resize_ok time b d'
  else release_button_at surface_client resize_ok time b d'.
Proof.
  intros Hq Hl. unfold OnCursorButton. set (d1 := call_protocols _ _).
  assert (H1 : steady d d1).
  { subst d1. eapply steady_trans; [|apply calm_steady, calm_call_protocols]. destruct (fp && _); [|done].
    eapply steady_trans; [apply calm_steady, (calm_set_image (CursorKindName (txt "default")))|].
    unfold steady, held. simpl. auto. }
  clearbody d1. destruct (H1 Hq) as (Hq1 & [= -> _] & _). rewrite Hl.
  repeat match goal with
  | |- context [ask_button surface_client ?c b pressed ?x] =>
      let x' := fresh "d" in let Hc := fresh "Hc" in
      destruct (calm_ask_button c b pressed x ltac:(assumption)) as (x' & -> & Hc);
      assert (steady d x') by (eapply steady_trans; [eassumption|by apply calm_steady]);
      destruct (Hc ltac:(assumption)) as [? _]; clear Hc; cbn [fst snd]
  end.
  eexists. split; [eassumption|done].
Qed.

Lemma ended_mode s : cursor_mode_ (EndInteractive resize_ok s) = kPassthrough /\
  grabbed_toplevel_ (EndInteractive resize_ok s) = None.
Proof.
  unfold EndInteractive. set (s1 := ResetCursorMode s).
  assert (H1 : cursor_mode_ s1 = kPassthrough /\ grabbed_toplevel_ s1 = None) by done.
  clearbody s1. destruct (grabbed_toplevel_ s) as [t|]; [|done]. case_ifs; [|done].
  by rewrite (kept_SetMaximized cursor_mode_ resize_ok t true s1),
    (kept_SetMaximized grabbed_toplevel_ resize_ok t true s1).
Qed.

(** After a release: nothing is left of the stroke. *)
Record finished (b : Z) (d : desktop V) : Prop := {
  fi_suppress : suppress_button_release_ d = false;
  fi_mode : cursor_mode_ (wm d) = kPassthrough;
  fi_grabbed : grabbed_toplevel_ (wm d) = None;
  fi_pending : b = BTN_RIGHT -> pending_window_menu_ (wm d) = None;
  fi_held : find_button b (held d) = None }.

Definition at_rest (b : Z) (d : desktop V) : Prop := finished b d /\ quiet (views d).

Lemma at_rest_calm b d d' : at_rest b d -> calm d d' -> at_rest b d'.
Proof.
  intros [[Hs Hm Hg Hp Hh] Hq] Hc. destruct (Hc Hq) as (Hq' & Ew & Es & Eh). split; [|done].
  split; rewrite ?Ew, ?Es; try done. by apply (held_shrinks b d d' Eh).
Qed.

Lemma at_rest_run b f d : at_rest b d -> kept session (wm d) (f (wm d)) ->
  cursor_mode_ (f (wm d)) = kPassthrough -> grabbed_toplevel_ (f (wm d)) = None ->
  at_rest b (run surface_client f d).
Proof.
  intros [[Hs Hm Hg Hp Hh] Hq] [= El Ep] Em Eg. apply (at_rest_calm _ (d <{ wm ::= f }>)); [|apply run_calm].
  split; [|done]. split; simpl; try done. intros E. rewrite Ep. auto.
Qed.

Lemma finished_menu b t x y d : at_rest b d -> finished b (ShowWindowMenu surface_client t x y d).
Proof.
  intros Hr. unfold ShowWindowMenu. destruct (find_tl t (wm d)) as [tl|]; [|apply Hr].
  destruct (_ || SessionLocked (wm d)); [apply Hr|]. cbv zeta.
  assert (Hcancel : forall d c, at_rest b d -> at_rest b (cancel_view surface_client c d))
    by (intros; eapply at_rest_calm; [done|apply calm_cancel_view]).
  set (d1 := clear_pointer_focus _ _). assert (Hr1 : at_rest b d1).
  { subst d1. eapply at_rest_calm; [|apply calm_clear_pointer_focus].
    set (d2 := cancel_view _ UiWindowSelector _). assert (Hr2 : at_rest b d2) by (subst d2; auto).
    clearbody d2. set (d3 := run surface_client ResetCursorMode d2).
    assert (Hr3 : at_rest b d3) by (subst d3; apply at_rest_run; [done|kept_tac|done|done]).
    clearbody d3. apply at_rest_run; [done|kept_tac| |].
    - rewrite (kept_FocusToplevel cursor_mode_). apply (fi_mode _ _ (proj1 Hr3)).
    - rewrite (kept_FocusToplevel grabbed_toplevel_). apply (fi_grabbed _ _ (proj1 Hr3)). }
  clearbody d1. destruct Hr1 as [[Hs Hm Hg Hp Hh] Hq].
  destruct (quiet_menu (views d1) (wm d1) (Surface tl) x y Hq) as (v' & shown & ->).
  unfold enter_view. simpl. rewrite drop_all. done.
Qed.

(** Releasing a button the seat counts at most once. *)
Lemma released_count b l : buttons_ok l -> pressed_count b l <= 1 ->
  find_button b (release_button b l).1 = None.
Proof.
  intros Hok. unfold pressed_count, release_button. destruct (find_button b l) as [i|] eqn:E; [|done].
  simpl. intros Hle. destruct (Z.ltb_spec 0 (pressed_at l i - 1)); [lia|]. simpl.
  destruct (release_button b l) as [l' fw] eqn:Er. pose proof (release_button_spec _ _ _ _ Hok Er) as [_ Hs].
  revert Er. unfold release_button. rewrite E. destruct (Z.ltb_spec 0 (pressed_at l i - 1)); [lia|].
  intros [= <- <-]. destruct Hs as [_ Hs]. destruct (find_button b (remove_button i l)) as [j|] eqn:Ej; [|done].
  exfalso. apply find_button_Some in Ej as (x & Hx & <-).
  assert (Hin : button x ∈ map button (remove_button i l))
    by (apply list_elem_of_fmap; eauto using list_elem_of_lookup_2).
  rewrite Hs, list_elem_of_In, filter_In, Z.eqb_refl in Hin. by destruct Hin.
Qed.

Lemma finished_release time b d : armed b d ->
  finished b (release_button_at surface_client resize_ok time b d).
Proof.
  intros Har. unfold release_button_at.
  assert (Hc : calm d (clear_pressed d)).
  { apply calm_foldl. intros tl d'. destruct (bool_decide _); unfold calm, held; simpl; auto. }
  assert (Har1 : armed b (clear_pressed d)) by (eapply armed_steady; [done|by apply calm_steady]).
  set (d1 := clear_pressed d) in *. clearbody d1. clear d Har Hc. destruct Har1 as [Hq Hl Hcase Hok].
  (* the state once the button is dealt with, before the grab ends *)
  assert (Hend : forall d, quiet (views d) -> suppress_button_release_ d = false ->
    find_button b (held d) = None -> (b = BTN_RIGHT -> pending_window_menu_ (wm d) = None) ->
    at_rest b (run surface_client (EndInteractive resize_ok) d)).
  { intros d Hqd Hs Hh Hp. apply (at_rest_calm _ (d <{ wm ::= EndInteractive resize_ok }>)); [|apply run_calm].
    destruct (ended_mode (wm d)) as [Em Eg]. split; [|done]. split; simpl; try done.
    intros E. pose proof (kept_EndInteractive session resize_ok (wm d)) as [= _ Ep]. rewrite Ep. auto. }
  assert (Hplain : (b = BTN_RIGHT -> pending_window_menu_ (wm d1) = None) ->
    finished b (run surface_client (EndInteractive resize_ok)
      (if suppress_button_release_ d1 then set_suppress false d1 else notify_button time b false d1))).
  { intros Hp. apply Hend; destruct Hcase as [[-> Hh]|(Es & _ & Hh)]; try rewrite Es; try done.
    rewrite held_notify. by apply released_count. }
  destruct (pending_window_menu_ (wm d1)) as [t|] eqn:Ep; [|by apply Hplain].
  destruct (Z.eqb_spec b BTN_RIGHT) as [Eb|Eb]; [|by apply Hplain].
  destruct Hcase as [[_ Hh]|(_ & ? & _)]; [|done]. apply finished_menu, Hend; done.
Qed.

(** The pointer moves to a point; then the handler runs. *)
Definition move_pointer (d : desktop V) (m : Z * Q * Q) : desktop V :=
  d |> (fun d => d <{ wm ::= fun w => w <{ cursor_x := m.1.2 }> <{ cursor_y := m.2 }> }>)
    |> ProcessCursorMotion surface_client m.1.1.

Lemma armed_move b d m : armed b d -> armed b (move_pointer d m).
Proof.
  intros Har. apply (armed_steady b d); [done|]. unfold move_pointer. set (d1 := d <{ wm ::= _ }>).
  assert (H1 : steady d d1) by (unfold steady, held; simpl; auto).
  eapply steady_trans; [exact H1|]. intros Hq. by apply steady_motion.
Qed.

Lemma armed_moves b ms d : armed b d -> armed b (foldl move_pointer d ms).
Proof. revert d. induction ms as [|m ms IH]; intros d Har; simpl; [done|]. by apply IH, armed_move. Qed.

End Strokes.

(** C13. The stroke of a button: while the session is unlocked and no view (a menu, an
    overview, the popup of the maximize button) is shown from the press to the release,
    pressing a button on a client, a titlebar, its buttons or a window border, or
    during a menu-driven move, moving the pointer and releasing the button again
    leaves nothing behind: the release is not marked to be swallowed any more, no
    window is being moved or resized, no menu is pending, and the seat does not
    count the button as held, so that the next press reaches its client. *)
Theorem button_stroke_finishes {V : Type} `{OutputLayout} `{VV : !Views V} `{Scene} (quiet : V -> Prop)
    `{!QuietViews quiet} (root_surface surface_client : nat -> nat) (resize_ok : Z -> Z -> bool)
    (d : desktop V) (b time time' : Z) (moves : list (Z * Q * Q))
    (Hquiet : quiet (views d)) (Hunlocked : SessionLocked (wm d) = false)
    (Hpending : pending_window_menu_ (wm d) = None)
    (Hsuppress : suppress_button_release_ d = false) (Hup : find_button b (held d) = None)
    (Hok : buttons_ok (held d)) :
  let press := OnCursorButton root_surface surface_client resize_ok true time b true d in
  let moved := foldl (move_pointer surface_client) press moves in
  let d' := OnCursorButton root_surface surface_client resize_ok true time' b false moved in
  suppress_button_release_ d' = false /\ cursor_mode_ (wm d') = kPassthrough /\
  grabbed_toplevel_ (wm d') = None /\ (b = BTN_RIGHT -> pending_window_menu_ (wm d') = None) /\
  find_button b (held d') = None.
Proof.
  cbv zeta.
  assert (Hr : ready quiet b d) by (split; unfold session; congruence || done).
  destruct (button_reaches quiet root_surface surface_client resize_ok true time b true d Hquiet Hunlocked)
    as (d1 & Hs1 & ->).
  assert (Har : armed quiet b (foldl (move_pointer surface_client)
    (press_button_at root_surface surface_client resize_ok time b d1) moves)).
  { apply armed_moves; [done|]. apply armed_press; [done|]. by eapply ready_steady. }
  destruct (button_reaches quiet root_surface surface_client resize_ok true time' b false _
    (ar_quiet _ _ _ Har) (ar_unlocked _ _ _ Har)) as (d2 & Hs2 & ->).
  assert (Hf : finished b (release_button_at surface_client resize_ok time' b d2))
    by (eapply (finished_release quiet); by eapply armed_steady).
  destruct Hf. done.
Qed.

(** ** A demonstration *)

#[local] Existing Instance demo_layout.

(** No views, and a scene that knows the first window's surface. *)
#[export] Instance no_views : Views unit := {|
  view_motion c x y vw := (vw, false);
  view_button c b p vw := (vw, false);
  view_active c v := false;
  view_cancel c vw := vw;
  view_notice n vw := vw;
  menu_show f x y vw := (vw, false);
  hover_maximize f x y top v := v;
  leave_maximize v := v;
  tooltip_hover f h x y v := v |}.

#[export] Instance no_views_quiet : QuietViews (fun _ : unit => True).
Proof. split; intros; simpl; eauto. Qed.

#[export] Instance demo_scene : Scene := {|
  scene_node_at x y w :=
    match find_tl 1 w ≫= scene_tree with
    | Some n =>
        let sx := (x - inject_Z (node_x n))%Q in
        let sy := (y - inject_Z (node_y n))%Q in
        if qge sx 0 && qlt sx 800 && qge sy (-31) && qlt sy 600
        then Some (SceneHit (if qge sy 0 then Some 11%nat else None) [None; Some 1%nat] sx sy) else None
    | None => None
    end;
  OwnsSurface f := false;
  x_scale := 1 |}.

Definition demo_seat : wlr_seat :=
  default wlr_seat_create (pointer_run (fun f => f / 10)%nat [OpBind 1; OpGetPointer 1 7] wlr_seat_create).

Definition demo_desktop (w : compositor) : desktop unit :=
  Desktop w () demo_seat false None 0 0 0 false (CursorKindName (txt "default")) false
    (CursorKindName (txt "default")) ∅ ∅ [] false false false [].

(** The pointer enters the first window at (700, 340); then the left button is
    pressed, the pointer leaves the window, and the button is released. *)
Definition demo_hover : desktop unit :=
  move_pointer (fun f => f / 10)%nat (demo_desktop demo_windows) (0, 700%Q, 340%Q).

Lemma button_stroke_finishes_witness :
  map button (held (OnCursorButton id (fun f => f / 10)%nat (fun _ _ => true) true 5 BTN_LEFT true demo_hover))
    = [BTN_LEFT] /\
  find_button BTN_LEFT (held (OnCursorButton id (fun f => f / 10)%nat (fun _ _ => true) true 9 BTN_LEFT false
    (foldl (move_pointer (fun f => f / 10)%nat)
       (OnCursorButton id (fun f => f / 10)%nat (fun _ _ => true) true 5 BTN_LEFT true demo_hover)
       [(6, 100%Q, 100%Q); (7, 720%Q, 360%Q)]))) = None.
Proof.
  split; [vm_compute; reflexivity|].
  refine (proj2 (proj2 (proj2 (proj2 (button_stroke_finishes (fun _ => True) id (fun f => f / 10)%nat
    (fun _ _ => true) demo_hover BTN_LEFT 5 9 [(6, 100%Q, 100%Q); (7, 720%Q, 360%Q)] I _ _ _ _ _)))));
    try (vm_compute; reflexivity).
  replace (held demo_hover) with (@nil wlr_seat_pointer_button) by (vm_compute; reflexivity).
  apply buttons_ok_nil.
Defined.

(** ** When a view takes the release *)

(** The popup of the maximize button, as far as buttons are concerned: [true] while it is
    shown under the pointer, when it takes every button. *)
#[local] Instance popup_views : Views bool := {|
  view_motion c x y vw := (vw, false);
  view_button c b p vw := (vw, match c with UiSplitScreenSwitcher => vw.1 | _ => false end);
  view_active c v := match c with UiSplitScreenSwitcher => v | _ => false end;
  view_cancel c vw := (match c with UiSplitScreenSwitcher => false | _ => vw.1 end, vw.2);
  view_notice n vw := vw;
  menu_show f x y vw := (vw, false);
  hover_maximize f x y top v := v;
  leave_maximize v := false;
  tooltip_hover f h x y v := v |}.

Definition popup_desktop : desktop bool :=
  Desktop (SetSsdEnabled (fun _ _ => true) true 1 true demo_windows <{ ui := fun c => match c with UiSplitScreenSwitcher => true | _ => false end }>)
    false demo_seat false None 0 0 0 false (CursorKindName (txt "default")) false
    (CursorKindName (txt "default")) ∅ ∅ [] false false false [].

(** The right button goes down on a titlebar button; the popup shows under the pointer and
    takes the release, so that suppress_button_release_ stays set. After it is gone a whole
    left click on the window reaches its client as a press without a release. *)
Definition press_then_popup : desktop bool :=
  popup_desktop
    |> (fun d => move_pointer (fun f => f / 10)%nat d (0, 1340%Q, 230%Q))
    |> OnCursorButton id (fun f => f / 10)%nat (fun _ _ => true) true 5 BTN_RIGHT true
    |> (fun d => d <{ views := true }>)
    |> OnCursorButton id (fun f => f / 10)%nat (fun _ _ => true) true 9 BTN_RIGHT false
    |> (fun d => d <{ views := false }>)
    |> (fun d => move_pointer (fun f => f / 10)%nat d (20, 700%Q, 340%Q))
    |> OnCursorButton id (fun f => f / 10)%nat (fun _ _ => true) true 21 BTN_LEFT true
    |> OnCursorButton id (fun f => f / 10)%nat (fun _ _ => true) true 22 BTN_LEFT false.

Example popup_swallows_release : map button (held press_then_popup) = [BTN_LEFT].
Proof. vm_compute. reflexivity. Qed.
