(* ===== verification/PointerSteps.v ===== *)
(** * What holds through the pointer handlers

    The handlers of [Pointer] are made of few kinds of steps: assignments to their
    own fields, changes of the seat's pointer, calls to other parts, questions to
    the views and operations on the windows. A relation that holds of each of them
    ([HandlerRel]) holds from before to after a handler. *)

From S2P Require Import Prelude Box Ssd Window Windows Serials Seat SeatPointer SeatTouch Desktop Pointer.

(** A field of the handlers themselves. *)
Inductive own_step {V : Type} (d : desktop V) : desktop V -> Prop :=
| own_suppress b : own_step d (set_suppress b d)
| own_forget : own_step d (forget_click d)
| own_remember t time : own_step d (remember_click t time d)
| own_hovered f : own_step d (d <{ ssd_hovered ::= f }>)
| own_pressed f : own_step d (d <{ ssd_pressed ::= f }>)
| own_shown b : own_step d (d <{ cursor_hidden_by_touch_ := b }>)
| own_frame b : own_step d (d <{ touch_pointer_frame_pending_ := b }>)
| own_image i : own_step d (set_image i d)
| own_views f : own_step d (d <{ views ::= f }>)
| own_menu t : own_step d (d <{ wm ::= fun w => w <{ pending_window_menu_ := t }> }>)
| own_cursor x y : own_step d (d <{ wm ::= fun w => w <{ cursor_x := x }> <{ cursor_y := y }> }>)
| own_call c : (forall p, c <> EmulatedButton p) -> own_step d (call_out c d).

(** An operation of the seat's pointer. *)
Inductive seat_step (surface_client : nat -> nat) (s : wlr_seat) : wlr_seat -> Prop :=
| seat_clear : seat_step surface_client s (wlr_seat_pointer_clear_focus surface_client s)
| seat_enter f x y : seat_step surface_client s (wlr_seat_pointer_notify_enter surface_client f x y s)
| seat_motion t x y : seat_step surface_client s (wlr_seat_pointer_notify_motion t x y s)
| seat_button t b p : seat_step surface_client s (wlr_seat_pointer_notify_button t b p s).1
| seat_frame : seat_step surface_client s (wlr_seat_pointer_notify_frame s)
| seat_surface_gone f : seat_step surface_client s (seat_pointer_handle_surface_destroy surface_client f s).

(** Operations on the windows that the handlers run. *)
Inductive handler_op `{OutputLayout} (resize_ok : Z -> Z -> bool) : (compositor -> compositor) -> Prop :=
| op_focus t : handler_op resize_ok (FocusToplevel t)
| op_focus_layer l : handler_op resize_ok (FocusLayerSurface l)
| op_minimize t : handler_op resize_ok (Minimize t)
| op_toggle t : handler_op resize_ok (ToggleMaximized resize_ok t)
| op_begin t m e : handler_op resize_ok (BeginInteractive resize_ok t m e)
| op_end : handler_op resize_ok (EndInteractive resize_ok)
| op_reset : handler_op resize_ok ResetCursorMode
| op_motion : handler_op resize_ok ProcessInteractiveMotion.

(** What a view makes of the windows. *)
Inductive view_step `{Views V} (v : V) (w : compositor) : V * compositor -> Prop :=
| vs_motion c x y : view_step v w (view_motion c x y (v, w)).1
| vs_button c b p : view_step v w (view_button c b p (v, w)).1
| vs_cancel c : view_step v w (view_cancel c (v, w))
| vs_notice n : view_step v w (view_notice n (v, w))
| vs_menu f x y : view_step v w (menu_show f x y (v, w)).1.

Class HandlerRel {V : Type} `{OutputLayout} `{Views V} (surface_client : nat -> nat)
    (resize_ok : Z -> Z -> bool) (R : relation (desktop V)) := {
  hr_preorder : PreOrder R;
  hr_own : forall d d', own_step d d' -> R d d';
  hr_seat : forall d s, seat_step surface_client (seat_ d) s -> R d (d <{ seat_ := s }>);
  hr_op : forall d f, handler_op resize_ok f -> R d (d <{ wm ::= f }>);
  hr_view : forall d vw, view_step (views d) (wm d) vw -> R d (d <{ views := vw.1 }> <{ wm := vw.2 }>) }.

Section Steps.
Context {V : Type} `{OutputLayout} `{Views V} `{Scene}.
Context (root_surface surface_client : nat -> nat) (resize_ok : Z -> Z -> bool).
Context (R : relation (desktop V)) `{HR : !HandlerRel surface_client resize_ok R}.
#[local] Set Default Proof Using "Type*".

#[local] Instance hr_pre : PreOrder R := hr_preorder.

Lemma hr_trans d1 d2 d3 : R d1 d2 -> R d2 d3 -> R d1 d3.
Proof. apply transitivity. Qed.
Lemma hr_refl d : R d d.
Proof. reflexivity. Qed.

Lemma hr_foldl {A} (f : desktop V -> A -> desktop V) l d :
  (forall a d, R d (f d a)) -> R d (foldl f d l).
Proof.
  intros Hf. revert d. induction l as [|a l IH]; intros d; simpl; [reflexivity|].
  etransitivity; [apply Hf|apply IH].
Qed.

Lemma hr_call c d : (forall p, c <> EmulatedButton p) -> R d (call_out c d).
Proof. intros. by apply hr_own, own_call. Qed.
Lemma hr_protocols c d : (forall p, c <> EmulatedButton p) -> R d (call_protocols c d).
Proof. intros. unfold call_protocols, when. destruct (protocol_manager_ _); [by apply hr_call|apply hr_refl]. Qed.
Lemma hr_image i d : R d (set_image i d).
Proof. apply hr_own, own_image. Qed.

Lemma hr_refocus f d : (forall s, seat_step surface_client s (f s)) -> R d (refocus f d).
Proof.
  intros Hf. unfold refocus. eapply hr_trans; [apply (hr_seat d (f (seat_ d))), Hf|].
  change (d <{ seat_ ::= f }>) with (d <{ seat_ := f (seat_ d) }>).
  destruct (bool_decide _); [apply hr_refl|]. unfold OnPointerFocusChange.
  eapply hr_trans; [|by apply hr_protocols]. destruct (bool_decide _); [apply hr_image|apply hr_refl].
Qed.

Lemma hr_clear d : R d (clear_pointer_focus surface_client d).
Proof. apply hr_refocus. intros. apply seat_clear. Qed.
Lemma hr_enter f x y d : R d (pointer_enter surface_client f x y d).
Proof. apply hr_refocus. intros. apply seat_enter. Qed.
Lemma hr_seat_notice n d : R d (seat_notice surface_client n d).
Proof. destruct n; try apply hr_refl; [apply hr_clear|apply hr_image]. Qed.
Lemma hr_enter_view vw d : view_step (views d) (wm d) vw -> R d (enter_view surface_client vw d).
Proof.
  intros Hvw. unfold enter_view. eapply hr_trans; [by apply hr_view|].
  apply hr_foldl. intros. apply hr_seat_notice.
Qed.
Lemma hr_deliver n d : R d (deliver surface_client n d).
Proof. destruct n; first [apply hr_seat_notice|apply hr_enter_view, vs_notice]. Qed.

(** An operation on the windows that is related runs in relation. *)
Lemma hr_run_rel f d : R d (d <{ wm ::= f }>) -> R d (run surface_client f d).
Proof. intros Hf. unfold run. eapply hr_trans; [exact Hf|]. apply hr_foldl. intros. apply hr_deliver. Qed.
Lemma hr_run f d : handler_op resize_ok f -> R d (run surface_client f d).
Proof. intros. by apply hr_run_rel, hr_op. Qed.

Lemma hr_ask_motion c d : R d (ask_motion surface_client c d).1.
Proof.
  unfold ask_motion. destruct (has_view c d); [|apply hr_refl].
  pose proof (vs_motion (views d) (wm d) c (cursor_x (wm d)) (cursor_y (wm d))) as Hv.
  destruct (view_motion _ _ _ _) as [vw ?]. by apply hr_enter_view.
Qed.
Lemma hr_ask_button c b p d : R d (ask_button surface_client c b p d).1.
Proof.
  unfold ask_button. destruct (has_view c d); [|apply hr_refl].
  pose proof (vs_button (views d) (wm d) c b p) as Hv.
  destruct (view_button _ _ _ _) as [vw ?]. by apply hr_enter_view.
Qed.
Lemma hr_cancel c d : R d (cancel_view surface_client c d).
Proof. unfold cancel_view. destruct (has_view c d); [apply hr_enter_view, vs_cancel|apply hr_refl]. Qed.
Lemma hr_on_views c f d : R d (on_views c f d).
Proof. unfold on_views, when. destruct (has_view c d); [apply hr_own, own_views|apply hr_refl]. Qed.
Lemma hr_notify t b p d : R d (notify_button t b p d).
Proof. apply (hr_seat d (wlr_seat_pointer_notify_button t b p (seat_ d)).1), seat_button. Qed.

(** Decomposes a handler into such steps. *)
Ltac hr_step :=
  cbv beta;
  match goal with
  | |- R ?a ?b => constr_eq a b; apply hr_refl
  | |- R _ (run _ ?f ?d) => apply (hr_trans _ d); [|apply hr_run; constructor]
  | |- R _ (clear_pointer_focus _ ?d) => apply (hr_trans _ d); [|apply hr_clear]
  | |- R _ (pointer_enter _ _ _ _ ?d) => apply (hr_trans _ d); [|apply hr_enter]
  | |- R _ (SetCursorName _ ?d) => apply (hr_trans _ d); [|apply hr_image]
  | |- R _ (cancel_view _ _ ?d) => apply (hr_trans _ d); [|apply hr_cancel]
  | |- R _ (on_views _ _ ?d) => apply (hr_trans _ d); [|apply hr_on_views]
  | |- R _ (notify_button _ _ _ ?d) => apply (hr_trans _ d); [|apply hr_notify]
  | |- R _ (call_out _ ?d) => apply (hr_trans _ d); [|by apply hr_call]
  | |- R _ (call_protocols _ ?d) => apply (hr_trans _ d); [|by apply hr_protocols]
  | |- R _ (foldl ?f ?d ?l) => apply (hr_trans _ d); [|apply hr_foldl; intros]
  | |- R _ (?d <{ seat_ ::= wlr_seat_pointer_notify_motion ?t ?x ?y }>) =>
      apply (hr_trans _ d); [|apply (hr_seat d (wlr_seat_pointer_notify_motion t x y (seat_ d))), seat_motion]
  | |- R _ (set_suppress _ ?d) => apply (hr_trans _ d); [|apply hr_own; constructor]
  | |- R _ (forget_click ?d) => apply (hr_trans _ d); [|apply hr_own; constructor]
  | |- R _ (remember_click _ _ ?d) => apply (hr_trans _ d); [|apply hr_own; constructor]
  | |- R _ (modify ?g ?f ?d) => apply (hr_trans _ d); [|apply hr_own; constructor]
  | |- R _ (if ?b then _ else _) => destruct b
  | |- R _ (match ?x with _ => _ end) => destruct x
  end.
Ltac hr_tac := repeat hr_step.

Lemma hr_hover_buttons t h d : R d (hover_buttons surface_client t h d).
Proof. unfold hover_buttons. hr_tac. Qed.
Lemma hr_hovered t h d : R d (set_hovered t h d).
Proof. unfold set_hovered. hr_tac. Qed.

Lemma hr_passthrough time d : R d (passthrough_motion surface_client time d).
Proof.
  unfold passthrough_motion. destruct (ToplevelAt _ _ _) as [[t surface] xy].
  set (hit := SsdHitAt t (wm d)). apply (hr_trans _ (set_hovered t hit d)); [apply hr_hovered|].
  set (d1 := set_hovered t hit d). clearbody d1. destruct (CsdResizeHitAt (wm d1)) as [[u e]|]; [hr_tac|].
  apply (hr_trans _ (hover_buttons surface_client t hit d1)); [apply hr_hover_buttons|].
  set (d2 := hover_buttons _ t hit d1). clearbody d2. destruct (hit_part hit); hr_tac.
Qed.

(** Asks a view, whatever it answers. *)
Ltac hr_ask :=
  match goal with
  | |- R _ (let '(_, _) := ask_motion surface_client ?c ?d in _) =>
      let E := fresh "E" in pose proof (hr_ask_motion c d) as E;
      destruct (ask_motion surface_client c d) as [? []]; cbn [fst] in E;
      (eapply hr_trans; [exact E|]); clear E
  | |- R _ (let '(_, _) := ask_button surface_client ?c ?b ?p ?d in _) =>
      let E := fresh "E" in pose proof (hr_ask_button c b p d) as E;
      destruct (ask_button surface_client c b p d) as [? []]; cbn [fst] in E;
      (eapply hr_trans; [exact E|]); clear E
  end.

Lemma hr_ProcessCursorMotion time d : R d (ProcessCursorMotion surface_client time d).
Proof.
  unfold ProcessCursorMotion, over_view. repeat (hr_ask; [by hr_tac|]).
  destruct (negb _); [hr_tac|apply hr_passthrough].
Qed.

Lemma hr_decoration t hit time b d : R d (press_decoration surface_client resize_ok t hit time b d).
Proof.
  unfold press_decoration. set (d1 := set_suppress true _).
  apply (hr_trans _ d1); [subst d1; hr_tac|]. clearbody d1.
  destruct (negb _); [hr_tac|]. set (d2 := d1 <{ ssd_pressed ::= _ }>).
  apply (hr_trans _ d2); [apply hr_own, own_pressed|]. clearbody d2. destruct (hit_part hit); hr_tac.
Qed.

Lemma hr_surface t f y time b d :
  R d (press_surface root_surface surface_client resize_ok t f y time b d).
Proof. unfold press_surface. destruct t; hr_tac. Qed.

Lemma hr_press time b d : R d (press_button_at root_surface surface_client resize_ok time b d).
Proof.
  unfold press_button_at. destruct (negb _); [hr_tac|].
  destruct (ToplevelAt _ _ _) as [[t surface] xy].
  destruct (CsdResizeHitAt (wm d)) as [[u e]|], (b =? BTN_LEFT), (hit_part (SsdHitAt t (wm d))), t;
    first [apply hr_surface|apply hr_decoration|hr_tac].
Qed.

Lemma hr_menu t x y d : R d (ShowWindowMenu surface_client t x y d).
Proof.
  unfold ShowWindowMenu. destruct (find_tl t (wm d)); [|apply hr_refl]. destruct (_ || _); [apply hr_refl|].
  set (d1 := clear_pointer_focus _ _). apply (hr_trans _ d1); [subst d1; hr_tac|]. apply hr_enter_view, vs_menu.
Qed.

Lemma hr_release time b d : R d (release_button_at surface_client resize_ok time b d).
Proof.
  unfold release_button_at, clear_pressed. set (d1 := foldl _ d _).
  apply (hr_trans _ d1); [subst d1; hr_tac|]. clearbody d1.
  destruct (pending_window_menu_ (wm d1)), (b =? BTN_RIGHT); try hr_tac.
  eapply hr_trans; [|apply hr_menu]. hr_tac.
Qed.

Lemma hr_OnCursorButton fp time b pressed d :
  R d (OnCursorButton root_surface surface_client resize_ok fp time b pressed d).
Proof.
  unfold OnCursorButton, after_view. set (d1 := call_protocols _ _).
  apply (hr_trans _ d1); [subst d1; hr_tac|]. clearbody d1.
  destruct (SessionLocked (wm d1)); [hr_tac|].
  assert (Hm : forall d', R d' (ProcessCursorMotion surface_client time d'))
    by (intros; apply hr_ProcessCursorMotion).
  hr_ask.
  { destruct (is_view_active _ _); [apply hr_refl|]. eapply hr_trans; [|apply Hm]. destruct pressed; hr_tac. }
  hr_ask; [apply hr_refl|].
  do 3 (hr_ask; [destruct (is_view_active _ _); [apply hr_refl|apply Hm]|]).
  destruct pressed; [apply hr_press|apply hr_release].
Qed.

End Steps.
