(* ===== verification/Touch.v ===== *)
(** * Touch events

    Models the touch handlers of CompositorPrivate
    (src/src/core/compositor_private/compositor_private.cc: FindTouchPoint,
    CancelTouchDevice, MoveTouchCursor, SendPointerTouchButton, OnTouchDown,
    OnTouchUp, OnTouchMotion, OnTouchCancel, OnTouchFrame) over the state of
    [Desktop]. A finger on a surface that understands touch becomes a touch point
    of the seat; the first finger elsewhere drives the pointer; fingers on a view
    belong to the view.

    The theorem follows any number of fingers on any number of devices, together
    with clients, surfaces and devices that go away. *)

From S2P Require Import Prelude Box Ssd Window Windows Workspaces Serials.
From S2P Require Import Seat SeatPointer SeatTouch Desktop Pointer PointerSteps.

(** wlr_cursor_warp_absolute: where a device's point is in the layout. *)
Class TouchLayout := { warp_absolute : nat -> Q -> Q -> compositor -> Q * Q }.

Definition touch_key (p : TouchPoint) : nat * Z := (tch_touch p, tch_id p).
Definition is_touch (touch : nat) (id : Z) (p : TouchPoint) : bool :=
  (tch_touch p =? touch)%nat && (tch_id p =? id).

(** Writing through a pointer to the first match. *)
Fixpoint upd_first {A} (c : A -> bool) (f : A -> A) (l : list A) : list A :=
  match l with
  | [] => []
  | x :: l => if c x then f x :: l else x :: upd_first c f l
  end.

Section Handlers.
Context {V : Type} `{OutputLayout} `{Views V} `{Scene} `{TouchLayout}.
Variable root_surface : nat -> nat.
Variable surface_client : nat -> nat.
Variable resize_ok : Z -> Z -> bool.

#[local] Abbreviation run := (run surface_client).

Definition upd_seat (f : wlr_seat -> wlr_seat) (d : desktop V) : desktop V := d <{ seat_ ::= f }>.
Definition upd_touch_points (f : list TouchPoint -> list TouchPoint) (d : desktop V) : desktop V :=
  d <{ touch_points_ ::= f }>.
Definition feedback (c : call) (d : desktop V) : desktop V := when (touch_feedback_ d) (call_out c) d.

Definition FindTouchPoint (touch : nat) (id : Z) (d : desktop V) : option TouchPoint :=
  List.find (is_touch touch id) (touch_points_ d).

Definition MoveTouchCursor (touch : nat) (x y : Q) (d : desktop V) : desktop V :=
  let '(cx, cy) := warp_absolute touch x y (wm d) in
  d |> (fun d => d <{ wm ::= fun w => w <{ cursor_x := cx }> <{ cursor_y := cy }> }>)
    |> call_protocols MoveDragCall.

Definition SendPointerTouchButton (time : Z) (pressed : bool) (d : desktop V) : desktop V :=
  d |> call_out (EmulatedButton pressed)
    |> OnCursorButton root_surface surface_client resize_ok false time BTN_LEFT pressed
    |> (fun d => d <{ touch_pointer_frame_pending_ := true }>).

(** The clients of a device's native points, each once. *)
Definition native_clients (touch : nat) (d : desktop V) : list nat :=
  foldl (fun clients p =>
    if negb (tch_touch p =? touch)%nat || negb (bool_decide (tch_mode p = kNative)) then clients
    else match wlr_seat_touch_get_point (tch_id p) (seat_ d) with
         | Some q => if decide (tp_client q ∈ clients) then clients else clients ++ [tp_client q]
         | None => clients
         end) [] (touch_points_ d).

Definition CancelTouchDevice (touch : nat) (d : desktop V) : desktop V :=
  let clients := native_clients touch d in
  let release_pointer := existsb (fun p => (tch_touch p =? touch)%nat &&
                                           bool_decide (tch_mode p = kPointer)) (touch_points_ d) in
  let d := upd_seat (fun s => foldl (fun s c => wlr_seat_touch_notify_cancel c s) s clients) d in
  let d := if release_pointer
           then d |> SendPointerTouchButton 0 false |> upd_seat wlr_seat_pointer_notify_frame
           else d in
  d |> upd_touch_points (List.filter (fun p => negb (tch_touch p =? touch)%nat))
    |> feedback (FeedbackCancelDevice touch).

(** A new touch point at the cursor. *)
Definition push_touch (touch : nat) (id : Z) (mode : TouchPointMode) (d : desktop V) : desktop V :=
  upd_touch_points (fun l => l ++ [MkTouch touch id mode (cursor_x (wm d)) (cursor_y (wm d))]) d.

(** A finger on an active view. *)
Definition down_on_view (c : ui_component) (touch : nat) (id : Z) (mode : TouchPointMode) (d : desktop V)
    : desktop V :=
  let d := (ask_motion surface_client c d).1 in
  let d := (ask_button surface_client c BTN_LEFT true d).1 in
  push_touch touch id mode d.

(** A finger on a surface that takes touches: whether the seat took it. *)
Definition down_native (addr : option nat) (time : Z) (id : Z) (d : desktop V) : desktop V * bool :=
  let '(t, surface, xy) := ToplevelAt (cursor_x (wm d)) (cursor_y (wm d)) (wm d) in
  match surface with
  | Some f =>
      if wlr_surface_accepts_touch surface_client f (seat_ d) then
        let d := call_protocols (NotifyTouch (Some f) time) d in
        let '(x, y) := ToSurfaceX (Some f) xy (wm d) in
        let '(s, serial) := wlr_seat_touch_notify_down surface_client addr f time id x y (seat_ d) in
        let d := d <{ seat_ := s }> in
        if negb (serial =? 0) then
          (match t with
           | Some t => run (FocusToplevel t) d
           | None => run (FocusLayerSurface (LayerSurfaceFor root_surface (Some f) (wm d))) d
           end, true)
        else (d, false)
      else (d, false)
  | None => (d, false)
  end.

Definition pointer_in_use (d : desktop V) : bool :=
  existsb (fun p => bool_decide (tch_mode p = kPointer)) (touch_points_ d).

Definition OnTouchDown (addr : option nat) (touch : nat) (id : Z) (x y : Q) (time : Z) (d : desktop V)
    : desktop V :=
  let d := call_protocols (TouchGestureDown touch id x y) d in
  let d := MoveTouchCursor touch x y d in
  if is_view_active UiMultitasking d then down_on_view UiMultitasking touch id kMultitasking d
  else if is_view_active UiWindowPreviews d then down_on_view UiWindowPreviews touch id kWindowPreviews d
  else if is_view_active UiWindowSelector d then down_on_view UiWindowSelector touch id kSelector d
  else
    let d := UnsetCursorImage (d <{ cursor_hidden_by_touch_ := true }>) in
    let '(d, native) := down_native addr time id d in
    let '(d, mode) :=
      if native then (d, kNative)
      else if negb (pointer_in_use d) then
        (d |> ProcessCursorMotion surface_client time |> UnsetCursorImage
           |> SendPointerTouchButton time true, kPointer)
      else (d, kIgnored) in
    d |> push_touch touch id mode
      |> (fun d => feedback (FeedbackDown touch id (cursor_x (wm d)) (cursor_y (wm d))) d).

(** The view a touch point belongs to. *)
Definition view_of (mode : TouchPointMode) : option ui_component :=
  match mode with
  | kSelector => Some UiWindowSelector
  | kMultitasking => Some UiMultitasking
  | kWindowPreviews => Some UiWindowPreviews
  | _ => None
  end.

Definition OnTouchUp (touch : nat) (id time : Z) (d : desktop V) : desktop V :=
  let d := call_protocols (TouchGestureUp touch id false) d in
  match FindTouchPoint touch id d with
  | None => d
  | Some p =>
      let d :=
        match tch_mode p with
        | kNative =>
            let surface := wlr_seat_touch_get_point id (seat_ d) ≫= tp_surface in
            d |> call_protocols (NotifyTouch surface time)
              |> upd_seat (fun s => (wlr_seat_touch_notify_up time id s).1)
        | kPointer => SendPointerTouchButton time false d
        | mode => match view_of mode with
                  | Some c => (ask_button surface_client c BTN_LEFT false d).1
                  | None => d
                  end
        end in
      d |> upd_touch_points (List.filter (fun q => negb (is_touch touch id q)))
        |> feedback (FeedbackUp touch id)
  end.

Definition native_motion (time id : Z) (dx dy : Q) (d : desktop V) : desktop V :=
  match wlr_seat_touch_get_point id (seat_ d) with
  | None => d
  | Some q =>
      let d := call_protocols (NotifyTouch (tp_surface q) time) d in
      let '(sdx, sdy) := ToSurfaceX (tp_surface q) (dx, dy) (wm d) in
      upd_seat (wlr_seat_touch_notify_motion time id (tp_sx q + sdx)%Q (tp_sy q + sdy)%Q) d
  end.

Definition OnTouchMotion (touch : nat) (id : Z) (x y : Q) (time : Z) (d : desktop V) : desktop V :=
  let d := call_protocols (TouchGestureMotion touch id x y) d in
  match FindTouchPoint touch id d with
  | None => d
  | Some p =>
      let d := MoveTouchCursor touch x y d in
      let cx := cursor_x (wm d) in
      let cy := cursor_y (wm d) in
      let dx := (cx - tch_last_x p)%Q in
      let dy := (cy - tch_last_y p)%Q in
      let d := upd_touch_points (upd_first (is_touch touch id)
                 (fun q => q <{ tch_last_x := cx }> <{ tch_last_y := cy }>)) d in
      let d :=
        match tch_mode p with
        | kNative => native_motion time id dx dy d
        | kPointer =>
            d |> call_protocols (NotifyPointer time)
              |> ProcessCursorMotion surface_client time
              |> UnsetCursorImage
              |> (fun d => d <{ touch_pointer_frame_pending_ := true }>)
        | mode => match view_of mode with
                  | Some c => (ask_motion surface_client c d).1
                  | None => d
                  end
        end in
      feedback (FeedbackMotion touch id (cursor_x (wm d)) (cursor_y (wm d))) d
  end.

(** The touch points a cancel takes away: the point itself, and those of the device
    that the seat no longer knows. *)
Definition cancelled (touch : nat) (id : Z) (s : wlr_seat) (p : TouchPoint) : bool :=
  (tch_touch p =? touch)%nat &&
  ((tch_id p =? id) ||
   (bool_decide (tch_mode p = kNative) &&
    bool_decide (wlr_seat_touch_get_point (tch_id p) s = None))).

Definition OnTouchCancel (touch : nat) (id time : Z) (d : desktop V) : desktop V :=
  let d := call_protocols (TouchGestureUp touch id true) d in
  match FindTouchPoint touch id d with
  | None => d
  | Some p =>
      let d :=
        match tch_mode p with
        | kNative =>
            match wlr_seat_touch_get_point id (seat_ d) with
            | Some q => upd_seat (wlr_seat_touch_notify_cancel (tp_client q)) d
            | None => d
            end
        | kPointer => SendPointerTouchButton time false d
        | mode => match view_of mode with
                  | Some c => cancel_view surface_client c d
                  | None => d
                  end
        end in
      let gone := List.filter (cancelled touch id (seat_ d)) (touch_points_ d) in
      let d := foldl (fun d p => feedback (FeedbackCancel (tch_touch p) (tch_id p)) d) d gone in
      upd_touch_points (List.filter (fun q => negb (cancelled touch id (seat_ d) q))) d
  end.

Definition OnTouchFrame (d : desktop V) : desktop V :=
  let d := upd_seat wlr_seat_touch_notify_frame d in
  if touch_pointer_frame_pending_ d
  then (upd_seat wlr_seat_pointer_notify_frame d) <{ touch_pointer_frame_pending_ := false }>
  else d.

End Handlers.

(** ** What pointer handling leaves alone *)

(** The emulated buttons among the calls. *)
Definition emulated (l : list call) : list bool :=
  omap (fun c => match c with EmulatedButton p => Some p | _ => None end) l.

(** The state of touch handling: the touch points, those of the seat, and the
    buttons emulated so far. *)
Definition tview {V} (d : desktop V) : list TouchPoint * list wlr_touch_point * list bool :=
  (touch_points_ d, points (seat_ d), emulated (calls d)).

Lemma points_for_each l f s : (forall r s, points (f r s) = points s) -> points (for_each l f s) = points s.
Proof.
  intros Hf. unfold for_each. revert s. induction l as [|r l IH]; intros s; simpl; [done|].
  by rewrite IH, Hf.
Qed.

Lemma points_frame r s : points (pointer_send_frame r s) = points s.
Proof. unfold pointer_send_frame. by destruct (5 <=? _). Qed.

Lemma points_next_serial c s s' n : next_serial c s = (s', n) -> points s' = points s.
Proof.
  unfold next_serial. destruct (wlr_seat_client_next_serial _ _) as [[? ?] ?]. by intros [= <- <-].
Qed.

Section PointerKeepsTouch.
Context (surface_client : nat -> nat).

Lemma points_enter surface sx sy s :
  points (wlr_seat_pointer_enter surface_client surface sx sy s) = points s.
Proof.
  unfold wlr_seat_pointer_enter. destruct (bool_decide _); [done|]. set (client := client_of _ surface s).
  set (s1 := match focused_client _ with Some _ => _ | None => _ end).
  assert (H1 : points s1 = points s).
  { subst s1. destruct (focused_client _) as [c|]; [|done]. destruct (ptr_focused_surface _) as [f|]; [|done].
    unfold seat_client_send_pointer_leave_raw. destruct (next_serial c s) as [s' n] eqn:En.
    rewrite points_for_each by (intros; by rewrite points_frame). by eapply points_next_serial. }
  rewrite <- H1. clearbody s1. destruct client as [c|]; [|done]. destruct surface as [f|]; [|done].
  destruct (next_serial c s1) as [s' n] eqn:En. unfold wlr_seat_pointer_warp, upd_ptr, points, modify.
  simpl. fold (points s1). rewrite <- (points_next_serial _ _ _ _ En).
  apply (points_for_each _ _ s'). intros r s0. by rewrite points_frame.
Qed.

Lemma points_notify_enter f sx sy s :
  points (wlr_seat_pointer_notify_enter surface_client f sx sy s) = points s.
Proof.
  unfold wlr_seat_pointer_notify_enter. destruct (bool_decide _); [|apply points_enter].
  apply (points_enter (Some f) sx sy s).
Qed.

Lemma points_motion t sx sy s : points (wlr_seat_pointer_notify_motion t sx sy s) = points s.
Proof.
  unfold wlr_seat_pointer_notify_motion, wlr_seat_pointer_send_motion.
  destruct (focused_client _) as [c|]; [|done]. destruct (bool_decide _); [|done].
  by apply (points_for_each _ _ s).
Qed.

Lemma points_button t b p s : points (wlr_seat_pointer_notify_button t b p s).1 = points s.
Proof.
  unfold wlr_seat_pointer_notify_button. set (s0 := if p && _ then _ else _).
  assert (H0 : points s0 = points s) by (subst s0; by destruct (p && _)). clearbody s0.
  destruct (if p then _ else _) as [l fw]. destruct (negb fw); [done|].
  unfold wlr_seat_pointer_send_button. set (s1 := upd_ptr _ s0).
  assert (H1 : points s1 = points s) by done. clearbody s1.
  destruct (focused_client (pointer_state s1)) as [c|]; [|by destruct (negb _ && _ && _)].
  destruct (next_serial c s1) as [s2 n] eqn:En. apply points_next_serial in En.
  assert (H2 : forall l f, (forall r s, points (f r s) = points s) -> points (for_each l f s2) = points s)
    by (intros; rewrite points_for_each by done; congruence).
  destruct (negb _ && _ && _); by apply H2.
Qed.

Lemma points_pointer_frame s : points (wlr_seat_pointer_notify_frame s) = points s.
Proof.
  unfold wlr_seat_pointer_notify_frame, wlr_seat_pointer_send_frame.
  destruct (focused_client _) as [c|]; [|done].
  etransitivity; [apply points_for_each; intros; apply points_frame|done].
Qed.

End PointerKeepsTouch.

Section Kept.
Context {V : Type}.

Definition tkept (d d' : desktop V) : Prop := tview d' = tview d.

Lemma tkept_trans d1 d2 d3 : tkept d1 d2 -> tkept d2 d3 -> tkept d1 d3.
Proof. unfold tkept. congruence. Qed.

Lemma tkept_foldl {A} (f : desktop V -> A -> desktop V) l d :
  (forall a d, tkept d (f d a)) -> tkept d (foldl f d l).
Proof.
  intros Hf. revert d. induction l as [|a l IH]; intros d; simpl; [done|].
  eapply tkept_trans; [apply Hf|apply IH].
Qed.

Lemma tkept_call c d : (forall p, c <> EmulatedButton p) -> tkept d (call_out c d).
Proof.
  intros Hc. unfold tkept, tview, call_out. simpl. unfold emulated. rewrite omap_app. simpl.
  destruct c; try by rewrite app_nil_r. by destruct (Hc pressed).
Qed.
Lemma tkept_protocols c d : (forall p, c <> EmulatedButton p) -> tkept d (call_protocols c d).
Proof. intros. unfold call_protocols, when. destruct (protocol_manager_ _); [by apply tkept_call|done]. Qed.
Lemma tkept_feedback c d : (forall p, c <> EmulatedButton p) -> tkept d (feedback c d).
Proof. intros. unfold feedback, when. destruct (touch_feedback_ _); [by apply tkept_call|done]. Qed.
Lemma tkept_set_image i d : tkept d (set_image i d).
Proof. unfold set_image, ApplyCursorImage. by destruct (negb _). Qed.
Lemma tkept_seat f (d : desktop V) : (forall s, points (f s) = points s) -> tkept d (d <{ seat_ ::= f }>).
Proof. intros Hf. unfold tkept, tview. simpl. by rewrite Hf. Qed.

(** The pointer handlers leave the state of touch handling alone. *)
#[export] Instance tkept_handlers `{OutputLayout} `{Views V} surface_client resize_ok :
  HandlerRel surface_client resize_ok tkept.
Proof.
  split.
  - split; [done|]. intros ? ? ?. apply tkept_trans.
  - intros d d' []; try done; [apply tkept_set_image|by apply tkept_call].
  - intros d s Hs. unfold tkept, tview. simpl. do 2 f_equal. destruct Hs.
    + apply points_enter.
    + apply points_notify_enter.
    + apply points_motion.
    + apply points_button.
    + apply points_pointer_frame.
    + unfold seat_pointer_handle_surface_destroy. destruct (bool_decide _); [apply points_enter|done].
  - done.
  - done.
Qed.

End Kept.

(** A button emulated from a touch is the only thing that is recorded. *)
Lemma tview_emulated {V : Type} `{OutputLayout} `{Views V} `{Scene} root_surface surface_client resize_ok
    time p (d : desktop V) :
  tview (SendPointerTouchButton root_surface surface_client resize_ok time p d) =
  (touch_points_ d, points (seat_ d), emulated (calls d) ++ [p]).
Proof.
  unfold SendPointerTouchButton. set (d1 := call_out (EmulatedButton p) d).
  pose proof (hr_OnCursorButton root_surface surface_client resize_ok tkept false time BTN_LEFT p d1) as E. unfold tkept in E.
  set (d2 := OnCursorButton _ _ _ _ _ _ _ d1) in *. clearbody d2.
  change (tview (d2 <{ touch_pointer_frame_pending_ := true }>)) with (tview d2). rewrite E.
  unfold tview, d1. simpl. unfold emulated. by rewrite omap_app.
Qed.


(** ** Counting points *)

(** The seat's points and the native touch points with an id. *)
Definition seat_count (id : Z) (l : list wlr_touch_point) : nat :=
  length (List.filter (fun p => tp_touch_id p =? id) l).
Definition native_count (id : Z) (l : list TouchPoint) : nat :=
  length (List.filter (fun p => bool_decide (tch_mode p = kNative) && (tch_id p =? id)) l).

Lemma count_filter {A} (c g : A -> bool) l :
  (length (List.filter c (List.filter g l)) <= length (List.filter c l))%nat.
Proof. induction l as [|x l IH]; simpl; [done|]. destruct (g x); simpl; destruct (c x); simpl; lia. Qed.

Lemma count_filter_lt {A} (c g : A -> bool) l x : x ∈ l -> c x = true -> g x = false ->
  (length (List.filter c (List.filter g l)) < length (List.filter c l))%nat.
Proof.
  intros Hx Hc Hg. induction l as [|y l IH]; [by apply elem_of_nil in Hx|]. simpl.
  apply elem_of_cons in Hx as [<-|Hx].
  - rewrite Hg, Hc. simpl. pose proof (count_filter c g l). lia.
  - specialize (IH Hx). destruct (g y); simpl; destruct (c y); simpl; lia.
Qed.

Lemma get_point_count id s : wlr_seat_touch_get_point id s = None -> seat_count id (points s) = O.
Proof.
  unfold wlr_seat_touch_get_point, seat_count. intros Hf. induction (points s) as [|p l IH]; [done|].
  simpl in *. destruct (tp_touch_id p =? id); [done|auto].
Qed.

Lemma get_point_spec id s p : wlr_seat_touch_get_point id s = Some p ->
  p ∈ points s /\ tp_touch_id p = id.
Proof.
  unfold wlr_seat_touch_get_point. intros [Hin Hid]%find_some. rewrite list_elem_of_In. split; [done|lia].
Qed.

(** ** The seat's touch operations on the counts *)

Section SeatOps.
Context (surface_client : nat -> nat).

Lemma points_send c e s : points (send c e s) = points s.
Proof. apply points_for_each. done. Qed.

Lemma points_send_down f t id x y s : points (wlr_seat_touch_send_down f t id x y s).1 = points s.
Proof.
  unfold wlr_seat_touch_send_down. destruct (wlr_seat_touch_get_point id s) as [p|]; [|done].
  destruct (next_serial (tp_client p) s) as [s' n] eqn:En. cbn [fst].
  etransitivity; [apply (points_send (tp_client p))|]. by eapply points_next_serial.
Qed.

Lemma points_send_up t id s : points (wlr_seat_touch_send_up t id s).1 = points s.
Proof.
  unfold wlr_seat_touch_send_up. destruct (wlr_seat_touch_get_point id s) as [p|]; [|done].
  destruct (next_serial (tp_client p) s) as [s' n] eqn:En. cbn [fst].
  etransitivity; [apply (points_send (tp_client p))|]. by eapply points_next_serial.
Qed.

Lemma points_destroy p s :
  points (touch_point_destroy p s) = List.filter (fun q => negb (tp_addr q =? tp_addr p)%nat) (points s).
Proof. done. Qed.

Lemma down_count addr f t id x y s s' serial id' :
  wlr_seat_touch_notify_down surface_client addr f t id x y s = (s', serial) ->
  (seat_count id' (points s') <= seat_count id' (points s) + if negb (serial =? 0)%Z && (id =? id')%Z then 1 else 0)%nat.
Proof.
  unfold wlr_seat_touch_notify_down. destruct (touch_point_create _ _ _ _ _ _ _) as [[s1 p]|] eqn:Ec.
  2: { intros [= <- <-]. simpl. lia. }
  assert (Hc : points s1 = p :: points s /\ tp_touch_id p = id).
  { unfold touch_point_create in Ec. destruct (seat_clients s !! _) as [c|]; [|done].
    destruct (bool_decide _); [done|]. destruct addr; [|done]. by injection Ec as <- <-. }
  destruct Hc as [Hp Hid].
  pose proof (points_send_down (tp_surface p) t (tp_touch_id p) (tp_sx p) (tp_sy p) s1) as Hs.
  destruct (wlr_seat_touch_send_down _ _ _ _ _ s1) as [s2 k]. simpl in Hs.
  destruct (Z.eqb_spec k 0) as [->|Hk].
  - intros [= <- <-]. simpl. rewrite Nat.add_0_r, points_destroy, Hs, Hp. simpl. rewrite Nat.eqb_refl. simpl.
    apply (count_filter (fun p => tp_touch_id p =? id')).
  - assert (Hcons : (seat_count id' (points s2) <= seat_count id' (points s) +
      if (id =? id')%Z then 1 else 0)%nat).
    { rewrite Hs, Hp. unfold seat_count. simpl. rewrite Hid. destruct (id =? id'); simpl; lia. }
    destruct (_ =? 1)%nat; intros [= <- <-]; rewrite (proj2 (Z.eqb_neq k 0)) by done; simpl;
      etransitivity; try apply Hcons; done.
Qed.

Lemma up_count t id s id' :
  let s' := (wlr_seat_touch_notify_up t id s).1 in
  (seat_count id' (points s') <= seat_count id' (points s) - if (id =? id')%Z then 1 else 0)%nat.
Proof.
  unfold wlr_seat_touch_notify_up. destruct (wlr_seat_touch_get_point id s) as [p|] eqn:Ep.
  - apply get_point_spec in Ep as [Hin Hid].
    pose proof (points_send_up t (tp_touch_id p) s) as Hs. destruct (wlr_seat_touch_send_up _ _ s) as [s2 k].
    cbn [fst] in *. cbv zeta. rewrite points_destroy, Hs.
    unfold seat_count. destruct (Z.eqb_spec id id') as [<-|Hne].
    + assert (Hlt := count_filter_lt (fun q => tp_touch_id q =? id)
        (fun q => negb (tp_addr q =? tp_addr p)%nat) (points s) p Hin). simpl in Hlt.
      rewrite Hid, Z.eqb_refl, Nat.eqb_refl in Hlt. specialize (Hlt eq_refl eq_refl). lia.
    + pose proof (count_filter (fun q => tp_touch_id q =? id')
        (fun q => negb (tp_addr q =? tp_addr p)%nat) (points s)). lia.
  - simpl. destruct (Z.eqb_spec id id') as [<-|]; [|lia]. rewrite (get_point_count _ _ Ep). lia.
Qed.

(** Destroying the points of a client. *)
Definition spared (client : nat) (l : list wlr_touch_point) (q : wlr_touch_point) : bool :=
  forallb (fun p => negb ((tp_client p =? client)%nat && (tp_addr q =? tp_addr p)%nat)) l.

Lemma cancel_points client l s :
  points (foldl (fun s p => if (tp_client p =? client)%nat then touch_point_destroy p s else s) s l) =
  List.filter (spared client l) (points s).
Proof.
  revert s. induction l as [|p l IH]; intros s; simpl.
  - symmetry. by apply forallb_filter_id, forallb_forall.
  - rewrite IH. destruct (tp_client p =? client)%nat eqn:Ec.
    2: { apply List.filter_ext. intros q. simpl. by rewrite Ec. }
    rewrite points_destroy. clear IH. induction (points s) as [|q qs IH]; [done|]. simpl. rewrite Ec. simpl.
    destruct (tp_addr q =? tp_addr p)%nat; simpl; [done|].
    fold (spared client l q). destruct (spared client l q); [f_equal|]; exact IH.
Qed.

Lemma notify_cancel_points client s :
  points (wlr_seat_touch_notify_cancel client s) = List.filter (spared client (points s)) (points s).
Proof.
  unfold wlr_seat_touch_notify_cancel, wlr_seat_touch_send_cancel. rewrite cancel_points, points_send. done.
Qed.

Lemma cancel_count client s id :
  (seat_count id (points (wlr_seat_touch_notify_cancel client s)) <= seat_count id (points s))%nat.
Proof. rewrite notify_cancel_points. apply count_filter. Qed.

Lemma cancel_count_lt client s p : p ∈ points s -> tp_client p = client ->
  (seat_count (tp_touch_id p) (points (wlr_seat_touch_notify_cancel client s)) <
   seat_count (tp_touch_id p) (points s))%nat.
Proof.
  intros Hin Hc. rewrite notify_cancel_points. apply (count_filter_lt _ _ _ p); [done|apply Z.eqb_refl|].
  apply not_true_is_false. unfold spared. rewrite forallb_forall. intros Hall.
  rewrite list_elem_of_In in Hin. specialize (Hall p Hin). by rewrite Hc, !Nat.eqb_refl in Hall.
Qed.

End SeatOps.

(** ** The invariant of touch handling *)

Definition is_pointer (p : TouchPoint) : bool := bool_decide (tch_mode p = kPointer).
Definition pointer_count (l : list TouchPoint) : nat := length (List.filter is_pointer l).

(** The emulated button: presses and releases in turn; [None] is a violation. *)
Definition emu (l : list bool) : option bool :=
  foldl (fun st p => b ← st; if Bool.eqb b p then None else Some p) (Some false) l.

(** [F] is the set of fingers on the devices. *)
Record tinv (F : gset (nat * Z)) (v : list TouchPoint * list wlr_touch_point * list bool) : Prop := {
  ti_keys : NoDup (map touch_key v.1.1);
  ti_down : forall p, p ∈ v.1.1 -> touch_key p ∈ F;
  ti_seat : forall id, (seat_count id v.1.2 <= native_count id v.1.1)%nat;
  ti_one : (pointer_count v.1.1 <= 1)%nat;
  ti_emu : emu v.2 = Some (bool_decide (pointer_count v.1.1 = 1%nat)) }.

Lemma emu_app l p : emu (l ++ [p]) = b ← emu l; if Bool.eqb b p then None else Some p.
Proof. unfold emu. by rewrite foldl_app. Qed.

Lemma count_existsb {A} (c : A -> bool) l : existsb c l = negb (length (List.filter c l) =? 0)%nat.
Proof. induction l as [|x l IH]; simpl; [done|]. by destruct (c x). Qed.

Lemma filter_agree {A} (c g h : A -> bool) l : (forall x, x ∈ l -> c x = true -> g x = h x) ->
  List.filter c (List.filter g l) = List.filter c (List.filter h l).
Proof.
  induction l as [|x l IH]; intros Hx; simpl; [done|].
  assert (IHx : List.filter c (List.filter g l) = List.filter c (List.filter h l))
    by (apply IH; intros; apply Hx; [by right|done]).
  specialize (Hx x ltac:(left)). destruct (g x), (h x); simpl; destruct (c x); rewrite ?IHx; try done;
    by specialize (Hx eq_refl).
Qed.

Lemma filter_true {A} (l : list A) : List.filter (fun _ => true) l = l.
Proof. induction l; simpl; congruence. Qed.

Lemma filter_perm {A} (c : A -> bool) l l' : l ≡ₚ l' -> List.filter c l ≡ₚ List.filter c l'.
Proof.
  induction 1 as [|x l l' _ IH|x y l|l l' l'' _ IH1 _ IH2]; simpl; [done| | |by etrans].
  - destruct (c x); by rewrite IH.
  - destruct (c x), (c y); try done. apply Permutation_swap.
Qed.

(** A finger's touch point, taken out of the list. *)
Lemma take_out touch id l p : NoDup (map touch_key l) -> List.find (is_touch touch id) l = Some p ->
  l ≡ₚ p :: List.filter (fun q => negb (is_touch touch id q)) l.
Proof.
  induction l as [|x l IH]; simpl; [done|]. intros [Hx Hnd]%NoDup_cons.
  destruct (is_touch touch id x) eqn:Ex; simpl.
  - intros [= <-]. f_equiv. rewrite forallb_filter_id; [done|]. apply forallb_forall. intros q Hq.
    apply negb_true_iff, not_true_is_false. intros Eq. apply Hx, list_elem_of_fmap. exists q.
    unfold is_touch in *. rewrite list_elem_of_In. split; [|done]. unfold touch_key.
    apply andb_true_iff in Ex as [E1 E2], Eq as [E3 E4]. f_equal; lia.
  - intros Hf. rewrite Permutation_swap. f_equiv. by apply IH.
Qed.

Lemma native_count_perm id l l' : l ≡ₚ l' -> native_count id l = native_count id l'.
Proof. intros E. unfold native_count. by rewrite (filter_perm _ _ _ E). Qed.
Lemma pointer_count_perm l l' : l ≡ₚ l' -> pointer_count l = pointer_count l'.
Proof. intros E. unfold pointer_count. by rewrite (filter_perm _ _ _ E). Qed.

Lemma native_count_cons id p l : native_count id (p :: l) =
  ((if bool_decide (tch_mode p = kNative) && (tch_id p =? id)%Z then 1 else 0) + native_count id l)%nat.
Proof. unfold native_count. simpl. by destruct (_ && _). Qed.
Lemma pointer_count_cons p l : pointer_count (p :: l) = ((if is_pointer p then 1 else 0) + pointer_count l)%nat.
Proof. unfold pointer_count. simpl. by destruct (is_pointer p). Qed.

(** Points that go away, with the seat's points and the emulated button. *)
Lemma tinv_drop F tp pts em g F' pts' em' : tinv F (tp, pts, em) ->
  (forall p, p ∈ tp -> g p = true -> touch_key p ∈ F') ->
  (forall id, (seat_count id pts' <= native_count id (List.filter g tp))%nat) ->
  emu em' = Some (bool_decide (pointer_count (List.filter g tp) = 1%nat)) ->
  tinv F' (List.filter g tp, pts', em').
Proof.
  intros [K D S O E] HF Hs He. split; simpl in *; try done.
  - eapply sublist_NoDup; [exact K|]. apply map_filter_sublist.
  - intros p. rewrite list_elem_of_In, filter_In, <- list_elem_of_In. intros [? ?]. auto.
  - pose proof (count_filter is_pointer g tp) as Hle. unfold pointer_count in *. lia.
Qed.

(** A point that is put down. *)
Lemma tinv_push F tp pts em touch id mode x y pts' em' : tinv F (tp, pts, em) -> (touch, id) ∉ F ->
  (forall i, (seat_count i pts' <= seat_count i pts +
    if bool_decide (mode = kNative) && (id =? i)%Z then 1 else 0)%nat) ->
  (if bool_decide (mode = kPointer) then pointer_count tp = O /\ em' = em ++ [true] else em' = em) ->
  tinv ({[(touch, id)]} ∪ F) (tp ++ [MkTouch touch id mode x y], pts', em').
Proof.
  intros [K D S O E] HF Hs He. simpl in *.
  assert (Hperm : tp ++ [MkTouch touch id mode x y] ≡ₚ MkTouch touch id mode x y :: tp)
    by (by rewrite Permutation_app_comm).
  split; simpl.
  - rewrite Hperm. simpl. apply NoDup_cons. split; [|done].
    intros (p & Hp & Hin)%list_elem_of_fmap. apply HF. change (touch, id) with
      (touch_key (MkTouch touch id mode x y)). rewrite Hp. auto.
  - intros p. rewrite Hperm. intros [->|Hp]%elem_of_cons; [set_solver|]. specialize (D p Hp). set_solver.
  - intros i. rewrite (native_count_perm _ _ _ Hperm), native_count_cons. simpl.
    specialize (Hs i). specialize (S i). lia.
  - rewrite (pointer_count_perm _ _ Hperm), pointer_count_cons. unfold is_pointer. simpl.
    destruct (bool_decide (mode = kPointer)); [destruct He as [He _]; lia|lia].
  - rewrite (pointer_count_perm _ _ Hperm), pointer_count_cons. unfold is_pointer. simpl.
    destruct (bool_decide (mode = kPointer)).
    + destruct He as [He ->]. rewrite emu_app, E, He. done.
    + by rewrite He, E.
Qed.

Section Handling.
Context {V : Type} `{OutputLayout} `{Views V} `{Scene} `{TouchLayout}.
Context (root_surface surface_client : nat -> nat) (resize_ok : Z -> Z -> bool).
#[local] Set Default Proof Using "All".

Lemma tkept_run f (d : desktop V) : tkept d (run surface_client f d).
Proof. by apply (hr_run_rel surface_client resize_ok tkept). Qed.
Lemma tkept_OnCursorButton fp time b pressed (d : desktop V) :
  tkept d (OnCursorButton root_surface surface_client resize_ok fp time b pressed d).
Proof. apply (hr_OnCursorButton root_surface surface_client resize_ok tkept). Qed.
Lemma tkept_ProcessCursorMotion time (d : desktop V) : tkept d (ProcessCursorMotion surface_client time d).
Proof. apply (hr_ProcessCursorMotion surface_client resize_ok tkept). Qed.
Lemma tkept_ask_motion c (d : desktop V) : tkept d (ask_motion surface_client c d).1.
Proof. apply (hr_ask_motion surface_client resize_ok tkept). Qed.
Lemma tkept_ask_button c b p (d : desktop V) : tkept d (ask_button surface_client c b p d).1.
Proof. apply (hr_ask_button surface_client resize_ok tkept). Qed.
Lemma tkept_cancel c (d : desktop V) : tkept d (cancel_view surface_client c d).
Proof. apply (hr_cancel surface_client resize_ok tkept). Qed.
Lemma tkept_refocus f (d : desktop V) : (forall s, seat_step surface_client s (f s)) -> tkept d (refocus f d).
Proof. apply (hr_refocus surface_client resize_ok tkept). Qed.

Definition touch_ok (F : gset (nat * Z)) (d : desktop V) : Prop := tinv F (tview d).

Lemma touch_ok_kept F d d' : touch_ok F d -> tkept d d' -> touch_ok F d'.
Proof. unfold touch_ok, tkept. by intros ? ->. Qed.

Lemma touch_ok_weaken F F' d : touch_ok F d -> (forall p, p ∈ touch_points_ d -> touch_key p ∈ F') ->
  touch_ok F' d.
Proof. intros [K D S O E] HF. by split. Qed.

Lemma tkept_move touch x y (d : desktop V) : tkept d (MoveTouchCursor touch x y d).
Proof.
  unfold MoveTouchCursor. destruct (warp_absolute _ _ _ _) as [cx cy].
  eapply tkept_trans; [|by apply tkept_protocols]. done.
Qed.

(** *** Down *)

Lemma down_native_spec addr time id d d' native :
  down_native root_surface surface_client addr time id d = (d', native) ->
  touch_points_ d' = touch_points_ d /\ emulated (calls d') = emulated (calls d) /\
  forall i, (seat_count i (points (seat_ d')) <= seat_count i (points (seat_ d)) +
    if native && (id =? i)%Z then 1 else 0)%nat.
Proof.
  unfold down_native. destruct (ToplevelAt _ _ _) as [[t surface] xy].
  assert (Hno : (d, false) = (d', native) -> touch_points_ d' = touch_points_ d /\
    emulated (calls d') = emulated (calls d) /\
    forall i, (seat_count i (points (seat_ d')) <= seat_count i (points (seat_ d)) +
      if native && (id =? i)%Z then 1 else 0)%nat).
  { intros [= <- <-]. split_and!; [done|done|]. intros. simpl. lia. }
  destruct surface as [f|]; [|exact Hno]. destruct (wlr_surface_accepts_touch _ _ _); [|exact Hno].
  set (d1 := call_protocols _ d). assert (H1' : tkept d d1) by (by apply tkept_protocols).
  injection H1' as Ht Hp He. clearbody d1. destruct (ToSurfaceX _ _ _) as [x y].
  destruct (wlr_seat_touch_notify_down _ addr f time id x y (seat_ d1)) as [s serial] eqn:Ed.
  pose proof (fun i => down_count _ _ _ _ _ _ _ _ _ _ i Ed) as Hc. rewrite Hp in Hc.
  set (d2 := d1 <{ seat_ := s }>). assert (H2' : tview d2 = (touch_points_ d, points s, emulated (calls d)))
    by (unfold tview, d2; simpl; congruence).
  assert (Hfoc : forall f, tview (run surface_client f d2) = tview d2) by (intros; apply tkept_run).
  clearbody d2. destruct (negb (serial =? 0)) eqn:Es.
  - assert (Hd : tview d' = tview d2 /\ native = true -> touch_points_ d' = touch_points_ d /\
      emulated (calls d') = emulated (calls d) /\
      forall i, (seat_count i (points (seat_ d')) <= seat_count i (points (seat_ d)) +
        if native && (id =? i)%Z then 1 else 0)%nat).
    { intros [E ->]. rewrite H2' in E. injection E as -> E ->. rewrite E. done. }
    destruct t as [t|]; intros [= <- <-]; apply Hd; split; auto.
  - intros [= <- <-]. injection H2' as -> E ->. rewrite E. split_and!; [done..|]. apply Hc.
Qed.

Lemma touch_ok_push F (d : desktop V) touch id mode d' : touch_ok F d -> (touch, id) ∉ F ->
  touch_points_ d' = touch_points_ d ->
  (forall i, (seat_count i (points (seat_ d')) <= seat_count i (points (seat_ d)) +
    if bool_decide (mode = kNative) && (id =? i)%Z then 1 else 0)%nat) ->
  (if bool_decide (mode = kPointer)
   then pointer_count (touch_points_ d) = O /\ emulated (calls d') = emulated (calls d) ++ [true]
   else emulated (calls d') = emulated (calls d)) ->
  touch_ok ({[(touch, id)]} ∪ F) (push_touch touch id mode d').
Proof.
  intros Hok HF Et Hs He. unfold touch_ok, push_touch, upd_touch_points, tview. simpl. rewrite Et.
  eapply tinv_push; eauto.
Qed.

Lemma touch_ok_down F addr touch id x y time d : touch_ok F d -> (touch, id) ∉ F ->
  touch_ok ({[(touch, id)]} ∪ F) (OnTouchDown root_surface surface_client resize_ok addr touch id x y time d).
Proof.
  intros Hok HF. unfold OnTouchDown. set (d1 := MoveTouchCursor _ _ _ _).
  assert (Hok1 : touch_ok F d1).
  { eapply touch_ok_kept; [done|]. eapply tkept_trans; [|apply tkept_move]. by apply tkept_protocols. }
  clearbody d1. clear d Hok.
  assert (Hview : forall c mode, mode <> kNative -> mode <> kPointer ->
    touch_ok ({[(touch, id)]} ∪ F) (down_on_view surface_client c touch id mode d1)).
  { intros c mode Hm Hm'. unfold down_on_view. set (d2 := (ask_button _ _ _ _ _).1).
    assert (Hk : tkept d1 d2) by (eapply tkept_trans; [apply tkept_ask_motion|apply tkept_ask_button]).
    injection Hk as Et Ep Ee. clearbody d2.
    apply (touch_ok_push F d1); try done.
    - intros i. rewrite Ep, bool_decide_false by done. simpl. lia.
    - by rewrite bool_decide_false. }
  destruct (is_view_active UiMultitasking d1); [by apply Hview|].
  destruct (is_view_active UiWindowPreviews d1); [by apply Hview|].
  destruct (is_view_active UiWindowSelector d1); [by apply Hview|].
  set (d2 := UnsetCursorImage _). assert (Hok2 : touch_ok F d2).
  { eapply touch_ok_kept; [done|]. subst d2. eapply tkept_trans; [|apply tkept_set_image]. done. }
  clearbody d2. clear d1 Hok1 Hview.
  destruct (down_native _ _ addr time id d2) as [d3 native] eqn:Ed.
  destruct (down_native_spec _ _ _ _ _ _ Ed) as (Et & Ee & Hc).
  match goal with |- touch_ok _ (let '(_, _) := ?x in _) => destruct x as [d4 mode] eqn:Em end.
  eapply touch_ok_kept; [|by apply tkept_feedback].
  destruct native; [injection Em as <- <-; by apply (touch_ok_push F d2)|].
  assert (Hc0 : forall i, (seat_count i (points (seat_ d3)) <= seat_count i (points (seat_ d2)))%nat).
  { intros i. specialize (Hc i). simpl in Hc. lia. }
  destruct (negb (pointer_in_use d3)) eqn:Eu.
  - injection Em as <- <-. set (d5 := UnsetCursorImage _).
    assert (Hk : tkept d3 d5) by (eapply tkept_trans; [apply tkept_ProcessCursorMotion|apply tkept_set_image]).
    injection Hk as Et5 Ep5 Ee5. clearbody d5.
    pose proof (tview_emulated root_surface surface_client resize_ok time true d5) as Hv.
    set (d6 := SendPointerTouchButton _ _ _ _ _ d5) in *. clearbody d6. injection Hv as Et6 Ep6 Ee6.
    apply (touch_ok_push F d2); [done|done|congruence| |].
    + intros i. rewrite Ep6, Ep5. specialize (Hc0 i). simpl. lia.
    + rewrite bool_decide_true by done. split; [|congruence].
      unfold pointer_in_use in Eu. rewrite Et in Eu. fold is_pointer in Eu.
      rewrite count_existsb, negb_involutive in Eu. by apply Nat.eqb_eq in Eu.
  - injection Em as <- <-. apply (touch_ok_push F d2); done.
Qed.

(** *** Up *)

Lemma is_touch_key touch id p : is_touch touch id p = bool_decide (touch_key p = (touch, id)).
Proof.
  unfold is_touch, touch_key. destruct (Nat.eqb_spec (tch_touch p) touch), (Z.eqb_spec (tch_id p) id);
    simpl; symmetry; (apply bool_decide_eq_true || apply bool_decide_eq_false); congruence.
Qed.

Lemma touch_ok_absent F touch id d : touch_ok F d -> FindTouchPoint touch id d = None ->
  touch_ok (F ∖ {[(touch, id)]}) d.
Proof.
  intros Hok Hn. apply (touch_ok_weaken F); [done|]. intros p Hp.
  apply elem_of_difference. split; [by apply (ti_down _ _ Hok)|].
  rewrite elem_of_singleton. intros E. unfold FindTouchPoint in Hn.
  rewrite list_elem_of_In in Hp. apply (List.find_none _ _ Hn) in Hp.
  rewrite is_touch_key, bool_decide_true in Hp; done.
Qed.

(** What handling a found point does before it is taken out of the list. *)
Record handled (touch : nat) (id : Z) (p : TouchPoint) (d d' : desktop V) : Prop := {
  hd_points : touch_points_ d' = touch_points_ d;
  hd_seat : forall i, (seat_count i (points (seat_ d')) <= seat_count i (points (seat_ d)) -
    if bool_decide (tch_mode p = kNative) && (id =? i)%Z then 1 else 0)%nat;
  hd_emu : emulated (calls d') = emulated (calls d) ++ (if is_pointer p then [false] else []) }.

Lemma handled_kept touch id p d d' : tkept d d' -> tch_mode p <> kNative -> is_pointer p = false ->
  handled touch id p d d'.
Proof.
  intros [= Et Ep Ee] Hn Hp. split; [done| |].
  - intros i. rewrite Ep, bool_decide_false by done. simpl. lia.
  - by rewrite Hp, app_nil_r.
Qed.

Lemma handled_pointer touch id p time d : tch_mode p = kPointer ->
  handled touch id p d (SendPointerTouchButton root_surface surface_client resize_ok time false d).
Proof.
  intros Hp. pose proof (tview_emulated root_surface surface_client resize_ok time false d) as Hv.
  set (d' := SendPointerTouchButton _ _ _ _ _ d) in *. clearbody d'. injection Hv as Et Ep Ee.
  split; [done| |].
  - intros i. rewrite Ep, bool_decide_false by congruence. simpl. lia.
  - unfold is_pointer. by rewrite bool_decide_true.
Qed.

(** Counts after the point is gone. *)
Lemma handled_counts F touch id p d d' i : touch_ok F d -> FindTouchPoint touch id d = Some p ->
  handled touch id p d d' ->
  let rest := List.filter (fun q => negb (is_touch touch id q)) (touch_points_ d) in
  (seat_count i (points (seat_ d')) <= native_count i rest)%nat /\
  emu (emulated (calls d')) = Some (bool_decide (pointer_count rest = 1%nat)).
Proof.
  intros Hok Hf [Et Hs He] rest. pose proof (take_out touch id _ p (ti_keys _ _ Hok) Hf) as Hperm.
  apply find_some in Hf as [_ Hkey]. unfold is_touch in Hkey.
  pose proof (ti_seat _ _ Hok i) as Hseat. pose proof (ti_one _ _ Hok) as Hone.
  pose proof (ti_emu _ _ Hok) as Hemu. cbn [tview fst snd] in *. fold rest in Hperm.
  rewrite (native_count_perm _ _ _ Hperm), native_count_cons in Hseat.
  rewrite (pointer_count_perm _ _ Hperm), pointer_count_cons in Hone, Hemu. split.
  - specialize (Hs i). replace (tch_id p) with id in Hseat by lia.
    destruct (_ && (id =? i)%Z); lia.
  - rewrite He. destruct (is_pointer p).
    + rewrite emu_app, Hemu. replace (pointer_count rest) with O by lia. done.
    + by rewrite app_nil_r.
Qed.

Lemma view_of_other mode c : view_of mode = Some c -> mode <> kNative /\ mode <> kPointer.
Proof. by destruct mode. Qed.

Lemma touch_ok_up F touch id time d : touch_ok F d ->
  touch_ok (F ∖ {[(touch, id)]}) (OnTouchUp root_surface surface_client resize_ok touch id time d).
Proof.
  intros Hok0. unfold OnTouchUp. set (d1 := call_protocols _ d).
  assert (Hok : touch_ok F d1) by (eapply touch_ok_kept; [done|by apply tkept_protocols]).
  clearbody d1. clear d Hok0. destruct (FindTouchPoint touch id d1) as [p|] eqn:Hf;
    [|by apply touch_ok_absent]. cbv zeta.
  match goal with |- touch_ok _ (feedback _ (upd_touch_points _ ?x)) => set (d2 := x) end.
  assert (Hh : handled touch id p d1 d2).
  { subst d2. unfold is_pointer. destruct (tch_mode p) eqn:Em; simpl;
      try (apply handled_kept; [first [done|apply tkept_ask_button]|congruence|];
           unfold is_pointer; rewrite Em; done).
    - set (d2 := call_protocols _ d1). assert (Hk : tkept d1 d2) by (by apply tkept_protocols).
      injection Hk as Et Ep Ee. clearbody d2. split; simpl; [done| |].
      + intros i. rewrite <- Ep, Em. apply up_count.
      + unfold is_pointer. by rewrite Em, app_nil_r.
    - by apply handled_pointer. }
  clearbody d2. eapply touch_ok_kept; [|by apply tkept_feedback].
  destruct (handled_counts F touch id p d1 d2 0 Hok Hf Hh) as [_ He].
  unfold touch_ok, tview. simpl. rewrite (hd_points _ _ _ _ _ Hh).
  eapply tinv_drop; [exact Hok| | |exact He].
  - intros q Hq Hg. apply elem_of_difference. split; [by apply (ti_down _ _ Hok)|].
    rewrite elem_of_singleton. intros E. by rewrite is_touch_key, bool_decide_true in Hg.
  - intros i. by apply (handled_counts F touch id p d1 d2 i Hok Hf Hh).
Qed.

(** *** Motion *)

(** The invariant only looks at who the points belong to. *)
Definition shape (l : list TouchPoint) : list (nat * Z * TouchPointMode) :=
  map (fun p => (touch_key p, tch_mode p)) l.

Lemma filter_map_comm {A B} (f : A -> B) c l : List.filter c (map f l) = map f (List.filter (fun x => c (f x)) l).
Proof. induction l as [|x l IH]; simpl; [done|]. destruct (c (f x)); simpl; by rewrite IH. Qed.

Lemma shape_counts l l' : shape l' = shape l ->
  map touch_key l' = map touch_key l /\ pointer_count l' = pointer_count l /\
  (forall id, native_count id l' = native_count id l).
Proof.
  intros E. split_and!.
  - assert (Hk : forall l, map touch_key l = map fst (shape l)) by (intros; unfold shape; by rewrite map_map).
    by rewrite !Hk, E.
  - assert (Hk : forall l, pointer_count l = length (List.filter (fun x => bool_decide (x.2 = kPointer)) (shape l)))
      by (intros; unfold shape; by rewrite filter_map_comm, length_map).
    by rewrite !Hk, E.
  - intros id. assert (Hk : forall l, native_count id l =
      length (List.filter (fun x => bool_decide (x.2 = kNative) && (x.1.2 =? id)) (shape l)))
      by (intros; unfold shape; by rewrite filter_map_comm, length_map).
    by rewrite !Hk, E.
Qed.

Lemma tinv_shape F tp tp' pts pts' em : tinv F (tp, pts, em) -> shape tp' = shape tp ->
  (forall id, (seat_count id pts' <= seat_count id pts)%nat) -> tinv F (tp', pts', em).
Proof.
  intros [K D S O E] Hsh Hs. destruct (shape_counts _ _ Hsh) as (Hk & Hp & Hn). simpl in *.
  split; simpl; rewrite ?Hp; try done.
  - by rewrite Hk.
  - intros p Hin. assert (Hin' : touch_key p ∈ map touch_key tp)
      by (rewrite <- Hk; apply list_elem_of_fmap; eauto).
    apply list_elem_of_fmap in Hin' as (q & -> & Hq). auto.
  - intros id. rewrite Hn. etransitivity; [apply Hs|apply S].
Qed.

Lemma shape_upd_first c f l : (forall p, touch_key (f p) = touch_key p /\ tch_mode (f p) = tch_mode p) ->
  shape (upd_first c f l) = shape l.
Proof.
  intros Hf. induction l as [|p l IH]; simpl; [done|]. destruct (c p); simpl; [|by rewrite IH].
  destruct (Hf p) as [-> ->]. done.
Qed.

Lemma seat_count_map id f l : (forall p, tp_touch_id (f p) = tp_touch_id p) ->
  seat_count id (map f l) = seat_count id l.
Proof.
  intros Hf. unfold seat_count. rewrite filter_map_comm, length_map. f_equal. apply List.filter_ext.
  intros p. by rewrite Hf.
Qed.

Lemma points_send_motion t id x y s : points (wlr_seat_touch_send_motion t id x y s) = points s.
Proof.
  unfold wlr_seat_touch_send_motion. destruct (wlr_seat_touch_get_point id s) as [p|]; [|done].
  apply (points_send (tp_client p)).
Qed.

Lemma motion_count t id x y s i :
  seat_count i (points (wlr_seat_touch_notify_motion t id x y s)) = seat_count i (points s).
Proof.
  unfold wlr_seat_touch_notify_motion. destruct (wlr_seat_touch_get_point id s) as [p|]; [|done].
  set (s1 := upd_point _ _ s). assert (E1 : seat_count i (points s1) = seat_count i (points s)).
  { apply seat_count_map. intros q. by destruct (_ =? _)%nat. }
  destruct (_ || _); [by rewrite points_send_motion|done].
Qed.

Lemma touch_ok_motion F touch id x y time d : touch_ok F d ->
  touch_ok F (OnTouchMotion surface_client touch id x y time d).
Proof.
  intros Hok0. unfold OnTouchMotion. set (d1 := call_protocols _ d).
  assert (Hok1 : touch_ok F d1) by (eapply touch_ok_kept; [done|by apply tkept_protocols]).
  clearbody d1. clear d Hok0. destruct (FindTouchPoint touch id d1) as [p|]; [|done].
  set (d2 := MoveTouchCursor _ _ _ d1).
  assert (Hok2 : touch_ok F d2) by (eapply touch_ok_kept; [done|apply tkept_move]).
  clearbody d2. clear d1 Hok1. cbv zeta. set (d3 := upd_touch_points _ d2).
  assert (Hok3 : touch_ok F d3).
  { eapply tinv_shape; [exact Hok2| |done]. by apply shape_upd_first. }
  clearbody d3. clear Hok2. eapply touch_ok_kept; [|by apply tkept_feedback].
  destruct (tch_mode p); simpl; try (eapply touch_ok_kept; [done|apply tkept_ask_motion]); [| |done].
  - unfold native_motion. destruct (wlr_seat_touch_get_point id (seat_ d3)) as [q|]; [|done].
    set (d4 := call_protocols _ d3).
    assert (Hok4 : touch_ok F d4) by (eapply touch_ok_kept; [done|by apply tkept_protocols]).
    clearbody d4. destruct (ToSurfaceX _ _ _) as [sx sy]. eapply tinv_shape; [exact Hok4|done|].
    intros i. unfold upd_seat. simpl. by rewrite motion_count.
  - eapply touch_ok_kept; [done|].
    match goal with |- tkept _ (?x <{ touch_pointer_frame_pending_ := true }>) => apply (tkept_trans _ x); [|done] end.
    eapply tkept_trans; [|apply tkept_set_image].
    eapply tkept_trans; [|apply tkept_ProcessCursorMotion]. by apply tkept_protocols.
Qed.

(** *** Cancel *)

Lemma tkept_gone l (d : desktop V) : tkept d (foldl (fun d p => feedback (FeedbackCancel (tch_touch p) (tch_id p)) d) d l).
Proof. apply tkept_foldl. intros. by apply tkept_feedback. Qed.

Lemma touch_ok_cancel F touch id time d : touch_ok F d ->
  touch_ok (F ∖ {[(touch, id)]}) (OnTouchCancel root_surface surface_client resize_ok touch id time d).
Proof.
  intros Hok0. unfold OnTouchCancel. set (d1 := call_protocols _ d).
  assert (Hok : touch_ok F d1) by (eapply touch_ok_kept; [done|by apply tkept_protocols]).
  clearbody d1. clear d Hok0. destruct (FindTouchPoint touch id d1) as [p|] eqn:Hf;
    [|by apply touch_ok_absent]. cbv zeta.
  match goal with |- context [List.filter (cancelled touch id _) (touch_points_ ?x)] => set (d2 := x) end.
  assert (Hh : handled touch id p d1 d2).
  { subst d2. destruct (tch_mode p) eqn:Em; simpl;
      try (apply handled_kept; [first [done|apply tkept_cancel]|congruence|];
           unfold is_pointer; rewrite Em; done).
    - assert (Hp : is_pointer p = false) by (unfold is_pointer; by rewrite Em).
      destruct (wlr_seat_touch_get_point id (seat_ d1)) as [q|] eqn:Eq.
      + apply get_point_spec in Eq as [Hq Hid]. split; [done| |by rewrite Hp, app_nil_r].
        intros i. rewrite Em. simpl. destruct (Z.eqb_spec id i) as [<-|].
        * pose proof (cancel_count_lt (tp_client q) (seat_ d1) q Hq eq_refl) as Hlt. rewrite Hid in Hlt. lia.
        * pose proof (cancel_count (tp_client q) (seat_ d1) i). lia.
      + split; [done| |by rewrite Hp, app_nil_r]. intros i. rewrite Em. simpl.
        destruct (Z.eqb_spec id i) as [<-|]; [rewrite (get_point_count _ _ Eq)|]; lia.
    - by apply handled_pointer. }
  clearbody d2. set (gone := List.filter _ (touch_points_ d2)).
  pose proof (tkept_gone gone d2) as Hk. set (d3 := foldl _ d2 gone) in *.
  assert (Hseat : seat_ d3 = seat_ d2).
  { subst d3. clear Hk. generalize gone. intros l. generalize d2. induction l as [|x l IH]; intros d0; simpl; [done|].
    rewrite IH. unfold feedback, when. by destruct (touch_feedback_ d0). }
  clearbody d3. injection Hk as Et Ep Ee.
  unfold touch_ok, tview. simpl. rewrite Et, Hseat, (hd_points _ _ _ _ _ Hh), Ee.
  assert (Hagree : forall c : TouchPoint -> bool, (forall x, x ∈ touch_points_ d1 -> c x = true ->
      cancelled touch id (seat_ d2) x = is_touch touch id x) ->
    length (List.filter c (List.filter (fun q => negb (cancelled touch id (seat_ d2) q)) (touch_points_ d1))) =
    length (List.filter c (List.filter (fun q => negb (is_touch touch id q)) (touch_points_ d1)))).
  { intros c Hc. f_equal. apply filter_agree. intros x Hx Hcx. f_equal. by apply Hc. }
  eapply tinv_drop; [exact Hok| | |].
  - intros q Hq Hg. apply elem_of_difference. split; [by apply (ti_down _ _ Hok)|].
    rewrite elem_of_singleton. unfold touch_key. intros [= E1 E2]. unfold cancelled in Hg.
    by rewrite E1, E2, Nat.eqb_refl, Z.eqb_refl in Hg.
  - intros i. destruct (wlr_seat_touch_get_point i (seat_ d2)) as [q|] eqn:Eg.
    2: { rewrite (get_point_count _ _ Eg). lia. }
    destruct (handled_counts F touch id p d1 d2 i Hok Hf Hh) as [Hc _]. unfold native_count. rewrite Hagree; [done|].
    intros x _ Hx. apply andb_true_iff in Hx as [_ Hx%Z.eqb_eq]. unfold cancelled, is_touch. rewrite Hx, Eg.
    rewrite (bool_decide_false (Some q = None)) by done. by rewrite andb_false_r, orb_false_r.
  - destruct (handled_counts F touch id p d1 d2 0 Hok Hf Hh) as [_ He]. rewrite He. unfold pointer_count.
    rewrite Hagree; [done|]. intros x _ Hx. unfold is_pointer in Hx. apply bool_decide_eq_true in Hx.
    unfold cancelled, is_touch. rewrite Hx. by rewrite orb_false_r.
Qed.

(** *** Devices that go away *)

Definition cancel_all (clients : list nat) (s : wlr_seat) : wlr_seat :=
  foldl (fun s c => wlr_seat_touch_notify_cancel c s) s clients.

Lemma cancel_all_count clients s i : (seat_count i (points (cancel_all clients s)) <= seat_count i (points s))%nat.
Proof.
  revert s. induction clients as [|c l IH]; intros s; simpl; [done|].
  etransitivity; [apply IH|]. apply cancel_count.
Qed.

Lemma cancel_all_count_lt clients s q : q ∈ points s -> tp_client q ∈ clients ->
  (seat_count (tp_touch_id q) (points (cancel_all clients s)) < seat_count (tp_touch_id q) (points s))%nat.
Proof.
  revert s. induction clients as [|c l IH]; intros s Hq; [by intros ?%elem_of_nil|]. simpl.
  intros [Hc|Hc]%elem_of_cons.
  - pose proof (cancel_all_count l (wlr_seat_touch_notify_cancel c s) (tp_touch_id q)).
    pose proof (cancel_count_lt c s q Hq Hc). lia.
  - destruct (spared c (points s) q) eqn:Hs.
    + assert (Hin : q ∈ points (wlr_seat_touch_notify_cancel c s))
        by (rewrite notify_cancel_points, list_elem_of_In, filter_In, <- list_elem_of_In; done).
      specialize (IH _ Hin Hc). pose proof (cancel_count c s (tp_touch_id q)). lia.
    + pose proof (cancel_all_count l (wlr_seat_touch_notify_cancel c s) (tp_touch_id q)) as Hle.
      rewrite notify_cancel_points in Hle. pose proof (count_filter_lt (fun p => tp_touch_id p =? tp_touch_id q) _ _ q Hq (Z.eqb_refl _) Hs).
      unfold seat_count in *. lia.
Qed.

Lemma native_clients_elem touch (d : desktop V) p q : p ∈ touch_points_ d -> tch_touch p = touch ->
  tch_mode p = kNative -> wlr_seat_touch_get_point (tch_id p) (seat_ d) = Some q ->
  tp_client q ∈ native_clients touch d.
Proof.
  intros Hp Ht Hm Hq. unfold native_clients.
  match goal with |- context [foldl ?g ?a ?l] => set (f := g); generalize a end.
  assert (Hmono : forall l acc c, c ∈ acc -> c ∈ foldl f acc l).
  { induction l as [|x l IH]; intros acc c Hc; simpl; [done|]. apply IH. unfold f.
    destruct (_ || _); [done|]. destruct (wlr_seat_touch_get_point (tch_id x) _); [|done].
    case_decide; [done|set_solver]. }
  induction (touch_points_ d) as [|x l IH]; intros acc; [by apply elem_of_nil in Hp|]. simpl.
  apply elem_of_cons in Hp as [<-|Hp]; [|by apply IH]. apply Hmono. unfold f.
  rewrite Ht, Nat.eqb_refl, bool_decide_true, Hq by done. simpl. case_decide; [done|set_solver].
Qed.

Lemma find_touch touch id l p : NoDup (map touch_key l) -> p ∈ l -> touch_key p = (touch, id) ->
  List.find (is_touch touch id) l = Some p.
Proof.
  intros Hnd Hp Hk. induction l as [|x l IH]; [by apply elem_of_nil in Hp|]. simpl in *.
  apply NoDup_cons in Hnd as [Hx Hnd]. rewrite is_touch_key. apply elem_of_cons in Hp as [<-|Hp].
  - by rewrite bool_decide_true.
  - rewrite bool_decide_false; [by apply IH|]. intros E. apply Hx. rewrite E, <- Hk.
    apply list_elem_of_fmap. eauto.
Qed.

Definition off_device (touch : nat) (p : TouchPoint) : bool := negb (tch_touch p =? touch)%nat.

(** Each native point of the device takes a point of the seat with it. *)
Lemma device_counts F touch d i : touch_ok F d ->
  (seat_count i (points (cancel_all (native_clients touch d) (seat_ d))) <=
   native_count i (List.filter (off_device touch) (touch_points_ d)))%nat.
Proof.
  intros Hok. pose proof (cancel_all_count (native_clients touch d) (seat_ d) i) as Hle.
  pose proof (ti_seat _ _ Hok i) as Hseat. pose proof (ti_keys _ _ Hok) as Hnd. cbn [tview fst snd] in *.
  set (c := fun p => bool_decide (tch_mode p = kNative) && (tch_id p =? i)).
  destruct (List.find (fun p => c p && (tch_touch p =? touch)%nat) (touch_points_ d)) as [p|] eqn:Ef.
  - apply find_some in Ef as [Hin [Hc Ht%Nat.eqb_eq]%andb_true_iff]. unfold c in Hc.
    apply andb_true_iff in Hc as [Hm%bool_decide_eq_true Hi%Z.eqb_eq]. rewrite <- list_elem_of_In in Hin.
    assert (Hf : List.find (is_touch touch i) (touch_points_ d) = Some p)
      by (apply find_touch; [done..|unfold touch_key; congruence]).
    pose proof (take_out touch i _ p Hnd Hf) as Hperm.
    rewrite (native_count_perm _ _ _ Hperm), native_count_cons, Hm, Hi, Z.eqb_refl in Hseat. simpl in Hseat.
    assert (Hn : native_count i (List.filter (off_device touch) (touch_points_ d)) =
      native_count i (List.filter (fun q => negb (is_touch touch i q)) (touch_points_ d))).
    { unfold native_count. f_equal. apply filter_agree. intros x _ Hx. unfold off_device, is_touch. f_equal.
      apply andb_true_iff in Hx as [_ ->]. by rewrite andb_true_r. }
    rewrite Hn. destruct (wlr_seat_touch_get_point i (seat_ d)) as [q|] eqn:Eq.
    + pose proof (native_clients_elem touch d p q Hin Ht Hm) as Hcl. rewrite Hi in Hcl. specialize (Hcl Eq).
      apply get_point_spec in Eq as [Hq Hqi].
      pose proof (cancel_all_count_lt _ _ _ Hq Hcl) as Hlt. rewrite Hqi in Hlt. lia.
    + apply get_point_count in Eq. lia.
  - assert (Hn : native_count i (List.filter (off_device touch) (touch_points_ d)) = native_count i (touch_points_ d)).
    { unfold native_count. rewrite (filter_agree _ (off_device touch) (fun _ => true)), filter_true; [done|].
      intros x Hx Hcx. rewrite list_elem_of_In in Hx. apply (List.find_none _ _ Ef) in Hx.
      change (c x = true) in Hcx. rewrite Hcx in Hx. simpl in Hx. unfold off_device. by rewrite Hx. }
    lia.
Qed.

(** The pointer's finger, if it is on the device, releases the button. *)
Lemma device_pointer F touch d : touch_ok F d ->
  let rel := existsb (fun p => (tch_touch p =? touch)%nat && is_pointer p) (touch_points_ d) in
  emu (emulated (calls d) ++ if rel then [false] else []) =
  Some (bool_decide (pointer_count (List.filter (off_device touch) (touch_points_ d)) = 1%nat)).
Proof.
  intros Hok rel. pose proof (ti_one _ _ Hok) as Hone. pose proof (ti_emu _ _ Hok) as Hemu.
  cbn [tview fst snd] in *. destruct rel eqn:Er; subst rel.
  - apply existsb_exists in Er as (p & Hp & [Ht Hpt]%andb_true_iff).
    rewrite <- list_elem_of_In in Hp.
    pose proof (count_filter_lt is_pointer (off_device touch) _ p Hp Hpt) as Hlt.
    unfold off_device in Hlt at 1. rewrite Ht in Hlt. specialize (Hlt eq_refl).
    unfold pointer_count in *. rewrite emu_app, Hemu.
    replace (length (List.filter is_pointer (List.filter _ _))) with O by lia.
    replace (length (List.filter is_pointer _)) with 1%nat by lia. done.
  - rewrite app_nil_r, Hemu. unfold pointer_count.
    rewrite (filter_agree _ (off_device touch) (fun _ => true)), filter_true; [done|].
    intros x Hx Hpx. unfold off_device. destruct (tch_touch x =? touch)%nat eqn:Ex; [|done].
    rewrite list_elem_of_In in Hx. exfalso. apply not_true_iff_false in Er. apply Er, existsb_exists.
    exists x. by rewrite Ex, Hpx.
Qed.

Lemma touch_ok_device F touch d : touch_ok F d ->
  touch_ok (filter (fun k => k.1 <> touch) F)
    (CancelTouchDevice root_surface surface_client resize_ok touch d).
Proof.
  intros Hok. unfold CancelTouchDevice. fold (cancel_all (native_clients touch d)).
  pose proof (device_pointer F touch d Hok) as Hemu. unfold is_pointer in Hemu at 1. cbv zeta in Hemu.
  set (rel := existsb _ (touch_points_ d)) in *. set (d1 := upd_seat _ d).
  match goal with |- touch_ok _ (feedback _ (upd_touch_points _ ?x)) => set (d2 := x) end.
  assert (H2' : tview d2 = (touch_points_ d, points (seat_ d1), emulated (calls d) ++ if rel then [false] else [])).
  { subst d2. destruct rel; [|unfold tview; by rewrite app_nil_r].
    pose proof (tview_emulated root_surface surface_client resize_ok 0 false d1) as Hv.
    set (d3 := SendPointerTouchButton _ _ _ _ _ d1) in *. clearbody d3.
    etransitivity; [apply (tkept_seat wlr_seat_pointer_notify_frame), points_pointer_frame|exact Hv]. }
  clearbody d2. injection H2' as Et Ep Ee. eapply touch_ok_kept; [|by apply tkept_feedback].
  unfold touch_ok, tview. simpl. rewrite Et, Ep, Ee.
  eapply (tinv_drop F _ _ _ (off_device touch)); [exact Hok| | |exact Hemu].
  - intros p Hp Hg. apply elem_of_filter. split; [|by apply (ti_down _ _ Hok)].
    unfold off_device in Hg. simpl. by apply negb_true_iff, Nat.eqb_neq in Hg.
  - intros i. by apply (device_counts F).
Qed.

(** *** Everything else *)

Lemma points_touch_frame s : points (wlr_seat_touch_notify_frame s) = points s.
Proof.
  unfold wlr_seat_touch_notify_frame, wlr_seat_touch_send_frame.
  generalize (map fst (map_to_list (seat_clients s))) as l. intros l. revert s.
  induction l as [|c l IH]; intros s; simpl; [done|]. rewrite IH.
  destruct (seat_clients s !! c) as [sc|]; [|done]. destruct (sc_needs_touch_frame sc); [|done].
  by apply (points_for_each _ _ s).
Qed.

Lemma touch_ok_frame F d : touch_ok F d -> touch_ok F (OnTouchFrame d).
Proof.
  intros Hok. eapply touch_ok_kept; [exact Hok|]. unfold OnTouchFrame. set (d1 := upd_seat _ d).
  apply (tkept_trans _ d1); [apply (tkept_seat wlr_seat_touch_notify_frame), points_touch_frame|].
  clearbody d1. destruct (touch_pointer_frame_pending_ d1); [|done].
  apply (tkept_trans _ (upd_seat wlr_seat_pointer_notify_frame d1)); [|done].
  apply (tkept_seat wlr_seat_pointer_notify_frame), points_pointer_frame.
Qed.

Lemma touch_ok_seat F f (d : desktop V) : touch_ok F d ->
  (forall i, (seat_count i (points (f (seat_ d))) <= seat_count i (points (seat_ d)))%nat) ->
  touch_ok F (upd_seat f d).
Proof. intros Hok Hf. eapply tinv_shape; [exact Hok|done|exact Hf]. Qed.

Lemma surface_gone_count f s i :
  seat_count i (points (touch_point_handle_surface_destroy f s)) = seat_count i (points s).
Proof. apply seat_count_map. intros p. by destruct (bool_decide _). Qed.

Lemma client_gone_count c s i :
  (seat_count i (points (seat_client_destroy c s)) <= seat_count i (points s))%nat.
Proof. apply count_filter. Qed.

(** ** Sequences of events *)

Inductive touch_ev :=
| EvDown (addr : option nat) (touch : nat) (id : Z) (x y : Q) (time : Z)
| EvUp (touch : nat) (id time : Z)
| EvMotion (touch : nat) (id : Z) (x y : Q) (time : Z)
| EvCancel (touch : nat) (id time : Z)
| EvFrame
| EvDeviceGone (touch : nat)
| EvSurfaceGone (surface : nat)
| EvClientGone (client : nat)
| EvPointerMotion (time : Z)
| EvPointerButton (time b : Z) (pressed : bool)
| EvWindows (f : compositor -> compositor).

Definition touch_do (d : desktop V) (ev : touch_ev) : desktop V :=
  match ev with
  | EvDown addr touch id x y time =>
      OnTouchDown root_surface surface_client resize_ok addr touch id x y time d
  | EvUp touch id time => OnTouchUp root_surface surface_client resize_ok touch id time d
  | EvMotion touch id x y time => OnTouchMotion surface_client touch id x y time d
  | EvCancel touch id time => OnTouchCancel root_surface surface_client resize_ok touch id time d
  | EvFrame => OnTouchFrame d
  | EvDeviceGone touch => CancelTouchDevice root_surface surface_client resize_ok touch d
  | EvSurfaceGone f => d |> upd_seat (touch_point_handle_surface_destroy f)
                         |> refocus (seat_pointer_handle_surface_destroy surface_client f)
  | EvClientGone c => upd_seat (seat_client_destroy c) d
  | EvPointerMotion time => ProcessCursorMotion surface_client time d
  | EvPointerButton time b p => OnCursorButton root_surface surface_client resize_ok true time b p d
  | EvWindows f => run surface_client f d
  end.

(** The fingers on the devices; a finger goes down only where none is. *)
Definition fingers (F : gset (nat * Z)) (ev : touch_ev) : option (gset (nat * Z)) :=
  match ev with
  | EvDown _ touch id _ _ _ => if decide ((touch, id) ∈ F) then None else Some ({[(touch, id)]} ∪ F)
  | EvUp touch id _ | EvCancel touch id _ => Some (F ∖ {[(touch, id)]})
  | EvDeviceGone touch => Some (filter (fun k => k.1 <> touch) F)
  | _ => Some F
  end.

Fixpoint all_fingers (F : gset (nat * Z)) (evs : list touch_ev) : option (gset (nat * Z)) :=
  match evs with
  | [] => Some F
  | ev :: evs => F ← fingers F ev; all_fingers F evs
  end.

Lemma touch_do_ok F ev F' d : touch_ok F d -> fingers F ev = Some F' -> touch_ok F' (touch_do d ev).
Proof.
  intros Hok. destruct ev; simpl; try intros [= <-].
  - case_decide; [done|]. intros [= <-]. by apply touch_ok_down.
  - by apply touch_ok_up.
  - by apply touch_ok_motion.
  - by apply touch_ok_cancel.
  - by apply touch_ok_frame.
  - by apply touch_ok_device.
  - eapply touch_ok_kept; [apply touch_ok_seat; [exact Hok|]; intros; by rewrite surface_gone_count|].
    apply tkept_refocus. intros s. apply seat_surface_gone.
  - apply touch_ok_seat; [done|]. intros. apply client_gone_count.
  - eapply touch_ok_kept; [exact Hok|apply tkept_ProcessCursorMotion].
  - eapply touch_ok_kept; [exact Hok|apply tkept_OnCursorButton].
  - eapply touch_ok_kept; [exact Hok|apply tkept_run].
Qed.

Lemma touch_run_ok F evs F' d : touch_ok F d -> all_fingers F evs = Some F' ->
  touch_ok F' (foldl touch_do d evs).
Proof.
  revert F d. induction evs as [|ev evs IH]; intros F d Hok; simpl; [by intros [= <-]|].
  destruct (fingers F ev) as [F1|] eqn:Ef; [|done]. simpl. apply IH. by eapply touch_do_ok.
Qed.

End Handling.

Lemma no_counts l : (forall id, seat_count id l = O) -> l = [].
Proof.
  destruct l as [|p l]; [done|]. intros Hc. specialize (Hc (tp_touch_id p)).
  unfold seat_count in Hc. simpl in Hc. by rewrite Z.eqb_refl in Hc.
Qed.

(** C11. Touch handling never loses a finger: through every sequence of touches on
    any devices, with devices, clients and surfaces going away and pointer events
    and window operations in between, at most one finger drives the pointer, the
    emulated button is pressed and released in turn and is down exactly while that
    finger is; and once all fingers are lifted, nothing is left: no touch point in
    the compositor, none in the seat, and the button is up. *)
Theorem touch_never_sticks {V : Type} `{OutputLayout} `{Views V} `{Scene} `{TouchLayout}
    (root_surface surface_client : nat -> nat) (resize_ok : Z -> Z -> bool)
    (d : desktop V) (evs : list touch_ev) (F : gset (nat * Z))
    (Hpoints : touch_points_ d = []) (Hseat : points (seat_ d) = []) (Hcalls : emulated (calls d) = [])
    (Hfingers : all_fingers ∅ evs = Some F) :
  let d' := foldl (touch_do root_surface surface_client resize_ok) d evs in
  (pointer_count (touch_points_ d') <= 1)%nat /\
  emu (emulated (calls d')) = Some (bool_decide (pointer_count (touch_points_ d') = 1%nat)) /\
  (F = ∅ -> touch_points_ d' = [] /\ points (seat_ d') = [] /\ emu (emulated (calls d')) = Some false).
Proof.
  intros d'. assert (Hok : touch_ok F d').
  { eapply touch_run_ok; [|exact Hfingers]. unfold touch_ok, tview. rewrite Hpoints, Hseat, Hcalls.
    split; simpl; try done; [apply NoDup_nil_2|by intros ? ?%elem_of_nil|unfold pointer_count; simpl; lia]. }
  clearbody d'. destruct Hok as [K D S O E]. simpl in *. split_and!; [done|done|]. intros ->.
  assert (Hnil : touch_points_ d' = []).
  { destruct (touch_points_ d') as [|p l]; [done|]. specialize (D p ltac:(left)). by apply not_elem_of_empty in D. }
  rewrite Hnil in *. split_and!; [done| |by rewrite E]. apply no_counts. intros id. specialize (S id).
  unfold native_count in S. simpl in S. lia.
Qed.

(** ** A demonstration *)

#[local] Existing Instance demo_layout.

#[export] Instance demo_touch_layout : TouchLayout := {| warp_absolute _ x y _ := (x * 1920, y * 1080)%Q |}.

(** The first window's client understands touch. *)
Definition demo_touch_desktop : desktop unit :=
  (demo_desktop demo_windows) <{ seat_ ::= seat_client_create_touch 1 7 }>.

(** Two devices with the same finger number: one finger on the window, one beside
    it, which drives the pointer, and a third that is ignored; the window's finger
    moves and is lifted, the second device is unplugged, the last finger is
    cancelled. *)
Definition demo_touches : list touch_ev :=
  [EvDown (Some 1%nat) 1 0 (2 # 5) (2 # 5) 10; EvDown (Some 2%nat) 2 0 (1 # 20) (1 # 20) 11;
   EvDown (Some 3%nat) 1 1 (1 # 20) (1 # 10) 12; EvMotion 1 0 (1 # 2) (1 # 2) 13; EvFrame;
   EvUp 1 0 14; EvDeviceGone 2; EvCancel 1 1 15; EvFrame].

Definition demo_modes : list TouchPointMode :=
  map tch_mode (touch_points_ (foldl (touch_do id (fun f => f / 10)%nat (fun _ _ => true))
    demo_touch_desktop (take 3 demo_touches))).

Lemma touch_never_sticks_witness :
  demo_modes = [kNative; kPointer; kIgnored] /\
  points (seat_ (foldl (touch_do id (fun f => f / 10)%nat (fun _ _ => true))
    demo_touch_desktop demo_touches)) = [].
Proof.
  split; [vm_compute; reflexivity|].
  refine (proj1 (proj2 (proj2 (proj2 (touch_never_sticks id (fun f => f / 10)%nat (fun _ _ => true)
    demo_touch_desktop demo_touches ∅ _ _ _ _)) _)));
    vm_compute; reflexivity.
Defined.

(** Two touch screens number their fingers alike, and the seat only sees the
    numbers: lifting the first screen's finger ends the second one's touch point
    (address 2) and leaves the first one's. *)
Example two_screens_confused :
  map tp_addr (points (seat_ (foldl (touch_do id (fun f => f / 10)%nat (fun _ _ => true)) demo_touch_desktop
    [EvDown (Some 1%nat) 1 0 (2 # 5) (2 # 5) 10; EvDown (Some 2%nat) 2 0 (1 # 2) (1 # 2) 11; EvUp 1 0 12]))) = [1%nat].
Proof. vm_compute. reflexivity. Qed.
