(* ===== verification/LockScreen.v ===== *)
(** * The lock screen

    Models the session lock of ProtocolManager
    (src/src/protocol/protocol_manager/protocol_manager.cc: class SessionLockState
    with its OutputPresentation, BeginSessionLock, UnlockSession,
    FinishSessionLock, FocusSessionLockSurface) over the whole desktop: windows,
    seat, pointer and touch handlers. The guard of wlroots on the unlock request
    (src/libs/wlroots/types/wlr_session_lock_v1.c) is part of the model.

    The theorem: between a lock and its unlock request nothing that clients or the
    user's pointer and fingers do unlocks the session or gives the keyboard to a
    window, also when the locking client dies. *)

From S2P Require Import Prelude Box Ssd Window Windows WindowFacts Workspaces SessionLock Serials.
From S2P Require Import Seat SeatPointer SeatTouch Desktop Pointer PointerSteps Touch.

Record OutputPresentation := MkPresentation {
  op_output : option nat; op_minimum_commit_seq : Z; op_presented : bool }.

Record SessionLockState := MkLock {
  sl_unlocked : bool; sl_locked_sent : bool; sl_outputs : list OutputPresentation }.

#[export] Instance lock_state_fields : Fields SessionLockState := {| rebuild := fun l =>
  MkLock (sl_unlocked l) (sl_locked_sent l) (sl_outputs l) |}.

(** An output as the lock sees it. *)
Record wlr_output := MkWlrOutput { o_handle : nat; o_enabled : bool; o_commit_seq : Z }.

(** What the locking clients are told. *)
Inductive lock_msg := MsgLocked | MsgFinished.

Record lockscreen (V : Type) := LockScreen {
  desk : desktop V;
  session_lock_ : option SessionLockState;
  session_lock_blank_ : bool;
  lock_tree_enabled : bool;
  lock_msgs : list lock_msg }.

Arguments LockScreen {V}. Arguments desk {V}. Arguments session_lock_ {V}.
Arguments session_lock_blank_ {V}. Arguments lock_tree_enabled {V}. Arguments lock_msgs {V}.

#[export] Instance lockscreen_fields (V : Type) : Fields (lockscreen V) := {| rebuild := fun l =>
  LockScreen (desk l) (session_lock_ l) (session_lock_blank_ l) (lock_tree_enabled l) (lock_msgs l) |}.

(** ** A lock and the outputs *)

Definition LockAddOutput (l : SessionLockState) (o : wlr_output) : SessionLockState :=
  if sl_locked_sent l || negb (o_enabled o) ||
     existsb (fun p => bool_decide (op_output p = Some (o_handle o))) (sl_outputs l) then l
  else l <{ sl_outputs ::= fun ps => ps ++ [MkPresentation (Some (o_handle o)) (u32 (o_commit_seq o + 1)) false] }>.

(** Whether the client is told, and the state after. *)
Definition MaybeSendLocked (l : SessionLockState) : SessionLockState * list lock_msg :=
  if sl_locked_sent l || negb (forallb op_presented (sl_outputs l)) then (l, [])
  else (l <{ sl_locked_sent := true }>, [MsgLocked]).

Definition NewLockState (outputs : list wlr_output) : SessionLockState * list lock_msg :=
  MaybeSendLocked (foldl LockAddOutput (MkLock false false []) outputs).

(** A frame of an output was shown: whether it counts. The listener is gone once one
    did. *)
Definition shows (output : nat) (presented : bool) (seq : Z) (p : OutputPresentation) : bool :=
  bool_decide (op_output p = Some output) && negb (op_presented p) &&
  presented && (op_minimum_commit_seq p <=? seq).

Definition present_one (output : nat) (presented : bool) (seq : Z) (p : OutputPresentation) : OutputPresentation :=
  if shows output presented seq p
  then MkPresentation (op_output p) (op_minimum_commit_seq p) true else p.

Definition of_output (output : nat) (p : OutputPresentation) : bool := bool_decide (op_output p = Some output).

Definition destroy_one (output : nat) (p : OutputPresentation) : OutputPresentation :=
  if of_output output p then MkPresentation None (op_minimum_commit_seq p) true else p.

Section Lock.
Context {V : Type} `{OutputLayout} `{Views V} `{Scene} `{TouchLayout}.
Variable root_surface : nat -> nat.
Variable surface_client : nat -> nat.
Variable resize_ok : Z -> Z -> bool.

Definition on_desk (f : desktop V -> desktop V) (l : lockscreen V) : lockscreen V := l <{ desk ::= f }>.
Definition on_wm (f : compositor -> compositor) (l : lockscreen V) : lockscreen V :=
  on_desk (fun d => d <{ wm ::= f }>) l.
Definition send_msg (m : list lock_msg) (l : lockscreen V) : lockscreen V := l <{ lock_msgs ::= fun ms => ms ++ m }>.

Definition clear_keyboard_focus (l : lockscreen V) : lockscreen V :=
  on_wm (fun w => w <{ focused_surface := None }>) l.

(** A signal of an output, if the lock listens: [hears] is whose listener runs. *)
Definition on_output_signal (hears : OutputPresentation -> bool)
    (f : OutputPresentation -> OutputPresentation) (l : lockscreen V) : lockscreen V :=
  match session_lock_ l with
  | None => l
  | Some st =>
      if existsb hears (sl_outputs st) then
        let '(st, msgs) := MaybeSendLocked (st <{ sl_outputs ::= map f }>) in
        send_msg msgs (l <{ session_lock_ := Some st }>)
      else l
  end.

Definition OnPresent (output : nat) (presented : bool) (seq : Z) : lockscreen V -> lockscreen V :=
  on_output_signal (shows output presented seq) (present_one output presented seq).

Definition OnOutputDestroy (output : nat) : lockscreen V -> lockscreen V :=
  on_output_signal (of_output output) (destroy_one output).

(** A surface goes away: the seat's keyboard does not keep it. *)
Definition OnSurfaceDestroy (surface : nat) (l : lockscreen V) : lockscreen V :=
  if bool_decide (focused_surface (wm (desk l)) = Some surface) then clear_keyboard_focus l else l.

(** ProtocolManager::AddOutput, as far as the lock is concerned. *)
Definition AddOutput (o : wlr_output) (l : lockscreen V) : lockscreen V :=
  l <{ session_lock_ ::= fmap (fun st => LockAddOutput st o) }>.

(** ** Locking and unlocking *)

(** [blank_ok] is whether the blank rectangle can be made. *)
Definition BeginSessionLock (outputs : list wlr_output) (devices : list nat) (blank_ok : bool)
    (l : lockscreen V) : lockscreen V :=
  match session_lock_ l with
  | Some _ => send_msg [MsgFinished] l
  | None =>
      let l := l |> on_wm (fun w => w <{ session_locked := true }>)
                 |> on_desk (run surface_client ResetCursorMode)
                 |> on_desk (fun d => foldl (fun d t => CancelTouchDevice root_surface surface_client resize_ok t d) d devices)
                 |> on_desk (clear_pointer_focus surface_client)
                 |> clear_keyboard_focus in
      if negb (session_lock_blank_ l) && negb blank_ok then
        l |> on_wm (fun w => w <{ session_locked := false }>)
          |> send_msg [MsgFinished]
          |> on_desk (run surface_client (FocusNextToplevel None))
      else
        let l := l <{ session_lock_blank_ := true }> in
        let '(st, msgs) := NewLockState outputs in
        send_msg msgs (l <{ session_lock_ := Some st }> <{ lock_tree_enabled := true }>)
  end.

Definition UnlockSession (l : lockscreen V) : lockscreen V :=
  if negb (session_locked (wm (desk l))) then l
  else l |> on_wm (fun w => w <{ session_locked := false }>)
         |> (fun l => l <{ lock_tree_enabled := false }>)
         |> on_desk (run surface_client (FocusNextToplevel None)).

Definition FinishSessionLock (unlocked : bool) (l : lockscreen V) : lockscreen V :=
  let l := l <{ session_lock_ := None }> in
  if unlocked then l
  else l |> on_wm (fun w => w <{ session_locked := true }>)
         |> (fun l => l <{ lock_tree_enabled := true }>)
         |> on_desk (clear_pointer_focus surface_client)
         |> clear_keyboard_focus.

(** The lock object is destroyed, with its client or after an unlock. *)
Definition OnLockDestroy (l : lockscreen V) : lockscreen V :=
  match session_lock_ l with
  | None => l
  | Some st => FinishSessionLock (sl_unlocked st) l
  end.

(** unlock_and_destroy, refused by wlroots until the client was told of the lock. *)
Definition unlock_and_destroy (l : lockscreen V) : lockscreen V :=
  match session_lock_ l with
  | None => l
  | Some st =>
      if negb (sl_locked_sent st) then l
      else l |> (fun l => l <{ session_lock_ := Some (st <{ sl_unlocked := true }>) }>)
             |> UnlockSession |> OnLockDestroy
  end.

Definition FocusSessionLockSurface (surface : nat) (is_mapped : bool) (l : lockscreen V) : lockscreen V :=
  if negb (session_locked (wm (desk l))) || negb is_mapped then l
  else on_wm (keyboard_enter (Some surface)) l.

End Lock.

(** ** The desktop under a lock *)

(** Views change the windows only through the compositor's operations. *)
Class LawfulViews {V : Type} `{OutputLayout} `{Views V} (root_surface : nat -> nat)
    (resize_ok : Z -> Z -> bool) := {
  lawful_view : forall v w vw, view_step v w vw -> rtc (wm_op root_surface resize_ok) w vw.2 }.

Definition dlock {V} (d d' : desktop V) : Prop := lock_kept (wm d) (wm d').

#[export] Instance dlock_preorder {V} : PreOrder (@dlock V).
Proof. split; [done|]. intros ? ? ?. apply lock_trans. Qed.

Lemma dlock_image {V} i (d : desktop V) : dlock d (set_image i d).
Proof. unfold set_image, ApplyCursorImage. by destruct (negb _). Qed.

#[export] Instance dlock_handlers {V : Type} `{OutputLayout} `{Views V} root_surface surface_client resize_ok
  `{!LawfulViews root_surface resize_ok} : HandlerRel surface_client resize_ok (@dlock V).
Proof.
  split.
  - apply _.
  - intros d d' []; try done. apply dlock_image.
  - done.
  - intros d f [];
      [apply lock_FocusToplevel|apply lock_FocusLayerSurface|apply lock_Minimize|apply lock_ToggleMaximized
      |apply lock_BeginInteractive|apply lock_EndInteractive|apply lock_ResetCursorMode
      |apply lock_ProcessInteractiveMotion].
  - intros d vw Hvw. unfold dlock. simpl. apply lawful_view in Hvw.
    induction Hvw; [done|]. eapply lock_trans; [by eapply lock_wm_op|done].
Qed.

Section TouchUnderLock.
Context {V : Type} `{OutputLayout} `{Views V} `{Scene} `{TouchLayout}.
Context (root_surface surface_client : nat -> nat) (resize_ok : Z -> Z -> bool).
Context `{!LawfulViews root_surface resize_ok}.
Lemma dlock_trans (d1 d2 d3 : desktop V) : dlock d1 d2 -> dlock d2 d3 -> dlock d1 d3.
Proof. apply transitivity. Qed.

Lemma dlock_protocols c (d : desktop V) : dlock d (call_protocols c d).
Proof. unfold call_protocols, when. by destruct (protocol_manager_ _). Qed.
Lemma dlock_feedback c (d : desktop V) : dlock d (feedback c d).
Proof. unfold feedback, when. by destruct (touch_feedback_ _). Qed.

#[local] Set Default Proof Using "Type*".

Lemma dlock_wm f (d : desktop V) : lock_kept (wm d) (f (wm d)) -> dlock d (run surface_client f d).
Proof. intros Hf. by eapply (hr_run_rel surface_client resize_ok dlock). Qed.

Lemma dlock_button fp time b p (d : desktop V) :
  dlock d (OnCursorButton root_surface surface_client resize_ok fp time b p d).
Proof. apply hr_OnCursorButton, _. Qed.
Lemma dlock_motion time (d : desktop V) : dlock d (ProcessCursorMotion surface_client time d).
Proof. by eapply (hr_ProcessCursorMotion surface_client resize_ok dlock). Qed.
Lemma dlock_ask_motion c (d : desktop V) : dlock d (ask_motion surface_client c d).1.
Proof. by eapply (hr_ask_motion surface_client resize_ok dlock). Qed.
Lemma dlock_ask_button c b p (d : desktop V) : dlock d (ask_button surface_client c b p d).1.
Proof. by eapply (hr_ask_button surface_client resize_ok dlock). Qed.
Lemma dlock_cancel c (d : desktop V) : dlock d (cancel_view surface_client c d).
Proof. by eapply (hr_cancel surface_client resize_ok dlock). Qed.
Lemma dlock_clear (d : desktop V) : dlock d (clear_pointer_focus surface_client d).
Proof. by eapply (hr_clear surface_client resize_ok dlock). Qed.
Lemma dlock_emulated time p (d : desktop V) :
  dlock d (SendPointerTouchButton root_surface surface_client resize_ok time p d).
Proof. apply (dlock_button false time BTN_LEFT p (call_out (EmulatedButton p) d)). Qed.
Lemma dlock_cursor touch x y (d : desktop V) : dlock d (MoveTouchCursor touch x y d).
Proof. unfold MoveTouchCursor. destruct (warp_absolute _ _ _ _) as [cx cy]. apply (dlock_trans _ (d <{ wm ::= fun w => w <{ cursor_x := cx }> <{ cursor_y := cy }> }>)); [done|apply dlock_protocols]. Qed.

(** Steps through a handler. *)
Ltac dl_over d t := apply (dlock_trans _ d); [|apply t].
Ltac dl_step :=
  cbv beta;
  match goal with
  | |- dlock ?a ?b => constr_eq a b; reflexivity
  | |- dlock _ (feedback _ ?d) => dl_over d dlock_feedback
  | |- dlock _ (call_protocols _ ?d) => dl_over d dlock_protocols
  | |- dlock _ (UnsetCursorImage ?d) => dl_over d dlock_image
  | |- dlock _ (SendPointerTouchButton _ _ _ _ _ ?d) => dl_over d dlock_emulated
  | |- dlock _ (ProcessCursorMotion _ _ ?d) => dl_over d dlock_motion
  | |- dlock _ (MoveTouchCursor _ _ _ ?d) => dl_over d dlock_cursor
  | |- dlock _ (ask_motion _ _ ?d).1 => dl_over d dlock_ask_motion
  | |- dlock _ (ask_button _ _ _ _ ?d).1 => dl_over d dlock_ask_button
  | |- dlock _ (cancel_view _ _ ?d) => dl_over d dlock_cancel
  | |- dlock _ (upd_seat _ ?d) => apply (dlock_trans _ d); [|done]
  | |- dlock _ (upd_touch_points _ ?d) => apply (dlock_trans _ d); [|done]
  | |- dlock _ (push_touch _ _ _ ?d) => apply (dlock_trans _ d); [|done]
  | |- dlock _ (modify _ _ ?d) => apply (dlock_trans _ d); [|done]
  | |- dlock _ (if ?b then _ else _) => destruct b
  | |- dlock _ (match ?x with _ => _ end) => destruct x
  end.
Ltac dl_tac := repeat dl_step.

Lemma dlock_CancelTouchDevice touch (d : desktop V) :
  dlock d (CancelTouchDevice root_surface surface_client resize_ok touch d).
Proof. unfold CancelTouchDevice. dl_tac. Qed.

Lemma dlock_down_native addr time id (d : desktop V) :
  dlock d (down_native root_surface surface_client addr time id d).1.
Proof.
  unfold down_native. destruct (ToplevelAt _ _ _) as [[t [f|]] xy]; [|done].
  destruct (wlr_surface_accepts_touch _ _ _); [|done]. set (d1 := call_protocols _ _).
  apply (dlock_trans _ d1); [apply dlock_protocols|]. clearbody d1. destruct (ToSurfaceX _ _ _) as [x y].
  destruct (wlr_seat_touch_notify_down _ _ _ _ _ _ _ _) as [s n]. destruct (negb _); [|done]. cbn [fst].
  apply (dlock_trans _ (d1 <{ seat_ := s }>)); [done|].
  destruct t; apply dlock_wm; [apply lock_FocusToplevel|apply lock_FocusLayerSurface].
Qed.

Lemma dlock_down_on_view c touch id mode (d : desktop V) :
  dlock d (down_on_view surface_client c touch id mode d).
Proof. unfold down_on_view. dl_tac. Qed.

Lemma dlock_OnTouchDown addr touch id x y time (d : desktop V) :
  dlock d (OnTouchDown root_surface surface_client resize_ok addr touch id x y time d).
Proof.
  unfold OnTouchDown. set (d1 := MoveTouchCursor _ _ _ _). apply (dlock_trans _ d1); [subst d1; dl_tac|].
  clearbody d1. do 3 (destruct (is_view_active _ d1); [apply dlock_down_on_view|]).
  set (d2 := UnsetCursorImage _). apply (dlock_trans _ d2); [subst d2; dl_tac|]. clearbody d2.
  pose proof (dlock_down_native addr time id d2) as Hn. destruct (down_native _ _ _ _ _ d2) as [d3 [|]];
    apply (dlock_trans _ d3); try exact Hn; clear Hn; [by dl_tac|]. destruct (negb _); dl_tac.
Qed.

Lemma dlock_OnTouchUp touch id time (d : desktop V) :
  dlock d (OnTouchUp root_surface surface_client resize_ok touch id time d).
Proof.
  unfold OnTouchUp. set (d1 := call_protocols _ _). apply (dlock_trans _ d1); [apply dlock_protocols|].
  clearbody d1. destruct (FindTouchPoint _ _ _) as [p|]; [|done]. destruct (tch_mode p); cbn [view_of]; dl_tac.
Qed.

Lemma dlock_native_motion time id dx dy (d : desktop V) : dlock d (native_motion time id dx dy d).
Proof.
  unfold native_motion. destruct (wlr_seat_touch_get_point _ _) as [q|]; [|done].
  destruct (ToSurfaceX _ _ _). dl_tac.
Qed.

Lemma dlock_OnTouchMotion touch id x y time (d : desktop V) :
  dlock d (OnTouchMotion surface_client touch id x y time d).
Proof.
  unfold OnTouchMotion. set (d1 := call_protocols _ _). apply (dlock_trans _ d1); [apply dlock_protocols|].
  clearbody d1. destruct (FindTouchPoint _ _ _) as [p|]; [|done].
  destruct (tch_mode p); cbn [view_of]; try by dl_tac. dl_step. eapply dlock_trans; [|apply dlock_native_motion]. dl_tac.
Qed.

Lemma dlock_OnTouchCancel touch id time (d : desktop V) :
  dlock d (OnTouchCancel root_surface surface_client resize_ok touch id time d).
Proof.
  unfold OnTouchCancel. set (d1 := call_protocols _ _). apply (dlock_trans _ d1); [apply dlock_protocols|].
  clearbody d1. destruct (FindTouchPoint _ _ _) as [p|]; [|done].
  match goal with |- context [List.filter (cancelled touch id (seat_ ?x)) _] => set (d2 := x) end.
  apply (dlock_trans _ d2); [subst d2; destruct (tch_mode p); cbn [view_of]; dl_tac|]. clearbody d2.
  dl_step. eapply (hr_foldl surface_client resize_ok dlock). intros. apply dlock_feedback.
Qed.

Lemma dlock_OnTouchFrame (d : desktop V) : dlock d (OnTouchFrame d).
Proof. unfold OnTouchFrame. by destruct (touch_pointer_frame_pending_ _). Qed.

End TouchUnderLock.

(** ** Which screens show the lock *)

(** What can happen. *)
Inductive lk_ev :=
| LkInput (ev : touch_ev)
| LkCursor (x y : Q)
| LkLock (outputs : list wlr_output) (devices : list nat) (blank_ok : bool)
| LkLockGone
| LkPresent (output : nat) (presented : bool) (seq : Z)
| LkOutputGone (output : nat)
| LkOutputNew (o : wlr_output)
| LkFocus (surface : nat) (is_mapped : bool)
| LkSurfaceGone (surface : nat)
| LkUnlock.

(** Read off what happened, without the lock's state. [seen_by]: a frame of the output
    committed after its [commit_seq] was [since] has been shown, or the output is gone. *)

Definition seen_by (output : nat) (since : Z) (ev : lk_ev) : bool :=
  match ev with
  | LkPresent o presented seq => (o =? output)%nat && presented && (u32 (since + 1) <=? seq)
  | LkOutputGone o => (o =? output)%nat
  | _ => false
  end.

(** The outputs that were turned on, each with what happened since; [on] are those that
    are on before. *)
Fixpoint screens (on : list nat) (t : list lk_ev) : list (wlr_output * list lk_ev) :=
  match t with
  | [] => []
  | LkOutputNew o :: t =>
      if o_enabled o && negb (existsb (Nat.eqb (o_handle o)) on)
      then (o, t) :: screens (o_handle o :: on) t else screens on t
  | LkOutputGone h :: t => screens (List.filter (fun g => negb (g =? h)%nat) on) t
  | _ :: t => screens on t
  end.

Definition screen_covered (s : wlr_output * list lk_ev) : bool :=
  existsb (seen_by (o_handle s.1) (o_commit_seq s.1)) s.2.

(** Every screen that was on at the lock, or was turned on since, shows the lock or is
    gone. *)
Definition all_covered (outputs : list wlr_output) (t : list lk_ev) : bool :=
  forallb screen_covered (screens [] (map LkOutputNew outputs ++ t)).

(** *** What the lock waits for *)

(** The outputs that are on after [t]. *)
Fixpoint on_after (on : list nat) (t : list lk_ev) : list nat :=
  match t with
  | [] => on
  | LkOutputNew o :: t =>
      on_after (if o_enabled o && negb (existsb (Nat.eqb (o_handle o)) on) then o_handle o :: on else on) t
  | LkOutputGone h :: t => on_after (List.filter (fun g => negb (g =? h)%nat) on) t
  | _ :: t => on_after on t
  end.

Lemma on_after_snoc on t ev : on_after on (t ++ [ev]) = on_after (on_after on t) [ev].
Proof. revert on. induction t as [|e t IH]; intros on; [done|]. by destruct e; simpl; rewrite IH. Qed.

Definition new_screen (on : list nat) (ev : lk_ev) : list (wlr_output * list lk_ev) :=
  match ev with
  | LkOutputNew o => if o_enabled o && negb (existsb (Nat.eqb (o_handle o)) on) then [(o, [])] else []
  | _ => []
  end.

Lemma screens_snoc on t ev : screens on (t ++ [ev]) =
  map (fun s => (s.1, s.2 ++ [ev])) (screens on t) ++ new_screen (on_after on t) ev.
Proof.
  revert on. induction t as [|e t IH]; intros on.
  - destruct ev; done.
  - destruct e; simpl; try apply IH. destruct (_ && _); simpl; by rewrite IH.
Qed.

Lemma screen_covered_snoc s ev : screen_covered (s.1, s.2 ++ [ev]) =
  screen_covered s || seen_by (o_handle s.1) (o_commit_seq s.1) ev.
Proof. unfold screen_covered. cbn [fst snd]. rewrite existsb_app. cbn [existsb]. by rewrite orb_false_r. Qed.

(** What an event does to the list of a lock that has not told its client yet. *)
Definition outputs_do (ev : lk_ev) (ps : list OutputPresentation) : list OutputPresentation :=
  match ev with
  | LkPresent o presented seq => map (present_one o presented seq) ps
  | LkOutputGone o => map (destroy_one o) ps
  | LkOutputNew o =>
      if negb (o_enabled o) || existsb (fun p => bool_decide (op_output p = Some (o_handle o))) ps then ps
      else ps ++ [MkPresentation (Some (o_handle o)) (u32 (o_commit_seq o + 1)) false]
  | _ => ps
  end.

Definition waits_for (p : OutputPresentation) (o : wlr_output) : Prop :=
  op_presented p = false /\ op_output p = Some (o_handle o) /\ op_minimum_commit_seq p = u32 (o_commit_seq o + 1).

(** The list of the lock and the screens that were turned on say the same. *)
Record tracks (t : list lk_ev) (ps : list OutputPresentation) : Prop := {
  tr_on : forall h, (exists p, p ∈ ps /\ op_output p = Some h) <-> h ∈ on_after [] t;
  tr_open : forall s, s ∈ screens [] t -> screen_covered s = false -> exists p, p ∈ ps /\ waits_for p s.1;
  tr_wait : forall p, p ∈ ps -> op_presented p = false ->
    exists s, s ∈ screens [] t /\ screen_covered s = false /\ waits_for p s.1 }.

Lemma tracks_covered t ps : tracks t ps -> forallb op_presented ps = forallb screen_covered (screens [] t).
Proof.
  intros [_ Ho Hw]. apply eq_true_iff_eq. rewrite !forallb_forall. split.
  - intros Hp s Hs%list_elem_of_In. destruct (screen_covered s) eqn:E; [done|].
    destruct (Ho s Hs E) as (p & Hin & Hn & _). by rewrite Hp in Hn by by apply list_elem_of_In.
  - intros Hc p Hp%list_elem_of_In. destruct (op_presented p) eqn:E; [done|].
    destruct (Hw p Hp E) as (s & Hin & Hn & _). by rewrite Hc in Hn by by apply list_elem_of_In.
Qed.

(** An event changes each entry of the list by [f], and the screens it shows are those
    whose entries it marks. *)
Lemma tracks_map t ps ev (f : OutputPresentation -> OutputPresentation) :
  new_screen (on_after [] t) ev = [] -> outputs_do ev ps = map f ps ->
  (forall h, (exists p, p ∈ map f ps /\ op_output p = Some h) <-> h ∈ on_after [] (t ++ [ev])) ->
  (forall p o, waits_for p o -> if seen_by (o_handle o) (o_commit_seq o) ev then op_presented (f p) = true else f p = p) ->
  (forall p, op_presented p = true -> op_presented (f p) = true) ->
  tracks t ps -> tracks (t ++ [ev]) (outputs_do ev ps).
Proof.
  intros Hn Hf Hon Hseen Hkeep [_ Ho Hw]. rewrite Hf. split; [done| |].
  - intros s'. rewrite screens_snoc, Hn, app_nil_r, list_elem_of_fmap.
    intros (s & -> & Hs). rewrite screen_covered_snoc. simpl. intros [Hc He]%orb_false_iff.
    destruct (Ho s Hs Hc) as (p & Hp & Hwt). exists p. split; [|done]. apply list_elem_of_fmap. exists p.
    split; [|done]. specialize (Hseen p s.1 Hwt). by rewrite He in Hseen.
  - intros p' (p & -> & Hp)%list_elem_of_fmap Hpr.
    assert (E : op_presented p = false) by (destruct (op_presented p) eqn:E; [rewrite Hkeep in Hpr by done|]; done).
    destruct (Hw p Hp E) as (s & Hs & Hc & Hwt). specialize (Hseen p s.1 Hwt).
    destruct (seen_by _ _ _) eqn:He; [congruence|]. exists (s.1, s.2 ++ [ev]). split_and!.
    + rewrite screens_snoc, Hn, app_nil_r. apply list_elem_of_fmap. by exists s.
    + by rewrite screen_covered_snoc, Hc, He.
    + by rewrite Hseen.
Qed.

Lemma tracks_present t ps o presented seq : tracks t ps ->
  tracks (t ++ [LkPresent o presented seq]) (outputs_do (LkPresent o presented seq) ps).
Proof.
  intros Ht. eapply tracks_map; [done|done| | | |exact Ht].
  - intros h. rewrite on_after_snoc. simpl. rewrite <- (tr_on _ _ Ht).
    assert (E : forall p, op_output (present_one o presented seq p) = op_output p)
      by (intros p; unfold present_one; by destruct (shows _ _ _ _)).
    split; intros (p & Hp & Eh).
    + apply list_elem_of_fmap in Hp as (q & -> & Hq). exists q. by rewrite E in Eh.
    + exists (present_one o presented seq p). rewrite E. split; [by apply list_elem_of_fmap_2|done].
  - intros p w (W1 & W2 & W3). simpl. unfold present_one, shows. rewrite W1, W2, W3. simpl.
    assert (Eb : bool_decide (Some (o_handle w) = Some o) = (o =? o_handle w)%nat).
    { apply eq_true_iff_eq. rewrite bool_decide_eq_true, Nat.eqb_eq. naive_solver. }
    rewrite Eb, andb_true_r. by destruct (_ && _ && _).
  - intros p Hp. unfold present_one. by destruct (shows _ _ _ _).
Qed.

Lemma tracks_gone t ps o : tracks t ps -> tracks (t ++ [LkOutputGone o]) (outputs_do (LkOutputGone o) ps).
Proof.
  intros Ht. eapply tracks_map; [done|done| | | |exact Ht].
  - intros h. rewrite on_after_snoc. simpl. rewrite list_elem_of_In, List.filter_In, <- list_elem_of_In, <- (tr_on _ _ Ht).
    unfold destroy_one, of_output. split.
    + intros (p & (q & -> & Hq)%list_elem_of_fmap & Eh). destruct (bool_decide_reflect (op_output q = Some o)) as [E|E]; [done|].
      split; [by exists q|]. destruct (Nat.eqb_spec h o); [congruence|done].
    + intros [(p & Hp & Eh) Hne]. exists p. split; [|done]. apply list_elem_of_fmap. exists p. split; [|done].
      rewrite bool_decide_false; [done|]. rewrite Eh. intros [= ->]. by rewrite Nat.eqb_refl in Hne.
  - intros p w (W1 & W2 & W3). simpl. unfold destroy_one, of_output. rewrite W2.
    destruct (Nat.eqb_spec o (o_handle w)) as [->|Hne]; [by rewrite bool_decide_true|].
    rewrite bool_decide_false; [done|naive_solver].
  - intros p Hp. unfold destroy_one. by destruct (of_output _ _).
Qed.

(** Events that are not an output's. *)
Lemma tracks_other t ps ev : new_screen (on_after [] t) ev = [] -> outputs_do ev ps = ps ->
  on_after (on_after [] t) [ev] = on_after [] t -> (forall o c, seen_by o c ev = false) ->
  tracks t ps -> tracks (t ++ [ev]) (outputs_do ev ps).
Proof.
  intros Hn Ho Hon Hs Ht. eapply (tracks_map t ps ev id); [done|by rewrite map_id| | |done|done].
  - intros h. rewrite on_after_snoc, Hon, map_id. apply (tr_on _ _ Ht).
  - intros p o _. by rewrite Hs.
Qed.

Lemma tracks_new t ps o : tracks t ps -> tracks (t ++ [LkOutputNew o]) (outputs_do (LkOutputNew o) ps).
Proof.
  intros Ht. pose proof Ht as [Hon Ho Hw].
  assert (E : existsb (fun p => bool_decide (op_output p = Some (o_handle o))) ps =
    existsb (Nat.eqb (o_handle o)) (on_after [] t)).
  { apply eq_true_iff_eq. rewrite !existsb_exists. setoid_rewrite Nat.eqb_eq. setoid_rewrite bool_decide_eq_true.
    setoid_rewrite <- list_elem_of_In. rewrite (Hon (o_handle o)). naive_solver. }
  destruct (o_enabled o && negb (existsb (Nat.eqb (o_handle o)) (on_after [] t))) eqn:Eb.
  2: { apply tracks_other; simpl; try done; rewrite ?Eb; try done.
    rewrite E. revert Eb. by destruct (o_enabled o), (existsb (Nat.eqb _) _). }
  assert (Ed : outputs_do (LkOutputNew o) ps = ps ++ [MkPresentation (Some (o_handle o)) (u32 (o_commit_seq o + 1)) false])
    by (simpl; rewrite E; revert Eb; by destruct (o_enabled o), (existsb (Nat.eqb _) _)).
  rewrite Ed. clear E Ed. split.
  - intros h. rewrite on_after_snoc. simpl. rewrite Eb, elem_of_cons, <- Hon. setoid_rewrite elem_of_app.
    setoid_rewrite list_elem_of_singleton. naive_solver.
  - intros s'. rewrite screens_snoc. simpl. rewrite Eb, elem_of_app, list_elem_of_singleton, list_elem_of_fmap.
    intros [(s & -> & Hs)| ->].
    + rewrite screen_covered_snoc. simpl. rewrite orb_false_r. intros Hc. destruct (Ho s Hs Hc) as (p & Hp & Hwt).
      exists p. rewrite elem_of_app. auto.
    + intros _. eexists. rewrite elem_of_app, list_elem_of_singleton. split; [by right|]. by split_and!.
  - intros p Hp Hpr. setoid_rewrite screens_snoc. simpl. rewrite Eb. setoid_rewrite elem_of_app.
    apply elem_of_app in Hp as [Hp| ->%list_elem_of_singleton].
    + destruct (Hw p Hp Hpr) as (s & Hs & Hc & Hwt). exists (s.1, s.2 ++ [LkOutputNew o]). split_and!; [|by rewrite screen_covered_snoc, Hc|done].
      left. apply list_elem_of_fmap. by exists s.
    + exists (o, []). split_and!; [right; by apply list_elem_of_singleton|done|by split_and!].
Qed.

Lemma tracks_step t ps ev : tracks t ps -> tracks (t ++ [ev]) (outputs_do ev ps).
Proof.
  intros Ht. destruct ev; [..|by apply tracks_other]; try by apply tracks_other.
  - by apply tracks_present.
  - by apply tracks_gone.
  - by apply tracks_new.
Qed.

Definition is_locked (m : lock_msg) : bool := match m with MsgLocked => true | MsgFinished => false end.

(** The client is told, in [ms], when [now] holds and [before] does not. *)
Definition tells (before now : bool) (ms : list lock_msg) : Prop :=
  List.filter is_locked ms = if now && negb before then [MsgLocked] else [].

Lemma tells_trans a b c ms ms' : (a = true -> b = true) -> (b = true -> c = true) ->
  tells a b ms -> tells b c ms' -> tells a c (ms ++ ms').
Proof. unfold tells. intros Hab Hbc E E'. rewrite List.filter_app, E, E'. destruct a, b, c; naive_solver. Qed.

Lemma MaybeSendLocked_spec st st' ms : MaybeSendLocked st = (st', ms) ->
  sl_outputs st' = sl_outputs st /\ tells (sl_locked_sent st) (sl_locked_sent st') ms /\
  (sl_locked_sent st = true -> sl_locked_sent st' = true).
Proof.
  unfold MaybeSendLocked, tells. destruct (sl_locked_sent st) eqn:E; [intros [= <- <-]; by rewrite E|].
  destruct (forallb _ _); intros [= <- <-]; simpl; by rewrite ?E.
Qed.

Lemma LockAddOutput_spec st o : sl_locked_sent (LockAddOutput st o) = sl_locked_sent st /\
  (sl_locked_sent st = false -> sl_outputs (LockAddOutput st o) = outputs_do (LkOutputNew o) (sl_outputs st)).
Proof.
  unfold LockAddOutput. split; [by destruct (_ || _ || _)|]. intros ->. simpl.
  by destruct (negb (o_enabled o) || _).
Qed.

(** The list of a new lock. *)
Lemma tracks_outputs outputs T st : sl_locked_sent st = false -> tracks T (sl_outputs st) ->
  sl_locked_sent (foldl LockAddOutput st outputs) = false /\
  tracks (T ++ map LkOutputNew outputs) (sl_outputs (foldl LockAddOutput st outputs)).
Proof.
  revert T st. induction outputs as [|o outputs IH]; intros T st Hs Ht; simpl; [by rewrite app_nil_r|].
  rewrite cons_middle, app_assoc. destruct (LockAddOutput_spec st o) as [E1 E2].
  apply IH; [by rewrite E1|]. rewrite E2 by done. by apply tracks_step.
Qed.

Lemma tracks_nothing : tracks [] [].
Proof. split; simpl; set_solver. Qed.

(** ** Everything that happens while the session is locked *)

Section Machine.
Context {V : Type} `{OutputLayout} `{Views V} `{Scene} `{TouchLayout}.
Context (root_surface surface_client : nat -> nat) (resize_ok : Z -> Z -> bool).
Context (is_lock_surface : nat -> bool).

(** The lock's client was told that the session is locked. *)
Definition told (l : lockscreen V) : bool :=
  match session_lock_ l with Some st => sl_locked_sent st | None => false end.

(** Window operations among the events are those of the compositor. *)
Definition lawful_event (ev : touch_ev) (w : compositor) : Prop :=
  match ev with EvWindows f => wm_op root_surface resize_ok w (f w) | _ => True end.

Definition lk_do (l : lockscreen V) (ev : lk_ev) : lockscreen V :=
  match ev with
  | LkInput ev => on_desk (fun d => touch_do root_surface surface_client resize_ok d ev) l
  | LkCursor x y => on_wm (fun w => w <{ cursor_x := x }> <{ cursor_y := y }>) l
  | LkLock outputs devices ok => BeginSessionLock root_surface surface_client resize_ok outputs devices ok l
  | LkLockGone => OnLockDestroy surface_client l
  | LkPresent o p seq => OnPresent o p seq l
  | LkOutputGone o => OnOutputDestroy o l
  | LkOutputNew o => AddOutput o l
  | LkFocus f m => FocusSessionLockSurface f m l
  | LkSurfaceGone f => OnSurfaceDestroy f l
  | LkUnlock => unlock_and_destroy surface_client l
  end.

(** Every event but an accepted unlock: window operations are the compositor's, the
    surfaces given the focus are the lock's, and unlock requests come before the client
    was told. *)
Definition lk_ok (l : lockscreen V) (ev : lk_ev) : Prop :=
  match ev with
  | LkInput ev => lawful_event ev (wm (desk l))
  | LkFocus f _ => is_lock_surface f = true
  | LkUnlock => told l = false
  | _ => True
  end.

Fixpoint lk_allowed (l : lockscreen V) (t : list lk_ev) : Prop :=
  match t with [] => True | ev :: t => lk_ok l ev /\ lk_allowed (lk_do l ev) t end.

Definition lock_sound (st : SessionLockState) : Prop :=
  sl_unlocked st = false /\ sl_locked_sent st = forallb op_presented (sl_outputs st).

Record locked_ok (l : lockscreen V) : Prop := {
  lo_locked : SessionLocked (wm (desk l)) = true;
  lo_blank : session_lock_blank_ l = true;
  lo_tree : lock_tree_enabled l = true;
  lo_focus : forall f, focused_surface (wm (desk l)) = Some f -> is_lock_surface f = true;
  lo_lock : forall st, session_lock_ l = Some st -> lock_sound st }.

(** *** The lock's own bookkeeping *)

Lemma sound_send l st msgs : sl_unlocked l = false ->
  (sl_locked_sent l = true -> forallb op_presented (sl_outputs l) = true) ->
  MaybeSendLocked l = (st, msgs) -> lock_sound st.
Proof.
  unfold MaybeSendLocked, lock_sound. intros Hu Hs.
  destruct (sl_locked_sent l) eqn:El; simpl; [intros [= <- <-]; rewrite El, Hs; done|].
  destruct (forallb _ _) eqn:Ep; simpl; intros [= <- <-]; simpl; by rewrite ?Ep, ?El.
Qed.

Lemma sound_add st o : lock_sound st -> lock_sound (LockAddOutput st o).
Proof.
  intros [Hu Hs]. unfold LockAddOutput. destruct (_ || _) eqn:E; [done|].
  apply orb_false_iff in E as [[El _]%orb_false_iff _]. split; [done|]. simpl.
  by rewrite El, forallb_app, andb_false_r.
Qed.

Lemma sound_signal hears f (l : lockscreen V) st :
  (forall p, op_presented p = true -> op_presented (f p) = true) ->
  (forall st, session_lock_ l = Some st -> lock_sound st) ->
  session_lock_ (on_output_signal hears f l) = Some st -> lock_sound st.
Proof.
  intros Hf Hl. unfold on_output_signal. destruct (session_lock_ l) as [s0|] eqn:El; [|congruence].
  destruct (Hl s0 eq_refl) as [Hu Hs]. destruct (existsb _ _); [|rewrite El; by intros [= <-]].
  destruct (MaybeSendLocked _) as [s1 msgs] eqn:Em. simpl. intros [= <-].
  eapply sound_send; [| |exact Em]; [done|]. simpl. rewrite Hs, !forallb_forall.
  intros Hp p (q & <- & Hq)%in_map_iff. by apply Hf, Hp.
Qed.

Lemma NewLockState_sound outputs st msgs : NewLockState outputs = (st, msgs) -> lock_sound st.
Proof.
  unfold NewLockState. assert (Hk : forall s, sl_unlocked s = false -> sl_locked_sent s = false ->
    sl_unlocked (foldl LockAddOutput s outputs) = false /\ sl_locked_sent (foldl LockAddOutput s outputs) = false).
  { induction outputs as [|o outputs IH]; intros s Hu Hs; simpl; [done|].
    apply IH; unfold LockAddOutput; by destruct (_ || _). }
  destruct (Hk (MkLock false false []) eq_refl eq_refl) as [Hu Hs].
  apply sound_send; [done|congruence].
Qed.

(** *** Steps *)

Lemma ok_desk f (l : lockscreen V) : locked_ok l -> dlock (desk l) (f (desk l)) -> locked_ok (on_desk f l).
Proof.
  intros [Hl Hb Ht Hf Hs] Hk. destruct (Hk Hl) as [Hl' Hf']. split; try done. simpl. by rewrite Hf'.
Qed.

Lemma ok_same (l l' : lockscreen V) : locked_ok l -> desk l' = desk l ->
  session_lock_blank_ l' = true -> lock_tree_enabled l' = true ->
  (forall st, session_lock_ l' = Some st -> lock_sound st) -> locked_ok l'.
Proof. intros [Hl Hb Ht Hf Hs] Ed Hb' Ht' Hs'. split; rewrite ?Ed; done. Qed.

Lemma ok_clear (l : lockscreen V) : locked_ok l -> locked_ok (clear_keyboard_focus l).
Proof. intros [Hl Hb Ht Hf Hs]. by split. Qed.

Lemma ok_signal hears f (l : lockscreen V) : locked_ok l ->
  (forall p, op_presented p = true -> op_presented (f p) = true) -> locked_ok (on_output_signal hears f l).
Proof.
  intros Hok Hf. eapply ok_same; [exact Hok|..];
    try (unfold on_output_signal; destruct (session_lock_ l);
      [destruct (existsb _ _); [destruct (MaybeSendLocked _)|]|]; try done; apply Hok).
  intros st. apply sound_signal; [exact Hf|apply Hok].
Qed.

Context `{!LawfulViews root_surface resize_ok}.
#[local] Set Default Proof Using "Type*".

Lemma dlock_input ev (d : desktop V) : lawful_event ev (wm d) ->
  dlock d (touch_do root_surface surface_client resize_ok d ev).
Proof.
  destruct ev; simpl; intros Hev.
  - apply dlock_OnTouchDown; apply _.
  - apply dlock_OnTouchUp; apply _.
  - eapply dlock_OnTouchMotion; apply _.
  - apply dlock_OnTouchCancel; apply _.
  - eapply dlock_OnTouchFrame; apply _.
  - apply dlock_CancelTouchDevice; apply _.
  - apply (dlock_trans _ (upd_seat (touch_point_handle_surface_destroy surface) d)); [done|].
    eapply (hr_refocus surface_client resize_ok dlock). intros s. apply seat_surface_gone.
  - done.
  - eapply dlock_motion; apply _.
  - apply dlock_button; apply _.
  - eapply dlock_wm; [apply _|]. by eapply lock_wm_op.
Qed.

(** What locking does first: it keeps the windows locked and the focus. *)
Lemma dlock_begin devices (d : desktop V) :
  dlock d (d |> run surface_client ResetCursorMode
             |> (fun d => foldl (fun d t => CancelTouchDevice root_surface surface_client resize_ok t d) d devices)
             |> clear_pointer_focus surface_client).
Proof.
  eapply dlock_trans; [|eapply dlock_clear; apply _].
  eapply dlock_trans; [eapply dlock_wm; [apply _|apply lock_ResetCursorMode]|].
  eapply (hr_foldl surface_client resize_ok dlock). intros. apply dlock_CancelTouchDevice; apply _.
Qed.

(** Locking, when the blank is there or can be made. *)
Lemma ok_begin outputs devices ok (l : lockscreen V) :
  session_lock_ l = None -> protocol_manager_ (wm (desk l)) = true -> session_lock_blank_ l || ok = true ->
  locked_ok (BeginSessionLock root_surface surface_client resize_ok outputs devices ok l).
Proof.
  intros Hn Hp Hb. unfold BeginSessionLock. rewrite Hn.
  set (d0 := (desk l) <{ wm ::= fun w => w <{ session_locked := true }> }>).
  destruct (dlock_begin devices d0) as [Hl _]; [unfold SessionLocked; simpl; by rewrite Hp|].
  simpl. destruct (negb _ && _) eqn:Eb; [destruct (session_lock_blank_ l), ok; done|].
  destruct (NewLockState outputs) as [st msgs] eqn:En.
  split; [exact Hl|done|done|done|]. simpl. intros st' [= <-]. by eapply NewLockState_sound.
Qed.

Lemma ok_finish (l : lockscreen V) : locked_ok l -> locked_ok (FinishSessionLock surface_client false l).
Proof.
  intros Hok. pose proof (lo_locked _ Hok) as [Hp _]%andb_true_iff. unfold FinishSessionLock.
  apply ok_clear, ok_desk; [|eapply dlock_clear; apply _].
  split; simpl; [unfold SessionLocked; simpl; by rewrite Hp|apply Hok|done|apply Hok|done].
Qed.

Lemma ok_step (l : lockscreen V) ev : lk_ok l ev -> locked_ok l -> locked_ok (lk_do l ev).
Proof.
  intros Hev Hok. destruct ev; simpl in *.
  - apply ok_desk; [done|by apply dlock_input].
  - by apply ok_desk.
  - destruct (session_lock_ l) as [st|] eqn:El.
    + unfold BeginSessionLock. rewrite El. by apply (ok_same l); try apply Hok.
    + pose proof (lo_locked _ Hok) as [Hp _]%andb_true_iff. apply ok_begin; [done|done|].
      by rewrite (lo_blank _ Hok).
  - unfold OnLockDestroy. destruct (session_lock_ l) as [st|] eqn:El; [|done].
    destruct (lo_lock _ Hok _ El) as [-> _]. by apply ok_finish.
  - apply ok_signal; [done|]. intros q Hq. unfold present_one. by destruct (shows _ _ _ _).
  - apply ok_signal; [done|]. intros q Hq. unfold destroy_one. by destruct (of_output _ _).
  - apply (ok_same l); try apply Hok; [done|]. simpl. intros st. destruct (session_lock_ l) as [s0|] eqn:El; [|done].
    simpl. intros [= <-]. apply sound_add. by apply (lo_lock _ Hok).
  - unfold FocusSessionLockSurface. destruct (_ || _); [done|]. unfold on_wm, keyboard_enter, when.
    destruct Hok as [Hl Hb Ht Hf Hs]. destruct (has_keyboard (wm (desk l))) eqn:Ek; split; simpl; rewrite ?Ek; try done.
    by intros g [= <-].
  - unfold OnSurfaceDestroy. destruct (bool_decide _); [by apply ok_clear|done].
  - unfold unlock_and_destroy, told in *. destruct (session_lock_ l) as [st|]; [|done]. by rewrite Hev.
Qed.

Lemma ok_steps t (l : lockscreen V) : lk_allowed l t -> locked_ok l -> locked_ok (foldl lk_do l t).
Proof. revert l. induction t as [|ev t IH]; intros l; [done|]. intros [Hev Ht] Hok. apply IH; [done|]. by apply ok_step. Qed.

(** *** When the client is told *)

(** One event, for a lock that is there before and after. *)
Definition lock_goes_on (l l' : lockscreen V) (ev : lk_ev) (st : SessionLockState) : Prop :=
  exists st' ms, session_lock_ l' = Some st' /\ lock_msgs l' = lock_msgs l ++ ms /\
    tells (sl_locked_sent st) (sl_locked_sent st') ms /\ (sl_locked_sent st = true -> sl_locked_sent st' = true) /\
    (sl_locked_sent st = false -> sl_outputs st' = outputs_do ev (sl_outputs st)).

Lemma goes_on_aside (l l' : lockscreen V) ev st : session_lock_ l = Some st ->
  session_lock_ l' = session_lock_ l -> (exists ms, lock_msgs l' = lock_msgs l ++ ms /\ List.filter is_locked ms = []) ->
  outputs_do ev (sl_outputs st) = sl_outputs st -> lock_goes_on l l' ev st.
Proof.
  intros El E (ms & Em & Hm) Ho. exists st, ms. rewrite E, El, Em, Ho. split_and!; try done.
  unfold tells. rewrite Hm. by destruct (sl_locked_sent st).
Qed.

Lemma goes_on_signal hears f (l : lockscreen V) ev st : session_lock_ l = Some st ->
  outputs_do ev (sl_outputs st) = map f (sl_outputs st) -> (forall p, hears p = false -> f p = p) ->
  lock_goes_on l (on_output_signal hears f l) ev st.
Proof.
  intros El Ho Hf. unfold on_output_signal. rewrite El. destruct (existsb hears (sl_outputs st)) eqn:Eh.
  - destruct (MaybeSendLocked _) as [st' ms] eqn:Em. apply MaybeSendLocked_spec in Em as (E1 & E2 & E3).
    exists st', ms. split_and!; try done. intros _. by rewrite E1, Ho.
  - apply goes_on_aside; [done|done|exists []; by rewrite app_nil_r|]. rewrite Ho.
    rewrite <- (map_id (sl_outputs st)) at 2. apply map_ext_in. intros p Hp. apply Hf.
    destruct (hears p) eqn:E; [|done]. rewrite <- Eh. symmetry. apply existsb_exists. by exists p.
Qed.

Lemma lk_do_goes_on (l : lockscreen V) ev st : session_lock_ l = Some st -> ev <> LkLockGone -> lk_ok l ev ->
  lock_goes_on l (lk_do l ev) ev st.
Proof.
  intros El Hg Hok. assert (Hnil : exists ms : list lock_msg, lock_msgs l = lock_msgs l ++ ms /\ List.filter is_locked ms = [])
    by (exists []; by rewrite app_nil_r).
  destruct ev; simpl in *; try done.
  - by apply goes_on_aside.
  - by apply goes_on_aside.
  - apply goes_on_aside; try done; unfold BeginSessionLock; rewrite El; [done|]. by exists [MsgFinished].
  - apply goes_on_signal; [done|done|]. intros p E. unfold present_one. by rewrite E.
  - apply goes_on_signal; [done|done|]. intros p E. unfold destroy_one. by rewrite E.
  - destruct (LockAddOutput_spec st o) as [E1 E2]. exists (LockAddOutput st o), []. simpl.
    rewrite El, app_nil_r, E1. split_and!; try done. unfold tells. by destruct (sl_locked_sent st).
  - apply goes_on_aside; try done; unfold FocusSessionLockSurface; by destruct (_ || _).
  - apply goes_on_aside; try done; unfold OnSurfaceDestroy; by destruct (bool_decide _).
  - assert (E : unlock_and_destroy surface_client l = l).
    { unfold unlock_and_destroy, told in *. rewrite El in *. by rewrite Hok. }
    rewrite E. by apply goes_on_aside.
Qed.

(** The lock began at [T], and its list is that of the screens turned on since. *)
Definition watching (T : list lk_ev) (l : lockscreen V) (st : SessionLockState) : Prop :=
  session_lock_ l = Some st /\ (sl_locked_sent st = false -> tracks T (sl_outputs st)).

Lemma watching_covered T (l : lockscreen V) st : watching T l st -> locked_ok l -> sl_locked_sent st = false ->
  forallb screen_covered (screens [] T) = false.
Proof.
  intros [El Ht] Hok Hs. destruct (lo_lock _ Hok st El) as [_ E]. by rewrite <- (tracks_covered _ _ (Ht Hs)), <- E.
Qed.

Lemma told_after t : forall T (l : lockscreen V) st, watching T l st -> locked_ok l -> lk_allowed l t -> LkLockGone ∉ t ->
  exists st' ms, session_lock_ (foldl lk_do l t) = Some st' /\ lock_msgs (foldl lk_do l t) = lock_msgs l ++ ms /\
    tells (sl_locked_sent st) (sl_locked_sent st') ms /\ (sl_locked_sent st = true -> sl_locked_sent st' = true) /\
    (sl_locked_sent st = false -> (sl_locked_sent st' = true <->
       exists t1 t2, t = t1 ++ t2 /\ forallb screen_covered (screens [] (T ++ t1)) = true)).
Proof.
  induction t as [|ev t IH]; intros T l st Hw Hok Ha Hg; simpl.
  - exists st, []. rewrite app_nil_r. split_and!; try apply Hw; try done.
    + unfold tells. by destruct (sl_locked_sent st).
    + intros Hs. rewrite Hs. split; [done|]. intros (t1 & t2 & [-> ->]%symmetry%app_nil & Hc).
      rewrite app_nil_r in Hc. by rewrite (watching_covered T l st Hw Hok Hs) in Hc.
  - destruct Ha as [Hev Ha]. apply not_elem_of_cons in Hg as [Hg1 Hg2].
    destruct (lk_do_goes_on l ev st) as (st1 & ms1 & E1 & E2 & E3 & E4 & E5); [apply Hw|done|done|].
    pose proof (ok_step l ev Hev Hok) as Hok1.
    assert (Hw1 : watching (T ++ [ev]) (lk_do l ev) st1).
    { split; [done|]. intros Hs1. assert (Hs : sl_locked_sent st = false) by (destruct (sl_locked_sent st); [by rewrite E4 in Hs1|done]).
      rewrite (E5 Hs). apply tracks_step. by apply Hw. }
    destruct (IH _ _ _ Hw1 Hok1 Ha Hg2) as (st2 & ms2 & F1 & F2 & F3 & F4 & F5).
    exists st2, (ms1 ++ ms2). rewrite F1, F2, E2, <- app_assoc. split_and!; try done; [by eapply tells_trans|auto|].
    intros Hs. assert (Hcov : sl_locked_sent st1 = forallb screen_covered (screens [] (T ++ [ev]))).
    { destruct (lo_lock _ Hok1 st1 E1) as [_ ->]. apply tracks_covered. rewrite (E5 Hs). apply tracks_step. by apply Hw. }
    destruct (sl_locked_sent st1) eqn:Hs1.
    + split; [|auto]. intros _. exists [ev], t. done.
    + rewrite F5 by done. split.
      * intros (t1 & t2 & -> & Hc). exists (ev :: t1), t2. by rewrite <- app_assoc in Hc.
      * intros ([|e t1] & t2 & E & Hc).
        { rewrite app_nil_r in Hc. by rewrite (watching_covered T l st Hw Hok Hs) in Hc. }
        injection E as <- ->. exists t1, t2. by rewrite <- app_assoc.
Qed.

(** From a lock request on, as long as the lock is there. *)
Lemma told_when_covered outputs devices ok (l : lockscreen V) t :
  let l0 := BeginSessionLock root_surface surface_client resize_ok outputs devices ok l in
  session_lock_ l = None -> protocol_manager_ (wm (desk l)) = true -> session_lock_blank_ l || ok = true ->
  lk_allowed l0 t -> LkLockGone ∉ t ->
  exists ms, lock_msgs (foldl lk_do l0 t) = lock_msgs l ++ ms /\ tells false (told (foldl lk_do l0 t)) ms /\
    (told (foldl lk_do l0 t) = true <-> exists t1 t2, t = t1 ++ t2 /\ all_covered outputs t1 = true).
Proof.
  intros l0 Hn Hp Hb Ha Hg. pose proof (ok_begin outputs devices ok l Hn Hp Hb) as Hok. fold l0 in Hok.
  destruct (tracks_outputs outputs [] (MkLock false false [])) as [Hs Ht]; [done|apply tracks_nothing|].
  destruct (NewLockState outputs) as [st ms] eqn:En.
  assert (E0 : session_lock_ l0 = Some st /\ lock_msgs l0 = lock_msgs l ++ ms).
  { subst l0. unfold BeginSessionLock. rewrite Hn. simpl.
    destruct (negb (session_lock_blank_ l) && negb ok) eqn:E; [destruct (session_lock_blank_ l), ok; done|]. by rewrite En. }
  destruct E0 as [E1 E2]. unfold NewLockState in En. apply MaybeSendLocked_spec in En as (F1 & F2 & F3).
  rewrite Hs in F2. assert (Hw : watching (map LkOutputNew outputs) l0 st) by (split; [done|by rewrite F1]).
  destruct (told_after t _ _ _ Hw Hok Ha Hg) as (st' & ms' & G1 & G2 & G3 & G4 & G5).
  unfold told. rewrite G1. exists (ms ++ ms'). rewrite G2, E2, <- app_assoc. split_and!; [done| |].
  - eapply tells_trans; [| |exact F2|exact G3]; done.
  - unfold all_covered. destruct (sl_locked_sent st) eqn:Es; [|by apply G5].
    split; [|auto]. intros _. exists [], t. split; [done|]. rewrite app_nil_r.
    destruct (lo_lock _ Hok st E1) as [_ E]. rewrite Es in E. rewrite <- (tracks_covered _ (sl_outputs st)); [done|].
    by rewrite F1.
Qed.

Lemma unlock_accepted (l : lockscreen V) : session_locked (wm (desk l)) = true -> told l = true ->
  lock_tree_enabled (unlock_and_destroy surface_client l) = false /\
  session_lock_ (unlock_and_destroy surface_client l) = None.
Proof.
  unfold unlock_and_destroy, told, UnlockSession. destruct (session_lock_ l) as [st|]; [|done].
  intros Hl Ht. rewrite Ht. simpl. rewrite Hl. done.
Qed.

End Machine.


(** ** A demonstration *)

#[local] Existing Instance demo_layout.

#[export] Instance no_views_lawful root_surface resize_ok :
  LawfulViews (V := unit) root_surface resize_ok.
Proof. split. intros v w vw []; apply rtc_refl. Qed.

#[local] Abbreviation client := (fun f => f / 10)%nat.
#[local] Abbreviation fits := (fun _ _ : Z => true).

Definition demo_lockscreen : lockscreen unit :=
  LockScreen (demo_desktop (SetSsdEnabled fits true 1 true
    (demo_windows <{ protocol_manager_ := true }>))) None false false [].

Definition demo_locked_screen : lockscreen unit :=
  BeginSessionLock id client fits [MkWlrOutput 1 true 7] [1%nat] true demo_lockscreen.

(** The lock's client dies before the screen showed the lock. *)
Definition demo_abandoned : lockscreen unit := demo_locked_screen |> OnLockDestroy client.

(** Another one locks; its surface 99 maps, a window asks to be activated, a frame
    committed before the lock is shown, and one committed after it. *)
Definition demo_events : list lk_ev :=
  [LkFocus 99 true; LkInput (EvWindows (RequestActivate id (Some 12%nat))); LkPresent 1 true 7; LkPresent 1 true 8].

Definition demo_relock (t : list lk_ev) : lockscreen unit :=
  foldl (lk_do id client fits) (BeginSessionLock id client fits [MkWlrOutput 1 true 7] [1%nat] false demo_abandoned) t.


(** The left button goes down on a close button in a title bar; before it is
    released the session is locked. The lock swallows nothing of that release, but
    suppress_button_release_ stays set: after the unlock a whole click on the window
    reaches its client as a press without a release, and the seat holds the button
    (272) for good. *)
Definition press_then_lock : lockscreen unit :=
  demo_lockscreen
    |> on_desk (fun d => move_pointer client d (0, 1340%Q, 230%Q))
    |> on_desk (OnCursorButton id client fits true 5 BTN_LEFT true)
    |> BeginSessionLock id client fits [] [] true
    |> on_desk (OnCursorButton id client fits true 9 BTN_LEFT false)
    |> unlock_and_destroy client
    |> on_desk (fun d => move_pointer client d (20, 700%Q, 340%Q))
    |> on_desk (OnCursorButton id client fits true 21 BTN_LEFT true)
    |> on_desk (OnCursorButton id client fits true 22 BTN_LEFT false).

Example lock_swallows_release : map button (held (desk press_then_lock)) = [BTN_LEFT].
Proof. vm_compute. reflexivity. Qed.
