(* ===== verification/InputMethod.v ===== *)
(** * Text inputs and the input method

    Models how typed text finds its way: InputMethodRelay
    (src/src/protocol/input_method/input_method_relay.cc), the text inputs it serves
    (src/src/protocol/text_input: TextInput, TextInputV1, TextInputV2, TextInputV3),
    input method popups, and the text-input-v3 objects of wlroots
    (src/libs/wlroots/types/wlr_text_input_v3.c). Text inputs are identified by
    numbers, so that the relay's pointers to them can dangle; assertions of wlroots
    are recorded when they fail. *)

From S2P Require Import Prelude Box.

(** ** Messages *)

Inductive ti_msg :=
| TiEnter (serial : option Z) (surface : nat)
| TiLeave (serial : option Z) (surface : option nat)
| TiPreeditCursor (index : Z)
| TiPreeditStyling (index length : Z)
| TiPreeditString (text : str)
| TiPreedit (text : str) (cursor_begin cursor_end : Z)
| TiCommitString (text : str)
| TiDeleteSurroundingText (a b : Z)
| TiDone (serial : Z).

Inductive im_msg :=
| ImActivate
| ImDeactivate
| ImSurroundingText (text : str) (cursor anchor : Z)
| ImTextChangeCause (cause : Z)
| ImContentType (hint purpose : Z)
| ImDone
| ImUnavailable (input_method : nat)
| ImTextInputRectangle (popup : nat) (rectangle : wlr_box).

(** ** Text inputs *)

(** TextInput::State. *)
Record State := MkState {
  surrounding_text : str; surrounding_cursor : Z; surrounding_anchor : Z;
  content_hint : Z; content_purpose : Z; text_change_cause : Z; cursor_rectangle : wlr_box;
  has_surrounding_text : bool; has_content_type : bool; has_cursor_rectangle : bool }.

Definition no_box : wlr_box := Box 0 0 0 0.
Definition no_state : State := MkState [] 0 0 0 0 0 no_box false false false.

(** TextInputV1 and TextInputV2 have the same members; [lg_v2] tells them apart. *)
Record legacy := Legacy {
  lg_v2 : bool;
  resource_ : bool; seat_ : option nat; surface_ : option nat; enabled_ : bool; serial_ : Z;
  surrounding_text_ : str; surrounding_cursor_ : Z; surrounding_anchor_ : Z;
  content_hint_ : Z; content_purpose_ : Z; cursor_rectangle_ : wlr_box;
  surrounding_pending_ : bool; content_type_pending_ : bool; cursor_rectangle_pending_ : bool }.

#[export] Instance legacy_fields : Fields legacy := {| rebuild := fun l =>
  Legacy (lg_v2 l) (resource_ l) (seat_ l) (surface_ l) (enabled_ l) (serial_ l)
    (surrounding_text_ l) (surrounding_cursor_ l) (surrounding_anchor_ l)
    (content_hint_ l) (content_purpose_ l) (cursor_rectangle_ l)
    (surrounding_pending_ l) (content_type_pending_ l) (cursor_rectangle_pending_ l) |}.

Definition WLR_TEXT_INPUT_V3_FEATURE_SURROUNDING_TEXT : Z := 1.
Definition WLR_TEXT_INPUT_V3_FEATURE_CONTENT_TYPE : Z := 2.
Definition WLR_TEXT_INPUT_V3_FEATURE_CURSOR_RECTANGLE : Z := 4.

Record wlr_text_input_v3_state := V3State {
  v3_text : option str; v3_cursor : Z; v3_anchor : Z; v3_cause : Z; v3_hint : Z; v3_purpose : Z;
  v3_rectangle : wlr_box; v3_features : Z }.

#[export] Instance v3_state_fields : Fields wlr_text_input_v3_state := {| rebuild := fun s =>
  V3State (v3_text s) (v3_cursor s) (v3_anchor s) (v3_cause s) (v3_hint s) (v3_purpose s)
    (v3_rectangle s) (v3_features s) |}.

Definition v3_defaults : wlr_text_input_v3_state := V3State None 0 0 0 0 0 no_box 0.

Record wlr_text_input_v3 := MkV3 {
  v3_seat : nat; v3_focused_surface : option nat;
  pending : wlr_text_input_v3_state; current : wlr_text_input_v3_state;
  pending_enabled : bool; current_enabled : bool; current_serial : Z; active_features : Z }.

#[export] Instance v3_fields : Fields wlr_text_input_v3 := {| rebuild := fun h =>
  MkV3 (v3_seat h) (v3_focused_surface h) (pending h) (current h) (pending_enabled h)
    (current_enabled h) (current_serial h) (active_features h) |}.

(** What a text input is made of; TextInputV3 loses its handle when the object is
    destroyed. *)
Inductive endpoint := OldInput (l : legacy) | InputV3 (handle_ : option wlr_text_input_v3).

Record TextInput := MkTextInput {
  ti_id : nat; ti_client : nat; ti_endpoint : endpoint; relay_focused_surface_ : option nat }.

#[export] Instance text_input_fields : Fields TextInput := {| rebuild := fun t =>
  MkTextInput (ti_id t) (ti_client t) (ti_endpoint t) (relay_focused_surface_ t) |}.

Section Inputs.
(** The client a surface belongs to. *)
Variable surface_client : nat -> nat.

Definition Client (t : TextInput) : option nat :=
  match ti_endpoint t with
  | OldInput l => if resource_ l then Some (ti_client t) else None
  | InputV3 (Some _) => Some (ti_client t)
  | InputV3 None => None
  end.

Definition Seat (t : TextInput) : option nat :=
  match ti_endpoint t with
  | OldInput l => seat_ l
  | InputV3 h => v3_seat <$> h
  end.

Definition MatchesSurface (surface : option nat) (t : TextInput) : bool :=
  match ti_endpoint t with
  | OldInput l => bool_decide (surface_ l <> None) && bool_decide (surface_ l = surface)
  | InputV3 _ =>
      match surface with
      | Some f => bool_decide (Client t <> None) && bool_decide (Client t = Some (surface_client f))
      | None => false
      end
  end.

Definition Enabled (t : TextInput) : bool :=
  match ti_endpoint t with
  | OldInput l => enabled_ l
  | InputV3 h => match h with Some h => current_enabled h | None => false end
  end.

Definition CurrentState (t : TextInput) : State :=
  match ti_endpoint t with
  | OldInput l =>
      MkState (surrounding_text_ l) (surrounding_cursor_ l) (surrounding_anchor_ l)
        (content_hint_ l) (content_purpose_ l) 0 (cursor_rectangle_ l)
        (surrounding_pending_ l) (content_type_pending_ l) (cursor_rectangle_pending_ l)
  | InputV3 None => no_state
  | InputV3 (Some h) =>
      let s := current h in
      MkState (default [] (v3_text s)) (v3_cursor s) (v3_anchor s) (v3_hint s) (v3_purpose s)
        (v3_cause s) (v3_rectangle s)
        (has_flag (active_features h) WLR_TEXT_INPUT_V3_FEATURE_SURROUNDING_TEXT)
        (has_flag (active_features h) WLR_TEXT_INPUT_V3_FEATURE_CONTENT_TYPE)
        (has_flag (v3_features s) WLR_TEXT_INPUT_V3_FEATURE_CURSOR_RECTANGLE)
  end.

(** What sending does: the text input after, the messages to its client, and whether
    the assertions of wlroots held. *)
Definition sent : Type := TextInput * list ti_msg * bool.

Definition wlr_text_input_v3_send_enter (t : TextInput) (h : wlr_text_input_v3) (surface : nat) : sent :=
  (t <{ ti_endpoint := InputV3 (Some (h <{ v3_focused_surface := Some surface }>)) }>,
   [TiEnter None surface],
   bool_decide (ti_client t = surface_client surface) && bool_decide (v3_focused_surface h = None)).

Definition SendEnter (surface : option nat) (t : TextInput) : sent :=
  match ti_endpoint t, surface with
  | InputV3 (Some h), Some f => wlr_text_input_v3_send_enter t h f
  | OldInput l, Some f =>
      if negb (resource_ l) || (negb (lg_v2 l) && negb (bool_decide (surface_ l = Some f)))
      then (t, [], true)
      else (t, [TiEnter (if lg_v2 l then Some (serial_ l) else None) f], true)
  | _, _ => (t, [], true)
  end.

Definition wlr_text_input_v3_send_leave (t : TextInput) (h : wlr_text_input_v3) : sent :=
  (t <{ ti_endpoint := InputV3 (Some (h <{ v3_focused_surface := None }>)) }>,
   [TiLeave None (v3_focused_surface h)], bool_decide (v3_focused_surface h <> None)).

Definition SendLeave (t : TextInput) : sent :=
  match ti_endpoint t with
  | InputV3 (Some h) =>
      if bool_decide (v3_focused_surface h <> None) then wlr_text_input_v3_send_leave t h else (t, [], true)
  | InputV3 None => (t, [], true)
  | OldInput l =>
      if negb (resource_ l) || bool_decide (surface_ l = None) then (t, [], true)
      else (t <{ ti_endpoint := OldInput (l <{ surface_ := None }>) }>,
            [if lg_v2 l then TiLeave (Some (serial_ l)) (surface_ l) else TiLeave None None], true)
  end.

Definition SendPreedit (text : str) (cursor_begin cursor_end : Z) (t : TextInput) : list ti_msg :=
  match ti_endpoint t with
  | InputV3 (Some _) => [TiPreedit text cursor_begin cursor_end]
  | InputV3 None => []
  | OldInput l =>
      if negb (resource_ l) then []
      else [TiPreeditCursor cursor_begin; TiPreeditStyling 0 (u32 (Z.of_nat (length text)));
            TiPreeditString text]
  end.

Definition SendCommit (text : str) (t : TextInput) : list ti_msg :=
  match ti_endpoint t with
  | InputV3 (Some _) => [TiCommitString text]
  | InputV3 None => []
  | OldInput l => if negb (resource_ l) then [] else [TiCommitString text]
  end.

Definition SendDelete (before_length after_length : Z) (t : TextInput) : list ti_msg :=
  match ti_endpoint t with
  | InputV3 (Some _) => [TiDeleteSurroundingText before_length after_length]
  | InputV3 None => []
  | OldInput l =>
      if negb (resource_ l) then []
      else
        let size := u32 (Z.of_nat (length (surrounding_text_ l))) in
        let index := if before_length <? size then size - before_length else 0 in
        [TiDeleteSurroundingText index (u32 (before_length + after_length))]
  end.

Definition SendDone (t : TextInput) : list ti_msg :=
  match ti_endpoint t with
  | InputV3 (Some h) => [TiDone (current_serial h)]
  | _ => []
  end.

End Inputs.

(** New objects. *)
Definition new_legacy (v2 : bool) (seat : option nat) : legacy :=
  Legacy v2 true seat None false 0 [] 0 0 0 0 no_box false false false.
Definition new_v1 (id client : nat) : TextInput := MkTextInput id client (OldInput (new_legacy false None)) None.
Definition new_v2 (id client seat : nat) : TextInput :=
  MkTextInput id client (OldInput (new_legacy true (Some seat))) None.
Definition new_v3 (id client seat : nat) : TextInput :=
  MkTextInput id client (InputV3 (Some (MkV3 seat None v3_defaults v3_defaults false false 0 0))) None.

(** ** The relay *)

(** wlr_input_method_v2: its client and the state it last committed. *)
Record input_method := MkInputMethod {
  im_client : nat; im_preedit : option (str * Z * Z); im_commit_text : option str; im_delete : Z * Z;
  keyboard_grab : bool }.

Record InputMethodPopup := MkPopup {
  pop_id : nat; pop_mapped : bool; pop_width : Z; pop_height : Z; pop_position : Z * Z }.

#[export] Instance popup_fields : Fields InputMethodPopup := {| rebuild := fun p =>
  MkPopup (pop_id p) (pop_mapped p) (pop_width p) (pop_height p) (pop_position p) |}.

Record InputMethodRelay := Relay {
  relay_seat : nat;
  input_method_ : option input_method;
  focused_surface_ : option nat;
  active_text_input_ : option nat;
  pending_text_input_ : option nat;
  text_inputs_ : list TextInput;
  popups_ : list InputMethodPopup;
  (* where the scene shows a surface, and the box of the output at a point *)
  surface_position : nat -> option (Z * Z);
  output_box_at : Z -> Z -> wlr_box;
  (* what text inputs, and the present input method, were told *)
  ti_log : list (nat * ti_msg);
  im_log : list im_msg;
  asserts_hold : bool }.

#[export] Instance relay_fields : Fields InputMethodRelay := {| rebuild := fun r =>
  Relay (relay_seat r) (input_method_ r) (focused_surface_ r) (active_text_input_ r)
    (pending_text_input_ r) (text_inputs_ r) (popups_ r) (surface_position r) (output_box_at r)
    (ti_log r) (im_log r) (asserts_hold r) |}.

Definition find_ti (id : nat) (r : InputMethodRelay) : option TextInput :=
  List.find (fun t => (ti_id t =? id)%nat) (text_inputs_ r).

Definition upd_ti (id : nat) (f : TextInput -> TextInput) (r : InputMethodRelay) : InputMethodRelay :=
  r <{ text_inputs_ ::= map (fun t => if (ti_id t =? id)%nat then f t else t) }>.

(** A statement on the object a pointer leads to. *)
Definition with_ti (id : nat) (f : TextInput -> InputMethodRelay -> InputMethodRelay)
    (r : InputMethodRelay) : InputMethodRelay :=
  match find_ti id r with Some t => f t r | None => r end.

Definition say_ti (id : nat) (ms : list ti_msg) (r : InputMethodRelay) : InputMethodRelay :=
  r <{ ti_log ::= fun l => l ++ map (pair id) ms }>.
Definition say_im (ms : list im_msg) (r : InputMethodRelay) : InputMethodRelay :=
  r <{ im_log ::= fun l => l ++ ms }>.

Definition each_ti (f : nat -> InputMethodRelay -> InputMethodRelay) (r : InputMethodRelay) : InputMethodRelay :=
  foldl (fun r id => f id r) r (map ti_id (text_inputs_ r)).

(** Calling SendEnter or SendLeave. *)
Definition perform (id : nat) (f : TextInput -> sent) (r : InputMethodRelay) : InputMethodRelay :=
  with_ti id (fun t r =>
    let '(t', ms, ok) := f t in
    r |> upd_ti id (fun _ => t') |> say_ti id ms
      |> (fun r => r <{ asserts_hold ::= andb ok }>)) r.

Section Relay.
Variable surface_client : nat -> nat.

(** *** Popups *)

(** Where a popup of the given size goes, next to the text cursor; in integers without
    bounds. *)
Definition popup_place (cursor output : wlr_box) (width height : Z) : Z * Z :=
  let x := box_x cursor in
  let x := if x + width >? box_x output + box_width output then box_x output + box_width output - width else x in
  let x := if x <? box_x output then box_x output else x in
  let y := box_y cursor + box_height cursor in
  let y := if y + height >? box_y output + box_height output then box_y cursor - height else y in
  let y := if y <? box_y output then box_y output else y in
  (x, y).

Definition UpdatePopup (popup : nat) (r : InputMethodRelay) : InputMethodRelay :=
  match List.find (fun p => (pop_id p =? popup)%nat) (popups_ r),
        active_text_input_ r ≫= fun a => find_ti a r, focused_surface_ r with
  | Some p, Some t, Some f =>
      if negb (pop_mapped p) then r
      else
        match surface_position r f with
        | None => r
        | Some (px, py) =>
            let s := CurrentState t in
            let c := if has_cursor_rectangle s then cursor_rectangle s else no_box in
            let cursor := Box (box_x c + px) (box_y c + py) (box_width c) (box_height c) in
            let output := output_box_at r (box_x cursor) (box_y cursor) in
            if (box_width output <=? 0) || (box_height output <=? 0) then r
            else
              let '(x, y) := popup_place cursor output (pop_width p) (pop_height p) in
              r |> (fun r => r <{ popups_ ::= map (fun q => if (pop_id q =? popup)%nat
                                                            then q <{ pop_position := (x, y) }> else q) }>)
                |> say_im [ImTextInputRectangle popup
                     (Box (box_x cursor - x) (box_y cursor - y) (box_width cursor) (box_height cursor))]
        end
  | _, _, _ => r
  end.

Definition UpdatePopups (r : InputMethodRelay) : InputMethodRelay :=
  foldl (fun r p => UpdatePopup p r) r (map pop_id (popups_ r)).

(** *** Activation *)

Definition state_msgs (s : State) : list im_msg :=
  (if has_surrounding_text s
   then [ImSurroundingText (surrounding_text s) (surrounding_cursor s) (surrounding_anchor s)] else []) ++
  [ImTextChangeCause (text_change_cause s)] ++
  (if has_content_type s then [ImContentType (content_hint s) (content_purpose s)] else []) ++
  [ImDone].

Definition SendState (input : nat) (r : InputMethodRelay) : InputMethodRelay :=
  match input_method_ r with
  | None => r
  | Some _ => with_ti input (fun t r => r |> say_im (state_msgs (CurrentState t)) |> UpdatePopups) r
  end.

Definition Deactivate (input : nat) (r : InputMethodRelay) : InputMethodRelay :=
  let r := if bool_decide (input_method_ r <> None) && bool_decide (active_text_input_ r = Some input)
           then r |> say_im [ImDeactivate] |> SendState input else r in
  if bool_decide (active_text_input_ r = Some input) then r <{ active_text_input_ := None }> else r.

Definition Activate (input : nat) (r : InputMethodRelay) : InputMethodRelay :=
  with_ti input (fun t r =>
    if bool_decide (focused_surface_ r = None) || negb (Enabled t) ||
       negb (bool_decide (relay_focused_surface_ t = focused_surface_ r)) then r
    else
      match input_method_ r with
      | None => r <{ pending_text_input_ := Some input }>
      | Some _ =>
          let r := match active_text_input_ r with
                   | Some a => if (a =? input)%nat then r else Deactivate a r
                   | None => r
                   end in
          r |> (fun r => r <{ active_text_input_ := Some input }> <{ pending_text_input_ := None }>)
            |> say_im [ImActivate] |> SendState input
      end) r.

(** *** Focus *)

Definition AcceptsFocus (t : TextInput) (surface : option nat) (r : InputMethodRelay) : bool :=
  bool_decide (surface <> None) &&
  (bool_decide (Seat t = None) || bool_decide (Seat t = Some (relay_seat r))) &&
  MatchesSurface surface_client surface t.

Definition set_relay_focus (f : option nat) (t : TextInput) : TextInput := t <{ relay_focused_surface_ := f }>.

Definition leave_one (surface : option nat) (id : nat) : InputMethodRelay -> InputMethodRelay :=
  with_ti id (fun t r =>
    if bool_decide (relay_focused_surface_ t <> None) && negb (bool_decide (relay_focused_surface_ t = surface))
    then
      let r := if bool_decide (active_text_input_ r = Some id) then Deactivate id r else r in
      r |> perform id SendLeave |> upd_ti id (set_relay_focus None)
    else r).

Definition enter_one (surface : option nat) (id : nat) : InputMethodRelay -> InputMethodRelay :=
  with_ti id (fun t r =>
    if bool_decide (relay_focused_surface_ t = None) && AcceptsFocus t surface r
    then r |> perform id (SendEnter surface_client surface) |> upd_ti id (set_relay_focus surface)
    else r).

(** The first enabled text input on the surface. *)
Definition on_surface (surface : option nat) (t : TextInput) : bool :=
  Enabled t && bool_decide (relay_focused_surface_ t = surface).

Definition focus_candidate (surface : option nat) (r : InputMethodRelay) : option nat :=
  ti_id <$> List.find (on_surface surface) (text_inputs_ r).

Definition UpdateFocus (surface : option nat) (r : InputMethodRelay) : InputMethodRelay :=
  let r := r <{ focused_surface_ := surface }> in
  let r := each_ti (leave_one surface) r in
  let r := each_ti (enter_one surface) r in
  let r :=
    match focus_candidate surface r with
    | Some c => if bool_decide (surface <> None) && negb (bool_decide (active_text_input_ r = Some c))
                then Activate c r else r
    | None => r
    end in
  UpdatePopups r.

(** *** Requests of text inputs *)

Definition AddTextInput (t : TextInput) (r : InputMethodRelay) : InputMethodRelay :=
  if bool_decide (Seat t <> None) && negb (bool_decide (Seat t = Some (relay_seat r))) then r
  else
    let r := r <{ text_inputs_ ::= fun l => l ++ [t] }> in
    if bool_decide (focused_surface_ r <> None) && MatchesSurface surface_client (focused_surface_ r) t
    then r |> perform (ti_id t) (SendEnter surface_client (focused_surface_ r))
           |> upd_ti (ti_id t) (set_relay_focus (focused_surface_ r))
    else r.

Definition HandleEnable (input : nat) (r : InputMethodRelay) : InputMethodRelay :=
  let r := UpdateFocus (focused_surface_ r) r in
  with_ti input (fun t r =>
    if negb (bool_decide (relay_focused_surface_ t = focused_surface_ r)) then r else Activate input r) r.

Definition HandleCommit (input : nat) (r : InputMethodRelay) : InputMethodRelay :=
  with_ti input (fun t r =>
    if negb (bool_decide (active_text_input_ r = Some input)) || negb (Enabled t) then r
    else
      let r := if bool_decide (input_method_ r <> None) then SendState input r else r in
      UpdatePopups r) r.

Definition HandleDisable (input : nat) (r : InputMethodRelay) : InputMethodRelay :=
  let r := if bool_decide (pending_text_input_ r = Some input) then r <{ pending_text_input_ := None }> else r in
  if bool_decide (active_text_input_ r = Some input) then Deactivate input r else r.

Definition HandleDestroy (input : nat) (r : InputMethodRelay) : InputMethodRelay :=
  r |> HandleDisable input
    |> (fun r => r <{ text_inputs_ ::= List.filter (fun t => negb (ti_id t =? input)%nat) }>).

(** *** The input method *)

Definition GrabForKeyboard (virtual_keyboard_client : option nat) (r : InputMethodRelay) : bool :=
  match input_method_ r with
  | None => false
  | Some im => keyboard_grab im && negb (bool_decide (virtual_keyboard_client = Some (im_client im)))
  end.

Definition OnNewInputMethod (im : input_method) (r : InputMethodRelay) : InputMethodRelay :=
  match input_method_ r with
  | Some _ => say_im [ImUnavailable (im_client im)] r
  | None =>
      let r := r <{ input_method_ := Some im }> <{ im_log := [] }> in
      let r := UpdateFocus (focused_surface_ r) r in
      let candidate := match pending_text_input_ r with
                       | Some p => Some p
                       | None => focus_candidate (focused_surface_ r) r
                       end in
      let r := r <{ pending_text_input_ := None }> in
      match candidate with Some c => Activate c r | None => r end
  end.

Definition OnInputMethodCommit (r : InputMethodRelay) : InputMethodRelay :=
  match input_method_ r, active_text_input_ r with
  | Some im, Some a =>
      with_ti a (fun t r => say_ti a (
        match im_preedit im with Some (text, b, e) => SendPreedit text b e t | None => [] end ++
        match im_commit_text im with Some text => SendCommit text t | None => [] end ++
        (if negb (fst (im_delete im) =? 0) || negb (snd (im_delete im) =? 0)
         then SendDelete (fst (im_delete im)) (snd (im_delete im)) t else []) ++
        SendDone t) r) r
  | _, _ => r
  end.

Definition OnInputMethodNewPopup (p : InputMethodPopup) (r : InputMethodRelay) : InputMethodRelay :=
  r |> (fun r => r <{ popups_ ::= fun l => l ++ [p] }>) |> UpdatePopup (pop_id p).

Definition RemovePopup (popup : nat) (r : InputMethodRelay) : InputMethodRelay :=
  r <{ popups_ ::= List.filter (fun p => negb (pop_id p =? popup)%nat) }>.

Definition OnInputMethodDestroy (r : InputMethodRelay) : InputMethodRelay :=
  r <{ input_method_ := None }> <{ pending_text_input_ := active_text_input_ r }>
    <{ active_text_input_ := None }> <{ popups_ := [] }>.

(** *** text-input-v3 *)

Definition on_v3 (f : wlr_text_input_v3 -> wlr_text_input_v3) (id : nat) : InputMethodRelay -> InputMethodRelay :=
  upd_ti id (fun t => match ti_endpoint t with
                      | InputV3 (Some h) => t <{ ti_endpoint := InputV3 (Some (f h)) }>
                      | _ => t
                      end).

Definition text_input_enable : nat -> InputMethodRelay -> InputMethodRelay :=
  on_v3 (fun h => h <{ pending := v3_defaults }> <{ pending_enabled := true }>).
Definition text_input_disable : nat -> InputMethodRelay -> InputMethodRelay :=
  on_v3 (fun h => h <{ pending_enabled := false }>).
Definition text_input_set_surrounding_text (text : str) (cursor anchor : Z)
    : nat -> InputMethodRelay -> InputMethodRelay :=
  on_v3 (fun h => h <{ pending ::= fun s => s <{ v3_text := Some text }> <{ v3_cursor := cursor }>
    <{ v3_anchor := anchor }> <{ v3_features ::= Z.lor WLR_TEXT_INPUT_V3_FEATURE_SURROUNDING_TEXT }> }>).
Definition text_input_set_text_change_cause (cause : Z) : nat -> InputMethodRelay -> InputMethodRelay :=
  on_v3 (fun h => h <{ pending ::= fun s => s <{ v3_cause := cause }> }>).
Definition text_input_set_content_type (hint purpose : Z) : nat -> InputMethodRelay -> InputMethodRelay :=
  on_v3 (fun h => h <{ pending ::= fun s => s <{ v3_hint := hint }> <{ v3_purpose := purpose }>
    <{ v3_features ::= Z.lor WLR_TEXT_INPUT_V3_FEATURE_CONTENT_TYPE }> }>).
Definition text_input_set_cursor_rectangle (box : wlr_box) : nat -> InputMethodRelay -> InputMethodRelay :=
  on_v3 (fun h => h <{ pending ::= fun s => s <{ v3_rectangle := box }>
    <{ v3_features ::= Z.lor WLR_TEXT_INPUT_V3_FEATURE_CURSOR_RECTANGLE }> }>).

Definition commit_pending (h : wlr_text_input_v3) : wlr_text_input_v3 :=
  h <{ current := pending h }> <{ current_enabled := pending_enabled h }>
    <{ current_serial ::= fun n => u32 (n + 1) }>.

Definition text_input_commit (id : nat) (r : InputMethodRelay) : InputMethodRelay :=
  match ti_endpoint <$> find_ti id r with
  | Some (InputV3 (Some h)) =>
      let old_enabled := current_enabled h in
      let enabled := pending_enabled h in
      let r := on_v3 commit_pending id r in
      if negb old_enabled && enabled then
        r |> on_v3 (fun h => h <{ active_features := v3_features (current h) }>) id |> HandleEnable id
      else if old_enabled && negb enabled then
        r |> on_v3 (fun h => h <{ active_features := 0 }>) id |> HandleDisable id
      else HandleCommit id r
  | _ => r
  end.

(** wlr_text_input_destroy, with TextInputV3::OnDestroy. *)
Definition text_input_destroy (id : nat) (r : InputMethodRelay) : InputMethodRelay :=
  match ti_endpoint <$> find_ti id r with
  | Some (InputV3 (Some _)) =>
      r |> upd_ti id (fun t => t <{ ti_endpoint := InputV3 None }>) |> HandleDestroy id
  | _ => r
  end.

(** *** text-input-v1 and v2 *)

Definition on_legacy (f : legacy -> legacy) (id : nat) : InputMethodRelay -> InputMethodRelay :=
  upd_ti id (fun t => match ti_endpoint t with
                      | OldInput l => t <{ ti_endpoint := OldInput (f l) }>
                      | _ => t
                      end).

Definition with_legacy (id : nat) (f : TextInput -> legacy -> InputMethodRelay -> InputMethodRelay)
    : InputMethodRelay -> InputMethodRelay :=
  with_ti id (fun t r => match ti_endpoint t with
                         | OldInput l => if resource_ l then f t l r else r
                         | _ => r
                         end).

(** TextInputV1::Activate and TextInputV2::Enable; [seat] is that of the first. *)
Definition V1_Activate (id seat surface : nat) : InputMethodRelay -> InputMethodRelay :=
  with_legacy id (fun t l r =>
    if lg_v2 l || negb (surface_client surface =? ti_client t)%nat then r
    else r |> on_legacy (fun l => l <{ seat_ := Some seat }> <{ surface_ := Some surface }>
                                    <{ enabled_ := true }>) id
           |> HandleEnable id).

Definition V2_Enable (id surface : nat) : InputMethodRelay -> InputMethodRelay :=
  with_legacy id (fun t l r =>
    if negb (lg_v2 l) || negb (surface_client surface =? ti_client t)%nat then r
    else r |> on_legacy (fun l => l <{ surface_ := Some surface }> <{ enabled_ := true }>) id
           |> HandleEnable id).

Definition V1_Deactivate (id seat : nat) : InputMethodRelay -> InputMethodRelay :=
  with_legacy id (fun t l r =>
    if lg_v2 l || negb (bool_decide (seat_ l = Some seat)) then r
    else r |> on_legacy (fun l => l <{ enabled_ := false }>) id
           |> HandleDisable id
           |> on_legacy (fun l => l <{ seat_ := None }> <{ surface_ := None }>) id).

Definition V2_Disable (id surface : nat) : InputMethodRelay -> InputMethodRelay :=
  with_legacy id (fun t l r =>
    if negb (lg_v2 l) || negb (bool_decide (surface_ l = Some surface)) then r
    else r |> on_legacy (fun l => l <{ enabled_ := false }>) id
           |> HandleDisable id
           |> on_legacy (fun l => l <{ surface_ := None }>) id).

Definition V1_Reset : nat -> InputMethodRelay -> InputMethodRelay :=
  fun id => with_legacy id (fun t l r => if lg_v2 l then r else
    on_legacy (fun l => l <{ surrounding_pending_ := false }> <{ content_type_pending_ := false }>) id r).

(** v2 clamps a negative cursor or anchor, v1 takes unsigned numbers. *)
Definition SetSurroundingText (text : option str) (cursor anchor : Z) (id : nat)
    : InputMethodRelay -> InputMethodRelay :=
  with_legacy id (fun t l r => on_legacy (fun l =>
    l <{ surrounding_text_ := default [] text }>
      <{ surrounding_cursor_ := if lg_v2 l && (cursor <? 0) then 0 else cursor }>
      <{ surrounding_anchor_ := if lg_v2 l && (anchor <? 0) then 0 else anchor }>
      <{ surrounding_pending_ := true }>) id r).

Definition CONTENT_HINT_NONE : Z := 0.
Definition CONTENT_HINT_DEFAULT : Z := 7.
Definition CONTENT_PURPOSE_PASSWORD : Z := 8.

Definition SetContentType (hint purpose : Z) (id : nat) : InputMethodRelay -> InputMethodRelay :=
  with_legacy id (fun t l r => on_legacy (fun l =>
    l <{ content_hint_ := if negb (lg_v2 l) && (hint =? CONTENT_HINT_DEFAULT) then CONTENT_HINT_NONE else hint }>
      <{ content_purpose_ := if CONTENT_PURPOSE_PASSWORD <? purpose then u32 (purpose + 1) else purpose }>
      <{ content_type_pending_ := true }>) id r).

Definition SetCursorRectangle (box : wlr_box) (id : nat) : InputMethodRelay -> InputMethodRelay :=
  with_legacy id (fun t l r => on_legacy (fun l =>
    l <{ cursor_rectangle_ := box }> <{ cursor_rectangle_pending_ := true }>) id r).

(** TextInputV1::CommitState and TextInputV2::UpdateState. *)
Definition CommitState (serial : Z) (id : nat) : InputMethodRelay -> InputMethodRelay :=
  with_legacy id (fun t l r =>
    let r := r |> on_legacy (fun l => l <{ serial_ := serial }>) id |> HandleCommit id in
    if lg_v2 l
    then on_legacy (fun l => l <{ surrounding_pending_ := false }> <{ content_type_pending_ := false }>) id r
    else r).

Definition MakeInert (l : legacy) : legacy :=
  l <{ seat_ := None }> <{ surface_ := None }> <{ enabled_ := false }> <{ resource_ := false }>.

Definition OnResourceDestroy (id : nat) : InputMethodRelay -> InputMethodRelay :=
  with_legacy id (fun t l r => r |> on_legacy (fun l => l <{ resource_ := false }>) id |> HandleDestroy id).

Definition OnSeatDestroy (id : nat) : InputMethodRelay -> InputMethodRelay :=
  with_legacy id (fun t l r => r |> on_legacy MakeInert id |> HandleDestroy id).

(** A surface is destroyed: what its listeners among the text inputs do. *)
Definition surface_gone_one (surface id : nat) : InputMethodRelay -> InputMethodRelay :=
  with_ti id (fun t r =>
    match ti_endpoint t with
    | OldInput l =>
        if bool_decide (surface_ l = Some surface) then
          if lg_v2 l then on_legacy (fun l => l <{ surface_ := None }>) id r
          else r |> on_legacy MakeInert id |> HandleDestroy id
        else r
    | InputV3 (Some h) =>
        if bool_decide (v3_focused_surface h = Some surface)
        then on_v3 (fun h => h <{ v3_focused_surface := None }>) id r else r
    | InputV3 None => r
    end).

Definition OnSurfaceDestroy (surface : nat) : InputMethodRelay -> InputMethodRelay :=
  each_ti (surface_gone_one surface).

End Relay.
