(* ===== verification/InputMethodFacts.v ===== *)
(** * Typed text goes where the keyboard is

    The invariant of the input method relay of [InputMethod], through every sequence
    of requests of text inputs of all three versions, changes of the keyboard focus
    and input methods coming and going. *)

From S2P Require Import Prelude Box InputMethod.

(** ** What the input method was told *)

(** Whether the input method is active, [None] if it was deactivated while it was
    not. *)
Definition im_step (st : option bool) (m : im_msg) : option bool :=
  match m with
  | ImActivate => match st with Some _ => Some true | None => None end
  | ImDeactivate => match st with Some true => Some false | _ => None end
  | _ => st
  end.
Definition im_active (ms : list im_msg) : option bool := foldl im_step (Some false) ms.

Definition quiet (m : im_msg) : Prop := forall st, im_step st m = st.

Ltac quiet_tac := repeat (apply Forall_cons_2; [intros ?; reflexivity|]); apply Forall_nil_2.

Lemma foldl_quiet ms st : Forall quiet ms -> foldl im_step st ms = st.
Proof. intros Hq. revert st. induction Hq as [|m ms Hm _ IH]; intros st; simpl; [done|]. by rewrite Hm. Qed.

Lemma im_active_quiet l ms : Forall quiet ms -> im_active (l ++ ms) = im_active l.
Proof. intros Hq. unfold im_active. rewrite foldl_app. by apply foldl_quiet. Qed.

Lemma quiet_state s : Forall quiet (state_msgs s).
Proof.
  unfold state_msgs. destruct (has_surrounding_text s), (has_content_type s); cbn [app]; quiet_tac.
Qed.

(** Popups move, and the input method is told things that do not activate it. *)
Definition aside (r r' : InputMethodRelay) : Prop :=
  exists ps ms, Forall quiet ms /\ r' = r <{ popups_ := ps }> <{ im_log ::= fun l => l ++ ms }>.

Lemma aside_refl r : aside r r.
Proof. exists (popups_ r), []. split; [constructor|]. destruct r. unfold modify. simpl. by rewrite app_nil_r. Qed.

Lemma aside_trans r1 r2 r3 : aside r1 r2 -> aside r2 r3 -> aside r1 r3.
Proof.
  intros (ps & ms & Hq & ->) (ps' & ms' & Hq' & ->). exists ps', (ms ++ ms').
  split; [by apply Forall_app_2|]. destruct r1. unfold modify. simpl. by rewrite app_assoc.
Qed.

#[export] Instance aside_preorder : PreOrder aside.
Proof. split; [exact aside_refl|exact aside_trans]. Qed.

Lemma aside_say ms r : Forall quiet ms -> aside r (say_im ms r).
Proof. intros Hq. exists (popups_ r), ms. by destruct r. Qed.

Lemma aside_move f r : aside r (r <{ popups_ ::= f }>).
Proof.
  exists (f (popups_ r)), []. split; [constructor|]. destruct r. unfold modify. simpl. by rewrite app_nil_r.
Qed.

Lemma aside_popup p r : aside r (UpdatePopup p r).
Proof.
  unfold UpdatePopup. destruct (List.find _ (popups_ r)) as [q|]; [|done].
  destruct (_ ≫= _) as [t|]; [|done]. destruct (focused_surface_ r) as [f|]; [|done].
  destruct (negb _); [done|]. destruct (surface_position r f) as [[px py]|]; [|done].
  destruct (_ || _); [done|]. destruct (popup_place _ _ _ _) as [x y].
  eapply aside_trans; [apply aside_move|apply aside_say; quiet_tac].
Qed.

Lemma aside_popups r : aside r (UpdatePopups r).
Proof.
  unfold UpdatePopups. generalize (map pop_id (popups_ r)) as l. intros l. revert r.
  induction l as [|p l IH]; intros r; simpl; [done|]. etransitivity; [apply aside_popup|apply IH].
Qed.

Lemma aside_SendState i r : aside r (SendState i r).
Proof.
  unfold SendState, with_ti. destruct (input_method_ r); [|done]. destruct (find_ti i r) as [t|]; [|done].
  etransitivity; [|apply aside_popups]. apply aside_say, quiet_state.
Qed.

(** ** The invariant *)

Section Invariant.
Variable surface_client : nat -> nat.

(** A text input on its own, under focus [F]; [leaving] while it still has to be
    told that the focus moved. *)
Record ti_ok (F : option nat) (leaving : Prop) (t : TextInput) : Prop := {
  to_focus : relay_focused_surface_ t = None \/ relay_focused_surface_ t = F \/ leaving;
  to_owner : forall f, relay_focused_surface_ t = Some f -> surface_client f = ti_client t;
  to_endpoint :
    match ti_endpoint t with
    | OldInput l => forall f, surface_ l = Some f -> surface_client f = ti_client t
    | InputV3 (Some h) => v3_focused_surface h = None \/ v3_focused_surface h = relay_focused_surface_ t
    | InputV3 None => True
    end }.

(** [R]: text inputs that still have to leave; [D]: one that is being disabled. *)
Record inv (R : list nat) (D : option nat) (r : InputMethodRelay) : Prop := {
  in_ids : NoDup (map ti_id (text_inputs_ r));
  in_asserts : asserts_hold r = true;
  in_inputs : forall t, t ∈ text_inputs_ r -> ti_ok (focused_surface_ r) (ti_id t ∈ R) t;
  in_active : forall a, active_text_input_ r = Some a ->
    input_method_ r <> None /\ exists t, t ∈ text_inputs_ r /\ ti_id t = a /\
    (Enabled t = true \/ D = Some a) /\ relay_focused_surface_ t <> None /\
    (relay_focused_surface_ t = focused_surface_ r \/ a ∈ R);
  in_pending : forall p, pending_text_input_ r = Some p -> p ∈ map ti_id (text_inputs_ r);
  in_im : input_method_ r <> None ->
    im_active (im_log r) = Some (bool_decide (active_text_input_ r <> None)) }.

Lemma find_ti_Some i r t : find_ti i r = Some t -> t ∈ text_inputs_ r /\ ti_id t = i.
Proof. unfold find_ti. intros [Hin E]%List.find_some. apply Nat.eqb_eq in E. by rewrite list_elem_of_In. Qed.

Lemma find_ti_None i r t : find_ti i r = None -> t ∈ text_inputs_ r -> ti_id t <> i.
Proof.
  unfold find_ti. intros Hn Hin E. rewrite list_elem_of_In in Hin.
  apply (List.find_none _ _ Hn t) in Hin. by rewrite E, Nat.eqb_refl in Hin.
Qed.

Lemma inv_aside R D r r' : aside r r' -> inv R D r -> inv R D r'.
Proof.
  intros (ps & ms & Hq & ->) [I A T Ac P M]. split; try done. simpl. intros Him.
  rewrite im_active_quiet by done. by apply M.
Qed.

Lemma inv_weaken R R' D r : R ⊆ R' -> inv R D r -> inv R' D r.
Proof.
  intros HR [I A T Ac P M]. split; try done.
  - intros t Ht. destruct (T t Ht) as [Hf Ho He]. split; try done.
    destruct Hf as [?|[?|?]]; auto.
  - intros a Ha. destruct (Ac a Ha) as (Him & t & Ht & Hi & He & Hn & Hf). split; [done|].
    exists t. split_and!; try done. destruct Hf; auto.
Qed.

(** What an operation leaves alone. *)
Record same_inputs (r r' : InputMethodRelay) : Prop := {
  si_inputs : text_inputs_ r' = text_inputs_ r;
  si_focus : focused_surface_ r' = focused_surface_ r;
  si_im : input_method_ r' = input_method_ r;
  si_pending : pending_text_input_ r' = pending_text_input_ r;
  si_seat : relay_seat r' = relay_seat r }.

Lemma aside_same r r' : aside r r' -> same_inputs r r' /\ active_text_input_ r' = active_text_input_ r.
Proof. intros (ps & ms & _ & ->). by split; [split|]. Qed.

Lemma inv_Deactivate R D i r : inv R D r ->
  inv R D (Deactivate i r) /\ same_inputs r (Deactivate i r) /\
  active_text_input_ (Deactivate i r) =
    (if bool_decide (active_text_input_ r = Some i) then None else active_text_input_ r).
Proof.
  intros Hi. unfold Deactivate. destruct (decide (active_text_input_ r = Some i)) as [Ea|Ea].
  2: { rewrite (bool_decide_eq_false_2 _ Ea), andb_false_r, (bool_decide_eq_false_2 _ Ea).
       split_and!; [done|by split|done]. }
  destruct (in_active _ _ _ Hi i Ea) as [Him _].
  rewrite (bool_decide_eq_true_2 _ Ea), (bool_decide_eq_true_2 _ Him). cbn [andb].
  destruct (aside_SendState i (say_im [ImDeactivate] r)) as (ps & ms & Hq & Es).
  set (r1 := SendState i _) in *. rewrite Es. simpl. rewrite bool_decide_eq_true_2 by done.
  split_and!; [|by split|done]. destruct Hi as [I A T Ac P M]. split; try done. simpl. intros _.
  rewrite im_active_quiet by done. unfold im_active. rewrite foldl_app. fold (im_active (im_log r)).
  rewrite M by done. by rewrite Ea.
Qed.

(** Changing one text input. *)
Lemma upd_ti_elem i f r t : t ∈ text_inputs_ (upd_ti i f r) ->
  exists u, u ∈ text_inputs_ r /\ t = if (ti_id u =? i)%nat then f u else u.
Proof. simpl. intros (u & -> & Hu)%list_elem_of_fmap. eauto. Qed.

Lemma upd_ti_ids i f r : (forall t, t ∈ text_inputs_ r -> ti_id t = i -> ti_id (f t) = i) ->
  map ti_id (text_inputs_ (upd_ti i f r)) = map ti_id (text_inputs_ r).
Proof.
  intros Hf. simpl. rewrite map_map. apply map_ext_in. intros t Ht. rewrite <- list_elem_of_In in Ht.
  destruct (ti_id t =? i)%nat eqn:E; [|done]. apply Nat.eqb_eq in E. rewrite E. by apply Hf.
Qed.

Lemma inv_upd R R' D D' i f r : inv R D r ->
  (forall j, j ∈ R -> j ∈ R' \/ j = i) -> (D = D' \/ D = Some i \/ D = None) ->
  (forall t, t ∈ text_inputs_ r -> ti_id t = i ->
    ti_id (f t) = i /\ ti_ok (focused_surface_ r) (i ∈ R') (f t) /\
    (active_text_input_ r = Some i ->
      (Enabled (f t) = true \/ D' = Some i) /\ relay_focused_surface_ (f t) <> None /\
      (relay_focused_surface_ (f t) = focused_surface_ r \/ i ∈ R'))) ->
  inv R' D' (upd_ti i f r).
Proof.
  intros [I A T Ac P M] HR HD Hok.
  assert (Hids : map ti_id (text_inputs_ (upd_ti i f r)) = map ti_id (text_inputs_ r))
    by (apply upd_ti_ids; intros; by apply Hok).
  split; try done.
  - by rewrite Hids.
  - intros t (u & Hu & ->)%upd_ti_elem. destruct (ti_id u =? i)%nat eqn:E.
    + apply Nat.eqb_eq in E. destruct (Hok u Hu E) as (-> & Ho & _). done.
    + apply Nat.eqb_neq in E. destruct (T u Hu) as [Hf Ho He]. split; try done.
      destruct Hf as [?|[?|Hr]]; auto. right; right. by destruct (HR _ Hr).
  - intros a Ha. change (active_text_input_ r = Some a) in Ha. destruct (Ac a Ha) as (Him & t & Ht & Hi & He & Hn & Hf).
    split; [done|]. exists (if (ti_id t =? i)%nat then f t else t). split.
    { simpl. apply list_elem_of_fmap. eauto. }
    destruct (ti_id t =? i)%nat eqn:E.
    + apply Nat.eqb_eq in E. subst a. destruct (Hok t Ht E) as (-> & _ & Hact). rewrite E in *.
      split; [done|]. by apply Hact.
    + apply Nat.eqb_neq in E. split_and!; try done.
      * destruct He as [?|He]; [by left|]. destruct HD as [<-|[HD|HD]]; [by right|congruence|congruence].
      * destruct Hf as [?|Hr]; [by left|]. destruct (HR _ Hr); [by right|congruence].
  - intros p Hp. rewrite Hids. by apply P.
Qed.

Lemma find_ti_unique R D i r t u : inv R D r -> find_ti i r = Some t ->
  u ∈ text_inputs_ r -> ti_id u = i -> u = t.
Proof.
  intros Hi Ef Hu Hui. destruct (find_ti_Some _ _ _ Ef) as [Ht Hti].
  apply list_elem_of_lookup in Ht as [n Hn]. apply list_elem_of_lookup in Hu as [m Hm].
  assert (n = m) as ->; [|congruence]. eapply NoDup_lookup; [apply (in_ids _ _ _ Hi)|..]; rewrite list_lookup_fmap.
  - rewrite Hn. simpl. by rewrite Hti.
  - rewrite Hm. simpl. by rewrite Hui.
Qed.

Lemma inv_log R D i ms r : inv R D r -> inv R D (say_ti i ms r).
Proof. intros [I A T Ac P M]. by split. Qed.

(** Sending and then setting the relay's focus is one change. *)
Lemma perform_upd i f g r t t' ms : find_ti i r = Some t -> f t = (t', ms, true) -> ti_id t' = i ->
  upd_ti i g (perform i f r) = say_ti i ms (upd_ti i (fun _ => g t') r).
Proof.
  intros Ef Es Hid. unfold perform, with_ti. rewrite Ef, Es. destruct r.
  unfold upd_ti, say_ti, modify. simpl. f_equal. rewrite map_map. apply map_ext. intros u.
  destruct (ti_id u =? i)%nat eqn:E; [|by rewrite E]. by rewrite Hid, Nat.eqb_refl.
Qed.

(** *** Entering and leaving *)

Lemma SendLeave_spec F P t : ti_ok F P t -> exists t' ms,
  SendLeave t = (t', ms, true) /\ ti_id t' = ti_id t /\ forall F' P', ti_ok F' P' (set_relay_focus None t').
Proof.
  intros [Hf Ho He]. destruct t as [i c [l|[h|]] rf]; unfold SendLeave; simpl in *.
  - destruct (_ || _); eexists _, _; (split; [reflexivity|]); (split; [done|]);
      intros F' P'; split; simpl; try done; auto.
  - case_bool_decide as Ev; simpl.
    + unfold wlr_text_input_v3_send_leave. simpl. rewrite bool_decide_eq_true_2 by done.
      eexists _, _. split; [reflexivity|]. split; [done|]. intros F' P'. split; simpl; try done; auto.
    + eexists _, _. split; [reflexivity|]. split; [done|].
      intros F' P'. split; simpl; try done; auto.
  - eexists _, _. split; [reflexivity|]. split; [done|]. intros F' P'. split; simpl; try done; auto.
Qed.

Lemma SendEnter_spec F P t f : ti_ok F P t -> relay_focused_surface_ t = None ->
  MatchesSurface surface_client (Some f) t = true -> exists t' ms,
  SendEnter surface_client (Some f) t = (t', ms, true) /\ ti_id t' = ti_id t /\
  forall P', ti_ok (Some f) P' (set_relay_focus (Some f) t').
Proof.
  intros [Hf Ho He] Hn Hm. destruct t as [i c [l|[h|]] rf]; unfold SendEnter, MatchesSurface in *; simpl in *.
  - apply andb_true_iff in Hm as [_ Hs%bool_decide_eq_true].
    destruct (_ || _); eexists _, _; (split; [reflexivity|]); (split; [done|]);
      intros P'; split; simpl; auto; intros g [= <-]; auto.
  - apply bool_decide_eq_true in Hm. injection Hm as Hm. unfold wlr_text_input_v3_send_enter. simpl.
    rewrite !bool_decide_eq_true_2 by (try congruence; destruct He; congruence).
    eexists _, _. split; [reflexivity|]. split; [done|]. intros P'. split; simpl; auto. by intros g [= <-].
  - done.
Qed.

Lemma inv_leave surface i L D r : inv (i :: L) D r -> focused_surface_ r = surface ->
  inv L D (leave_one surface i r) /\ focused_surface_ (leave_one surface i r) = surface /\
  input_method_ (leave_one surface i r) = input_method_ r.
Proof.
  intros Hi Ef. unfold leave_one, with_ti. destruct (find_ti i r) as [t|] eqn:Et.
  2: { split_and!; try done. destruct Hi as [I A T Ac P M]. split; try done.
       - intros t Ht. destruct (T t Ht) as [Hf Ho He]. split; try done.
         destruct Hf as [?|[?|[E|?]%elem_of_cons]]; auto. by apply (find_ti_None _ _ _ Et Ht) in E.
       - intros a Ha. destruct (Ac a Ha) as (Him & t & Ht & Hti & He & Hn & Hf). split; [done|].
         exists t. split_and!; try done. destruct Hf as [?|[E|?]%elem_of_cons]; auto.
         apply (find_ti_None _ _ _ Et) in Ht. congruence. }
  destruct (find_ti_Some _ _ _ Et) as [Ht Hti]. destruct (bool_decide _ && _) eqn:Eg.
  - apply andb_true_iff in Eg as [Hn%bool_decide_eq_true Hne].
    set (r1 := if bool_decide (active_text_input_ r = Some i) then Deactivate i r else r).
    assert (H1 : inv (i :: L) D r1 /\ same_inputs r r1 /\ active_text_input_ r1 <> Some i).
    { subst r1. destruct (bool_decide (active_text_input_ r = Some i)) eqn:Ea;
        [apply bool_decide_eq_true in Ea|apply bool_decide_eq_false in Ea; split_and!; [done|by split|done]].
      destruct (inv_Deactivate _ _ i _ Hi) as (H1 & H2 & H3). rewrite bool_decide_eq_true_2 in H3 by done.
      split_and!; [done|done|congruence]. }
    clearbody r1. destruct H1 as (H1 & Hs & Ha).
    assert (Et1 : find_ti i r1 = Some t) by (unfold find_ti; by rewrite (si_inputs _ _ Hs)).
    destruct (find_ti_Some _ _ _ Et1) as [Ht1 _].
    destruct (SendLeave_spec _ _ _ (in_inputs _ _ _ H1 t Ht1)) as (t' & ms & Es & Eid & Hok).
    rewrite (perform_upd _ _ _ _ _ _ _ Et1 Es) by congruence.
    split_and!; [|by rewrite <- Ef, <- (si_focus _ _ Hs)|apply (si_im _ _ Hs)].
    apply inv_log. eapply inv_upd; [exact H1|by intros j [->|?]%elem_of_cons; auto|by left|].
    intros u Hu Hui. split; [simpl; congruence|]. split; [apply Hok|done].
  - split_and!; try done. assert (Hf' : relay_focused_surface_ t = None \/ relay_focused_surface_ t = surface).
    { apply andb_false_iff in Eg as [Eg|Eg]; [apply bool_decide_eq_false in Eg; left; by apply dec_stable in Eg|].
      apply negb_false_iff, bool_decide_eq_true in Eg. by right. }
    destruct Hi as [I A T Ac P M]. split; try done.
    + intros u Hu. destruct (T u Hu) as [Hf Ho He]. split; try done.
      destruct Hf as [?|[?|[Eu|?]%elem_of_cons]]; auto.
      rewrite (find_ti_unique _ _ _ _ _ _ ltac:(by split) Et Hu Eu), Ef. tauto.
    + intros a Ha. destruct (Ac a Ha) as (Him & u & Hu & Hui & He & Hn & Hf). split; [done|].
      exists u. split_and!; try done. destruct Hf as [?|[->|?]%elem_of_cons]; auto.
      rewrite (find_ti_unique _ _ _ _ _ _ ltac:(by split) Et Hu Hui) in *. left. rewrite Ef. tauto.
Qed.

Lemma inv_enter surface i D r : inv [] D r -> focused_surface_ r = surface ->
  inv [] D (enter_one surface_client surface i r) /\
  focused_surface_ (enter_one surface_client surface i r) = surface /\
  input_method_ (enter_one surface_client surface i r) = input_method_ r.
Proof.
  intros Hi Ef. unfold enter_one, with_ti. destruct (find_ti i r) as [t|] eqn:Et; [|done].
  destruct (find_ti_Some _ _ _ Et) as [Ht Hti]. destruct (bool_decide _ && _) eqn:Eg; [|done].
  apply andb_true_iff in Eg as [Hn%bool_decide_eq_true Ha]. unfold AcceptsFocus in Ha.
  apply andb_true_iff in Ha as [_ Hm]. destruct surface as [f|].
  2: { unfold MatchesSurface in Hm. destruct (ti_endpoint t) as [l|h]; [|done].
       by destruct (surface_ l). }
  destruct (SendEnter_spec _ _ _ _ (in_inputs _ _ _ Hi t Ht) Hn Hm) as (t' & ms & Es & Eid & Hok).
  rewrite (perform_upd _ _ _ _ _ _ _ Et Es) by congruence. split_and!; [|done|done].
  apply inv_log. eapply inv_upd; [exact Hi|by intros j ?%elem_of_nil|by left|].
  intros u Hu Hui. split; [simpl; congruence|]. rewrite Ef. split; [apply Hok|].
  intros Hact. destruct (in_active _ _ _ Hi i Hact) as (_ & v & Hv & Hvi & _ & Hvn & _).
  rewrite (find_ti_unique _ _ _ _ _ _ Hi Et Hv Hvi) in Hvn. done.
Qed.

Lemma inv_leaves surface D L r : inv L D r -> focused_surface_ r = surface ->
  let r' := foldl (fun r i => leave_one surface i r) r L in
  inv [] D r' /\ focused_surface_ r' = surface /\ input_method_ r' = input_method_ r.
Proof.
  revert r. induction L as [|i L IH]; intros r Hi Ef; [done|]. simpl.
  destruct (inv_leave _ _ _ _ _ Hi Ef) as (H1 & H2 & H3). destruct (IH _ H1 H2) as (? & ? & ->). done.
Qed.

Lemma inv_enters surface D L r : inv [] D r -> focused_surface_ r = surface ->
  let r' := foldl (fun r i => enter_one surface_client surface i r) r L in
  inv [] D r' /\ focused_surface_ r' = surface /\ input_method_ r' = input_method_ r.
Proof.
  revert r. induction L as [|i L IH]; intros r Hi Ef; [done|]. simpl.
  destruct (inv_enter _ i _ _ Hi Ef) as (H1 & H2 & H3). destruct (IH _ H1 H2) as (? & ? & ->). done.
Qed.

(** *** Activation *)

Lemma inv_Activate i r : inv [] None r -> inv [] None (Activate i r) /\
  focused_surface_ (Activate i r) = focused_surface_ r /\ input_method_ (Activate i r) = input_method_ r /\
  text_inputs_ (Activate i r) = text_inputs_ r.
Proof.
  intros Hi. unfold Activate, with_ti. destruct (find_ti i r) as [t|] eqn:Et; [|done].
  destruct (find_ti_Some _ _ _ Et) as [Ht Hti]. destruct (_ || _) eqn:Eg; [done|].
  apply orb_false_iff in Eg as [[Hn He]%orb_false_iff Hf].
  apply bool_decide_eq_false in Hn. apply negb_false_iff in He. apply negb_false_iff, bool_decide_eq_true in Hf.
  destruct (input_method_ r) as [im|] eqn:Eim.
  2: { split_and!; try done. destruct Hi as [I A T Ac P M]. split; try done. simpl. intros p [= <-].
       rewrite <- Hti. apply list_elem_of_fmap. eauto. }
  set (r1 := match active_text_input_ r with Some a => _ | None => r end).
  assert (H1 : inv [] None r1 /\ same_inputs r r1).
  { subst r1. destruct (active_text_input_ r) as [a|] eqn:Ea; [|by split; [|split]].
    destruct (a =? i)%nat; [by split; [|split]|]. destruct (inv_Deactivate _ _ a _ Hi) as (? & ? & _). done. }
  clearbody r1. destruct H1 as (H1 & Hs).
  set (r2 := say_im [ImActivate] _).
  assert (H2 : inv [] None r2).
  { destruct H1 as [I A T Ac P M]. split; try done; simpl.
    - intros a [= <-]. split; [rewrite (si_im _ _ Hs); congruence|]. exists t.
      rewrite (si_inputs _ _ Hs), (si_focus _ _ Hs), Hf. split_and!; auto.
    - intros Him. unfold im_active. rewrite foldl_app. fold (im_active (im_log r1)). by rewrite (M Him). }
  pose proof (aside_SendState i r2) as Has. split; [by eapply inv_aside|].
  destruct (aside_same _ _ Has) as [[S1 S2 S3 _ _] _]. rewrite S1, S2, S3. simpl.
  rewrite (si_inputs _ _ Hs), (si_focus _ _ Hs), (si_im _ _ Hs). done.
Qed.

Lemma inv_refocus surface r : inv [] None r ->
  inv (map ti_id (text_inputs_ r)) None (r <{ focused_surface_ := surface }>).
Proof.
  intros [I A T Ac P M]. split; try done.
  - intros t Ht. destruct (T t Ht) as [Hf Ho He]. split; try done. right; right.
    apply list_elem_of_fmap. eauto.
  - intros a Ha. destruct (Ac a Ha) as (Him & t & Ht & Hti & He & Hn & Hf). split; [done|].
    exists t. split_and!; try done. right. apply list_elem_of_fmap. eauto.
Qed.

Lemma inv_focus_loops surface r : inv [] None r ->
  let r3 := each_ti (enter_one surface_client surface)
    (each_ti (leave_one surface) (r <{ focused_surface_ := surface }>)) in
  inv [] None r3 /\ focused_surface_ r3 = surface /\ input_method_ r3 = input_method_ r.
Proof.
  intros Hi r3. subst r3. set (r1 := r <{ focused_surface_ := surface }>).
  pose proof (inv_refocus surface r Hi) as H1. change (text_inputs_ r) with (text_inputs_ r1) in H1. fold r1 in H1.
  destruct (inv_leaves surface _ _ r1 H1 eq_refl) as (H2 & F2 & M2). fold (each_ti (leave_one surface) r1) in *.
  set (r2 := each_ti (leave_one surface) r1) in *. clearbody r2.
  destruct (inv_enters surface _ (map ti_id (text_inputs_ r2)) r2 H2 F2) as (H3 & F3 & M3).
  split_and!; [exact H3|exact F3|]. etransitivity; [exact M3|exact M2].
Qed.

Lemma inv_UpdateFocus surface r : inv [] None r ->
  inv [] None (UpdateFocus surface_client surface r) /\
  focused_surface_ (UpdateFocus surface_client surface r) = surface /\
  input_method_ (UpdateFocus surface_client surface r) = input_method_ r.
Proof.
  intros Hi. unfold UpdateFocus. destruct (inv_focus_loops surface _ Hi) as (H3 & F3 & M3).
  set (r3 := each_ti (enter_one _ _) _) in *. clearbody r3.
  set (r4 := match focus_candidate surface r3 with Some c => _ | None => r3 end).
  assert (H4 : inv [] None r4 /\ focused_surface_ r4 = surface /\ input_method_ r4 = input_method_ r3).
  { subst r4. destruct (focus_candidate surface r3) as [c|]; [|done]. destruct (_ && _); [|done].
    destruct (inv_Activate c _ H3) as (? & -> & -> & _). done. }
  clearbody r4. destruct H4 as (H4 & F4 & M4). pose proof (aside_popups r4) as Has.
  split; [by eapply inv_aside|]. destruct (aside_same _ _ Has) as [[_ S2 S3 _ _] _]. rewrite S2, S3, M4, M3. done.
Qed.

Lemma inv_HandleEnable i r : inv [] None r -> inv [] None (HandleEnable surface_client i r).
Proof.
  intros Hi. unfold HandleEnable, with_ti. destruct (inv_UpdateFocus (focused_surface_ r) _ Hi) as (H1 & _ & _).
  destruct (find_ti i _); [|done]. destruct (negb _); [done|]. by apply inv_Activate.
Qed.

Lemma inv_HandleCommit i r : inv [] None r -> inv [] None (HandleCommit i r).
Proof.
  intros Hi. unfold HandleCommit, with_ti. destruct (find_ti i r); [|done]. destruct (_ || _); [done|].
  eapply inv_aside; [apply aside_popups|]. destruct (bool_decide _); [|done].
  eapply inv_aside; [apply aside_SendState|done].
Qed.

(** The text input that was being disabled is not active any more. *)
Lemma inv_HandleDisable D i r : inv [] D r -> D = None \/ D = Some i ->
  inv [] None (HandleDisable i r) /\ active_text_input_ (HandleDisable i r) <> Some i /\
  pending_text_input_ (HandleDisable i r) <> Some i.
Proof.
  intros Hi HD. unfold HandleDisable.
  set (r1 := if bool_decide (pending_text_input_ r = Some i) then _ else r).
  assert (H1 : inv [] D r1 /\ pending_text_input_ r1 <> Some i).
  { subst r1. destruct (bool_decide _) eqn:Ep; [|by apply bool_decide_eq_false in Ep].
    split; [|done]. destruct Hi as [I A T Ac P M]. by split. }
  clearbody r1. destruct H1 as (H1 & Hp).
  destruct (bool_decide (active_text_input_ r1 = Some i)) eqn:Ea.
  - destruct (inv_Deactivate _ _ i _ H1) as (H2 & Hs & Hact). rewrite Ea in Hact.
    split_and!; [|congruence|by rewrite (si_pending _ _ Hs)].
    destruct H2 as [I A T Ac P M]. split; try done. by rewrite Hact.
  - apply bool_decide_eq_false in Ea. split_and!; [|done|done].
    destruct H1 as [I A T Ac P M]. split; try done. intros a Ha.
    destruct (Ac a Ha) as (Him & t & Ht & Hti & He & Hn & Hf). split; [done|]. exists t.
    split_and!; try done. destruct He as [?|He]; [by left|]. destruct HD; congruence.
Qed.

Lemma inv_HandleDestroy D i r : inv [] D r -> D = None \/ D = Some i -> inv [] None (HandleDestroy i r).
Proof.
  intros Hi HD. unfold HandleDestroy. destruct (inv_HandleDisable _ _ _ Hi HD) as (H1 & Ha & Hp).
  set (r1 := HandleDisable i r) in *. clearbody r1. destruct H1 as [I A T Ac P M].
  assert (Hin : forall t, t ∈ List.filter (fun t => negb (ti_id t =? i)%nat) (text_inputs_ r1) <->
    t ∈ text_inputs_ r1 /\ ti_id t <> i).
  { intros t. rewrite !list_elem_of_In, List.filter_In, negb_true_iff, Nat.eqb_neq. done. }
  split; try done; simpl.
  - clear -I. induction (text_inputs_ r1) as [|t l IH]; simpl in *; [done|].
    apply NoDup_cons in I as [Hn I]. destruct (negb _); simpl; [|by apply IH]. apply NoDup_cons. split; [|by apply IH].
    intros (u & Eu & Hu)%list_elem_of_fmap. apply Hn, list_elem_of_fmap. exists u. split; [done|].
    rewrite list_elem_of_In in *. by apply List.filter_In in Hu as [? _].
  - intros t [Ht _]%Hin. by apply T.
  - intros a Ha'. destruct (Ac a Ha') as (Him & t & Ht & Hti & He). split; [done|]. exists t.
    split; [apply Hin; split; congruence|done].
  - intros p Hp'. pose proof (P p Hp') as (t & -> & Ht)%list_elem_of_fmap. apply list_elem_of_fmap.
    exists t. split; [done|]. apply Hin. split; congruence.
Qed.

(** *** Requests *)

Lemma active_is R D i r t : inv R D r -> active_text_input_ r = Some i -> t ∈ text_inputs_ r -> ti_id t = i ->
  (Enabled t = true \/ D = Some i) /\ relay_focused_surface_ t <> None /\
  (relay_focused_surface_ t = focused_surface_ r \/ i ∈ R).
Proof.
  intros Hi Ha Ht Hti. destruct (in_active _ _ _ Hi i Ha) as (_ & u & Hu & Hui & Hu').
  destruct (find_ti i r) as [v|] eqn:Ev; [|by apply (find_ti_None _ _ _ Ev) in Ht].
  rewrite (find_ti_unique _ _ _ _ _ _ Hi Ev Ht Hti). by rewrite (find_ti_unique _ _ _ _ _ _ Hi Ev Hu Hui) in Hu'.
Qed.

Lemma inv_on_v3 D g i r : inv [] None r ->
  (forall h, v3_focused_surface (g h) = v3_focused_surface h \/ v3_focused_surface (g h) = None) ->
  (forall h, current_enabled h = true -> current_enabled (g h) = true) \/ D = Some i ->
  inv [] D (on_v3 g i r).
Proof.
  intros Hi Hg He. eapply inv_upd; [exact Hi|by intros ? ?%elem_of_nil|by right; right|].
  intros t Ht Hti. destruct (in_inputs _ _ _ Hi t Ht) as [Tf To Te]. rewrite Hti in Tf.
  destruct (ti_endpoint t) as [l|[h|]] eqn:Ee; simpl; (split; [done|]); split.
  1, 3, 5: split; simpl; rewrite ?Ee; try done; destruct (Hg h) as [-> | ->]; auto.
  all: intros Ha; destruct (active_is _ _ _ _ _ Hi Ha Ht Hti) as (Hen & Hn & Hf);
    split_and!; try done; (destruct Hen as [Hen|]; [|done]); unfold Enabled in *; simpl; rewrite Ee in *;
    try (by left); destruct He; auto.
Qed.

Lemma inv_on_legacy D g i r : inv [] None r ->
  (forall t l f, t ∈ text_inputs_ r -> ti_id t = i -> ti_endpoint t = OldInput l ->
    surface_ (g l) = Some f -> surface_ l = Some f \/ surface_client f = ti_client t) ->
  (forall l, enabled_ l = true -> enabled_ (g l) = true) \/ D = Some i ->
  inv [] D (on_legacy g i r).
Proof.
  intros Hi Hg He. eapply inv_upd; [exact Hi|by intros ? ?%elem_of_nil|by right; right|].
  intros t Ht Hti. destruct (in_inputs _ _ _ Hi t Ht) as [Tf To Te]. rewrite Hti in Tf.
  destruct (ti_endpoint t) as [l|h] eqn:Ee; simpl; (split; [done|]); split.
  1, 3: split; simpl; rewrite ?Ee; try done; intros f Hf; destruct (Hg t l f Ht Hti Ee Hf); auto.
  all: intros Ha; destruct (active_is _ _ _ _ _ Hi Ha Ht Hti) as (Hen & Hn & Hf);
    split_and!; try done; (destruct Hen as [Hen|]; [|done]); unfold Enabled in *; simpl; rewrite Ee in *;
    try (by left); destruct He; auto.
Qed.

Lemma inv_commit i r : inv [] None r -> inv [] None (text_input_commit surface_client i r).
Proof.
  intros Hi. unfold text_input_commit. destruct (find_ti i r) as [t|] eqn:Et; [|done]. simpl.
  destruct (find_ti_Some _ _ _ Et) as [Ht Hti].
  destruct (ti_endpoint t) as [l|[h|]] eqn:Ee; try done.
  destruct (pending_enabled h) eqn:Ep.
  - assert (H1 : inv [] None (on_v3 commit_pending i r)).
    { eapply inv_upd; [exact Hi|by intros ? ?%elem_of_nil|by left|].
      intros u Hu Hui. rewrite (find_ti_unique _ _ _ _ _ _ Hi Et Hu Hui), Ee.
      destruct (in_inputs _ _ _ Hi t Ht) as [Tf To Te]. rewrite Ee in Te. rewrite Hti in Tf.
      split; [done|]. split; [by split|]. intros Ha.
      destruct (active_is _ _ _ _ _ Hi Ha Ht Hti) as (_ & Hn & Hf). split_and!; try done. left. exact Ep. }
    rewrite andb_true_r, andb_false_r. destruct (negb _); [|by apply inv_HandleCommit].
    apply inv_HandleEnable, inv_on_v3; auto.
  - rewrite andb_false_r. cbn [negb]. rewrite andb_true_r.
    assert (H1 : inv [] (Some i) (on_v3 commit_pending i r)) by (apply inv_on_v3; auto).
    destruct (current_enabled h) eqn:Ec.
    + eapply inv_HandleDisable; [|by right].
      eapply inv_upd; [exact H1|by intros ? ?%elem_of_nil|by left|].
      intros u Hu Hui. destruct (in_inputs _ _ _ H1 u Hu) as [Tf To Te]. rewrite Hui in Tf.
      destruct (ti_endpoint u) as [l|[k|]] eqn:Eu; (split; [done|]); (split; [by split; simpl; rewrite ?Eu|]);
        intros Ha; destruct (active_is _ _ _ _ _ H1 Ha Hu Hui) as (_ & Hn & Hf); split_and!; auto.
    + (* it was not enabled, so it is not active *)
      apply inv_HandleCommit. destruct H1 as [I A T Ac P M]. split; try done.
      intros a Ha. destruct (Ac a Ha) as (Him & u & Hu & Hui & He & Hn & Hf). split; [done|]. exists u.
      split_and!; try done. destruct He as [?|[= <-]]; [by left|].
      destruct (active_is _ _ _ _ _ Hi Ha Ht Hti) as ([He|He] & _); [|done].
      unfold Enabled in He. rewrite Ee in He. congruence.
Qed.

Lemma inv_destroy_v3 i r : inv [] None r -> inv [] None (text_input_destroy i r).
Proof.
  intros Hi. unfold text_input_destroy. destruct (find_ti i r) as [t|] eqn:Et; [|done]. simpl.
  destruct (ti_endpoint t) as [l|[h|]]; try done.
  eapply inv_HandleDestroy; [|by right]. eapply (inv_upd _ _ _ (Some i)); [exact Hi|by intros ? ?%elem_of_nil|by right; right|].
  intros u Hu Hui. destruct (in_inputs _ _ _ Hi u Hu) as [Tf To Te]. rewrite Hui in Tf.
  split; [done|]. split; [by split|]. intros Ha.
  destruct (active_is _ _ _ _ _ Hi Ha Hu Hui) as (_ & Hn & Hf). split_and!; auto.
Qed.

(** The new objects of the three versions. *)
Inductive fresh_input : TextInput -> Prop :=
| fresh_v1 id client : fresh_input (new_v1 id client)
| fresh_v2 id client seat : fresh_input (new_v2 id client seat)
| fresh_v3 id client seat : fresh_input (new_v3 id client seat).

Lemma fresh_ok F P t : fresh_input t -> ti_ok F P t /\ relay_focused_surface_ t = None.
Proof. intros []; (split; [split|]); simpl; auto; done. Qed.

Lemma inv_add t r : inv [] None r -> find_ti (ti_id t) r = None -> fresh_input t ->
  inv [] None (AddTextInput surface_client t r).
Proof.
  intros Hi Hn Hfresh. unfold AddTextInput. destruct (_ && _); [done|].
  set (r1 := r <{ text_inputs_ ::= fun l => l ++ [t] }>).
  assert (H1 : inv [] None r1).
  { destruct Hi as [I A T Ac P M]. split; try done; simpl.
    - rewrite map_app. apply NoDup_app. split_and!; [done| |apply NoDup_singleton].
      intros x (u & -> & Hu)%list_elem_of_fmap Hx. apply list_elem_of_singleton in Hx.
      by apply (find_ti_None _ _ _ Hn) in Hu.
    - intros u [Hu|Hu%list_elem_of_singleton]%elem_of_app; [by apply T|]. subst u. by apply fresh_ok.
    - intros a Ha. destruct (Ac a Ha) as (Him & u & Hu & Hu'). split; [done|]. exists u.
      split; [apply elem_of_app; by left|done].
    - intros p Hp. rewrite map_app. apply elem_of_app. left. by apply P. }
  destruct (focused_surface_ r) as [f|] eqn:Ef; simpl; rewrite Ef; simpl; [|done].
  destruct (MatchesSurface _ _ t) eqn:Em; [|done].
  assert (Et : find_ti (ti_id t) r1 = Some t).
  { destruct (find_ti (ti_id t) r1) as [u|] eqn:Eu.
    - f_equal. symmetry. eapply find_ti_unique; [exact H1|exact Eu| |done]. simpl. apply elem_of_app. right. left.
    - exfalso. eapply find_ti_None; [exact Eu| |done]. simpl. apply elem_of_app. right. left. }
  destruct (fresh_ok (Some f) False t Hfresh) as [Hok Hrf].
  destruct (SendEnter_spec _ _ _ _ Hok Hrf Em) as (t' & ms & Es & Eid & Hok').
  fold r1. rewrite (perform_upd _ _ _ _ _ _ _ Et Es) by congruence.
  apply inv_log. eapply inv_upd; [exact H1|by intros ? ?%elem_of_nil|by left|].
  intros u Hu Hui. assert (u = t) as -> by (by eapply find_ti_unique). split; [simpl; congruence|].
  change (focused_surface_ r1) with (focused_surface_ r). rewrite Ef. split; [apply Hok'|].
  intros Ha. destruct (active_is _ _ _ _ _ H1 Ha Hu eq_refl) as (_ & Hnn & _). congruence.
Qed.

Lemma inv_new_im im r : inv [] None r -> inv [] None (OnNewInputMethod surface_client im r).
Proof.
  intros Hi. unfold OnNewInputMethod. destruct (input_method_ r) as [im'|] eqn:Eim.
  { eapply inv_aside; [apply aside_say; quiet_tac|done]. }
  set (r1 := (r <{ input_method_ := Some im }>) <{ im_log := [] }>).
  assert (H1 : inv [] None r1).
  { assert (Ha : active_text_input_ r = None).
    { destruct (active_text_input_ r) eqn:Ea; [|done]. by destruct (in_active _ _ _ Hi _ Ea). }
    destruct Hi as [I A T Ac P M]. split; try done; simpl; by rewrite Ha. }
  destruct (inv_UpdateFocus (focused_surface_ r1) _ H1) as (H2 & _ & _).
  set (r2 := UpdateFocus _ _ r1) in *. clearbody r2.
  set (c := match pending_text_input_ r2 with Some _ => _ | None => _ end). clearbody c.
  assert (H3 : inv [] None (r2 <{ pending_text_input_ := None }>)) by (destruct H2 as [I A T Ac P M]; by split).
  destruct c as [c|]; [by apply inv_Activate|done].
Qed.

Lemma inv_im_gone r : inv [] None r -> inv [] None (OnInputMethodDestroy r).
Proof.
  intros [I A T Ac P M]. split; try done. simpl. intros p Hp.
  destruct (Ac p Hp) as (_ & t & Ht & <- & _). apply list_elem_of_fmap. eauto.
Qed.

Lemma inv_im_commit r : inv [] None r -> inv [] None (OnInputMethodCommit r).
Proof.
  intros Hi. unfold OnInputMethodCommit, with_ti. destruct (input_method_ r); [|done].
  destruct (active_text_input_ r) as [a|]; [|done]. destruct (find_ti a r); [by apply inv_log|done].
Qed.

(** Requests of the older versions. *)
Lemma inv_with_legacy i f r : inv [] None r ->
  (forall t l, find_ti i r = Some t -> ti_endpoint t = OldInput l -> inv [] None (f t l r)) ->
  inv [] None (with_legacy i f r).
Proof.
  intros Hi Hf. unfold with_legacy, with_ti. destruct (find_ti i r) as [t|] eqn:Et; [|done].
  destruct (ti_endpoint t) as [l|h] eqn:Ee; [|done]. destruct (resource_ l); [by apply Hf|done].
Qed.

Lemma inv_plain g i r : inv [] None r -> (forall l, surface_ (g l) = surface_ l) ->
  (forall l, enabled_ (g l) = enabled_ l) -> inv [] None (on_legacy g i r).
Proof.
  intros Hi Hs He. apply inv_on_legacy; [done| |left; intros l; by rewrite He].
  intros t l f _ _ _. rewrite Hs. by left.
Qed.

Lemma inv_enable_legacy g i surface t r : inv [] None r -> find_ti i r = Some t ->
  surface_client surface = ti_client t -> (forall l, surface_ (g l) = Some surface /\ enabled_ (g l) = true) ->
  inv [] None (HandleEnable surface_client i (on_legacy g i r)).
Proof.
  intros Hi Et Hc Hg. apply inv_HandleEnable, inv_on_legacy; [done| |left; intros l _; apply Hg].
  intros u l f Hu Hui _. rewrite (proj1 (Hg l)). intros [= <-]. right.
  by rewrite (find_ti_unique _ _ _ _ _ _ Hi Et Hu Hui).
Qed.

Lemma inv_disable_legacy g k i r : inv [] None r -> (forall l, surface_ (g l) = surface_ l \/ surface_ (g l) = None) ->
  (forall l, surface_ (k l) = None /\ enabled_ (k l) = enabled_ l) ->
  inv [] None (on_legacy k i (HandleDisable i (on_legacy g i r))).
Proof.
  intros Hi Hg Hk. apply inv_on_legacy; [|by intros ? ? ? _ _ _; rewrite (proj1 (Hk _))|left; intros l; by rewrite (proj2 (Hk l))].
  eapply inv_HandleDisable; [|by right]. apply inv_on_legacy; [done| |by right].
  intros u l f _ _ _. destruct (Hg l) as [-> | ->]; [by left|done].
Qed.

Lemma inv_inert_legacy g i r : inv [] None r -> (forall l, surface_ (g l) = surface_ l \/ surface_ (g l) = None) ->
  inv [] None (HandleDestroy i (on_legacy g i r)).
Proof.
  intros Hi Hg. eapply inv_HandleDestroy; [|by right]. apply inv_on_legacy; [done| |by right].
  intros u l f _ _ _. destruct (Hg l) as [-> | ->]; [by left|done].
Qed.

Lemma inv_surface_gone f r : inv [] None r -> inv [] None (OnSurfaceDestroy f r).
Proof.
  unfold OnSurfaceDestroy, each_ti. generalize (map ti_id (text_inputs_ r)) as L. intros L. revert r.
  induction L as [|i L IH]; intros r Hi; simpl; [done|]. apply IH. unfold surface_gone_one, with_ti.
  destruct (find_ti i r) as [t|] eqn:Et; [|done]. destruct (ti_endpoint t) as [l|[h|]] eqn:Ee; [| |done].
  - destruct (bool_decide _); [|done]. destruct (lg_v2 l); [|apply inv_inert_legacy; auto].
    apply inv_on_legacy; [done|done|by left].
  - destruct (bool_decide _); [|done]. apply inv_on_v3; auto.
Qed.

(** ** Everything that happens to the relay *)

Inductive relay_step (r : InputMethodRelay) : InputMethodRelay -> Prop :=
| rs_new t : find_ti (ti_id t) r = None -> fresh_input t -> relay_step r (AddTextInput surface_client t r)
| rs_focus f : relay_step r (UpdateFocus surface_client f r)
| rs_surface_gone f : relay_step r (OnSurfaceDestroy f r)
(* the input method, its popups, and where the scene shows things *)
| rs_im im : relay_step r (OnNewInputMethod surface_client im r)
| rs_im_state im : relay_step r (r <{ input_method_ ::= fmap (fun _ => im) }>)
| rs_im_commit : relay_step r (OnInputMethodCommit r)
| rs_im_gone : relay_step r (OnInputMethodDestroy r)
| rs_popup p : relay_step r (OnInputMethodNewPopup p r)
| rs_popup_state ps p : relay_step r (UpdatePopup p (r <{ popups_ := ps }>))
| rs_popup_gone p : relay_step r (RemovePopup p r)
| rs_scene pos out : relay_step r (r <{ surface_position := pos }> <{ output_box_at := out }>)
(* text-input-v3 *)
| rs_enable i : relay_step r (text_input_enable i r)
| rs_disable i : relay_step r (text_input_disable i r)
| rs_surrounding text c a i : relay_step r (text_input_set_surrounding_text text c a i r)
| rs_cause c i : relay_step r (text_input_set_text_change_cause c i r)
| rs_content h p i : relay_step r (text_input_set_content_type h p i r)
| rs_rectangle b i : relay_step r (text_input_set_cursor_rectangle b i r)
| rs_commit i : relay_step r (text_input_commit surface_client i r)
| rs_destroy i : relay_step r (text_input_destroy i r)
(* text-input-v1 and v2 *)
| rs_v1_activate i seat f : relay_step r (V1_Activate surface_client i seat f r)
| rs_v1_deactivate i seat : relay_step r (V1_Deactivate i seat r)
| rs_v1_reset i : relay_step r (V1_Reset i r)
| rs_v2_enable i f : relay_step r (V2_Enable surface_client i f r)
| rs_v2_disable i f : relay_step r (V2_Disable i f r)
| rs_old_surrounding text c a i : relay_step r (SetSurroundingText text c a i r)
| rs_old_content h p i : relay_step r (SetContentType h p i r)
| rs_old_rectangle b i : relay_step r (SetCursorRectangle b i r)
| rs_old_commit n i : relay_step r (CommitState n i r)
| rs_old_destroy i : relay_step r (OnResourceDestroy i r)
| rs_old_seat_gone i : relay_step r (OnSeatDestroy i r).

Lemma inv_step r r' : relay_step r r' -> inv [] None r -> inv [] None r'.
Proof.
  intros [] Hi.
  - by apply inv_add.
  - by apply inv_UpdateFocus.
  - by apply inv_surface_gone.
  - by apply inv_new_im.
  - destruct Hi as [I A T Ac P M]. split; try done; simpl.
    + intros a Ha. destruct (Ac a Ha) as (Him & Ht). split; [by destruct (input_method_ r)|done].
    + intros Him. apply M. by destruct (input_method_ r).
  - by apply inv_im_commit.
  - by apply inv_im_gone.
  - eapply inv_aside; [|exact Hi]. etransitivity; [apply aside_move|apply aside_popup].
  - eapply inv_aside; [|exact Hi]. etransitivity; [apply aside_move|apply aside_popup].
  - eapply inv_aside; [apply aside_move|exact Hi].
  - destruct Hi as [I A T Ac P M]. by split.
  - apply inv_on_v3; auto.
  - apply inv_on_v3; auto.
  - apply inv_on_v3; auto.
  - apply inv_on_v3; auto.
  - apply inv_on_v3; auto.
  - apply inv_on_v3; auto.
  - by apply inv_commit.
  - by apply inv_destroy_v3.
  - apply inv_with_legacy; [done|]. intros t l Et _. destruct (_ || _) eqn:E; [done|].
    apply orb_false_iff in E as [_ E%negb_false_iff%Nat.eqb_eq]. by eapply inv_enable_legacy.
  - apply inv_with_legacy; [done|]. intros t l Et _. destruct (_ || _); [done|]. apply inv_disable_legacy; auto.
  - apply inv_with_legacy; [done|]. intros t l Et _. destruct (lg_v2 l); [done|]. by apply inv_plain.
  - apply inv_with_legacy; [done|]. intros t l Et _. destruct (_ || _) eqn:E; [done|].
    apply orb_false_iff in E as [_ E%negb_false_iff%Nat.eqb_eq]. by eapply inv_enable_legacy.
  - apply inv_with_legacy; [done|]. intros t l Et _. destruct (_ || _); [done|]. apply inv_disable_legacy; auto.
  - apply inv_with_legacy; [done|]. intros. by apply inv_plain.
  - apply inv_with_legacy; [done|]. intros. by apply inv_plain.
  - apply inv_with_legacy; [done|]. intros. by apply inv_plain.
  - apply inv_with_legacy; [done|]. intros t l Et _.
    assert (H1 : inv [] None (HandleCommit i (on_legacy (fun l => l <{ serial_ := n }>) i r)))
      by (apply inv_HandleCommit; by apply inv_plain).
    destruct (lg_v2 l); [by apply inv_plain|done].
  - apply inv_with_legacy; [done|]. intros. apply inv_inert_legacy; auto.
  - apply inv_with_legacy; [done|]. intros. apply inv_inert_legacy; auto.
Qed.

Definition initial_relay (seat : nat) (focus : option nat) (pos : nat -> option (Z * Z))
    (out : Z -> Z -> wlr_box) : InputMethodRelay :=
  Relay seat None focus None None [] [] pos out [] [] true.

Lemma inv_reachable seat focus pos out r :
  rtc relay_step (initial_relay seat focus pos out) r -> inv [] None r.
Proof.
  assert (H0 : inv [] None (initial_relay seat focus pos out))
    by (split; simpl; try done; [apply NoDup_nil_2|by intros ? ?%elem_of_nil]).
  revert H0. generalize (initial_relay seat focus pos out) as r0. intros r0 H0 Hr.
  induction Hr; [done|]. eauto using inv_step.
Qed.

(** ** Who is told what

    Only a commit of the input method sends text; everything else sends enters and
    leaves. And a text input in the relay's list can still be sent to. *)

Definition is_text (m : ti_msg) : bool :=
  match m with TiEnter _ _ | TiLeave _ _ => false | _ => true end.

(** No text is sent, and no text input loses its object, except [D], which is being
    destroyed. *)
Record hush (D : option nat) (r r' : InputMethodRelay) : Prop := {
  hu_log : exists ms, ti_log r' = ti_log r ++ ms /\ Forall (fun p => is_text (snd p) = false) ms;
  hu_live : forall t', t' ∈ text_inputs_ r' -> Client t' = None ->
    D = Some (ti_id t') \/ exists t, t ∈ text_inputs_ r /\ ti_id t = ti_id t' /\ Client t = None }.

#[export] Instance hush_preorder D : PreOrder (hush D).
Proof.
  split.
  - intros r. split; [|by eauto]. exists []. rewrite app_nil_r. auto.
  - intros r1 r2 r3 [(ms & E & F) L] [(ms' & E' & F') L']. split.
    + exists (ms ++ ms'). rewrite E', E, app_assoc. split; [done|by apply Forall_app_2].
    + intros t' Ht Hc. destruct (L' t' Ht Hc) as [?|(u & Hu & Hi & Hn)]; [by left|].
      destruct (L u Hu Hn) as [Hd|(v & Hv & Hj & Hm)]; [left; congruence|right; exists v; split_and!; congruence].
Qed.

Lemma hush_any D r r' : hush None r r' -> hush D r r'.
Proof. intros [A L]. split; [done|]. intros t' Ht Hc. destruct (L t' Ht Hc) as [?|?]; [done|by right]. Qed.

Lemma hush_same D r r' : ti_log r' = ti_log r -> text_inputs_ r' = text_inputs_ r -> hush D r r'.
Proof. intros El Et. split; [exists []; rewrite app_nil_r; auto|]. rewrite Et. by eauto. Qed.

Lemma hush_aside D r r' : aside r r' -> hush D r r'.
Proof. intros (ps & ms & _ & ->). by apply hush_same. Qed.

Lemma hush_upd D i f r :
  (forall t, t ∈ text_inputs_ r -> ti_id t = i -> ti_id (f t) = i /\ (Client (f t) = None -> Client t = None \/ D = Some i)) ->
  hush D r (upd_ti i f r).
Proof.
  intros Hf. split; [exists []; rewrite app_nil_r; auto|]. intros t' (u & Hu & ->)%upd_ti_elem Hc.
  destruct (ti_id u =? i)%nat eqn:E; [apply Nat.eqb_eq in E|by eauto].
  destruct (Hf u Hu E) as [Hid Hl]. rewrite Hid. destruct (Hl Hc); [|by left].
  right. exists u. split_and!; congruence.
Qed.

Lemma hush_perform D i f r :
  (forall t, ti_id (fst (fst (f t))) = ti_id t /\ Client (fst (fst (f t))) = Client t /\
    Forall (fun m => is_text m = false) (snd (fst (f t)))) ->
  hush D r (perform i f r).
Proof.
  intros Hf. unfold perform, with_ti. destruct (find_ti i r) as [t|] eqn:Et; [|done].
  destruct (find_ti_Some _ _ _ Et) as [Ht Hti]. specialize (Hf t).
  destruct (f t) as [[t' ms] ok]. simpl in Hf. destruct Hf as (Hid & Hc & Hm).
  split; [exists (map (pair i) ms); split; [done|by apply Forall_fmap]|].
  simpl. intros u' (u & -> & Hu)%list_elem_of_fmap Hn. destruct (ti_id u =? i)%nat; right; [|by eauto].
  exists t. split_and!; congruence.
Qed.

Lemma hush_leave D i r : hush D r (perform i SendLeave r).
Proof.
  apply hush_perform. intros t. unfold SendLeave, Client. destruct (ti_endpoint t) as [l|[h|]] eqn:Ee.
  - destruct (_ || _); simpl; rewrite ?Ee; (split_and!; [done|done|]); repeat constructor. by destruct (lg_v2 l).
  - destruct (bool_decide _); simpl; rewrite ?Ee; (split_and!; [done|done|]); repeat constructor.
  - simpl. rewrite Ee. split_and!; [done|done|constructor].
Qed.

Lemma hush_enter D i surface r : hush D r (perform i (SendEnter surface_client surface) r).
Proof.
  apply hush_perform. intros t. unfold SendEnter, Client. destruct (ti_endpoint t) as [l|[h|]] eqn:Ee, surface as [f|];
    try (simpl; rewrite Ee; split_and!; [done|done|constructor]).
  - destruct (_ || _); simpl; rewrite ?Ee; (split_and!; [done|done|]); repeat constructor.
  - simpl. split_and!; [done|done|]. repeat constructor.
Qed.

Lemma hush_relay_focus D i f r : hush D r (upd_ti i (set_relay_focus f) r).
Proof. apply hush_upd. intros t Ht Hi. by split; [|left]. Qed.

Lemma hush_Deactivate D i r : hush D r (Deactivate i r).
Proof.
  unfold Deactivate. set (r1 := if _ && _ then _ else r).
  assert (H1 : hush D r r1).
  { subst r1. destruct (_ && _); [|done]. etransitivity; [|apply hush_aside, aside_SendState]. by apply hush_same. }
  clearbody r1. destruct (bool_decide _); [|exact H1]. etransitivity; [exact H1|by apply hush_same].
Qed.

Lemma hush_Activate D i r : hush D r (Activate i r).
Proof.
  unfold Activate, with_ti. destruct (find_ti i r); [|done]. destruct (_ || _); [done|].
  destruct (input_method_ r); [|by apply hush_same].
  set (r1 := match active_text_input_ r with Some a => _ | None => r end).
  assert (H1 : hush D r r1).
  { subst r1. destruct (active_text_input_ r) as [a|]; [|done]. destruct (a =? i)%nat; [done|]. apply hush_Deactivate. }
  etransitivity; [exact H1|]. etransitivity; [|apply hush_aside, aside_SendState]. by apply hush_same.
Qed.

Lemma hush_each D f r : (forall i r, hush D r (f i r)) -> hush D r (each_ti f r).
Proof.
  intros Hf. unfold each_ti. generalize (map ti_id (text_inputs_ r)) as L. intros L. revert r.
  induction L as [|i L IH]; intros r; simpl; [done|]. etransitivity; [apply Hf|apply IH].
Qed.

Lemma hush_UpdateFocus D surface r : hush D r (UpdateFocus surface_client surface r).
Proof.
  unfold UpdateFocus. etransitivity; [|apply hush_aside, aside_popups].
  set (r1 := each_ti (leave_one surface) _). set (r2 := each_ti (enter_one surface_client surface) r1).
  assert (H1 : hush D r r1).
  { etransitivity; [|apply hush_each]; [by apply (hush_same D r (r <{ focused_surface_ := surface }>))|].
    intros i r'. unfold leave_one, with_ti. destruct (find_ti i r'); [|done]. destruct (_ && _); [|done].
    etransitivity; [|apply hush_relay_focus]. etransitivity; [|apply hush_leave].
    destruct (bool_decide _); [apply hush_Deactivate|done]. }
  assert (H2 : hush D r1 r2).
  { apply hush_each. intros i r'. unfold enter_one, with_ti. destruct (find_ti i r'); [|done].
    destruct (_ && _); [|done]. etransitivity; [|apply hush_relay_focus]. apply hush_enter. }
  etransitivity; [exact H1|]. etransitivity; [exact H2|].
  destruct (focus_candidate surface r2) as [c|]; [|done]. destruct (_ && _); [apply hush_Activate|done].
Qed.

Lemma hush_HandleEnable D i r : hush D r (HandleEnable surface_client i r).
Proof.
  unfold HandleEnable, with_ti. etransitivity; [apply hush_UpdateFocus|].
  destruct (find_ti _ _); [|done]. destruct (negb _); [done|apply hush_Activate].
Qed.

Lemma hush_HandleCommit D i r : hush D r (HandleCommit i r).
Proof.
  unfold HandleCommit, with_ti. destruct (find_ti i r); [|done]. destruct (_ || _); [done|].
  etransitivity; [|apply hush_aside, aside_popups]. destruct (bool_decide _); [|done].
  apply hush_aside, aside_SendState.
Qed.

Lemma hush_HandleDisable D i r : hush D r (HandleDisable i r).
Proof.
  unfold HandleDisable. set (r1 := if bool_decide _ then _ else r).
  assert (H1 : hush D r r1) by (subst r1; destruct (bool_decide _); [by apply hush_same|done]).
  clearbody r1. destruct (bool_decide _); [|exact H1]. etransitivity; [exact H1|apply hush_Deactivate].
Qed.

(** The one that is destroyed leaves the list. *)
Lemma hush_HandleDestroy i r r' : hush (Some i) r r' -> hush None r (HandleDestroy i r').
Proof.
  intros H0. assert (H1 : hush (Some i) r (HandleDisable i r')) by (etransitivity; [exact H0|apply hush_HandleDisable]).
  destruct H1 as [(ms & E & F) L]. split; [by exists ms|]. simpl. intros t' Ht Hc.
  rewrite list_elem_of_In, List.filter_In, <- list_elem_of_In in Ht. destruct Ht as [Ht Hne%negb_true_iff%Nat.eqb_neq].
  destruct (L t' Ht Hc) as [[= ?]|?]; [congruence|by right].
Qed.

Lemma hush_on_v3 D g i r : hush D r (on_v3 g i r).
Proof.
  apply hush_upd. intros t _ <-. unfold Client. destruct (ti_endpoint t) as [l|[h|]] eqn:Ee; simpl; rewrite ?Ee; auto.
Qed.

Lemma hush_on_legacy D g i r : (forall l, resource_ (g l) = resource_ l) \/ D = Some i -> hush D r (on_legacy g i r).
Proof.
  intros Hg. apply hush_upd. intros t _ <-. unfold Client.
  destruct (ti_endpoint t) as [l|h] eqn:Ee; simpl; rewrite ?Ee; (split; [done|]); [|auto].
  destruct Hg as [Hg|Hd]; [rewrite Hg|]; auto.
Qed.

Lemma hush_with_legacy D i f r : (forall t l, hush D r (f t l r)) -> hush D r (with_legacy i f r).
Proof.
  intros Hf. unfold with_legacy, with_ti. destruct (find_ti i r) as [t|]; [|done].
  destruct (ti_endpoint t) as [l|h]; [|done]. by destruct (resource_ l).
Qed.

Lemma hush_add t r : fresh_input t -> hush None r (AddTextInput surface_client t r).
Proof.
  intros Ht. unfold AddTextInput. destruct (_ && _); [done|]. set (r1 := r <{ text_inputs_ ::= _ }>).
  assert (H1 : hush None r r1).
  { split; [exists []; rewrite app_nil_r; auto|]. intros u [Hu|Hu%list_elem_of_singleton]%elem_of_app Hc; [by eauto|].
    subst u. by destruct Ht. }
  destruct (_ && _); [|done]. etransitivity; [exact H1|].
  etransitivity; [apply hush_enter|apply hush_relay_focus].
Qed.

Lemma hush_new_im im r : hush None r (OnNewInputMethod surface_client im r).
Proof.
  unfold OnNewInputMethod. destruct (input_method_ r); [by apply hush_same|].
  set (r1 := (r <{ input_method_ := Some im }>) <{ im_log := [] }>). set (r2 := UpdateFocus _ _ r1).
  assert (H2 : hush None r r2) by (etransitivity; [by apply (hush_same _ r r1)|apply hush_UpdateFocus]).
  clearbody r2. cbv zeta. set (c := match pending_text_input_ r2 with Some p => Some p | None => _ end). clearbody c.
  assert (H3 : hush None r (r2 <{ pending_text_input_ := None }>)) by (etransitivity; [exact H2|by apply hush_same]).
  destruct c; [|exact H3]. etransitivity; [exact H3|apply hush_Activate].
Qed.

Lemma hush_surface_gone f r : hush None r (OnSurfaceDestroy f r).
Proof.
  apply hush_each. intros i r'. unfold surface_gone_one, with_ti. destruct (find_ti i r') as [t|]; [|done].
  destruct (ti_endpoint t) as [l|[h|]]; [| |done].
  - destruct (bool_decide _); [|done]. destruct (lg_v2 l); [by apply hush_on_legacy; left|].
    apply hush_HandleDestroy, hush_on_legacy. by right.
  - destruct (bool_decide _); [apply hush_on_v3|done].
Qed.

Lemma hush_commit i r : hush None r (text_input_commit surface_client i r).
Proof.
  unfold text_input_commit. destruct (_ <$> _) as [[l|[h|]]|]; try done. cbv zeta.
  etransitivity; [apply (hush_on_v3 _ commit_pending i)|]. destruct (negb _ && _).
  - etransitivity; [|apply hush_HandleEnable]. apply hush_on_v3.
  - destruct (_ && _); [|apply hush_HandleCommit]. etransitivity; [|apply hush_HandleDisable]. apply hush_on_v3.
Qed.

Lemma hush_destroy i r : hush None r (text_input_destroy i r).
Proof.
  unfold text_input_destroy. destruct (_ <$> _) as [[l|[h|]]|]; try done.
  apply hush_HandleDestroy, hush_upd. intros t _ <-. auto.
Qed.

Lemma hush_disable_legacy g k i r : (forall l, resource_ (g l) = resource_ l) -> (forall l, resource_ (k l) = resource_ l) ->
  hush None r (on_legacy k i (HandleDisable i (on_legacy g i r))).
Proof.
  intros Hg Hk. etransitivity; [|apply hush_on_legacy; by left]. etransitivity; [|apply hush_HandleDisable].
  apply hush_on_legacy. by left.
Qed.

(** Every step but the input method's commit is hushed. *)
Lemma hush_step r r' : relay_step r r' -> hush None r r' \/ r' = OnInputMethodCommit r.
Proof.
  intros []; try (left; apply hush_with_legacy; intros t l); try (by right); try left.
  - by apply hush_add.
  - apply hush_UpdateFocus.
  - apply hush_surface_gone.
  - apply hush_new_im.
  - by apply hush_same.
  - by apply hush_same.
  - apply hush_aside. etransitivity; [apply aside_move|apply aside_popup].
  - apply hush_aside. etransitivity; [apply aside_move|apply aside_popup].
  - apply hush_aside, aside_move.
  - by apply hush_same.
  - apply hush_on_v3.
  - apply hush_on_v3.
  - apply hush_on_v3.
  - apply hush_on_v3.
  - apply hush_on_v3.
  - apply hush_on_v3.
  - apply hush_commit.
  - apply hush_destroy.
  - destruct (_ || _); [done|]. etransitivity; [|apply hush_HandleEnable]. apply hush_on_legacy. by left.
  - destruct (_ || _); [done|]. by apply hush_disable_legacy.
  - destruct (lg_v2 l); [done|]. apply hush_on_legacy. by left.
  - destruct (_ || _); [done|]. etransitivity; [|apply hush_HandleEnable]. apply hush_on_legacy. by left.
  - destruct (_ || _); [done|]. by apply hush_disable_legacy.
  - apply hush_on_legacy. by left.
  - apply hush_on_legacy. by left.
  - apply hush_on_legacy. by left.
  - cbv zeta. set (r1 := HandleCommit _ _). assert (H1 : hush None r r1).
    { etransitivity; [|apply hush_HandleCommit]. apply hush_on_legacy. by left. }
    destruct (lg_v2 l); [|done]. etransitivity; [exact H1|]. apply hush_on_legacy. by left.
  - apply hush_HandleDestroy, hush_on_legacy. by right.
  - apply hush_HandleDestroy, hush_on_legacy. by right.
Qed.

(** What a commit adds to the log. *)
Lemma commit_inputs r : text_inputs_ (OnInputMethodCommit r) = text_inputs_ r.
Proof.
  unfold OnInputMethodCommit, with_ti. destruct (input_method_ r); [|done].
  destruct (active_text_input_ r) as [a|]; [|done]. by destruct (find_ti a r).
Qed.

Lemma commit_log r : exists ms, ti_log (OnInputMethodCommit r) = ti_log r ++ ms /\
  Forall (fun p => active_text_input_ r = Some (fst p)) ms.
Proof.
  assert (H0 : exists ms, ti_log r = ti_log r ++ ms /\ Forall (fun p => active_text_input_ r = Some (fst p)) ms)
    by (exists []; rewrite app_nil_r; auto).
  unfold OnInputMethodCommit, with_ti. destruct (input_method_ r); [|done].
  destruct (active_text_input_ r) as [a|] eqn:Ea; [|done]. destruct (find_ti a r) as [t|]; [|done].
  eexists. split; [reflexivity|]. apply Forall_fmap, Forall_forall. done.
Qed.

Lemma live_reachable seat focus pos out r t : rtc relay_step (initial_relay seat focus pos out) r ->
  t ∈ text_inputs_ r -> Client t <> None.
Proof.
  set (r0 := initial_relay seat focus pos out). intros Hr. revert t.
  assert (H0 : forall t, t ∈ text_inputs_ r0 -> Client t <> None) by (by intros t ?%elem_of_nil).
  clearbody r0. induction Hr as [|r1 r2 r3 Hs _ IH]; [done|]. apply IH. intros t Ht Hc.
  destruct (hush_step _ _ Hs) as [[_ L]| ->].
  - destruct (L t Ht Hc) as [?|(u & Hu & _ & Hn)]; [done|]. by apply (H0 u).
  - rewrite commit_inputs in Ht. by apply (H0 t).
Qed.

End Invariant.

Lemma Deactivate_logs i r im : input_method_ r = Some im ->
  text_inputs_ (Deactivate i r) = text_inputs_ r /\ input_method_ (Deactivate i r) = Some im /\
  exists ms, im_log (Deactivate i r) = im_log r ++ ms.
Proof.
  intros Him. unfold Deactivate. set (r1 := if _ && _ then _ else r).
  assert (H1 : text_inputs_ r1 = text_inputs_ r /\ input_method_ r1 = Some im /\ exists ms, im_log r1 = im_log r ++ ms).
  { subst r1. destruct (_ && _); [|split_and!; [done|done|exists []; by rewrite app_nil_r]].
    destruct (aside_SendState i (say_im [ImDeactivate] r)) as (ps & ms & _ & ->). simpl.
    split_and!; [done|done|]. rewrite <- app_assoc. eauto. }
  clearbody r1. by destruct (bool_decide _).
Qed.

(** The committed and the tentative texts among the messages to a client. *)
Definition committed (ms : list ti_msg) : list str :=
  omap (fun m => match m with TiCommitString s => Some s | _ => None end) ms.
Definition tentative (ms : list ti_msg) : list str :=
  omap (fun m => match m with TiPreedit s _ _ | TiPreeditString s => Some s | _ => None end) ms.

Lemma commit_sends r im a t : input_method_ r = Some im -> active_text_input_ r = Some a ->
  find_ti a r = Some t -> Client t <> None -> exists ms,
  ti_log (OnInputMethodCommit r) = ti_log r ++ map (pair a) ms /\
  committed ms = option_list (im_commit_text im) /\ tentative ms = option_list (fst <$> (fst <$> im_preedit im)).
Proof.
  intros Him Ha Et Hc. unfold OnInputMethodCommit, with_ti. rewrite Him, Ha, Et. eexists. split; [reflexivity|].
  unfold SendPreedit, SendCommit, SendDelete, SendDone, Client in *. clear Et.
  destruct (ti_endpoint t) as [l|[h|]]; [destruct (resource_ l)| |]; try done;
    destruct (im_preedit im) as [[[p b] e]|], (im_commit_text im) as [c|]; destruct (_ || _); done.
Qed.

(** C17. Typed text goes where the keyboard is. Through every sequence of requests of
    text inputs of all three versions, focus changes, surfaces and input methods
    coming and going: the text input the input method is connected to is alive,
    enabled and on the surface with the keyboard focus, which belongs to its client;
    a commit of the input method sends that text input exactly the committed and the
    tentative text, and no step whatever sends text (or the end of a group of it) to
    any other text input; the relay's other pointer does not dangle either; the input
    method has been activated and deactivated in turn and is active exactly while a
    text input is connected; and no assertion of wlroots fails. *)
Theorem text_reaches_focused_client (surface_client : nat -> nat) (seat : nat) (focus : option nat)
    (pos : nat -> option (Z * Z)) (out : Z -> Z -> wlr_box) (r : InputMethodRelay)
    (Hsteps : rtc (relay_step surface_client) (initial_relay seat focus pos out) r) :
  asserts_hold r = true /\
  (forall a, active_text_input_ r = Some a -> exists t f im,
    find_ti a r = Some t /\ Enabled t = true /\ focused_surface_ r = Some f /\
    relay_focused_surface_ t = Some f /\ surface_client f = ti_client t /\ input_method_ r = Some im /\
    exists ms, ti_log (OnInputMethodCommit r) = ti_log r ++ map (pair a) ms /\
      committed ms = option_list (im_commit_text im) /\
      tentative ms = option_list (fst <$> (fst <$> im_preedit im))) /\
  (forall r', relay_step surface_client r r' -> exists ms, ti_log r' = ti_log r ++ ms /\
    Forall (fun p => is_text (snd p) = true -> active_text_input_ r = Some (fst p)) ms) /\
  (forall p, pending_text_input_ r = Some p -> find_ti p r <> None) /\
  (input_method_ r <> None -> im_active (im_log r) = Some (bool_decide (active_text_input_ r <> None))).
Proof.
  apply inv_reachable in Hsteps as Hi. split_and!; [apply Hi| | | |apply Hi].
  - intros a Ha. destruct (in_active _ _ _ _ Hi a Ha) as (Him & t & Ht & Hti & [He|He] & Hn & [Hf|Hf]); try done;
      [|by apply elem_of_nil in Hf].
    assert (Et : find_ti a r = Some t).
    { destruct (find_ti a r) as [u|] eqn:Eu; [|by apply (find_ti_None _ _ _ Eu) in Ht].
      f_equal. symmetry. by eapply find_ti_unique. }
    destruct (relay_focused_surface_ t) as [f|] eqn:Ef; [|done]. destruct (input_method_ r) as [im|] eqn:Eim; [|done].
    exists t, f, im. split_and!; try done; [by apply (to_owner _ _ _ _ (in_inputs _ _ _ _ Hi t Ht))|].
    eapply commit_sends; eauto. by eapply live_reachable.
  - intros r' Hs. destruct (hush_step _ _ _ Hs) as [[(ms & E & F) _]| ->].
    + exists ms. split; [done|]. eapply Forall_impl; [exact F|]. intros p Hp. simpl. congruence.
    + destruct (commit_log r) as (ms & E & F). exists ms. split; [done|]. by eapply Forall_impl.
  - intros p Hp Hnone. pose proof (in_pending _ _ _ _ Hi p Hp) as (t & -> & Ht)%list_elem_of_fmap.
    by apply (find_ti_None _ _ _ Hnone) in Ht.
Qed.

(** ** Connecting *)

(** What the input method has to hear of a text input between its activation and the
    next [ImDone]. *)
Record hears (s : State) (ms : list im_msg) : Prop := {
  he_text : has_surrounding_text s = true ->
    ImSurroundingText (surrounding_text s) (surrounding_cursor s) (surrounding_anchor s) ∈ ms;
  he_cause : ImTextChangeCause (text_change_cause s) ∈ ms;
  he_content : has_content_type s = true -> ImContentType (content_hint s) (content_purpose s) ∈ ms;
  he_quiet : Forall quiet ms }.

Lemma hears_state s : exists ms, state_msgs s = ms ++ [ImDone] /\ hears s ms.
Proof.
  unfold state_msgs. destruct (has_surrounding_text s) eqn:Et, (has_content_type s) eqn:Ec; cbn [app];
    match goal with |- exists _, ?l = _ /\ _ => exists (removelast l) end;
    (split; [reflexivity|]); (split; [..|cbn [removelast]; quiet_tac]); rewrite ?Et, ?Ec; intros; try done;
    cbn [removelast]; set_solver.
Qed.

(** The input method was told that [t] is activated, and how it is. *)
Definition connected_anew (t : TextInput) (before after : list im_msg) : Prop :=
  exists ms st rest, after = before ++ ms ++ ImActivate :: st ++ ImDone :: rest /\
    hears (CurrentState t) st /\ Forall quiet rest.

Lemma Activate_active i r t im f : find_ti i r = Some t -> Enabled t = true -> input_method_ r = Some im ->
  focused_surface_ r = Some f -> relay_focused_surface_ t = Some f ->
  active_text_input_ (Activate i r) = Some i /\ connected_anew t (im_log r) (im_log (Activate i r)).
Proof.
  intros Et He Him Hf Hrf. unfold Activate, with_ti. rewrite Et, Hf, He, Hrf.
  rewrite (bool_decide_eq_false_2 (Some f = None)), (bool_decide_eq_true_2 (Some f = Some f)) by done.
  simpl. rewrite Him. set (r1 := match active_text_input_ r with Some a => _ | None => r end).
  assert (H1 : text_inputs_ r1 = text_inputs_ r /\ input_method_ r1 = Some im /\
    exists ms, im_log r1 = im_log r ++ ms).
  { subst r1. destruct (active_text_input_ r) as [a|]; [|split_and!; [done|done|exists []; by rewrite app_nil_r]].
    destruct (a =? i)%nat; [split_and!; [done|done|exists []; by rewrite app_nil_r]|]. apply Deactivate_logs, Him. }
  clearbody r1. destruct H1 as (Hti & Him1 & ms & Hms). set (r2 := say_im _ _).
  split; [by rewrite (proj2 (aside_same _ _ (aside_SendState i r2)))|].
  unfold SendState. simpl. rewrite Him1. unfold with_ti, find_ti. simpl. rewrite Hti.
  fold (find_ti i r). rewrite Et. destruct (aside_popups (say_im (state_msgs (CurrentState t)) r2)) as (ps & rest & Hq & ->).
  destruct (hears_state (CurrentState t)) as (st & Es & Hh). exists ms, st, rest. split; [|done].
  simpl. rewrite Es, Hms, <- !app_assoc. done.
Qed.

(** What leaving a surface changes. *)
Record partway (r r' : InputMethodRelay) : Prop := {
  pw_log : exists ms, im_log r' = im_log r ++ ms;
  pw_active : active_text_input_ r' = active_text_input_ r \/ active_text_input_ r' = None;
  pw_im : input_method_ r' = input_method_ r;
  pw_inputs : forall t', t' ∈ text_inputs_ r' -> exists t, t ∈ text_inputs_ r /\ ti_id t = ti_id t' /\
    (relay_focused_surface_ t' = relay_focused_surface_ t \/ relay_focused_surface_ t' = None) }.

#[export] Instance partway_preorder : PreOrder partway.
Proof.
  split.
  - intros r. split; [exists []; by rewrite app_nil_r|by left|done|by eauto].
  - intros r1 r2 r3 [(ms & E) A M L] [(ms' & E') A' M' L']. split.
    + exists (ms ++ ms'). by rewrite E', E, app_assoc.
    + destruct A' as [-> | ->]; auto.
    + congruence.
    + intros t' (u & Hu & Hi & Hr)%L'. destruct (L u Hu) as (v & Hv & Hj & Hs). exists v.
      split_and!; [done|congruence|]. destruct Hr as [-> | ->]; auto.
Qed.

Lemma partway_Deactivate i r : input_method_ r <> None -> partway r (Deactivate i r).
Proof.
  intros Him. destruct (input_method_ r) as [im|] eqn:E; [|done].
  destruct (Deactivate_logs i r im E) as (Hti & Hi & Hl). split; [done| |congruence|rewrite Hti; by eauto].
  unfold Deactivate. set (r1 := if _ && _ then _ else r).
  assert (H1 : active_text_input_ r1 = active_text_input_ r).
  { subst r1. destruct (_ && _); [|done]. by rewrite (proj2 (aside_same _ _ (aside_SendState i _))). }
  clearbody r1. destruct (bool_decide _); auto.
Qed.

Lemma partway_leave surface i r : input_method_ r <> None -> partway r (leave_one surface i r).
Proof.
  intros Him. unfold leave_one, with_ti. destruct (find_ti i r) as [t|]; [|done]. destruct (_ && _); [|done].
  set (r1 := if bool_decide _ then Deactivate i r else r).
  assert (H1 : partway r r1) by (subst r1; destruct (bool_decide _); [by apply partway_Deactivate|done]).
  etransitivity; [exact H1|]. clearbody r1. unfold perform, with_ti. destruct (find_ti i r1) as [u|] eqn:Eu.
  - destruct (find_ti_Some _ _ _ Eu) as [Hu Hui]. destruct (SendLeave u) as [[u' ms] ok] eqn:Es.
    split; [exists []; by rewrite app_nil_r|by left|done|]. simpl. rewrite map_map.
    assert (Hid : ti_id u' = i).
    { unfold SendLeave, wlr_text_input_v3_send_leave in Es. destruct (ti_endpoint u) as [l|[h|]];
        [destruct (_ || _)|destruct (bool_decide _)|]; injection Es; by intros _ _ <-. }
    intros t' (v & -> & Hv)%list_elem_of_fmap. exists v. split; [done|].
    destruct (ti_id v =? i)%nat eqn:E.
    + apply Nat.eqb_eq in E. rewrite Hid, Nat.eqb_refl. split; [by simpl; congruence|by right].
    + rewrite E. auto.
  - split; [exists []; by rewrite app_nil_r|by left|done|]. simpl.
    intros t' (v & -> & Hv)%list_elem_of_fmap. exists v. split; [done|]. destruct (_ =? i)%nat; auto.
Qed.

Lemma partway_leaves surface r : input_method_ r <> None -> partway r (each_ti (leave_one surface) r).
Proof.
  unfold each_ti. generalize (map ti_id (text_inputs_ r)) as L. intros L. revert r.
  induction L as [|i L IH]; intros r Him; simpl; [done|]. pose proof (partway_leave surface i r Him) as H1.
  etransitivity; [exact H1|]. apply IH. by rewrite (pw_im _ _ H1).
Qed.

Lemma enters_keep surface_client surface r :
  let r' := each_ti (enter_one surface_client surface) r in
  im_log r' = im_log r /\ active_text_input_ r' = active_text_input_ r.
Proof.
  unfold each_ti. generalize (map ti_id (text_inputs_ r)) as L. intros L. revert r.
  induction L as [|i L IH]; intros r; simpl; [done|]. destruct (IH (enter_one surface_client surface i r)) as [-> ->].
  unfold enter_one, with_ti, perform, with_ti. destruct (find_ti i r) as [t|]; [|done]. destruct (_ && _); [|done].
  by destruct (SendEnter _ _ t) as [[t' ms] ok].
Qed.

(** A text input still connected when the old surfaces have been left was so on the
    same surface. *)
Lemma still_connected surface_client r f a : inv surface_client [] None r -> input_method_ r <> None ->
  let r2 := each_ti (leave_one (Some f)) (r <{ focused_surface_ := Some f }>) in
  active_text_input_ r2 = Some a -> active_text_input_ r = Some a /\ focused_surface_ r = Some f.
Proof.
  intros Hi Him r2 Ha.
  assert (Hp : partway (r <{ focused_surface_ := Some f }>) r2) by (by apply partway_leaves). destruct (pw_active _ _ Hp) as [E|E]; [|congruence]. simpl in E. rewrite Ha in E. split; [done|].
  destruct (inv_leaves surface_client (Some f) None _ _ (inv_refocus surface_client (Some f) r Hi) eq_refl) as (H2 & F2 & _).
  change (inv surface_client [] None r2) in H2. change (focused_surface_ r2 = Some f) in F2.
  destruct (in_active _ _ _ _ H2 a Ha) as (_ & t & Ht & Hti & _ & Hn & [Hf|Hf]); [|by apply elem_of_nil in Hf].
  destruct (pw_inputs _ _ Hp t Ht) as (u & Hu & Hui & [Hr|Hr]); [|done].
  destruct (active_is _ _ _ _ _ _ Hi (eq_sym E) Hu ltac:(congruence)) as (_ & _ & [Hg|Hg]); [|by apply elem_of_nil in Hg].
  congruence.
Qed.

(** C18. A focus change connects the input method: if afterwards an enabled text input
    is on the surface with the keyboard, the input method is connected to an enabled
    text input of that surface, and unless it was so already before the change, it
    has been activated and then told the text around the cursor and the content type
    where the text input has them, the cause of the last change, and done, and
    nothing after that took it back. *)
Theorem focus_connects_text_input (surface_client : nat -> nat) (seat : nat) (focus : option nat)
    (pos : nat -> option (Z * Z)) (out : Z -> Z -> wlr_box) (r : InputMethodRelay) (f : nat) (t : TextInput)
    (Hsteps : rtc (relay_step surface_client) (initial_relay seat focus pos out) r)
    (Him : input_method_ r <> None) (Ht : t ∈ text_inputs_ (UpdateFocus surface_client (Some f) r))
    (Henabled : Enabled t = true) (Hfocus : relay_focused_surface_ t = Some f) :
  let r' := UpdateFocus surface_client (Some f) r in
  exists u, find_ti (ti_id u) r' = Some u /\ Enabled u = true /\ relay_focused_surface_ u = Some f /\
    active_text_input_ r' = Some (ti_id u) /\
    (active_text_input_ r = Some (ti_id u) /\ focused_surface_ r = Some f \/
     connected_anew u (im_log r) (im_log r')).
Proof.
  apply inv_reachable in Hsteps as Hi. unfold UpdateFocus in *.
  destruct (inv_focus_loops _ (Some f) _ Hi) as (H3 & F3 & M3).
  pose proof (still_connected surface_client r f) as Hstill.
  set (r2 := each_ti (leave_one (Some f)) _) in *.
  assert (Hp : partway (r <{ focused_surface_ := Some f }>) r2) by (by apply partway_leaves).
  destruct (enters_keep surface_client (Some f) r2) as [L3 A3].
  set (r3 := each_ti (enter_one surface_client (Some f)) r2) in *.
  clearbody r3. destruct (input_method_ r) as [im|] eqn:Eim; [|done].
  set (r4 := match focus_candidate (Some f) r3 with Some c => _ | None => r3 end) in *.
  destruct (aside_popups r4) as (ps & qs & Hq & E5). rewrite E5 in *. clear E5. cbn zeta.
  change (t ∈ text_inputs_ r4) in Ht.
  assert (E4 : text_inputs_ r4 = text_inputs_ r3).
  { subst r4. destruct (focus_candidate _ _) as [c|]; [|done]. destruct (_ && _); [|done]. by apply (inv_Activate surface_client). }
  rewrite E4 in Ht.
  destruct (List.find (on_surface (Some f)) (text_inputs_ r3)) as [u|] eqn:Eu.
  2: { rewrite list_elem_of_In in Ht. pose proof (List.find_none _ _ Eu t Ht) as Hno. unfold on_surface in Hno.
       rewrite Henabled, Hfocus, bool_decide_eq_true_2 in Hno; done. }
  assert (Ec : focus_candidate (Some f) r3 = Some (ti_id u)) by (unfold focus_candidate; by rewrite Eu).
  apply List.find_some in Eu as [Hu [Heu Hfu%bool_decide_eq_true]%andb_true_iff]. rewrite <- list_elem_of_In in Hu.
  assert (Ev : find_ti (ti_id u) r3 = Some u).
  { destruct (find_ti (ti_id u) r3) as [v|] eqn:Ev; [|by apply (find_ti_None _ _ _ Ev) in Hu].
    f_equal. symmetry. by eapply find_ti_unique. }
  exists u. split; [unfold find_ti; simpl; by rewrite E4|]. split_and!; [done|done|..]; subst r4; rewrite Ec; simpl;
    destruct (bool_decide (active_text_input_ r3 = Some (ti_id u))) eqn:Ea; simpl;
    try apply bool_decide_eq_true in Ea.
  - done.
  - by apply (Activate_active _ _ _ _ _ Ev Heu M3 F3 Hfu).
  - left. apply Hstill; [done|done|congruence].
  - right. destruct (Activate_active _ _ _ _ _ Ev Heu M3 F3 Hfu) as (_ & ms & st & rest & El & Hh & Hr).
    destruct (pw_log _ _ Hp) as (ms0 & E0). simpl in E0. exists (ms0 ++ ms), st, (rest ++ qs).
    split_and!; [|done|by apply Forall_app_2]. rewrite El, L3, E0, <- !app_assoc. simpl. by rewrite <- app_assoc.
Qed.

(** C19. An input method popup is placed on the screen of the text cursor: a popup no
    larger than the screen lies inside it, and it is next to the cursor's line,
    below it or, where there is no room, above it, wherever one of the two fits. *)
Theorem popup_on_screen (cursor output : wlr_box) (width height : Z)
    (Hx : box_x output <= box_x cursor < box_x output + box_width output)
    (Hy : box_y output <= box_y cursor < box_y output + box_height output)
    (Hsize : 0 <= width <= box_width output /\ 0 <= height <= box_height output)
    (Hcursor : 0 <= box_height cursor) :
  let '(x, y) := popup_place cursor output width height in
  box_x output <= x /\ x + width <= box_x output + box_width output /\
  box_y output <= y /\ y + height <= box_y output + box_height output /\
  (box_y cursor + box_height cursor + height <= box_y output + box_height output ->
    y = box_y cursor + box_height cursor) /\
  (box_y output + box_height output < box_y cursor + box_height cursor + height ->
    box_y output <= box_y cursor - height -> y = box_y cursor - height).
Proof.
  unfold popup_place. destruct (_ >? _) eqn:E1, (box_y cursor + _ + _ >? _) eqn:E2; cbv zeta;
    repeat match goal with |- context [if ?b then _ else _] => destruct b eqn:? end; lia.
Qed.

(** ** A demonstration *)

(** Client [f / 10] owns surface [f]; the screen is 1920 by 1080. *)
#[local] Abbreviation client := (fun f => f / 10)%nat.

Definition demo_relay : InputMethodRelay :=
  initial_relay 1 (Some 11%nat) (fun _ => Some (100, 100)) (fun _ _ => Box 0 0 1920 1080).

Definition demo_im : input_method := MkInputMethod 5 None (Some (txt "ni")) (1, 0) false.

(** An input method, then text inputs 1 (v3, client 1) and 2 (v2, client 2); the
    first is enabled and typed into, then the keyboard moves to surface 21, for
    which the second has been enabled. *)
Definition demo_typing : InputMethodRelay :=
  demo_relay
    |> OnNewInputMethod client demo_im
    |> AddTextInput client (new_v3 1 1 1)
    |> AddTextInput client (new_v2 2 2 1)
    |> text_input_enable 1
    |> text_input_commit client 1
    |> OnInputMethodCommit
    |> V2_Enable client 2 21
    |> UpdateFocus client (Some 21%nat).

Lemma demo_typing_reachable : rtc (relay_step client) demo_relay demo_typing.
Proof.
  unfold demo_typing.
  eapply rtc_l; [apply (rs_im _ _ demo_im)|].
  eapply rtc_l; [apply (rs_new _ _ (new_v3 1 1 1)); [reflexivity|constructor]|].
  eapply rtc_l; [apply (rs_new _ _ (new_v2 2 2 1)); [vm_compute; reflexivity|constructor]|].
  eapply rtc_l; [apply (rs_enable _ _ 1)|].
  eapply rtc_l; [apply (rs_commit _ _ 1)|].
  eapply rtc_l; [apply rs_im_commit|].
  eapply rtc_l; [apply (rs_v2_enable _ _ 2 21)|].
  apply rtc_once, rs_focus.
Defined.

Lemma text_reaches_focused_client_witness :
  active_text_input_ demo_typing = Some 2%nat /\ asserts_hold demo_typing = true /\
  ti_log demo_typing =
    [(1%nat, TiEnter None 11); (1%nat, TiCommitString (txt "ni")); (1%nat, TiDeleteSurroundingText 1 0);
     (1%nat, TiDone 1); (1%nat, TiLeave None (Some 11%nat)); (2%nat, TiEnter (Some 0) 21)].
Proof.
  split_and!; [vm_compute; reflexivity| |vm_compute; reflexivity].
  exact (proj1 (text_reaches_focused_client client 1 (Some 11%nat) _ _ demo_typing demo_typing_reachable)).
Defined.

Definition demo_before_focus : InputMethodRelay :=
  demo_relay
    |> OnNewInputMethod client demo_im
    |> AddTextInput client (new_v2 2 2 1)
    |> V2_Enable client 2 21.

Lemma focus_connects_text_input_witness :
  active_text_input_ demo_before_focus = None /\
  let r' := UpdateFocus client (Some 21%nat) demo_before_focus in
  active_text_input_ r' = Some 2%nat /\ im_log r' = [ImActivate; ImTextChangeCause 0; ImDone] /\
  exists u, find_ti (ti_id u) r' = Some u /\ Enabled u = true /\ relay_focused_surface_ u = Some 21%nat /\
    active_text_input_ r' = Some (ti_id u) /\
    (active_text_input_ demo_before_focus = Some (ti_id u) /\ focused_surface_ demo_before_focus = Some 21%nat \/
     connected_anew u (im_log demo_before_focus) (im_log r')).
Proof.
  split; [vm_compute; reflexivity|]. split; [vm_compute; reflexivity|]. split; [vm_compute; reflexivity|].
  apply (focus_connects_text_input client 1 (Some 11%nat) (fun _ => Some (100, 100)) (fun _ _ => Box 0 0 1920 1080)
    demo_before_focus 21 (default (new_v1 0 0) (find_ti 2 (UpdateFocus client (Some 21%nat) demo_before_focus)))).
  - eapply rtc_l; [apply (rs_im _ _ demo_im)|].
    eapply rtc_l; [apply (rs_new _ _ (new_v2 2 2 1)); [vm_compute; reflexivity|constructor]|].
    apply rtc_once, rs_v2_enable.
  - vm_compute. discriminate.
  - vm_compute. left.
  - vm_compute. reflexivity.
  - vm_compute. reflexivity.
Defined.

Lemma popup_on_screen_witness :
  popup_place (Box 1900 1060 2 18) (Box 0 0 1920 1080) 300 200 = (1620, 860) /\
  1620 + 300 <= 0 + 1920.
Proof.
  split; [vm_compute; reflexivity|].
  refine (proj1 (proj2 (popup_on_screen (Box 1900 1060 2 18) (Box 0 0 1920 1080) 300 200 _ _ _ _)));
    vm_compute; repeat split; congruence.
Defined.

(** ** Where the code contradicts itself or the protocols *)

(** text-input-v2 has the lengths before and after the cursor in
    delete_surrounding_text; deleting one byte before the cursor of a five byte text
    tells the client to delete four bytes before and one after. *)
Example v2_delete_garbled :
  SendDelete 1 0 (MkTextInput 2 2 (OldInput ((new_legacy true (Some 1%nat))
    <{ surrounding_text_ := txt "hello" }>)) None) = [TiDeleteSurroundingText 4 1].
Proof. vm_compute. reflexivity. Qed.

(** The default hint of text-input-v1 is a bundle of flags that the input method
    never sees. *)
Example v1_default_hint_lost :
  content_hint_ <$> (find_ti 3 (SetContentType CONTENT_HINT_DEFAULT 0 3
    (AddTextInput client (new_v1 3 1) demo_relay)) ≫= fun t =>
    match ti_endpoint t with OldInput l => Some l | _ => None end) = Some CONTENT_HINT_NONE.
Proof. vm_compute. reflexivity. Qed.

(** Two text inputs of one surface are enabled; disabling the one that was enabled
    last disconnects the input method, although the other one is still enabled and
    has the focus. *)
Definition two_inputs : InputMethodRelay :=
  demo_relay
    |> OnNewInputMethod client demo_im
    |> AddTextInput client (new_v3 1 1 1) |> AddTextInput client (new_v3 2 1 1)
    |> text_input_enable 1 |> text_input_commit client 1
    |> text_input_enable 2 |> text_input_commit client 2
    |> text_input_disable 2 |> text_input_commit client 2.

Example disable_forgets_other_input :
  active_text_input_ two_inputs = None /\
  map (fun t => (Enabled t, relay_focused_surface_ t)) (text_inputs_ two_inputs) =
    [(true, Some 11%nat); (false, Some 11%nat)].
Proof. vm_compute. done. Qed.

(** A text-input-v2 client that disables its text input is not told when the focus
    leaves its surface: it sees two enters in a row. *)
Example v2_enter_without_leave :
  ti_log (demo_relay
    |> AddTextInput client (new_v2 2 1 1)
    |> V2_Enable client 2 11 |> V2_Disable 2 11
    |> UpdateFocus client (Some 12%nat) |> V2_Enable client 2 12) =
  [(2%nat, TiEnter (Some 0) 11); (2%nat, TiEnter (Some 0) 12)].
Proof. vm_compute. reflexivity. Qed.
