(* ===== verification/Clipboard.v ===== *)
(** * The clipboard outlives its owner

    Models SelectionPersist (src/src/input/selection_persist.cc), which keeps a copy
    of the selection and offers it once the client that owned it is gone, with the
    parts of wlroots it works with (types/data_device/wlr_data_device.c,
    wlr_data_source.c). Pipes are modelled: what the owner wrote into one, how much
    of it was read, whether its write end is open; how much a call of read or write
    transfers, and its failures, are chosen by the environment ([rd], [wr]).
    Descriptors are numbered and never reused. *)

From S2P Require Import Prelude.

Definition kMaxSelectionSize : Z := 64 * 1024 * 1024.
Definition chunk_size : nat := Z.to_nat 16384.

Definition kIgnoredMimeTypes : list str :=
  map txt ["TARGETS"; "MULTIPLE"; "SAVE_TARGETS"; "TIMESTAMP"; "DELETE"; "INSERT_SELECTION"; "INSERT_PROPERTY"]%string.

(** ** Data *)

(** A pipe from the owner. *)
Record pipe := Pipe { sent : str; taken : nat; write_open : bool }.

#[export] Instance pipe_fields : Fields pipe := {| rebuild := fun p => Pipe (sent p) (taken p) (write_open p) |}.

Definition unread (p : pipe) : str := drop (taken p) (sent p).

(** A client that pastes: the copy it asked for and what it got of it. *)
Record reader := Reader { wanted : str; got : str }.

Record Writer := MkWriter { wr_fd : nat; offset : nat }.

(** [pipe_of] is the descriptor the entry was made with; [fd] is -1 ([None]) once
    reading is over. *)
Record Entry := MkEntry {
  mime_type : str; data : str; complete : bool; failed : bool; fd : option nat; pipe_of : nat;
  writers : list Writer }.

#[export] Instance entry_fields : Fields Entry := {| rebuild := fun e =>
  MkEntry (mime_type e) (data e) (complete e) (failed e) (fd e) (pipe_of e) (writers e) |}.

Record Selection := MkSelection {
  entries : list Entry; total : Z; owned : bool; install : bool; mime_types : list str }.

#[export] Instance selection_fields : Fields Selection := {| rebuild := fun s =>
  MkSelection (entries s) (total s) (owned s) (install s) (mime_types s) |}.

(** A source of a client, with the mime types it offered, or the copy. *)
Inductive wlr_data_source := OwnerSource (id : nat) (mimes : list str) | KeptSource.

Definition same_source (a b : option wlr_data_source) : bool :=
  match a, b with
  | None, None | Some KeptSource, Some KeptSource => true
  | Some (OwnerSource i _), Some (OwnerSource j _) => (i =? j)%nat
  | _, _ => false
  end.

Record clipboard := Clipboard {
  selection_source : option wlr_data_source;
  cache_ : option Selection;
  open_fds : list nat;
  next_fd : nat;
  pipes : gmap nat pipe;
  readers : gmap nat reader;
  fds_ok : bool }.

#[export] Instance clipboard_fields : Fields clipboard := {| rebuild := fun s =>
  Clipboard (selection_source s) (cache_ s) (open_fds s) (next_fd s) (pipes s) (readers s) (fds_ok s) |}.

Definition initial_clipboard : clipboard := Clipboard None None [] 0 ∅ ∅ true.

(** ** Descriptors *)

Definition close (n : nat) (s : clipboard) : clipboard :=
  if decide (n ∈ open_fds s) then s <{ open_fds ::= List.filter (fun m => negb (m =? n)%nat) }>
  else s <{ fds_ok := false }>.

Definition open_fd (s : clipboard) : clipboard * nat :=
  (s <{ open_fds ::= cons (next_fd s) }> <{ next_fd ::= S }>, next_fd s).

(** ** Reading *)

Inductive rd := RdUpTo (n : nat) | RdIntr | RdErr.

(** The loop of Drain over the entry, the selection's total and the entry's pipe.
    Without a choice left, a read returns as much as it can. *)
Fixpoint drain_loop (fuel : nat) (o : list rd) (e : Entry) (total : Z) (p : pipe) : Entry * Z * pipe :=
  match fuel with
  | O => (e, total, p)
  | S fuel =>
      let '(r, o) := match o with [] => (RdUpTo chunk_size, []) | r :: o => (r, o) end in
      match r with
      | RdIntr => drain_loop fuel o e total p
      | RdErr => (e <{ complete := false }> <{ failed := true }> <{ fd := None }>, total, p)
      | RdUpTo n =>
          match unread p with
          | [] => if write_open p then (e, total, p)
                  else (e <{ complete := true }> <{ failed := false }> <{ fd := None }>, total, p)
          | rest =>
              let chunk := take (Nat.min (S n) chunk_size) rest in
              let p := p <{ taken ::= fun k => (k + length chunk)%nat }> in
              if total + Z.of_nat (length chunk) >? kMaxSelectionSize
              then (e <{ failed := true }> <{ fd := None }>, total, p)
              else drain_loop fuel o (e <{ data ::= fun d => d ++ chunk }>)
                     (total + Z.of_nat (length chunk)) p
          end
      end
  end.

Definition drain_fuel (o : list rd) (p : pipe) : nat := S (length o + length (unread p)).

Definition upd_cache (f : Selection -> Selection) (s : clipboard) : clipboard := s <{ cache_ ::= fmap f }>.

Definition Drain (o : list rd) (i : nat) (s : clipboard) : clipboard :=
  match cache_ s with
  | None => s
  | Some sel =>
      match entries sel !! i with
      | Some e =>
          match fd e with
          | None => s
          | Some n =>
              match pipes s !! n with
              | None => s
              | Some p =>
                  let '(e', total', p') := drain_loop (drain_fuel o p) o e (total sel) p in
                  let s := s |> upd_cache (fun sel => sel <{ entries ::= <[i := e']> }> <{ total := total' }>)
                             |> (fun s => s <{ pipes ::= <[n := p']> }>) in
                  match fd e' with None => close n s | Some _ => s end
              end
          end
      | None => s
      end
  end.

Definition OnReadable := Drain.

(** ** Writing *)

Inductive wr := WrUpTo (n : nat) | WrIntr | WrErr.

(** FlushWriter: the new offset and whether the writer is done; without a choice left
    the pipe is full. Each write passes the bytes of [data] from the offset on, of which the
    pipe takes some. *)
Fixpoint FlushWriter (o : list wr) (data : str) (off : nat) : nat * bool :=
  if (off <? length data)%nat then
    match o with
    | [] => (off, false)
    | WrIntr :: o => FlushWriter o data off
    | WrErr :: _ => (off, true)
    | WrUpTo n :: o => FlushWriter o data (off + Nat.min (S n) (length data - off))%nat
    end
  else (off, true).

Definition receive (n : nat) (data : str) (off : nat) (s : clipboard) : clipboard :=
  s <{ readers ::= alter (fun r => Reader (wanted r) (take off data)) n }>.

Definition upd_entry (i : nat) (f : Entry -> Entry) : clipboard -> clipboard :=
  upd_cache (fun sel => sel <{ entries ::= alter f i }>).

Definition DestroyWriter (i n : nat) (s : clipboard) : clipboard :=
  s |> close n
    |> upd_entry i (fun e => e <{ writers ::= List.filter (fun w => negb (wr_fd w =? n)%nat) }>).

Definition OnWritable (o : list wr) (hangup : bool) (i n : nat) (s : clipboard) : clipboard :=
  match cache_ s ≫= fun sel => entries sel !! i with
  | None => s
  | Some e =>
      match List.find (fun w => (wr_fd w =? n)%nat) (writers e) with
      | None => s
      | Some w =>
          let '(off, done) := FlushWriter o (data e) (offset w) in
          let s := receive n (data e) off s in
          if done || hangup then DestroyWriter i n s
          else upd_entry i (fun e => e <{ writers ::= map (fun w =>
                 if (wr_fd w =? n)%nat then MkWriter n off else w) }>) s
      end
  end.

(** A client asks for the kept selection; its descriptor comes with the request.
    [add_ok] is whether the event loop takes it. *)
Definition SendSelection (mime : str) (o : list wr) (add_ok : bool) (s : clipboard) : clipboard :=
  let '(s, n) := open_fd s in
  match cache_ s with
  | None => close n s
  | Some sel =>
      match list_find (fun e => mime_type e = mime) (entries sel) with
      | None => close n s
      | Some (i, e) =>
          let s := s <{ readers ::= <[n := Reader (data e) []]> }> in
          let '(off, done) := FlushWriter o (data e) 0 in
          let s := receive n (data e) off s in
          if done then close n s
          else if negb add_ok then close n s
          else upd_entry i (fun e => e <{ writers ::= fun l => l ++ [MkWriter n off] }>) s
      end
  end.

(** ** The copy *)

(** DestroyEntry for every entry: writers from the last, then the read end. *)
Definition entry_fds (e : Entry) : list nat :=
  rev (map wr_fd (writers e)) ++ match fd e with Some n => [n] | None => [] end.

Definition DestroyEntry (e : Entry) (s : clipboard) : clipboard :=
  foldl (fun s n => close n s) s (entry_fds e).

Definition DestroySelection (s : clipboard) : clipboard :=
  match cache_ s with
  | None => s
  | Some sel => foldl (fun s e => DestroyEntry e s) (s <{ cache_ := None }>) (entries sel)
  end.

(** What the system answers for one mime type: whether there is a pipe, and whether
    the event loop takes it. *)
Definition attempt : Type := bool * bool.

Definition start_read (mime : str) (a : attempt) (st : clipboard * list Entry) : clipboard * list Entry :=
  let '(s, es) := st in
  if decide (mime ∈ kIgnoredMimeTypes) then (s, es)
  else if negb (fst a) then (s, es)
  else
    let '(s, r) := open_fd s in
    let '(s, w) := open_fd s in
    if negb (snd a) then (s |> close r |> close w, es)
    else
      (* the owner gets the write end, and ours is closed *)
      (s |> (fun s => s <{ pipes ::= <[r := Pipe [] 0 true]> }>) |> close w,
       es ++ [MkEntry mime [] false false (Some r) r []]).

Fixpoint read_all (mimes : list str) (answers : list attempt) (st : clipboard * list Entry)
    : clipboard * list Entry :=
  match mimes with
  | [] => st
  | m :: mimes => read_all mimes (tail answers) (start_read m (default (true, true) (head answers)) st)
  end.

Definition CreateSelection (mimes : list str) (answers : list attempt) (s : clipboard) : clipboard :=
  let '(s, es) := read_all mimes answers (s, []) in
  match es with
  | [] => s
  | _ => s <{ cache_ := Some (MkSelection es 0 false false []) }>
  end.

Definition OnSetSelection (answers : list attempt) (s : clipboard) : clipboard :=
  match selection_source s with
  | Some KeptSource => s
  | None => upd_cache (fun sel => if negb (owned sel) && negb (install sel) then sel <{ install := true }> else sel) s
  | Some (OwnerSource _ mimes) => s |> DestroySelection |> CreateSelection mimes answers
  end.

Definition wlr_seat_set_selection (source : option wlr_data_source) (answers : list attempt) (s : clipboard)
    : clipboard :=
  if same_source (selection_source s) source then s
  else
    let s := match selection_source s with
             | Some KeptSource => DestroySelection s
             | _ => s
             end in
    s |> (fun s => s <{ selection_source := source }>) |> OnSetSelection answers.

(** The source of the selection is destroyed, by its client or with it. *)
Definition seat_handle_selection_source_destroy (s : clipboard) : clipboard :=
  match selection_source s with
  | Some (OwnerSource _ _) => s |> (fun s => s <{ selection_source := None }>) |> OnSetSelection []
  | _ => s
  end.

Definition keep (e : Entry) : bool := complete e && negb (failed e) && negb (bool_decide (data e = [])).

(** The mime types that could be recorded, up to the first failed allocation. *)
Fixpoint offer (es : list Entry) (alloc : list bool) : list str :=
  match es with
  | [] => []
  | e :: es => if default true (head alloc) then mime_type e :: offer es (tail alloc) else []
  end.

Definition drain_all (o : nat -> list rd) (s : clipboard) : clipboard :=
  foldl (fun s i => Drain (o i) i s) s
    (seq 0 (length (default [] (entries <$> cache_ s)))).

Definition drop_unkept (s : clipboard) : clipboard :=
  match cache_ s with
  | None => s
  | Some sel =>
      foldl (fun s e => DestroyEntry e s)
        (upd_cache (fun sel => sel <{ entries ::= List.filter keep }>) s)
        (List.filter (fun e => negb (keep e)) (entries sel))
  end.

(** The end of Install: the copies are recorded, and offered if there is one. *)
Definition offer_copy (alloc : list bool) (s : clipboard) : clipboard :=
  let s := upd_cache (fun sel => sel <{ mime_types := offer (entries sel) alloc }>) s in
  match default [] (mime_types <$> cache_ s) with
  | [] => DestroySelection s
  | _ => s |> upd_cache (fun sel => sel <{ owned := true }>)
           |> wlr_seat_set_selection (Some KeptSource) []
  end.

Definition Install (o : nat -> list rd) (alloc : list bool) (s : clipboard) : clipboard :=
  match cache_ s with
  | None => s
  | Some sel =>
      if negb (install sel) then s
      else
        let s := upd_cache (fun sel => sel <{ install := false }>) s in
        match selection_source s with
        | Some _ => s
        | None =>
            s |> drain_all o |> drop_unkept |> offer_copy alloc
        end
  end.

(** The end of SelectionPersist: a copy that is offered is left to the seat. *)
Definition SelectionPersist_destroy (s : clipboard) : clipboard :=
  match cache_ s with
  | Some sel => if owned sel then s else DestroySelection s
  | None => s
  end.

(** ** Everything that happens *)

Inductive clip_ev :=
(* the environment: pipes *)
| EvOwnerWrite (n : nat) (bytes : str)
| EvOwnerClose (n : nat)
(* clients *)
| EvSetSelection (id : nat) (mimes : list str) (answers : list attempt)
| EvClear
| EvOwnerGone
| EvPaste (mime : str) (o : list wr) (add_ok : bool)
(* the event loop *)
| EvReadable (o : list rd) (i : nat)
| EvWritable (o : list wr) (hangup : bool) (i n : nat)
| EvIdle (o : nat -> list rd) (alloc : list bool).

(** The owner can write while both ends of the pipe are open. *)
Definition owner_write (n : nat) (bytes : str) (s : clipboard) : clipboard :=
  if decide (n ∈ open_fds s)
  then s <{ pipes ::= alter (fun p => if write_open p then p <{ sent ::= fun l => l ++ bytes }> else p) n }>
  else s.

Definition clip_do (s : clipboard) (ev : clip_ev) : clipboard :=
  match ev with
  | EvOwnerWrite n bytes => owner_write n bytes s
  | EvOwnerClose n => s <{ pipes ::= alter (fun p => p <{ write_open := false }>) n }>
  | EvSetSelection id mimes answers => wlr_seat_set_selection (Some (OwnerSource id mimes)) answers s
  | EvClear => wlr_seat_set_selection None [] s
  | EvOwnerGone => seat_handle_selection_source_destroy s
  | EvPaste mime o add_ok =>
      match selection_source s with
      | Some KeptSource => SendSelection mime o add_ok s
      | _ => s
      end
  | EvReadable o i => OnReadable o i s
  | EvWritable o hangup i n => OnWritable o hangup i n s
  | EvIdle o alloc => Install o alloc s
  end.

(** ** Descriptors are neither leaked nor closed twice *)

Definition fds_in_use (s : clipboard) : list nat :=
  match cache_ s with None => [] | Some sel => flat_map entry_fds (entries sel) end.

Record fd_inv (use : list nat) (s : clipboard) : Prop := {
  fi_ok : fds_ok s = true;
  fi_open : open_fds s ≡ₚ use;
  fi_nodup : NoDup use;
  fi_fresh : forall n, n ∈ use -> (n < next_fd s)%nat }.

Lemma fd_inv_perm use use' s : use ≡ₚ use' -> fd_inv use s -> fd_inv use' s.
Proof.
  intros Hp [O P N F]. split; [done|by rewrite <- Hp|by rewrite <- Hp|]. intros n Hn. apply F. by rewrite Hp.
Qed.

(** The same but for the descriptors. *)
Definition but_fds (s s' : clipboard) : Prop := exists l, s' = s <{ open_fds := l }>.

Lemma but_fds_refl s : but_fds s s.
Proof. exists (open_fds s). by destruct s. Qed.
Lemma but_fds_trans s1 s2 s3 : but_fds s1 s2 -> but_fds s2 s3 -> but_fds s1 s3.
Proof. intros [l ->] [l' ->]. by exists l'. Qed.

Lemma filter_out (n : nat) (l use : list nat) : l ≡ₚ n :: use -> NoDup (n :: use) ->
  List.filter (fun m => negb (m =? n)%nat) l ≡ₚ use.
Proof.
  intros Hp [Hn Hnd]%NoDup_cons.
  assert (Hf : forall l l' : list nat, l ≡ₚ l' -> List.filter (fun m => negb (m =? n)%nat) l ≡ₚ
    List.filter (fun m => negb (m =? n)%nat) l').
  { intros a b Hab. induction Hab; simpl; repeat match goal with |- context [negb ?b] => destruct b; simpl end;
      auto; [by constructor|by transitivity (List.filter (fun m => negb (m =? n)%nat) l')]. }
  rewrite (Hf _ _ Hp). simpl. rewrite Nat.eqb_refl. simpl. clear Hp Hf Hnd l.
  induction use as [|m use IH]; simpl; [done|]. apply not_elem_of_cons in Hn as [Hm Hn].
  destruct (m =? n)%nat eqn:E; [by apply Nat.eqb_eq in E; congruence|]. simpl. by rewrite IH.
Qed.

Lemma close_inv n use s : fd_inv (n :: use) s -> fd_inv use (close n s) /\ but_fds s (close n s).
Proof.
  intros [O P N F]. unfold close. rewrite decide_True by (rewrite P; left). split.
  - split; [done| | |].
    + by apply filter_out.
    + by apply NoDup_cons in N as [_ ?].
    + intros m Hm. apply F. by right.
  - by eexists.
Qed.

Lemma closes_inv ns use s : fd_inv (ns ++ use) s ->
  fd_inv use (foldl (fun s n => close n s) s ns) /\ but_fds s (foldl (fun s n => close n s) s ns).
Proof.
  revert s. induction ns as [|n ns IH]; intros s Hi; simpl; [split; [done|apply but_fds_refl]|].
  destruct (close_inv n _ _ Hi) as [H1 B1]. destruct (IH _ H1) as [H2 B2].
  split; [done|by eapply but_fds_trans].
Qed.

Lemma destroy_inv es use s : fd_inv (flat_map entry_fds es ++ use) s ->
  let s' := foldl (fun s e => DestroyEntry e s) s es in fd_inv use s' /\ but_fds s s'.
Proof.
  revert s. induction es as [|e es IH]; intros s Hi; simpl in *; [split; [done|apply but_fds_refl]|].
  rewrite <- app_assoc in Hi. destruct (closes_inv _ _ _ Hi) as [H1 B1]. destruct (IH _ H1) as [H2 B2].
  split; [done|by eapply but_fds_trans].
Qed.

Lemma open_inv use s s' n : fd_inv use s -> open_fd s = (s', n) -> fd_inv (n :: use) s' /\
  n = next_fd s /\ exists l, s' = s <{ open_fds := l }> <{ next_fd ::= S }>.
Proof.
  intros [O P N F] [= <- <-]. split_and!; [|done|by eexists]. split; [done| | |].
  - simpl. by constructor.
  - apply NoDup_cons. split; [|done]. intros Hn%F. lia.
  - simpl. intros m [->|Hm%F]%elem_of_cons; lia.
Qed.

(** Changing one entry. *)
Lemma flat_map_insert (l : list Entry) i e e' a : l !! i = Some e -> entry_fds e ≡ₚ a ++ entry_fds e' ->
  flat_map entry_fds l ≡ₚ a ++ flat_map entry_fds (<[i := e']> l).
Proof.
  intros Hl Hp. assert (Hi : (i < length l)%nat) by (by eapply lookup_lt_Some).
  rewrite insert_take_drop by done. rewrite <- (take_drop_middle l i e Hl) at 1.
  rewrite !flat_map_app. simpl. rewrite Hp. solve_Permutation.
Qed.

Lemma flat_map_grow (l : list Entry) i e e' a : l !! i = Some e -> entry_fds e' ≡ₚ a ++ entry_fds e ->
  a ++ flat_map entry_fds l ≡ₚ flat_map entry_fds (<[i := e']> l).
Proof.
  intros Hl Hp. assert (Hi : (i < length l)%nat) by (by eapply lookup_lt_Some).
  rewrite insert_take_drop by done. rewrite <- (take_drop_middle l i e Hl) at 1.
  rewrite !flat_map_app. simpl. rewrite Hp. solve_Permutation.
Qed.

(** ** Reading *)

(** What a copy is while it is being read, when it is done, and when it was given
    up. *)
Inductive progress (e : Entry) (p : pipe) : Prop :=
| still_reading : fd e = Some (pipe_of e) -> complete e = false -> failed e = false ->
    data e = take (taken p) (sent p) -> progress e p
| all_read : fd e = None -> complete e = true -> failed e = false -> write_open p = false ->
    data e = sent p -> progress e p
| given_up : fd e = None -> complete e = false -> failed e = true -> progress e p.

Record drained (e : Entry) (total : Z) (p : pipe) (e' : Entry) (total' : Z) (p' : pipe) : Prop := {
  dr_mime : mime_type e' = mime_type e;
  dr_pipe : pipe_of e' = pipe_of e;
  dr_writers : writers e' = writers e;
  dr_sent : sent p' = sent p;
  dr_open : write_open p' = write_open p;
  dr_taken : (taken p' <= length (sent p'))%nat;
  dr_total : total' - total = Z.of_nat (length (data e')) - Z.of_nat (length (data e));
  dr_limit : total <= total' <= kMaxSelectionSize;
  dr_progress : progress e' p';
  dr_stops : fd e' = None \/ (unread p' = [] /\ write_open p' = true) }.

Lemma take_length_take {A} k (l : list A) : take (length (take k l)) l = take k l.
Proof.
  rewrite length_take. destruct (decide (k <= length l)%nat); [by rewrite Nat.min_l by done|].
  by rewrite Nat.min_r, !take_ge by lia.
Qed.

Lemma chunk_size_pos : (0 < chunk_size)%nat.
Proof. unfold chunk_size. lia. Qed.
#[local] Opaque chunk_size.

(** Reading stops: at the end of the data, at an error or the limit, or where the
    owner has not written more. *)
Lemma drain_loop_spec fuel o e total p : (length o + length (unread p) < fuel)%nat ->
  fd e = Some (pipe_of e) -> complete e = false -> failed e = false ->
  data e = take (taken p) (sent p) -> (taken p <= length (sent p))%nat -> total <= kMaxSelectionSize ->
  let '(e', total', p') := drain_loop fuel o e total p in drained e total p e' total' p'.
Proof.
  revert o e total p. induction fuel as [|fuel IH]; intros o e total p Hfuel Hfd Hc Hf Hd Ht Hm; [lia|].
  cbn [drain_loop]. set (ro := match o with [] => _ | r :: o => _ end).
  assert (Hro : (length ro.2 <= length o)%nat /\ (ro.1 = RdIntr -> length ro.2 < length o)%nat)
    by (subst ro; destruct o; simpl; split; try lia; done).
  destruct ro as [r o']. simpl in Hro. destruct r as [n| |].
  - destruct (unread p) as [|b rest] eqn:Eu.
    + destruct (write_open p) eqn:Ew.
      * split; try done; try lia; [by apply still_reading|by right].
      * assert (taken p = length (sent p)) as Et.
        { unfold unread in Eu. apply (f_equal length) in Eu. rewrite length_drop in Eu. simpl in Eu. lia. }
        split; try done; simpl; try lia; [|by left].
        apply all_read; try done. simpl. by rewrite Hd, Et, take_ge.
    + set (chunk := take _ (b :: rest)).
      assert (Hlen : (0 < length chunk <= length (b :: rest))%nat).
      { subst chunk. rewrite length_take. pose proof chunk_size_pos. simpl length. lia. }
      assert (Hsent : length (b :: rest) = (length (sent p) - taken p)%nat)
        by (rewrite <- Eu; unfold unread; apply length_drop).
      destruct (_ >? _) eqn:El.
      * split; try done; simpl; try lia; [by apply given_up|by left].
      * rewrite <- Eu in Hfuel.
        set (e1 := e <{ data ::= fun d => d ++ chunk }>). set (p1 := p <{ taken ::= _ }>).
        assert (Hc1 : chunk = take (length chunk) (unread p)).
        { rewrite Eu. subst chunk. by rewrite take_length_take. }
        pose proof (IH o' e1 (total + Z.of_nat (length chunk)) p1) as IH1.
        destruct (drain_loop fuel o' e1 _ p1) as [[e' total'] p'].
        destruct IH1 as [D1 D2 D3 D4 D5 D6 D7 D8 D9 D10]; try done; simpl in *; try lia.
        -- unfold unread in *. simpl. rewrite length_drop in *. lia.
        -- rewrite Hd, Hc1 at 1. unfold unread. by rewrite take_take_drop.
        -- split; try done; [rewrite length_app in D7; lia|lia].
  - apply IH; try done. specialize (proj2 Hro eq_refl) as Hlt. lia.
  - split; try done; simpl; try lia; [by apply given_up|by left].
Qed.

(** ** The invariant *)

Definition sum_data (es : list Entry) : Z := foldr (fun e n => Z.of_nat (length (data e)) + n) 0 es.

Record entry_ok (s : clipboard) (e : Entry) : Prop := {
  eo_pipe : exists p, pipes s !! pipe_of e = Some p /\ progress e p;
  eo_sent : writers e <> [] -> keep e = true;
  eo_writers : forall w, w ∈ writers e -> (offset w <= length (data e))%nat /\
    readers s !! wr_fd w = Some (Reader (data e) (take (offset w) (data e))) }.

Record sel_ok (s : clipboard) (sel : Selection) : Prop := {
  so_pipes : NoDup (map pipe_of (entries sel));
  so_total : sum_data (entries sel) <= total sel <= kMaxSelectionSize;
  so_each : forall e, e ∈ entries sel -> entry_ok s e;
  so_install : owned sel = true -> install sel = false;
  so_owned : owned sel = true -> (forall e, e ∈ entries sel -> keep e = true) /\ mime_types sel <> [] /\
    forall m, m ∈ mime_types sel -> m ∈ map mime_type (entries sel) }.

(** A copy a client asked for is all the owner had written. *)
Definition from_owner (s : clipboard) (d : str) : Prop :=
  exists n p, pipes s !! n = Some p /\ d = sent p /\ write_open p = false.

Record core (s : clipboard) : Prop := {
  co_pipes : forall n p, pipes s !! n = Some p -> (n < next_fd s /\ taken p <= length (sent p))%nat;
  co_readers : forall n r, readers s !! n = Some r ->
    (n < next_fd s)%nat /\ got r `prefix_of` wanted r /\ from_owner s (wanted r);
  co_sel : forall sel, cache_ s = Some sel -> sel_ok s sel;
  co_kept : selection_source s = Some KeptSource -> exists sel, cache_ s = Some sel /\ owned sel = true }.

Definition inv (s : clipboard) : Prop := fd_inv (fds_in_use s) s /\ core s.

Lemma core_but_fds s s' : but_fds s s' -> core s -> core s'.
Proof.
  intros [l ->] [P R S K]. split; try done. intros sel Hs. destruct (S sel Hs) as [S1 S2 S3 S5 S4].
  split; try done. intros e He. by destruct (S3 e He).
Qed.

Lemma but_fds_same s s' : but_fds s s' -> cache_ s' = cache_ s /\ next_fd s' = next_fd s /\
  pipes s' = pipes s /\ readers s' = readers s /\ selection_source s' = selection_source s.
Proof. by intros [l ->]. Qed.

(** Changes that entries do not see. *)
Definition agree (s s' : clipboard) (e : Entry) : Prop :=
  pipes s' !! pipe_of e = pipes s !! pipe_of e /\
  forall w, w ∈ writers e -> readers s' !! wr_fd w = readers s !! wr_fd w.

Lemma entry_ok_agree s s' e : agree s s' e -> entry_ok s e -> entry_ok s' e.
Proof.
  intros [Hp Hr] [E1 E2 E3]. split; [by rewrite Hp|done|]. intros w Hw. rewrite (Hr w Hw). by apply E3.
Qed.

Lemma keep_complete e : keep e = true -> complete e = true /\ failed e = false /\ data e <> [].
Proof.
  unfold keep. intros [[H1 H2%negb_true_iff]%andb_true_iff H3%negb_true_iff%bool_decide_eq_false]%andb_true_iff. done.
Qed.

Lemma keep_sent s e : entry_ok s e -> keep e = true -> fd e = None /\ from_owner s (data e).
Proof.
  intros [(p & Hp & Hpr) _ _] [Hc _]%keep_complete. destruct Hpr; try congruence.
  split; [done|]. exists (pipe_of e), p. by rewrite Hp.
Qed.

(** *** Pipes *)

(** The owner's side of a pipe only grows. *)
Definition grows (p p' : pipe) : Prop :=
  taken p' = taken p /\ (exists l, sent p' = sent p ++ l) /\
  (write_open p = false -> sent p' = sent p /\ write_open p' = false).

Lemma progress_grows e p p' : grows p p' -> (taken p <= length (sent p))%nat -> progress e p -> progress e p'.
Proof.
  intros (Ht & (l & Hl) & Hc) Hlen []; [apply still_reading|apply all_read|apply given_up]; try done.
  - by rewrite Ht, Hl, take_app_le.
  - by apply Hc.
  - destruct Hc as [-> _]; done.
Qed.

Lemma inv_grows s n f : (forall p, grows p (f p)) -> inv s -> inv (s <{ pipes ::= alter f n }>).
Proof.
  intros Hf [Hfd [P R S K]]. split; [by destruct Hfd|].
  assert (Hlook : forall m p, pipes s !! m = Some p -> exists p', alter f n (pipes s) !! m = Some p' /\ grows p p').
  { intros m p Hm. destruct (decide (n = m)) as [<-|Hne].
    - rewrite lookup_alter_eq, Hm. simpl. eauto.
    - rewrite lookup_alter_ne, Hm by done. eexists. split; [done|].
      split_and!; [done|exists []; by rewrite app_nil_r|done]. }
  assert (Hown : forall d, from_owner s d -> from_owner (s <{ pipes ::= alter f n }>) d).
  { intros d (m & p & Hm & -> & Hw). destruct (Hlook m p Hm) as (p' & Hm' & _ & _ & Hc).
    exists m, p'. destruct (Hc Hw) as [-> ->]. done. }
  split; simpl.
  - intros m p Hm. destruct (decide (n = m)) as [<-|Hne]; [|rewrite lookup_alter_ne in Hm by done; by apply P].
    rewrite lookup_alter_eq in Hm. destruct (pipes s !! n) as [q|] eqn:Eq; [|done]. injection Hm as <-.
    destruct (Hf q) as (-> & (l & ->) & _). rewrite length_app. destruct (P n q Eq). lia.
  - intros m r Hm. destruct (R m r Hm) as (? & ? & ?). auto.
  - intros sel Hs. destruct (S sel Hs) as [S1 S2 S3 S5 S4]. split; try done. intros e He.
    destruct (S3 e He) as [(p & Hp & Hpr) E2 E3]. split; try done.
    destruct (Hlook _ _ Hp) as (p' & Hp' & Hg). exists p'. split; [done|].
    eapply progress_grows; [exact Hg| |done]. by apply (P _ _ Hp).
  - done.
Qed.

Lemma inv_owner_write n bytes s : inv s -> inv (owner_write n bytes s).
Proof.
  intros Hi. unfold owner_write. case_decide; [|done]. apply inv_grows; [|done]. intros p.
  destruct (write_open p) eqn:E; (split_and!; [done| |]); simpl; try (by exists bytes); try done; try congruence.
  exists []. by rewrite app_nil_r.
Qed.

Lemma inv_owner_close n s : inv s -> inv (s <{ pipes ::= alter (fun p => p <{ write_open := false }>) n }>).
Proof. intros Hi. apply inv_grows; [|done]. intros p. split_and!; [done|exists []; by rewrite app_nil_r|done]. Qed.

(** *** Reading *)

Lemma fd_inv_fields use s s' : fds_ok s' = fds_ok s -> open_fds s' = open_fds s -> next_fd s' = next_fd s ->
  fd_inv use s -> fd_inv use s'.
Proof. intros E1 E2 E3 [O P N F]. split; rewrite ?E1, ?E2, ?E3; done. Qed.

Lemma sum_data_insert l i e e' : l !! i = Some e ->
  sum_data (<[i := e']> l) = sum_data l - Z.of_nat (length (data e)) + Z.of_nat (length (data e')).
Proof.
  revert i. induction l as [|x l IH]; intros [|i] Hl; simplify_eq/=; [lia|]. rewrite (IH _ Hl). lia.
Qed.

Lemma map_insert {B} (f : Entry -> B) (l : list Entry) i e e' : l !! i = Some e -> f e' = f e ->
  map f (<[i := e']> l) = map f l.
Proof.
  intros Hl He. etransitivity; [apply (list_fmap_insert f)|]. rewrite He.
  apply list_insert_id. change (map f l) with (f <$> l). by rewrite list_lookup_fmap, Hl.
Qed.

(** Entries other than the one that is changed. *)
Lemma insert_elem (l : list Entry) i e e' x : l !! i = Some e -> NoDup (map pipe_of l) -> x ∈ <[i := e']> l ->
  x = e' \/ (x ∈ l /\ pipe_of x <> pipe_of e).
Proof.
  intros Hl Hnd [j Hj]%list_elem_of_lookup. destruct (decide (i = j)) as [<-|Hne].
  - left. rewrite list_lookup_insert_eq in Hj by (by eapply lookup_lt_Some). by injection Hj.
  - right. rewrite list_lookup_insert_ne in Hj by done. split; [by eapply list_elem_of_lookup_2|].
    intros He. apply Hne. eapply NoDup_lookup; [exact Hnd|..]; rewrite list_lookup_fmap.
    + rewrite Hl. simpl. done.
    + rewrite Hj. simpl. by rewrite He.
Qed.

Definition set_entry (i : nat) (e : Entry) (sum : Z) (n : nat) (p : pipe) (s : clipboard) : clipboard :=
  (upd_cache (fun sel => sel <{ entries ::= <[i := e]> }> <{ total := sum }>) s) <{ pipes ::= <[n := p]> }>.

Lemma core_drained s sel i e p e' total' p' : core s -> cache_ s = Some sel -> entries sel !! i = Some e ->
  pipes s !! pipe_of e = Some p -> fd e = Some (pipe_of e) -> complete e = false ->
  drained e (total sel) p e' total' p' -> core (set_entry i e' total' (pipe_of e) p' s).
Proof.
  intros [P R S K] Hs Hl Hp Hfd Hc D. destruct (S sel Hs) as [S1 S2 S3 S5 S4].
  assert (He : e ∈ entries sel) by (by eapply list_elem_of_lookup_2).
  assert (Hnk : keep e = false) by (unfold keep; by rewrite Hc).
  assert (Hno : writers e = []).
  { destruct (writers e) eqn:Ew; [done|]. rewrite (eo_sent _ _ (S3 e He)) in Hnk; [done|by rewrite Ew]. }
  assert (Hown : owned sel = true -> False) by (intros Ho; destruct (S4 Ho) as [Hk _]; by rewrite (Hk e He) in Hnk).
  assert (Hfrom : forall d, from_owner s d -> from_owner (set_entry i e' total' (pipe_of e) p' s) d).
  { intros d (m & q & Hm & -> & Hw). destruct (decide (pipe_of e = m)) as [<-|Hne].
    - exists (pipe_of e), p'. unfold set_entry. simpl. rewrite lookup_insert_eq.
      assert (q = p) as -> by congruence. rewrite (dr_sent _ _ _ _ _ _ D), (dr_open _ _ _ _ _ _ D). done.
    - exists m, q. unfold set_entry. simpl. by rewrite lookup_insert_ne. }
  split.
  - intros m q Hm. unfold set_entry in Hm. simpl in Hm. destruct (decide (pipe_of e = m)) as [<-|Hne].
    + rewrite lookup_insert_eq in Hm. injection Hm as <-. split; [by apply (P _ _ Hp)|apply D].
    + rewrite lookup_insert_ne in Hm by done. by apply P.
  - intros m r Hm. destruct (R m r Hm) as (? & ? & ?). auto.
  - intros sel' Hs'. unfold set_entry in Hs'. simpl in Hs'. rewrite Hs in Hs'. injection Hs' as <-. split; simpl.
    + rewrite (map_insert _ _ _ e) by (done || apply D). done.
    + rewrite (sum_data_insert _ _ e) by done. pose proof (dr_total _ _ _ _ _ _ D).
      pose proof (dr_limit _ _ _ _ _ _ D). lia.
    + intros x Hx. destruct (insert_elem _ _ _ _ _ Hl S1 Hx) as [->|[Hxl Hne]].
      * assert (Hw : writers e' = []) by (rewrite (dr_writers _ _ _ _ _ _ D); done).
        split; [|by rewrite Hw|rewrite Hw; by intros ? ?%elem_of_nil].
        exists p'. unfold set_entry. simpl. rewrite (dr_pipe _ _ _ _ _ _ D), lookup_insert_eq.
        split; [done|apply D].
      * eapply entry_ok_agree; [|by apply S3]. split; [|done]. unfold set_entry. simpl.
        by rewrite lookup_insert_ne.
    + done.
    + done.
  - intros Hk. destruct (K Hk) as (sel' & Hs' & Ho). rewrite Hs in Hs'. injection Hs' as <-. done.
Qed.

Lemma inv_Drain o i s : inv s -> inv (Drain o i s).
Proof.
  intros [Hfd Hco]. unfold Drain. destruct (cache_ s) as [sel|] eqn:Es; [|done].
  destruct (entries sel !! i) as [e|] eqn:Ee; [|done]. destruct (fd e) as [n|] eqn:Ef; [|done].
  assert (Hel : e ∈ entries sel) by (by eapply list_elem_of_lookup_2).
  destruct (so_each _ _ (co_sel _ Hco _ Es) e Hel) as [(p & Hp & Hpr) _ _].
  destruct Hpr as [Hf Hc Hfa Hd|Hf|Hf]; [|congruence|congruence]. rewrite Hf in Ef. injection Ef as <-. rewrite Hp.
  pose proof (drain_loop_spec (drain_fuel o p) o e (total sel) p) as D. unfold drain_fuel in D at 1.
  destruct (drain_loop _ _ _ _ _) as [[e' total'] p'].
  specialize (D ltac:(lia) Hf Hc Hfa Hd (proj2 (co_pipes _ Hco _ _ Hp)) (proj2 (so_total _ _ (co_sel _ Hco _ Es)))).
  pose proof (core_drained _ _ _ _ _ _ _ _ Hco Es Ee Hp Hf Hc D) as Hco'.
  match goal with |- inv (match fd e' with Some _ => ?x | None => _ end) => change x with (set_entry i e' total' (pipe_of e) p' s) end.
  set (s1 := set_entry i e' total' (pipe_of e) p' s) in *.
  assert (Huse : forall a, entry_fds e ≡ₚ a ++ entry_fds e' -> fd_inv (a ++ fds_in_use s1) s1).
  { intros a Ha. eapply fd_inv_fields; [| | |eapply fd_inv_perm; [|exact Hfd]]; try done.
    unfold fds_in_use, s1, set_entry, upd_cache. simpl. rewrite Es. simpl. by eapply flat_map_insert. }
  unfold entry_fds in Huse. rewrite (dr_writers _ _ _ _ _ _ D), Hf in Huse.
  destruct (fd e') as [m|] eqn:Ef'.
  - split; [|done]. apply (Huse []).
    destruct (dr_progress _ _ _ _ _ _ D) as [Hf' _ _ _|Hf' _ _ _ _|Hf' _ _]; [|congruence|congruence].
    rewrite Ef' in Hf'. injection Hf' as ->. by rewrite (dr_pipe _ _ _ _ _ _ D).
  - destruct (close_inv (pipe_of e) (fds_in_use s1) s1) as [H1 H2].
    { apply (Huse [pipe_of e]). rewrite app_nil_r. by rewrite Permutation_app_comm. }
    split; [|by eapply core_but_fds]. unfold fds_in_use in *. by rewrite (proj1 (but_fds_same _ _ H2)).
Qed.

(** *** Writing *)

Lemma FlushWriter_spec o d off : (off <= length d)%nat -> (off <= fst (FlushWriter o d off) <= length d)%nat.
Proof.
  revert off. induction o as [|[n| |] o IH]; intros off Hoff; cbn [FlushWriter];
    destruct (off <? length d)%nat eqn:E; cbn [fst]; try lia.
  - apply Nat.ltb_lt in E. specialize (IH (off + Nat.min (S n) (length d - off))%nat). lia.
  - by apply IH.
Qed.

Lemma flat_map_one {A B} (f : A -> list B) l i j a b x : NoDup (flat_map f l) -> l !! i = Some a -> l !! j = Some b ->
  x ∈ f a -> x ∈ f b -> i = j.
Proof.
  revert i j. induction l as [|y l IH]; intros i j Hnd Hi Hj Ha Hb; [done|]. simpl in Hnd.
  apply NoDup_app in Hnd as (_ & Hd & Hnd).
  assert (Hin : forall k c, l !! k = Some c -> x ∈ f c -> x ∈ flat_map f l).
  { intros k c Hk Hc. apply list_elem_of_In, in_flat_map. exists c.
    by rewrite <- !list_elem_of_In; split; [eapply list_elem_of_lookup_2|]. }
  destruct i as [|i], j as [|j]; simplify_eq/=; [done| | |by f_equal; eapply IH].
  - destruct (Hd x Ha). by eapply Hin.
  - destruct (Hd x Hb). by eapply Hin.
Qed.

Lemma writer_fd e w : w ∈ writers e -> wr_fd w ∈ entry_fds e.
Proof.
  intros Hw. unfold entry_fds. apply elem_of_app. left. rewrite list_elem_of_In, <- in_rev, <- list_elem_of_In.
  apply list_elem_of_fmap. eauto.
Qed.

Lemma list_alter_insert {A} (f : A -> A) (l : list A) i x : l !! i = Some x -> alter f i l = <[i := f x]> l.
Proof. revert i. induction l as [|y l IH]; intros [|i] Hl; simplify_eq/=; [done|]. f_equal. by apply IH. Qed.

(** A reader of entry [i] at descriptor [n] gets further, and the entry's writers
    change. *)
Lemma core_writers s s' sel i e n off ws : core s -> cache_ s = Some sel -> entries sel !! i = Some e ->
  keep e = true -> (off <= length (data e))%nat -> (n < next_fd s)%nat ->
  (forall j x w, entries sel !! j = Some x -> w ∈ writers x -> wr_fd w = n -> j = i) ->
  (forall w, w ∈ ws -> (w ∈ writers e /\ wr_fd w <> n) \/ w = MkWriter n off) ->
  cache_ s' = Some (sel <{ entries ::= <[i := e <{ writers := ws }>]> }>) ->
  readers s' = <[n := Reader (data e) (take off (data e))]> (readers s) ->
  pipes s' = pipes s -> (next_fd s <= next_fd s')%nat -> selection_source s' = selection_source s -> core s'.
Proof.
  intros [P R S K] Hs Hl Hk Hoff Hn Hone Hws Hs' Hr Hp Hnext Hsrc. destruct (S sel Hs) as [S1 S2 S3 S5 S4].
  assert (He : e ∈ entries sel) by (by eapply list_elem_of_lookup_2).
  set (e' := e <{ writers := ws }>) in *.
  assert (Hfrom : forall d, from_owner s d -> from_owner s' d) by (unfold from_owner; by rewrite Hp).
  split.
  - intros m p. rewrite Hp. intros Hm. destruct (P m p Hm). lia.
  - intros m r Hm. rewrite Hr in Hm. destruct (decide (n = m)) as [<-|Hne].
    + rewrite lookup_insert_eq in Hm. injection Hm as <-. split_and!; [lia|by apply prefix_take|].
      apply Hfrom. by apply (keep_sent _ _ (S3 e He) Hk).
    + rewrite lookup_insert_ne in Hm by done. destruct (R m r Hm) as (? & ? & ?). split_and!; [lia|done|auto].
  - intros sel' Hsel'. rewrite Hs' in Hsel'. injection Hsel' as <-. split; simpl.
    + by rewrite (map_insert _ _ _ e).
    + rewrite (sum_data_insert _ _ e) by done. simpl. lia.
    + intros x [j Hj]%list_elem_of_lookup. destruct (decide (i = j)) as [<-|Hne].
      * rewrite list_lookup_insert_eq in Hj by (by eapply lookup_lt_Some). injection Hj as <-.
        destruct (S3 e He) as [E1 E2 E3]. split; [|done|].
        { destruct E1 as (p & Hpp & Hpr). exists p. rewrite Hp. split; [done|]. destruct Hpr; [by apply still_reading|by apply all_read|by apply given_up]. }
        intros w Hw. simpl. rewrite Hr. destruct (Hws w Hw) as [[Hold Hne]| ->].
        -- rewrite lookup_insert_ne by done. by apply E3.
        -- simpl. by rewrite lookup_insert_eq.
      * rewrite list_lookup_insert_ne in Hj by done. eapply entry_ok_agree; [|by apply S3; eapply list_elem_of_lookup_2].
        split; [by rewrite Hp|]. intros w Hw. rewrite Hr, lookup_insert_ne; [done|].
        intros Hwn. symmetry in Hwn. by destruct Hne; rewrite (Hone j x w Hj Hw Hwn).
    + done.
    + intros Ho. destruct (S4 Ho) as (O1 & O2 & O3). split_and!; [|done|by rewrite (map_insert _ _ _ e)].
      intros x Hx. destruct (insert_elem _ _ _ _ _ Hl S1 Hx) as [->|[? _]]; [done|by apply O1].
  - rewrite Hsrc. intros Hkept. destruct (K Hkept) as (sel0 & Hsel0 & Ho). rewrite Hs in Hsel0. injection Hsel0 as <-.
    exists (sel <{ entries ::= <[i := e']> }>). done.
Qed.

Lemma entry_fds_keep e : fd e = None -> entry_fds e = rev (map wr_fd (writers e)).
Proof. intros Hf. unfold entry_fds. by rewrite Hf, app_nil_r. Qed.

Lemma map_filter_fd n ws : map wr_fd (List.filter (fun w => negb (wr_fd w =? n)%nat) ws) =
  List.filter (fun m => negb (m =? n)%nat) (map wr_fd ws).
Proof. induction ws as [|w ws IH]; simpl; [done|]. destruct (negb _); simpl; by rewrite IH. Qed.

Lemma upd_entry_cache i f s sel e : cache_ s = Some sel -> entries sel !! i = Some e ->
  cache_ (upd_entry i f s) = Some (sel <{ entries ::= <[i := f e]> }>).
Proof.
  intros Hs Hl. unfold upd_entry, upd_cache. simpl. rewrite Hs. simpl. unfold modify. simpl. do 2 f_equal.
  by apply list_alter_insert.
Qed.

Lemma fds_split s sel i e : cache_ s = Some sel -> entries sel !! i = Some e ->
  NoDup (fds_in_use s) -> NoDup (entry_fds e).
Proof.
  unfold fds_in_use. intros -> Hl Hnd. rewrite <- (take_drop_middle _ _ _ Hl), flat_map_app in Hnd. simpl in Hnd.
  apply NoDup_app in Hnd as (_ & _ & Hnd). by apply NoDup_app in Hnd as (? & _).
Qed.

Lemma receive_readers n d off s g : readers s !! n = Some (Reader d g) ->
  readers (receive n d off s) = <[n := Reader d (take off d)]> (readers s).
Proof.
  intros Hr. simpl. apply map_eq. intros m. destruct (decide (n = m)) as [<-|Hne].
  - by rewrite lookup_alter_eq, lookup_insert_eq, Hr.
  - by rewrite lookup_alter_ne, lookup_insert_ne.
Qed.

(** A descriptor belongs to one entry. *)
Lemma writer_unique s sel i e n : fd_inv (fds_in_use s) s -> cache_ s = Some sel -> entries sel !! i = Some e ->
  n ∈ entry_fds e -> (n < next_fd s)%nat /\
  forall j x v, entries sel !! j = Some x -> v ∈ writers x -> wr_fd v = n -> j = i.
Proof.
  intros Hfd Es Ee Huse. split.
  - apply (fi_fresh _ _ Hfd). unfold fds_in_use. rewrite Es. apply list_elem_of_In, in_flat_map. exists e.
    rewrite <- !list_elem_of_In. split; [by eapply list_elem_of_lookup_2|done].
  - intros j x v Hj Hv Hvn. pose proof (fi_nodup _ _ Hfd) as Hnd. unfold fds_in_use in Hnd. rewrite Es in Hnd.
    eapply (flat_map_one _ _ j i); [exact Hnd|exact Hj|exact Ee| |exact Huse]. rewrite <- Hvn. by apply writer_fd.
Qed.

Lemma entry_fds_without e n : fd e = None -> NoDup (entry_fds e) -> n ∈ entry_fds e ->
  entry_fds e ≡ₚ [n] ++ entry_fds (e <{ writers ::= List.filter (fun w => negb (wr_fd w =? n)%nat) }>).
Proof.
  intros Hf Hnd Huse. destruct (proj1 (elem_of_Permutation _ _) Huse) as [rest Hrest]. rewrite Hrest. simpl. f_equiv.
  symmetry. rewrite entry_fds_keep by done. simpl. rewrite map_filter_fd, <- filter_rev.
  rewrite Hrest in Hnd. rewrite entry_fds_keep in Hrest by done. by apply filter_out.
Qed.

Lemma inv_OnWritable o h i n s : inv s -> inv (OnWritable o h i n s).
Proof.
  intros [Hfd Hco]. unfold OnWritable. destruct (cache_ s) as [sel|] eqn:Es; [|done]. simpl.
  destruct (entries sel !! i) as [e|] eqn:Ee; [|done].
  destruct (List.find _ (writers e)) as [w|] eqn:Ew; [|done].
  apply List.find_some in Ew as [Hw Hwn%Nat.eqb_eq]. rewrite <- list_elem_of_In in Hw.
  assert (He : e ∈ entries sel) by (by eapply list_elem_of_lookup_2).
  pose proof (so_each _ _ (co_sel _ Hco _ Es) e He) as Heok. destruct Heok as [E1 E2 E3].
  assert (Hk : keep e = true) by (apply E2; intros E; rewrite E in Hw; by apply elem_of_nil in Hw).
  destruct (keep_sent s e ltac:(by split) Hk) as [Hf _]. destruct (E3 w Hw) as [Hoff Hrd]. rewrite Hwn in Hrd.
  assert (Huse : n ∈ entry_fds e) by (rewrite <- Hwn; by apply writer_fd).
  destruct (writer_unique s sel i e n Hfd Es Ee Huse) as [Hnext Hone].
  pose proof (FlushWriter_spec o (data e) (offset w) Hoff) as Hfl.
  destruct (FlushWriter o (data e) (offset w)) as [off done]. simpl in Hfl.
  set (s1 := receive n (data e) off s).
  pose proof (receive_readers n (data e) off s _ Hrd : readers s1 = _) as Hr1.
  assert (Hfd1 : fd_inv (fds_in_use s1) s1) by (by eapply fd_inv_fields; [..|exact Hfd]).
  destruct (done || h).
  - unfold DestroyWriter. set (e' := e <{ writers ::= List.filter (fun w => negb (wr_fd w =? n)%nat) }>).
    assert (Hp : entry_fds e ≡ₚ [n] ++ entry_fds e')
      by (apply entry_fds_without; [done|by eapply fds_split; [..|apply Hfd]|done]).
    assert (Hc1 : fd_inv ([n] ++ flat_map entry_fds (<[i := e']> (entries sel))) s1).
    { eapply fd_inv_perm; [|exact Hfd1]. unfold fds_in_use, s1. simpl. rewrite Es. by apply (flat_map_insert _ i e e' [n]). }
    destruct (close_inv _ _ _ Hc1) as [H2 B2]. destruct (but_fds_same _ _ B2) as (C1 & C2 & C3 & C4 & C5).
    assert (Hcache : cache_ (upd_entry i (fun e => e <{ writers ::= List.filter (fun w => negb (wr_fd w =? n)%nat) }>) (close n s1))
      = Some (sel <{ entries ::= <[i := e']> }>)) by (apply upd_entry_cache; [by rewrite C1|done]).
    split.
    + eapply fd_inv_fields; [| | |eapply fd_inv_perm; [|exact H2]]; try done. unfold fds_in_use. by rewrite Hcache.
    + eapply (core_writers s _ sel i e n off); [done|done|done|done|lia|done|exact Hone| |exact Hcache|
        by simpl; rewrite C4|by simpl; rewrite C3|by simpl; rewrite C2|by simpl; rewrite C5].
      intros v Hv. left. rewrite list_elem_of_In in Hv. apply List.filter_In in Hv as [Hv Hvn].
      rewrite <- list_elem_of_In in Hv. by apply negb_true_iff, Nat.eqb_neq in Hvn.
  - set (g := fun e => _ : Entry).
    assert (Hcache : cache_ (upd_entry i g s1) = Some (sel <{ entries ::= <[i := g e]> }>))
      by (by apply upd_entry_cache).
    split.
    + eapply fd_inv_fields; [| | |eapply fd_inv_perm; [|exact Hfd1]]; try done. unfold fds_in_use. rewrite Hcache.
      unfold s1. simpl. rewrite Es. apply (flat_map_insert _ i e (g e) []); [done|].
      assert (Hm : map wr_fd (writers (g e)) = map wr_fd (writers e)); [|unfold entry_fds; by rewrite Hm].
      unfold g. simpl. rewrite map_map. apply map_ext. intros v. destruct (_ =? _)%nat eqn:E; [|done].
      simpl. symmetry. by apply Nat.eqb_eq.
    + eapply (core_writers s _ sel i e n off); [done|done|done|done|lia|done|exact Hone| |exact Hcache|done..].
      intros v (u & -> & Hu)%list_elem_of_fmap. destruct (wr_fd u =? n)%nat eqn:E; [by right|].
      apply Nat.eqb_neq in E. by left.
Qed.

Lemma core_open s l : core s -> core (s <{ open_fds := l }> <{ next_fd ::= S }>).
Proof.
  intros [P R S K]. split; simpl; try done.
  - intros n p Hn. destruct (P n p Hn). lia.
  - intros n r Hn. destruct (R n r Hn) as (? & ? & ?). split_and!; [lia|done|done].
  - intros sel Hs. destruct (S sel Hs) as [S1 S2 S3 S5 S4]. split; try done. intros e He. by destruct (S3 e He).
Qed.

Lemma inv_close_again n s s' use : fd_inv (n :: use) s -> core s -> use = fds_in_use s -> s' = close n s -> inv s'.
Proof.
  intros Hfd Hco Hu ->. destruct (close_inv _ _ _ Hfd) as [H1 B1]. split; [|by eapply core_but_fds].
  unfold fds_in_use. rewrite (proj1 (but_fds_same _ _ B1)). fold (fds_in_use s). by rewrite <- Hu.
Qed.

Lemma inv_SendSelection mime o ok s : inv s -> selection_source s = Some KeptSource ->
  inv (SendSelection mime o ok s).
Proof.
  intros [Hfd Hco] Hsrc. unfold SendSelection. destruct (open_fd s) as [s0 n] eqn:Eo.
  destruct (open_inv _ _ _ _ Hfd Eo) as (H0 & Hn & l & Es0).
  assert (Hco0 : core s0) by (rewrite Es0; by apply core_open).
  assert (Hu0 : fds_in_use s0 = fds_in_use s) by (by rewrite Es0).
  destruct (co_kept _ Hco Hsrc) as (sel & Hs & Ho).
  assert (Hs0 : cache_ s0 = Some sel) by (by rewrite Es0). rewrite Hs0.
  destruct (list_find _ (entries sel)) as [[i e]|] eqn:Ef; [|by eapply inv_close_again].
  apply list_find_Some in Ef as (Ee & _ & _).
  assert (He : e ∈ entries sel) by (by eapply list_elem_of_lookup_2).
  assert (Hk : keep e = true) by (by apply (so_owned _ _ (co_sel _ Hco _ Hs))).
  assert (Hfresh : forall j x v, entries sel !! j = Some x -> v ∈ writers x -> wr_fd v <> n).
  { intros j x v Hj Hv Hvn. assert (Hin : n ∈ fds_in_use s).
    { unfold fds_in_use. rewrite Hs. apply list_elem_of_In, in_flat_map. exists x.
      rewrite <- !list_elem_of_In. split; [by eapply list_elem_of_lookup_2|]. rewrite <- Hvn. by apply writer_fd. }
    apply (fi_fresh _ _ Hfd) in Hin. lia. }
  pose proof (FlushWriter_spec o (data e) 0 ltac:(lia)) as Hfl.
  destruct (FlushWriter o (data e) 0) as [off done]. simpl in Hfl.
  set (s1 := receive n (data e) off _).
  assert (Hr1 : readers s1 = <[n := Reader (data e) (take off (data e))]> (readers s0)).
  { unfold s1. rewrite (receive_readers _ _ _ _ []) by apply lookup_insert_eq. apply insert_insert_eq. }
  assert (Hfd1 : fd_inv (n :: fds_in_use s1) s1).
  { assert (Hu1 : fds_in_use s1 = fds_in_use s) by (unfold fds_in_use, s1; simpl; by rewrite Hs0, Hs).
    rewrite Hu1. by eapply fd_inv_fields; [..|exact H0]. }
  assert (Hnext : (n < next_fd s0)%nat) by (rewrite Es0; simpl; lia).
  assert (Hone : forall j x v, entries sel !! j = Some x -> v ∈ writers x -> wr_fd v = n -> j = i)
    by (intros j x v Hj Hv Hvn; by destruct (Hfresh j x v Hj Hv)).
  assert (Hco1 : core s1).
  { eapply (core_writers s0 s1 sel i e n off (writers e)); try done; [lia| |].
    - intros v Hv. left. split; [done|by eapply Hfresh].
    - subst s1. simpl. rewrite Hs0. destruct sel. unfold modify. simpl. do 2 f_equal.
      symmetry. apply list_insert_id. simpl in Ee. rewrite Ee. by destruct e. }
  destruct done; [by eapply inv_close_again|]. destruct ok; simpl; [|by eapply inv_close_again].
  set (g := fun e => _ : Entry).
  assert (Hcache : cache_ (upd_entry i g s1) = Some (sel <{ entries ::= <[i := g e]> }>))
    by (by apply upd_entry_cache).
  split.
  - eapply fd_inv_fields; [| | |eapply fd_inv_perm; [|exact Hfd1]]; try done. unfold fds_in_use. rewrite Hcache.
    unfold s1. simpl. rewrite Hs0. apply (flat_map_grow _ i e (g e) [n]); [done|].
    unfold entry_fds, g. simpl. rewrite map_app, rev_app_distr. done.
  - eapply (core_writers s0 _ sel i e n off); [exact Hco0|exact Hs0|exact Ee|exact Hk|lia|exact Hnext|exact Hone|
      |exact Hcache|exact Hr1|done|done|done].
    intros v [Hv|Hv%list_elem_of_singleton]%elem_of_app; [left|by right]. split; [done|by eapply Hfresh].
Qed.

(** *** The copy comes and goes *)

Lemma DestroySelection_spec s : fd_inv (fds_in_use s) s ->
  fd_inv [] (DestroySelection s) /\ but_fds (s <{ cache_ := None }>) (DestroySelection s).
Proof.
  intros Hfd. unfold DestroySelection, fds_in_use in *. destruct (cache_ s) as [sel|] eqn:Es.
  - apply destroy_inv. rewrite app_nil_r. by eapply fd_inv_fields; [..|exact Hfd].
  - split; [done|]. exists (open_fds s). destruct s. simpl in Es. by subst.
Qed.

Lemma core_drop s src : core s -> src <> Some KeptSource -> core (s <{ cache_ := None }> <{ selection_source := src }>).
Proof. intros [P R S K] Hsrc. by split. Qed.

(** No copy, and a selection that is not ours. *)
Definition vacant (s : clipboard) : Prop :=
  fd_inv [] s /\ core s /\ cache_ s = None /\ selection_source s <> Some KeptSource.

Lemma vacant_inv s : vacant s -> inv s.
Proof. intros (Hfd & Hco & Hc & _). split; [|done]. unfold fds_in_use. by rewrite Hc. Qed.

Lemma vacant_destroy s src : inv s -> src <> Some KeptSource ->
  vacant ((DestroySelection s) <{ selection_source := src }>).
Proof.
  intros [Hfd Hco] Hsrc. destruct (DestroySelection_spec s Hfd) as [H1 [l E]].
  split_and!; [|by rewrite E; apply (core_but_fds ((s <{ cache_ := None }>) <{ selection_source := src }>));
    [exists l|apply core_drop]|by rewrite E|done].
  by eapply fd_inv_fields; [..|exact H1].
Qed.

Definition building (s : clipboard) (es : list Entry) : Prop :=
  fd_inv (flat_map entry_fds es) s /\ core s /\ cache_ s = None /\ selection_source s <> Some KeptSource /\
  sel_ok s (MkSelection es 0 false false []).

(** A new pipe. *)
Lemma core_new_pipe s r : core s -> cache_ s = None -> pipes s !! r = None -> (r < next_fd s)%nat ->
  core (s <{ pipes ::= <[r := Pipe [] 0 true]> }>).
Proof.
  intros [P R S K] Hc Hnone Hr. split; simpl; try done.
  - intros n p Hn. destruct (decide (r = n)) as [<-|Hrn].
    + rewrite lookup_insert_eq in Hn. injection Hn as <-. simpl. lia.
    + rewrite lookup_insert_ne in Hn by done. by apply P.
  - intros n q Hn. destruct (R n q Hn) as (? & ? & m & p & Hm & Hd & Ho). split_and!; [done|done|].
    exists m, p. split; [|done]. simpl. rewrite lookup_insert_ne; [done|]. intros <-. congruence.
  - intros sel Hs. congruence.
Qed.

Lemma building_start mime a s es : building s es ->
  building (fst (start_read mime a (s, es))) (snd (start_read mime a (s, es))).
Proof.
  intros (Hfd & Hco & Hc & Hsrc & Hsel). unfold start_read. case_decide; [done|]. destruct (negb a.1); [done|].
  destruct (open_fd s) as [s1 r] eqn:E1. destruct (open_fd s1) as [s2 w] eqn:E2.
  destruct (open_inv _ _ _ _ Hfd E1) as (H1 & Hr & l1 & Es1). destruct (open_inv _ _ _ _ H1 E2) as (H2 & Hw & l2 & Es2).
  assert (Hco2 : core s2) by (rewrite Es2, Es1; by apply core_open, core_open).
  assert (Hnext : next_fd s2 = S (S r) /\ w = S r) by (rewrite Es2, Hw, Es1, Hr; done).
  assert (Hok : forall e, e ∈ es -> entry_ok s2 e).
  { intros e He. eapply entry_ok_agree; [|by apply (so_each _ _ Hsel)]. by rewrite Es2, Es1. }
  assert (Hc2 : cache_ s2 = None /\ selection_source s2 <> Some KeptSource /\ pipes s2 = pipes s)
    by (by rewrite Es2, Es1). clear Es1 Es2 E1 E2.
  destruct (negb a.2); cbn [fst snd].
  - destruct (close_inv r (w :: flat_map entry_fds es) s2) as [H3 B3].
    { eapply fd_inv_perm; [|exact H2]. apply perm_swap. }
    destruct (close_inv _ _ _ H3) as [H4 B4]. pose proof (but_fds_trans _ _ _ B3 B4) as B.
    destruct (but_fds_same _ _ B) as (C1 & C2 & C3 & C4 & C5).
    split_and!; [done|by eapply core_but_fds|by rewrite C1; apply Hc2|by rewrite C5; apply Hc2|].
    destruct Hsel as [S1 S2 S3 S5 S4]. split; try done. intros e He. eapply entry_ok_agree; [|by apply Hok].
    by split; [rewrite C3|intros; rewrite C4].
  - set (s3 := s2 <{ pipes ::= <[r := Pipe [] 0 true]> }>).
    assert (Hnone : pipes s !! r = None).
    { destruct (pipes s !! r) as [p|] eqn:Ep; [|done]. destruct (co_pipes _ Hco _ _ Ep). lia. }
    assert (Hne : forall e, e ∈ es -> pipe_of e <> r).
    { intros e He E. destruct (so_each _ _ Hsel e He) as [(p & Hp & _) _ _]. congruence. }
    assert (Hok3 : forall e, e ∈ es -> entry_ok s3 e).
    { intros e He. eapply entry_ok_agree; [|by apply Hok]. split; [|done]. simpl. rewrite lookup_insert_ne; [done|].
      intros E. by destruct (Hne e He). }
    assert (Hco3 : core s3) by (apply core_new_pipe; [done|apply Hc2|by rewrite (proj2 (proj2 Hc2))|lia]).
    destruct (close_inv w (r :: flat_map entry_fds es) s3) as [H4 B4];
      [by eapply fd_inv_fields; [..|exact H2]|].
    destruct (but_fds_same _ _ B4) as (C1 & C2 & C3 & C4 & C5).
    split_and!.
    + eapply fd_inv_perm; [|exact H4]. rewrite flat_map_app. simpl. by rewrite Permutation_app_comm.
    + by eapply core_but_fds.
    + rewrite C1. apply Hc2.
    + rewrite C5. apply Hc2.
    + destruct Hsel as [S1 S2 S3 S5 S4]. split; simpl in *; try done.
      * rewrite map_app. apply NoDup_app. split_and!; [done| |apply NoDup_singleton].
        intros x (e & -> & He)%list_elem_of_fmap Hx%list_elem_of_singleton. by destruct (Hne e He).
      * assert (Hsum : sum_data (es ++ [MkEntry mime [] false false (Some r) r []]) = sum_data es)
          by (clear; induction es; simpl in *; lia). rewrite Hsum. done.
      * intros e [He|He%list_elem_of_singleton]%elem_of_app.
        -- eapply entry_ok_agree; [|by apply Hok3]. split; [by rewrite C3|intros; by rewrite C4].
        -- subst e. split; simpl; [|done|by intros ? ?%elem_of_nil]. exists (Pipe [] 0 true).
           rewrite C3. simpl. rewrite lookup_insert_eq. split; [done|]. by apply still_reading.
Qed.

Lemma building_all mimes answers s es : building s es ->
  building (fst (read_all mimes answers (s, es))) (snd (read_all mimes answers (s, es))).
Proof.
  revert answers s es. induction mimes as [|m mimes IH]; intros answers s es Hb; cbn [read_all]; [done|].
  pose proof (building_start m (default (true, true) (head answers)) s es Hb) as H1.
  destruct (start_read _ _ (s, es)) as [s1 es1]. by apply IH.
Qed.

Lemma inv_CreateSelection mimes answers s : vacant s -> inv (CreateSelection mimes answers s).
Proof.
  intros (Hfd & Hco & Hc & Hsrc). unfold CreateSelection.
  assert (Hb : building s []).
  { split_and!; try done. split; [apply NoDup_nil_2|by vm_compute|by intros ? ?%elem_of_nil|done|done]. }
  apply (building_all mimes answers) in Hb. destruct (read_all mimes answers (s, [])) as [s1 es]. simpl in Hb.
  destruct Hb as (H1 & H2 & H3 & H4 & H5). destruct es as [|e es].
  - apply vacant_inv. by split_and!.
  - split; [by eapply fd_inv_fields; [..|exact H1]|]. destruct H2 as [P R S K]. split; simpl; try done.
    intros sel [= <-]. destruct H5 as [S1 S2 S3 S5 S4]. split; try done.
    intros x Hx. eapply entry_ok_agree; [|by apply S3]. done.
Qed.

(** Flags of the copy. *)
Lemma inv_flag g s : inv s -> (forall sel, entries (g sel) = entries sel /\ total (g sel) = total sel /\
    mime_types (g sel) = mime_types sel /\ owned (g sel) = owned sel /\
    (owned sel = true -> install sel = false -> install (g sel) = false)) -> inv (upd_cache g s).
Proof.
  intros [Hfd [P R S K]] Hg. split.
  - eapply fd_inv_fields; [..|eapply fd_inv_perm; [|exact Hfd]]; try done. unfold fds_in_use, upd_cache. simpl.
    destruct (cache_ s) as [sel|]; simpl; [|done]. by rewrite (proj1 (Hg sel)).
  - split; simpl; try done.
    + intros sel' Hs'. destruct (cache_ s) as [sel|] eqn:Es; [|done]. injection Hs' as <-.
      destruct (S sel eq_refl) as [S1 S2 S3 S5 S4]. destruct (Hg sel) as (E1 & E2 & E3 & E4 & E5).
      split; rewrite ?E1, ?E2, ?E3, ?E4; try done; [|intros Ho; apply E5; auto].
      intros e He. eapply entry_ok_agree; [|by apply S3]. done.
    + intros Hk. destruct (K Hk) as (sel & Hs & Ho). rewrite Hs. exists (g sel).
      split; [done|]. destruct (Hg sel) as (_ & _ & _ & -> & _). done.
Qed.

Lemma inv_OnSetSelection answers s : inv s -> selection_source s <> Some KeptSource -> inv (OnSetSelection answers s).
Proof.
  intros Hi Hsrc. unfold OnSetSelection. destruct (selection_source s) as [[id mimes|]|] eqn:E; [|done|].
  - apply inv_CreateSelection. pose proof (vacant_destroy s (selection_source s) Hi ltac:(congruence)) as Hv.
    assert (Hs : (DestroySelection s) <{ selection_source := selection_source s }> = DestroySelection s).
    { destruct (DestroySelection_spec s (proj1 Hi)) as [_ [l ->]]. by destruct s. }
    by rewrite Hs in Hv.
  - apply inv_flag; [done|]. intros sel. destruct (negb (owned sel)) eqn:Eo; simpl; [|done].
    destruct (negb (install sel)); [|done]. split_and!; try done. intros Ho. by rewrite Ho in Eo.
Qed.

Lemma inv_source s src : inv s -> selection_source s <> Some KeptSource -> src <> Some KeptSource ->
  inv (s <{ selection_source := src }>).
Proof.
  intros [Hfd [P R S K]] H1 H2. split; [by eapply fd_inv_fields; [..|exact Hfd]|]. split; try done.
  intros sel Hs. destruct (S sel Hs) as [S1 S2 S3 S5 S4]. split; try done. intros e He. by destruct (S3 e He).
Qed.

Lemma inv_set_selection src answers s : inv s -> src <> Some KeptSource ->
  inv (wlr_seat_set_selection src answers s).
Proof.
  intros Hi Hsrc. unfold wlr_seat_set_selection. destruct (same_source _ _); [done|].
  apply inv_OnSetSelection; [|done].
  destruct (selection_source s) as [[id mimes|]|] eqn:E.
  - by apply inv_source; [|congruence|].
  - by apply vacant_inv, vacant_destroy.
  - by apply inv_source; [|congruence|].
Qed.

(** *** Installing *)

Lemma close_source n s : selection_source (close n s) = selection_source s.
Proof. unfold close. by case_decide. Qed.

Lemma Drain_source o i s : selection_source (Drain o i s) = selection_source s.
Proof.
  unfold Drain. destruct (cache_ s); [|done]. destruct (_ !! i) as [e|]; [|done]. destruct (fd e); [|done].
  destruct (pipes s !! _); [|done]. destruct (drain_loop _ _ _ _ _) as [[e' t'] p'].
  destruct (fd e'); [done|]. by rewrite close_source.
Qed.

Lemma inv_drain_all o s : inv s -> inv (drain_all o s) /\ selection_source (drain_all o s) = selection_source s.
Proof.
  unfold drain_all. generalize (seq 0 (length (default [] (entries <$> cache_ s)))) as l. intros l. revert s.
  induction l as [|i l IH]; intros s Hi; simpl; [done|].
  destruct (IH _ (inv_Drain (o i) i _ Hi)) as [H1 ->]. by rewrite Drain_source.
Qed.

Lemma flat_map_filter f (l : list Entry) : flat_map entry_fds l ≡ₚ
  flat_map entry_fds (List.filter (fun e => negb (f e)) l) ++ flat_map entry_fds (List.filter f l).
Proof.
  induction l as [|e l IH]; simpl; [done|]. destruct (f e); simpl; rewrite IH; solve_Permutation.
Qed.

Lemma filter_elem (f : Entry -> bool) l e : e ∈ List.filter f l <-> e ∈ l /\ f e = true.
Proof. by rewrite !list_elem_of_In, List.filter_In. Qed.

Lemma filter_NoDup {B} (g : Entry -> B) f l : NoDup (map g l) -> NoDup (map g (List.filter f l)).
Proof.
  induction l as [|e l IH]; simpl; [done|]. intros [Hn Hl]%NoDup_cons. destruct (f e); simpl; [|auto].
  apply NoDup_cons. split; [|auto]. intros (x & Hx & Hin)%list_elem_of_fmap. apply Hn, list_elem_of_fmap.
  exists x. split; [done|]. by apply filter_elem in Hin as [? _].
Qed.

Lemma filter_sum f l : sum_data (List.filter f l) <= sum_data l.
Proof. induction l as [|e l IH]; simpl; [lia|]. destruct (f e); simpl; lia. Qed.

(** Keeping only the copies that are whole. *)
Lemma inv_drop_unkept s sel : inv s -> cache_ s = Some sel -> owned sel = false ->
  inv (drop_unkept s) /\ selection_source (drop_unkept s) = selection_source s /\
  cache_ (drop_unkept s) = Some (sel <{ entries ::= List.filter keep }>).
Proof.
  intros [Hfd Hco] Hs Ho. unfold drop_unkept. rewrite Hs.
  set (s1 := upd_cache _ s). assert (Hs1 : cache_ s1 = Some (sel <{ entries ::= List.filter keep }>))
    by (subst s1; unfold upd_cache; simpl; by rewrite Hs).
  destruct (destroy_inv (List.filter (fun e => negb (keep e)) (entries sel)) (fds_in_use s1) s1) as [H1 B1].
  { eapply fd_inv_fields; [..|eapply fd_inv_perm; [|exact Hfd]]; try done. unfold fds_in_use. rewrite Hs, Hs1.
    apply flat_map_filter. }
  destruct (but_fds_same _ _ B1) as (C1 & C2 & C3 & C4 & C5).
  assert (Hco1 : core s1).
  { destruct Hco as [P R S K]. split; try done.
    - intros sel' Hs'. rewrite Hs1 in Hs'. injection Hs' as <-. destruct (S sel Hs) as [S1 S2 S3 S5 S4].
      split; simpl; try (by rewrite Ho).
      + by apply filter_NoDup.
      + pose proof (filter_sum keep (entries sel)). lia.
      + intros e [He _]%filter_elem. eapply entry_ok_agree; [|by apply S3]. done.
    - intros Hk. destruct (K Hk) as (sel' & Hs' & Ho'). congruence. }
  split_and!; [|by rewrite C5|by rewrite C1]. split; [|by eapply core_but_fds].
  unfold fds_in_use in *. by rewrite C1.
Qed.

Lemma offer_elem es alloc m : m ∈ offer es alloc -> m ∈ map mime_type es.
Proof.
  revert alloc. induction es as [|e es IH]; intros alloc; simpl; [by intros ?%elem_of_nil|].
  destruct (default true _); [|by intros ?%elem_of_nil]. intros [->|Hm]%elem_of_cons; [left|right; by eapply IH].
Qed.

Lemma upd_cache_some f s sel : cache_ s = Some sel -> cache_ (upd_cache f s) = Some (f sel).
Proof. unfold upd_cache. simpl. by intros ->. Qed.

Lemma drain_all_cache o s sel : cache_ s = Some sel -> exists sel', cache_ (drain_all o s) = Some sel' /\
  owned sel' = owned sel /\ install sel' = install sel.
Proof.
  unfold drain_all. generalize (seq 0 (length (default [] (entries <$> cache_ s)))) as l. intros l. revert s sel.
  induction l as [|i l IH]; intros s sel Hs; simpl; [by exists sel|].
  assert (H1 : exists sel', cache_ (Drain (o i) i s) = Some sel' /\ owned sel' = owned sel /\ install sel' = install sel).
  { unfold Drain. rewrite Hs. destruct (_ !! i) as [e|]; [|by exists sel]. destruct (fd e); [|by exists sel].
    destruct (pipes s !! _); [|by exists sel]. destruct (drain_loop _ _ _ _ _) as [[e' t'] p'].
    assert (Hc : forall n s, cache_ (close n s) = cache_ s) by (intros; unfold close; by case_decide).
    destruct (fd e'); rewrite ?Hc; simpl; rewrite Hs; by eexists. }
  destruct H1 as (sel1 & H1 & E1 & E2). destruct (IH _ _ H1) as (sel2 & H2 & E3 & E4). exists sel2.
  split_and!; congruence.
Qed.

(** What is offered is there. *)
Lemma inv_offer_copy alloc s sel : inv s -> cache_ s = Some sel -> owned sel = false -> install sel = false ->
  selection_source s = None -> (forall e, e ∈ entries sel -> keep e = true) -> inv (offer_copy alloc s).
Proof.
  intros [Hfd Hco] Hs Ho Hi Hsrc Hk. unfold offer_copy.
  set (s3 := upd_cache _ s). assert (Hs3 : cache_ s3 = Some (sel <{ mime_types := offer (entries sel) alloc }>))
    by exact (upd_cache_some _ _ _ Hs).
  assert (Hfd3 : fd_inv (fds_in_use s3) s3).
  { eapply fd_inv_fields; [..|eapply fd_inv_perm; [|exact Hfd]]; try done. unfold fds_in_use. by rewrite Hs, Hs3. }
  destruct Hco as [P R S K]. destruct (S sel Hs) as [S1 S2 S3 S5 S4].
  rewrite Hs3. cbn [fmap option_fmap option_map default from_option]. simpl mime_types.
  destruct (offer (entries sel) alloc) as [|m ms] eqn:Eoff.
  - apply vacant_inv. assert (H3 : inv s3).
    { split; [done|]. split; try done; [|unfold s3; simpl; by rewrite Hsrc].
      intros sel3 E3. rewrite Hs3 in E3. injection E3 as <-. split; simpl; try done; [|by rewrite Ho].
      intros e He. eapply entry_ok_agree; [|by apply S3]. done. }
    pose proof (vacant_destroy s3 None H3 ltac:(done)) as Hv.
    assert (Hd : (DestroySelection s3) <{ selection_source := None }> = DestroySelection s3).
    { destruct (DestroySelection_spec s3 Hfd3) as [_ [l ->]]. simpl. by rewrite <- Hsrc. }
    by rewrite Hd in Hv.
  - unfold wlr_seat_set_selection. simpl selection_source. rewrite Hsrc. cbn [same_source]. unfold OnSetSelection. simpl.
    set (s4 := _ <{ selection_source := _ }>).
    assert (Hs4 : cache_ s4 = Some (sel <{ mime_types := m :: ms }> <{ owned := true }>))
      by (unfold s4; simpl; by rewrite Hs; simpl; rewrite Eoff).
    split.
    + eapply fd_inv_fields; [..|eapply fd_inv_perm; [|exact Hfd3]]; try done. unfold fds_in_use. by rewrite Hs3, Hs4.
    + split; try done; [|by eexists].
      intros sel4 E4. rewrite Hs4 in E4. injection E4 as <-. split; simpl; try done.
      * intros e He. eapply entry_ok_agree; [|by apply S3]. done.
      * intros _. split_and!; [done|done|]. intros x Hx. rewrite <- Eoff in Hx. by apply offer_elem in Hx.
Qed.

Lemma inv_Install o alloc s : inv s -> inv (Install o alloc s).
Proof.
  intros Hi. unfold Install. destruct (cache_ s) as [sel|] eqn:Es; [|done]. destruct (install sel) eqn:Ei; [|done].
  assert (Hno : owned sel = false).
  { destruct (owned sel) eqn:Eo; [|done]. rewrite (so_install _ _ (co_sel _ (proj2 Hi) _ Es) Eo) in Ei. done. }
  cbn [negb]. set (s0 := upd_cache _ s). assert (H0 : inv s0).
  { apply inv_flag; [done|]. intros sel'. by split_and!.  }
  destruct (selection_source s0) as [src|] eqn:Esrc; [done|].
  assert (Hs0 : cache_ s0 = Some (sel <{ install := false }>)) by exact (upd_cache_some _ _ _ Es).
  destruct (drain_all_cache o _ _ Hs0) as (sel1 & Hs1 & Ho1 & Hi1). simpl in Ho1, Hi1. rewrite Hno in Ho1.
  destruct (inv_drain_all o _ H0) as [H1 Esrc1].
  destruct (inv_drop_unkept _ _ H1 Hs1 Ho1) as (H2 & Esrc2 & Hs2).
  eapply inv_offer_copy; [done|done|done|done|congruence|]. by intros e [_ He]%filter_elem.
Qed.

Lemma inv_initial : inv initial_clipboard.
Proof.
  split; [|by split]. split; [done|done|apply NoDup_nil_2|by intros ? ?%elem_of_nil].
Qed.

Lemma inv_clip_do s ev : inv s -> inv (clip_do s ev).
Proof.
  intros Hi. destruct ev; cbn [clip_do].
  - by apply inv_owner_write.
  - by apply inv_owner_close.
  - by apply inv_set_selection.
  - by apply inv_set_selection.
  - unfold seat_handle_selection_source_destroy. destruct (selection_source s) as [[id mimes|]|] eqn:E; [|done|done].
    apply inv_OnSetSelection; [|done]. apply inv_source; [done|congruence|done].
  - destruct (selection_source s) as [[id mimes|]|] eqn:E; [done| |done]. by apply inv_SendSelection.
  - by apply inv_Drain.
  - by apply inv_OnWritable.
  - by apply inv_Install.
Qed.

Lemma clip_reachable evs : inv (foldl clip_do initial_clipboard evs).
Proof.
  assert (H : forall s, inv s -> inv (foldl clip_do s evs)); [|exact (H _ inv_initial)].
  induction evs as [|ev evs IH]; intros s Hi; simpl; [done|]. by apply IH, inv_clip_do.
Qed.
