(* ===== verification/ClipboardFacts.v ===== *)
(** * What the clipboard keeps

    Theorems on the copy of the selection modelled in [Clipboard]: no descriptor is
    lost or closed twice, what is offered is what the owner wrote, and the copy
    outlives its owner. *)

From S2P Require Import Prelude Clipboard.

(** ** Safety *)

(** C16. After any sequence of requests of clients, of reads and writes on the pipes
    with any interruptions and errors, and of idle callbacks, the descriptors that are
    open are those of the copies being read and of the clients being answered, each
    once, none was closed twice, and the copies hold at most 64 MiB; and once the
    object is destroyed nothing is open unless the copy had been made the selection. *)
Theorem descriptors_accounted_for evs :
  let s := foldl clip_do initial_clipboard evs in
  fds_ok s = true /\ open_fds s ≡ₚ fds_in_use s /\ NoDup (open_fds s) /\
  (forall sel, cache_ s = Some sel -> sum_data (entries sel) <= total sel <= kMaxSelectionSize) /\
  (fds_ok (SelectionPersist_destroy s) = true /\
   (open_fds (SelectionPersist_destroy s) = [] \/ exists sel, cache_ s = Some sel /\ owned sel = true)).
Proof.
  intros s. pose proof (clip_reachable evs) as [Hfd Hco]. fold s in Hfd, Hco.
  destruct (DestroySelection_spec s Hfd) as [D _]. destruct Hfd as [O P N F].
  split_and!; [done|done|by rewrite P|by apply Hco| |].
  - unfold SelectionPersist_destroy. destruct (cache_ s) as [sel|]; [|done]. destruct (owned sel); [done|]. apply D.
  - unfold SelectionPersist_destroy. destruct (cache_ s) as [sel|] eqn:Es.
    + destruct (owned sel) eqn:Eo; [right; by exists sel|]. left. apply Permutation_nil_r, D.
    + left. apply Permutation_nil_r. rewrite P. unfold fds_in_use. by rewrite Es.
Qed.

(** C14. While the copy is the selection, each mime type it offers has a copy that is not
    empty and is byte for byte what the owner wrote before it closed the pipe; and
    whatever a client was ever sent is the beginning of such a copy. *)
Theorem offered_is_what_was_written evs :
  let s := foldl clip_do initial_clipboard evs in
  (selection_source s = Some KeptSource ->
   exists sel, cache_ s = Some sel /\ mime_types sel <> [] /\
   forall m, m ∈ mime_types sel -> exists e p, e ∈ entries sel /\ mime_type e = m /\
     pipes s !! pipe_of e = Some p /\ write_open p = false /\ data e = sent p /\ data e <> []) /\
  (forall n r, readers s !! n = Some r -> got r `prefix_of` wanted r /\ from_owner s (wanted r)).
Proof.
  intros s. pose proof (clip_reachable evs) as [_ Hco]. fold s in Hco. split.
  - intros Hk. destruct (co_kept _ Hco Hk) as (sel & Hs & Ho). exists sel.
    pose proof (co_sel _ Hco _ Hs) as Hsel. destruct (so_owned _ _ Hsel Ho) as (Hkeep & Hne & Hm).
    split_and!; [done|done|]. intros m (e & -> & He)%Hm%list_elem_of_fmap.
    destruct (so_each _ _ Hsel e He) as [(p & Hp & Hpr) _ _].
    destruct (keep_complete e (Hkeep e He)) as (Hc & Hf & Hd). destruct Hpr; try congruence.
    by exists e, p.
  - intros n r Hr. by destruct (co_readers _ Hco n r Hr) as (_ & ? & ?).
Qed.

(** ** The copy outlives its owner *)

(** What the owner wrote into a pipe, and what is not read of it. *)
Definition sent_of (s : clipboard) (n : nat) : str := default [] (sent <$> pipes s !! n).

Definition left_of (s : clipboard) (e : Entry) : Z :=
  match fd e, pipes s !! pipe_of e with
  | Some _, Some p => Z.of_nat (length (unread p))
  | _, _ => 0
  end.

Definition left (s : clipboard) (es : list Entry) : Z := foldr (fun e n => left_of s e + n) 0 es.

(** The entry once all was read. *)
Definition whole (s : clipboard) (e : Entry) : Entry :=
  MkEntry (mime_type e) (sent_of s (pipe_of e)) true false None (pipe_of e) (writers e).

(** The owner is done with the entry, and nothing went wrong. *)
Definition ended (s : clipboard) (e : Entry) : Prop :=
  failed e = false /\ exists p, pipes s !! pipe_of e = Some p /\ write_open p = false.

Lemma left_of_pos s e : 0 <= left_of s e.
Proof. unfold left_of. destruct (fd e); [|lia]. destruct (pipes s !! _); lia. Qed.

Lemma left_pos s es : 0 <= left s es.
Proof. induction es as [|e es IH]; simpl; [lia|]. pose proof (left_of_pos s e). lia. Qed.

Lemma drain_loop_done fuel o e total p : (length o + length (unread p) < fuel)%nat -> Forall (fun r => r <> RdErr) o ->
  write_open p = false -> data e = take (taken p) (sent p) -> (taken p <= length (sent p))%nat ->
  total + Z.of_nat (length (unread p)) <= kMaxSelectionSize ->
  drain_loop fuel o e total p =
    (MkEntry (mime_type e) (sent p) true false None (pipe_of e) (writers e), total + Z.of_nat (length (unread p)),
     p <{ taken := length (sent p) }>).
Proof.
  revert o e total p. induction fuel as [|fuel IH]; intros o e total p Hfuel Ho Hw Hd Ht Hm; [lia|].
  cbn [drain_loop]. set (ro := match o with [] => _ | r :: o => _ end).
  assert (Hro : ro.1 <> RdErr /\ Forall (fun r => r <> RdErr) ro.2 /\ (length ro.2 <= length o)%nat /\
    (ro.1 = RdIntr -> length ro.2 < length o)%nat)
    by (subst ro; destruct Ho; simpl; split_and!; (lia || done)).
  clearbody ro. destruct ro as [r o']. simpl in Hro. destruct Hro as (Hr & Ho' & Hlen & Hintr). destruct r as [n| |]; [| |done].
  - destruct (unread p) as [|b rest] eqn:Eu.
    + rewrite Hw. assert (Hsent : taken p = length (sent p)).
      { unfold unread in Eu. apply (f_equal length) in Eu. rewrite length_drop in Eu. simpl in Eu. lia. }
      assert (Hde : data e = sent p) by (by rewrite Hd, Hsent, take_ge).
      rewrite <- Hsent, <- Hde, Z.add_0_r. by destruct p.
    + set (chunk := take _ (b :: rest)).
      assert (Hc0 : (0 < length chunk <= length (b :: rest))%nat).
      { subst chunk. rewrite length_take. pose proof chunk_size_pos. simpl length. lia. }
      assert (Hsent : length (b :: rest) = (length (sent p) - taken p)%nat)
        by (rewrite <- Eu; unfold unread; apply length_drop).
      destruct (_ >? _) eqn:El; [lia|].
      assert (Hc1 : chunk = take (length chunk) (unread p)).
      { rewrite Eu. subst chunk. by rewrite take_length_take. }
      clearbody chunk.
      set (e1 := e <{ data ::= fun d => d ++ chunk }>). set (p1 := p <{ taken ::= _ }>).
      assert (Hu : length (unread p1) = (length (b :: rest) - length chunk)%nat)
        by (unfold unread, p1; simpl; rewrite length_drop; simpl in Hsent; lia).
      rewrite IH; try done; simpl taken; simpl sent; simpl data; try lia.
      * f_equal. f_equal. lia.
      * rewrite Hd, Hc1 at 1. unfold unread. by rewrite take_take_drop.
  - apply IH; try done. specialize (Hintr eq_refl). lia.
Qed.

(** One entry, read to its end. *)
Record read_to_end (i : nat) (e : Entry) (sel : Selection) (s s' : clipboard) : Prop := {
  re_cache : cache_ s' = Some (sel <{ entries ::= <[i := whole s e]> }> <{ total ::= Z.add (left_of s e) }>);
  re_other : forall n, n <> pipe_of e -> pipes s' !! n = pipes s !! n;
  re_sent : forall n, sent_of s' n = sent_of s n;
  re_source : selection_source s' = selection_source s }.

Lemma close_same n s : cache_ (close n s) = cache_ s /\ pipes (close n s) = pipes s /\
  selection_source (close n s) = selection_source s.
Proof. unfold close. by case_decide. Qed.

Lemma Drain_done o i s sel e : inv s -> cache_ s = Some sel -> entries sel !! i = Some e -> ended s e ->
  Forall (fun r => r <> RdErr) o -> total sel + left_of s e <= kMaxSelectionSize ->
  read_to_end i e sel s (Drain o i s).
Proof.
  intros [_ Hco] Hs He (Hf & p & Hp & Hw) Ho Hm. unfold Drain. rewrite Hs, He.
  assert (Hel : e ∈ entries sel) by (by eapply list_elem_of_lookup_2).
  destruct (so_each _ _ (co_sel _ Hco _ Hs) e Hel) as [(q & Hq & Hpr) _ _]. rewrite Hp in Hq. injection Hq as <-.
  assert (Hsp : sent_of s (pipe_of e) = sent p) by (unfold sent_of; by rewrite Hp).
  destruct Hpr as [H1 H2 H3 H4|H1 H2 H3 H4 H5|]; [| |congruence]; unfold left_of in *; rewrite H1 in *.
  - rewrite Hp in Hm |- *. rewrite drain_loop_done by (try done; unfold drain_fuel; try lia; apply (co_pipes _ Hco _ _ Hp)).
    cbn [fd]. match goal with |- read_to_end _ _ _ _ (close ?n ?x) => destruct (close_same n x) as (C1 & C2 & C3) end.
    split.
    + rewrite C1. simpl. rewrite Hs. simpl. unfold whole. rewrite Hsp. unfold left_of. rewrite H1, Hp. by rewrite (Z.add_comm (total sel)).
    + intros n Hn. rewrite C2. simpl. by rewrite lookup_insert_ne.
    + intros n. unfold sent_of. rewrite C2. simpl. destruct (decide (pipe_of e = n)) as [<-|Hne].
      * by rewrite lookup_insert_eq, Hp.
      * by rewrite lookup_insert_ne.
    + by rewrite C3.
  - split; try done. rewrite Hs. f_equal. destruct sel as [es t ow ins ms]. simpl in *.
    assert (Hz : left_of s e = 0) by (unfold left_of; by rewrite H1). rewrite Hz.
    change (MkSelection es t ow ins ms = MkSelection (<[i := whole s e]> es) (0 + t) ow ins ms).
    f_equal. symmetry. apply list_insert_id. rewrite He. f_equal.
    unfold whole. rewrite Hsp. destruct e. simpl in *. by subst.
Qed.

Lemma left_other s s' es n : (forall m, m <> n -> pipes s' !! m = pipes s !! m) -> n ∉ map pipe_of es ->
  left s' es = left s es.
Proof.
  intros Ho. induction es as [|e es IH]; simpl; [done|]. intros [Hn Hes]%not_elem_of_cons.
  rewrite (IH Hes). unfold left_of. by rewrite Ho by congruence.
Qed.

Lemma drain_from o rest : (forall i, Forall (fun r => r <> RdErr) (o i)) -> forall dn s sel, inv s -> cache_ s = Some sel ->
  entries sel = dn ++ rest -> (forall e, e ∈ rest -> ended s e) -> total sel + left s rest <= kMaxSelectionSize ->
  exists sel', cache_ (foldl (fun s i => Drain (o i) i s) s (seq (length dn) (length rest))) = Some sel' /\
    entries sel' = dn ++ map (whole s) rest.
Proof.
  intros Ho. induction rest as [|e rest IH]; intros dn s sel Hi Hs Hes Hend Hm; simpl; [by exists sel|].
  assert (He : entries sel !! length dn = Some e) by (by rewrite Hes, list_lookup_middle).
  assert (Hnd : pipe_of e ∉ map pipe_of rest).
  { pose proof (so_pipes _ _ (co_sel _ (proj2 Hi) _ Hs)) as Hnd. rewrite Hes, map_app in Hnd.
    apply NoDup_app in Hnd as (_ & _ & [? _]%NoDup_cons). done. }
  simpl in Hm. pose proof (left_pos s rest).
  destruct (Drain_done (o (length dn)) (length dn) s sel e Hi Hs He (Hend e ltac:(left)) (Ho _) ltac:(lia)) as [R1 R2 R3 R4].
  pose proof (inv_Drain (o (length dn)) (length dn) s Hi) as Hi1. set (s1 := Drain _ _ s) in *. clearbody s1.
  destruct (IH (dn ++ [whole s e]) s1 _ Hi1 R1) as (sel' & Hs' & Hes').
  - simpl. rewrite Hes, insert_app_r_alt, Nat.sub_diag by lia. simpl. by rewrite <- app_assoc.
  - intros e' He'. destruct (Hend e' ltac:(by right)) as (Hf & p & Hp & Hw). split; [done|]. exists p.
    rewrite R2; [done|]. intros E. apply Hnd. rewrite <- E. by apply list_elem_of_fmap_2.
  - rewrite (left_other s s1 rest (pipe_of e) R2 Hnd). simpl. lia.
  - exists sel'. rewrite length_app, Nat.add_1_r in Hs'. split; [done|]. rewrite Hes', <- app_assoc. simpl.
    do 2 f_equal. apply map_ext. intros x. unfold whole. by rewrite R3.
Qed.

Lemma offer_all es : offer es [] = map mime_type es.
Proof. induction es as [|e es IH]; simpl; [done|]. by rewrite IH. Qed.

Lemma offer_copy_all s sel : cache_ s = Some sel -> selection_source s = None -> entries sel <> [] ->
  selection_source (offer_copy [] s) = Some KeptSource /\
  cache_ (offer_copy [] s) = Some (sel <{ mime_types := map mime_type (entries sel) }> <{ owned := true }>).
Proof.
  intros Hs Hsrc Hne. unfold offer_copy. rewrite (upd_cache_some _ _ _ Hs).
  cbn [fmap option_fmap option_map default from_option]. simpl mime_types. rewrite offer_all.
  destruct (map mime_type (entries sel)) as [|m ms] eqn:E; [by destruct (entries sel)|].
  unfold wlr_seat_set_selection. simpl selection_source. rewrite Hsrc. cbn [same_source]. unfold OnSetSelection. simpl.
  split; [done|]. by rewrite Hs; simpl; rewrite offer_all, E.
Qed.

(** Whether the owner wrote anything. *)
Definition nonempty (s : clipboard) (e : Entry) : bool := negb (bool_decide (sent_of s (pipe_of e) = [])).

Lemma filter_whole s es : List.filter keep (map (whole s) es) = map (whole s) (List.filter (nonempty s) es).
Proof.
  induction es as [|e es IH]; simpl; [done|]. change (keep (whole s e)) with (nonempty s e).
  destruct (nonempty s e); simpl; by rewrite IH.
Qed.

(** C15. The copy outlives its owner: when the selection has none, the owner has closed its
    pipes, nothing failed and all of it fits in the cache, the idle callback makes the
    copy the selection, offering exactly the mime types that were written, in the
    order of the owner, each with all that was written. *)
Theorem copy_outlives_owner evs o sel :
  let s := foldl clip_do initial_clipboard evs in
  cache_ s = Some sel -> install sel = true -> selection_source s = None ->
  (forall e, e ∈ entries sel -> ended s e) ->
  (forall i, Forall (fun r => r <> RdErr) (o i)) ->
  total sel + left s (entries sel) <= kMaxSelectionSize ->
  List.filter (nonempty s) (entries sel) <> [] ->
  let s' := clip_do s (EvIdle o []) in
  selection_source s' = Some KeptSource /\
  exists sel', cache_ s' = Some sel' /\
    entries sel' = map (whole s) (List.filter (nonempty s) (entries sel)) /\
    mime_types sel' = map mime_type (List.filter (nonempty s) (entries sel)).
Proof.
  intros s Hs Hi Hsrc Hend Ho Hm Hne. pose proof (clip_reachable evs : inv s) as Hinv. clearbody s.
  cbn [clip_do]. unfold Install. rewrite Hs, Hi. cbn [negb].
  set (s0 := upd_cache _ s). assert (Hs0 : cache_ s0 = Some (sel <{ install := false }>)) by exact (upd_cache_some _ _ _ Hs).
  assert (Hi0 : inv s0) by (apply inv_flag; [done|]; intros; by split_and!).
  change (selection_source s0) with (selection_source s). rewrite Hsrc.
  assert (Hno : owned sel = false).
  { destruct (owned sel) eqn:Eo; [|done]. rewrite (so_install _ _ (co_sel _ (proj2 Hinv) _ Hs) Eo) in Hi. done. }
  destruct (drain_from o (entries sel) Ho [] s0 _ Hi0 Hs0 eq_refl Hend Hm) as (sel1 & Hs1 & Hes1).
  destruct (drain_all_cache o _ _ Hs0) as (sel1' & Hs1' & Ho1 & Hi1). simpl in Ho1, Hi1.
  destruct (inv_drain_all o _ Hi0) as [Hinv1 Esrc1].
  unfold drain_all in Hs1', Hinv1, Esrc1 |- *. rewrite Hs0 in Hs1', Hinv1, Esrc1 |- *. simpl in Hs1, Hs1', Hinv1, Esrc1 |- *.
  set (s1 := foldl _ s0 _) in *. clearbody s1. assert (sel1' = sel1) as -> by congruence.
  destruct (inv_drop_unkept _ _ Hinv1 Hs1 ltac:(congruence)) as (_ & Esrc2 & Hs2).
  set (s2 := drop_unkept s1) in *. clearbody s2.
  set (sel2 := sel1 <{ entries ::= List.filter keep }>) in Hs2.
  assert (Hes2 : entries sel2 = map (whole s) (List.filter (nonempty s) (entries sel))).
  { simpl. rewrite Hes1. exact (filter_whole s0 (entries sel)). }
  destruct (offer_copy_all s2 sel2 Hs2 ltac:(congruence)) as [H1 H2].
  { rewrite Hes2. by destruct (List.filter (nonempty s) (entries sel)). }
  split; [done|]. eexists. split; [exact H2|]. simpl mime_types. simpl entries in Hes2 |- *. rewrite Hes2.
  split; [done|]. rewrite map_map. done.
Qed.

(** *** A copy, its owner, and a paste

    The owner offers text and an image it never writes, and XWayland's TARGETS; it
    writes in two parts, closes its pipes and exits. *)
Definition owner_exits : list clip_ev :=
  [EvSetSelection 1 (map txt ["TARGETS"; "text/plain"; "image/png"]%string) [];
   EvOwnerWrite 0 (txt "hello ");
   EvReadable [RdIntr; RdUpTo 3] 0;
   EvOwnerWrite 0 (txt "world");
   EvOwnerClose 0; EvOwnerClose 2; EvOwnerGone].

Definition cache_of (s : clipboard) : Selection := default (MkSelection [] 0 false false []) (cache_ s).

Lemma copy_outlives_owner_witness :
  let s := foldl clip_do initial_clipboard owner_exits in
  let s' := clip_do s (EvIdle (fun _ => []) []) in
  selection_source s' = Some KeptSource /\
  exists sel', cache_ s' = Some sel' /\
    entries sel' = map (whole s) (List.filter (nonempty s) (entries (cache_of s))) /\
    mime_types sel' = map mime_type (List.filter (nonempty s) (entries (cache_of s))).
Proof.
  apply (copy_outlives_owner owner_exits (fun _ => []) (cache_of (foldl clip_do initial_clipboard owner_exits))).
  - reflexivity.
  - reflexivity.
  - reflexivity.
  - apply Forall_forall. vm_compute. repeat constructor; eexists; done.
  - intros i. constructor.
  - vm_compute. congruence.
  - vm_compute. congruence.
Defined.

(** What a client that pastes the text gets, in two parts. *)
Example paste_after_exit :
  let s := foldl clip_do initial_clipboard
    (owner_exits ++ [EvIdle (fun _ => []) []; EvPaste (txt "text/plain") [WrUpTo 3] true;
                     EvWritable [WrIntr; WrUpTo 100] false 0 4]) in
  readers s !! 4%nat = Some (Reader (txt "hello world") (txt "hello world")) /\ open_fds s = [] /\
  mime_types (cache_of s) = [txt "text/plain"].
Proof. vm_compute. done. Qed.

(** A client that clears the clipboard gets its own text back: the callback cannot tell
    it from the end of the owner. *)
Example clear_restores_clipboard :
  let s := foldl clip_do initial_clipboard
    [EvSetSelection 1 [txt "text/plain"] []; EvOwnerWrite 0 (txt "secret"); EvOwnerClose 0; EvReadable [] 0;
     EvClear; EvIdle (fun _ => []) []] in
  selection_source s = Some KeptSource /\ map data (entries (cache_of s)) = [txt "secret"].
Proof. vm_compute. done. Qed.
