(* ===== verification/AppSwitcher.v ===== *)
(** * Alt+Tab

    Models AppSwitcher (src/src/view/app_switcher/app_switcher.{h,cc}): the windows in
    the order of their last use, the selection that Tab moves, the keys that end it,
    and the size of the panel. Drawing is left out: whether the panel can be drawn is
    an argument. The windows the compositor offers are an argument of [Cycle];
    activations of windows are recorded in order. *)

From S2P Require Import Prelude Box KeyBinding.

Definition kMinimumItemBox : Z := 128.
Definition kColumnSpacing : Z := 20.
Definition kBoxMargin : Z := 32.
Definition kPopupPadding : Z := 70.
Definition kMaximumRows : Z := 2.

Definition XKB_KEY_Escape : Z := 0xff1b.
Definition XKB_KEY_Return : Z := 0xff0d.
Definition XKB_KEY_KP_Enter : Z := 0xff8d.
Definition XKB_KEY_Alt_L : Z := 0xffe9.
Definition XKB_KEY_Alt_R : Z := 0xffea.

(** Alt, Shift, Control, Super and Meta, left and right. *)
Definition IsForwardedModifier (symbol : Z) : bool :=
  bool_decide (symbol ∈ [XKB_KEY_Alt_L; XKB_KEY_Alt_R; 0xffe1; 0xffe2; 0xffe3; 0xffe4; 0xffeb; 0xffec; 0xffe7; 0xffe8]).

Record Entry := MkEntry {
  surface : option nat; title : str; app_id : str; active : bool; minimized : bool }.

#[export] Instance entry_fields : Fields Entry := {| rebuild := fun e =>
  MkEntry (surface e) (title e) (app_id e) (active e) (minimized e) |}.

(** [callbacks_set] is whether the constructor got its callbacks, [tree_] whether the
    scene nodes could be made, [panel] where the panel is shown and the size of its
    cells. *)
Record AppSwitcher := Switcher {
  callbacks_set : bool;
  tree_ : bool;
  entries_ : list Entry;
  focus_history_ : list nat;
  current_index_ : Z;
  active_ : bool;
  panel : option (wlr_box * Z);
  activations : list nat }.

#[export] Instance switcher_fields : Fields AppSwitcher := {| rebuild := fun s =>
  Switcher (callbacks_set s) (tree_ s) (entries_ s) (focus_history_ s) (current_index_ s) (active_ s)
    (panel s) (activations s) |}.

Definition initial_switcher (callbacks tree : bool) : AppSwitcher :=
  Switcher callbacks tree [] [] (-1) false None [].

(** [entries_[current_index_].surface], if there is such an entry. *)
Definition selected (s : AppSwitcher) : option nat :=
  if (0 <=? current_index_ s) && (current_index_ s <? Z.of_nat (length (entries_ s)))
  then entries_ s !! Z.to_nat (current_index_ s) ≫= surface else None.

Definition IsActive (s : AppSwitcher) : bool := active_ s.

(** ** The panel *)

Record grid := Grid { columns : Z; rows : Z; cell_size : Z; panel_width : Z; panel_height : Z }.

Definition panel_grid (screen : wlr_box) (count : Z) : grid :=
  let maximum_width := Z.max kMinimumItemBox (box_width screen - 2 * kPopupPadding) in
  let content_width := Z.max 1 (maximum_width - 2 * kBoxMargin) in
  let default_cell := kMinimumItemBox + kColumnSpacing in
  let columns := Z.min (Z.max 1 (idiv content_width default_cell)) count in
  let columns := if count >? columns * kMaximumRows then idiv (count + kMaximumRows - 1) kMaximumRows else columns in
  let cell_size := if columns * default_cell <=? content_width then default_cell
                   else Z.max 48 (idiv content_width columns) in
  let rows := idiv (count + columns - 1) columns in
  Grid columns rows cell_size
    (Z.min (box_width screen) (columns * cell_size + 2 * kBoxMargin))
    (Z.min (box_height screen) (rows * cell_size + 2 * kBoxMargin)).

(** [draw_ok] is whether there are buffers of that size. *)
Definition UpdateView (screen : wlr_box) (draw_ok : bool) (s : AppSwitcher) : AppSwitcher :=
  if negb (active_ s) || negb (tree_ s) || bool_decide (entries_ s = []) then s <{ panel := None }>
  else if (box_width screen <=? 0) || (box_height screen <=? 0) then s <{ panel := None }>
  else
    let g := panel_grid screen (Z.of_nat (length (entries_ s))) in
    if negb draw_ok then s <{ panel := None }>
    else
      let x := box_x screen + idiv (box_width screen - panel_width g) 2 in
      let y := box_y screen + idiv (box_height screen - panel_height g) 2 in
      s <{ panel := Some (Box x y (panel_width g) (panel_height g), cell_size g) }>.

(** ** The selection *)

Definition Finish (activate : bool) (s : AppSwitcher) : AppSwitcher :=
  let chosen := if activate then selected s else None in
  let s := s <{ active_ := false }> <{ current_index_ := -1 }> <{ entries_ := [] }> <{ panel := None }> in
  match chosen with
  | Some f => s <{ activations ::= fun l => l ++ [f] }>
  | None => s
  end.

Definition Step (reverse : bool) (s : AppSwitcher) : AppSwitcher :=
  let count := Z.of_nat (length (entries_ s)) in
  if count <=? 0 then s <{ current_index_ := -1 }>
  else s <{ current_index_ ::= fun i => if reverse then Z.rem (i + count - 1) count else Z.rem (i + 1) count }>.

(** The loop of RefreshEntries over the history, and what it leaves of the windows. *)
Fixpoint by_history (history : list nat) (available : list Entry) : list Entry :=
  match history with
  | [] => available
  | f :: history =>
      match list_find (fun e => surface e = Some f) available with
      | Some (i, e) => e :: by_history history (delete i available)
      | None => by_history history available
      end
  end.

Definition index_of (P : Entry -> bool) (es : list Entry) : option Z :=
  Z.of_nat ∘ fst <$> list_find (fun e => P e = true) es.

Definition RefreshEntries (available : list Entry) (preferred : option nat) (s : AppSwitcher) : AppSwitcher :=
  let es := by_history (focus_history_ s) (List.filter (fun e => negb (bool_decide (surface e = None))) available) in
  let s := s <{ entries_ := es }> in
  match index_of (fun e => bool_decide (surface e = preferred)) es with
  | Some i => s <{ current_index_ := i }>
  | None => s <{ current_index_ := default 0 (index_of active es) }>
  end.

Definition Cycle (reverse : bool) (available : list Entry) (screen : wlr_box) (draw_ok : bool) (s : AppSwitcher)
    : AppSwitcher * bool :=
  if negb (callbacks_set s) then (s, false)
  else
    let preferred := if active_ s then selected s else None in
    let s := RefreshEntries available preferred s in
    if (length (entries_ s) <? 2)%nat then (if active_ s then Finish false s else s, false)
    else (s <{ active_ := true }> |> Step reverse |> UpdateView screen draw_ok, true).

(** [symbol] is [None] without a keyboard that has a state. *)
Definition HandleKey (symbol : option Z) (released : bool) (s : AppSwitcher) : AppSwitcher * bool :=
  if negb (active_ s) then (s, false)
  else
    match symbol with
    | None => (s, true)
    | Some k =>
        if (k =? XKB_KEY_Tab) || (k =? XKB_KEY_ISO_Left_Tab) then (s, false)
        else if k =? XKB_KEY_Escape then (if released then Finish false s else s, true)
        else if (k =? XKB_KEY_Return) || (k =? XKB_KEY_KP_Enter) then (if released then Finish true s else s, true)
        else if released && ((k =? XKB_KEY_Alt_L) || (k =? XKB_KEY_Alt_R)) then (Finish true s, false)
        else (s, negb (IsForwardedModifier k))
    end.

Definition SurfaceActivated (surface : option nat) (s : AppSwitcher) : AppSwitcher :=
  match surface with
  | None => s
  | Some f => s <{ focus_history_ ::= fun h => f :: List.filter (fun g => negb (g =? f)%nat) h }>
  end.

Definition SurfaceUnavailable (gone : option nat) (screen : wlr_box) (draw_ok : bool) (s : AppSwitcher) : AppSwitcher :=
  match gone with
  | None => s
  | Some f =>
      let s := s <{ focus_history_ ::= List.filter (fun g => negb (g =? f)%nat) }> in
      if negb (active_ s) then s
      else
        let chosen := selected s in
        let s := s <{ entries_ ::= List.filter (fun e => negb (bool_decide (surface e = Some f))) }> in
        if bool_decide (entries_ s = []) then Finish false s
        else
          s <{ current_index_ ::= fun i =>
                 default (Z.min i (Z.of_nat (length (entries_ s)) - 1))
                   (index_of (fun e => bool_decide (surface e = chosen)) (entries_ s)) }>
            |> UpdateView screen draw_ok
  end.

Definition Cancel (s : AppSwitcher) : AppSwitcher := if active_ s then Finish false s else s.

(** ** The switcher beside the compositor

    [alive] are the surfaces of the windows that are mapped. The compositor offers
    such windows, each once, activates such windows only, and says when one goes. *)
Record world := World { alive : list nat; sw : AppSwitcher }.

Definition offered (w : world) (available : list Entry) : Prop :=
  NoDup (omap surface available) /\ forall f, f ∈ omap surface available -> f ∈ alive w.

Inductive world_step (w : world) : world -> Prop :=
| st_map f : world_step w (World (f :: alive w) (sw w))
| st_activated f : f ∈ alive w -> world_step w (World (alive w) (SurfaceActivated (Some f) (sw w)))
| st_gone f screen ok : world_step w (World (List.filter (fun g => negb (g =? f)%nat) (alive w))
    (SurfaceUnavailable (Some f) screen ok (sw w)))
| st_cycle reverse available screen ok : offered w available ->
    world_step w (World (alive w) (fst (Cycle reverse available screen ok (sw w))))
| st_key symbol released : world_step w (World (alive w) (fst (HandleKey symbol released (sw w))))
| st_cancel : world_step w (World (alive w) (Cancel (sw w))).

(** What holds of the selection while it is shown. *)
Record selecting (alive : list nat) (s : AppSwitcher) : Prop := {
  se_distinct : NoDup (omap surface (entries_ s));
  se_all : forall e, e ∈ entries_ s -> exists f, surface e = Some f /\ f ∈ alive;
  se_index : 0 <= current_index_ s < Z.of_nat (length (entries_ s)) }.

Record switcher_ok (alive : list nat) (s : AppSwitcher) : Prop := {
  sk_history : NoDup (focus_history_ s);
  sk_history_alive : forall f, f ∈ focus_history_ s -> f ∈ alive;
  sk_selecting : active_ s = true -> selecting alive s }.

Lemma filter_not_in (f g : nat) l : g ∈ List.filter (fun h => negb (h =? f)%nat) l <-> g ∈ l /\ g <> f.
Proof.
  rewrite list_elem_of_In, List.filter_In, <- list_elem_of_In. rewrite negb_true_iff, Nat.eqb_neq. done.
Qed.

Lemma filter_not_NoDup (f : nat) l : NoDup l -> NoDup (List.filter (fun h => negb (h =? f)%nat) l).
Proof.
  induction 1 as [|g l Hn _ IH]; simpl; [constructor|]. destruct (negb _); [|done].
  apply NoDup_cons. split; [|done]. by intros [? _]%filter_not_in.
Qed.

(** *** The order of the windows *)

Lemma by_history_perm h es : by_history h es ≡ₚ es.
Proof.
  revert es. induction h as [|f h IH]; intros es; simpl; [done|].
  destruct (list_find _ es) as [[i e]|] eqn:E; [|apply IH].
  apply list_find_Some in E as (Hi & _ & _). rewrite IH. symmetry. by apply delete_Permutation.
Qed.

Definition usable (e : Entry) : bool := negb (bool_decide (surface e = None)).

Lemma omap_usable es : omap surface (List.filter usable es) = omap surface es.
Proof.
  induction es as [|e es IH]; csimpl; [done|]. destruct (usable e) eqn:U; csimpl; rewrite IH; [done|].
  unfold usable in U. destruct (surface e); [|done]. by rewrite bool_decide_false in U.
Qed.

Lemma index_of_Some P es i : index_of P es = Some i ->
  exists e, es !! Z.to_nat i = Some e /\ P e = true /\ 0 <= i < Z.of_nat (length es).
Proof.
  unfold index_of. intros Hi. apply fmap_Some in Hi as ([n e] & (Hn & HP & _)%list_find_Some & ->).
  exists e. simpl. rewrite Nat2Z.id. split_and!; [done|done|lia|]. apply lookup_lt_Some in Hn. lia.
Qed.

Lemma index_of_range P es : es <> [] -> 0 <= default 0 (index_of P es) < Z.of_nat (length es).
Proof.
  intros Hne. destruct (index_of P es) as [i|] eqn:E; simpl.
  - by destruct (index_of_Some _ _ _ E) as (_ & _ & _ & ?).
  - destruct es; [done|simpl; lia].
Qed.

Lemma selected_lookup s : 0 <= current_index_ s < Z.of_nat (length (entries_ s)) ->
  selected s = entries_ s !! Z.to_nat (current_index_ s) ≫= surface.
Proof. unfold selected. intros Hi. by destruct (_ && _) eqn:E; [|lia]. Qed.

Lemma UpdateView_same screen ok s : exists p, UpdateView screen ok s = s <{ panel := p }>.
Proof. unfold UpdateView. repeat case_match; by eexists. Qed.

Lemma RefreshEntries_spec available preferred s :
  let s' := RefreshEntries available preferred s in
  entries_ s' = by_history (focus_history_ s) (List.filter usable available) /\
  focus_history_ s' = focus_history_ s /\ active_ s' = active_ s /\ callbacks_set s' = callbacks_set s /\
  activations s' = activations s /\ tree_ s' = tree_ s /\
  current_index_ s' = match index_of (fun e => bool_decide (surface e = preferred)) (entries_ s') with
                      | Some i => i | None => default 0 (index_of active (entries_ s')) end.
Proof. unfold RefreshEntries. destruct (index_of _ _) eqn:E; simpl; rewrite ?E; done. Qed.

Lemma refresh_range available preferred s : entries_ (RefreshEntries available preferred s) <> [] ->
  0 <= current_index_ (RefreshEntries available preferred s) <
    Z.of_nat (length (entries_ (RefreshEntries available preferred s))).
Proof.
  intros Hne. destruct (RefreshEntries_spec available preferred s) as (_ & _ & _ & _ & _ & _ & ->).
  destruct (index_of _ _) as [i|] eqn:E; [by destruct (index_of_Some _ _ _ E) as (_ & _ & _ & ?)|by apply index_of_range].
Qed.

Lemma Step_index reverse s : 0 <= current_index_ s < Z.of_nat (length (entries_ s)) ->
  0 <= current_index_ (Step reverse s) < Z.of_nat (length (entries_ s)) /\
  current_index_ (Step reverse s) =
    (current_index_ s + (if reverse then -1 else 1)) mod Z.of_nat (length (entries_ s)).
Proof.
  intros Hi. unfold Step. set (n := Z.of_nat _) in *. destruct (n <=? 0) eqn:E; [lia|]. simpl.
  assert (Hm : (if reverse then Z.rem (current_index_ s + n - 1) n else Z.rem (current_index_ s + 1) n) =
    (current_index_ s + (if reverse then -1 else 1)) mod n).
  { destruct reverse; rewrite Z.rem_mod_nonneg by lia; [|done].
    replace (current_index_ s + n - 1) with (current_index_ s + -1 + 1 * n) by lia. by rewrite Z.mod_add by lia. }
  rewrite Hm. split; [|done]. apply Z.mod_pos_bound. lia.
Qed.

(** *** Every step keeps the selection valid *)

Lemma selecting_view l screen ok s : selecting l s -> selecting l (UpdateView screen ok s).
Proof. destruct (UpdateView_same screen ok s) as [p ->]. by intros []. Qed.

Lemma Finish_ok l a s : switcher_ok l s -> switcher_ok l (Finish a s).
Proof. intros [H1 H2 H3]. unfold Finish. destruct (if a then _ else _); by split. Qed.

Lemma Finish_active a s : active_ (Finish a s) = false.
Proof. unfold Finish. by destruct (if a then _ else _). Qed.

Lemma UpdateView_ok l screen ok s : switcher_ok l s -> switcher_ok l (UpdateView screen ok s).
Proof.
  destruct (UpdateView_same screen ok s) as [p ->]. intros [H1 H2 H3]. split; try done.
  intros Ha. by destruct (H3 Ha).
Qed.

Lemma refresh_selecting w available preferred s : offered w available ->
  entries_ (RefreshEntries available preferred s) <> [] ->
  selecting (alive w) (RefreshEntries available preferred s).
Proof.
  intros [Hnd Hal] Hne. split; [..|by apply refresh_range].
  - destruct (RefreshEntries_spec available preferred s) as (-> & _). by rewrite by_history_perm, omap_usable.
  - intros e He. destruct (RefreshEntries_spec available preferred s) as (Hes & _). rewrite Hes, by_history_perm in He.
    apply list_elem_of_In, List.filter_In in He as [He%list_elem_of_In Hu]. unfold usable in Hu.
    destruct (surface e) as [f|] eqn:E; [|by rewrite bool_decide_true in Hu]. exists f. split; [done|].
    apply Hal, list_elem_of_omap. eauto.
Qed.

Lemma Cycle_ok w reverse available screen ok s : offered w available -> switcher_ok (alive w) s ->
  switcher_ok (alive w) (fst (Cycle reverse available screen ok s)).
Proof.
  intros Hoff Hs. unfold Cycle. destruct (negb (callbacks_set s)); [done|]. cbv zeta.
  set (preferred := if active_ s then selected s else None).
  destruct (RefreshEntries_spec available preferred s) as (Hes & Hh & Ha & _).
  assert (Hr : entries_ (RefreshEntries available preferred s) <> [] ->
    selecting (alive w) (RefreshEntries available preferred s)) by (by apply refresh_selecting).
  set (r := RefreshEntries available preferred s) in *. clearbody r. destruct Hs as [H1 H2 H3].
  destruct (_ <? 2)%nat eqn:El; cbn [fst].
  - destruct (active_ r) eqn:Er; [|split; by rewrite ?Hh, ?Er].
    split; [simpl; by rewrite Hh|simpl; by rewrite Hh|by rewrite Finish_active].
  - apply UpdateView_ok. assert (Hne : entries_ r <> []) by (intros E; by rewrite E in El).
    destruct (Hr Hne) as [S1 S2 S3].
    assert (Hstep : forall s, Step reverse s = s <{ current_index_ := current_index_ (Step reverse s) }>)
      by (intros x; unfold Step; destruct (_ <=? 0); done).
    rewrite Hstep. split; simpl; try (by rewrite Hh). intros _. split; try done. simpl.
    pose proof (Step_index reverse (r <{ active_ := true }>)) as Hx. exact (proj1 (Hx S3)).
Qed.

Lemma HandleKey_ok l symbol released s : switcher_ok l s -> switcher_ok l (fst (HandleKey symbol released s)).
Proof.
  intros Hs. unfold HandleKey. repeat case_match; cbn [fst]; try done; by apply Finish_ok.
Qed.

Lemma omap_filter_NoDup (P : Entry -> bool) es : NoDup (omap surface es) -> NoDup (omap surface (List.filter P es)).
Proof.
  induction es as [|e es IH]; csimpl; [done|]. destruct (surface e) as [f|] eqn:E.
  - intros [Hn Hes]%NoDup_cons. destruct (P e); csimpl; rewrite ?E; [|auto]. apply NoDup_cons. split; [|auto].
    intros (x & Hx & Hf)%list_elem_of_omap. apply Hn, list_elem_of_omap. exists x. split; [|done].
    by apply list_elem_of_In, List.filter_In in Hx as [Hx%list_elem_of_In _].
  - intros Hes. destruct (P e); csimpl; rewrite ?E; auto.
Qed.

Lemma SurfaceUnavailable_ok l f screen ok s : switcher_ok l s ->
  switcher_ok (List.filter (fun g => negb (g =? f)%nat) l) (SurfaceUnavailable (Some f) screen ok s).
Proof.
  intros [H1 H2 H3]. unfold SurfaceUnavailable. cbv zeta.
  set (s1 := s <{ focus_history_ ::= _ }>).
  assert (Hh : NoDup (focus_history_ s1) /\ forall g, g ∈ focus_history_ s1 -> g ∈ List.filter (fun g => negb (g =? f)%nat) l).
  { split; [by apply filter_not_NoDup|]. intros g [Hg Hne]%filter_not_in. apply filter_not_in. auto. }
  destruct Hh as [Hh1 Hh2]. destruct (active_ s1) eqn:Ea; cbn [negb]; [|by split; rewrite ?Ea].
  destruct (H3 Ea) as [S1 S2 S3]. set (s2 := s1 <{ entries_ ::= _ }>).
  destruct (bool_decide (entries_ s2 = [])) eqn:Ee.
  - apply bool_decide_eq_true in Ee. split; [done|done|]. by rewrite Finish_active.
  - apply bool_decide_eq_false in Ee. apply UpdateView_ok. split; [done|done|]. intros _. split.
    + by apply omap_filter_NoDup.
    + intros e He. apply list_elem_of_In, List.filter_In in He as [He%list_elem_of_In Hne].
      destruct (S2 e He) as (g & Hg & Hl). exists g. split; [done|]. apply filter_not_in. split; [done|].
      intros ->. by rewrite Hg, bool_decide_true in Hne.
    + cbn [current_index_]. simpl. destruct (index_of _ _) as [i|] eqn:Ei; simpl.
      * by destruct (index_of_Some _ _ _ Ei) as (_ & _ & _ & ?).
      * assert (0 < length (entries_ s2))%nat by (destruct (entries_ s2); [done|simpl; lia]). simpl in *. lia.
Qed.

Lemma world_step_ok w w' : world_step w w' -> switcher_ok (alive w) (sw w) -> switcher_ok (alive w') (sw w').
Proof.
  intros Hst Hs. destruct Hst; simpl.
  - destruct Hs as [H1 H2 H3]. split; [done|intros; right; auto|]. intros Ha. destruct (H3 Ha) as [S1 S2 S3].
    split; try done. intros e He. destruct (S2 e He) as (g & ? & ?). exists g. split; [done|by right].
  - destruct Hs as [H1 H2 H3]. split; simpl.
    + apply NoDup_cons. split; [|by apply filter_not_NoDup]. by intros [_ ?]%filter_not_in.
    + intros g [->|[Hg _]%filter_not_in]%elem_of_cons; auto.
    + intros Ha. by destruct (H3 Ha).
  - by apply SurfaceUnavailable_ok.
  - by apply Cycle_ok.
  - by apply HandleKey_ok.
  - unfold Cancel. destruct (active_ _) eqn:Ea; [by apply Finish_ok|done].
Qed.

(** What a key activates. *)
Lemma HandleKey_activates l symbol released s : switcher_ok l s ->
  exists acts, activations (fst (HandleKey symbol released s)) = activations s ++ acts /\ forall f, f ∈ acts -> f ∈ l.
Proof.
  intros Hs. assert (Hnil : exists acts, activations s = activations s ++ acts /\ forall f, f ∈ acts -> f ∈ l)
    by (exists []; rewrite app_nil_r; split; [done|by intros ? ?%elem_of_nil]).
  assert (Hfin : active_ s = true -> forall a, exists acts, activations (Finish a s) = activations s ++ acts /\
    forall f, f ∈ acts -> f ∈ l).
  { intros Ha a. destruct (sk_selecting _ _ Hs Ha) as [S1 S2 S3]. unfold Finish. destruct a; [|done].
    rewrite selected_lookup by done. destruct (entries_ s !! _) as [e|] eqn:Ee; [|done].
    destruct (S2 e) as (f & Hf & Hl); [by eapply list_elem_of_lookup_2|]. simpl. rewrite Hf. exists [f].
    split; [done|]. by intros g ->%list_elem_of_singleton. }
  unfold HandleKey. destruct (active_ s) eqn:Ea; [|done]. specialize (Hfin eq_refl).
  repeat case_match; cbn [fst]; done.
Qed.

(** C24. Through every sequence of windows appearing, being focused and going away, of
    Alt+Tab in both directions and of other keys: while the switcher is shown its
    selection is one of its windows, they are distinct and all still exist; the
    history holds existing windows only, each once; and a key only ever activates a
    window that exists. *)
Theorem switcher_stays_valid callbacks tree l w :
  rtc world_step (World l (initial_switcher callbacks tree)) w ->
  (IsActive (sw w) = true -> selecting (alive w) (sw w)) /\
  NoDup (focus_history_ (sw w)) /\ (forall f, f ∈ focus_history_ (sw w) -> f ∈ alive w) /\
  (forall symbol released, exists acts,
     activations (fst (HandleKey symbol released (sw w))) = activations (sw w) ++ acts /\
     forall f, f ∈ acts -> f ∈ alive w).
Proof.
  intros Hr. assert (Hok : switcher_ok (alive w) (sw w)).
  { revert Hr. set (w0 := World l _). assert (H0 : switcher_ok (alive w0) (sw w0)).
    { split; [apply NoDup_nil_2|by intros ? ?%elem_of_nil|done]. }
    clearbody w0. induction 1; [done|]. eauto using world_step_ok. }
  destruct Hok as [H1 H2 H3]. split_and!; [done|done|done|]. intros. by apply HandleKey_activates.
Qed.

(** ** The window that is chosen *)

Fixpoint press_tab (n : nat) (reverse : bool) (available : list Entry) (screen : wlr_box) (ok : bool) (s : AppSwitcher)
    : AppSwitcher :=
  match n with
  | O => s
  | S n => press_tab n reverse available screen ok (fst (Cycle reverse available screen ok s))
  end.

(** The windows in the order of use, and where the focused one is. *)
Definition mru (available : list Entry) (s : AppSwitcher) : list Entry :=
  by_history (focus_history_ s) (List.filter usable available).

Definition focused_at (available : list Entry) (s : AppSwitcher) : Z := default 0 (index_of active (mru available s)).

Lemma index_of_here es i e f : NoDup (omap surface es) -> es !! i = Some e -> surface e = Some f ->
  index_of (fun x => bool_decide (surface x = Some f)) es = Some (Z.of_nat i).
Proof.
  intros Hnd Hi Hf. unfold index_of.
  assert (Hfind : list_find (fun x => bool_decide (surface x = Some f) = true) es = Some (i, e)); [|by rewrite Hfind].
  apply list_find_Some. split_and!; [done|by apply bool_decide_eq_true|].
  intros j y Hj Hlt Hy%bool_decide_eq_true. revert i j Hi Hj Hlt. induction es as [|x es IH]; intros i j Hi Hj Hlt; [done|].
  csimpl in Hnd. destruct j as [|j], i as [|i]; simpl in *; [lia| |lia|].
  - injection Hj as ->. rewrite Hy in Hnd. apply NoDup_cons in Hnd as [Hn _]. apply Hn, list_elem_of_omap.
    exists e. split; [by eapply list_elem_of_lookup_2|done].
  - eapply IH; [|exact Hi|exact Hj|lia]. destruct (surface x); [by apply NoDup_cons in Hnd as [_ ?]|done].
Qed.

(** A state of the switcher over these windows, [k] from the start. *)
Record at_index (available : list Entry) (s0 : AppSwitcher) (k : Z) (s : AppSwitcher) : Prop := {
  ai_callbacks : callbacks_set s = true;
  ai_active : active_ s = true;
  ai_history : focus_history_ s = focus_history_ s0;
  ai_entries : entries_ s = mru available s0;
  ai_acts : activations s = activations s0;
  ai_index : current_index_ s = k mod Z.of_nat (length (mru available s0)) }.

Lemma Cycle_shows (reverse : bool) available screen ok s : callbacks_set s = true ->
  (2 <= length (mru available s))%nat ->
  exists i, at_index available s (i + (if reverse then -1 else 1)) (fst (Cycle reverse available screen ok s)) /\
    i = match index_of (fun e => bool_decide (surface e = if active_ s then selected s else None)) (mru available s) with
        | Some i => i | None => focused_at available s end.
Proof.
  intros Hc Hl. unfold Cycle. rewrite Hc. cbn [negb]. cbv zeta.
  set (preferred := if active_ s then selected s else None).
  pose proof (refresh_range available preferred s) as Hrange.
  destruct (RefreshEntries_spec available preferred s) as (R1 & R2 & R3 & R4 & R5 & R6 & R7).
  set (r := RefreshEntries available preferred s) in *. clearbody r. fold (mru available s) in R1.
  rewrite R1 in Hrange, R7 |- *. destruct (_ <? 2)%nat eqn:El; [apply Nat.ltb_lt in El; lia|]. cbn [fst].
  destruct (UpdateView_same screen ok (Step reverse (r <{ active_ := true }>))) as [p Hp].
  specialize (Hrange ltac:(intros E; rewrite E in Hl; simpl in Hl; lia)).
  exists (current_index_ r). split; [|exact R7].
  rewrite Hp. pose proof (Step_index reverse (r <{ active_ := true }>)) as Hx. cbn [entries_] in Hx. simpl in Hx.
  rewrite R1 in Hx. destruct (Hx Hrange) as [_ Hidx].
  assert (Hsame : forall x, callbacks_set (Step reverse x) = callbacks_set x /\ active_ (Step reverse x) = active_ x /\
    focus_history_ (Step reverse x) = focus_history_ x /\ entries_ (Step reverse x) = entries_ x /\
    activations (Step reverse x) = activations x) by (intros x; unfold Step; destruct (_ <=? 0); done).
  destruct (Hsame (r <{ active_ := true }>)) as (Q1 & Q2 & Q3 & Q4 & Q5). simpl in Q1, Q2, Q3, Q4, Q5.
  split; simpl; congruence.
Qed.

Lemma mru_usable available s e : e ∈ mru available s -> exists f, surface e = Some f.
Proof.
  unfold mru. rewrite by_history_perm. intros [_ Hu]%list_elem_of_In%List.filter_In.
  unfold usable in Hu. destruct (surface e) as [f|]; [by exists f|by rewrite bool_decide_true in Hu].
Qed.

Lemma mru_NoDup available s : NoDup (omap surface available) -> NoDup (omap surface (mru available s)).
Proof. unfold mru. by rewrite by_history_perm, omap_usable. Qed.

Lemma Cycle_again (reverse : bool) available screen ok s0 k s : NoDup (omap surface available) ->
  (2 <= length (mru available s0))%nat -> at_index available s0 k s ->
  at_index available s0 (k + (if reverse then -1 else 1)) (fst (Cycle reverse available screen ok s)).
Proof.
  intros Hnd Hl [A1 A2 A3 A4 A5 A6].
  assert (Hm : mru available s = mru available s0) by (unfold mru; by rewrite A3).
  destruct (Cycle_shows reverse available screen ok s A1 ltac:(by rewrite Hm)) as (i & [B1 B2 B3 B4 B5 B6] & Hi).
  set (n := Z.of_nat (length (mru available s0))) in *. assert (Hn : 0 < n) by lia.
  pose proof (Z.mod_pos_bound k n Hn) as Hk.
  assert (Hi' : i = k mod n).
  { rewrite Hi, A2, selected_lookup, A4, A6, Hm by (rewrite A4, A6; fold n; lia).
    destruct (mru available s0 !! Z.to_nat (k mod n)) as [e|] eqn:Ee.
    - destruct (mru_usable available s0 e) as [f Hf]; [by eapply list_elem_of_lookup_2|]. simpl. rewrite Hf.
      rewrite (index_of_here _ _ _ _ (mru_NoDup _ _ Hnd) Ee Hf). lia.
    - apply lookup_ge_None in Ee. lia. }
  split; try congruence. rewrite B6, Hm, Hi'. fold n. by rewrite Zplus_mod_idemp_l.
Qed.

Lemma press_tab_index (n : nat) (reverse : bool) available screen ok s0 k s : NoDup (omap surface available) ->
  (2 <= length (mru available s0))%nat -> at_index available s0 k s ->
  at_index available s0 (k + (if reverse then -1 else 1) * Z.of_nat n) (press_tab n reverse available screen ok s).
Proof.
  intros Hnd Hl. revert k s. induction n as [|n IH]; intros k s Ha; cbn [press_tab].
  - by replace (k + _) with k by lia.
  - replace (k + _) with (k + (if reverse then -1 else 1) + (if reverse then -1 else 1) * Z.of_nat n) by lia.
    by apply IH, Cycle_again.
Qed.

Lemma tab_activates (n : nat) (reverse : bool) available screen ok s :
  IsActive s = false -> callbacks_set s = true ->
  NoDup (omap surface available) -> (2 <= length (List.filter usable available))%nat ->
  let s' := press_tab (S n) reverse available screen ok s in
  let '(s'', swallowed) := HandleKey (Some XKB_KEY_Alt_L) true s' in
  let place := (focused_at available s + (if reverse then -1 else 1) * Z.of_nat (S n))
                 mod Z.of_nat (length (mru available s)) in
  exists f, (mru available s !! Z.to_nat place ≫= surface) = Some f /\
    activations s'' = activations s ++ [f] /\ IsActive s'' = false /\ panel s'' = None /\ swallowed = false /\
    focus_history_ s'' = focus_history_ s /\ callbacks_set s'' = true.
Proof.
  intros Hi Hc Hnd Hl. assert (Hlm : (2 <= length (mru available s))%nat).
  { unfold mru. rewrite by_history_perm. exact Hl. }
  destruct (Cycle_shows reverse available screen ok s Hc Hlm) as (i & Ha & Hi'). unfold IsActive in Hi. rewrite Hi in Hi'.
  match type of Hi' with context [index_of ?P ?es] => destruct (index_of P es) as [j|] eqn:E end.
  { destruct (index_of_Some _ _ _ E) as (e & He & Hs%bool_decide_eq_true & _).
    destruct (mru_usable available s e) as [f ?]; [by eapply list_elem_of_lookup_2|congruence]. }
  subst i. cbn [press_tab].
  pose proof (press_tab_index n reverse available screen ok s _ _ Hnd Hlm Ha) as [A1 A2 A3 A4 A5 A6].
  set (s' := press_tab n _ _ _ _ _) in *. clearbody s'. clear Ha.
  assert (Hk : HandleKey (Some XKB_KEY_Alt_L) true s' = (Finish true s', false)) by (unfold HandleKey; by rewrite A2).
  rewrite Hk. set (len := Z.of_nat (length (mru available s))) in *. set (d := if reverse then -1 else 1) in *.
  replace (focused_at available s + d * Z.of_nat (S n)) with (focused_at available s + d + d * Z.of_nat n) by lia.
  rewrite <- A6. assert (Hr : 0 <= current_index_ s' < len) by (rewrite A6; apply Z.mod_pos_bound; lia).
  unfold Finish. rewrite selected_lookup, A4 by (rewrite A4; exact Hr).
  destruct (mru available s !! Z.to_nat (current_index_ s')) as [e|] eqn:Ee.
  - destruct (mru_usable available s e) as [f Hf]; [by eapply list_elem_of_lookup_2|]. simpl. rewrite Hf.
    exists f. simpl. by rewrite A5, A3, A1.
  - apply lookup_ge_None in Ee. lia.
Qed.

(** *** The order of last use *)

(** The switcher after anything has happened to it, with the surfaces that were focused,
    in the order in which it happened; a surface that goes away is forgotten. *)
Inductive runs : list nat -> AppSwitcher -> Prop :=
| run_start callbacks tree : runs [] (initial_switcher callbacks tree)
| run_focused us s f : runs us s -> runs (us ++ [f]) (SurfaceActivated (Some f) s)
| run_gone us s f screen ok : runs us s ->
    runs (List.filter (fun g => negb (g =? f)%nat) us) (SurfaceUnavailable (Some f) screen ok s)
| run_cycle us s reverse available screen ok : runs us s -> runs us (fst (Cycle reverse available screen ok s))
| run_key us s symbol released : runs us s -> runs us (fst (HandleKey symbol released s))
| run_cancel us s : runs us s -> runs us (Cancel s).

(** [f] was used, and [g] not since then. *)
Definition used_later (us : list nat) (f g : nat) : Prop :=
  exists l1 l2, us = l1 ++ f :: l2 /\ g <> f /\ g ∉ l2.

(** [f] comes before [g] in the list. *)
Definition listed_before (l : list nat) (f g : nat) : Prop := exists l1 l2, l = l1 ++ f :: l2 /\ g ∈ l2.

(** The windows used last come first, those never used last, as they are listed. *)
Definition comes_first (us windows : list nat) (f g : nat) : Prop :=
  used_later us f g \/ ((f ∉ us) /\ (g ∉ us) /\ listed_before windows f g).

Lemma sorted_filter {A} (R R' : A -> A -> Prop) (P : A -> bool) l : StronglySorted R l ->
  (forall x y, x ∈ l -> y ∈ l -> P x = true -> P y = true -> R x y -> R' x y) -> StronglySorted R' (List.filter P l).
Proof.
  induction 1 as [|x l Hl IH Hx]; intros HR; simpl; [constructor|].
  assert (Hl' : StronglySorted R' (List.filter P l)) by (apply IH; intros; apply HR; auto; by right).
  destruct (P x) eqn:E; [|done]. constructor; [done|]. apply Forall_forall. intros y Hy.
  apply list_elem_of_In, List.filter_In in Hy as [Hy%list_elem_of_In Py].
  apply HR; [left|by right|done|done|]. by eapply Forall_forall in Hx.
Qed.

Lemma history_same symbol released s : focus_history_ (fst (HandleKey symbol released s)) = focus_history_ s.
Proof. unfold HandleKey, Finish. repeat case_match; done. Qed.

Lemma history_Cycle reverse available screen ok s :
  focus_history_ (fst (Cycle reverse available screen ok s)) = focus_history_ s.
Proof.
  unfold Cycle. destruct (negb _); [done|]. cbv zeta. set (preferred := if active_ s then _ else _).
  destruct (RefreshEntries_spec available preferred s) as (_ & Hh & _). set (r := RefreshEntries _ _ _) in *. clearbody r.
  rewrite <- Hh. destruct (_ <? 2)%nat; cbn [fst]; [by destruct (active_ r)|].
  destruct (UpdateView_same screen ok (Step reverse (r <{ active_ := true }>))) as [p ->]. unfold Step. by destruct (_ <=? 0).
Qed.

Lemma history_gone f screen ok s : focus_history_ (SurfaceUnavailable (Some f) screen ok s) =
  List.filter (fun g => negb (g =? f)%nat) (focus_history_ s).
Proof.
  unfold SurfaceUnavailable. cbv zeta. destruct (negb _); [done|]. destruct (bool_decide _); [done|].
  match goal with |- context [UpdateView screen ok ?x] => by destruct (UpdateView_same screen ok x) as [p ->] end.
Qed.

(** The history is the surfaces that were used, the latest first. *)
Lemma runs_history us s : runs us s ->
  StronglySorted (used_later us) (focus_history_ s) /\ forall f, f ∈ focus_history_ s <-> f ∈ us.
Proof.
  induction 1 as [|us s f _ [IH1 IH2]|us s f screen ok _ [IH1 IH2]|us s reverse available screen ok _ IH|us s k b _ IH|us s _ IH].
  - split; [constructor|done].
  - cbn [SurfaceActivated]. simpl. split.
    + constructor.
      * eapply sorted_filter; [exact IH1|]. intros x y _ _ _ Hy%negb_true_iff%Nat.eqb_neq (l1 & l2 & -> & Hne & Hn).
        exists l1, (l2 ++ [f]). rewrite <- app_assoc. split_and!; [done|done|]. by rewrite elem_of_app, list_elem_of_singleton; intros [?|?].
      * apply Forall_forall. intros g [_ Hg]%filter_not_in. exists us, []. split_and!; [done|done|by apply not_elem_of_nil].
    + intros g. rewrite elem_of_cons, filter_not_in, elem_of_app, list_elem_of_singleton, IH2.
      destruct (decide (g = f)); naive_solver.
  - rewrite history_gone. split.
    + eapply sorted_filter; [exact IH1|]. intros x y _ _ Hx _ (l1 & l2 & -> & Hne & Hn).
      exists (List.filter (fun g => negb (g =? f)%nat) l1), (List.filter (fun g => negb (g =? f)%nat) l2).
      rewrite List.filter_app. simpl. rewrite Hx. split_and!; [done|done|]. by intros [? _]%filter_not_in.
    + intros g. by rewrite !filter_not_in, IH2.
  - by rewrite history_Cycle.
  - by rewrite history_same.
  - unfold Cancel. by destruct (active_ s).
Qed.

Lemma used_later_irrefl us h : StronglySorted (used_later us) h -> NoDup h.
Proof.
  induction 1 as [|f h _ IH Hf]; [constructor|]. apply NoDup_cons. split; [|done]. intros Hin.
  by eapply Forall_forall in Hf as (_ & _ & _ & ? & _).
Qed.

Definition in_list (l : list nat) (f : nat) : bool := bool_decide (f ∈ l).

Lemma in_list_true l f : in_list l f = true <-> f ∈ l.
Proof. apply bool_decide_eq_true. Qed.
Lemma in_list_false l f : in_list l f = false <-> f ∉ l.
Proof. apply bool_decide_eq_false. Qed.

(** The loop over the history in closed form. *)
Lemma by_history_order h es : NoDup h -> NoDup (omap surface es) ->
  omap surface (by_history h es) =
    List.filter (in_list (omap surface es)) h ++ List.filter (fun f => negb (in_list h f)) (omap surface es).
Proof.
  intros Hh. revert es. induction Hh as [|f h Hf Hh IH]; intros es Hes; simpl.
  { symmetry. apply List.forallb_filter_id, List.forallb_forall. done. }
  destruct (list_find _ es) as [[i e]|] eqn:E.
  - apply list_find_Some in E as (Hi & He & _). apply list_elem_of_split_length in Hi as (l1 & l2 & -> & ->).
    rewrite delete_middle. rewrite !omap_app in Hes |- *. csimpl in *. rewrite He in Hes |- *.
    apply NoDup_app in Hes as (N1 & N12 & [N2 N3]%NoDup_cons).
    assert (Hn : f ∉ omap surface (l1 ++ l2)).
    { rewrite omap_app, elem_of_app. intros [?|?]; [|done]. apply (N12 f); [done|left]. }
    assert (Hnd : NoDup (omap surface (l1 ++ l2))).
    { rewrite omap_app. apply NoDup_app. split_and!; [done| |done]. intros g Hg Hg2. apply (N12 g Hg). by right. }
    rewrite (IH _ Hnd). rewrite (proj2 (in_list_true _ f)) by (rewrite elem_of_app; right; left).
    cbn [app]. f_equal. f_equal.
    + apply List.filter_ext_in. intros g Hg%list_elem_of_In. apply bool_decide_ext. rewrite omap_app, !elem_of_app, elem_of_cons.
      assert (g <> f) by congruence. naive_solver.
    + rewrite omap_app in *. rewrite !List.filter_app. simpl. rewrite (proj2 (in_list_true (f :: h) f)) by left. cbn [negb].
      rewrite not_elem_of_app in Hn. destruct Hn as [Hn1 Hn2].
      f_equal; apply List.filter_ext_in; intros g Hg%list_elem_of_In; f_equal; apply bool_decide_ext; rewrite elem_of_cons;
        assert (g <> f) by congruence; naive_solver.
  - assert (Hn : f ∉ omap surface es).
    { intros (e & He & Hs)%list_elem_of_omap. apply list_find_None in E. by eapply Forall_forall in E. }
    rewrite (IH _ Hes). rewrite (proj2 (in_list_false _ f)) by done. f_equal. apply List.filter_ext_in.
    intros g Hg%list_elem_of_In. f_equal. apply bool_decide_ext. rewrite elem_of_cons. assert (g <> f) by congruence. naive_solver.
Qed.

Lemma listed_sorted l : StronglySorted (listed_before l) l.
Proof.
  cut (forall k, StronglySorted (listed_before (k ++ l)) l); [by intros H; apply (H [])|].
  induction l as [|f l IH]; intros k; [constructor|]. constructor.
  - replace (k ++ f :: l) with ((k ++ [f]) ++ l) by (by rewrite <- app_assoc). apply IH.
  - apply Forall_forall. intros g Hg. exists k, l. done.
Qed.

Lemma sorted_app {A} (R : A -> A -> Prop) l1 l2 : StronglySorted R l1 -> StronglySorted R l2 ->
  (forall x y, x ∈ l1 -> y ∈ l2 -> R x y) -> StronglySorted R (l1 ++ l2).
Proof.
  intros H1 H2 H. induction H1 as [|x l1 _ IH Hx]; simpl; [done|]. constructor.
  - apply IH. intros. apply H; [by right|done].
  - apply Forall_app. split; [done|]. apply Forall_forall. intros y Hy. apply H; [left|done].
Qed.

Lemma not_used_later us f g : f ∈ us -> g ∉ us -> used_later us f g.
Proof.
  intros (l1 & l2 & ->)%list_elem_of_split Hg. exists l1, l2. rewrite elem_of_app, elem_of_cons in Hg. naive_solver.
Qed.

Lemma mru_sorted us s available : runs us s -> NoDup (omap surface available) ->
  StronglySorted (comes_first us (omap surface available)) (omap surface (mru available s)).
Proof.
  intros [Hs Hin]%runs_history Hnd. pose proof (used_later_irrefl _ _ Hs) as Hh. unfold mru.
  rewrite by_history_order, omap_usable by (by rewrite ?omap_usable). apply sorted_app.
  - eapply sorted_filter; [exact Hs|]. intros. by left.
  - eapply sorted_filter; [apply listed_sorted|]. intros x y _ _ Hx%negb_true_iff%in_list_false Hy%negb_true_iff%in_list_false.
    rewrite Hin in Hx, Hy. by right.
  - intros x y Hx Hy. left. apply list_elem_of_In, List.filter_In in Hx as [Hx%list_elem_of_In _].
    apply list_elem_of_In, List.filter_In in Hy as [_ Hy%negb_true_iff%in_list_false]. rewrite Hin in Hx, Hy.
    by apply not_used_later.
Qed.

Lemma surfaces_lookup es : (forall e, e ∈ es -> exists f, surface e = Some f) ->
  length (omap surface es) = length es /\ forall i, omap surface es !! i = es !! i ≫= surface.
Proof.
  induction es as [|e es IH]; intros He; [done|]. destruct (He e) as [f Hf]; [left|].
  destruct IH as [IH1 IH2]; [intros; apply He; by right|]. csimpl. rewrite Hf. simpl. split; [by rewrite IH1|].
  intros [|i]; simpl; [by rewrite Hf|apply IH2].
Qed.

(** C25. Alt+Tab goes through the windows in the order in which they were last used. Whatever
    has happened to the switcher before, let [us] be the surfaces that were focused, in the
    order of time, less those that are gone, and [foc] the focused one. Then there is an
    order of the windows that are offered (all that have a surface, each once) in which a
    window used later comes first, and those never used come last as they were listed; and
    [n] presses of Tab followed by the release of Alt activate, from the focused window (or
    the first if none is), the window [n] places further in that order, around the end, or
    backwards with Shift; that window alone; the release still reaches the client, and the
    switcher is gone. It takes two windows, and a switcher that was not shown. *)
Theorem alt_tab_activates (n : nat) (reverse : bool) available screen ok s us foc :
  runs us s -> IsActive s = false -> callbacks_set s = true ->
  NoDup (omap surface available) -> (2 <= length (omap surface available))%nat ->
  (forall e f, e ∈ available -> surface e = Some f -> (active e = true <-> foc = Some f)) ->
  let s' := press_tab (S n) reverse available screen ok s in
  let '(s'', swallowed) := HandleKey (Some XKB_KEY_Alt_L) true s' in
  exists order start f, order ≡ₚ omap surface available /\
    StronglySorted (comes_first us (omap surface available)) order /\
    (forall g, foc = Some g -> g ∈ order -> order !! start = Some g) /\
    ((forall g, foc = Some g -> g ∉ order) -> start = 0%nat) /\
    order !! Z.to_nat ((Z.of_nat start + (if reverse then -1 else 1) * Z.of_nat (S n)) mod Z.of_nat (length order)) = Some f /\
    activations s'' = activations s ++ [f] /\ IsActive s'' = false /\ panel s'' = None /\ swallowed = false.
Proof.
  intros Hr Hi Hc Hnd Hl Hfoc. destruct (surfaces_lookup (mru available s)) as [L1 L2]; [apply mru_usable|].
  assert (Hp : omap surface (mru available s) ≡ₚ omap surface available) by (unfold mru; by rewrite by_history_perm, omap_usable).
  assert (Hl' : (2 <= length (List.filter usable available))%nat).
  { rewrite <- (by_history_perm (focus_history_ s)). fold (mru available s). by rewrite <- L1, Hp. }
  pose proof (tab_activates n reverse available screen ok s Hi Hc Hnd Hl') as H. cbv zeta in H |- *.
  destruct (HandleKey _ _ _) as [s'' swallowed]. destruct H as (f & Hf & H1 & H2 & H3 & H4 & _).
  assert (Hact : forall e g, e ∈ mru available s -> surface e = Some g -> (active e = true <-> foc = Some g)).
  { intros e g He. apply Hfoc. unfold mru in He. rewrite by_history_perm in He.
    by apply list_elem_of_In, List.filter_In in He as [He%list_elem_of_In _]. }
  exists (omap surface (mru available s)), (Z.to_nat (focused_at available s)), f.
  split; [exact Hp|]. split; [by apply mru_sorted|]. rewrite L1.
  assert (Hst : 0 <= focused_at available s).
  { unfold focused_at. destruct (index_of _ _) as [i|] eqn:Ei; [|done]. by destruct (index_of_Some _ _ _ Ei) as (_ & _ & _ & ?); simpl; lia. }
  rewrite Z2Nat.id by done. split_and!; [| |by rewrite L2|done|done|done|done].
  - intros g Hg (e & He & Hs)%list_elem_of_omap. rewrite L2. unfold focused_at. destruct (index_of active _) as [i|] eqn:Ei; simpl.
    + destruct (index_of_Some _ _ _ Ei) as (x & Hx & Hax & _). rewrite Hx. simpl.
      assert (Hxin : x ∈ mru available s) by (by eapply list_elem_of_lookup_2).
      destruct (mru_usable available s x Hxin) as [k Hk]. apply (Hact x k Hxin Hk) in Hax. congruence.
    + exfalso. unfold index_of in Ei. apply fmap_None, list_find_None in Ei. eapply Forall_forall in Ei; [|exact He].
      apply Ei. by apply (Hact e g).
  - intros Hno. unfold focused_at. destruct (index_of active _) as [i|] eqn:Ei; [|done].
    destruct (index_of_Some _ _ _ Ei) as (x & Hx & Hax & _). assert (Hxin : x ∈ mru available s) by (by eapply list_elem_of_lookup_2).
    destruct (mru_usable available s x Hxin) as [k Hk]. apply (Hact x k Hxin Hk) in Hax. exfalso.
    apply (Hno k Hax), list_elem_of_omap. eauto.
Qed.

(** *** Going back *)

Definition focus_on (f : nat) (available : list Entry) : list Entry :=
  map (fun e => e <{ active := bool_decide (surface e = Some f) }>) available.

Definition alt_tab (available : list Entry) (screen : wlr_box) (ok : bool) (s : AppSwitcher) : AppSwitcher :=
  fst (HandleKey (Some XKB_KEY_Alt_L) true (press_tab 1 false available screen ok s)).

Lemma omap_focus_on f available : omap surface (focus_on f available) = omap surface available.
Proof. induction available as [|e es IH]; csimpl; [done|]. by rewrite IH. Qed.

Lemma find_surface f es : f ∈ omap surface es ->
  exists i e, list_find (fun e => surface e = Some f) es = Some (i, e) /\ es !! i = Some e /\ surface e = Some f.
Proof.
  intros (e & He & Hf)%list_elem_of_omap.
  destruct (list_find_elem_of (fun e => surface e = Some f) es e He Hf) as [[i x] Hx].
  exists i, x. destruct (proj1 (list_find_Some _ _ _ _) Hx) as (? & ? & _). done.
Qed.

Lemma mru_first_two x y h available s : focus_history_ s = x :: y :: h -> x <> y ->
  x ∈ omap surface available -> y ∈ omap surface available ->
  exists ex ey rest, mru (focus_on x available) s = ex :: ey :: rest /\ surface ey = Some y /\ active ex = true.
Proof.
  intros Hh Hxy Hx Hy. unfold mru. rewrite Hh. set (es := List.filter usable _).
  assert (Hes : omap surface es = omap surface available) by (unfold es; by rewrite omap_usable, omap_focus_on).
  assert (Hact : forall e, e ∈ es -> active e = bool_decide (surface e = Some x)).
  { intros e He%list_elem_of_In. apply List.filter_In in He as [He%list_elem_of_In _].
    by apply list_elem_of_fmap in He as (e0 & -> & _). }
  clearbody es. rewrite <- Hes in Hx, Hy. cbn [by_history].
  destruct (find_surface x es Hx) as (i & ex & -> & Hi & Hsx). cbn [by_history].
  assert (Hy' : y ∈ omap surface (delete i es)).
  { apply list_elem_of_omap in Hy as (ey & Hey & Hsy). apply list_elem_of_omap. exists ey. split; [|done].
    rewrite (delete_Permutation es i ex Hi) in Hey. apply elem_of_cons in Hey as [->|?]; [congruence|done]. }
  destruct (find_surface y _ Hy') as (j & ey & -> & _ & Hsy).
  eexists ex, ey, _. split_and!; [done|done|]. rewrite Hact by (by eapply list_elem_of_lookup_2).
  by rewrite Hsx, bool_decide_true.
Qed.

(** Alt+Tab from the window used last goes to the one before. *)
Lemma alt_tab_to_second x y h available screen ok s : IsActive s = false -> callbacks_set s = true ->
  focus_history_ s = x :: y :: h -> x <> y -> NoDup (omap surface available) ->
  x ∈ omap surface available -> y ∈ omap surface available ->
  let s' := alt_tab (focus_on x available) screen ok s in
  activations s' = activations s ++ [y] /\ IsActive s' = false /\ focus_history_ s' = focus_history_ s /\
  callbacks_set s' = true.
Proof.
  intros Hi Hc Hh Hxy Hnd Hx Hy. destruct (mru_first_two x y h available s Hh Hxy Hx Hy) as (ex & ey & rest & Hm & Hsy & Ha).
  assert (Hl : (2 <= length (List.filter usable (focus_on x available)))%nat).
  { rewrite <- (by_history_perm (focus_history_ s)). fold (mru (focus_on x available) s). rewrite Hm. simpl. lia. }
  pose proof (tab_activates 0 false (focus_on x available) screen ok s Hi Hc ltac:(by rewrite omap_focus_on) Hl) as H.
  unfold alt_tab. cbv zeta in H |- *. destruct (HandleKey _ _ _) as [s'' sw]. cbn [fst].
  destruct H as (f & Hf & H1 & H2 & _ & _ & H3 & H4). rewrite Hm in Hf. unfold focused_at in Hf. rewrite Hm in Hf.
  assert (H0 : index_of active (ex :: ey :: rest) = Some 0).
  { unfold index_of. cbn [list_find]. by rewrite decide_True. }
  rewrite H0 in Hf. simpl default in Hf.
  rewrite Z.mod_small in Hf by (simpl; lia). simpl in Hf. assert (f = y) as -> by congruence. done.
Qed.

(** Alt+Tab twice, with the compositor focusing each window that is activated, goes to
    the window used before and comes back. *)
Theorem alt_tab_twice_returns a b h available screen ok s :
  IsActive s = false -> callbacks_set s = true -> focus_history_ s = a :: b :: h -> a <> b ->
  NoDup (omap surface available) -> a ∈ omap surface available -> b ∈ omap surface available ->
  let s1 := alt_tab (focus_on a available) screen ok s in
  let s2 := alt_tab (focus_on b available) screen ok (SurfaceActivated (Some b) s1) in
  activations s1 = activations s ++ [b] /\ activations s2 = activations s ++ [b; a].
Proof.
  intros Hi Hc Hh Hab Hnd Ha Hb s1 s2.
  destruct (alt_tab_to_second a b h available screen ok s Hi Hc Hh Hab Hnd Ha Hb) as (H1 & H2 & H3 & H4). fold s1 in H1, H2, H3, H4.
  split; [done|].
  destruct (alt_tab_to_second b a (List.filter (fun g => negb (g =? b)%nat) h) available screen ok
    (SurfaceActivated (Some b) s1)) as (G1 & _); try done.
  - simpl. rewrite H3, Hh. simpl. destruct (Nat.eqb_spec a b); [done|]. by rewrite Nat.eqb_refl.
  - unfold s2. rewrite G1. simpl. rewrite H1, <- app_assoc. done.
Qed.

(** ** The panel is on the screen *)

Lemma idiv_spec a b : 0 <= a -> 0 < b -> b * idiv a b <= a < b * idiv a b + b /\ 0 <= idiv a b.
Proof.
  intros Ha Hb. unfold idiv. rewrite Z.quot_div_nonneg by lia. pose proof (Z.div_mod a b ltac:(lia)).
  pose proof (Z.mod_pos_bound a b Hb). pose proof (Z.div_pos a b Ha Hb). lia.
Qed.

Lemma panel_grid_spec screen count : 0 < box_width screen -> 0 < box_height screen -> 0 < count ->
  let g := panel_grid screen count in
  0 < columns g /\ 0 < rows g <= kMaximumRows /\ count <= columns g * rows g /\
  0 < panel_width g <= box_width screen /\ 0 < panel_height g <= box_height screen /\
  (48 * columns g + 2 * kBoxMargin + 2 * kPopupPadding <= box_width screen ->
   panel_width g = columns g * cell_size g + 2 * kBoxMargin).
Proof.
  intros Hw Hh Hc. unfold panel_grid, kMaximumRows, kMinimumItemBox, kColumnSpacing, kBoxMargin, kPopupPadding. cbv zeta.
  set (content := Z.max 1 (Z.max 128 (box_width screen - 2 * 70) - 2 * 32)). set (c0 := Z.min _ count). cbn [columns rows cell_size panel_width panel_height].
  assert (Hc0 : 0 < c0 <= count).
  { unfold c0. pose proof (idiv_spec content (128 + 20) ltac:(lia) ltac:(lia)). lia. }
  clearbody c0. set (cols := if _ >? _ then _ else c0).
  assert (Hcols : 0 < cols /\ count <= 2 * cols).
  { unfold cols. pose proof (idiv_spec (count + 2 - 1) 2 ltac:(lia) ltac:(lia)). destruct (_ >? _) eqn:E; lia. }
  clearbody cols. destruct Hcols as [H1 H2].
  destruct (idiv_spec (count + cols - 1) cols ltac:(lia) ltac:(lia)) as [R1 R2].
  set (r := idiv (count + cols - 1) cols) in *. clearbody r.
  assert (Hr : 0 < r <= 2) by nia.
  set (cell := if _ <=? _ then _ else _).
  assert (Hcell : 48 <= cell /\ (48 * cols <= content -> cols * cell <= content)).
  { unfold cell. destruct (_ <=? _) eqn:E; [lia|]. destruct (idiv_spec content cols ltac:(lia) ltac:(lia)) as [C1 C2].
    split; [lia|]. intros H48. destruct (Z.max_spec 48 (idiv content cols)) as [[_ ->]|[_ ->]]; lia. }
  clearbody cell. destruct Hcell as [K1 K2]. split_and!; nia.
Qed.

(** The panel of a shown switcher lies on the screen and has room for every window in at
    most two rows; unless cells would shrink below 48 pixels, each row lies inside it. *)
Theorem panel_on_screen screen s : 0 < box_width screen -> 0 < box_height screen ->
  IsActive s = true -> tree_ s = true -> entries_ s <> [] ->
  let g := panel_grid screen (Z.of_nat (length (entries_ s))) in
  exists box, panel (UpdateView screen true s) = Some (box, cell_size g) /\
    box_x screen <= box_x box /\ box_x box + box_width box <= box_x screen + box_width screen /\
    box_y screen <= box_y box /\ box_y box + box_height box <= box_y screen + box_height screen /\
    rows g <= kMaximumRows /\ Z.of_nat (length (entries_ s)) <= columns g * rows g /\
    (48 * columns g + 2 * kBoxMargin + 2 * kPopupPadding <= box_width screen ->
     box_width box = columns g * cell_size g + 2 * kBoxMargin).
Proof.
  intros Hw Hh Ha Ht Hne g. unfold UpdateView, IsActive in *. rewrite Ha, Ht, bool_decide_false by done. cbn [negb orb].
  destruct (_ || _) eqn:E; [lia|]. fold g.
  assert (Hc : 0 < Z.of_nat (length (entries_ s))) by (destruct (entries_ s); [done|simpl; lia]).
  destruct (panel_grid_spec screen _ Hw Hh Hc) as (G1 & G2 & G3 & G4 & G5 & G6). fold g in G1, G2, G3, G4, G5, G6. clearbody g.
  destruct (idiv_spec (box_width screen - panel_width g) 2 ltac:(lia) ltac:(lia)).
  destruct (idiv_spec (box_height screen - panel_height g) 2 ltac:(lia) ltac:(lia)).
  eexists. split; [done|]. simpl. split_and!; lia.
Qed.

(** ** A session *)

Definition demo_entries : list Entry :=
  [MkEntry (Some 1%nat) (txt "editor") [] true false; MkEntry None [] [] false false;
   MkEntry (Some 2%nat) (txt "browser") [] false false; MkEntry (Some 3%nat) (txt "mail") [] false true].

Definition demo_screen : wlr_box := Box 0 0 1920 1080.

Definition demo_switcher : AppSwitcher :=
  initial_switcher true true |> SurfaceActivated (Some 3%nat) |> SurfaceActivated (Some 2%nat) |> SurfaceActivated (Some 1%nat).

Lemma switcher_stays_valid_witness :
  let w := World [2; 1]%nat (SurfaceActivated (Some 2%nat) (initial_switcher true true)) in
  rtc world_step (World [1%nat] (initial_switcher true true)) w /\
  (IsActive (sw w) = true -> selecting (alive w) (sw w)) /\
  NoDup (focus_history_ (sw w)) /\ (forall f, f ∈ focus_history_ (sw w) -> f ∈ alive w) /\
  (forall symbol released, exists acts,
     activations (fst (HandleKey symbol released (sw w))) = activations (sw w) ++ acts /\
     forall f, f ∈ acts -> f ∈ alive w).
Proof.
  intros w. assert (Hr : rtc world_step (World [1%nat] (initial_switcher true true)) w).
  { eapply rtc_l; [apply (st_map (World [1%nat] (initial_switcher true true)) 2)|]. simpl.
    apply rtc_once. unfold w. apply (st_activated (World [2; 1]%nat (initial_switcher true true)) 2). left. }
  split; [exact Hr|]. exact (switcher_stays_valid true true [1%nat] w Hr).
Defined.

Lemma demo_runs : runs [3; 2; 1]%nat demo_switcher.
Proof.
  apply (run_focused [3; 2]%nat), (run_focused [3%nat]), (run_focused []), run_start.
Defined.

(** Two presses go from the editor over the browser to the mail program. *)
Lemma alt_tab_activates_witness :
  let s' := press_tab 2 false demo_entries demo_screen true demo_switcher in
  activations (fst (HandleKey (Some XKB_KEY_Alt_L) true s')) = [3%nat] /\
  let '(s'', swallowed) := HandleKey (Some XKB_KEY_Alt_L) true s' in
  exists order start f, order ≡ₚ omap surface demo_entries /\
    StronglySorted (comes_first [3; 2; 1]%nat (omap surface demo_entries)) order /\
    (forall g, Some 1%nat = Some g -> g ∈ order -> order !! start = Some g) /\
    ((forall g, Some 1%nat = Some g -> g ∉ order) -> start = 0%nat) /\
    order !! Z.to_nat ((Z.of_nat start + 1 * Z.of_nat 2) mod Z.of_nat (length order)) = Some f /\
    activations s'' = activations demo_switcher ++ [f] /\ IsActive s'' = false /\ panel s'' = None /\ swallowed = false.
Proof.
  split; [reflexivity|].
  apply (alt_tab_activates 1 false demo_entries demo_screen true demo_switcher [3; 2; 1]%nat (Some 1%nat)).
  - exact demo_runs.
  - reflexivity.
  - reflexivity.
  - apply (bool_decide_unpack _). vm_compute. exact I.
  - vm_compute. lia.
  - intros e f He Hf. apply list_elem_of_lookup in He as [i He].
    destruct i as [|[|[|[|i]]]]; simpl in He; simplify_eq; simpl in *; simplify_eq; split; congruence.
Defined.

Lemma alt_tab_twice_returns_witness :
  let s1 := alt_tab (focus_on 1 demo_entries) demo_screen true demo_switcher in
  let s2 := alt_tab (focus_on 2 demo_entries) demo_screen true (SurfaceActivated (Some 2%nat) s1) in
  activations s1 = [2%nat] /\ activations s2 = [2; 1]%nat.
Proof.
  apply (alt_tab_twice_returns 1 2 [3%nat] demo_entries demo_screen true demo_switcher).
  - reflexivity.
  - reflexivity.
  - reflexivity.
  - lia.
  - apply (bool_decide_unpack _). vm_compute. exact I.
  - apply (bool_decide_unpack _). vm_compute. exact I.
  - apply (bool_decide_unpack _). vm_compute. exact I.
Defined.

Lemma panel_on_screen_witness :
  let s := fst (Cycle false demo_entries demo_screen true demo_switcher) in
  let g := panel_grid demo_screen 3 in
  exists box, panel (UpdateView demo_screen true s) = Some (box, cell_size g) /\
    0 <= box_x box /\ box_x box + box_width box <= 0 + 1920 /\ 0 <= box_y box /\ box_y box + box_height box <= 0 + 1080 /\
    rows g <= 2 /\ 3 <= columns g * rows g /\
    (48 * columns g + 2 * 32 + 2 * 70 <= 1920 -> box_width box = columns g * cell_size g + 2 * 32).
Proof.
  apply (panel_on_screen demo_screen (fst (Cycle false demo_entries demo_screen true demo_switcher))).
  - reflexivity.
  - reflexivity.
  - reflexivity.
  - reflexivity.
  - vm_compute. congruence.
Defined.

(** Two presses of Tab from the editor pick the window used third to last; a window that
    closes meanwhile leaves the selection. *)
Example alt_tab_session :
  let s := press_tab 2 false demo_entries demo_screen true demo_switcher in
  selected s = Some 3%nat /\ selected (SurfaceUnavailable (Some 3%nat) demo_screen true s) = Some 2%nat /\
  panel s = Some (Box 706 434 508 212, 148).
Proof. vm_compute. done. Qed.
