(* ===== verification/Overview.v ===== *)
(** * The overview of a workspace

    Models Multitasking::CalculateWindowLayout
    (src/src/view/multitasking/multitasking_layout.cc): the windows of a workspace are
    laid out in rows, shrunk until the rows fit. The three passes over the windows are
    three functions; indexing a row that does not exist, and a loop that does not end,
    give [None]. *)

From S2P Require Import Prelude Box.
From Stdlib Require Import Lqa.

Definition kFirstWindowScale : Q := 720 # 1080.
Definition kSpacingHorizontalScale : Q := 20 # 1920.
Definition kSpacingVerticalScale : Q := 20 # 1080.

Record MultitaskingWindowPlacement := Placement { pl_x : Z; pl_y : Z; pl_width : Z; pl_height : Z }.

(** Where a window is put before rounding: [sp_y] is the top of its row. *)
Record spot := Spot { sp_x : Q; sp_y : Q; sp_width : Q; sp_height : Q }.

(** The size of a window that is shrunk to [scale_height]. *)
Definition window_width (scale_height : Q) (g : wlr_box) : Q :=
  let width := inject_Z (Z.max 1 (box_width g)) in
  let height := inject_Z (Z.max 1 (box_height g)) in
  if Qltb scale_height height then (width * (scale_height / height))%Q else width.

Definition window_height (scale_height : Q) (g : wlr_box) : Q :=
  let height := inject_Z (Z.max 1 (box_height g)) in
  if Qltb scale_height height then scale_height else height.

Section Layout.
Variable screen_width screen_height window_area_y : Z.
Local Open Scope Q_scope.

Definition spacing_x : Z := Z.max 1 (lround (inject_Z screen_width * kSpacingHorizontalScale)).
Definition spacing_y : Z := Z.max 1 (lround (inject_Z screen_height * kSpacingVerticalScale)).
Definition content_height : Z := (screen_height - window_area_y)%Z.

Abbreviation W := (inject_Z screen_width).
Abbreviation sx := (inject_Z spacing_x).
Abbreviation sy := (inject_Z spacing_y).

(** One round of the search: whether the windows need more than [rows] rows, and the
    rows they used. *)
Fixpoint count_rows (scale : Q) (rows : nat) (row_width : Q) (used_rows : nat) (es : list wlr_box) : bool * nat :=
  match es with
  | [] => (false, used_rows)
  | g :: es =>
      let width := window_width scale g in
      let row_width := row_width + (width + sx) in
      if Qltb W row_width then
        let used_rows := S used_rows in
        if (rows <? used_rows)%nat then (true, used_rows)
        else count_rows scale rows (sx + width + sx) used_rows es
      else count_rows scale rows row_width used_rows es
  end.

Definition critical (rows : nat) : Q :=
  inject_Z (content_height - (Z.of_nat rows + 2) * spacing_y) / inject_Z (Z.of_nat rows + 1).

(** The search: whether windows are left over, the height of the rows, and their
    number. *)
Fixpoint fit_rows (fuel : nat) (scale : Q) (rows : nat) (es : list wlr_box) : option (bool * Q * nat) :=
  match fuel with
  | O => None
  | S fuel =>
      let '(overlap, used_rows) := count_rows scale rows sx 1 es in
      if overlap then
        let scale := scale - 15 in
        let rows := if Qle_bool scale (critical rows) then S rows else rows in
        if Qltb 32 scale then fit_rows fuel scale rows es else Some (true, scale, used_rows)
      else Some (false, scale, used_rows)
  end.

(** The widths of the rows. *)
Fixpoint sum_rows (scale : Q) (used_rows row : nat) (row_widths : list Q) (es : list wlr_box) : option (list Q) :=
  match es with
  | [] => Some row_widths
  | g :: es =>
      let width := window_width scale g in
      match row_widths !! row with
      | None => None
      | Some rw =>
          let row := if Qltb W (rw + width + sx) && (row + 1 <? used_rows)%nat then S row else row in
          match row_widths !! row with
          | None => None
          | Some rw => sum_rows scale used_rows row (<[row := rw + (width + sx)]> row_widths) es
          end
      end
  end.

Definition row_start (rw : Q) : Q := (W - rw) / 2 + sx.

Fixpoint place (scale : Q) (used_rows : nat) (row_widths : list Q) (row : nat) (x y used_width : Q)
    (es : list wlr_box) : option (list spot) :=
  match es with
  | [] => Some []
  | g :: es =>
      let width := window_width scale g in
      let height := window_height scale g in
      let put x y used_width row :=
        cons (Spot x y width height) <$>
          place scale used_rows row_widths row (x + (width + sx)) y (used_width + (width + sx)) es in
      if Qltb W (used_width + width + sx) && (row + 1 <? used_rows)%nat then
        match row_widths !! S row with
        | None => None
        | Some rw => put (row_start rw) (y + (scale + sy)) sx (S row)
        end
      else put x y used_width row
  end.

Definition round_spot (scale : Q) (p : spot) : MultitaskingWindowPlacement :=
  Placement (lround (sp_x p)) (lround (sp_y p + (scale - sp_height p) / 2)) (lround (sp_width p)) (lround (sp_height p)).

Definition first_scale : Q := inject_Z screen_height * kFirstWindowScale.
Definition layout_fuel : nat := S (Z.to_nat (Qfloor first_scale)).

Definition top_row (scale : Q) (used_rows : nat) : Q :=
  inject_Z window_area_y +
    (inject_Z content_height - inject_Z (Z.of_nat used_rows - 1) * sy - inject_Z (Z.of_nat used_rows) * scale) / 2.

Definition CalculateWindowLayout (es : list wlr_box) : option (list MultitaskingWindowPlacement) :=
  match es with
  | [] => Some []
  | _ =>
      match fit_rows layout_fuel first_scale 1 es with
      | None => None
      | Some (_, scale, used_rows) =>
          match sum_rows scale used_rows 0 (replicate used_rows sx) es with
          | None => None
          | Some row_widths =>
              match row_widths !! 0%nat with
              | None => None
              | Some rw =>
                  map (round_spot scale) <$>
                    place scale used_rows row_widths 0 (row_start rw) (top_row scale used_rows) sx es
              end
          end
      end
  end.

(** ** The search ends and every row exists *)

Lemma count_rows_used scale rows rw used es : (used <= snd (count_rows scale rows rw used es))%nat /\
  (fst (count_rows scale rows rw used es) = false -> (used <= rows)%nat -> (snd (count_rows scale rows rw used es) <= rows)%nat).
Proof.
  revert rw used. induction es as [|g es IH]; intros rw used; cbn [count_rows]; [split; [cbn; lia|done]|].
  destruct (Qltb W _); [|apply IH]. destruct (Nat.ltb_spec rows (S used)); [split; [simpl; lia|done]|].
  destruct (IH (sx + window_width scale g + sx) (S used)) as [H1 H2]. split; [lia|]. intros Hf _. apply H2; [done|lia].
Qed.

Lemma Qfloor_minus_15 q : (Qfloor (q - 15) < Qfloor q)%Z.
Proof.
  pose proof (Qfloor_le (q - 15)) as H1. pose proof (Qlt_floor q) as H2.
  assert (H3 : inject_Z (Qfloor (q - 15)) + 1 < inject_Z (Qfloor q + 1)) by lra.
  change 1 with (inject_Z 1) in H3. rewrite <- inject_Z_plus, <- Zlt_Qlt in H3. lia.
Qed.

Lemma fit_rows_total fuel scale rows es : (Z.to_nat (Qfloor scale) < fuel)%nat ->
  exists overlap scale' used, fit_rows fuel scale rows es = Some (overlap, scale', used) /\ (0 < used)%nat.
Proof.
  revert scale rows. induction fuel as [|fuel IH]; intros scale rows Hf; [lia|]. cbn [fit_rows].
  destruct (count_rows_used scale rows sx 1 es) as [Hu _].
  destruct (count_rows _ _ _ _ es) as [overlap used]. simpl in Hu.
  destruct overlap; [|do 3 eexists; split; [done|lia]].
  destruct (Qltb 32 (scale - 15)) eqn:E; [|do 3 eexists; split; [done|lia]].
  apply IH. apply Qltb_lt in E. pose proof (Qfloor_minus_15 scale).
  assert (H0 : (0 <= Qfloor (scale - 15))%Z).
  { pose proof (Qlt_floor (scale - 15)) as H1. assert (H2 : inject_Z 0 < inject_Z (Qfloor (scale - 15) + 1)) by (change (inject_Z 0) with 0; lra).
    rewrite <- Zlt_Qlt in H2. lia. }
  lia.
Qed.

Lemma sum_rows_total scale used row rws es : length rws = used -> (row < used)%nat ->
  exists rws', sum_rows scale used row rws es = Some rws' /\ length rws' = used.
Proof.
  revert row rws. induction es as [|g es IH]; intros row rws Hl Hr; cbn [sum_rows]; [by exists rws|].
  destruct (rws !! row) as [rw|] eqn:E; [|apply lookup_ge_None in E; lia].
  set (row' := if _ && _ then S row else row).
  assert (Hr' : (row' < used)%nat) by (subst row'; destruct (Qltb _ _); simpl; [destruct (Nat.ltb_spec (row + 1) used); lia|done]).
  destruct (rws !! row') as [rw'|] eqn:E'; [|apply lookup_ge_None in E'; lia].
  apply IH; [by rewrite length_insert|done].
Qed.

Lemma place_total scale used rws row x y uw es : length rws = used -> (row < used)%nat ->
  exists spots, place scale used rws row x y uw es = Some spots /\ length spots = length es.
Proof.
  revert row x y uw. induction es as [|g es IH]; intros row x y uw Hl Hr; cbn [place]; [by exists []|].
  destruct (_ && _) eqn:E.
  - apply andb_true_iff in E as [_ E%Nat.ltb_lt].
    destruct (rws !! S row) as [rw|] eqn:Er; [|apply lookup_ge_None in Er; lia].
    edestruct IH as (spots & -> & Hs); [done| |eexists; split; [done|simpl; by rewrite Hs]]. lia.
  - edestruct IH as (spots & -> & Hs); [done|exact Hr|]. eexists. split; [done|]. simpl. by rewrite Hs.
Qed.

(** The parts of a layout. *)
Lemma layout_parts es : es <> [] -> exists overlap scale used rws rw spots,
  fit_rows layout_fuel first_scale 1 es = Some (overlap, scale, used) /\
  sum_rows scale used 0 (replicate used sx) es = Some rws /\ rws !! 0%nat = Some rw /\
  place scale used rws 0 (row_start rw) (top_row scale used) sx es = Some spots /\
  (0 < used)%nat /\ length rws = used /\ length spots = length es /\
  CalculateWindowLayout es = Some (map (round_spot scale) spots).
Proof.
  intros Hne. destruct (fit_rows_total layout_fuel first_scale 1 es) as (ov & scale & used & Hf & Hu);
    [unfold layout_fuel; lia|].
  destruct (sum_rows_total scale used 0 (replicate used sx) es) as (rws & Hs & Hl); [apply length_replicate|done|].
  destruct (rws !! 0%nat) as [rw|] eqn:Er; [|apply lookup_ge_None in Er; lia].
  destruct (place_total scale used rws 0 (row_start rw) (top_row scale used) sx es Hl Hu) as (spots & Hp & Hlen).
  exists ov, scale, used, rws, rw, spots. split_and!; try done.
  unfold CalculateWindowLayout. destruct es; [done|]. by rewrite Hf, Hs, Er, Hp.
Qed.

(** ** Windows do not overlap *)

Lemma lround_bounds q : q - (1 # 2) <= inject_Z (lround q) <= q + (1 # 2).
Proof.
  unfold lround. destruct (Qle_bool 0 q).
  - pose proof (Qfloor_le (q + (1 # 2))). pose proof (Qlt_floor (q + (1 # 2))) as H2.
    rewrite inject_Z_plus in H2. change (inject_Z 1) with 1 in H2. lra.
  - pose proof (Qfloor_le (- q + (1 # 2))). pose proof (Qlt_floor (- q + (1 # 2))) as H2.
    rewrite inject_Z_plus in H2. change (inject_Z 1) with 1 in H2. rewrite inject_Z_opp. lra.
Qed.

(** Rounding keeps apart what is at least one pixel apart. *)
Lemma lround_apart a w b : a + w + 1 <= b -> (lround a + lround w <= lround b)%Z.
Proof.
  intros H. pose proof (lround_bounds a). pose proof (lround_bounds w). pose proof (lround_bounds b).
  assert (Hq : inject_Z (lround a + lround w) < inject_Z (lround b + 1)).
  { rewrite !inject_Z_plus. change (inject_Z 1) with 1. lra. }
  rewrite <- Zlt_Qlt in Hq. lia.
Qed.

Lemma sx_pos : 1 <= sx.
Proof. change 1 with (inject_Z 1). rewrite <- Zle_Qle. unfold spacing_x. lia. Qed.
Lemma sy_pos : 1 <= sy.
Proof. change 1 with (inject_Z 1). rewrite <- Zle_Qle. unfold spacing_y. lia. Qed.

Lemma side_pos n : 1 <= inject_Z (Z.max 1 n).
Proof. change 1 with (inject_Z 1). rewrite <- Zle_Qle. lia. Qed.

Lemma window_height_le scale g : window_height scale g <= scale.
Proof. unfold window_height. destruct (Qltb _ _) eqn:E; [lra|by apply Qltb_ge in E]. Qed.

Lemma window_width_bounds scale g : 0 < scale ->
  0 < window_width scale g <= inject_Z (Z.max 1 (box_width g)).
Proof.
  intros Hs. pose proof (side_pos (box_width g)) as Hw. pose proof (side_pos (box_height g)) as Hh. unfold window_width.
  set (w := inject_Z (Z.max 1 (box_width g))) in *. set (h := inject_Z (Z.max 1 (box_height g))) in *. clearbody w h.
  destruct (Qltb scale h) eqn:E; [|lra]. apply Qltb_lt in E.
  assert (Hq : 0 < scale / h <= 1).
  { split; [apply Qlt_shift_div_l; lra|apply Qle_shift_div_r; lra]. }
  set (k := scale / h) in *. clearbody k. split; nra.
Qed.

Lemma window_height_pos scale g : 0 < scale -> 0 < window_height scale g.
Proof. intros Hs. pose proof (side_pos (box_height g)). unfold window_height. destruct (Qltb _ _); lra. Qed.

(** In the same row and further right, or in a row below. *)
Definition after (scale x y : Q) (p : spot) : Prop :=
  (sp_y p == y /\ x <= sp_x p) \/ y + scale + sy <= sp_y p.

Lemma place_after scale used rws row x y uw es spots : 0 < scale ->
  place scale used rws row x y uw es = Some spots -> Forall (after scale x y) spots.
Proof.
  intros Hs. revert row x y uw spots. induction es as [|g es IH]; intros row x y uw spots Hp; cbn [place] in Hp.
  { injection Hp as <-. constructor. }
  pose proof (window_width_bounds scale g Hs) as Hw. pose proof sx_pos. pose proof sy_pos.
  destruct (_ && _).
  - destruct (rws !! S row) as [rw|]; [|done]. apply fmap_Some in Hp as (l & Hl & ->). constructor.
    + right. cbn [sp_y]. lra.
    + eapply Forall_impl; [by eapply IH|]. intros p [[H1 H2]|H1]; right; lra.
  - apply fmap_Some in Hp as (l & Hl & ->). constructor.
    + left. cbn [sp_x sp_y]. lra.
    + eapply Forall_impl; [by eapply IH|]. intros p [[H1 H2]|H1]; [left|right]; lra.
Qed.

Definition apart (p q : MultitaskingWindowPlacement) : Prop :=
  (pl_x p + pl_width p <= pl_x q)%Z \/ (pl_y p + pl_height p <= pl_y q)%Z.

Lemma round_apart scale x y w h p : h <= scale -> sp_height p <= scale ->
  after scale (x + (w + sx)) y p -> apart (round_spot scale (Spot x y w h)) (round_spot scale p).
Proof.
  intros Hh Hp [[H1 H2]|H1]; unfold apart, round_spot; cbn [pl_x pl_y pl_width pl_height sp_x sp_y sp_width sp_height]; pose proof sx_pos; pose proof sy_pos; [left|right].
  - apply lround_apart. lra.
  - apply lround_apart. unfold Qdiv. change (/ 2) with (1 # 2). lra.
Qed.

Lemma place_heights scale used rws row x y uw es spots :
  place scale used rws row x y uw es = Some spots -> Forall (fun p => sp_height p <= scale) spots.
Proof.
  revert row x y uw spots. induction es as [|g es IH]; intros row x y uw spots Hp; cbn [place] in Hp.
  { injection Hp as <-. constructor. }
  destruct (_ && _).
  - destruct (rws !! S row) as [rw|]; [|done]. apply fmap_Some in Hp as (l & Hl & ->).
    constructor; [apply window_height_le|by eapply IH].
  - apply fmap_Some in Hp as (l & Hl & ->). constructor; [apply window_height_le|by eapply IH].
Qed.

Lemma place_apart scale used rws row x y uw es spots : 0 < scale ->
  place scale used rws row x y uw es = Some spots -> ForallOrdPairs apart (map (round_spot scale) spots).
Proof.
  intros Hs. revert row x y uw spots. induction es as [|g es IH]; intros row x y uw spots Hp; cbn [place] in Hp.
  { injection Hp as <-. constructor. }
  assert (Hput : forall row x y uw l, place scale used rws row (x + (window_width scale g + sx)) y uw es = Some l ->
    ForallOrdPairs apart (map (round_spot scale) (Spot x y (window_width scale g) (window_height scale g) :: l))).
  { clear Hp. intros row' x' y' uw' l Hl. cbn [map]. constructor; [|by eapply IH].
    pose proof (place_after _ _ _ _ _ _ _ _ _ Hs Hl) as Ha. pose proof (place_heights _ _ _ _ _ _ _ _ _ Hl) as Hh.
    rewrite Forall_forall in Ha, Hh. apply Forall_fmap, Forall_forall. intros p Hin.
    apply round_apart; [apply window_height_le|by apply Hh|by apply Ha]. }
  destruct (_ && _).
  - destruct (rws !! S row) as [rw|]; [|done]. apply fmap_Some in Hp as (l & Hl & ->). by eapply Hput.
  - apply fmap_Some in Hp as (l & Hl & ->). by eapply Hput.
Qed.

Lemma fit_rows_scale fuel scale rows es overlap scale' used : 15 < scale ->
  fit_rows fuel scale rows es = Some (overlap, scale', used) -> 0 < scale'.
Proof.
  revert scale rows. induction fuel as [|fuel IH]; intros scale rows Hs Hf; cbn [fit_rows] in Hf; [done|].
  destruct (count_rows _ _ _ _ es) as [ov u]. destruct ov; [|injection Hf as <- <- <-; lra].
  destruct (Qltb 32 (scale - 15)) eqn:E; [|injection Hf as <- <- <-; lra].
  apply Qltb_lt in E. eapply IH; [|exact Hf]. lra.
Qed.

(** ** Windows stay on the screen *)

Lemma sum_rows_mono scale used row rws es rws' : 0 < scale -> sum_rows scale used row rws es = Some rws' ->
  forall i a, rws !! i = Some a -> exists b, rws' !! i = Some b /\ a <= b.
Proof.
  intros Hs. revert row rws. induction es as [|g es IH]; intros row rws Hr i a Hi; cbn [sum_rows] in Hr.
  { injection Hr as <-. exists a. split; [done|lra]. }
  destruct (rws !! row) as [rw0|]; [|done]. set (row' := if _ && _ then _ else _) in Hr. clearbody row'.
  destruct (rws !! row') as [rw|] eqn:E; [|done].
  pose proof (window_width_bounds scale g Hs). pose proof sx_pos.
  destruct (decide (row' = i)) as [->|Hne].
  - assert (rw = a) as -> by congruence.
    destruct (IH _ _ Hr i (a + (window_width scale g + sx))) as (b & Hb & Hle).
    + apply list_lookup_insert_eq. by eapply lookup_lt_Some.
    + exists b. split; [done|]. lra.
  - apply (IH _ _ Hr). by rewrite list_lookup_insert_ne.
Qed.

Definition fits_width (scale : Q) (g : wlr_box) : Prop := window_width scale g + 2 * sx <= W.

Lemma Qltb_same a b b' : b == b' -> Qltb a b = Qltb a b'.
Proof.
  intros Hb. destruct (Qltb a b) eqn:E1, (Qltb a b') eqn:E2; try done; [apply Qltb_lt in E1; apply Qltb_ge in E2|apply Qltb_ge in E1; apply Qltb_lt in E2]; lra.
Qed.

Lemma sum_rows_fit scale rows used row rws es rws' rw rw1 : 0 < scale -> Forall (fits_width scale) es ->
  length rws = used -> rws !! row = Some rw -> rw == rw1 ->
  count_rows scale rows rw1 (S row) es = (false, used) ->
  (forall i a, (row < i)%nat -> rws !! i = Some a -> a = sx) -> Forall (fun a => a <= W) rws ->
  sum_rows scale used row rws es = Some rws' -> Forall (fun a => a <= W) rws'.
Proof.
  intros Hs. revert row rws rw rw1. induction es as [|g es IH]; intros row rws rw rw1 Hfit Hl Hrow Heq Hc Hlater Hall Hr;
    cbn [sum_rows count_rows] in *; [by injection Hr as <-|].
  inversion_clear Hfit as [|? ? Hg Hes]. unfold fits_width in Hg. rewrite Hrow in Hr.
  rewrite (Qltb_same W (rw1 + (window_width scale g + sx)) (rw + window_width scale g + sx)) in Hc by lra.
  destruct (Qltb W (rw + window_width scale g + sx)) eqn:E1; cbn [andb] in Hr;
    [apply Qltb_lt in E1|apply Qltb_ge in E1].
  - destruct (Nat.ltb_spec rows (S (S row))); [done|].
    assert (Hu : (S (S row) <= used)%nat).
    { destruct (count_rows_used scale rows (sx + window_width scale g + sx) (S (S row)) es) as [Hu _]. by rewrite Hc in Hu. }
    assert (Hlt : (row + 1 <? used)%nat = true) by (apply Nat.ltb_lt; lia). rewrite Hlt in Hr.
    destruct (rws !! S row) as [a|] eqn:Ea; [|done]. assert (a = sx) as -> by (eapply Hlater; [|exact Ea]; lia).
    eapply (IH (S row)); [done|by rewrite length_insert|by apply list_lookup_insert_eq; eapply lookup_lt_Some| |exact Hc| | |exact Hr].
    + lra.
    + intros i b Hi Hb. rewrite list_lookup_insert_ne in Hb by lia. eapply Hlater; [|exact Hb]. lia.
    + apply Forall_insert; [done|]. lra.
  - rewrite Hrow in Hr.
    eapply (IH row); [done|by rewrite length_insert|by apply list_lookup_insert_eq; eapply lookup_lt_Some| |exact Hc| | |exact Hr].
    + lra.
    + intros i b Hi Hb. rewrite list_lookup_insert_ne in Hb by lia. by eapply Hlater.
    + apply Forall_insert; [done|]. lra.
Qed.

(** A window between the start of its row and its end. *)
Definition in_row (scale y0 : Q) (used : nat) (p : spot) : Prop :=
  sx <= sp_x p /\ sp_x p + sp_width p <= W - sx /\ 0 < sp_height p <= scale /\
  exists r, (r < used)%nat /\ sp_y p == y0 + inject_Z (Z.of_nat r) * (scale + sy).

Lemma row_inside x fr uw w : fr <= W -> sx <= uw -> uw + (w + sx) <= fr -> x == (W - fr) / 2 + uw ->
  sx <= x /\ x + w <= W - sx.
Proof. unfold Qdiv. change (/ 2) with (1 # 2). lra. Qed.

Lemma inject_S (n : nat) : inject_Z (Z.of_nat (S n)) == inject_Z (Z.of_nat n) + 1.
Proof. rewrite Nat2Z.inj_succ. unfold Z.succ. rewrite inject_Z_plus. done. Qed.

Lemma place_in_row scale used y0 row rws final x y uw es spots fr : 0 < scale -> length rws = used ->
  sum_rows scale used row rws es = Some final -> Forall (fun a => a <= W) final ->
  rws !! row = Some uw -> sx <= uw -> final !! row = Some fr -> x == (W - fr) / 2 + uw ->
  (forall i a, (row < i)%nat -> rws !! i = Some a -> a = sx) ->
  y == y0 + inject_Z (Z.of_nat row) * (scale + sy) ->
  place scale used final row x y uw es = Some spots -> Forall (in_row scale y0 used) spots.
Proof.
  intros Hs. revert row rws x y uw spots fr.
  induction es as [|g es IH]; intros row rws x y uw spots fr Hl Hsum Hall Huw Hsx Hfr Hx Hlater Hy Hp;
    cbn [sum_rows place] in *; [injection Hp as <-; constructor|].
  pose proof (window_width_bounds scale g Hs) as Hw. pose proof (window_height_pos scale g Hs) as Hh.
  pose proof (window_height_le scale g) as Hh'. pose proof sx_pos as Hsp. rewrite Huw in Hsum.
  destruct (Qltb W (uw + window_width scale g + sx) && (row + 1 <? used)%nat) eqn:E.
  - apply andb_true_iff in E as [_ E%Nat.ltb_lt].
    destruct (rws !! S row) as [a|] eqn:Ea; [|done]. assert (a = sx) as -> by (eapply Hlater; [|exact Ea]; lia).
    assert (Hins : <[S row := sx + (window_width scale g + sx)]> rws !! S row = Some (sx + (window_width scale g + sx)))
      by (apply list_lookup_insert_eq; by eapply lookup_lt_Some).
    destruct (sum_rows_mono _ _ _ _ _ _ Hs Hsum _ _ Hins) as (fr' & Hfr' & Hle). rewrite Hfr' in Hp.
    apply fmap_Some in Hp as (l & Hp & ->).
    assert (Hb : fr' <= W) by (exact (Forall_lookup_1 _ _ _ _ Hall Hfr')).
    assert (Hy' : y + (scale + sy) == y0 + inject_Z (Z.of_nat (S row)) * (scale + sy)) by (rewrite inject_S; lra).
    constructor.
    + destruct (row_inside (row_start fr') fr' sx (window_width scale g)); try done; try lra.
      split_and!; cbn [sp_x sp_y sp_width sp_height]; try done. exists (S row). split; [lia|done].
    + refine (IH (S row) _ _ _ _ _ fr' _ Hsum Hall Hins _ Hfr' _ _ Hy' Hp).
      * by rewrite length_insert.
      * lra.
      * unfold row_start. lra.
      * intros i b Hi Hib. rewrite list_lookup_insert_ne in Hib by lia. eapply Hlater; [|exact Hib]. lia.
  - rewrite Huw in Hsum. apply fmap_Some in Hp as (l & Hp & ->).
    assert (Hins : <[row := uw + (window_width scale g + sx)]> rws !! row = Some (uw + (window_width scale g + sx)))
      by (apply list_lookup_insert_eq; by eapply lookup_lt_Some).
    destruct (sum_rows_mono _ _ _ _ _ _ Hs Hsum _ _ Hins) as (fr' & Hfr' & Hle).
    assert (fr' = fr) as -> by congruence.
    assert (Hb : fr <= W) by (exact (Forall_lookup_1 _ _ _ _ Hall Hfr)).
    constructor.
    + destruct (row_inside x fr uw (window_width scale g)); try done; try lra.
      split_and!; cbn [sp_x sp_y sp_width sp_height]; try done. exists row. split; [|done].
      apply lookup_lt_Some in Huw. lia.
    + refine (IH row _ _ _ _ _ fr _ Hsum Hall Hins _ Hfr _ _ Hy Hp).
      * by rewrite length_insert.
      * lra.
      * lra.
      * intros i b Hi Hib. rewrite list_lookup_insert_ne in Hib by lia. by eapply Hlater.
Qed.

(** The rows that are found have room. *)
Definition room (scale : Q) (rows : nat) : Prop :=
  inject_Z (Z.of_nat rows) * scale + (inject_Z (Z.of_nat rows) + 1) * sy <= inject_Z content_height.

Lemma critical_room scale rows : scale <= critical rows -> room scale (S rows).
Proof.
  unfold critical, room. intros Hc. rewrite inject_S. set (n := inject_Z (Z.of_nat rows)) in *.
  assert (Hn : 0 < n + 1).
  { assert (0 <= n) by (unfold n; change 0 with (inject_Z 0); rewrite <- Zle_Qle; lia). lra. }
  assert (Hm : scale * (n + 1) <= inject_Z (content_height - (Z.of_nat rows + 2) * spacing_y)).
  { apply Qle_trans with ((inject_Z (content_height - (Z.of_nat rows + 2) * spacing_y) / inject_Z (Z.of_nat rows + 1)) * (n + 1)).
    - apply Qmult_le_compat_r; [done|lra].
    - rewrite inject_Z_plus. change (inject_Z 1) with 1. fold n. rewrite Qmult_comm, Qmult_div_r by lra. lra. }
  unfold Z.sub in Hm. rewrite inject_Z_plus, inject_Z_opp, inject_Z_mult, inject_Z_plus in Hm. fold n in Hm.
  change (inject_Z 2) with 2 in Hm. lra.
Qed.

Lemma room_less scale scale' rows rows' : 0 < scale' <= scale -> (rows' <= rows)%nat -> room scale rows -> room scale' rows'.
Proof.
  unfold room. intros Hs Hr. pose proof sy_pos as Hy.
  assert (H1 : inject_Z (Z.of_nat rows') <= inject_Z (Z.of_nat rows)) by (rewrite <- Zle_Qle; lia).
  assert (H0 : 0 <= inject_Z (Z.of_nat rows')) by (change 0 with (inject_Z 0); rewrite <- Zle_Qle; lia).
  set (a := inject_Z (Z.of_nat rows)) in *. set (b := inject_Z (Z.of_nat rows')) in *. clearbody a b.
  intros H. assert (b * scale' <= a * scale) by nra. nra.
Qed.

Lemma fit_rows_room fuel scale rows es scale' used : 15 < scale -> (0 < rows)%nat -> room scale rows ->
  fit_rows fuel scale rows es = Some (false, scale', used) ->
  room scale' used /\ exists rows', count_rows scale' rows' sx 1 es = (false, used).
Proof.
  revert scale rows. induction fuel as [|fuel IH]; intros scale rows Hs Hr Hroom Hf; cbn [fit_rows] in Hf; [done|].
  pose proof (count_rows_used scale rows sx 1 es) as [_ Hu].
  destruct (count_rows scale rows sx 1 es) as [ov u] eqn:Ec. destruct ov.
  - destruct (Qltb 32 (scale - 15)) eqn:E; [|done]. apply Qltb_lt in E.
    eapply IH; [..|exact Hf]; [lra|by destruct (Qle_bool _ _); lia|].
    destruct (Qle_bool (scale - 15) (critical rows)) eqn:El.
    + apply critical_room. by apply Qle_bool_iff.
    + eapply room_less; [| |exact Hroom]; [lra|lia].
  - injection Hf as <- <-. split; [|by exists rows]. simpl in Hu. eapply room_less; [|by apply Hu|exact Hroom]. lra.
Qed.

Lemma rows_inside scale used r y h : 0 < h <= scale -> (r < used)%nat -> room scale used ->
  y == top_row scale used + inject_Z (Z.of_nat r) * (scale + sy) ->
  inject_Z window_area_y + sy <= y + (scale - h) / 2 /\
  y + (scale - h) / 2 + h + sy <= inject_Z screen_height.
Proof.
  unfold room, top_row. intros Hh Hr Hroom Hy. pose proof sy_pos as Hsy.
  assert (Hn : inject_Z (Z.of_nat r) + 1 <= inject_Z (Z.of_nat used)) by (rewrite <- inject_S, <- Zle_Qle; lia).
  assert (H0 : 0 <= inject_Z (Z.of_nat r)) by (change 0 with (inject_Z 0); rewrite <- Zle_Qle; lia).
  assert (Hc : inject_Z content_height == inject_Z screen_height - inject_Z window_area_y)
    by (unfold content_height, Z.sub; by rewrite inject_Z_plus, inject_Z_opp).
  unfold Z.sub in Hy. rewrite inject_Z_plus, inject_Z_opp in Hy. change (inject_Z 1) with 1 in Hy.
  unfold Qdiv in *. change (/ 2) with (1 # 2) in *.
  set (u := inject_Z (Z.of_nat used)) in *. set (k := inject_Z (Z.of_nat r)) in *. clearbody u k.
  assert (Hk : k * (scale + sy) <= (u - 1) * (scale + sy)) by nra.
  assert (Hk0 : 0 <= k * (scale + sy)) by nra.
  split; lra.
Qed.

(** C26. For every list of windows the search for a layout ends and gives each window a
    place; on a screen of at least 23 pixels in height no two windows overlap. *)
Theorem overview_disjoint es :
  exists ps, CalculateWindowLayout es = Some ps /\ length ps = length es /\
    ((23 <= screen_height)%Z -> ForallOrdPairs apart ps).
Proof.
  destruct es as [|g es0] eqn:E; [exists []; split_and!; [done|done|constructor]|].
  destruct (layout_parts es ltac:(by rewrite E)) as (ov & scale & used & rws & rw & spots & Hf & Hsum & Hrw & Hp & Hu & Hl & Hlen & Hc).
  rewrite <- E. eexists. split; [exact Hc|]. split; [by rewrite length_map|]. intros Hh.
  eapply place_apart; [|exact Hp]. eapply fit_rows_scale; [|exact Hf].
  unfold first_scale, kFirstWindowScale. assert (inject_Z 23 <= inject_Z screen_height) by (by rewrite <- Zle_Qle).
  change (inject_Z 23) with 23 in *. lra.
Qed.

Definition on_screen (p : MultitaskingWindowPlacement) : Prop :=
  (0 <= pl_x p /\ pl_x p + pl_width p <= screen_width /\
   window_area_y <= pl_y p /\ pl_y p + pl_height p <= screen_height)%Z.

Lemma round_on_screen scale used p : in_row scale (top_row scale used) used p -> room scale used ->
  on_screen (round_spot scale p).
Proof.
  intros (H1 & H2 & H3 & r & Hr & Hy) Hroom. destruct (rows_inside scale used r (sp_y p) (sp_height p) H3 Hr Hroom Hy) as [V1 V2].
  pose proof sx_pos. pose proof sy_pos. unfold on_screen, round_spot. cbn [pl_x pl_y pl_width pl_height].
  set (yy := sp_y p + (scale - sp_height p) / 2) in *. clearbody yy.
  pose proof (lround_bounds (sp_x p)). pose proof (lround_bounds (sp_width p)). pose proof (lround_bounds yy).
  pose proof (lround_bounds (sp_height p)).
  assert (A1 : inject_Z 0 < inject_Z (lround (sp_x p) + 1)) by (rewrite inject_Z_plus; change (inject_Z 0) with 0; change (inject_Z 1) with 1; lra).
  assert (A2 : inject_Z (lround (sp_x p) + lround (sp_width p)) <= W) by (rewrite inject_Z_plus; lra).
  assert (A3 : inject_Z window_area_y < inject_Z (lround yy + 1)) by (rewrite inject_Z_plus; change (inject_Z 1) with 1; lra).
  assert (A4 : inject_Z (lround yy + lround (sp_height p)) <= inject_Z screen_height) by (rewrite inject_Z_plus; lra).
  rewrite <- Zlt_Qlt in A1, A3. rewrite <- Zle_Qle in A2, A4. lia.
Qed.

(** C27. When the search found rows for all windows, each window is narrower than the screen
    and one row fits below the strip of workspaces, every window is shown inside the
    screen and below the strip. *)
Theorem overview_on_screen es scale used :
  (23 <= screen_height)%Z -> room first_scale 1 ->
  fit_rows layout_fuel first_scale 1 es = Some (false, scale, used) ->
  Forall (fun g => (Z.max 1 (box_width g) + 2 * spacing_x <= screen_width)%Z) es ->
  exists ps, CalculateWindowLayout es = Some ps /\ Forall on_screen ps.
Proof.
  intros Hh Hroom Hfit Hw. destruct es as [|g es0]; [exists []; by split|].
  set (es := g :: es0) in *. assert (Hne : es <> []) by done. clearbody es.
  destruct (layout_parts es) as (ov & scale' & used' & rws & rw & spots & Hf & Hsum & Hrw & Hp & Hu & Hl & _ & Hc);
    [done|].
  rewrite Hfit in Hf. injection Hf as <- <- <-.
  assert (H15 : 15 < first_scale).
  { unfold first_scale, kFirstWindowScale. assert (H23 : inject_Z 23 <= inject_Z screen_height) by (by rewrite <- Zle_Qle).
    change (inject_Z 23) with 23 in H23. lra. }
  pose proof (fit_rows_scale _ _ _ _ _ _ _ H15 Hfit) as Hs.
  destruct (fit_rows_room _ _ _ _ _ _ H15 Nat.lt_0_1 Hroom Hfit) as (Hr & rows' & Hcount).
  assert (Hnarrow : Forall (fits_width scale) es).
  { eapply Forall_impl; [exact Hw|]. intros g1 Hg1. unfold fits_width. destruct (window_width_bounds scale g1 Hs) as [_ Hle].
    cbv beta in Hg1. rewrite Zle_Qle, inject_Z_plus, inject_Z_mult in Hg1. change (inject_Z 2) with 2 in Hg1. lra. }
  assert (Hsx : sx <= W).
  { destruct es as [|g1 es1]; [done|]. inversion_clear Hnarrow as [|? ? Hg1 _].
    unfold fits_width in Hg1. destruct (window_width_bounds scale g1 Hs). pose proof sx_pos. lra. }
  assert (Hrep : forall i a, replicate used sx !! i = Some a -> a = sx) by (intros i a [-> _]%lookup_replicate_1; done).
  assert (Hfirst : replicate used sx !! 0%nat = Some sx) by (apply lookup_replicate_2; lia).
  assert (Hall : Forall (fun a => a <= W) rws).
  { eapply (sum_rows_fit scale rows' used 0); [done|done|apply length_replicate|exact Hfirst|reflexivity|exact Hcount| | |exact Hsum].
    - intros i a _. apply Hrep.
    - by apply Forall_replicate. }
  exists (map (round_spot scale) spots). split; [done|]. apply Forall_fmap.
  eapply Forall_impl; [|intros p Hin; exact (round_on_screen scale used p Hin Hr)].
  eapply (place_in_row scale used (top_row scale used) 0); [done|apply length_replicate|exact Hsum|done|exact Hfirst|lra|exact Hrw| | | |exact Hp].
  - unfold row_start. lra.
  - intros i a _. apply Hrep.
  - change (inject_Z (Z.of_nat 0)) with 0. lra.
Qed.

End Layout.

Example two_windows :
  CalculateWindowLayout 1920 1080 116 [Box 0 0 800 600; Box 0 0 1000 2000] =
    Some [Placement 370 298 800 600; Placement 1190 238 360 720].
Proof. vm_compute. done. Qed.

(** The search needs two rows here. *)
Lemma overview_on_screen_witness :
  let es := [Box 0 0 1200 800; Box 0 0 1400 900; Box 0 0 640 480] in
  exists ps, CalculateWindowLayout 1920 1080 150 es = Some ps /\ Forall (on_screen 1920 1080 150) ps.
Proof.
  intros es.
  destruct (fit_rows 1920 1080 150 (layout_fuel 1080) (first_scale 1080) 1 es) as [[[ov scale] used]|] eqn:E;
    [|vm_compute in E; discriminate].
  assert (Hov : ov = false) by (vm_compute in E; by injection E as <-). subst ov.
  apply (overview_on_screen 1920 1080 150 es scale used).
  - lia.
  - vm_compute. congruence.
  - exact E.
  - unfold es. do 3 (constructor; [vm_compute; congruence|]). constructor.
Defined.

(** A window that is wider than the screen is not made narrower: the search adds a row,
    which stays empty, and the window hangs over both sides of the screen. *)
Example wide_window_off_screen :
  CalculateWindowLayout 1920 1080 150 [Box 0 0 3000 100] = Some [Placement (-540) 793 3000 100].
Proof. vm_compute. done. Qed.
