(* ===== verification/Layers.v ===== *)
(** * Panels and the space they reserve

    Models layer surfaces: the requests and commits of wlr_layer_surface_v1
    (src/libs/wlroots/types/wlr_layer_shell_v1.c), their placement
    (types/scene/layer_shell_v1.c), and CompositorPrivate::ArrangeLayers, which places
    the surfaces of an output and leaves the rest of it to windows. *)

From S2P Require Import Prelude Box Ssd Window Windows WindowFacts Workspaces Placement Motion.

(** ** Data *)

Definition ANCHOR_TOP : Z := 1.
Definition ANCHOR_BOTTOM : Z := 2.
Definition ANCHOR_LEFT : Z := 4.
Definition ANCHOR_RIGHT : Z := 8.

(** WLR_LAYER_SURFACE_V1_STATE_*. *)
Definition STATE_DESIRED_SIZE : Z := 1.
Definition STATE_ANCHOR : Z := 2.
Definition STATE_EXCLUSIVE_ZONE : Z := 4.
Definition STATE_MARGIN : Z := 8.
Definition STATE_KEYBOARD_INTERACTIVITY : Z := 16.
Definition STATE_LAYER : Z := 32.
Definition STATE_EXCLUSIVE_EDGE : Z := 64.

Inductive wlr_edges := EDGE_NONE | EDGE_TOP | EDGE_BOTTOM | EDGE_LEFT | EDGE_RIGHT.

Record wlr_layer_surface_v1_state := LayerState {
  committed : Z; anchor : Z; exclusive_zone : Z;
  margin_top : Z; margin_right : Z; margin_bottom : Z; margin_left : Z;
  keyboard_interactive : Z; desired_width : Z; desired_height : Z; layer : Z; exclusive_edge : Z;
  configure_serial : Z; actual_width : Z; actual_height : Z }.

#[export] Instance layer_state_fields : Fields wlr_layer_surface_v1_state := {| rebuild := fun s =>
  LayerState (committed s) (anchor s) (exclusive_zone s) (margin_top s) (margin_right s) (margin_bottom s)
    (margin_left s) (keyboard_interactive s) (desired_width s) (desired_height s) (layer s) (exclusive_edge s)
    (configure_serial s) (actual_width s) (actual_height s) |}.

Record wlr_layer_surface_v1_configure := MkConfigure { cf_serial : Z; cf_width : Z; cf_height : Z }.

Inductive layer_error :=
| INVALID_SURFACE_STATE | INVALID_SIZE | INVALID_ANCHOR | INVALID_KEYBOARD_INTERACTIVITY
| INVALID_EXCLUSIVE_EDGE | INVALID_LAYER | ALREADY_CONSTRUCTED | IMPLEMENTATION_ERROR.

(** [ls_buffer], [ls_surface_mapped] and [pending_rejected] are the surface's; [errors] is
    what was posted to the client, which ends it; [sent] is every configure event. *)
Record wlr_layer_surface_v1 := LayerHandle {
  configured : bool; configure_list : list wlr_layer_surface_v1_configure;
  current : wlr_layer_surface_v1_state; pending : wlr_layer_surface_v1_state;
  initialized : bool; initial_commit : bool;
  ls_buffer : bool; ls_surface_mapped : bool; pending_rejected : bool;
  errors : list layer_error; sent : list wlr_layer_surface_v1_configure }.

#[export] Instance layer_handle_fields : Fields wlr_layer_surface_v1 := {| rebuild := fun l =>
  LayerHandle (configured l) (configure_list l) (current l) (pending l) (initialized l) (initial_commit l)
    (ls_buffer l) (ls_surface_mapped l) (pending_rejected l) (errors l) (sent l) |}.

Definition no_layer_state (l : Z) : wlr_layer_surface_v1_state := LayerState 0 0 0 0 0 0 0 0 0 0 l 0 0 0 0.
Definition new_layer_surface (l : Z) : wlr_layer_surface_v1 :=
  LayerHandle false [] (no_layer_state l) (no_layer_state l) false false false false false [] [].

(** ** Requests *)

(** The bits and values of the protocol's enumerations. *)
Definition anchor_is_valid (a : Z) : bool := Z.land a 15 =? a.
Definition keyboard_interactivity_is_valid (k version : Z) : bool :=
  (k =? 0) || (k =? 1) || ((k =? 2) && (4 <=? version)).
Definition layer_is_valid (l : Z) : bool := (0 <=? l) && (l <=? 3).

Definition post (e : layer_error) (l : wlr_layer_surface_v1) : wlr_layer_surface_v1 :=
  l <{ errors ::= fun es => es ++ [e] }>.

Definition mark (field : Z) (f : wlr_layer_surface_v1_state -> wlr_layer_surface_v1_state) (l : wlr_layer_surface_v1)
    : wlr_layer_surface_v1 :=
  l <{ pending ::= fun p => f (p <{ committed ::= fun c => Z.lor c field }>) }>.

Definition layer_surface_handle_set_size (width height : Z) (l : wlr_layer_surface_v1) : wlr_layer_surface_v1 :=
  if (width >? INT_MAX) || (height >? INT_MAX) then post IMPLEMENTATION_ERROR l
  else if (desired_width (pending l) =? width) && (desired_height (pending l) =? height) then l
  else mark STATE_DESIRED_SIZE (fun p => p <{ desired_width := width }> <{ desired_height := height }>) l.

(** An invalid anchor is reported and set all the same. *)
Definition layer_surface_handle_set_anchor (a : Z) (l : wlr_layer_surface_v1) : wlr_layer_surface_v1 :=
  let l := if anchor_is_valid a then l else post INVALID_ANCHOR l in
  if anchor (pending l) =? a then l else mark STATE_ANCHOR (fun p => p <{ anchor := a }>) l.

Definition layer_surface_handle_set_exclusive_zone (zone : Z) (l : wlr_layer_surface_v1) : wlr_layer_surface_v1 :=
  if exclusive_zone (pending l) =? zone then l
  else mark STATE_EXCLUSIVE_ZONE (fun p => p <{ exclusive_zone := zone }>) l.

Definition layer_surface_handle_set_margin (top right bottom left : Z) (l : wlr_layer_surface_v1)
    : wlr_layer_surface_v1 :=
  if (margin_top (pending l) =? top) && (margin_right (pending l) =? right) &&
     (margin_bottom (pending l) =? bottom) && (margin_left (pending l) =? left) then l
  else mark STATE_MARGIN (fun p => p <{ margin_top := top }> <{ margin_right := right }>
                                     <{ margin_bottom := bottom }> <{ margin_left := left }>) l.

Definition layer_surface_handle_set_keyboard_interactivity (version interactive : Z) (l : wlr_layer_surface_v1)
    : wlr_layer_surface_v1 :=
  let l := mark STATE_KEYBOARD_INTERACTIVITY (fun p => p) l in
  if version <? 4 then
    l <{ pending ::= fun p => p <{ keyboard_interactive := if interactive =? 0 then 0 else 1 }> }>
  else if negb (keyboard_interactivity_is_valid interactive version) then post INVALID_KEYBOARD_INTERACTIVITY l
  else l <{ pending ::= fun p => p <{ keyboard_interactive := interactive }> }>.

Definition layer_surface_set_layer (new : Z) (l : wlr_layer_surface_v1) : wlr_layer_surface_v1 :=
  if negb (layer_is_valid new) then post INVALID_LAYER l
  else if layer (pending l) =? new then l
  else mark STATE_LAYER (fun p => p <{ layer := new }>) l.

Definition layer_surface_set_exclusive_edge (edge : Z) (l : wlr_layer_surface_v1) : wlr_layer_surface_v1 :=
  if negb (anchor_is_valid edge) then post INVALID_EXCLUSIVE_EDGE l
  else mark STATE_EXCLUSIVE_EDGE (fun p => p <{ exclusive_edge := edge }>) l.

(** ** Configure events *)

(** [serial] is the next serial of the display; the calloc succeeds. *)
Definition wlr_layer_surface_v1_configure_send (serial width height : Z) (l : wlr_layer_surface_v1)
    : wlr_layer_surface_v1 :=
  let c := MkConfigure serial (u32 width) (u32 height) in
  l <{ configure_list ::= fun cs => cs ++ [c] }> <{ sent ::= fun cs => cs ++ [c] }>.

(** The configures from the acknowledged one on. *)
Fixpoint from_serial (serial : Z) (cs : list wlr_layer_surface_v1_configure)
    : option (wlr_layer_surface_v1_configure * list wlr_layer_surface_v1_configure) :=
  match cs with
  | [] => None
  | c :: cs => if cf_serial c =? serial then Some (c, cs) else from_serial serial cs
  end.

Definition layer_surface_handle_ack_configure (serial : Z) (l : wlr_layer_surface_v1) : wlr_layer_surface_v1 :=
  match from_serial serial (configure_list l) with
  | None => post INVALID_SURFACE_STATE l
  | Some (c, rest) =>
      l <{ configure_list := rest }>
        <{ pending ::= fun p => p <{ configure_serial := cf_serial c }> <{ actual_width := cf_width c }>
                                  <{ actual_height := cf_height c }> }>
        <{ configured := true }>
  end.

(** ** Commits *)

Definition layer_surface_reset (l : wlr_layer_surface_v1) : wlr_layer_surface_v1 :=
  l <{ configured := false }> <{ initialized := false }> <{ configure_list := [] }>.

Definition wlr_surface_reject_pending (e : layer_error) (l : wlr_layer_surface_v1) : wlr_layer_surface_v1 :=
  if pending_rejected l then l else (post e l) <{ pending_rejected := true }>.

(** [has_buffer] is whether the commit leaves the surface with a buffer. *)
Definition layer_surface_role_client_commit (has_buffer : bool) (l : wlr_layer_surface_v1) : wlr_layer_surface_v1 :=
  let p := pending l in
  let horiz := Z.lor ANCHOR_LEFT ANCHOR_RIGHT in
  let vert := Z.lor ANCHOR_TOP ANCHOR_BOTTOM in
  if has_buffer && negb (configured l) then wlr_surface_reject_pending ALREADY_CONSTRUCTED l
  else if (desired_width p =? 0) && negb (Z.land (anchor p) horiz =? horiz) then
    wlr_surface_reject_pending INVALID_SIZE l
  else if (desired_height p =? 0) && negb (Z.land (anchor p) vert =? vert) then
    wlr_surface_reject_pending INVALID_SIZE l
  else if negb (Z.land (anchor p) (exclusive_edge p) =? exclusive_edge p) then
    wlr_surface_reject_pending INVALID_EXCLUSIVE_EDGE l
  else l.

Definition surface_synced_move_state (l : wlr_layer_surface_v1) : wlr_layer_surface_v1 :=
  l <{ current := pending l }> <{ pending ::= fun p => p <{ committed := 0 }> }>.

(** The first part of layer_surface_role_commit. *)
Definition role_commit_state (unmap_commit : bool) (l : wlr_layer_surface_v1) : wlr_layer_surface_v1 :=
  if unmap_commit then (layer_surface_reset l) <{ initial_commit := false }>
  else l <{ initial_commit := negb (initialized l) }> <{ initialized := true }>.

Definition wlr_surface_map (l : wlr_layer_surface_v1) : wlr_layer_surface_v1 := l <{ ls_surface_mapped := true }>.
Definition wlr_surface_unmap (l : wlr_layer_surface_v1) : wlr_layer_surface_v1 := l <{ ls_surface_mapped := false }>.

Definition layer_surface_role_commit (unmap_commit : bool) (l : wlr_layer_surface_v1) : wlr_layer_surface_v1 :=
  let l := role_commit_state unmap_commit l in if ls_buffer l then wlr_surface_map l else l.

(** surface_commit_state, as far as the layer surface sees it; [on_unmap] is what the
    listeners of the unmap event do to it. *)
Definition surface_commit_state (on_unmap : wlr_layer_surface_v1 -> wlr_layer_surface_v1) (attach : option bool)
    (l : wlr_layer_surface_v1) : wlr_layer_surface_v1 :=
  let unmap_commit := bool_decide (attach = Some false) && ls_surface_mapped l in
  let l := if unmap_commit then on_unmap (wlr_surface_unmap l) else l in
  l <{ ls_buffer ::= fun b => default b attach }>
    |> surface_synced_move_state |> layer_surface_role_commit unmap_commit.

(** A commit of the client: [attach] is whether it comes with a buffer or removes it. The
    state is not cached: nothing locks it and the surface is not a subsurface. *)
Definition commit_hook (on_unmap : wlr_layer_surface_v1 -> wlr_layer_surface_v1) (attach : option bool)
    (l : wlr_layer_surface_v1) : wlr_layer_surface_v1 :=
  let l := layer_surface_role_client_commit (default (ls_buffer l) attach) l in
  if pending_rejected l then l else surface_commit_state on_unmap attach l.

Definition commit : option bool -> wlr_layer_surface_v1 -> wlr_layer_surface_v1 := commit_hook (fun l => l).

(** ** Placement

    Coordinates are unbounded: the sums of margins, zones and sizes are assumed to fit the
    code's [int]. The size of a configure event wraps to the protocol's [uint32_t]. *)

Definition wlr_layer_surface_v1_get_exclusive_edge (s : wlr_layer_surface_v1_state) : wlr_edges :=
  if exclusive_zone s <=? 0 then EDGE_NONE
  else
    let a := if negb (exclusive_edge s =? 0) then exclusive_edge s else anchor s in
    let horiz := Z.lor ANCHOR_LEFT ANCHOR_RIGHT in
    let vert := Z.lor ANCHOR_TOP ANCHOR_BOTTOM in
    if (a =? ANCHOR_TOP) || (a =? Z.lor horiz ANCHOR_TOP) then EDGE_TOP
    else if (a =? ANCHOR_BOTTOM) || (a =? Z.lor horiz ANCHOR_BOTTOM) then EDGE_BOTTOM
    else if (a =? ANCHOR_LEFT) || (a =? Z.lor vert ANCHOR_LEFT) then EDGE_LEFT
    else if (a =? ANCHOR_RIGHT) || (a =? Z.lor vert ANCHOR_RIGHT) then EDGE_RIGHT
    else EDGE_NONE.

Definition layer_surface_exclusive_zone (s : wlr_layer_surface_v1_state) (edge : wlr_edges) (u : wlr_box) : wlr_box :=
  let clamp b := Box (box_x b) (box_y b) (Z.max 0 (box_width b)) (Z.max 0 (box_height b)) in
  let zone := exclusive_zone s in
  match edge with
  | EDGE_NONE => u
  | EDGE_TOP => clamp (Box (box_x u) (box_y u + (zone + margin_top s)) (box_width u) (box_height u - (zone + margin_top s)))
  | EDGE_BOTTOM => clamp (Box (box_x u) (box_y u) (box_width u) (box_height u - (zone + margin_bottom s)))
  | EDGE_LEFT => clamp (Box (box_x u + (zone + margin_left s)) (box_y u) (box_width u - (zone + margin_left s)) (box_height u))
  | EDGE_RIGHT => clamp (Box (box_x u) (box_y u) (box_width u - (zone + margin_right s)) (box_height u))
  end.

(** Position and length along one axis, from the bounds and the margins and anchors at its
    start and end. *)
Definition place_axis (start length desired : Z) (at_start at_end : bool) (margin_start margin_end : Z) : Z * Z :=
  if desired =? 0 then (start + margin_start, length - (margin_start + margin_end))
  else if at_start && at_end then (start + idiv length 2 - idiv desired 2, desired)
  else if at_start then (start + margin_start, desired)
  else if at_end then (start + length - desired - margin_end, desired)
  else (start + idiv length 2 - idiv desired 2, desired).

(** wlr_scene_layer_surface_v1_configure: the box of the surface, and what it leaves of
    the usable area. *)
Definition wlr_scene_layer_surface_v1_configure (is_mapped : bool) (s : wlr_layer_surface_v1_state)
    (full usable : wlr_box) : wlr_box * wlr_box :=
  let bounds := if exclusive_zone s =? -1 then full else usable in
  let '(x, width) := place_axis (box_x bounds) (box_width bounds) (desired_width s)
    (has_flag (anchor s) ANCHOR_LEFT) (has_flag (anchor s) ANCHOR_RIGHT) (margin_left s) (margin_right s) in
  let '(y, height) := place_axis (box_y bounds) (box_height bounds) (desired_height s)
    (has_flag (anchor s) ANCHOR_TOP) (has_flag (anchor s) ANCHOR_BOTTOM) (margin_top s) (margin_bottom s) in
  (Box x y width height,
   if is_mapped && (exclusive_zone s >? 0)
   then layer_surface_exclusive_zone s (wlr_layer_surface_v1_get_exclusive_edge s) usable
   else usable).

(** ** Arranging an output *)

(** LayerSurface: its handle with the handle's surface and output, the layer in whose tree
    its scene node is, whether the surface is mapped, and where it is shown. *)
Record LayerPanel := MkPanel {
  pn_handle : option wlr_layer_surface_v1; pn_surface : nat; pn_output : option nat; pn_parent : option Z;
  pn_mapped : bool; pn_box : wlr_box }.

#[export] Instance panel_fields : Fields LayerPanel := {| rebuild := fun p =>
  MkPanel (pn_handle p) (pn_surface p) (pn_output p) (pn_parent p) (pn_mapped p) (pn_box p) |}.

(** Overlay, top, bottom, background. *)
Definition kLayerOrder : list Z := [3; 2; 1; 0].

Definition takes_part (output : nat) (exclusive : bool) (l : Z) (p : LayerPanel) : bool :=
  match pn_handle p with
  | None => false
  | Some h => initialized h && bool_decide (pn_output p = Some output) && (layer (current h) =? l) &&
              bool_decide (pn_parent p = Some l) && Bool.eqb (exclusive_zone (current h) >? 0) exclusive
  end.

(** The surfaces in the order in which they are placed. *)
Definition arrange_order (output : nat) (ps : list LayerPanel) : list nat :=
  flat_map (fun exclusive => flat_map (fun l =>
    List.filter (fun i => from_option (takes_part output exclusive l) false (ps !! i)) (seq 0 (length ps)))
    kLayerOrder) [true; false].

(** The surfaces, what is left of the output, and the display's next serial. *)
Definition arranging : Type := list LayerPanel * wlr_box * Z.

Definition configure_panel (full : wlr_box) (st : arranging) (i : nat) : arranging :=
  let '(ps, usable, serial) := st in
  match ps !! i with
  | Some p =>
      match pn_handle p with
      | Some h =>
          let '(box, usable) := wlr_scene_layer_surface_v1_configure (ls_surface_mapped h) (current h) full usable in
          let h := wlr_layer_surface_v1_configure_send serial (box_width box) (box_height box) h in
          (<[i := p <{ pn_handle := Some h }> <{ pn_box := box }>]> ps, usable, u32 (serial + 1))
      | None => st
      end
  | None => st
  end.

Definition arrange (output : nat) (full : wlr_box) (ps : list LayerPanel) (serial : Z) : arranging :=
  foldl (configure_panel full) (ps, full, serial) (arrange_order output ps).

Section Compositor.
Context `{OutputLayout}.

(** [width] and [height] are the output's effective resolution. The protocol manager is
    told of the new usable area. *)
Definition ArrangeLayers (output : nat) (width height : Z) (ps : list LayerPanel) (serial : Z) (s : compositor)
    : list LayerPanel * Z * compositor :=
  match List.find (fun o => (out_handle o =? output)%nat) (outputs_ s) with
  | None => (ps, serial, s)
  | Some o =>
      let output_box := layout_box (Some output) in
      if (width <=? 0) || (height <=? 0) then (ps, serial, s)
      else
        let '(ps, usable, serial) := arrange output (Box 0 0 width height) ps serial in
        let old_usable := usable_box o in
        let o' := MkOutput output (Box (box_x usable + box_x output_box) (box_y usable + box_y output_box)
                                       (box_width usable) (box_height usable)) in
        let s := s <{ outputs_ ::= map (fun q => if (out_handle q =? output)%nat then o' else q) }> in
        (ps, serial, FitToplevelsToUsableArea o' old_usable s)
  end.

End Compositor.

(** ** What panels leave *)

(** The shares of panels: what the margins and the zone take is not negative. *)
Definition takes_space (s : wlr_layer_surface_v1_state) : Prop :=
  0 <= exclusive_zone s + margin_top s /\ 0 <= exclusive_zone s + margin_bottom s /\
  0 <= exclusive_zone s + margin_left s /\ 0 <= exclusive_zone s + margin_right s.

(** A panel along one edge, no thicker than the zone it asks for. *)
Definition along_edge (s : wlr_layer_surface_v1_state) : Prop :=
  match wlr_layer_surface_v1_get_exclusive_edge s with
  | EDGE_NONE => False
  | EDGE_TOP => has_flag (anchor s) ANCHOR_TOP = true /\ has_flag (anchor s) ANCHOR_BOTTOM = false /\
                0 < desired_height s <= exclusive_zone s
  | EDGE_BOTTOM => has_flag (anchor s) ANCHOR_TOP = false /\ has_flag (anchor s) ANCHOR_BOTTOM = true /\
                   0 < desired_height s <= exclusive_zone s
  | EDGE_LEFT => has_flag (anchor s) ANCHOR_LEFT = true /\ has_flag (anchor s) ANCHOR_RIGHT = false /\
                 0 < desired_width s <= exclusive_zone s
  | EDGE_RIGHT => has_flag (anchor s) ANCHOR_LEFT = false /\ has_flag (anchor s) ANCHOR_RIGHT = true /\
                  0 < desired_width s <= exclusive_zone s
  end.

(** Placing a surface only takes from the usable area. *)
Lemma configure_shrinks m s full u x y : takes_space s ->
  in_box (snd (wlr_scene_layer_surface_v1_configure m s full u)) x y -> in_box u x y.
Proof.
  intros (H1 & H2 & H3 & H4). unfold wlr_scene_layer_surface_v1_configure.
  destruct (place_axis _ _ _ _ _ _ _) as [bx bw]. destruct (place_axis _ _ _ _ _ _ _) as [by_ bh]. cbn [snd].
  destruct (m && _); [|done]. unfold layer_surface_exclusive_zone, in_box.
  destruct (wlr_layer_surface_v1_get_exclusive_edge s); simpl; lia.
Qed.

(** A mapped panel along an edge is outside of what it leaves. *)
Lemma panel_outside s full u x y : along_edge s ->
  let '(box, u') := wlr_scene_layer_surface_v1_configure true s full u in in_box box x y -> ~ in_box u' x y.
Proof.
  unfold along_edge. intros Ha.
  assert (Hz : 0 < exclusive_zone s).
  { unfold wlr_layer_surface_v1_get_exclusive_edge in Ha. destruct (exclusive_zone s <=? 0) eqn:E; [done|lia]. }
  unfold wlr_scene_layer_surface_v1_configure. replace (exclusive_zone s =? -1) with false by lia.
  replace (exclusive_zone s >? 0) with true by lia. cbn [andb].
  unfold place_axis. destruct (wlr_layer_surface_v1_get_exclusive_edge s); [done|..]; destruct Ha as (F1 & F2 & F3); rewrite F1, F2; cbn [andb].
  - replace (desired_height s =? 0) with false by lia. repeat case_match; simplify_eq/=; unfold in_box; simpl; lia.
  - replace (desired_height s =? 0) with false by lia. repeat case_match; simplify_eq/=; unfold in_box; simpl; lia.
  - replace (desired_width s =? 0) with false by lia. repeat case_match; simplify_eq/=; unfold in_box; simpl; lia.
  - replace (desired_width s =? 0) with false by lia. repeat case_match; simplify_eq/=; unfold in_box; simpl; lia.
Qed.

(** A panel over the whole length of its edge, but for its margins. *)
Definition stretched (s : wlr_layer_surface_v1_state) : Prop :=
  0 <= margin_top s /\ 0 <= margin_bottom s /\ 0 <= margin_left s /\ 0 <= margin_right s /\
  match wlr_layer_surface_v1_get_exclusive_edge s with
  | EDGE_TOP | EDGE_BOTTOM => desired_width s = 0
  | _ => desired_height s = 0
  end.

(** Such a panel is inside the area it is placed in if something is left of that. *)
Lemma panel_inside s full u x y px py : along_edge s -> stretched s ->
  let '(box, u') := wlr_scene_layer_surface_v1_configure true s full u in
  in_box u' px py -> in_box box x y -> in_box u x y.
Proof.
  unfold along_edge, stretched. intros Ha (M1 & M2 & M3 & M4 & Hd).
  assert (Hz : 0 < exclusive_zone s).
  { unfold wlr_layer_surface_v1_get_exclusive_edge in Ha. destruct (exclusive_zone s <=? 0) eqn:E; [done|lia]. }
  unfold wlr_scene_layer_surface_v1_configure. replace (exclusive_zone s =? -1) with false by lia.
  replace (exclusive_zone s >? 0) with true by lia. cbn [andb].
  unfold place_axis. destruct (wlr_layer_surface_v1_get_exclusive_edge s); [done|..]; destruct Ha as (F1 & F2 & F3);
    rewrite F1, F2, Hd; cbn [andb]; rewrite Z.eqb_refl.
  - replace (desired_height s =? 0) with false by lia. unfold in_box; simpl; lia.
  - replace (desired_height s =? 0) with false by lia. unfold in_box; simpl; lia.
  - replace (desired_width s =? 0) with false by lia. unfold in_box; simpl; lia.
  - replace (desired_width s =? 0) with false by lia. unfold in_box; simpl; lia.
Qed.

Definition panel_state (p : LayerPanel) : option (bool * wlr_layer_surface_v1_state) :=
  (fun h => (ls_surface_mapped h, current h)) <$> pn_handle p.

Definition states (ps : list LayerPanel) : list (option (bool * wlr_layer_surface_v1_state)) := map panel_state ps.

Definition lawful (ps : list LayerPanel) : Prop :=
  forall m s, Some (m, s) ∈ states ps -> exclusive_zone s > 0 -> takes_space s.

(** A mapped panel along an edge. *)
Definition is_panel (p : LayerPanel) : Prop :=
  exists s, panel_state p = Some (true, s) /\ along_edge s /\ stretched s.

Lemma configure_panel_states full ps u serial i :
  states (fst (fst (configure_panel full (ps, u, serial) i))) = states ps.
Proof.
  unfold configure_panel. destruct (ps !! i) as [p|] eqn:Ep; [|done]. destruct (pn_handle p) as [h|] eqn:Eh; [|done].
  destruct (wlr_scene_layer_surface_v1_configure _ _ _ _) as [box u']. cbn [fst].
  unfold states. rewrite (list_fmap_insert panel_state). apply list_insert_id. change (map panel_state ps) with (panel_state <$> ps).
  rewrite list_lookup_fmap, Ep. simpl. unfold panel_state. rewrite Eh. done.
Qed.

Lemma configure_panel_shrinks full ps u serial i x y : lawful ps ->
  in_box (snd (fst (configure_panel full (ps, u, serial) i))) x y -> in_box u x y.
Proof.
  intros Hl. unfold configure_panel. destruct (ps !! i) as [p|] eqn:Ep; [|done]. destruct (pn_handle p) as [h|] eqn:Eh; [|done].
  destruct (wlr_scene_layer_surface_v1_configure _ _ _ _) as [box u'] eqn:Ec. cbn [fst snd].
  destruct (decide (exclusive_zone (current h) > 0)) as [Hz|Hz].
  - assert (Ht : takes_space (current h)).
    { apply (Hl (ls_surface_mapped h)); [|done]. apply list_elem_of_fmap. exists p.
      unfold panel_state. rewrite Eh. split; [done|by eapply list_elem_of_lookup_2]. }
    pose proof (configure_shrinks (ls_surface_mapped h) (current h) full u x y Ht) as Hs. by rewrite Ec in Hs.
  - unfold wlr_scene_layer_surface_v1_configure in Ec. destruct (place_axis _ _ _ _ _ _ _). destruct (place_axis _ _ _ _ _ _ _).
    replace (exclusive_zone (current h) >? 0) with false in Ec by lia. rewrite andb_false_r in Ec. by injection Ec as _ <-.
Qed.

Lemma arrange_fold full l st x y : lawful (fst (fst st)) ->
  states (fst (fst (foldl (configure_panel full) st l))) = states (fst (fst st)) /\
  (in_box (snd (fst (foldl (configure_panel full) st l))) x y -> in_box (snd (fst st)) x y).
Proof.
  revert st. induction l as [|i l IH]; intros [[ps u] serial] Hl; cbn [foldl]; [done|].
  pose proof (configure_panel_states full ps u serial i) as Hst.
  assert (Hl' : lawful (fst (fst (configure_panel full (ps, u, serial) i)))) by (unfold lawful in *; by rewrite Hst).
  destruct (IH _ Hl') as [H1 H2]. split; [by rewrite H1|].
  intros Hp. eapply configure_panel_shrinks; [exact Hl|]. by apply H2.
Qed.

(** The panels placed so far are apart from each other and from what is left. *)
Record apart_so_far (full : wlr_box) (dn : list nat) (ps : list LayerPanel) (u : wlr_box) : Prop := {
  as_left : forall i p, i ∈ dn -> ps !! i = Some p -> is_panel p -> forall x y, in_box (pn_box p) x y -> ~ in_box u x y;
  as_full : forall i p, i ∈ dn -> ps !! i = Some p -> is_panel p -> forall x y, in_box (pn_box p) x y -> in_box full x y;
  as_pairs : forall i p k q, i ∈ dn -> k ∈ dn -> i <> k -> ps !! i = Some p -> ps !! k = Some q ->
    is_panel p -> is_panel q -> forall x y, in_box (pn_box p) x y -> ~ in_box (pn_box q) x y;
  as_usable : forall x y, in_box u x y -> in_box full x y }.

Lemma apart_more full dn ps u i : apart_so_far full dn ps u ->
  (forall p, ps !! i = Some p -> ~ is_panel p) -> apart_so_far full (i :: dn) ps u.
Proof.
  intros [A1 A2 A3 A4] Hi. split; [| | |done].
  - intros j p [->|Hj]%elem_of_cons Hp Hpan; [by destruct (Hi p)|by eapply A1].
  - intros j p [->|Hj]%elem_of_cons Hp Hpan; [by destruct (Hi p)|by eapply A2].
  - intros j p k q [->|Hj]%elem_of_cons [->|Hk]%elem_of_cons Hne Hp Hq P1 P2;
      [done|by destruct (Hi p)|by destruct (Hi q)|by eapply (A3 j p k q)].
Qed.

(** A panel is placed inside [u] and leaves [u']. *)
Lemma apart_insert full dn ps u u' i p : (i < length ps)%nat -> apart_so_far full dn ps u ->
  (forall x y, in_box u' x y -> in_box u x y) ->
  (is_panel p -> forall x y, in_box (pn_box p) x y -> ~ in_box u' x y /\ in_box u x y) ->
  apart_so_far full (i :: dn) (<[i := p]> ps) u'.
Proof.
  intros Hi [A1 A2 A3 A4] Hs Hp.
  assert (Hat : forall q, <[i := p]> ps !! i = Some q -> q = p)
    by (intros q; rewrite list_lookup_insert_eq by done; congruence).
  assert (Hold : forall j q, i <> j -> j ∈ i :: dn -> <[i := p]> ps !! j = Some q -> j ∈ dn /\ ps !! j = Some q).
  { intros j q Hne Hj Hq. rewrite list_lookup_insert_ne in Hq by done. by apply elem_of_cons in Hj as [->|?]. }
  split; [| | |auto].
  - intros j q Hj Hq Hpan x y Hb. destruct (decide (i = j)) as [<-|Hne].
    + apply Hat in Hq as ->. by apply Hp.
    + destruct (Hold j q Hne Hj Hq) as [Hj' Hq']. intros Hu. apply (A1 j q Hj' Hq' Hpan x y Hb). auto.
  - intros j q Hj Hq Hpan x y Hb. destruct (decide (i = j)) as [<-|Hne].
    + apply Hat in Hq as ->. apply A4. by apply Hp.
    + destruct (Hold j q Hne Hj Hq) as [Hj' Hq']. by eapply A2.
  - intros j q k r Hj Hk Hne Hq Hr P1 P2 x y Hb Hb'. destruct (decide (i = j)) as [<-|Hij], (decide (i = k)) as [<-|Hik]; [done|..].
    + apply Hat in Hq as ->. destruct (Hold k r Hik Hk Hr) as [Hk' Hr'].
      apply (A1 k r Hk' Hr' P2 x y Hb'). by apply Hp.
    + apply Hat in Hr as ->. destruct (Hold j q Hij Hj Hq) as [Hj' Hq'].
      apply (A1 j q Hj' Hq' P1 x y Hb). by apply Hp.
    + destruct (Hold j q Hij Hj Hq) as [Hj' Hq']. destruct (Hold k r Hik Hk Hr) as [Hk' Hr'].
      by eapply (A3 j q k r).
Qed.

Lemma apart_step full dn ps u serial i px py : lawful ps ->
  in_box (snd (fst (configure_panel full (ps, u, serial) i))) px py -> apart_so_far full dn ps u ->
  apart_so_far full (i :: dn) (fst (fst (configure_panel full (ps, u, serial) i)))
    (snd (fst (configure_panel full (ps, u, serial) i))).
Proof.
  intros Hl. pose proof (fun x y => configure_panel_shrinks full ps u serial i x y Hl) as Hs. revert Hs.
  unfold configure_panel. destruct (ps !! i) as [p|] eqn:Ep; [|intros _ _ Ha; cbn [fst snd]; apply apart_more; [done|intros q Hq; by rewrite Ep in Hq]].
  destruct (pn_handle p) as [h|] eqn:Eh.
  - destruct (wlr_scene_layer_surface_v1_configure _ _ _ _) as [box u'] eqn:Ec. cbn [fst snd]. intros Hs Hpt Ha.
    apply (apart_insert _ _ _ u); [by eapply lookup_lt_Some|done|done|]. intros (s & Hps & Hal & Hst) x y Hb.
    injection Hps as Hm Hc. rewrite Hm, Hc in Ec.
    pose proof (panel_outside s full u x y Hal) as Ho. pose proof (panel_inside s full u x y px py Hal Hst) as Hin.
    rewrite Ec in Ho, Hin. auto.
  - intros _ _ Ha. cbn [fst snd]. apply apart_more; [done|]. intros q Hq (s & Hps & _). assert (q = p) as -> by congruence.
    unfold panel_state in Hps. by rewrite Eh in Hps.
Qed.

Lemma apart_fold full l dn st px py : lawful (fst (fst st)) ->
  in_box (snd (fst (foldl (configure_panel full) st l))) px py -> apart_so_far full dn (fst (fst st)) (snd (fst st)) ->
  apart_so_far full (rev l ++ dn) (fst (fst (foldl (configure_panel full) st l)))
    (snd (fst (foldl (configure_panel full) st l))).
Proof.
  revert dn st. induction l as [|i l IH]; intros dn [[ps u] serial] Hl Hp Ha; cbn [foldl] in *; [done|].
  pose proof (configure_panel_states full ps u serial i) as Hst.
  set (st1 := configure_panel full (ps, u, serial) i) in *.
  assert (Hl' : lawful (fst (fst st1))) by (unfold lawful in *; by rewrite Hst).
  cbn [rev]. rewrite <- app_assoc. apply IH; [done|done|].
  eapply apart_step; [done| |done]. by apply (arrange_fold full l st1).
Qed.

Lemma apart_incl full dn dn' ps u : (forall i, i ∈ dn' -> i ∈ dn) -> apart_so_far full dn ps u -> apart_so_far full dn' ps u.
Proof. intros Hi [A1 A2 A3 A4]. split; eauto. Qed.

Lemma arrange_apart output full ps serial px py : lawful ps ->
  in_box (snd (fst (arrange output full ps serial))) px py ->
  apart_so_far full (arrange_order output ps) (fst (fst (arrange output full ps serial)))
    (snd (fst (arrange output full ps serial))).
Proof.
  intros Hl Hp. eapply apart_incl; [|eapply (apart_fold full _ [] (ps, full, serial)); [exact Hl|exact Hp|]].
  - intros i Hi. by rewrite app_nil_r, list_elem_of_In, <- in_rev, <- list_elem_of_In.
  - split; [by intros ? ? ?%elem_of_nil|by intros ? ? ?%elem_of_nil|by intros ? ? ? ? ?%elem_of_nil|done].
Qed.

(** C22. Arranging an output, whatever surfaces there are and on whatever layers, provided
    that no surface with an exclusive zone has a negative margin larger than the zone
    ([lawful]; [negative_margin_grows] shows what happens otherwise) and that something is
    left for windows ([usable] is not empty): the usable area is part of the output; and
    panels along the edges (mapped, no thicker than the zone they reserve, spanning their
    edge, no negative margins) are on the output, cover nothing of the usable area and do
    not overlap each other. *)
Theorem panels_keep_apart output full ps serial px py :
  lawful ps ->
  let '(ps', usable, _) := arrange output full ps serial in
  in_box usable px py ->
  (forall x y, in_box usable x y -> in_box full x y) /\
  forall i p, i ∈ arrange_order output ps -> ps' !! i = Some p -> is_panel p ->
    (forall x y, in_box (pn_box p) x y -> in_box full x y /\ ~ in_box usable x y) /\
    (forall k q, k ∈ arrange_order output ps -> i <> k -> ps' !! k = Some q -> is_panel q ->
       forall x y, in_box (pn_box p) x y -> ~ in_box (pn_box q) x y).
Proof.
  intros Hl. pose proof (arrange_apart output full ps serial px py Hl) as Ha. revert Ha.
  destruct (arrange output full ps serial) as [[ps' usable] serial']. cbn [fst snd]. intros Ha Hp.
  destruct (Ha Hp) as [A1 A2 A3 A4]. split; [done|]. intros i p Hi Hpi Hpan. split.
  - intros x y Hb. split; [by eapply A2|by eapply A1].
  - intros k q Hk Hne Hq Hpan' x y. by eapply (A3 i p k q).
Qed.

(** ** Panels and windows together *)

Definition shifted (b o : wlr_box) : wlr_box :=
  Box (box_x b + box_x o) (box_y b + box_y o) (box_width b) (box_height b).

Lemma in_shifted b o x y : in_box (shifted b o) (x + box_x o) (y + box_y o) <-> in_box b x y.
Proof. unfold in_box, shifted. simpl. lia. Qed.

Lemma in_box_pos b x y : in_box b x y -> 0 < box_width b /\ 0 < box_height b.
Proof. unfold in_box. lia. Qed.

(** The size a client was last told, or will be told when it can be, and the window
    around such a content. *)
Definition told_size (w : Toplevel) : option (Z * Z) :=
  if CanConfigure w then (fun h => (x_width h, x_height h)) <$> handle w
  else (fun b => (box_width b, box_height b)) <$> pc_size (pending_configure w).

Definition frame_around (w : Toplevel) (content : wlr_box) : wlr_box :=
  match ssd w with Some d => Ssd.FrameGeometry d content | None => content end.

(** There is room for the decoration. *)
Definition room_for (w : Toplevel) (b : wlr_box) : Prop :=
  forall d, ssd w = Some d ->
    BorderWidth d * 2 < box_width b /\ kTitlebarHeight + BorderWidth d * 2 < box_height b.

(** What configuring a window with a box leaves. *)
Lemma Configure_told b w : IsAlive w = true -> scene_tree w <> None -> nonempty b ->
  let w' := Configure b w in
  ssd w' = ssd w /\ maximized_box w' = maximized_box w /\
  exists c n, told_size w' = Some (box_width c, box_height c) /\ (room_for w b -> frame_around w' c = b) /\
    scene_tree w' = Some n /\ node_x n = box_x c - box_x (Geometry w) /\ node_y n = box_y c - box_y (Geometry w).
Proof.
  intros Ha%bool_decide_eq_true Hn [Hbw Hbh]. destruct (handle w) as [h|] eqn:Eh; [|done]. destruct (scene_tree w) as [n|] eqn:En; [|done].
  unfold Configure. rewrite En. replace ((box_width b <=? 0) || (box_height b <=? 0)) with false by lia. cbv zeta.
  set (c := match ssd w with None => b | Some d => ContentGeometry d b end).
  assert (Hf : room_for w b -> frame_around w c = b).
  { intros Hr. unfold frame_around, c. destruct (ssd w) as [d|] eqn:Ed; [|done].
    destruct (Hr d Ed). by apply frame_of_content. }
  unfold schedule. change (CanConfigure (set_position _ _ w)) with (CanConfigure w).
  destruct (CanConfigure w) eqn:Ec; simpl; rewrite ?Eh; simpl; rewrite En; (split_and!; [done|done|]);
    eexists c, _; unfold told_size, CanConfigure in *; simpl; rewrite ?Eh in *; simpl in *; rewrite Ec;
    (split_and!; [reflexivity|exact Hf|reflexivity|reflexivity|reflexivity]).
Qed.

(** C23. Panels and maximized windows: when the layers of an output are arranged and something
    is left of it, provided that no surface with an exclusive zone has a negative margin
    larger than the zone ([lawful]), every living window maximized there is put, and its
    client told the size, so that the window with its decoration (where there is room for
    one) is exactly the area that is left; and a mapped panel that spans its edge without
    negative margins and is no thicker than the zone it reserves covers nothing of that
    area. A panel that is thicker than its zone does cover windows, which the layer shell
    protocol allows. *)
Theorem maximized_beside_panels `{OutputLayout} output o width height ps serial s i w px py :
  List.find (fun o => (out_handle o =? output)%nat) (outputs_ s) = Some o ->
  0 < width -> 0 < height -> NoDup (wids s) -> lawful ps ->
  toplevels_ s !! i = Some w -> IsAlive w = true -> scene_tree w <> None ->
  maximized w = true -> maximized_output w = Some output ->
  let '(ps', usable, _) := arrange output (Box 0 0 width height) ps serial in
  in_box usable px py ->
  let '(ps'', _, s') := ArrangeLayers output width height ps serial s in
  let left := shifted usable (layout_box (Some output)) in
  ps'' = ps' /\
  (exists w' c n, toplevels_ s' !! i = Some w' /\ tl_id w' = tl_id w /\ maximized_box w' = left /\
    told_size w' = Some (box_width c, box_height c) /\ (room_for w left -> frame_around w' c = left) /\
    scene_tree w' = Some n /\ node_x n = box_x c - box_x (Geometry w) /\ node_y n = box_y c - box_y (Geometry w)) /\
  forall k p, k ∈ arrange_order output ps -> ps' !! k = Some p -> is_panel p ->
    forall x y, in_box (shifted (pn_box p) (layout_box (Some output))) x y -> ~ in_box left x y.
Proof.
  intros Ho Hw Hh Hnd Hl Hi Hal Hst Hmax Hout.
  pose proof (arrange_apart output (Box 0 0 width height) ps serial px py Hl) as Ha. revert Ha.
  unfold ArrangeLayers. rewrite Ho. replace ((width <=? 0) || (height <=? 0)) with false by lia.
  destruct (arrange output _ ps serial) as [[ps' usable] serial']. cbn [fst snd]. intros Ha Hp.
  destruct (Ha Hp) as [A1 _ _ _]. set (s1 := s <{ outputs_ ::= _ }>). cbv zeta.
  change (Box (box_x usable + _) _ _ _) with (shifted usable (layout_box (Some output))).
  set (left := shifted usable (layout_box (Some output))). set (o' := MkOutput output left).
  assert (Hne : nonempty left) by (destruct (in_box_pos _ _ _ Hp); split; simpl; lia).
  assert (Hw' : toplevels_ (FitToplevelsToUsableArea o' (usable_box o) s1) =
    map (fit_window (out_handle o') (usable_box o) (usable_box o')) (toplevels_ s1)) by (by apply FitToplevels_windows).
  assert (Hfit : fit_window output (usable_box o) left w = Configure left (w <{ maximized_box := left }>)).
  { unfold fit_window. destruct (scene_tree w); [|done]. rewrite Hal, Hmax, bool_decide_true by done. done. }
  split; [done|]. split.
  - set (w1 := w <{ maximized_box := left }>) in *.
    destruct (Configure_told left w1 Hal Hst Hne) as (_ & Hb & c & n & H1 & H2 & H3 & H4 & H5).
    exists (fit_window output (usable_box o) left w), c, n. rewrite Hw', list_lookup_fmap.
    change (toplevels_ s1) with (toplevels_ s). rewrite Hi. split; [done|]. split; [apply id_fit_window|].
    rewrite Hfit. split_and!; [exact Hb|exact H1|exact H2|exact H3|exact H4|exact H5].
  - intros k p Hk Hpk Hpan x y Hin Hu.
    replace x with (x - box_x (layout_box (Some output)) + box_x (layout_box (Some output))) in Hin, Hu by lia.
    replace y with (y - box_y (layout_box (Some output)) + box_y (layout_box (Some output))) in Hin, Hu by lia.
    subst left. rewrite in_shifted in Hin, Hu. by eapply A1.
Qed.

(** ** Layer surfaces over time *)

Inductive layer_step : wlr_layer_surface_v1 -> wlr_layer_surface_v1 -> Prop :=
| ls_set_size l w h : layer_step l (layer_surface_handle_set_size w h l)
| ls_set_anchor l a : layer_step l (layer_surface_handle_set_anchor a l)
| ls_set_zone l z : layer_step l (layer_surface_handle_set_exclusive_zone z l)
| ls_set_margin l t r b m : layer_step l (layer_surface_handle_set_margin t r b m l)
| ls_set_keyboard l v k : layer_step l (layer_surface_handle_set_keyboard_interactivity v k l)
| ls_set_layer l k : layer_step l (layer_surface_set_layer k l)
| ls_set_edge l e : layer_step l (layer_surface_set_exclusive_edge e l)
| ls_ack l serial : layer_step l (layer_surface_handle_ack_configure serial l)
| ls_commit l attach : layer_step l (commit attach l)
(** The compositor configures only initialized surfaces: the code asserts it. *)
| ls_configure l serial w h : initialized l = true -> layer_step l (wlr_layer_surface_v1_configure_send serial w h l).

Definition layer_reachable (l : wlr_layer_surface_v1) : Prop := exists k, rtc layer_step (new_layer_surface k) l.

(** The state can be placed: a missing size is given by two anchors, and the exclusive
    edge is one of the anchors. *)
Definition placeable (s : wlr_layer_surface_v1_state) : Prop :=
  (desired_width s = 0 -> has_flag (anchor s) ANCHOR_LEFT = true /\ has_flag (anchor s) ANCHOR_RIGHT = true) /\
  (desired_height s = 0 -> has_flag (anchor s) ANCHOR_TOP = true /\ has_flag (anchor s) ANCHOR_BOTTOM = true) /\
  Z.land (anchor s) (exclusive_edge s) = exclusive_edge s.

(** The state carries the serial and size of a configure event of the list. *)
Definition acknowledged (cs : list wlr_layer_surface_v1_configure) (s : wlr_layer_surface_v1_state) : Prop :=
  MkConfigure (configure_serial s) (actual_width s) (actual_height s) ∈ cs.

Record layer_inv (l : wlr_layer_surface_v1) : Prop := {
  li_placeable : initialized l = true -> placeable (current l);
  li_mapped : ls_surface_mapped l = true -> ls_buffer l = true /\ initialized l = true /\ configured l = true /\
    acknowledged (sent l) (current l);
  li_configured : configured l = true -> acknowledged (sent l) (pending l);
  li_list : configure_list l `suffix_of` sent l;
  li_fresh : initialized l = false -> configure_list l = [] /\ configured l = false;
  li_errors : pending_rejected l = true -> errors l <> [] }.

(** Requests change what is pending, but for the acknowledged configure, and post errors. *)
Lemma inv_request l p e : layer_inv l ->
  configure_serial p = configure_serial (pending l) -> actual_width p = actual_width (pending l) ->
  actual_height p = actual_height (pending l) ->
  layer_inv (l <{ pending := p }> <{ errors ::= fun es => es ++ e }>).
Proof.
  intros [I1 I2 I3 I4 I5 I6] E1 E2 E3. split; simpl; [done|done| |done|done|].
  - unfold acknowledged. rewrite E1, E2, E3. done.
  - intros Hr. specialize (I6 Hr). by destruct (errors l).
Qed.

Lemma inv_mark l field f : layer_inv l ->
  (forall p, configure_serial (f p) = configure_serial p /\ actual_width (f p) = actual_width p /\
             actual_height (f p) = actual_height p) ->
  layer_inv (mark field f l).
Proof.
  intros Hi Hf. destruct (Hf ((pending l) <{ committed ::= fun c => Z.lor c field }>)) as (E1 & E2 & E3).
  pose proof (inv_request l _ [] Hi E1 E2 E3) as H0. unfold mark. destruct l. cbv [modify] in *. cbn in *.
  by rewrite app_nil_r in H0.
Qed.

Lemma inv_post l e : layer_inv l -> layer_inv (post e l).
Proof. intros Hi. apply (inv_request l (pending l) [e]) in Hi; [|done..]. by destruct l. Qed.

Lemma inv_ack l serial : layer_inv l -> layer_inv (layer_surface_handle_ack_configure serial l).
Proof.
  intros Hi. unfold layer_surface_handle_ack_configure.
  destruct (from_serial serial (configure_list l)) as [[c rest]|] eqn:Ef; [|by apply inv_post].
  assert (Hsuf : c :: rest `suffix_of` configure_list l).
  { revert Ef. generalize (configure_list l). intros cs. induction cs as [|d cs IH]; simpl; [done|].
    destruct (cf_serial d =? serial); [intros [= -> ->]; done|]. intros Hc. by apply suffix_cons_r, IH. }
  destruct Hi as [I1 I2 I3 I4 I5 I6].
  assert (Hs : c :: rest `suffix_of` sent l) by (by etransitivity).
  split; simpl; [done|naive_solver|..|done].
  - intros _. unfold acknowledged. simpl. destruct Hs as [k ->]. destruct c; simpl. set_solver.
  - by eapply suffix_cons_l.
  - intros Hn. destruct (I5 Hn) as [E _]. rewrite E in Hsuf. by apply suffix_nil_inv in Hsuf.
Qed.

Lemma has_flag_of a b f : Z.land a b = b -> Z.land b f = f -> f <> 0 -> has_flag a f = true.
Proof.
  intros Hab Hbf Hf. unfold has_flag. rewrite <- Hbf, Z.land_assoc, Hab, Hbf. by apply negb_true_iff, Z.eqb_neq.
Qed.

(** A commit that is not rejected leaves the state that was pending, and it can be placed. *)
Lemma client_commit_accepts hb l : pending_rejected (layer_surface_role_client_commit hb l) = false ->
  layer_surface_role_client_commit hb l = l /\ (hb = true -> configured l = true) /\ placeable (pending l).
Proof.
  unfold layer_surface_role_client_commit. cbv zeta.
  assert (Hr : forall e, pending_rejected (wlr_surface_reject_pending e l) = false -> False)
    by (intros e; unfold wlr_surface_reject_pending; destruct (pending_rejected l) eqn:E; simpl; congruence).
  destruct (hb && _) eqn:E1; [by intros ?%Hr|]. destruct ((desired_width _ =? 0) && _) eqn:E2; [by intros ?%Hr|].
  destruct ((desired_height _ =? 0) && _) eqn:E3; [by intros ?%Hr|].
  destruct (negb (_ =? exclusive_edge (pending l))) eqn:E4; [by intros ?%Hr|].
  intros _. split; [done|]. split; [intros ->; by destruct (configured l)|].
  apply negb_false_iff, Z.eqb_eq in E4. split_and!; [..|done]; intros H0.
  - rewrite H0 in E2. apply negb_false_iff, Z.eqb_eq in E2. split; (eapply has_flag_of; [exact E2|reflexivity|done]).
  - rewrite H0 in E3. apply negb_false_iff, Z.eqb_eq in E3. split; (eapply has_flag_of; [exact E3|reflexivity|done]).
Qed.

(** A rejected commit posts an error. *)
Lemma inv_client_commit l hb : layer_inv l -> layer_inv (layer_surface_role_client_commit hb l).
Proof.
  intros Hi. unfold layer_surface_role_client_commit, wlr_surface_reject_pending. cbv zeta. repeat case_match; try done.
  all: destruct (inv_post l IMPLEMENTATION_ERROR Hi) as [I1 I2 I3 I4 I5 I6]; split; simpl in *; try done.
  all: intros _ E; by destruct (errors l).
Qed.

(** The state that is pending takes effect on a surface that is not being shown. *)
Lemma inv_unmap l : layer_inv l -> layer_inv (wlr_surface_unmap l).
Proof. intros [I1 I2 I3 I4 I5 I6]. by split. Qed.

Lemma inv_apply l b unmap_commit : layer_inv l -> placeable (pending l) ->
  (ls_surface_mapped l = true -> b = true /\ unmap_commit = false) ->
  layer_inv (l <{ ls_buffer := b }> |> surface_synced_move_state |> role_commit_state unmap_commit).
Proof.
  intros [I1 I2 I3 I4 I5 I6] Hp Hb. unfold role_commit_state, layer_surface_reset, surface_synced_move_state, acknowledged in *.
  destruct unmap_commit; split; simpl; unfold acknowledged; simpl; auto using suffix_nil; try congruence.
  - intros Hm. by destruct (Hb Hm).
  - intros Hm. destruct (I2 Hm) as (_ & Hin & Hc & _), (Hb Hm). auto.
Qed.

Lemma inv_map l : layer_inv l -> ls_buffer l = true -> initialized l = true -> configured l = true ->
  acknowledged (sent l) (current l) -> layer_inv (wlr_surface_map l).
Proof. intros [I1 I2 I3 I4 I5 I6] Hb Hn Hc Ha. by split. Qed.

(** A surface that takes part in a commit, with what listeners do to it in between. *)
Lemma inv_role_commit l b unmap_commit : layer_inv l -> placeable (pending l) ->
  (ls_surface_mapped l = true -> b = true /\ unmap_commit = false) ->
  (b = true -> configured l = true /\ unmap_commit = false) ->
  layer_inv (l <{ ls_buffer := b }> |> surface_synced_move_state |> layer_surface_role_commit unmap_commit).
Proof.
  intros Hi Hp Hm Hb. pose proof (inv_apply l b unmap_commit Hi Hp Hm) as Ha.
  unfold layer_surface_role_commit. destruct b; [destruct (Hb eq_refl) as [Hc ->]|by destruct unmap_commit].
  apply inv_map; [exact Ha|done..|]. by apply (li_configured l).
Qed.

(** What listeners may do to a surface in the middle of a commit. *)
Record harmless (f : wlr_layer_surface_v1 -> wlr_layer_surface_v1) : Prop := {
  hl_inv : forall l, layer_inv l -> layer_inv (f l);
  hl_same : forall l, pending (f l) = pending l /\ ls_surface_mapped (f l) = ls_surface_mapped l /\
    configured (f l) = configured l }.

Lemma harmless_id : harmless (fun l => l).
Proof. by split. Qed.

Lemma inv_layer_commit f l attach : harmless f -> layer_inv l -> layer_inv (commit_hook f attach l).
Proof.
  intros Hf Hi. unfold commit_hook.
  destruct (pending_rejected (layer_surface_role_client_commit _ l)) eqn:Er; [by apply inv_client_commit|].
  apply client_commit_accepts in Er as (-> & Hc & Hp). unfold surface_commit_state.
  destruct (bool_decide _ && _) eqn:Eu.
  - apply andb_prop in Eu as [->%bool_decide_eq_true Em]. destruct (hl_same f Hf (wlr_surface_unmap l)) as (E1 & E2 & E3).
    apply (inv_role_commit (f (wlr_surface_unmap l)) false true);
      [by apply (hl_inv f Hf), inv_unmap|by rewrite E1|by rewrite E2|done].
  - apply (inv_role_commit l (default (ls_buffer l) attach) false); [done|done| |auto].
    intros Hm. rewrite Hm in Eu. destruct attach as [[]|]; simpl; [done|done|]. by destruct (li_mapped l Hi Hm).
Qed.

Lemma inv_configure l serial w h : layer_inv l -> initialized l = true ->
  layer_inv (wlr_layer_surface_v1_configure_send serial w h l).
Proof.
  intros [I1 I2 I3 I4 I5 I6] Hin. split; simpl; unfold acknowledged in *; [done|..|done].
  - intros Hm. destruct (I2 Hm) as (? & ? & ? & ?). set_solver.
  - intros Hm. specialize (I3 Hm). set_solver.
  - by apply suffix_snoc.
  - congruence.
Qed.

Lemma layer_step_inv l l' : layer_step l l' -> layer_inv l -> layer_inv l'.
Proof.
  intros Hs Hi. destruct Hs; [..|by apply inv_ack|by apply inv_layer_commit, Hi; apply harmless_id|by apply inv_configure].
  - unfold layer_surface_handle_set_size. repeat case_match; [by apply inv_post|done|by apply inv_mark].
  - unfold layer_surface_handle_set_anchor. cbv zeta. destruct (anchor_is_valid a); case_match; try done.
    + by apply inv_mark.
    + by apply inv_post.
    + apply inv_mark; [by apply inv_post|done].
  - unfold layer_surface_handle_set_exclusive_zone. case_match; [done|by apply inv_mark].
  - unfold layer_surface_handle_set_margin. case_match; [done|by apply inv_mark].
  - unfold layer_surface_handle_set_keyboard_interactivity. cbv zeta.
    assert (Hm : layer_inv (mark STATE_KEYBOARD_INTERACTIVITY (fun p => p) l)) by (by apply inv_mark).
    pose proof (fun x => inv_mark l STATE_KEYBOARD_INTERACTIVITY (fun p => p <{ keyboard_interactive := x }>) Hi
      ltac:(done)) as Hset.
    destruct (v <? 4); [apply Hset|]. destruct (negb _); [by apply inv_post|apply Hset].
  - unfold layer_surface_set_layer. repeat case_match; [by apply inv_post|done|by apply inv_mark].
  - unfold layer_surface_set_exclusive_edge. case_match; [by apply inv_post|by apply inv_mark].
Qed.

(** A layer surface under any requests, acknowledgements, commits and configure events:
    once initialized its state can be placed (an axis without a size has both anchors, the
    exclusive edge is an anchor); a mapped surface has a buffer and shows the serial and
    size of a configure event it was sent; an uninitialized one has no configure events
    outstanding. *)
Theorem layer_surface_invariant l : layer_reachable l ->
  (initialized l = true -> placeable (current l)) /\
  (ls_surface_mapped l = true -> ls_buffer l = true /\ initialized l = true /\ configured l = true /\
     acknowledged (sent l) (current l)) /\
  configure_list l `suffix_of` sent l /\
  (initialized l = false -> configure_list l = [] /\ configured l = false) /\
  (pending_rejected l = true -> errors l <> []).
Proof.
  intros [k Hr]. assert (Hi : layer_inv l); [|by destruct Hi].
  assert (H0 : layer_inv (new_layer_surface k)) by (by split).
  induction Hr as [|l1 l2 l3 Hs _ IH]; [done|]. by apply IH, (layer_step_inv l1).
Qed.

(** Only initialized surfaces are placed, as the assertion in wlr_layer_surface_v1_configure
    demands. *)
Lemma arrange_order_initialized output ps i p h : i ∈ arrange_order output ps ->
  ps !! i = Some p -> pn_handle p = Some h -> initialized h = true.
Proof.
  unfold arrange_order. rewrite list_elem_of_In. intros (e & _ & Hi)%in_flat_map Hp Hh.
  apply in_flat_map in Hi as (k & _ & Hi). apply List.filter_In in Hi as [_ Ht]. rewrite Hp in Ht. simpl in Ht.
  unfold takes_part in Ht. rewrite Hh in Ht. by destruct (initialized h).
Qed.

(** ** A bar and a dock *)

#[local] Existing Instance demo_layout.

Definition demo_bar (a size : Z) : wlr_layer_surface_v1 :=
  new_layer_surface 2 |> layer_surface_handle_set_size 0 size |> layer_surface_handle_set_anchor a
    |> layer_surface_handle_set_exclusive_zone size |> commit None
    |> wlr_layer_surface_v1_configure_send 1 1920 size |> layer_surface_handle_ack_configure 1 |> commit (Some true).

(** A bar of 30 pixels at the top and a dock of 80 at the bottom. *)
Definition demo_panels : list LayerPanel :=
  [MkPanel (Some (demo_bar 13 30)) 11 (Some 1%nat) (Some 2) true (Box 0 0 0 0);
   MkPanel (Some (demo_bar 14 80)) 12 (Some 1%nat) (Some 2) true (Box 0 0 0 0)].

Lemma demo_bar_built a size : initialized (new_layer_surface 2 |> layer_surface_handle_set_size 0 size
    |> layer_surface_handle_set_anchor a |> layer_surface_handle_set_exclusive_zone size |> commit None) = true ->
  layer_reachable (demo_bar a size).
Proof.
  intros Hi. exists 2. unfold demo_bar. eapply rtc_l; [apply (ls_set_size _ 0 size)|].
  eapply rtc_l; [apply (ls_set_anchor _ a)|]. eapply rtc_l; [apply (ls_set_zone _ size)|].
  eapply rtc_l; [apply (ls_commit _ None)|]. eapply rtc_l; [by apply (ls_configure _ 1 1920 size)|].
  eapply rtc_l; [apply (ls_ack _ 1)|]. apply rtc_once, (ls_commit _ (Some true)).
Qed.

Lemma demo_lawful : lawful demo_panels.
Proof.
  intros m s [i Hi]%list_elem_of_lookup_1 _. destruct i as [|[|i]]; vm_compute in Hi; simplify_eq;
    unfold takes_space; simpl; lia.
Qed.

(** The bar is mapped at the size it was told. *)
Lemma layer_surface_invariant_witness :
  ls_surface_mapped (demo_bar 13 30) = true /\ placeable (current (demo_bar 13 30)) /\
  acknowledged [MkConfigure 1 1920 30] (current (demo_bar 13 30)).
Proof.
  destruct (layer_surface_invariant (demo_bar 13 30)) as (Hp & Hm & _); [by apply demo_bar_built|].
  split; [reflexivity|]. split; [by apply Hp|by apply Hm].
Defined.

Lemma panels_keep_apart_witness :
  snd (fst (arrange 1 (Box 0 0 1920 1080) demo_panels 7)) = Box 0 30 1920 970 /\
  map pn_box (fst (fst (arrange 1 (Box 0 0 1920 1080) demo_panels 7))) = [Box 0 0 1920 30; Box 0 1000 1920 80] /\
  forall x y, in_box (Box 0 0 1920 30) x y -> ~ in_box (Box 0 30 1920 970) x y.
Proof.
  split; [reflexivity|]. split; [reflexivity|].
  pose proof (panels_keep_apart 1 (Box 0 0 1920 1080) demo_panels 7 5 500 demo_lawful) as Hk.
  destruct (arrange 1 (Box 0 0 1920 1080) demo_panels 7) as [[ps' usable] serial'] eqn:Ea.
  vm_compute in Ea. injection Ea as <- <- <-. destruct Hk as [_ Hk]; [unfold in_box; simpl; lia|].
  intros x y Hin. apply (Hk 0%nat _ ltac:(by vm_compute; left) eq_refl); [|exact Hin].
  eexists. split; [reflexivity|]. unfold along_edge, stretched. vm_compute. split_and?; congruence.
Defined.

(** The first window is maximized before the panels appear. *)
Definition demo_maximized : compositor :=
  (upd_tl 1 (fun w => w <{ maximized := true }> <{ maximized_output := Some 1%nat }>) demo_windows)
    <{ outputs_ := [MkOutput 1 (Box 0 0 1920 1080)] }>.

Lemma maximized_beside_panels_witness : exists w',
  toplevels_ (snd (ArrangeLayers 1 1920 1080 demo_panels 7 demo_maximized)) !! 0%nat = Some w' /\
  exists c, told_size w' = Some (box_width c, box_height c) /\ frame_around w' c = Box 0 30 1920 970.
Proof.
  set (w := demo_first <{ maximized := true }> <{ maximized_output := Some 1%nat }>).
  assert (Hout : List.find (fun o => (out_handle o =? 1)%nat) (outputs_ demo_maximized) =
    Some (MkOutput 1 (Box 0 0 1920 1080))) by (vm_compute; reflexivity).
  assert (Hids : NoDup (wids demo_maximized)) by (vm_compute; repeat constructor; set_solver).
  assert (Hw : toplevels_ demo_maximized !! 0%nat = Some w) by (vm_compute; reflexivity).
  assert (Halive : IsAlive w = true) by (vm_compute; reflexivity).
  assert (Htree : scene_tree w <> None) by (vm_compute; discriminate).
  pose proof (maximized_beside_panels 1 _ 1920 1080 demo_panels 7 _ 0 w 5 500 Hout eq_refl eq_refl Hids demo_lawful Hw
    Halive Htree eq_refl eq_refl) as Hm. clear Hw.
  destruct (arrange 1 (Box 0 0 1920 1080) demo_panels 7) as [[ps' usable] serial'] eqn:Ea.
  vm_compute in Ea. injection Ea as <- <- <-. specialize (Hm ltac:(unfold in_box; simpl; lia)).
  destruct (ArrangeLayers 1 1920 1080 demo_panels 7 demo_maximized) as [[ps'' serial''] s'].
  destruct Hm as (_ & (w' & c & n & Hw & _ & _ & Ht & Hf & _) & _). exists w'. split; [exact Hw|].
  exists c. split; [exact Ht|]. apply Hf. intros d Ed. vm_compute in Ed. by simplify_eq.
Defined.

(** ** Surprises *)

(** Margins wider than the output: the size sent to the client is a negative number taken
    as an unsigned one. *)
Example wide_margins_wrap :
  let l := new_layer_surface 2 |> layer_surface_handle_set_anchor 15 |> layer_surface_handle_set_margin 0 0 0 2000
             |> commit None in
  let '(ps, _, _) := arrange 1 (Box 0 0 1920 1080) [MkPanel (Some l) 11 (Some 1%nat) (Some 2) true (Box 0 0 0 0)] 7 in
  map (fun p => sent <$> pn_handle p) ps = [Some [MkConfigure 7 4294967216 1080]].
Proof. reflexivity. Qed.

(** A negative margin larger than the zone: the usable area grows over the output's edge. *)
Example negative_margin_grows :
  let l := demo_bar 13 30 |> layer_surface_handle_set_margin (-100) 0 0 0 |> commit None in
  snd (fst (arrange 1 (Box 0 0 1920 1080) [MkPanel (Some l) 11 (Some 1%nat) (Some 2) true (Box 0 0 0 0)] 7)) =
  Box 0 (-70) 1920 1150.
Proof. reflexivity. Qed.
