(* ===== verification/LayerShell.v ===== *)
(** * Layer shell: panels appear, change and go away

    Models the handlers of LayerSurface (src/src/protocol/layer_shell/layer_surface.cc) over
    the layer surfaces of [Layers]: CompositorPrivate::OnNewLayerSurface, OnMap, OnUnmap,
    OnCommit, OnDestroy, the commits and destruction that call them, and what the removal
    of an output does to its panels. Notifications of scales and popups are left out. *)

From S2P Require Import Prelude Box Window Windows KeptFields WindowFacts Workspaces Motion Layers.

(** ** State *)

(** Keyboard interactivity as the protocol numbers it. *)
Definition interactivity_of (k : Z) : interactivity :=
  if k =? 0 then InteractNone else if k =? 1 then InteractExclusive else InteractOnDemand.

(** What the rest of the compositor sees of a panel. *)
Definition layer_view (p : LayerPanel) : LayerSurface :=
  MkLayer (pn_mapped p) ((fun h => (pn_surface p, interactivity_of (keyboard_interactive (current h)))) <$> pn_handle p).

Record layer_shell := Shell { panels : list LayerPanel; next_serial : Z; comp : compositor }.

#[export] Instance shell_fields : Fields layer_shell := {| rebuild := fun s =>
  Shell (panels s) (next_serial s) (comp s) |}.

(** [layer_surfaces_] of the compositor follows the panels. *)
Definition sync (s : layer_shell) : layer_shell :=
  s <{ comp ::= fun c => c <{ layer_surfaces_ := map layer_view (panels s) }> }>.
Definition upd_panel (i : nat) (f : LayerPanel -> LayerPanel) (s : layer_shell) : layer_shell :=
  sync (s <{ panels ::= alter f i }>).
Definition upd_handle (i : nat) (f : wlr_layer_surface_v1 -> wlr_layer_surface_v1) : layer_shell -> layer_shell :=
  upd_panel i (fun p => p <{ pn_handle ::= fmap f }>).
Definition with_panel (i : nat) (f : LayerPanel -> wlr_layer_surface_v1 -> layer_shell -> layer_shell) (s : layer_shell)
    : layer_shell :=
  match panels s !! i with
  | Some p => match pn_handle p with Some h => f p h s | None => s end
  | None => s
  end.
Definition on_comp (f : compositor -> compositor) (s : layer_shell) : layer_shell := s <{ comp ::= f }>.

Section Handlers.
Context `{OutputLayout} (resolution : nat -> Z * Z).

(** ArrangeLayers (FindOutput (output)). *)
Definition arrange_output (output : option nat) (s : layer_shell) : layer_shell :=
  match output with
  | None => s
  | Some o =>
      let '(ps, serial, c) := ArrangeLayers o (resolution o).1 (resolution o).2 (panels s) (next_serial s) (comp s) in
      Shell ps serial c
  end.

(** ** Handlers *)

Definition focus_panel (i : nat) (s : layer_shell) : layer_shell :=
  on_comp (FocusLayerSurface (layer_view <$> panels s !! i)) s.

Definition wants_keyboard (h : wlr_layer_surface_v1) : bool :=
  bool_decide (interactivity_of (keyboard_interactive (current h)) = InteractExclusive).

Definition LayerOnMap (i : nat) : layer_shell -> layer_shell :=
  with_panel i (fun p h s =>
    let s := s |> upd_panel i (fun p => p <{ pn_mapped := true }>) |> arrange_output (pn_output p) in
    if wants_keyboard h then focus_panel i s else s).

Definition LayerOnUnmap (i : nat) : layer_shell -> layer_shell :=
  with_panel i (fun p h s =>
    let s := upd_panel i (fun p => p <{ pn_mapped := false }>) s in
    let s := if bool_decide (focused_surface (comp s) = Some (pn_surface p))
             then on_comp (FocusNextToplevel None) s else s in
    arrange_output (pn_output p) s).

Definition LayerOnCommit (i : nat) : layer_shell -> layer_shell :=
  with_panel i (fun p h s =>
    let output := FindOutput (pn_output p) (comp s) in
    if initial_commit h then arrange_output (pn_output p) s
    else
      let s := if has_flag (committed (current h)) STATE_LAYER && bool_decide (output <> None)
               then upd_panel i (fun p => p <{ pn_parent := Some (layer (current h)) }>) s else s in
      let s := if negb (committed (current h) =? 0) then arrange_output (pn_output p) s else s in
      if pn_mapped p && wants_keyboard h then focus_panel i s else s).

Definition LayerOnDestroy (i : nat) : layer_shell -> layer_shell :=
  with_panel i (fun p h s => s
    |> upd_panel i (fun p => p <{ pn_handle := None }> <{ pn_parent := None }> <{ pn_mapped := false }>)
    |> arrange_output (pn_output p)).

(** [created] is whether the scene tree could be made. *)
Definition OnNewLayerSurface (created : bool) (surface : nat) (l : Z) (requested : option nat) (s : layer_shell)
    : layer_shell :=
  let output := match requested with Some o => Some o | None => pointer_output (comp s) end in
  match FindOutput output (comp s) with
  | None => s
  | Some _ =>
      if created then
        sync (s <{ panels ::= fun ps => ps ++ [MkPanel (Some (new_layer_surface l)) surface output (Some l) false (Box 0 0 0 0)] }>)
      else s
  end.

(** ** What makes them run *)

(** A request or an acknowledgement of the client. *)
Definition request (i : nat) (f : wlr_layer_surface_v1 -> wlr_layer_surface_v1) : layer_shell -> layer_shell := upd_handle i f.

(** surface_handle_commit, with the events it emits. *)
Definition surface_handle_commit (i : nat) (attach : option bool) : layer_shell -> layer_shell :=
  with_panel i (fun _ h s =>
    let has_buffer := default (ls_buffer h) attach in
    let s := upd_handle i (layer_surface_role_client_commit has_buffer) s in
    if pending_rejected (layer_surface_role_client_commit has_buffer h) then s
    else
      let unmap_commit := bool_decide (attach = Some false) && ls_surface_mapped h in
      let s := if unmap_commit then s |> upd_handle i wlr_surface_unmap |> LayerOnUnmap i else s in
      let s := upd_handle i (fun h => h <{ ls_buffer := has_buffer }>
                 |> surface_synced_move_state |> role_commit_state unmap_commit) s in
      let s := if has_buffer && negb (ls_surface_mapped h) then s |> upd_handle i wlr_surface_map |> LayerOnMap i else s in
      LayerOnCommit i s).

(** layer_surface_destroy: the client or the compositor ends the surface. *)
Definition layer_surface_destroy (i : nat) : layer_shell -> layer_shell :=
  with_panel i (fun _ h s =>
    let s := if ls_surface_mapped h then s |> upd_handle i wlr_surface_unmap |> LayerOnUnmap i else s in
    s |> upd_handle i layer_surface_reset |> LayerOnDestroy i).

(** Output::OnDestroy, as far as panels are concerned. *)
Definition destroy_output (o : nat) (s : layer_shell) : layer_shell :=
  foldl (fun s i => with_panel i (fun p _ s =>
           if bool_decide (pn_output p = Some o) then layer_surface_destroy i s else s) s) s (seq 0 (length (panels s)))
    |> on_comp (fun c => c <{ outputs_ ::= List.filter (fun q => negb (out_handle q =? o)%nat) }>).

End Handlers.

(** ** What arranging leaves alone *)

(** A handle that was sent configure events. *)
Definition retold (h h' : wlr_layer_surface_v1) : Prop :=
  h' = h <{ configure_list := configure_list h' }> <{ sent := sent h' }> /\ (layer_inv h -> layer_inv h') /\
  configure_list h `prefix_of` configure_list h'.

Definition same_panel (p p' : LayerPanel) : Prop :=
  p' = p <{ pn_handle := pn_handle p' }> <{ pn_box := pn_box p' }> /\ option_Forall2 retold (pn_handle p) (pn_handle p').

#[export] Instance retold_preorder : PreOrder retold.
Proof.
  split.
  - intros []. by split_and!.
  - intros h1 h2 h3 (E1 & I1 & P1) (E2 & I2 & P2). split_and!; [|auto|by etransitivity].
    rewrite E2, E1. by destruct h1, h2, h3.
Qed.

#[export] Instance same_panel_preorder : PreOrder same_panel.
Proof.
  split.
  - intros p. split; [by destruct p|reflexivity].
  - intros p1 p2 p3 [E1 F1] [E2 F2]. split; [|by etransitivity]. rewrite E2, E1. by destruct p1, p2, p3.
Qed.

Lemma configure_panel_same full ps u serial i :
  (forall p h, ps !! i = Some p -> pn_handle p = Some h -> initialized h = true) ->
  Forall2 same_panel ps (fst (fst (configure_panel full (ps, u, serial) i))).
Proof.
  intros Hi. unfold configure_panel. destruct (ps !! i) as [p|] eqn:Ep; [|done]. destruct (pn_handle p) as [h|] eqn:Eh; [|done].
  destruct (wlr_scene_layer_surface_v1_configure _ _ _ _) as [box u']. cbn [fst].
  apply Forall2_same_length_lookup. split; [by rewrite length_insert|]. intros j q q' Hq Hq'.
  apply list_lookup_insert_Some in Hq' as [(<- & <- & _)|(_ & Hq')]; [|by replace q' with q by congruence].
  assert (q = p) as -> by congruence. split; [by destruct p|]. simpl. rewrite Eh. constructor.
  split_and!; [by destruct h|intros ?; apply inv_configure; [done|by eapply Hi]|]. by eexists.
Qed.

Lemma same_initialized ps ps' i : Forall2 same_panel ps ps' ->
  (forall p h, ps !! i = Some p -> pn_handle p = Some h -> initialized h = true) ->
  forall p h, ps' !! i = Some p -> pn_handle p = Some h -> initialized h = true.
Proof.
  intros Hs Hi p' h' Hp' Hh'. destruct (Forall2_lookup_r _ _ _ _ _ Hs Hp') as (p & Hp & [_ Hr]).
  rewrite Hh' in Hr. inversion Hr as [h ? (E & _) Eh|]; subst. rewrite E. simpl. by eapply Hi.
Qed.

Lemma fold_same full l ps u serial :
  (forall i, i ∈ l -> forall p h, ps !! i = Some p -> pn_handle p = Some h -> initialized h = true) ->
  Forall2 same_panel ps (fst (fst (foldl (configure_panel full) (ps, u, serial) l))).
Proof.
  revert ps u serial. induction l as [|i l IH]; intros ps u serial Hin; cbn [foldl]; [done|].
  pose proof (configure_panel_same full ps u serial i (Hin i ltac:(set_solver))) as Hs.
  destruct (configure_panel full (ps, u, serial) i) as [[ps' u'] serial']. cbn [fst] in Hs.
  etransitivity; [exact Hs|]. apply IH. intros j Hj. eapply same_initialized; [exact Hs|apply Hin; set_solver].
Qed.

Lemma arrange_same output full ps serial : Forall2 same_panel ps (fst (fst (arrange output full ps serial))).
Proof. apply fold_same. intros. by eapply arrange_order_initialized. Qed.

(** A surface that takes part is sent a configure event. *)
Lemma arrange_tells output full ps serial i p h : i ∈ arrange_order output ps -> ps !! i = Some p -> pn_handle p = Some h ->
  exists p' h', fst (fst (arrange output full ps serial)) !! i = Some p' /\ pn_handle p' = Some h' /\ configure_list h' <> [].
Proof.
  intros Hi Hp Hh.
  assert (Hin : forall j, j ∈ arrange_order output ps -> forall p h, ps !! j = Some p -> pn_handle p = Some h ->
    initialized h = true) by (intros; by eapply arrange_order_initialized).
  unfold arrange. revert Hi Hin. generalize (arrange_order output ps). intros l Hi Hin.
  apply list_elem_of_split in Hi as (l1 & l2 & ->). rewrite foldl_app. cbn [foldl].
  pose proof (fold_same full l1 ps full serial ltac:(intros j Hj; apply Hin; set_solver)) as Hs1.
  destruct (foldl (configure_panel full) (ps, full, serial) l1) as [[ps1 u1] serial1]. cbn [fst] in Hs1.
  destruct (Forall2_lookup_l _ _ _ _ _ Hs1 Hp) as (p1 & Hp1 & _ & F1). rewrite Hh in F1. inversion F1 as [h0 h1 Hr1 Eh0 E1|]; subst.
  assert (Hs2 : Forall2 same_panel ps1 (fst (fst (configure_panel full (ps1, u1, serial1) i)))).
  { apply configure_panel_same. eapply same_initialized; [exact Hs1|apply Hin; set_solver]. }
  assert (H2 : exists p2 h2, fst (fst (configure_panel full (ps1, u1, serial1) i)) !! i = Some p2 /\ pn_handle p2 = Some h2 /\
    configure_list h2 <> []).
  { unfold configure_panel. rewrite Hp1, <- E1. destruct (wlr_scene_layer_surface_v1_configure _ _ _ _). cbn [fst].
    rewrite list_lookup_insert_eq by (by eapply lookup_lt_Some). eexists _, _. split_and!; [done|done|]. simpl. by destruct (configure_list h1). }
  destruct (configure_panel full (ps1, u1, serial1) i) as [[ps2 u2] serial2]. cbn [fst] in *. destruct H2 as (p2 & h2 & Hp2 & Hh2 & Hn).
  assert (Hs3 : Forall2 same_panel ps2 (fst (fst (foldl (configure_panel full) (ps2, u2, serial2) l2)))).
  { apply fold_same. intros j Hj. eapply same_initialized; [exact Hs2|].
    eapply same_initialized; [exact Hs1|apply Hin; set_solver]. }
  destruct (Forall2_lookup_l _ _ _ _ _ Hs3 Hp2) as (p3 & Hp3 & _ & F3).
  rewrite Hh2 in F3. inversion F3 as [h0' h3 (_ & _ & Hpre) Eh3 E3|]; subst. exists p3, h3. split_and!; [done|done|].
  intros E. rewrite E in Hpre. by apply prefix_nil_inv in Hpre.
Qed.

(** ** The invariant *)

Definition panel_ok (p : LayerPanel) : Prop :=
  match pn_handle p with
  | Some h => layer_inv h /\ pn_mapped p = ls_surface_mapped h
  | None => pn_mapped p = false
  end.

Record shell_inv (s : layer_shell) : Prop := {
  si_panels : Forall panel_ok (panels s);
  si_view : layer_surfaces_ (comp s) = map layer_view (panels s) }.

Lemma same_panel_ok p p' : same_panel p p' -> panel_ok p -> panel_ok p'.
Proof.
  intros [E F]. unfold panel_ok. inversion F as [h h' (Eh & Hi & _) E1 E2|E1 E2].
  - intros [Hok Hm]. split; [auto|]. rewrite E, Eh. simpl. done.
  - intros Hm. by rewrite E.
Qed.

Lemma same_panel_view p p' : same_panel p p' -> layer_view p' = layer_view p.
Proof.
  intros [E F]. unfold layer_view. rewrite E. simpl. inversion F as [h h' (Eh & _) E1 E2|E1 E2]; [|done].
  simpl. by rewrite Eh.
Qed.

#[export] Instance layers_ignored : Ignores layer_surfaces_.
Proof. by split. Qed.

Section Facts.
Context `{OutputLayout} (resolution : nat -> Z * Z).

Lemma Fit_layers o old c : layer_surfaces_ (FitToplevelsToUsableArea o old c) = layer_surfaces_ c.
Proof. pose proof (wview_Fit o old c) as E. unfold wview, globals in E. by injection E. Qed.

Lemma arrange_output_same output s : Forall2 same_panel (panels s) (panels (arrange_output resolution output s)) /\
  layer_surfaces_ (comp (arrange_output resolution output s)) = layer_surfaces_ (comp s).
Proof.
  unfold arrange_output, ArrangeLayers. destruct output as [o|]; [|done]. destruct (List.find _ _) as [q|]; [|done].
  destruct (_ || _); [done|]. pose proof (arrange_same o (Box 0 0 (resolution o).1 (resolution o).2) (panels s) (next_serial s)) as Hs.
  destruct (arrange _ _ _ _) as [[ps u] serial]. split; [exact Hs|]. cbn [comp].
  by rewrite Fit_layers.
Qed.

Lemma arrange_output_inv output s : shell_inv s -> shell_inv (arrange_output resolution output s).
Proof.
  intros [I1 I2]. destruct (arrange_output_same output s) as [Hs Hl]. split.
  - eapply Forall2_Forall_r; [exact Hs|]. eapply Forall_impl; [exact I1|]. intros p Hp p' Hpp. by eapply same_panel_ok.
  - rewrite Hl, I2. clear -Hs. induction Hs as [|p p' ps ps' Hp _ IH]; [done|]. simpl. f_equal; [|done].
    symmetry. by apply same_panel_view.
Qed.

Lemma on_comp_inv f s : (forall c, kept layer_surfaces_ c (f c)) -> shell_inv s -> shell_inv (on_comp f s).
Proof. intros Hf [I1 I2]. split; [done|]. simpl. by rewrite Hf. Qed.

Lemma upd_panel_inv i f s : shell_inv s -> (forall p, panels s !! i = Some p -> panel_ok p -> panel_ok (f p)) ->
  shell_inv (upd_panel i f s).
Proof.
  intros [I1 _] Hf. split; [|done]. simpl. apply Forall_lookup. intros j p Hp.
  destruct (decide (i = j)) as [<-|Hne].
  - rewrite list_lookup_alter_eq in Hp. destruct (panels s !! i) as [q|] eqn:Eq; [|done]. injection Hp as <-.
    apply Hf; [done|]. by eapply Forall_lookup_1.
  - rewrite list_lookup_alter_ne in Hp by done. by eapply Forall_lookup_1.
Qed.

Lemma upd_handle_inv i f s : shell_inv s ->
  (forall p h, panels s !! i = Some p -> pn_handle p = Some h -> layer_inv h ->
     layer_inv (f h) /\ ls_surface_mapped (f h) = ls_surface_mapped h) ->
  shell_inv (upd_handle i f s).
Proof.
  intros Hi Hf. apply upd_panel_inv; [done|]. intros p Hp. unfold panel_ok. simpl.
  destruct (pn_handle p) as [h|] eqn:Eh; [|done]. simpl. intros [Hok Hm]. destruct (Hf p h Hp Eh Hok) as [Hl Hs].
  split; [done|]. by rewrite Hs.
Qed.

(** ** Hiding and showing *)

(** wlr_surface_unmap with its listener. *)
Definition hide (p : LayerPanel) : LayerPanel := p <{ pn_handle ::= fmap wlr_surface_unmap }> <{ pn_mapped := false }>.
Definition show (p : LayerPanel) : LayerPanel := p <{ pn_handle ::= fmap wlr_surface_map }> <{ pn_mapped := true }>.

Lemma alter_twice {A} (f g : A -> A) (i : nat) (l : list A) : alter g i (alter f i l) = alter (fun x => g (f x)) i l.
Proof. revert i. induction l as [|x l IH]; intros [|i]; [done..|]. simpl. f_equal. apply IH. Qed.

Lemma upd_panel_twice i f g s : upd_panel i g (upd_panel i f s) = upd_panel i (fun p => g (f p)) s.
Proof. unfold upd_panel, sync. destruct s as [ps serial c]. cbv [modify]. cbn. by rewrite alter_twice. Qed.

Lemma hide_panel i p h s : panels s !! i = Some p -> pn_handle p = Some h ->
  exists f, (forall c, kept layer_surfaces_ c (f c)) /\
  (s |> upd_handle i wlr_surface_unmap |> LayerOnUnmap resolution i) =
  (s |> upd_panel i hide |> on_comp f |> arrange_output resolution (pn_output p)).
Proof.
  intros Hp Hh. unfold LayerOnUnmap, with_panel, upd_handle at 1 2. simpl. rewrite list_lookup_alter_eq, Hp. simpl. rewrite Hh. simpl.
  unfold upd_handle. rewrite upd_panel_twice. match goal with |- context [upd_panel i ?g s] => change g with hide end.
  case_match; [exists (FocusNextToplevel None)|exists id]; [split; [intros; apply kept_FocusNextToplevel, _|done]|].
  split; [done|]. by destruct s.
Qed.

Lemma show_panel i p h s : panels s !! i = Some p -> pn_handle p = Some h ->
  exists f, (forall c, kept layer_surfaces_ c (f c)) /\
  (s |> upd_handle i wlr_surface_map |> LayerOnMap resolution i) =
  (s |> upd_panel i show |> arrange_output resolution (pn_output p) |> on_comp f).
Proof.
  intros Hp Hh. unfold LayerOnMap, with_panel, upd_handle at 1 2. simpl. rewrite list_lookup_alter_eq, Hp. simpl. rewrite Hh. simpl.
  unfold upd_handle. rewrite upd_panel_twice. match goal with |- context [upd_panel i ?g s] => change g with show end.
  case_match; [eexists (FocusLayerSurface _)|exists id]; [split; [intros; apply kept_FocusLayerSurface, _|done]|].
  split; [done|]. by destruct (arrange_output _ _ _).
Qed.

Lemma hide_inv i p h s : shell_inv s -> panels s !! i = Some p -> pn_handle p = Some h ->
  let s' := s |> upd_handle i wlr_surface_unmap |> LayerOnUnmap resolution i in
  shell_inv s' /\ exists p' h', panels s' !! i = Some p' /\ pn_handle p' = Some h' /\ retold (wlr_surface_unmap h) h' /\
    pn_output p' = pn_output p.
Proof.
  intros Hi Hp Hh. destruct (hide_panel i p h s Hp Hh) as (f & Hf & ->). cbv zeta. split.
  - apply arrange_output_inv, on_comp_inv, upd_panel_inv; [done|done|]. intros q Hq Hok. unfold panel_ok, hide in *. simpl.
    destruct (pn_handle q); [|done]. split; [|done]. apply inv_unmap. by destruct Hok.
  - destruct (arrange_output_same (pn_output p) (on_comp f (upd_panel i hide s))) as [Hs _].
    assert (Hl : panels (on_comp f (upd_panel i hide s)) !! i = Some (hide p))
      by (simpl; by rewrite list_lookup_alter_eq, Hp).
    destruct (Forall2_lookup_l _ _ _ _ _ Hs Hl) as (p' & Hp' & E & F).
    unfold hide in F. simpl in F. rewrite Hh in F. inversion F as [h1 h' Hr E1 E2|]; subst.
    exists p', h'. split_and!; [done|done|done|]. by rewrite E.
Qed.

Lemma show_inv i p h s : shell_inv s -> panels s !! i = Some p -> pn_handle p = Some h ->
  ls_buffer h = true -> initialized h = true -> configured h = true -> acknowledged (sent h) (current h) ->
  shell_inv (s |> upd_handle i wlr_surface_map |> LayerOnMap resolution i).
Proof.
  intros Hi Hp Hh H1 H2 H3 H4. destruct (show_panel i p h s Hp Hh) as (f & Hf & ->).
  apply on_comp_inv, arrange_output_inv, upd_panel_inv; [done|done|]. intros q Hq Hok. assert (q = p) as -> by congruence.
  unfold panel_ok, show in *. simpl. rewrite Hh in *. split; [|done]. apply inv_map; [by destruct Hok|done..].
Qed.

Lemma focus_panel_inv i s : shell_inv s -> shell_inv (focus_panel i s).
Proof. apply on_comp_inv. intros. apply kept_FocusLayerSurface, _. Qed.

Lemma LayerOnCommit_inv i s : shell_inv s -> shell_inv (LayerOnCommit resolution i s).
Proof.
  intros Hi. unfold LayerOnCommit, with_panel. repeat case_match; try done; try apply focus_panel_inv;
    try apply arrange_output_inv; try done; apply upd_panel_inv; try done.
Qed.

Lemma LayerOnDestroy_inv i s : shell_inv s -> shell_inv (LayerOnDestroy resolution i s).
Proof. intros Hi. unfold LayerOnDestroy, with_panel. repeat case_match; try done. apply arrange_output_inv, upd_panel_inv; done. Qed.

Lemma OnNewLayerSurface_inv b f l o s : shell_inv s -> shell_inv (OnNewLayerSurface b f l o s).
Proof.
  intros Hi. unfold OnNewLayerSurface. repeat case_match; try done.
  all: split; [|done]; simpl; apply Forall_app; split; [apply Hi|]; repeat constructor; done.
Qed.

Lemma client_commit_mapped hb h : ls_surface_mapped (layer_surface_role_client_commit hb h) = ls_surface_mapped h.
Proof. unfold layer_surface_role_client_commit, wlr_surface_reject_pending. cbv zeta. by repeat case_match. Qed.

(** The second half of a commit: the pending state takes effect, a surface with a buffer is shown. *)
Lemma take_effect_inv i p h s b u : shell_inv s -> panels s !! i = Some p -> pn_handle p = Some h ->
  placeable (pending h) -> (b = true -> configured h = true /\ u = false) ->
  (ls_surface_mapped h = true -> b = true /\ u = false) ->
  let s := upd_handle i (fun h => h <{ ls_buffer := b }> |> surface_synced_move_state |> role_commit_state u) s in
  shell_inv (if b && negb (ls_surface_mapped h) then s |> upd_handle i wlr_surface_map |> LayerOnMap resolution i else s).
Proof.
  intros Hi Hp Hh Hpl Hb Hm. cbv zeta. set (apply := fun h => _ |> role_commit_state u). set (s1 := upd_handle i apply s).
  assert (H1 : shell_inv s1).
  { apply upd_handle_inv; [done|]. intros q g Hq Hg Hl. assert (q = p) as -> by congruence. assert (g = h) as -> by congruence.
    split; [by apply inv_apply|]. unfold apply. by destruct u. }
  destruct (b && negb (ls_surface_mapped h)) eqn:E; [|done]. apply andb_prop in E as [-> _].
  destruct (Hb eq_refl) as [Hc ->]. eapply (show_inv i (p <{ pn_handle ::= fmap apply }>) (apply h));
    [done|simpl; by rewrite list_lookup_alter_eq, Hp|simpl; by rewrite Hh|done|done|done|].
  assert (Hl : panel_ok p) by (destruct Hi as [Hall _]; by eapply Forall_lookup_1).
  unfold panel_ok in Hl. rewrite Hh in Hl. destruct Hl as [Hl _]. by apply (li_configured h Hl).
Qed.

Lemma commit_inv i attach s : shell_inv s -> shell_inv (surface_handle_commit resolution i attach s).
Proof.
  intros Hi. unfold surface_handle_commit, with_panel. destruct (panels s !! i) as [p|] eqn:Ep; [|done].
  destruct (pn_handle p) as [h|] eqn:Eh; [|done]. set (b := default (ls_buffer h) attach).
  assert (H1 : shell_inv (upd_handle i (layer_surface_role_client_commit b) s)).
  { apply upd_handle_inv; [done|]. intros q g _ _ Hl. split; [by apply inv_client_commit|apply client_commit_mapped]. }
  destruct (pending_rejected _) eqn:Er; [done|]. apply client_commit_accepts in Er as (Ec & Hc & Hp).
  set (s1 := upd_handle i _ s) in *. assert (Ep1 : panels s1 !! i = Some p).
  { simpl. rewrite list_lookup_alter_eq, Ep. simpl. f_equal. clear -Eh Ec. destruct p. cbv [modify]. cbn in *. rewrite Eh. cbn. by rewrite Ec. }
  assert (Hl : layer_inv h).
  { destruct Hi as [Hall _]. pose proof (Forall_lookup_1 _ _ _ _ Hall Ep) as Hok. unfold panel_ok in Hok. rewrite Eh in Hok. by destruct Hok. }
  apply LayerOnCommit_inv. destruct (bool_decide (attach = Some false) && ls_surface_mapped h) eqn:Eu.
  - apply andb_prop in Eu as [->%bool_decide_eq_true Em]. simpl in b.
    destruct (hide_inv i p h s1 H1 Ep1 Eh) as (H2 & p2 & h2 & Ep2 & Eh2 & (E & _) & _).
    assert (Hpe : pending h2 = pending h) by (by rewrite E). assert (Hme : ls_surface_mapped h2 = false) by (by rewrite E).
    apply (take_effect_inv i p2 h2 _ false true H2 Ep2 Eh2); [by rewrite Hpe|done|by rewrite Hme].
  - apply (take_effect_inv i p h s1 b false H1 Ep1 Eh Hp); [auto|]. intros Hm. split; [|done].
    rewrite Hm in Eu. destruct attach as [[]|]; simpl in *; [done|done|]. by destruct (li_mapped h Hl Hm).
Qed.

Lemma inv_reset h : layer_inv h -> ls_surface_mapped h = false -> layer_inv (layer_surface_reset h).
Proof. intros [I1 I2 I3 I4 I5 I6] Hm. split; simpl; auto using suffix_nil; congruence. Qed.

Lemma layer_destroy_inv i s : shell_inv s -> shell_inv (layer_surface_destroy resolution i s).
Proof.
  intros Hi. unfold layer_surface_destroy, with_panel. destruct (panels s !! i) as [p|] eqn:Ep; [|done].
  destruct (pn_handle p) as [h|] eqn:Eh; [|done]. apply LayerOnDestroy_inv. destruct (ls_surface_mapped h) eqn:Em.
  - destruct (hide_inv i p h s Hi Ep Eh) as (H2 & p2 & h2 & Ep2 & Eh2 & (E & _) & _).
    apply upd_handle_inv; [exact H2|]. intros q g Hq Hg Hl. assert (q = p2) as -> by congruence. assert (g = h2) as -> by congruence.
    split; [|done]. apply inv_reset; [done|by rewrite E].
  - apply upd_handle_inv; [done|]. intros q g Hq Hg Hl. assert (q = p) as -> by congruence. assert (g = h) as -> by congruence.
    split; [by apply inv_reset|done].
Qed.

Lemma destroy_output_inv o s : shell_inv s -> shell_inv (destroy_output resolution o s).
Proof.
  intros Hi. unfold destroy_output. apply on_comp_inv; [done|]. generalize (seq 0 (length (panels s))) as l. intros l.
  revert s Hi. induction l as [|i l IH]; intros s Hi; cbn [foldl]; [done|]. apply IH.
  unfold with_panel. repeat case_match; try done. by apply layer_destroy_inv.
Qed.

(** Requests that only touch the handle. *)
Inductive client_request : (wlr_layer_surface_v1 -> wlr_layer_surface_v1) -> Prop :=
| cr_size w h : client_request (layer_surface_handle_set_size w h)
| cr_anchor a : client_request (layer_surface_handle_set_anchor a)
| cr_zone z : client_request (layer_surface_handle_set_exclusive_zone z)
| cr_margin t r b l : client_request (layer_surface_handle_set_margin t r b l)
| cr_keyboard v k : client_request (layer_surface_handle_set_keyboard_interactivity v k)
| cr_layer k : client_request (layer_surface_set_layer k)
| cr_edge e : client_request (layer_surface_set_exclusive_edge e)
| cr_ack serial : client_request (layer_surface_handle_ack_configure serial).

Lemma client_request_step g h : client_request g -> layer_step h (g h).
Proof. intros Hg. destruct Hg; constructor. Qed.

Lemma client_request_mapped g h : client_request g -> ls_surface_mapped (g h) = ls_surface_mapped h.
Proof.
  intros Hg. destruct Hg; [unfold layer_surface_handle_set_size|unfold layer_surface_handle_set_anchor
    |unfold layer_surface_handle_set_exclusive_zone|unfold layer_surface_handle_set_margin
    |unfold layer_surface_handle_set_keyboard_interactivity|unfold layer_surface_set_layer
    |unfold layer_surface_set_exclusive_edge|unfold layer_surface_handle_ack_configure]; cbv zeta; by repeat case_match.
Qed.

(** What can happen to the shell; [shell_windows] stands for the rest of the compositor. *)
Inductive shell_step : layer_shell -> layer_shell -> Prop :=
| shell_new s b f l o : shell_step s (OnNewLayerSurface b f l o s)
| shell_request s i g : client_request g -> shell_step s (request i g s)
| shell_commit s i attach : shell_step s (surface_handle_commit resolution i attach s)
| shell_destroy s i : shell_step s (layer_surface_destroy resolution i s)
| shell_output s o : shell_step s (destroy_output resolution o s)
| shell_arrange s o : shell_step s (arrange_output resolution o s)
| shell_windows s f : (forall c, kept layer_surfaces_ c (f c)) -> shell_step s (on_comp f s).

Lemma shell_step_inv s s' : shell_step s s' -> shell_inv s -> shell_inv s'.
Proof.
  intros Hs Hi. destruct Hs as [s b f l o|s i g Hg|s i attach|s i|s o|s o|s f Hf].
  - by apply OnNewLayerSurface_inv.
  - apply upd_handle_inv; [done|]. intros p h _ _ Hl. split; [|by apply client_request_mapped].
    by apply (layer_step_inv h); [apply client_request_step|].
  - by apply commit_inv.
  - by apply layer_destroy_inv.
  - by apply destroy_output_inv.
  - by apply arrange_output_inv.
  - by apply on_comp_inv.
Qed.

Lemma shell_steps_inv s s' : rtc shell_step s s' -> shell_inv s -> shell_inv s'.
Proof. intros Hr. induction Hr as [|s1 s2 s3 Hs _ IH]; [done|]. intros Hi. by apply IH, (shell_step_inv s1). Qed.

Definition shell_start (serial : Z) (c : compositor) : layer_shell := sync (Shell [] serial c).

Lemma shell_start_inv serial c : shell_inv (shell_start serial c).
Proof. by split; [constructor|]. Qed.

(** C20. Through every sequence of surfaces appearing, requests, commits, surfaces and outputs
    going away and window operations, the compositor sees each panel as it is: mapped
    exactly while its surface is, with the interactivity of its committed state; a mapped
    panel has a buffer and the size of a configure event it was sent; an initialized one
    can be placed. *)
Theorem layer_shell_invariant serial c s : rtc shell_step (shell_start serial c) s ->
  layer_surfaces_ (comp s) = map layer_view (panels s) /\
  forall p, p ∈ panels s ->
    match pn_handle p with
    | None => pn_mapped p = false
    | Some h => pn_mapped p = ls_surface_mapped h /\ (initialized h = true -> placeable (current h)) /\
        (pn_mapped p = true -> ls_buffer h = true /\ initialized h = true /\ acknowledged (sent h) (current h))
    end.
Proof.
  intros Hr. assert (Hi : shell_inv s) by (eapply shell_steps_inv; [exact Hr|apply shell_start_inv]).
  destruct Hi as [Hall Hv]. split; [done|]. intros p Hp. pose proof (proj1 (Forall_forall _ _) Hall p Hp) as Hok.
  unfold panel_ok in Hok. destruct (pn_handle p) as [h|]; [|done]. destruct Hok as [[I1 I2 _ _ _ _] Hm].
  split_and!; [done|done|]. rewrite Hm. intros Hmap. destruct (I2 Hmap) as (? & ? & ? & ?). done.
Qed.

(** ** The first commit is answered *)

Lemma takes_part_order output ps i p h : ps !! i = Some p -> pn_handle p = Some h -> initialized h = true ->
  pn_output p = Some output -> pn_parent p = Some (layer (current h)) -> 0 <= layer (current h) <= 3 ->
  i ∈ arrange_order output ps.
Proof.
  intros Hp Hh Hi Ho Hpar Hl. unfold arrange_order. apply list_elem_of_In, in_flat_map.
  exists (exclusive_zone (current h) >? 0). split; [destruct (_ >? _); simpl; auto|]. apply in_flat_map.
  exists (layer (current h)). split; [unfold kLayerOrder; simpl; lia|]. apply List.filter_In. split.
  - apply in_seq. apply lookup_lt_Some in Hp. lia.
  - rewrite Hp. simpl. unfold takes_part. rewrite Hh, Hi, Ho, Hpar, !bool_decide_true, Z.eqb_refl by done.
    by destruct (_ >? _).
Qed.

Lemma ack_configured serial h c : c ∈ configure_list h -> cf_serial c = serial ->
  configured (layer_surface_handle_ack_configure serial h) = true /\
  errors (layer_surface_handle_ack_configure serial h) = errors h.
Proof.
  intros Hc Hs. unfold layer_surface_handle_ack_configure.
  assert (Hf : from_serial serial (configure_list h) <> None).
  { induction Hc as [c cs|c d cs Hc IH]; simpl; [by replace (cf_serial c =? serial) with true by lia|].
    destruct (_ =? _); [done|]. by apply IH. }
  by destruct (from_serial serial (configure_list h)) as [[d rest]|].
Qed.

Lemma arrange_output_tells o s i p h : i ∈ arrange_order o (panels s) -> panels s !! i = Some p -> pn_handle p = Some h ->
  FindOutput (Some o) (comp s) <> None -> 0 < (resolution o).1 -> 0 < (resolution o).2 ->
  exists p' h' c, panels (arrange_output resolution (Some o) s) !! i = Some p' /\ pn_handle p' = Some h' /\ c ∈ configure_list h'.
Proof.
  intros Hi Hp Hh Hout Hw Hht. unfold arrange_output, ArrangeLayers. unfold FindOutput in Hout. simpl in Hout.
  destruct (List.find _ _) as [q|]; [|done]. replace (_ || _) with false by lia.
  destruct (arrange_tells o (Box 0 0 (resolution o).1 (resolution o).2) (panels s) (next_serial s) i p h Hi Hp Hh) as (p' & h' & Hp' & Hh' & Hn).
  destruct (arrange _ _ _ _) as [[ps u] serial]. cbn [fst panels] in *. exists p', h'.
  destruct (configure_list h') as [|c cs] eqn:Ec; [done|]. exists c. split_and!; [done|done|]. set_solver.
Qed.

(** C21. The first commit of a panel is answered: unless it is rejected, and if the panel's
    scene node is in the tree of its layer, it is sent a configure event at once, and
    acknowledging that event lets it attach a buffer. *)
Theorem first_commit_answered s i p h attach o : shell_inv s ->
  panels s !! i = Some p -> pn_handle p = Some h -> initialized h = false ->
  pending_rejected (layer_surface_role_client_commit (default (ls_buffer h) attach) h) = false ->
  pn_output p = Some o -> FindOutput (Some o) (comp s) <> None -> 0 < (resolution o).1 -> 0 < (resolution o).2 ->
  pn_parent p = Some (layer (pending h)) -> 0 <= layer (pending h) <= 3 ->
  exists p' h' c, panels (surface_handle_commit resolution i attach s) !! i = Some p' /\ pn_handle p' = Some h' /\
    c ∈ configure_list h' /\ configured (layer_surface_handle_ack_configure (cf_serial c) h') = true.
Proof.
  intros Hi Hp Hh Hin Hr Ho Hout Hw Hht Hpar Hl. unfold surface_handle_commit, with_panel. rewrite Hp, Hh. cbv zeta.
  rewrite Hr. apply client_commit_accepts in Hr as (Ec & Hc & _).
  assert (Hinv : layer_inv h /\ pn_mapped p = ls_surface_mapped h).
  { destruct Hi as [Hall _]. pose proof (Forall_lookup_1 _ _ _ _ Hall Hp) as Hok. unfold panel_ok in Hok. by rewrite Hh in Hok. }
  destruct Hinv as [[I1 I2 _ _ I5 _] _]. destruct (I5 Hin) as [_ Hnc].
  assert (Hb : default (ls_buffer h) attach = false) by (destruct (default _ _); [rewrite Hc in Hnc; done|done]).
  assert (Hm : ls_surface_mapped h = false) by (destruct (ls_surface_mapped h); [destruct (I2 eq_refl) as (_ & E & _); congruence|done]).
  rewrite Hb, Hm, andb_false_r. cbn [andb]. unfold upd_handle. rewrite upd_panel_twice.
  match goal with |- context [upd_panel i ?g s] => set (f := g) end. set (s1 := upd_panel i f s).
  assert (Hp1 : panels s1 !! i = Some (f p)) by (simpl; by rewrite list_lookup_alter_eq, Hp).
  set (h1 := h <{ ls_buffer := false }> |> surface_synced_move_state |> role_commit_state false).
  assert (Hh1 : pn_handle (f p) = Some h1) by (unfold f; simpl; rewrite Hb in Ec; by rewrite Hh; simpl; rewrite Ec).
  unfold LayerOnCommit, with_panel. rewrite Hp1, Hh1. replace (initial_commit h1) with true by (simpl; by rewrite Hin).
  change (pn_output (f p)) with (pn_output p). rewrite Ho.
  destruct (arrange_output_tells o s1 i (f p) h1) as (p' & h' & c & Hp' & Hh' & Hcl); [|done..|].
  - by eapply (takes_part_order o _ i (f p) h1).
  - exists p', h', c. split_and!; [done..|]. by destruct (ack_configured (cf_serial c) h' c).
Qed.
End Facts.

(** ** A bar is shown *)

#[local] Existing Instance demo_layout.

Definition demo_resolution (o : nat) : Z * Z := (1920, 1080).

Definition demo_shell : layer_shell :=
  shell_start 7 (demo_windows <{ outputs_ := [MkOutput 1 (Box 0 0 1920 1080)] }>).

(** A bar of 30 pixels on the top layer, before its first commit. *)
Definition demo_new_bar : layer_shell :=
  demo_shell |> OnNewLayerSurface true 21 2 None
    |> request 0 (layer_surface_handle_set_size 0 30) |> request 0 (layer_surface_handle_set_anchor 13)
    |> request 0 (layer_surface_handle_set_exclusive_zone 30).

(** It is committed, acknowledges its size and is shown. *)
Definition demo_shown_bar (keyboard : Z) : layer_shell :=
  demo_new_bar |> request 0 (layer_surface_handle_set_keyboard_interactivity 4 keyboard)
    |> surface_handle_commit demo_resolution 0 None |> request 0 (layer_surface_handle_ack_configure 7)
    |> surface_handle_commit demo_resolution 0 (Some true).

Definition events (i : nat) (s : layer_shell) : option (list wlr_layer_surface_v1_configure) :=
  panels s !! i ≫= fun p => sent <$> pn_handle p.
Definition posted (i : nat) (s : layer_shell) : option (list layer_error) :=
  panels s !! i ≫= fun p => errors <$> pn_handle p.

Lemma demo_new_bar_steps : rtc (shell_step demo_resolution) demo_shell demo_new_bar.
Proof.
  unfold demo_new_bar. eapply rtc_l; [apply (shell_new _ _ true 21 2 None)|].
  eapply rtc_l; [apply shell_request, (cr_size 0 30)|]. eapply rtc_l; [apply shell_request, (cr_anchor 13)|].
  apply rtc_once, shell_request, (cr_zone 30).
Qed.

Lemma demo_shown_bar_steps k : rtc (shell_step demo_resolution) demo_shell (demo_shown_bar k).
Proof.
  etransitivity; [apply demo_new_bar_steps|]. unfold demo_shown_bar.
  eapply rtc_l; [apply shell_request, (cr_keyboard 4 k)|]. eapply rtc_l; [apply (shell_commit _ _ 0 None)|].
  eapply rtc_l; [apply shell_request, (cr_ack 7)|]. apply rtc_once, (shell_commit _ _ 0 (Some true)).
Qed.

Lemma layer_shell_invariant_witness :
  layer_surfaces_ (comp (demo_shown_bar 1)) = [MkLayer true (Some (21%nat, InteractExclusive))] /\
  layer_surfaces_ (comp (demo_shown_bar 1)) = map layer_view (panels (demo_shown_bar 1)).
Proof.
  split; [vm_compute; reflexivity|].
  destruct (layer_shell_invariant demo_resolution 7 (demo_windows <{ outputs_ := [MkOutput 1 (Box 0 0 1920 1080)] }>)
    (demo_shown_bar 1)) as [Hv _]; [apply demo_shown_bar_steps|exact Hv].
Defined.

Lemma demo_new_bar_inv : shell_inv demo_new_bar.
Proof.
  apply (shell_steps_inv demo_resolution demo_shell); [apply demo_new_bar_steps|apply shell_start_inv].
Qed.

Lemma first_commit_answered_witness : exists p' h' c,
  panels (surface_handle_commit demo_resolution 0 None demo_new_bar) !! 0%nat = Some p' /\ pn_handle p' = Some h' /\
  configured (layer_surface_handle_ack_configure (cf_serial c) h') = true.
Proof.
  destruct (panels demo_new_bar !! 0%nat) as [p|] eqn:Ep; [|vm_compute in Ep; discriminate].
  destruct (pn_handle p) as [h|] eqn:Eh; [|vm_compute in Ep; injection Ep as <-; discriminate].
  assert (Hf : FindOutput (Some 1%nat) (comp demo_new_bar) <> None) by (vm_compute; discriminate).
  assert (Hh : initialized h = false /\ pending_rejected (layer_surface_role_client_commit (ls_buffer h) h) = false /\
    pn_output p = Some 1%nat /\ pn_parent p = Some (layer (pending h)) /\ layer (pending h) = 2).
  { vm_compute in Ep. injection Ep as <-. injection Eh as <-. vm_compute. done. }
  destruct Hh as (H1 & H2 & H3 & H4 & H5).
  destruct (first_commit_answered demo_resolution demo_new_bar 0 p h None 1 demo_new_bar_inv Ep Eh H1 H2 H3 Hf eq_refl eq_refl
    H4 ltac:(lia)) as (p' & h' & c & Hp & Hh & _ & Hc).
  exists p', h', c. split; [exact Hp|]. split; [exact Hh|exact Hc].
Defined.

(** ** Surprises *)

(** A client that changes the layer before its first commit is never told a size: the scene
    node is moved to the new layer only by later commits, and arranging skips surfaces that
    are not in the tree of their layer. *)
Example layer_changed_first_is_ignored :
  let s := demo_new_bar |> request 0 (layer_surface_set_layer 3) |> surface_handle_commit demo_resolution 0 None in
  events 0 s = Some [] /\ posted 0 s = Some [] /\
  events 0 (demo_new_bar |> surface_handle_commit demo_resolution 0 None) = Some [MkConfigure 7 1920 30].
Proof. vm_compute. done. Qed.

(** Hiding a panel sends it a size first and then forgets about it: the acknowledgement is
    taken for a protocol error. *)
Example hidden_panel_cannot_acknowledge :
  let s := demo_shown_bar 0 |> surface_handle_commit demo_resolution 0 (Some false) in
  events 0 (demo_shown_bar 0) = Some [MkConfigure 7 1920 30; MkConfigure 8 1920 30] /\
  events 0 s = Some [MkConfigure 7 1920 30; MkConfigure 8 1920 30; MkConfigure 9 1920 30] /\
  posted 0 s = Some [] /\
  posted 0 (s |> request 0 (layer_surface_handle_ack_configure 9)) = Some [INVALID_SURFACE_STATE].
Proof. vm_compute. done. Qed.

(** A panel that gives up keyboard input keeps the keyboard. *)
Example panel_keeps_keyboard :
  let s := demo_shown_bar 1 in
  let s' := s |> request 0 (layer_surface_handle_set_keyboard_interactivity 4 0) |> surface_handle_commit demo_resolution 0 None in
  focused_surface (comp demo_shell) = Some 11%nat /\
  focused_surface (comp s) = Some 21%nat /\
  map ls_handle (layer_surfaces_ (comp s')) = [Some (21%nat, InteractNone)] /\
  focused_surface (comp s') = Some 21%nat.
Proof. vm_compute. done. Qed.
