(* ===== verification/KeyRouting.v ===== *)
(** * Where a key goes

    Models CompositorPrivate::Keyboard (src/src/core/compositor_private): OnKey, OnModifiers
    and OnDestroy, which offer a key to the open views, to Alt+Tab, to the shortcuts and to
    the input method before it goes to the focused client. Composes [AppSwitcher],
    [KeyBinding] and [InputMethod]. *)

From S2P Require Import Prelude Box Keyboard KeyBinding InputMethod AppSwitcher.

(** ** State *)

Inductive destination := ToSeat | ToInputMethod.

#[export] Instance destination_eq : EqDecision destination.
Proof. solve_decision. Defined.

Section Routing.
Context `{Xkb} (run_action : nat -> KeyBindingManager -> KeyBindingManager)
  (run_capture : nat -> bool -> str -> KeyBindingManager -> KeyBindingManager).
(** xkb_state_key_get_one_sym, and the client of a virtual keyboard. *)
Context (get_one_sym : xkb_state -> Z -> Z) (virtual_client : nat -> option nat).
(** WindowMenu, WindowSelector, WindowPreviews and Multitasking: [HandleKey] over what they
    share; a view that was not created handles nothing. *)
Context {V : Type} (window_menu window_selector window_previews multitasking :
  V -> nat * wlr_keyboard -> wlr_keyboard_key_event -> V * bool).

(** Pointers of the compositor, null as [None]; [protocols] is whether the session is locked
    and whether shortcuts are inhibited. The lists are what was sent, in order. *)
Record keyboards := Keyboards {
  views : V;
  app_switcher_ : option AppSwitcher;
  protocols : option (bool * bool);
  key_binding_manager_ : option KeyBindingManager;
  input_method_relay_ : option InputMethodRelay;
  seat_keyboard : option nat;
  activity : list Z;
  keys_sent : list (destination * (nat * wlr_keyboard_key_event));
  modifiers_sent : list (destination * (nat * Z));
  actions_run : list kbm_effect }.

#[export] Instance keyboards_fields : Fields keyboards := {| rebuild := fun s =>
  Keyboards (views s) (app_switcher_ s) (protocols s) (key_binding_manager_ s) (input_method_relay_ s)
    (seat_keyboard s) (activity s) (keys_sent s) (modifiers_sent s) (actions_run s) |}.

Definition SessionLocked (s : keyboards) : bool := from_option fst false (protocols s).
Definition ShortcutsInhibited (s : keyboards) : bool := from_option snd false (protocols s).

(** ** Handlers *)

Definition handler : Type := keyboards -> keyboards * bool.

(** Asks [f] and goes on if it did not handle the key. *)
Definition or_else (f : handler) (rest : keyboards -> keyboards) (s : keyboards) : keyboards :=
  let '(s, handled) := f s in if handled then s else rest s.

Definition ask_view (f : V -> nat * wlr_keyboard -> wlr_keyboard_key_event -> V * bool)
    (kb : nat * wlr_keyboard) (e : wlr_keyboard_key_event) : handler := fun s =>
  let '(v, handled) := f (views s) kb e in (s <{ views := v }>, handled).

Definition ask_switcher (kb : nat * wlr_keyboard) (e : wlr_keyboard_key_event) : handler := fun s =>
  match app_switcher_ s with
  | None => (s, false)
  | Some a =>
      let symbol := (fun st => get_one_sym st (u32 (ev_keycode e + 8))) <$> kb_xkb_state kb.2 in
      let '(a, handled) := AppSwitcher.HandleKey symbol (ev_state e =? KEY_RELEASED) a in
      (s <{ app_switcher_ := Some a }>, handled)
  end.

Definition ask_bindings (kb : nat * wlr_keyboard) (e : wlr_keyboard_key_event) : handler := fun s =>
  match key_binding_manager_ s with
  | Some m =>
      if SessionLocked s then (s, false)
      else
        let '(m, handled, effects) := KeyBinding.HandleKey run_action run_capture m (Some kb) e (ShortcutsInhibited s) in
        (s <{ key_binding_manager_ := Some m }> <{ actions_run ::= fun l => l ++ effects }>, handled)
  | None => (s, false)
  end.

(** Where keys of keyboard [k] go when nothing handles them. *)
Definition key_destination (k : nat) (s : keyboards) : destination :=
  if negb (SessionLocked s) && from_option (GrabForKeyboard (virtual_client k)) false (input_method_relay_ s)
  then ToInputMethod else ToSeat.

Definition send_key (kb : nat * wlr_keyboard) (e : wlr_keyboard_key_event) (s : keyboards) : keyboards :=
  let d := key_destination kb.1 s in
  let s := if bool_decide (d = ToSeat) then s <{ seat_keyboard := Some kb.1 }> else s in
  s <{ keys_sent ::= fun l => l ++ [(d, (kb.1, e))] }>.

Definition NotifyKeyboard (time : Z) (s : keyboards) : keyboards :=
  match protocols s with Some _ => s <{ activity ::= fun l => l ++ [time] }> | None => s end.

Definition OnKey (keyboard : option (nat * wlr_keyboard)) (e : wlr_keyboard_key_event) (s : keyboards) : keyboards :=
  match keyboard with
  | None => s
  | Some kb =>
      NotifyKeyboard (ev_time_msec e) s
        |> or_else (ask_view window_menu kb e)
        (or_else (ask_view window_selector kb e)
        (or_else (ask_view window_previews kb e)
        (or_else (ask_view multitasking kb e)
        (or_else (ask_switcher kb e)
        (or_else (ask_bindings kb e)
        (send_key kb e))))))
  end.

Definition OnModifiers (keyboard : option (nat * wlr_keyboard)) (s : keyboards) : keyboards :=
  match keyboard with
  | None => s
  | Some kb =>
      let d := key_destination kb.1 s in
      let s := if bool_decide (d = ToSeat) then s <{ seat_keyboard := Some kb.1 }> else s in
      s <{ modifiers_sent ::= fun l => l ++ [(d, (kb.1, wlr_keyboard_get_modifiers kb.2))] }>
  end.

Definition KeyboardOnDestroy (k : nat) (s : keyboards) : keyboards :=
  s <{ key_binding_manager_ ::= fmap (fun m => ForgetKeyboard m k) }>.

(** ** Calls *)

(** Keys, and what else happens to the state that keys depend on. [ViewsCall] is a view or
    Alt+Tab opening, changing or closing by anything but a key it was asked about; the action
    of a shortcut that opens one is a [ViewsCall] after the key. *)
Inductive key_call :=
| KeyCall (kb : nat * wlr_keyboard) (e : wlr_keyboard_key_event)
| ModifiersCall (kb : nat * wlr_keyboard)
| ManageCall (c : kbm_call)
| ProtocolsCall (p : option (bool * bool))
| RelayCall (r : option InputMethodRelay)
| ViewsCall (v : V) (a : option AppSwitcher).

Definition keys_apply (s : keyboards) (c : key_call) : keyboards :=
  match c with
  | KeyCall kb e => OnKey (Some kb) e s
  | ModifiersCall kb => OnModifiers (Some kb) s
  | ManageCall c => s <{ key_binding_manager_ ::= fmap (fun m => (kbm_apply run_action run_capture m c).1) }>
  | ProtocolsCall p => s <{ protocols := p }>
  | RelayCall r => s <{ input_method_relay_ := r }>
  | ViewsCall v a => s <{ views := v }> <{ app_switcher_ := a }>
  end.

(** No view is open. *)
Definition views_closed (s : keyboards) : Prop :=
  (forall kb e, window_menu (views s) kb e = (views s, false) /\ window_selector (views s) kb e = (views s, false) /\
     window_previews (views s) kb e = (views s, false) /\ multitasking (views s) kb e = (views s, false)) /\
  from_option active_ false (app_switcher_ s) = false.

Lemma protocols_Notify t s : protocols (NotifyKeyboard t s) = protocols s.
Proof. unfold NotifyKeyboard. by destruct (protocols s) eqn:E. Qed.

Lemma OnKey_closed kb e s : views_closed s ->
  OnKey (Some kb) e s = or_else (ask_bindings kb e) (send_key kb e) (NotifyKeyboard (ev_time_msec e) s).
Proof.
  intros [Hv Hs]. unfold OnKey. set (s0 := NotifyKeyboard _ s).
  assert (E0 : views s0 = views s /\ app_switcher_ s0 = app_switcher_ s) by (unfold s0, NotifyKeyboard; by destruct (protocols s)).
  destruct E0 as [E1 E2]. clearbody s0. destruct (Hv kb e) as (H1 & H2 & H3 & H4). rewrite <- E1 in H1, H2, H3, H4.
  assert (Eid : s0 <{ views := views s0 }> = s0) by (by destruct s0).
  unfold or_else, ask_view. rewrite H1, Eid, H2, Eid, H3, Eid, H4, Eid. unfold ask_switcher. rewrite E2.
  destruct (app_switcher_ s) as [a|] eqn:Ea; [|done]. simpl in Hs. unfold AppSwitcher.HandleKey. rewrite Hs. cbn [negb].
  f_equal. destruct s0. simpl in *. by subst.
Qed.

(** ** A locked session *)

Definition key_of (c : key_call) : list (destination * (nat * wlr_keyboard_key_event)) :=
  match c with KeyCall kb e => [(ToSeat, (kb.1, e))] | _ => [] end.
Definition modifiers_of (c : key_call) : list (destination * (nat * Z)) :=
  match c with ModifiersCall kb => [(ToSeat, (kb.1, wlr_keyboard_get_modifiers kb.2))] | _ => [] end.

(** Keys, modifiers, shortcuts being registered or captured and changes of the input method, but
    no unlocking and no view. *)
Definition locked_call (c : key_call) : Prop :=
  match c with ProtocolsCall _ | ViewsCall _ _ => False | ManageCall (CallKey _ _ _ _) => False | _ => True end.

Lemma locked_step s c : SessionLocked s = true -> views_closed s -> locked_call c ->
  let s' := keys_apply s c in
  SessionLocked s' = true /\ views_closed s' /\ keys_sent s' = keys_sent s ++ key_of c /\
  modifiers_sent s' = modifiers_sent s ++ modifiers_of c /\ actions_run s' = actions_run s.
Proof.
  intros Hl Hv Hc.
  assert (Hd : forall s1 k, protocols s1 = protocols s -> key_destination k s1 = ToSeat)
    by (intros s1 k E; unfold key_destination, SessionLocked in *; by rewrite E, Hl).
  destruct c as [kb e|kb|c|p|r|v a]; cbn [keys_apply key_of modifiers_of]; rewrite ?app_nil_r; try done.
  - assert (E : OnKey (Some kb) e s = send_key kb e (NotifyKeyboard (ev_time_msec e) s)).
    { rewrite OnKey_closed by done. unfold or_else, ask_bindings, SessionLocked in *. rewrite protocols_Notify, Hl.
      by destruct (key_binding_manager_ _). }
    cbv zeta. rewrite E. unfold send_key. rewrite Hd by apply protocols_Notify. rewrite bool_decide_true by done.
    unfold views_closed, SessionLocked, NotifyKeyboard in *. destruct (protocols s) as [p|] eqn:Ep; [|done].
    simpl in *. rewrite Ep. split_and!; try done; apply Hv.
  - unfold OnModifiers. rewrite Hd by done. simpl. by split_and!.
Qed.


(** ** Whole key strokes *)

Definition sent_to (d : destination) (s : keyboards) : list (nat * wlr_keyboard_key_event) :=
  omap (fun x => if decide (x.1 = d) then Some x.2 else None) (keys_sent s).

(** Whether the key is held by a shortcut. *)
Definition held (k : nat) (code : Z) (s : keyboards) : bool := from_option (is_down k code) false (key_binding_manager_ s).

(** Whether the shortcuts are being asked for the next key. *)
Definition capturing (s : keyboards) : bool := from_option IsGrabbingKey false (key_binding_manager_ s).

(** The views and Alt+Tab, in the order they are asked. *)
Definition first_of (f g : handler) : handler := fun s => let '(s, handled) := f s in if handled then (s, true) else g s.
Definition ask_views (kb : nat * wlr_keyboard) (e : wlr_keyboard_key_event) : handler :=
  first_of (ask_view window_menu kb e) (first_of (ask_view window_selector kb e)
    (first_of (ask_view window_previews kb e) (first_of (ask_view multitasking kb e) (ask_switcher kb e)))).

(** A view or Alt+Tab takes the key. *)
Definition taken (kb : nat * wlr_keyboard) (e : wlr_keyboard_key_event) (s : keyboards) : bool :=
  (ask_views kb e (NotifyKeyboard (ev_time_msec e) s)).2.

Definition is_this (k : nat) (code : Z) (kb : nat * wlr_keyboard) (e : wlr_keyboard_key_event) : bool :=
  (kb.1 =? k)%nat && (ev_keycode e =? code).

(** While the key is down, untaken by a view, the lock stays as it is, and so do, unless a
    shortcut holds the key, the input method's hold of the keyboard and the capture of keys. *)
Definition steady (k : nat) (code : Z) (down : bool) (s s' : keyboards) : Prop :=
  down = false \/ SessionLocked s' = SessionLocked s /\
    (held k code s' = true \/ key_destination k s' = key_destination k s /\ capturing s' = capturing s).

(** Calls as one key sees them; [down]: the key is down and no view took its press, [took]: it
    is down and a view did. The key is alternately pressed and released, by a keyboard with a
    keymap; a view that takes its press takes its release, and conversely; every step is
    [steady]; and the keyboard is not removed while a shortcut holds the key. *)
Fixpoint strokes (k : nat) (code : Z) (down took : bool) (s : keyboards) (calls : list key_call) : Prop :=
  match calls with
  | [] => True
  | c :: calls =>
      let s' := keys_apply s c in
      match c with
      | KeyCall kb e =>
          call_ok (CallKey kb.1 kb.2 e false) /\
          if is_this k code kb e
          then if ev_state e =? KEY_PRESSED
               then down = false /\ took = false /\
                    steady k code (negb (taken kb e s)) s s' /\ strokes k code (negb (taken kb e s)) (taken kb e s) s' calls
               else (if taken kb e s then took = true else down = true) /\ strokes k code false false s' calls
          else steady k code down s s' /\ strokes k code down took s' calls
      | ManageCall c =>
          match c with
          | CallKey _ _ _ _ => False
          | CallForget k' => k' = k -> held k code s = false
          | _ => True
          end /\
          steady k code down s s' /\ strokes k code down took s' calls
      | _ => steady k code down s s' /\ strokes k code down took s' calls
      end
  end.

(** What a destination has seen of the key alternates and ends as it should. *)
Definition seen (k : nat) (code : Z) (d : destination) (s : keyboards) (down : bool) : Prop :=
  alternates false (presses k code (sent_to d s)) /\ default false (last (presses k code (sent_to d s))) = down.

(** The client or the input method knows that the key is down: no view and no shortcut has
    it and no capture takes it. *)
Definition known (k : nat) (code : Z) (down : bool) (s : keyboards) : bool :=
  down && negb (held k code s) && negb (capturing s && negb (SessionLocked s)).

Record stroke_inv (k : nat) (code : Z) (down : bool) (s : keyboards) : Prop := {
  st_manager : forall m, key_binding_manager_ s = Some m -> NoDup (map pressed_key (active_keys_ m));
  st_held : held k code s = true -> down = true /\ SessionLocked s = false;
  st_seen : forall d, seen k code d s (known k code down s && bool_decide (key_destination k s = d)) }.

Lemma alternates_snoc a l b : alternates a (l ++ [b]) <-> alternates a l /\ b = negb (default a (last l)).
Proof.
  revert a. induction l as [|x l IH]; intros a; [simpl; tauto|]. cbn [app alternates]. rewrite IH.
  assert (E : default a (last (x :: l)) = default x (last l)) by (rewrite last_cons; by destruct (last l)). rewrite E. tauto.
Qed.

Lemma sent_to_send d kb e s : sent_to d (send_key kb e s) =
  sent_to d s ++ (if decide (key_destination kb.1 s = d) then [(kb.1, e)] else []).
Proof.
  unfold sent_to, send_key. cbv zeta.
  assert (E : forall s1, keys_sent s1 = keys_sent s -> omap (fun x => if decide (x.1 = d) then Some x.2 else None)
    (keys_sent (s1 <{ keys_sent ::= fun l => l ++ [(key_destination kb.1 s, (kb.1, e))] }>)) =
    omap (fun x => if decide (x.1 = d) then Some x.2 else None) (keys_sent s) ++
    (if decide (key_destination kb.1 s = d) then [(kb.1, e)] else [])).
  { intros s1 Hs. simpl. rewrite Hs, omap_app. csimpl. by destruct (decide _). }
  apply E. by case_bool_decide.
Qed.

(** The key [(k, code)] reaches destination [d], or another key does. *)
Lemma seen_send k code d kb e s down :
  seen k code d s down ->
  ((kb.1 =? k)%nat && (ev_keycode e =? code) = true -> key_destination kb.1 s = d -> (ev_state e =? KEY_PRESSED) = negb down) ->
  seen k code d (send_key kb e s)
    (if (kb.1 =? k)%nat && (ev_keycode e =? code) && bool_decide (key_destination kb.1 s = d) then negb down else down).
Proof.
  intros [Ha Hl] He. unfold seen. rewrite sent_to_send.
  destruct (decide (key_destination kb.1 s = d)) as [Hd|Hd]; [rewrite bool_decide_true by done|rewrite bool_decide_false by done].
  - rewrite presses_app. cbn [presses omap list_omap]. destruct ((kb.1 =? k)%nat && (ev_keycode e =? code)) eqn:Ek; cbn [andb].
    + rewrite alternates_snoc, last_snoc. simpl. rewrite Hl. auto.
    + by rewrite app_nil_r.
  - by rewrite app_nil_r, andb_false_r.
Qed.

Lemma stroke_send k code kb e s down :
  (forall d, seen k code d s (down && bool_decide (key_destination k s = d))) ->
  (is_this k code kb e = true -> (ev_state e =? KEY_PRESSED) = negb down) ->
  forall d, seen k code d (send_key kb e s)
    ((if is_this k code kb e then negb down else down) && bool_decide (key_destination k s = d)).
Proof.
  intros Hs He d. pose proof (seen_send k code d kb e s _ (Hs d)) as Hn. fold (is_this k code kb e) in Hn.
  destruct (is_this k code kb e) eqn:Et; cbn [andb] in Hn; [|by apply Hn].
  assert (Hk : kb.1 = k) by (unfold is_this in Et; lia). rewrite Hk in Hn. case_bool_decide.
  - rewrite !andb_true_r in Hn |- *. apply Hn. intros _ _. auto.
  - rewrite andb_false_r in Hn |- *. by apply Hn.
Qed.

(** Sending a key leaves alone what the routing of keys depends on. *)
Lemma send_key_same kb e s : key_binding_manager_ (send_key kb e s) = key_binding_manager_ s /\
  protocols (send_key kb e s) = protocols s /\ input_method_relay_ (send_key kb e s) = input_method_relay_ s /\
  views (send_key kb e s) = views s /\ app_switcher_ (send_key kb e s) = app_switcher_ s.
Proof. unfold send_key. cbv zeta. by case_bool_decide. Qed.

(** Asking the views changes nothing that the rest of the routing depends on. *)
Definition same_routing (s s' : keyboards) : Prop :=
  key_binding_manager_ s' = key_binding_manager_ s /\ protocols s' = protocols s /\
  input_method_relay_ s' = input_method_relay_ s /\ keys_sent s' = keys_sent s.

Lemma same_routing_trans s s1 s2 : same_routing s s1 -> same_routing s1 s2 -> same_routing s s2.
Proof. intros (? & ? & ? & ?) (? & ? & ? & ?). split_and!; congruence. Qed.

Lemma first_of_same f g s : (forall s, same_routing s (f s).1) -> (forall s, same_routing s (g s).1) ->
  same_routing s (first_of f g s).1.
Proof.
  intros Hf Hg. unfold first_of. specialize (Hf s). destruct (f s) as [s1 []]; [done|].
  by eapply same_routing_trans.
Qed.

Lemma ask_view_same f kb e s : same_routing s (ask_view f kb e s).1.
Proof. unfold ask_view. by destruct (f _ _ _). Qed.

Lemma ask_switcher_same kb e s : same_routing s (ask_switcher kb e s).1.
Proof. unfold ask_switcher. destruct (app_switcher_ s); [|done]. cbv zeta. by destruct (AppSwitcher.HandleKey _ _ _). Qed.

Lemma ask_views_same kb e s : same_routing s (ask_views kb e s).1.
Proof.
  unfold ask_views. revert s.
  repeat (intros ?; apply first_of_same; [apply ask_view_same|]). apply ask_switcher_same.
Qed.

Lemma Notify_same t s : same_routing s (NotifyKeyboard t s).
Proof. unfold NotifyKeyboard. by destruct (protocols s) eqn:E. Qed.

Lemma OnKey_views kb e s : exists s0, same_routing s s0 /\
  OnKey (Some kb) e s = if taken kb e s then s0 else or_else (ask_bindings kb e) (send_key kb e) s0.
Proof.
  pose proof (ask_views_same kb e (NotifyKeyboard (ev_time_msec e) s)) as Hv.
  pose proof (Notify_same (ev_time_msec e) s) as Hn.
  assert (E : OnKey (Some kb) e s = or_else (ask_views kb e) (or_else (ask_bindings kb e) (send_key kb e))
    (NotifyKeyboard (ev_time_msec e) s)).
  { unfold OnKey, ask_views, or_else, first_of. repeat (destruct (ask_view _ kb e _) as [? []]; [done|]).
    by destruct (ask_switcher _ _ _) as [? []]. }
  rewrite E. unfold or_else, taken. destruct (ask_views _ _ _) as [s0 h]. exists s0.
  split; [|done]. by eapply same_routing_trans.
Qed.

(** The invariant reads only what the views leave alone. *)
Lemma stroke_inv_same k code down s s0 : same_routing s s0 -> stroke_inv k code down s -> stroke_inv k code down s0.
Proof.
  intros (E1 & E2 & E3 & E4) [I1 I2 I4].
  split; unfold seen, sent_to, known, held, capturing, key_destination, SessionLocked in *; rewrite ?E1, ?E2, ?E3, ?E4; done.
Qed.

(** The key goes past the shortcuts. *)
Lemma stroke_inv_send k code down' s kb e b :
  (forall m, key_binding_manager_ s = Some m -> NoDup (map pressed_key (active_keys_ m))) ->
  (held k code s = true -> down' = true /\ SessionLocked s = false) ->
  (forall d, seen k code d s (b && bool_decide (key_destination k s = d))) ->
  (is_this k code kb e = true -> (ev_state e =? KEY_PRESSED) = negb b) ->
  known k code down' s = (if is_this k code kb e then negb b else b) ->
  stroke_inv k code down' (send_key kb e s).
Proof.
  intros Hm Hh Hs He Hd. destruct (send_key_same kb e s) as (E1 & E2 & E3 & _). split.
  - by rewrite E1.
  - unfold held, SessionLocked in *. by rewrite E1, E2.
  - intros d. unfold known, capturing, held, key_destination, SessionLocked in *. rewrite E1, E2, E3, Hd. by apply stroke_send.
Qed.

(** What the shortcuts do with a key, as the key [(k, code)] sees it. *)
Lemma bindings_facts k code kb e m inh : keeps_active run_action run_capture ->
  NoDup (map pressed_key (active_keys_ m)) -> call_ok (CallKey kb.1 kb.2 e false) ->
  let '(m', consumed, _) := KeyBinding.HandleKey run_action run_capture m (Some kb) e inh in
  NoDup (map pressed_key (active_keys_ m')) /\
  if is_this k code kb e
  then if ev_state e =? KEY_PRESSED
       then if IsGrabbingKey m then consumed = true /\ is_down k code m' = is_down k code m
            else consumed = is_down k code m' /\ (is_down k code m = true -> consumed = true)
       else consumed = is_down k code m || IsGrabbingKey m /\ is_down k code m' = false
  else is_down k code m' = is_down k code m.
Proof.
  intros Hq Hnd Hok. pose proof (HandleKey_delivery run_action run_capture m kb.1 kb.2 e inh Hq Hnd Hok) as Hd.
  rewrite <- surjective_pairing in Hd. destruct (KeyBinding.HandleKey _ _ _ _ _ _) as [[m' consumed] effs].
  destruct Hd as (Hnd' & Hoth & Hthis). split; [done|]. destruct (is_this k code kb e) eqn:Et; unfold is_this in Et.
  - replace (kb.1) with k in Hthis by lia. by replace (ev_keycode e) with code in Hthis by lia.
  - apply Hoth. intros [= -> ->]. lia.
Qed.

(** A key no view takes. *)
Lemma stroke_key k code down down' s s0 kb e : keeps_active run_action run_capture -> same_routing s s0 -> stroke_inv k code down s ->
  call_ok (CallKey kb.1 kb.2 e false) ->
  down' = (if is_this k code kb e then ev_state e =? KEY_PRESSED else down) ->
  (is_this k code kb e = true -> down' = negb down) ->
  let s' := or_else (ask_bindings kb e) (send_key kb e) s0 in
  steady k code down' s s' -> stroke_inv k code down' s'.
Proof.
  intros Hq Hr Hi Hok Hd' He. cbv zeta. intros Hst.
  assert (Hst0 : steady k code down' s0 (or_else (ask_bindings kb e) (send_key kb e) s0)).
  { destruct Hr as (E1 & E2 & E3 & E4). unfold steady, SessionLocked, capturing, key_destination, held in *.
    unfold SessionLocked in *. by rewrite E1, E2, E3. }
  apply (stroke_inv_same _ _ _ _ s0) in Hi; [|done]. clear Hst Hr s. destruct Hi as [I1 I2 I4].
  unfold or_else, ask_bindings in *.
  assert (Hplain : held k code s0 = false -> capturing s0 && negb (SessionLocked s0) = false ->
    stroke_inv k code down' (send_key kb e s0)).
  { intros Hh Hc. apply (stroke_inv_send _ _ _ _ _ _ down); [done|by rewrite Hh| | |unfold known; rewrite Hh, Hc, !andb_true_r].
    - intros d. specialize (I4 d). unfold known in I4. by rewrite Hh, Hc, !andb_true_r in I4.
    - intros Ht. rewrite <- (He Ht), Hd', Ht. done.
    - rewrite Hd'. destruct (is_this k code kb e) eqn:Et; [|done]. rewrite <- (He eq_refl), Hd'. done. }
  destruct (key_binding_manager_ s0) as [m|] eqn:Em; [|apply Hplain; unfold held, capturing; by rewrite Em].
  destruct (SessionLocked s0) eqn:El.
  { apply Hplain; [|by rewrite andb_false_r]. destruct (held k code s0); [|done]. by destruct (I2 eq_refl). }
  pose proof (bindings_facts k code kb e m (ShortcutsInhibited s0) Hq (I1 m eq_refl) Hok) as Hf.
  destruct (KeyBinding.HandleKey _ _ _ _ _ _) as [[m' consumed] effs]. destruct Hf as [Hnd' Hf].
  set (s1 := s0 <{ key_binding_manager_ := Some m' }> <{ actions_run ::= _ }>) in *.
  assert (Hh0 : held k code s0 = is_down k code m /\ capturing s0 = IsGrabbingKey m) by (unfold held, capturing; by rewrite Em).
  assert (Hh1 : held k code s1 = is_down k code m' /\ capturing s1 = IsGrabbingKey m') by done.
  assert (Hst1 : down' = false \/ is_down k code m' = true \/ IsGrabbingKey m' = IsGrabbingKey m).
  { destruct (send_key_same kb e s1) as (E1 & E2 & E3 & _). unfold steady, held, capturing in Hst0. destruct consumed;
      rewrite ?E1, Em in Hst0; simpl in Hst0; tauto. }
  clear Hst0. destruct Hh0 as [Hh0 Hc0], Hh1 as [Hh1 Hc1].
  unfold known in *. rewrite Hh0, Hc0, El in *. simpl negb in *. rewrite !andb_true_r in *.
  set (h := is_down k code m) in *. set (h' := is_down k code m') in *. set (g := IsGrabbingKey m) in *. set (g' := IsGrabbingKey m') in *.
  assert (Ed : down' = if is_this k code kb e then negb down else down)
    by (destruct (is_this k code kb e); auto).
  assert (Ep : is_this k code kb e = true -> (ev_state e =? KEY_PRESSED) = negb down)
    by (intros Ht; rewrite <- (He Ht), Hd', Ht; done).
  clear Hd' He Hplain. clearbody h h' g g'.
  assert (Hknown : down' && negb h' && negb g' =
    if is_this k code kb e && negb consumed then negb (down && negb h && negb g) else down && negb h && negb g).
  { subst down'. destruct (is_this k code kb e), (ev_state e =? KEY_PRESSED), down, h, h', g, g', consumed; naive_solver. }
  assert (Hheld : h' = true -> down' = true).
  { subst down'. destruct (is_this k code kb e), (ev_state e =? KEY_PRESSED), down, h, h', g, consumed; naive_solver. }
  destruct consumed.
  - split; [by intros ? [= <-]|rewrite Hh1; auto|].
    intros d. unfold known. rewrite Hh1, Hc1. replace (SessionLocked s1) with false by done. simpl negb.
    rewrite !andb_true_r, Hknown, andb_false_r. apply I4.
  - apply (stroke_inv_send _ _ _ _ _ _ (down && negb h && negb g));
      [by intros ? [= <-]|rewrite Hh1; auto|apply I4| |].
    + intros Ht. rewrite (Ep Ht). rewrite Ht in Hf. destruct (ev_state e =? KEY_PRESSED), down, h, g; naive_solver.
    + unfold known. rewrite Hh1, Hc1. replace (SessionLocked s1) with false by done. simpl negb.
      by rewrite !andb_true_r, Hknown, andb_true_r.
Qed.

(** Anything else that leaves the shortcuts' hold of the key alone. *)
Lemma stroke_change k code down s s' : stroke_inv k code down s -> keys_sent s' = keys_sent s ->
  (forall m, key_binding_manager_ s' = Some m -> NoDup (map pressed_key (active_keys_ m))) ->
  held k code s' = held k code s -> steady k code down s s' -> stroke_inv k code down s'.
Proof.
  intros [I1 I2 I4] E1 Hm E2 Hst. split; [done| |].
  - rewrite E2. intros Hh. destruct (I2 Hh) as [-> El]. destruct Hst as [|[-> _]]; done.
  - intros d. specialize (I4 d). unfold seen, sent_to, known in *. rewrite E1, E2.
    destruct Hst as [->|[-> [Hh|[-> ->]]]]; [done| |done]. rewrite <- E2, Hh, !andb_false_r in *. done.
Qed.

(** The shortcuts being managed. *)
Lemma stroke_manage k code down s c : stroke_inv k code down s -> (forall k kb e inh, c <> CallKey k kb e inh) ->
  (forall k', c = CallForget k' -> k' = k -> held k code s = false) ->
  steady k code down s (keys_apply s (ManageCall c)) -> stroke_inv k code down (keys_apply s (ManageCall c)).
Proof.
  intros Hi Hc Hf Hst. pose proof Hi as [I1 _ _].
  assert (Hk : (forall m, key_binding_manager_ (keys_apply s (ManageCall c)) = Some m -> NoDup (map pressed_key (active_keys_ m))) /\
    held k code (keys_apply s (ManageCall c)) = held k code s).
  { unfold held in *. simpl. destruct (key_binding_manager_ s) as [m|]; [|done]. simpl in *.
    destruct (kbm_apply_active run_action run_capture m c k code Hc Hf (I1 m eq_refl)) as (E1 & E2 & _).
    split; [by intros ? [= <-]|done]. }
  by eapply stroke_change; try apply Hk.
Qed.

Lemma strokes_inv k code down took s calls : keeps_active run_action run_capture -> stroke_inv k code down s ->
  (took = true -> down = false) -> strokes k code down took s calls ->
  exists down', stroke_inv k code down' (foldl keys_apply s calls).
Proof.
  intros Hq. revert down took s. induction calls as [|c calls IH]; intros down took s Hi Ht Hs; cbn [foldl]; [by exists down|].
  pose proof Hi as [I1 _ _]. cbn [strokes] in Hs.
  destruct c as [kb e|kb|c|p|r|v a].
  - destruct Hs as [Hok Hs]. destruct (OnKey_views kb e s) as (s0 & Hr & E).
    pose proof (fun d' => stroke_key k code down d' s s0 kb e Hq Hr Hi Hok) as Hk. cbn [keys_apply] in *.
    rewrite E in *. pose proof (stroke_inv_same k code down s s0 Hr Hi) as H0. clear E.
    destruct (is_this k code kb e); [destruct (ev_state e =? KEY_PRESSED)|destruct Hs as [Hst Hs]].
    + destruct Hs as (-> & -> & Hst & Hs). destruct (taken kb e s); (eapply IH; [| |exact Hs]); [done|done| |done]. by apply Hk.
    + destruct Hs as (Hc & Hs). destruct (taken kb e s); (apply (IH false false); [|done|exact Hs]).
      * by rewrite (Ht Hc) in H0.
      * subst down. apply Hk; [done|done|by left].
    + apply (IH down took); [|done|exact Hs]. destruct (taken kb e s); [done|]. by apply Hk.
  - destruct Hs as [Hst Hs]. apply (IH down took); [|done|exact Hs]. cbn [keys_apply OnModifiers] in *. cbv zeta in *.
    case_bool_decide; by eapply stroke_change.
  - destruct Hs as (Hc & Hst & Hs). apply (IH down took); [|done|exact Hs]. apply stroke_manage; [done| | |done].
    + by intros ? ? ? ? ->.
    + by intros ? ->.
  - destruct Hs as [Hst Hs]. apply (IH down took); [|done|exact Hs]. by eapply stroke_change.
  - destruct Hs as [Hst Hs]. apply (IH down took); [|done|exact Hs]. by eapply stroke_change.
  - destruct Hs as [Hst Hs]. apply (IH down took); [|done|exact Hs]. by eapply stroke_change.
Qed.

Lemma seen_nothing k code d s : presses k code (sent_to d s) = [] -> seen k code d s false.
Proof. intros E. unfold seen. by rewrite E. Qed.

(** C6. Key strokes stay whole across views, Alt+Tab, shortcuts, captures, the input method and
    the lock screen. Let a key be alternately pressed and released, let a view or Alt+Tab that
    takes its press take its release and conversely, and, while the key is down and no view
    took it, let the session not be locked or unlocked and, unless a shortcut holds the key,
    let the input method not take or give up the keyboard and no capture begin or end; let the
    keyboard not be removed while a shortcut holds the key. Then the focused client and the
    input method each see the key alternately pressed and released. *)
Theorem key_strokes_stay_whole s calls k code d : keeps_active run_action run_capture ->
  (forall m, key_binding_manager_ s = Some m -> active_keys_ m = []) ->
  keys_sent s = [] -> strokes k code false false s calls ->
  alternates false (presses k code (sent_to d (foldl keys_apply s calls))).
Proof.
  intros Hq Hm Hn Hs. assert (Hh : held k code s = false).
  { unfold held. destruct (key_binding_manager_ s) as [m|]; [|done]. simpl. unfold is_down. by rewrite (Hm m eq_refl). }
  destruct (strokes_inv k code false false s calls Hq) as (down & [_ _ Hseen]); [|done|done|by apply (Hseen d)].
  split; [|by rewrite Hh|].
  - intros m E. rewrite (Hm m E). constructor.
  - intros d'. apply seen_nothing. unfold sent_to. by rewrite Hn.
Qed.
End Routing.

(** ** An example keyboard *)

#[local] Existing Instance demo_xkb.

Definition demo_one_sym (st : xkb_state) (k : Z) : Z := default 0 (head (xkb_state_key_get_syms st k)).
Definition no_view (v : unit) (kb : nat * wlr_keyboard) (e : wlr_keyboard_key_event) : unit * bool := (v, false).

(** A shortcut on Ctrl+Alt+h, held for as long as it repeats. *)
Definition demo_bindings : KeyBindingManager := (Register kbm_init (txt "Ctrl+Alt+h") kWindowSwitch (Some 7%nat) []).1.

(** An input method that may have grabbed the keyboard. *)
Definition demo_relay (grab : bool) : InputMethodRelay :=
  Relay 1 (Some (MkInputMethod 5 None None (0, 0) grab)) None None None [] [] (fun _ => None) (fun _ _ => Box 0 0 0 0) [] [] true.

Definition demo_keys (locked : bool) : keyboards :=
  Keyboards tt None (Some (locked, false)) (Some demo_bindings) (Some (demo_relay false)) None [] [] [] [].

Definition run_keys : keyboards -> list key_call -> keyboards :=
  foldl (keys_apply (fun _ m => m) (fun _ _ _ m => m) demo_one_sym (fun _ => None) no_view no_view no_view no_view).

Lemma demo_closed l : views_closed no_view no_view no_view no_view (demo_keys l).
Proof. by split. Qed.


(** Alt+Tab with one window, as the shortcut opens it. *)
Definition demo_switcher : AppSwitcher := Switcher true true [MkEntry (Some 1%nat) [] [] true false] [1%nat] 0 true None [].

(** The shortcut, which opens Alt+Tab and lets go of h; h typed and taken by Alt+Tab, which is
    closed; h typed into the client, then captured, then typed to the input method. *)
Lemma key_strokes_stay_whole_witness :
  let calls := [KeyCall (demo_keyboard 12) (demo_press 36); ViewsCall tt (Some demo_switcher); ViewsCall tt None;
                KeyCall (demo_keyboard 0) (demo_release 36); ViewsCall tt (Some demo_switcher);
                KeyCall (demo_keyboard 0) (demo_press 36); KeyCall (demo_keyboard 0) (demo_release 36); ViewsCall tt None;
                KeyCall (demo_keyboard 0) (demo_press 36); KeyCall (demo_keyboard 0) (demo_release 36);
                ManageCall (CallGrab (Some 3%nat));
                KeyCall (demo_keyboard 0) (demo_press 36); KeyCall (demo_keyboard 0) (demo_release 36);
                RelayCall (Some (demo_relay true)); KeyCall (demo_keyboard 0) (demo_press 36)] in
  alternates false (presses 1 36 (sent_to ToSeat (run_keys (demo_keys false) calls))) /\
  presses 1 36 (sent_to ToSeat (run_keys (demo_keys false) calls)) = [true; false] /\
  presses 1 36 (sent_to ToInputMethod (run_keys (demo_keys false) calls)) = [true].
Proof.
  cbv zeta. split; [|vm_compute; done].
  apply (key_strokes_stay_whole (fun _ m => m) (fun _ _ _ m => m) demo_one_sym (fun _ => None) no_view no_view no_view no_view).
  - by split.
  - intros m [= <-]. vm_compute. done.
  - done.
  - vm_compute. repeat lazymatch goal with
    | |- _ /\ _ => split
    | |- ?a = ?a => reflexivity
    | |- ?a = ?a \/ _ => left
    | |- _ \/ _ => right
    | |- _ => exact I || discriminate
    end.
Defined.

(** ** Surprises *)

(** The session is locked while the key of a shortcut is held: the lock screen sees a release
    without a press, and after unlocking the first plain press of the key runs the
    shortcut's action instead of typing. *)
Example shortcut_runs_after_unlock :
  let s := run_keys (demo_keys false)
    [KeyCall (demo_keyboard 12) (demo_press 36); ProtocolsCall (Some (true, false)); KeyCall (demo_keyboard 12) (demo_release 36);
     ProtocolsCall (Some (false, false)); KeyCall (demo_keyboard 0) (demo_press 36)] in
  actions_run s = [RunAction 7; RunAction 7] /\ keys_sent s = [(ToSeat, (1%nat, demo_release 36))].
Proof. vm_compute. done. Qed.

(** An input method grabs the keyboard while a key is held: the client never sees the release. *)
Example grab_takes_release :
  let s := run_keys (demo_keys false)
    [KeyCall (demo_keyboard 0) (demo_press 36); RelayCall (Some (demo_relay true)); KeyCall (demo_keyboard 0) (demo_release 36)] in
  presses 1 36 (sent_to ToSeat s) = [true] /\ presses 1 36 (sent_to ToInputMethod s) = [false].
Proof. vm_compute. done. Qed.

(** Alt+Tab open when the session is locked swallows what is typed on the lock screen. *)
Example switcher_swallows_password :
  let s := run_keys ((demo_keys true) <{ app_switcher_ := Some demo_switcher }>)
    [KeyCall (demo_keyboard 0) (demo_press 36); KeyCall (demo_keyboard 0) (demo_release 36)] in
  keys_sent s = [].
Proof. vm_compute. done. Qed.

(** Alt+Tab opened while a letter is held swallows its release: the client sees it pressed for
    ever. *)
Example switcher_swallows_release :
  let s := run_keys (demo_keys false)
    [KeyCall (demo_keyboard 0) (demo_press 36); ViewsCall tt (Some demo_switcher); KeyCall (demo_keyboard 8) (demo_release 36)] in
  presses 1 36 (sent_to ToSeat s) = [true].
Proof. vm_compute. done. Qed.
