(* ===== verification/RingBuffer.v ===== *)
(** * The ring buffers of a Wayland connection

    Models struct wl_ring_buffer of src/libs/wayland/src/connection.c: every function on it.
    Positions are of type [size_t] and wrap; memory accesses outside of the buffer are
    [None]. *)

From S2P Require Import Prelude.

Definition WL_BUFFER_DEFAULT_SIZE_POT : Z := 12.
Definition WL_BUFFER_DEFAULT_MAX_SIZE : Z := Z.shiftl 1 WL_BUFFER_DEFAULT_SIZE_POT.

Record wl_ring_buffer := Ring { rb_data : list Z; rb_head : Z; rb_tail : Z; size_bits : Z; max_size_bits : Z }.

#[export] Instance ring_fields : Fields wl_ring_buffer := {| rebuild := fun b =>
  Ring (rb_data b) (rb_head b) (rb_tail b) (size_bits b) (max_size_bits b) |}.

(** zalloc. *)
Definition ring_zero : wl_ring_buffer := Ring [] 0 0 0 0.

(** ** Memory *)

Definition load (off n : nat) (mem : list Z) : option (list Z) :=
  if (off + n <=? length mem)%nat then Some (take n (drop off mem)) else None.
Definition store (off : nat) (bytes mem : list Z) : option (list Z) :=
  if (off + length bytes <=? length mem)%nat then Some (list_inserts off bytes mem) else None.

(** ** Operations *)

(** The code aborts for 64 bits and more. *)
Definition size_pot (bits : Z) : Z := Z.shiftl 1 bits.

Definition ring_buffer_capacity (b : wl_ring_buffer) : Z := size_pot (size_bits b).
Definition ring_buffer_mask (b : wl_ring_buffer) (i : Z) : Z := Z.land i (ring_buffer_capacity b - 1).

Definition ring_buffer_put (b : wl_ring_buffer) (data : list Z) : option wl_ring_buffer :=
  let count := Z.of_nat (length data) in
  if count =? 0 then Some b
  else
    let head := ring_buffer_mask b (rb_head b) in
    let mem :=
      if head + count <=? ring_buffer_capacity b then store (Z.to_nat head) data (rb_data b)
      else
        let size := Z.to_nat (ring_buffer_capacity b - head) in
        store (Z.to_nat head) (take size data) (rb_data b) ≫= store 0 (drop size data) in
    (fun mem => b <{ rb_data := mem }> <{ rb_head := u64 (rb_head b + count) }>) <$> mem.

(** The parts of the buffer that data can be read into: offset and length. *)
Definition ring_buffer_put_iov (b : wl_ring_buffer) : list (Z * Z) :=
  let head := ring_buffer_mask b (rb_head b) in
  let tail := ring_buffer_mask b (rb_tail b) in
  if head <? tail then [(head, tail - head)]
  else if tail =? 0 then [(head, ring_buffer_capacity b - head)]
  else [(head, ring_buffer_capacity b - head); (0, tail)].

(** The parts of the buffer that hold its data. *)
Definition ring_buffer_get_iov (b : wl_ring_buffer) : list (Z * Z) :=
  let head := ring_buffer_mask b (rb_head b) in
  let tail := ring_buffer_mask b (rb_tail b) in
  if tail <? head then [(tail, head - tail)]
  else if head =? 0 then [(tail, ring_buffer_capacity b - tail)]
  else [(tail, ring_buffer_capacity b - tail); (0, head)].

Definition ring_buffer_copy (b : wl_ring_buffer) (count : Z) : option (list Z) :=
  if count =? 0 then Some []
  else
    let tail := ring_buffer_mask b (rb_tail b) in
    if tail + count <=? ring_buffer_capacity b then load (Z.to_nat tail) (Z.to_nat count) (rb_data b)
    else
      let size := ring_buffer_capacity b - tail in
      load (Z.to_nat tail) (Z.to_nat size) (rb_data b) ≫= fun l =>
      load 0 (Z.to_nat (count - size)) (rb_data b) ≫= fun l' => Some (l ++ l').

Definition ring_buffer_size (b : wl_ring_buffer) : Z := u64 (rb_head b - rb_tail b).

(** The loop ends at 64 bits. *)
Fixpoint grow_bits (fuel : nat) (bits buffer_size : Z) : Z :=
  match fuel with
  | O => bits
  | S fuel => if (bits <? 64) && (size_pot bits <? buffer_size) then grow_bits fuel (bits + 1) buffer_size else bits
  end.

Definition get_max_size_bits_for_size (buffer_size : Z) : Z :=
  if buffer_size =? 0 then 0 else grow_bits 64 WL_BUFFER_DEFAULT_SIZE_POT buffer_size.

(** [alloc_ok] is whether calloc succeeds; the second result is whether the function does. *)
Definition ring_buffer_allocate (alloc_ok : bool) (b : wl_ring_buffer) (bits : Z) : option (wl_ring_buffer * bool) :=
  if negb alloc_ok then Some (b, false)
  else
    let new_data := replicate (Z.to_nat (size_pot bits)) 0 in
    ring_buffer_copy b (ring_buffer_size b) ≫= fun old =>
    store 0 old new_data ≫= fun new_data =>
    let b' := b <{ rb_data := new_data }> <{ size_bits := bits }> in
    Some (b' <{ rb_head := ring_buffer_size b }> <{ rb_tail := 0 }>, true).

Definition ring_buffer_get_bits_for_size (b : wl_ring_buffer) (net_size : Z) : Z :=
  let bits := Z.max (get_max_size_bits_for_size net_size) WL_BUFFER_DEFAULT_SIZE_POT in
  if (max_size_bits b >? 0) && (bits >? max_size_bits b) then max_size_bits b else bits.

Definition ring_buffer_is_max_size_reached (b : wl_ring_buffer) : bool :=
  let net_size := u64 (ring_buffer_size b + 1) in
  net_size >=? size_pot (ring_buffer_get_bits_for_size b net_size).

(** Why there is no space. *)
Inductive space_error := E2BIG | ENOMEM.

Definition ring_buffer_ensure_space (alloc_ok : bool) (b : wl_ring_buffer) (count : Z)
    : option (wl_ring_buffer * option space_error) :=
  let net_size := u64 (ring_buffer_size b + count) in
  let bits := ring_buffer_get_bits_for_size b net_size in
  if net_size >? size_pot bits then Some (b, Some E2BIG)
  else if bits =? size_bits b then Some (b, None)
  else (fun r : wl_ring_buffer * bool => (fst r, if snd r then None else Some ENOMEM)) <$> ring_buffer_allocate alloc_ok b bits.

(** [tail += n]. *)
Definition ring_buffer_consume (n : Z) (b : wl_ring_buffer) : wl_ring_buffer := b <{ rb_tail ::= fun t => u64 (t + n) }>.
(** [head += n], after data was read into the free part. *)
Definition ring_buffer_advance (n : Z) (b : wl_ring_buffer) : wl_ring_buffer := b <{ rb_head ::= fun h => u64 (h + n) }>.

(** ** What a buffer holds *)

Definition at_pos (b : wl_ring_buffer) (p : Z) : Z := rb_data b !!! Z.to_nat (p mod ring_buffer_capacity b).

Definition contents (b : wl_ring_buffer) : list Z :=
  map (fun j => at_pos b (rb_tail b + Z.of_nat j)) (seq 0 (Z.to_nat (ring_buffer_size b))).

(** A buffer with memory. *)
Record ring_ok (b : wl_ring_buffer) : Prop := {
  ro_bits : 0 <= size_bits b < 64;
  ro_data : Z.of_nat (length (rb_data b)) = ring_buffer_capacity b;
  ro_head : 0 <= rb_head b < 2 ^ 64;
  ro_tail : 0 <= rb_tail b < 2 ^ 64;
  ro_size : ring_buffer_size b <= ring_buffer_capacity b;
  ro_max : 0 <= max_size_bits b <= 64 }.


Lemma size_pot_pow bits : 0 <= bits -> size_pot bits = 2 ^ bits.
Proof. intros Hb. unfold size_pot. by rewrite Z.shiftl_mul_pow2, Z.mul_1_l. Qed.

Lemma capacity_pos b : ring_ok b -> 0 < ring_buffer_capacity b.
Proof. intros [[H0 _] _ _ _ _ _]. unfold ring_buffer_capacity. rewrite size_pot_pow by done. by apply Z.pow_pos_nonneg. Qed.

Lemma capacity_divides b : ring_ok b -> (ring_buffer_capacity b | 2 ^ 64).
Proof.
  intros [[H0 H1] _ _ _ _ _]. unfold ring_buffer_capacity. rewrite size_pot_pow by done.
  exists (2 ^ (64 - size_bits b)). rewrite <- Z.pow_add_r by lia. f_equal. lia.
Qed.

Lemma mask_mod b i : 0 <= size_bits b -> ring_buffer_mask b i = i mod ring_buffer_capacity b.
Proof.
  intros Hb. unfold ring_buffer_mask, ring_buffer_capacity. rewrite size_pot_pow by done.
  rewrite <- Z.land_ones by done. by rewrite Z.ones_equiv, Z.sub_1_r.
Qed.

Lemma u64_mod_capacity b x : ring_ok b -> u64 x mod ring_buffer_capacity b = x mod ring_buffer_capacity b.
Proof.
  intros Hb. unfold u64. apply Z.mod_mod_divide. by apply capacity_divides.
Qed.

(** The head is [size] positions after the tail, up to wrapping. *)
Lemma head_pos b k : ring_ok b ->
  (rb_head b + k) mod ring_buffer_capacity b = (rb_tail b + ring_buffer_size b + k) mod ring_buffer_capacity b.
Proof.
  intros Hb. pose proof (capacity_pos b Hb). unfold ring_buffer_size.
  replace (rb_tail b + u64 _ + k) with (u64 (rb_head b - rb_tail b) + (rb_tail b + k)) by lia.
  rewrite <- (Z.add_mod_idemp_l (u64 _)), u64_mod_capacity, Z.add_mod_idemp_l by (done || lia). f_equal. lia.
Qed.

Lemma ring_size_range b : 0 <= ring_buffer_size b < 2 ^ 64.
Proof. apply Z.mod_pos_bound. lia. Qed.

(** Growing and consuming move the size. *)
Lemma size_advance b n : 0 <= n -> ring_buffer_size b + n < 2 ^ 64 ->
  u64 (u64 (rb_head b + n) - rb_tail b) = ring_buffer_size b + n.
Proof.
  intros Hn Hs. pose proof (ring_size_range b). unfold ring_buffer_size, u64 in *.
  rewrite <- (Z.mod_small ((rb_head b - rb_tail b) mod 2 ^ 64 + n) (2 ^ 64)) by lia.
  rewrite Z.add_mod_idemp_l, Zminus_mod_idemp_l by lia. f_equal. lia.
Qed.

Lemma size_consume b n : 0 <= n <= ring_buffer_size b -> u64 (rb_head b - u64 (rb_tail b + n)) = ring_buffer_size b - n.
Proof.
  intros Hn. pose proof (ring_size_range b). unfold ring_buffer_size, u64 in *.
  rewrite <- (Z.mod_small ((rb_head b - rb_tail b) mod 2 ^ 64 - n) (2 ^ 64)) by lia.
  rewrite Zminus_mod_idemp_l, Zminus_mod_idemp_r by lia. f_equal. lia.
Qed.

(** ** Memory, pointwise *)

Lemma store_total off bytes mem : (off + length bytes <= length mem)%nat -> store off bytes mem = Some (list_inserts off bytes mem).
Proof. intros Hl. unfold store. by rewrite (proj2 (Nat.leb_le _ _)). Qed.

Lemma inserts_total off (bytes mem : list Z) i : (off + length bytes <= length mem)%nat ->
  list_inserts off bytes mem !!! i =
  if (off <=? i)%nat && (i <? off + length bytes)%nat then bytes !!! (i - off)%nat else mem !!! i.
Proof.
  intros Hl. destruct (Nat.leb_spec off i), (Nat.ltb_spec i (off + length bytes)); cbn [andb].
  - rewrite !list_lookup_total_alt, list_lookup_inserts; [done|lia..].
  - by rewrite !list_lookup_total_alt, list_lookup_inserts_ge by lia.
  - by rewrite !list_lookup_total_alt, list_lookup_inserts_lt by lia.
  - by rewrite !list_lookup_total_alt, list_lookup_inserts_lt by lia.
Qed.

Lemma lookup_total_take_lt (l : list Z) n i : (i < n)%nat -> take n l !!! i = l !!! i.
Proof. intros Hi. rewrite !list_lookup_total_alt. by rewrite lookup_take_lt. Qed.

Lemma lookup_total_drop (l : list Z) n i : drop n l !!! i = l !!! (n + i)%nat.
Proof. by rewrite !list_lookup_total_alt, lookup_drop. Qed.

(** The position [i] of the buffer is [k] positions after [h] around the ring. *)
Lemma ring_dist c h i : 0 < c -> 0 <= h < c -> 0 <= i < c -> (i - h) mod c = if h <=? i then i - h else i - h + c.
Proof.
  intros Hc Hh Hi. destruct (Z.leb_spec h i); [by rewrite Z.mod_small by lia|].
  rewrite <- (Z.mod_small (i - h + c) c) by lia. by rewrite <- Z.add_mod_idemp_r, Z.mod_same, Z.add_0_r by lia.
Qed.

(** Putting data writes it from the head on, around the end of the memory. *)
Lemma put_memory b data : ring_ok b -> Z.of_nat (length data) <= ring_buffer_capacity b ->
  exists mem, ring_buffer_put b data = Some (b <{ rb_data := mem }> <{ rb_head := u64 (rb_head b + Z.of_nat (length data)) }>) /\
    length mem = length (rb_data b) /\
    forall i, 0 <= i < ring_buffer_capacity b ->
      let k := (i - rb_head b mod ring_buffer_capacity b) mod ring_buffer_capacity b in
      mem !!! Z.to_nat i = if k <? Z.of_nat (length data) then data !!! Z.to_nat k else rb_data b !!! Z.to_nat i.
Proof.
  intros Hb Hn. pose proof (capacity_pos b Hb) as Hc. pose proof (ro_data b Hb) as Hl.
  unfold ring_buffer_put. rewrite mask_mod by apply (ro_bits b Hb).
  set (c := ring_buffer_capacity b) in *. set (h := rb_head b mod c) in *.
  assert (Hh : 0 <= h < c) by (by apply Z.mod_pos_bound). clearbody h.
  destruct (Z.eqb_spec (Z.of_nat (length data)) 0) as [E0|E0].
  { exists (rb_data b). rewrite E0, Z.add_0_r. split; [|split; [done|]].
    - pose proof (ro_head b Hb). unfold u64. rewrite Z.mod_small by done. by destruct b.
    - intros i Hi. cbv zeta. pose proof (Z.mod_pos_bound (i - h) c Hc). by replace (_ <? 0) with false by lia. }
  destruct (Z.leb_spec (h + Z.of_nat (length data)) c) as [Hle|Hgt].
  - rewrite store_total by lia. eexists. split; [done|]. split; [apply length_inserts|].
    intros i Hi. cbv zeta. rewrite inserts_total, ring_dist by lia. destruct (Z.leb_spec h i).
    + destruct (_ && _) eqn:E1, (_ <? _) eqn:E2; try lia; try done; f_equal; lia.
    + destruct (_ && _) eqn:E1, (_ <? _) eqn:E2; try lia; done.
  - assert (Ht : length (take (Z.to_nat (c - h)) data) = Z.to_nat (c - h)) by (rewrite length_take; lia).
    rewrite store_total by lia. cbn [mbind option_bind]. rewrite store_total by (rewrite length_inserts, length_drop; lia).
    eexists. split; [done|]. split; [by rewrite !length_inserts|].
    intros i Hi. cbv zeta. rewrite inserts_total by (rewrite length_inserts, length_drop; lia). rewrite inserts_total by lia.
    rewrite length_drop, Ht, ring_dist by lia. rewrite lookup_total_drop. destruct (Z.leb_spec h i).
    + destruct (_ && _) eqn:E1 at 1; [lia|]. destruct (_ && _) eqn:E2 at 1; [|lia].
      destruct (_ <? _) eqn:E3; [|lia]. rewrite lookup_total_take_lt by lia. f_equal. lia.
    + destruct (_ <? Z.of_nat _) eqn:E3; destruct ((0 <=? _)%nat && _) eqn:E1; try lia; [f_equal; lia|].
      destruct ((Z.to_nat h <=? _)%nat && _) eqn:E2; [lia|done].
Qed.

(** ** The queue *)

Lemma contents_length b : length (contents b) = Z.to_nat (ring_buffer_size b).
Proof. unfold contents. by rewrite length_map, length_seq. Qed.

Lemma contents_lookup b j : Z.of_nat j < ring_buffer_size b -> contents b !! j = Some (at_pos b (rb_tail b + Z.of_nat j)).
Proof.
  intros Hj. unfold contents. change (map ?f ?l) with (f <$> l). rewrite list_lookup_fmap, lookup_seq_lt by lia. done.
Qed.

(** Two queues are equal when they have the same size and the same bytes. *)
Lemma contents_eq b l : ring_buffer_size b = Z.of_nat (length l) ->
  (forall j, (j < length l)%nat -> at_pos b (rb_tail b + Z.of_nat j) = l !!! j) -> contents b = l.
Proof.
  intros Hs Hl. apply (list_eq_same_length _ _ (length l)); [done|rewrite contents_length; lia|].
  intros j x y Hj Hx Hy. rewrite contents_lookup in Hx by lia. injection Hx as <-.
  rewrite Hl by done. by apply list_lookup_total_correct.
Qed.

Lemma contents_total b j : Z.of_nat j < ring_buffer_size b -> contents b !!! j = at_pos b (rb_tail b + Z.of_nat j).
Proof. intros Hj. apply list_lookup_total_correct. by apply contents_lookup. Qed.

Lemma total_app (l l' : list Z) j : (l ++ l') !!! j = if (j <? length l)%nat then l !!! j else l' !!! (j - length l)%nat.
Proof.
  rewrite !list_lookup_total_alt. destruct (Nat.ltb_spec j (length l)); [by rewrite lookup_app_l|by rewrite lookup_app_r].
Qed.

Theorem ring_buffer_put_spec b data : ring_ok b ->
  ring_buffer_size b + Z.of_nat (length data) <= ring_buffer_capacity b ->
  exists b', ring_buffer_put b data = Some b' /\ ring_ok b' /\ contents b' = contents b ++ data /\
    size_bits b' = size_bits b /\ max_size_bits b' = max_size_bits b /\ rb_tail b' = rb_tail b.
Proof.
  intros Hb Hs. pose proof (capacity_pos b Hb) as Hc. pose proof (ring_size_range b) as Hr.
  destruct (put_memory b data Hb ltac:(lia)) as (mem & Hput & Hlen & Hmem).
  assert (Hcap : ring_buffer_capacity b < 2 ^ 64).
  { unfold ring_buffer_capacity. pose proof (ro_bits b Hb). rewrite size_pot_pow by lia. apply Z.pow_lt_mono_r; lia. }
  set (b' := b <{ rb_data := mem }> <{ rb_head := u64 (rb_head b + Z.of_nat (length data)) }>) in *.
  assert (Hsize : ring_buffer_size b' = ring_buffer_size b + Z.of_nat (length data)) by (exact (size_advance b (Z.of_nat (length data)) ltac:(lia) ltac:(lia))).
  exists b'. split_and!; [done| | |done|done|done].
  - destruct Hb. split; simpl; try done; [by rewrite Hlen|apply Z.mod_pos_bound; lia|by rewrite Hsize].
  - apply contents_eq; [rewrite Hsize, length_app, contents_length; lia|]. intros j Hj. rewrite length_app, contents_length in Hj.
    unfold at_pos. change (ring_buffer_capacity b') with (ring_buffer_capacity b). change (rb_tail b') with (rb_tail b).
    change (rb_data b') with mem. set (c := ring_buffer_capacity b) in *.
    rewrite Hmem by (by apply Z.mod_pos_bound). cbv zeta. rewrite <- Zminus_mod, total_app, contents_length.
    assert (Hk : (rb_tail b + Z.of_nat j - rb_head b) mod c = (Z.of_nat j - ring_buffer_size b) mod c).
    { pose proof (head_pos b 0 Hb) as E. rewrite !Z.add_0_r in E. fold c in E.
      rewrite <- Zminus_mod_idemp_r, E, Zminus_mod_idemp_r. f_equal. lia. }
    rewrite Hk. destruct (Nat.ltb_spec j (Z.to_nat (ring_buffer_size b))).
    + rewrite contents_total by lia.
      assert (E : (Z.of_nat j - ring_buffer_size b) mod c = Z.of_nat j - ring_buffer_size b + c).
      { rewrite <- (Z.mod_small (Z.of_nat j - ring_buffer_size b + c) c) by lia.
        by rewrite <- Z.add_mod_idemp_r, Z.mod_same, Z.add_0_r by lia. }
      rewrite E. by replace (_ <? _) with false by lia.
    + rewrite Z.mod_small by lia. replace (_ <? _) with true by lia. f_equal. lia.
Qed.

Lemma load_total off n mem : (off + n <= length mem)%nat -> load off n mem = Some (take n (drop off mem)).
Proof. intros Hl. unfold load. by rewrite (proj2 (Nat.leb_le _ _)). Qed.

Lemma take_contents_eq b n l : 0 <= n <= ring_buffer_size b -> Z.of_nat (length l) = n ->
  (forall j, (j < length l)%nat -> l !!! j = at_pos b (rb_tail b + Z.of_nat j)) -> l = take (Z.to_nat n) (contents b).
Proof.
  intros Hn Hl Hj. apply (list_eq_same_length _ _ (length l)); [|done|].
  - rewrite length_take, contents_length. lia.
  - intros j x y Hlt Hx Hy. rewrite lookup_take_lt, contents_lookup in Hy by lia. injection Hy as <-.
    rewrite <- Hj by done. symmetry. by apply list_lookup_total_correct.
Qed.

Lemma mod_once x c : 0 < c -> 0 <= x < 2 * c -> x mod c = if x <? c then x else x - c.
Proof.
  intros Hc Hx. destruct (Z.ltb_spec x c); [by rewrite Z.mod_small by lia|].
  rewrite <- (Z.mod_small (x - c) c) by lia. by rewrite <- Zminus_mod_idemp_r, Z.mod_same, Z.sub_0_r by lia.
Qed.

(** The bytes from the tail on, in the one or two pieces they are in. *)
Lemma tail_pieces b n : ring_ok b -> 0 <= n <= ring_buffer_size b ->
  let t := rb_tail b mod ring_buffer_capacity b in
  let s := Z.min n (ring_buffer_capacity b - t) in
  take (Z.to_nat s) (drop (Z.to_nat t) (rb_data b)) ++ take (Z.to_nat (n - s)) (rb_data b) = take (Z.to_nat n) (contents b).
Proof.
  intros Hb Hn t s. pose proof (capacity_pos b Hb) as Hc. pose proof (ro_data b Hb) as Hl. pose proof (ro_size b Hb) as Hs.
  assert (Ht : 0 <= t < ring_buffer_capacity b) by (by apply Z.mod_pos_bound).
  assert (Hlen : length (take (Z.to_nat s) (drop (Z.to_nat t) (rb_data b))) = Z.to_nat s)
    by (rewrite length_take, length_drop; unfold s; lia).
  apply take_contents_eq; [done|rewrite length_app, Hlen, length_take; unfold s; lia|].
  intros j Hj. rewrite length_app, Hlen, length_take in Hj. rewrite total_app, Hlen. unfold at_pos.
  assert (Hp : (rb_tail b + Z.of_nat j) mod ring_buffer_capacity b = (t + Z.of_nat j) mod ring_buffer_capacity b)
    by (unfold t; by rewrite Z.add_mod_idemp_l by lia).
  rewrite Hp. destruct (Nat.ltb_spec j (Z.to_nat s)).
  - rewrite lookup_total_take_lt, lookup_total_drop by done. rewrite Z.mod_small by (unfold s in *; lia). f_equal. lia.
  - assert (Hbig : ring_buffer_capacity b <= t + Z.of_nat j) by (unfold s in *; lia).
    rewrite lookup_total_take_lt by lia. f_equal.
    rewrite mod_once by (unfold s in *; lia). replace (_ <? _) with false by lia. unfold s in *. lia.
Qed.

Theorem ring_buffer_copy_spec b n : ring_ok b -> 0 <= n <= ring_buffer_size b ->
  ring_buffer_copy b n = Some (take (Z.to_nat n) (contents b)).
Proof.
  intros Hb Hn. pose proof (tail_pieces b n Hb Hn) as Hp. cbv zeta in Hp. revert Hp.
  pose proof (capacity_pos b Hb) as Hc. pose proof (ro_data b Hb) as Hl. pose proof (ro_size b Hb) as Hs.
  unfold ring_buffer_copy. rewrite mask_mod by apply (ro_bits b Hb).
  set (t := rb_tail b mod ring_buffer_capacity b). assert (Ht : 0 <= t < ring_buffer_capacity b) by (by apply Z.mod_pos_bound).
  destruct (Z.eqb_spec n 0) as [->|Hn0]; [done|]. destruct (Z.leb_spec (t + n) (ring_buffer_capacity b)).
  - rewrite Z.min_l by lia. rewrite Z.sub_diag. rewrite load_total by lia. cbn [Z.to_nat take]. by rewrite app_nil_r; intros ->.
  - rewrite Z.min_r by lia. rewrite !load_total by lia. cbn [mbind option_bind]. rewrite drop_0. by intros ->.
Qed.

Lemma consume_spec b n : ring_ok b -> 0 <= n <= ring_buffer_size b ->
  ring_ok (ring_buffer_consume n b) /\ contents (ring_buffer_consume n b) = drop (Z.to_nat n) (contents b).
Proof.
  intros Hb Hn. pose proof (capacity_pos b Hb) as Hc.
  assert (Hs : ring_buffer_size (ring_buffer_consume n b) = ring_buffer_size b - n) by (exact (size_consume b n Hn)).
  split.
  - destruct Hb. split; simpl; try done; [apply Z.mod_pos_bound; lia|]. change (ring_buffer_capacity (ring_buffer_consume n b)) with
      (ring_buffer_capacity b). lia.
  - apply contents_eq; [rewrite Hs, length_drop, contents_length; lia|]. intros j Hj. rewrite length_drop, contents_length in Hj.
    rewrite lookup_total_drop, contents_total by lia. unfold at_pos, ring_buffer_consume. simpl.
    change (ring_buffer_capacity _) with (ring_buffer_capacity b) at 1.
    rewrite <- Z.add_mod_idemp_l, u64_mod_capacity, Z.add_mod_idemp_l by (done || lia). do 3 f_equal. lia.
Qed.

(** Where the head is around the ring. *)
Lemma head_mask b : ring_ok b ->
  let c := ring_buffer_capacity b in let t := rb_tail b mod c in
  rb_head b mod c = if t + ring_buffer_size b <? c then t + ring_buffer_size b else t + ring_buffer_size b - c.
Proof.
  intros Hb. cbv zeta. pose proof (capacity_pos b Hb) as Hc. pose proof (ro_size b Hb) as Hs. pose proof (ring_size_range b).
  pose proof (head_pos b 0 Hb) as Eh. rewrite !Z.add_0_r in Eh. rewrite Eh, <- Z.add_mod_idemp_l by lia.
  pose proof (Z.mod_pos_bound (rb_tail b) (ring_buffer_capacity b) Hc). apply mod_once; lia.
Qed.

(** The data is where the vectors for sending say, in order. *)
Definition gather (b : wl_ring_buffer) (iov : list (Z * Z)) : option (list Z) :=
  foldr (fun '(o, n) acc => load (Z.to_nat o) (Z.to_nat n) (rb_data b) ≫= fun l => (app l) <$> acc) (Some []) iov.

Theorem ring_buffer_get_iov_spec b : ring_ok b -> 0 < ring_buffer_size b ->
  gather b (ring_buffer_get_iov b) = Some (contents b).
Proof.
  intros Hb Hpos. pose proof (capacity_pos b Hb) as Hc. pose proof (ro_data b Hb) as Hl. pose proof (ro_size b Hb) as Hs.
  pose proof (tail_pieces b (ring_buffer_size b) Hb ltac:(lia)) as Hp. cbv zeta in Hp.
  rewrite (take_ge (contents b)) in Hp by (rewrite contents_length; lia). revert Hp.
  unfold ring_buffer_get_iov. rewrite !mask_mod by apply (ro_bits b Hb).
  pose proof (head_mask b Hb) as Eh'. cbv zeta in Eh'.
  set (c := ring_buffer_capacity b) in *. set (t := rb_tail b mod c) in *. set (h := rb_head b mod c) in *.
  assert (Ht : 0 <= t < c) by (by apply Z.mod_pos_bound). assert (Hh : 0 <= h < c) by (by apply Z.mod_pos_bound).
  intros Hp. destruct (Z.ltb_spec (t + ring_buffer_size b) c).
  - replace (t <? h) with true by lia. cbn [gather foldr]. rewrite load_total by lia. simpl. rewrite app_nil_r, <- Hp.
    rewrite Z.min_l, Z.sub_diag, app_nil_r by lia. do 3 f_equal. lia.
  - replace (t <? h) with false by lia. rewrite Z.min_r in Hp by lia. destruct (Z.eqb_spec h 0).
    + cbn [gather foldr]. rewrite load_total by lia. simpl. rewrite app_nil_r, <- Hp.
      by replace (ring_buffer_size b - (c - t)) with 0 by lia; rewrite app_nil_r.
    + cbn [gather foldr]. rewrite !load_total by lia. simpl. rewrite app_nil_r, <- Hp. do 3 f_equal. lia.
Qed.

(** ** Reading into the buffer *)

(** recvmsg writes what it read into the vectors, in order. *)
Fixpoint scatter (iov : list (Z * Z)) (bytes mem : list Z) : option (list Z) :=
  match iov with
  | [] => if (length bytes =? 0)%nat then Some mem else None
  | (o, n) :: iov => store (Z.to_nat o) (take (Z.to_nat n) bytes) mem ≫= scatter iov (drop (Z.to_nat n) bytes)
  end.

Lemma store_nil off mem : (off <= length mem)%nat -> store off [] mem = Some mem.
Proof. intros Hl. rewrite store_total; [done|simpl; lia]. Qed.

Lemma iov_total b : ring_ok b -> ring_buffer_size b < ring_buffer_capacity b ->
  sum_list_with snd (map (fun '(o, n) => (Z.to_nat o, Z.to_nat n)) (ring_buffer_put_iov b)) =
  Z.to_nat (ring_buffer_capacity b - ring_buffer_size b) /\
  let h := rb_head b mod ring_buffer_capacity b in
  match ring_buffer_put_iov b with
  | [(o, n)] => o = h /\ 0 <= n /\ h + n <= ring_buffer_capacity b
  | [(o, n); (o', n')] => o = h /\ n = ring_buffer_capacity b - h /\ o' = 0 /\ 0 <= n' <= h
  | _ => False
  end.
Proof.
  intros Hb Hlt. pose proof (capacity_pos b Hb) as Hc. pose proof (ring_size_range b) as Hr.
  unfold ring_buffer_put_iov. rewrite !mask_mod by apply (ro_bits b Hb).
  pose proof (head_mask b Hb) as Eh'. cbv zeta in Eh'.
  set (c := ring_buffer_capacity b) in *. set (t := rb_tail b mod c) in *. set (h := rb_head b mod c) in *.
  assert (Ht : 0 <= t < c) by (by apply Z.mod_pos_bound). assert (Hh : 0 <= h < c) by (by apply Z.mod_pos_bound).
  destruct (Z.ltb_spec (t + ring_buffer_size b) c), (Z.ltb_spec h t); try (simpl; lia); destruct (Z.eqb_spec t 0); simpl; lia.
Qed.

Lemma advance_zero b : ring_ok b -> ring_buffer_advance 0 (b <{ rb_data := rb_data b }>) = b.
Proof.
  intros Hb. pose proof (ro_head b Hb). unfold ring_buffer_advance, u64. cbv [modify]. rewrite Z.add_0_r, Z.mod_small by done.
  by destruct b.
Qed.

(** Reading at most what fits is the same as putting the data. *)
Theorem ring_buffer_put_iov_spec b bytes : ring_ok b -> ring_buffer_size b < ring_buffer_capacity b ->
  Z.of_nat (length bytes) <= ring_buffer_capacity b - ring_buffer_size b ->
  exists mem, scatter (ring_buffer_put_iov b) bytes (rb_data b) = Some mem /\
    ring_buffer_put b bytes = Some (ring_buffer_advance (Z.of_nat (length bytes)) (b <{ rb_data := mem }>)).
Proof.
  intros Hb Hlt Hn. destruct (iov_total b Hb Hlt) as [Ht Hv]. cbv zeta in Hv.
  pose proof (ro_data b Hb) as Hl. pose proof (ring_size_range b) as Hr. pose proof (capacity_pos b Hb) as Hc.
  unfold ring_buffer_put. rewrite mask_mod by apply (ro_bits b Hb).
  set (c := ring_buffer_capacity b) in *. set (h := rb_head b mod c) in *.
  assert (Hh : 0 <= h < c) by (by apply Z.mod_pos_bound).
  destruct (ring_buffer_put_iov b) as [|[o n] [|[o' n'] [|? ?]]]; try done; simpl in Ht.
  - destruct Hv as (-> & Hn0 & Hhn). cbn [scatter]. rewrite take_ge, drop_ge by lia.
    rewrite store_total by lia. cbn [mbind option_bind length Nat.eqb]. eexists. split; [done|].
    destruct (Z.eqb_spec (Z.of_nat (length bytes)) 0) as [E|E].
    + destruct bytes; [|simpl in E; lia]. by rewrite <- (advance_zero b Hb) at 1.
    + replace (_ <=? c) with true by lia. by rewrite ?store_total by lia.
  - destruct Hv as (-> & -> & -> & Hn'). cbn [scatter].
    assert (Htk : (length (take (Z.to_nat (c - h)) bytes) <= Z.to_nat (c - h))%nat) by (rewrite length_take; lia).
    rewrite store_total by lia. cbn [mbind option_bind]. rewrite (take_ge (drop _ bytes)), drop_drop, (drop_ge bytes (_ + _)%nat)
      by (rewrite ?length_drop; lia).
    rewrite store_total by (rewrite length_inserts, length_drop; lia). cbn [mbind option_bind length Nat.eqb]. eexists. split; [done|].
    destruct (Z.eqb_spec (Z.of_nat (length bytes)) 0) as [E|E].
    + destruct bytes; [|simpl in E; lia]. rewrite take_nil, drop_nil. by rewrite <- (advance_zero b Hb) at 1.
    + destruct (Z.leb_spec (h + Z.of_nat (length bytes)) c).
      * rewrite (take_ge bytes), (drop_ge bytes) by lia. by rewrite store_total by lia.
      * rewrite store_total by (rewrite length_inserts, length_drop; lia). done.
Qed.

(** ** Making space *)

Lemma grow_bits_spec fuel bits size : 0 <= bits <= 64 -> 64 - bits <= Z.of_nat fuel -> size <= 2 ^ 64 ->
  bits <= grow_bits fuel bits size <= 64 /\ size <= 2 ^ grow_bits fuel bits size /\
  (size <= 2 ^ 63 -> bits < 64 -> grow_bits fuel bits size < 64).
Proof.
  revert bits. induction fuel as [|fuel IH]; intros bits Hb Hf Hs; cbn [grow_bits].
  { assert (bits = 64) as -> by lia. lia. }
  destruct (Z.ltb_spec bits 64); cbn [andb]; [|assert (bits = 64) as -> by lia; lia].
  rewrite size_pot_pow by lia. destruct (Z.ltb_spec (2 ^ bits) size); [|lia].
  destruct (IH (bits + 1)) as (I1 & I2 & I3); [lia..|]. split_and!; [lia|lia|done|]. intros Hs' _.
  apply I3; [done|]. destruct (Z.eq_dec bits 63) as [->|]; lia.
Qed.

(** The limit of a buffer: none, or at least the default size. *)
Definition limit_ok (b : wl_ring_buffer) : Prop := max_size_bits b = 0 \/ WL_BUFFER_DEFAULT_SIZE_POT <= max_size_bits b <= 64.

Lemma max_bits_ok size : 0 <= size <= 2 ^ 64 ->
  get_max_size_bits_for_size size = 0 \/ WL_BUFFER_DEFAULT_SIZE_POT <= get_max_size_bits_for_size size <= 64.
Proof.
  intros Hs. unfold get_max_size_bits_for_size, WL_BUFFER_DEFAULT_SIZE_POT. destruct (size =? 0); [by left|right].
  destruct (grow_bits_spec 64 12 size) as (I & _); lia.
Qed.

(** The size chosen for [n] bytes holds them, unless the limit is lower. *)
Lemma bits_for_size b n : limit_ok b -> 0 <= n <= 2 ^ 63 ->
  let bits := ring_buffer_get_bits_for_size b n in
  WL_BUFFER_DEFAULT_SIZE_POT <= bits < 64 /\ (n <= 2 ^ bits \/ 0 < max_size_bits b /\ bits = max_size_bits b).
Proof.
  unfold limit_ok, ring_buffer_get_bits_for_size, get_max_size_bits_for_size, WL_BUFFER_DEFAULT_SIZE_POT. intros Hm Hn. cbv zeta.
  assert (Hg : 12 <= Z.max (if n =? 0 then 0 else grow_bits 64 12 n) 12 < 64 /\
    n <= 2 ^ Z.max (if n =? 0 then 0 else grow_bits 64 12 n) 12).
  { destruct (Z.eqb_spec n 0) as [->|]; [simpl; lia|]. destruct (grow_bits_spec 64 12 n) as (I1 & I2 & I3); [lia..|].
    rewrite Z.max_l by lia. split; [|done]. split; [lia|]. apply I3; lia. }
  destruct Hg as [H1 H2]. destruct ((max_size_bits b >? 0) && _) eqn:E; [|by split; [|left]]. split; [lia|right]. lia.
Qed.

(** A buffer without memory yet. *)
Definition ring_fresh (b : wl_ring_buffer) : Prop := rb_data b = [] /\ rb_head b = 0 /\ rb_tail b = 0 /\ size_bits b = 0.

Record ring_inv (b : wl_ring_buffer) : Prop := {
  ri_limit : limit_ok b;
  ri_memory : ring_ok b /\ WL_BUFFER_DEFAULT_SIZE_POT <= size_bits b \/ ring_fresh b }.

Lemma fresh_size b : ring_fresh b -> ring_buffer_size b = 0.
Proof. intros (_ & E1 & E2 & _). unfold ring_buffer_size. by rewrite E1, E2. Qed.

Lemma fresh_contents b : ring_fresh b -> contents b = [].
Proof. intros Hf. unfold contents. by rewrite (fresh_size b Hf). Qed.

Lemma copy_all b : ring_inv b -> ring_buffer_copy b (ring_buffer_size b) = Some (contents b).
Proof.
  intros [_ [[Hb _]|Hf]].
  - rewrite ring_buffer_copy_spec by (done || pose proof (ring_size_range b); lia).
    by rewrite take_ge by (rewrite contents_length; lia).
  - by rewrite (fresh_size b Hf), (fresh_contents b Hf).
Qed.

(** Moving to a new memory keeps the data. *)
Lemma allocate_spec b bits : ring_inv b -> WL_BUFFER_DEFAULT_SIZE_POT <= bits < 64 -> ring_buffer_size b <= 2 ^ bits ->
  exists b', ring_buffer_allocate true b bits = Some (b', true) /\ ring_inv b' /\ contents b' = contents b /\
    ring_buffer_size b' = ring_buffer_size b /\ size_bits b' = bits /\ max_size_bits b' = max_size_bits b.
Proof.
  intros Hb Hbits Hs. unfold WL_BUFFER_DEFAULT_SIZE_POT in *. pose proof (ring_size_range b) as Hr.
  assert (Hpos : 0 < 2 ^ bits) by (apply Z.pow_pos_nonneg; lia).
  assert (Hp64 : 2 ^ bits < 2 ^ 64) by (apply Z.pow_lt_mono_r; lia).
  assert (Hlen : length (contents b) = Z.to_nat (ring_buffer_size b)) by apply contents_length.
  unfold ring_buffer_allocate. cbn [negb]. rewrite copy_all by done. cbn [mbind option_bind].
  rewrite size_pot_pow, store_total by (rewrite ?length_replicate; lia). cbn [mbind option_bind].
  set (mem := list_inserts 0 (contents b) _).
  set (b' := _ <{ rb_head := _ }> <{ rb_tail := 0 }>). exists b'. split; [done|].
  assert (Hcap : ring_buffer_capacity b' = 2 ^ bits) by (unfold ring_buffer_capacity; simpl; by rewrite size_pot_pow by lia).
  assert (Hsize : ring_buffer_size b' = ring_buffer_size b).
  { unfold ring_buffer_size at 1. simpl. rewrite Z.sub_0_r. unfold u64. apply Z.mod_small. lia. }
  split_and!; [|apply contents_eq|done|done|done].
  - split; [apply Hb|]. left. split; [|unfold WL_BUFFER_DEFAULT_SIZE_POT; simpl; lia]. split.
    + simpl. lia.
    + rewrite Hcap. simpl. unfold mem. rewrite length_inserts, length_replicate. lia.
    + simpl. lia.
    + simpl. lia.
    + rewrite Hsize, Hcap. lia.
    + simpl. destruct Hb as [[E|E] _]; unfold WL_BUFFER_DEFAULT_SIZE_POT in *; lia.
  - rewrite Hsize. lia.
  - intros j Hj. unfold at_pos. rewrite Hcap. change (rb_tail b') with 0. change (rb_data b') with mem.
    rewrite Z.mod_small, Z.add_0_l, Nat2Z.id by lia. unfold mem.
    rewrite inserts_total by (rewrite length_replicate; lia). rewrite Nat.sub_0_r.
    by replace (_ && _) with true by lia.
Qed.

(** Making space for [count] bytes keeps the data and makes it, or fails and changes nothing:
    when the limit of the buffer is reached, or when there is no memory. *)
Theorem ensure_space_spec alloc_ok b count : ring_inv b -> 0 <= count -> ring_buffer_size b + count <= 2 ^ 63 ->
  exists b' e, ring_buffer_ensure_space alloc_ok b count = Some (b', e) /\ ring_inv b' /\
    contents b' = contents b /\ ring_buffer_size b' = ring_buffer_size b /\ max_size_bits b' = max_size_bits b /\
    match e with
    | None => ring_ok b' /\ ring_buffer_size b' + count <= ring_buffer_capacity b'
    | Some E2BIG => b' = b /\ 0 < max_size_bits b /\ 2 ^ max_size_bits b < ring_buffer_size b + count
    | Some ENOMEM => b' = b /\ alloc_ok = false
    end.
Proof.
  intros Hb Hc Hn. pose proof (ring_size_range b) as Hr. pose proof (ri_limit b Hb) as Hlim.
  unfold ring_buffer_ensure_space. set (n := u64 _). assert (En : n = ring_buffer_size b + count) by (apply Z.mod_small; lia).
  clearbody n. subst n. destruct (bits_for_size b (ring_buffer_size b + count) Hlim ltac:(lia)) as [Hbits Hfit].
  set (bits := ring_buffer_get_bits_for_size b _) in *. clearbody bits. unfold WL_BUFFER_DEFAULT_SIZE_POT in *.
  rewrite size_pot_pow by lia. destruct (Z.gtb_spec (ring_buffer_size b + count) (2 ^ bits)) as [Hbig|Hfits].
  { exists b, (Some E2BIG). split_and!; [done..| |]; destruct Hfit as [?|[? ->]]; lia. }
  destruct (Z.eqb_spec bits (size_bits b)) as [->|Hne].
  - exists b, None. assert (Hok : ring_ok b) by (destruct Hb as [_ [[? _]|(_ & _ & _ & E)]]; [done|lia]).
    split_and!; [done..|]. unfold ring_buffer_capacity. by rewrite size_pot_pow by lia.
  - destruct alloc_ok; [|by exists b, (Some ENOMEM)].
    destruct (allocate_spec b bits) as (b' & -> & Hinv & Hcon & Hsz & Hbs & Hmx); [done|done|lia|].
    exists b', None. cbn [fst snd fmap option_fmap option_map]. split_and!; [done..| |].
    + destruct Hinv as [_ [[? _]|(_ & _ & _ & E)]]; [done|lia].
    + unfold ring_buffer_capacity. rewrite Hbs, Hsz, size_pot_pow by lia. lia.
Qed.

(** ** Buffers as queues *)

Lemma size_contents b : ring_buffer_size b = Z.of_nat (length (contents b)).
Proof. rewrite contents_length. pose proof (ring_size_range b). lia. Qed.

Lemma inv_copy b n : ring_inv b -> 0 <= n <= ring_buffer_size b -> ring_buffer_copy b n = Some (take (Z.to_nat n) (contents b)).
Proof.
  intros [_ [[Hb _]|Hf]] Hn; [by apply ring_buffer_copy_spec|]. pose proof (fresh_size b Hf). assert (n = 0) as -> by lia. done.
Qed.

Lemma inv_consume b n : ring_inv b -> 0 <= n <= ring_buffer_size b ->
  ring_inv (ring_buffer_consume n b) /\ contents (ring_buffer_consume n b) = drop (Z.to_nat n) (contents b).
Proof.
  intros [Hl [[Hb Hs]|Hf]] Hn.
  - destruct (consume_spec b n Hb Hn) as [H1 H2]. split; [|done]. split; [done|]. left. by split.
  - pose proof (fresh_size b Hf). assert (n = 0) as -> by lia. destruct Hf as (E1 & E2 & E3 & E4).
    assert (E : ring_buffer_consume 0 b = b) by (destruct b; simpl in *; by subst). rewrite E. split; [|done]. split; [done|right]. done.
Qed.

Lemma inv_put b data : ring_inv b -> ring_ok b -> ring_buffer_size b + Z.of_nat (length data) <= ring_buffer_capacity b ->
  exists b', ring_buffer_put b data = Some b' /\ ring_inv b' /\ contents b' = contents b ++ data.
Proof.
  intros [Hl Hm] Hb Hn. destruct (ring_buffer_put_spec b data Hb Hn) as (b' & E & Hb' & Hc & Hs & Hx & Ht).
  exists b'. split; [done|]. split; [|done]. split; [unfold limit_ok; by rewrite Hx|]. destruct Hm as [[_ Hk]|Hf].
  - left. by rewrite Hs.
  - destruct data as [|x data]; [|].
    + injection E as <-. by right.
    + pose proof (ro_data b Hb) as Hd. destruct Hf as (E1 & _). rewrite E1 in Hd. pose proof (capacity_pos b Hb). simpl in *. lia.
Qed.

Lemma zero_inv : ring_inv ring_zero.
Proof. split; [by left|by right]. Qed.
