(* ===== verification/ObjectMap.v ===== *)
(** * The objects of a Wayland client

    Models struct wl_map of src/libs/wayland/src/wayland-util.c, which gives every object of a
    client its id: the entries are words, which hold a pointer and a flag, or, with the low
    bit set, a link of the list of free entries.  Memory accesses outside of the entries are
    [None]. *)

From S2P Require Import Prelude.

Definition WL_MAP_SERVER_SIDE : Z := 0.
Definition WL_MAP_CLIENT_SIDE : Z := 1.
Definition WL_SERVER_ID_START : Z := 0xff000000.
Definition WL_MAP_MAX_OBJECTS : Z := 0x00f00000.
Definition WL_MAP_ENTRY_ZOMBIE : Z := 1.

(** An array of words: its memory up to [size], and how much is allocated. *)
Record wl_array := Array { arr_words : list Z; arr_alloc : Z }.
Record wl_map := Map { client_entries : wl_array; server_entries : wl_array; side : Z; free_list : Z }.

#[export] Instance map_fields : Fields wl_map := {| rebuild := fun m =>
  Map (client_entries m) (server_entries m) (side m) (free_list m) |}.

(** What the allocator does: whether it has memory, and what fresh memory holds. *)
Record allocator := Allocator { alloc_ok : bool; junk : Z }.

Definition arr_count (a : wl_array) : Z := Z.of_nat (length (arr_words a)).
Definition arr_size (a : wl_array) : Z := 8 * arr_count a.

(** ** Arrays *)

Fixpoint grow_alloc (fuel : nat) (alloc need : Z) : Z :=
  match fuel with
  | O => alloc
  | S fuel => if alloc <? need then grow_alloc fuel (2 * alloc) need else alloc
  end.

(** One more word; the index of the word, or nothing. *)
Definition wl_array_add (h : allocator) (a : wl_array) : wl_array * option Z :=
  let alloc := grow_alloc 64 (if arr_alloc a >? 0 then arr_alloc a else 16) (arr_size a + 8) in
  if (arr_alloc a <? alloc) && negb (alloc_ok h) then (a, None)
  else (Array (arr_words a ++ [junk h]) (if arr_alloc a <? alloc then alloc else arr_alloc a), Some (arr_count a)).

Definition peek (a : wl_array) (i : Z) : option Z := if 0 <=? i then arr_words a !! Z.to_nat i else None.
Definition poke (a : wl_array) (i w : Z) : option wl_array :=
  if (0 <=? i) && (i <? arr_count a) then Some (Array (<[Z.to_nat i := w]> (arr_words a)) (arr_alloc a)) else None.

(** ** Entries *)

Definition map_entry_is_free (w : Z) : bool := negb (Z.land w 1 =? 0).
Definition map_entry_get_data (w : Z) : Z := Z.land w (2 ^ 64 - 4).
Definition map_entry_get_flags (w : Z) : Z := Z.land (Z.shiftr w 1) 1.
(** [entry->data = data; entry->next |= (flags & 0x1) << 1]. *)
Definition map_entry_set (flags data : Z) : Z := Z.lor data (Z.shiftl (Z.land flags 1) 1).

(** ** Operations *)

Inductive map_error := EINVAL | ENOSPC | ENOMEM.

Definition wl_map_init (s : Z) : wl_map := Map (Array [] 0) (Array [] 0) s 0.

(** The entries that new ids are taken from, and their first id. *)
Definition own_entries (m : wl_map) : wl_array := if side m =? WL_MAP_CLIENT_SIDE then client_entries m else server_entries m.
Definition own_base (m : wl_map) : Z := if side m =? WL_MAP_CLIENT_SIDE then 0 else WL_SERVER_ID_START.
Definition set_own_entries (a : wl_array) (m : wl_map) : wl_map :=
  if side m =? WL_MAP_CLIENT_SIDE then m <{ client_entries := a }> else m <{ server_entries := a }>.

(** Returns the new id, 0 for an error. *)
Definition wl_map_insert_new (h : allocator) (m : wl_map) (flags data : Z) : option (wl_map * Z) :=
  let finish m i :=
    if i >? WL_MAP_MAX_OBJECTS then poke (own_entries m) i 0 ≫= fun a => Some (set_own_entries a m, 0)
    else poke (own_entries m) i (map_entry_set flags data) ≫= fun a => Some (set_own_entries a m, i + own_base m) in
  if negb (free_list m =? 0) then
    let i := Z.shiftr (free_list m) 1 in
    peek (own_entries m) i ≫= fun next => finish (m <{ free_list := u32 next }>) i
  else match wl_array_add h (own_entries m) with
       | (_, None) => Some (m, 0)
       | (a, Some i) => finish (set_own_entries a m) i
       end.

(** Which entries an id is in, and where. *)
Definition id_entries (m : wl_map) (i : Z) : wl_array := if i <? WL_SERVER_ID_START then client_entries m else server_entries m.
Definition id_index (i : Z) : Z := if i <? WL_SERVER_ID_START then i else i - WL_SERVER_ID_START.
Definition set_id_entries (i : Z) (a : wl_array) (m : wl_map) : wl_map :=
  if i <? WL_SERVER_ID_START then m <{ client_entries := a }> else m <{ server_entries := a }>.

Definition wl_map_insert_at (h : allocator) (m : wl_map) (flags id data : Z) : option (wl_map * option map_error) :=
  let i := id_index id in
  let store a := poke a i (map_entry_set flags data) ≫= fun a => Some (set_id_entries id a m, None) in
  if i >? WL_MAP_MAX_OBJECTS then Some (m, Some ENOSPC)
  else if arr_count (id_entries m id) <? i then Some (m, Some EINVAL)
  else if arr_count (id_entries m id) =? i then
    match wl_array_add h (id_entries m id) with
    | (_, None) => Some (m, Some ENOMEM)
    | (a, Some _) => store a
    end
  else store (id_entries m id).

Definition wl_map_reserve_new (h : allocator) (m : wl_map) (id : Z) : option (wl_map * option map_error) :=
  let i := id_index id in
  if (if id <? WL_SERVER_ID_START then side m =? WL_MAP_CLIENT_SIDE else side m =? WL_MAP_SERVER_SIDE)
  then Some (m, Some EINVAL)
  else if i >? WL_MAP_MAX_OBJECTS then Some (m, Some ENOSPC)
  else if arr_count (id_entries m id) <? i then Some (m, Some EINVAL)
  else if arr_count (id_entries m id) =? i then
    match wl_array_add h (id_entries m id) with
    | (_, None) => Some (m, Some ENOMEM)
    | (a, Some _) => poke a i 0 ≫= fun a => Some (set_id_entries id a m, None)
    end
  else peek (id_entries m id) i ≫= fun w => Some (m, if negb (w =? 0) then Some EINVAL else None).

Definition wl_map_remove (m : wl_map) (id : Z) : option wl_map :=
  let i := id_index id in
  if (if id <? WL_SERVER_ID_START then side m =? WL_MAP_SERVER_SIDE else side m =? WL_MAP_CLIENT_SIDE) then Some m
  else poke (id_entries m id) i (free_list m) ≫= fun a =>
    Some ((set_id_entries id a m) <{ free_list := Z.lor (u32 (Z.shiftl i 1)) 1 }>).

(** The word of an id that is in use. *)
Definition used_entry (m : wl_map) (id : Z) : option Z :=
  if id_index id <? arr_count (id_entries m id)
  then peek (id_entries m id) (id_index id) ≫= fun w => if map_entry_is_free w then None else Some w else None.

Definition wl_map_lookup (m : wl_map) (id : Z) : Z := from_option map_entry_get_data 0 (used_entry m id).
Definition wl_map_lookup_flags (m : wl_map) (id : Z) : Z := from_option map_entry_get_flags 0 (used_entry m id).

Definition wl_object_is_zombie (m : wl_map) (id : Z) : bool :=
  if side m =? WL_MAP_SERVER_SIDE then false
  else if id >=? WL_SERVER_ID_START then false
  else negb (Z.land (wl_map_lookup_flags m id) WL_MAP_ENTRY_ZOMBIE =? 0).

Inductive wl_iterator_result := WL_ITERATOR_STOP | WL_ITERATOR_CONTINUE.

(** [func] may change everything, the map included: the entries are read again for each index. *)
Section ForEach.
Context {S : Type} (func : Z -> Z -> S -> S * wl_iterator_result).

Fixpoint for_each_helper (fuel : nat) (entries : S -> wl_array) (idx : Z) (ret : wl_iterator_result) (s : S)
    : S * wl_iterator_result :=
  match fuel with
  | O => (s, ret)
  | Datatypes.S fuel =>
      if idx >=? arr_count (entries s) then (s, ret)
      else match peek (entries s) idx with
           | None => (s, ret)
           | Some w =>
               if negb (w =? 0) && negb (map_entry_is_free w) then
                 match func (map_entry_get_data w) (map_entry_get_flags w) s with
                 | (s, WL_ITERATOR_CONTINUE) => for_each_helper fuel entries (idx + 1) WL_ITERATOR_CONTINUE s
                 | (s, ret) => (s, ret)
                 end
               else for_each_helper fuel entries (idx + 1) ret s
           end
  end.

Definition wl_map_for_each (fuel : nat) (map_of : S -> wl_map) (s : S) : S :=
  match for_each_helper fuel (fun s => client_entries (map_of s)) 0 WL_ITERATOR_CONTINUE s with
  | (s, WL_ITERATOR_CONTINUE) => fst (for_each_helper fuel (fun s => server_entries (map_of s)) 0 WL_ITERATOR_CONTINUE s)
  | (s, _) => s
  end.
End ForEach.

(** ** Words *)

Definition aligned (d : Z) : Prop := 0 <= d < 2 ^ 64 /\ d mod 4 = 0.
(** A word that is not free. *)
Definition used_word (w : Z) : Prop := exists d f, aligned d /\ w = map_entry_set f d.

Lemma land_1 x : Z.land x 1 = x mod 2.
Proof. exact (Z.land_ones x 1 ltac:(lia)). Qed.

Lemma entry_set_facts f d : aligned d ->
  map_entry_get_data (map_entry_set f d) = d /\ map_entry_get_flags (map_entry_set f d) = Z.land f 1 /\
  map_entry_is_free (map_entry_set f d) = false.
Proof.
  intros [Hd Hm]. assert (exists q, d = Z.shiftl q 2 /\ 0 <= q < 2 ^ 62) as (q & -> & Hq).
  { exists (d / 4). rewrite Z.shiftl_mul_pow2 by lia. change (2 ^ 2) with 4. pose proof (Z.div_mod d 4). lia. }
  unfold map_entry_get_data, map_entry_get_flags, map_entry_is_free, map_entry_set.
  change (2 ^ 64 - 4) with (Z.shiftl (Z.ones 62) 2). rewrite Z.shiftr_lor, !Z.land_lor_distr_l, <- Z.shiftl_land, Z.land_ones,
    (Z.mod_small q) by lia.
  rewrite Z.shiftr_shiftl_l by lia. rewrite !land_1, !Z.shiftl_mul_pow2 by lia.
  rewrite (Z_mod_mult q), (Z.mul_comm q (2 ^ 2)). change (2 ^ 2) with (2 * 2). rewrite <- Z.mul_assoc, (Z.mul_comm 2), Z_mod_mult.
  destruct (Z.mod_pos_bound f 2); [lia|]. assert (f mod 2 = 0 \/ f mod 2 = 1) as [E|E] by lia; change (2 ^ 1) with 2; rewrite E;
    (split_and!; [by rewrite Z.lor_0_r|done..]).
Qed.

Lemma used_zero : used_word 0.
Proof. exists 0, 0. by split; [split|]. Qed.

(** ** Arrays, by what their indices hold *)

(** [a'] is [a] with the word [w] at [i], which may be the first index after its end. *)
Record put (a : wl_array) (i w : Z) (a' : wl_array) : Prop := {
  put_range : 0 <= i <= arr_count a;
  put_peek : forall j, peek a' j = if j =? i then Some w else peek a j;
  put_count : arr_count a' = Z.max (arr_count a) (i + 1) }.

Lemma poke_put a i w : 0 <= i < arr_count a -> exists a', poke a i w = Some a' /\ put a i w a'.
Proof.
  unfold poke, arr_count. intros Hi. replace (_ && _) with true by lia. eexists. split; [done|]. split.
  - unfold arr_count. lia.
  - intros j. unfold peek. simpl. destruct (Z.eqb_spec j i) as [->|].
    + replace (0 <=? i) with true by lia. rewrite list_lookup_insert_eq by lia. done.
    + destruct (Z.leb_spec 0 j); [|done]. by rewrite list_lookup_insert_ne by lia.
  - unfold arr_count. simpl. rewrite length_insert. lia.
Qed.

Lemma peek_range a i : 0 <= i < arr_count a <-> is_Some (peek a i).
Proof.
  unfold peek, arr_count. destruct (Z.leb_spec 0 i); [rewrite lookup_lt_is_Some; lia|]. split; [lia|]. by intros [? ?].
Qed.

Lemma add_poke_put h a a' k w : wl_array_add h a = (a', Some k) ->
  k = arr_count a /\ exists a'', poke a' (arr_count a) w = Some a'' /\ put a (arr_count a) w a''.
Proof.
  unfold wl_array_add. destruct (_ && _); [done|]. intros [= <- <-]. split; [done|].
  set (a' := Array _ _). assert (Hc : arr_count a' = arr_count a + 1) by (unfold arr_count; simpl; rewrite length_app; simpl; lia).
  assert (Hr : 0 <= arr_count a) by (unfold arr_count; lia).
  destruct (poke_put a' (arr_count a) w ltac:(lia)) as (a'' & -> & [H1 H2 H3]). exists a''. split; [done|]. split; [lia| |lia].
  intros j. rewrite H2. destruct (Z.eqb_spec j (arr_count a)); [done|]. unfold peek. simpl.
  destruct (Z.leb_spec 0 j); [|done]. unfold arr_count in *. destruct (decide (j < Z.of_nat (length (arr_words a)))).
  - by rewrite lookup_app_l by lia.
  - rewrite (lookup_ge_None_2 (arr_words a)) by lia. apply lookup_ge_None_2. rewrite length_app. simpl. lia.
Qed.

(** The array has room for the new word: the loop over the sizes ends in time. *)
Lemma grow_alloc_enough fuel alloc need : 0 < alloc -> need <= 2 ^ Z.of_nat fuel * alloc ->
  need <= grow_alloc fuel alloc need.
Proof.
  revert alloc. induction fuel as [|fuel IH]; intros alloc Ha Hn; cbn [grow_alloc]; [lia|].
  destruct (Z.ltb_spec alloc need); [|lia]. apply IH; [lia|]. rewrite Nat2Z.inj_succ, Z.pow_succ_r in Hn by lia. lia.
Qed.

(** ** Maps, by what their ids hold *)

Definition word (m : wl_map) (id : Z) : option Z := peek (id_entries m id) (id_index id).

(** Whether new ids of the map are on the side of this one. *)
Definition own (m : wl_map) (id : Z) : bool := if id <? WL_SERVER_ID_START then side m =? WL_MAP_CLIENT_SIDE else side m =? WL_MAP_SERVER_SIDE.

Definition id_ok (id : Z) : Prop := 0 <= id < 2 ^ 32.

(** The free list: the indices that it goes through. *)
Fixpoint chain (a : wl_array) (link : Z) (l : list Z) : Prop :=
  match l with
  | [] => link = 0
  | i :: l => link = 2 * i + 1 /\ exists next, peek a i = Some next /\ chain a next l
  end.

Record map_ok (m : wl_map) (l : list Z) : Prop := {
  mo_side : side m = WL_MAP_SERVER_SIDE \/ side m = WL_MAP_CLIENT_SIDE;
  mo_chain : chain (own_entries m) (free_list m) l;
  mo_nodup : NoDup l;
  mo_small : Forall (fun i => 0 <= i <= WL_MAP_MAX_OBJECTS) l;
  mo_words : forall id w, id_ok id -> word m id = Some w -> own m id = true /\ id_index id ∈ l \/ used_word w;
  mo_big : forall id w, id_ok id -> word m id = Some w -> WL_MAP_MAX_OBJECTS < id_index id -> w = 0 }.

(** The object of an id: its pointer and its flag.  The entries of the free list and those
    past the limit have none. *)
Definition object_of (m : wl_map) (l : list Z) (id : Z) : option (Z * Z) :=
  if (id_index id <? arr_count (id_entries m id)) && (id_index id <=? WL_MAP_MAX_OBJECTS)
     && negb (own m id && bool_decide (id_index id ∈ l))
  then Some (wl_map_lookup m id, wl_map_lookup_flags m id) else None.

(** What a word says. *)
Definition view_word (w : Z) : Z * Z := if map_entry_is_free w then (0, 0) else (map_entry_get_data w, map_entry_get_flags w).

Lemma used_entry_word m id : used_entry m id = word m id ≫= fun w => if map_entry_is_free w then None else Some w.
Proof.
  unfold used_entry, word. destruct (Z.ltb_spec (id_index id) (arr_count (id_entries m id))); [done|].
  destruct (peek _ _) eqn:E; [|done]. pose proof (proj2 (peek_range _ _) (mk_is_Some _ _ E)). lia.
Qed.

Lemma lookups_word m id :
  (wl_map_lookup m id, wl_map_lookup_flags m id) = from_option view_word (0, 0) (word m id).
Proof.
  unfold wl_map_lookup, wl_map_lookup_flags, view_word. rewrite used_entry_word.
  destruct (word m id) as [w|]; [|done]. simpl. by destruct (map_entry_is_free w).
Qed.

Lemma object_of_word m l id : 0 <= id_index id -> object_of m l id = word m id ≫= fun w =>
  if (id_index id <=? WL_MAP_MAX_OBJECTS) && negb (own m id && bool_decide (id_index id ∈ l)) then Some (view_word w) else None.
Proof.
  intros Hi. unfold object_of. rewrite lookups_word. unfold word. pose proof (peek_range (id_entries m id) (id_index id)) as Hp.
  destruct (peek _ _) as [w|]; simpl.
  - replace (_ <? _) with true; [done|]. symmetry. apply Z.ltb_lt. by apply Hp.
  - destruct (Z.ltb_spec (id_index id) (arr_count (id_entries m id))); [|done]. destruct (proj1 Hp); [lia|done].
Qed.

Lemma id_index_range id : id_ok id -> 0 <= id_index id < WL_SERVER_ID_START.
Proof. unfold id_ok, id_index, WL_SERVER_ID_START. destruct (Z.ltb_spec id 0xff000000); lia. Qed.

Lemma view_used f d : aligned d -> view_word (map_entry_set f d) = (d, Z.land f 1).
Proof. intros Hd. destruct (entry_set_facts f d Hd) as (E1 & E2 & E3). unfold view_word. by rewrite E1, E2, E3. Qed.

(** A used word is 0 just when it says nothing. *)
Lemma view_zero w : used_word w -> w = 0 <-> view_word w = (0, 0).
Proof.
  intros (d & f & Hd & ->). rewrite view_used by done. unfold map_entry_set. split.
  - intros [-> E]%Z.lor_eq_0_iff. f_equal. by apply Z.shiftl_eq_0_iff in E.
  - intros [= -> ->]. done.
Qed.

(** ** The free list *)

Lemma link_view link : link = 0 \/ (exists i, link = 2 * i + 1) -> view_word link = (0, 0).
Proof.
  unfold view_word, map_entry_is_free. intros [->|[i ->]]; [done|]. rewrite land_1, Z.mul_comm, Z.add_comm, Z_mod_plus_full. done.
Qed.

Lemma link_index i : Z.shiftr (2 * i + 1) 1 = i.
Proof. rewrite Z.shiftr_div_pow2 by lia. symmetry. apply (Z.div_unique_pos _ 2 _ 1); lia. Qed.

Lemma chain_link a link l : chain a link l -> link = 0 \/ exists i, link = 2 * i + 1.
Proof. destruct l; [by left|]. intros [-> _]. eauto. Qed.

Lemma chain_member a link l i : chain a link l -> i ∈ l -> exists next, peek a i = Some next /\ view_word next = (0, 0).
Proof.
  revert link. induction l as [|k l IH]; intros link Hc Hi; [by apply not_elem_of_nil in Hi|].
  destruct Hc as (_ & next & Hn & Hc). apply elem_of_cons in Hi as [->|Hi]; [|by eapply IH].
  exists next. split; [done|]. eapply link_view, chain_link, Hc.
Qed.

Lemma chain_put a i w a' link l : put a i w a' -> i ∉ l -> chain a link l -> chain a' link l.
Proof.
  intros Hp. revert link. induction l as [|k l IH]; intros link Hi; [done|]. apply not_elem_of_cons in Hi as [Hk Hi].
  intros (-> & next & Hn & Hc). split; [done|]. exists next. split; [|by apply IH].
  rewrite (put_peek _ _ _ _ Hp). by replace (k =? i) with false by lia.
Qed.

(** ** Writing an entry *)

Lemma set_own_own m a : own_entries (set_own_entries a m) = a.
Proof. unfold own_entries, set_own_entries. by destruct (side m =? WL_MAP_CLIENT_SIDE) eqn:E; simpl; rewrite E. Qed.

Lemma set_set_own m a a' : set_own_entries a' (set_own_entries a m) = set_own_entries a' m.
Proof. unfold set_own_entries. by destruct (side m =? WL_MAP_CLIENT_SIDE) eqn:E; simpl; rewrite E. Qed.

Lemma set_own_base m a : own_base (set_own_entries a m) = own_base m.
Proof. unfold own_base, set_own_entries. by destruct (side m =? WL_MAP_CLIENT_SIDE) eqn:E; simpl; rewrite E. Qed.

Lemma own_entries_id m id : side m = WL_MAP_SERVER_SIDE \/ side m = WL_MAP_CLIENT_SIDE -> own m id = true ->
  own_entries m = id_entries m id /\ own_base m + id_index id = id /\ (forall a, set_own_entries a m = set_id_entries id a m).
Proof.
  unfold own, own_entries, own_base, id_entries, id_index, set_own_entries, set_id_entries, WL_MAP_CLIENT_SIDE, WL_MAP_SERVER_SIDE,
    WL_SERVER_ID_START.
  intros [-> | ->]; destruct (Z.ltb_spec id 0xff000000); simpl; (done || (intros _; split_and!; (done || lia))).
Qed.

Lemma put_word m id w a' : id_ok id -> put (id_entries m id) (id_index id) w a' ->
  forall id', id_ok id' -> word (set_id_entries id a' m) id' = if id' =? id then Some w else word m id'.
Proof.
  unfold word, id_ok, id_entries, id_index, set_id_entries. intros Hid [_ Hp _] id' Hid'.
  destruct (Z.ltb_spec id WL_SERVER_ID_START), (Z.ltb_spec id' WL_SERVER_ID_START); simpl;
    (rewrite Hp || (destruct (Z.eqb_spec id' id); [lia|done]));
    destruct (Z.eqb_spec id' id) as [->|]; rewrite ?Z.eqb_refl; try done; by replace (_ =? _) with false by lia.
Qed.

Lemma set_entries_same m id a' :
  side (set_id_entries id a' m) = side m /\ free_list (set_id_entries id a' m) = free_list m /\
  id_entries (set_id_entries id a' m) id = a'.
Proof. unfold set_id_entries, id_entries. by destruct (Z.ltb_spec id WL_SERVER_ID_START). Qed.

(** An entry of the other side does not touch the entries new ids come from. *)
Lemma set_entries_other m id a' : side m = WL_MAP_SERVER_SIDE \/ side m = WL_MAP_CLIENT_SIDE -> own m id = false ->
  own_entries (set_id_entries id a' m) = own_entries m.
Proof.
  unfold own, own_entries, set_id_entries, WL_MAP_CLIENT_SIDE, WL_MAP_SERVER_SIDE.
  intros [E|E]; destruct (id <? WL_SERVER_ID_START); simpl; rewrite ?E; done.
Qed.

Lemma own_inj m id id' : side m = WL_MAP_SERVER_SIDE \/ side m = WL_MAP_CLIENT_SIDE -> own m id = true -> own m id' = true ->
  id_index id = id_index id' -> id = id'.
Proof.
  intros Hs H1 H2 E. destruct (own_entries_id m id Hs H1) as (_ & <- & _). destruct (own_entries_id m id' Hs H2) as (_ & <- & _). lia.
Qed.

(** A used word keeps the invariant, where the entry is not free. *)
Lemma put_ok m l id w a' : map_ok m l -> id_ok id -> put (id_entries m id) (id_index id) w a' -> used_word w ->
  (own m id = true -> id_index id ∉ l) -> (WL_MAP_MAX_OBJECTS < id_index id -> w = 0) ->
  map_ok (set_id_entries id a' m) l.
Proof.
  intros [H1 H2 H3 H4 H5 H6] Hid Hput Hw Hl Hbig. pose proof (put_word m id w a' Hid Hput) as Hpw.
  destruct (set_entries_same m id a') as (Es & Ef & Ee). split; rewrite ?Es, ?Ef; try done.
  - destruct (own m id) eqn:Eo; [|by rewrite set_entries_other].
    destruct (own_entries_id m id H1 Eo) as (E1 & _ & _). destruct (own_entries_id (set_id_entries id a' m) id) as (E2 & _ & _).
    { by rewrite Es. } { unfold own. by rewrite Es. }
    rewrite E2, Ee. rewrite E1 in H2. by eapply chain_put; [|apply Hl|].
  - intros id' w' Hid' Hw'. rewrite Hpw in Hw' by done. unfold own. rewrite Es. fold (own m id').
    destruct (Z.eqb_spec id' id); [|by apply H5]. right. by injection Hw' as <-.
  - intros id' w' Hid' Hw'. rewrite Hpw in Hw' by done. destruct (Z.eqb_spec id' id) as [->|]; [|by eapply H6]. injection Hw' as <-. done.
Qed.

(** ** What the map promises: a table from ids to objects *)

Inductive map_call :=
| InsertNew (flags data : Z)
| InsertAt (flags id data : Z)
| ReserveNew (id : Z)
| Remove (id : Z).

(** A call and what it returns. *)
Definition run_call (h : allocator) (m : wl_map) (c : map_call) : option (wl_map * Z) :=
  let code (r : wl_map * option map_error) := (fst r, match snd r with None => 0 | Some _ => -1 end) in
  match c with
  | InsertNew flags data => wl_map_insert_new h m flags data
  | InsertAt flags id data => code <$> wl_map_insert_at h m flags id data
  | ReserveNew id => code <$> wl_map_reserve_new h m id
  | Remove id => (fun m => (m, 0)) <$> wl_map_remove m id
  end.

Definition own_id (s id : Z) : bool := if id <? WL_SERVER_ID_START then s =? WL_MAP_CLIENT_SIDE else s =? WL_MAP_SERVER_SIDE.

Section Table.
(** The side of the map. *)
Context (s : Z).

(** What callers have to respect: pointers are aligned, and an id of the own side is written
    or removed only while it is in use. *)
Definition call_ok (T : gmap Z (Z * Z)) (c : map_call) : Prop :=
  match c with
  | InsertNew _ d => aligned d
  | InsertAt _ id d => id_ok id /\ aligned d /\ (own_id s id = true -> is_Some (T !! id))
  | ReserveNew id => id_ok id
  | Remove id => id_ok id /\ (own_id s id = true -> is_Some (T !! id))
  end.

(** All ids of the own side are in use. *)
Definition full (T : gmap Z (Z * Z)) : Prop := forall id, id_ok id -> own_id s id = true -> id_index id <= WL_MAP_MAX_OBJECTS -> is_Some (T !! id).
(** Ids of the other side are used in order. *)
Definition gap (T : gmap Z (Z * Z)) (id : Z) : Prop := 0 < id_index id /\ T !! (id - 1) = None /\ T !! id = None.
Definition too_big (id : Z) : Prop := WL_MAP_MAX_OBJECTS < id_index id.

Inductive table_step (h : allocator) (T : gmap Z (Z * Z)) : map_call -> Z -> gmap Z (Z * Z) -> Prop :=
| new_done flags d id : id_ok id -> own_id s id = true -> T !! id = None ->
    table_step h T (InsertNew flags d) id (<[id := (d, Z.land flags 1)]> T)
| new_failed flags d : alloc_ok h = false \/ full T -> table_step h T (InsertNew flags d) 0 T
| at_done flags id d : ~ gap T id -> table_step h T (InsertAt flags id d) 0 (<[id := (d, Z.land flags 1)]> T)
| at_failed flags id d : alloc_ok h = false \/ too_big id \/ gap T id -> table_step h T (InsertAt flags id d) (-1) T
| reserve_new id : own_id s id = false -> T !! id = None -> ~ gap T id -> table_step h T (ReserveNew id) 0 (<[id := (0, 0)]> T)
| reserve_again id : own_id s id = false -> T !! id = Some (0, 0) -> table_step h T (ReserveNew id) 0 T
| reserve_failed id : alloc_ok h = false \/ too_big id \/ gap T id \/ own_id s id = true \/ (exists x, T !! id = Some x /\ x <> (0, 0)) ->
    table_step h T (ReserveNew id) (-1) T
| remove_own id : own_id s id = true -> table_step h T (Remove id) 0 (delete id T)
| remove_other id : own_id s id = false -> table_step h T (Remove id) 0 T.
End Table.

(** A map stands for a table. *)
Definition represents (m : wl_map) (l : list Z) (T : gmap Z (Z * Z)) : Prop := forall id, id_ok id -> T !! id = object_of m l id.

Lemma view_of_table m l T id : map_ok m l -> represents m l T -> id_ok id ->
  from_option view_word (0, 0) (word m id) = default (0, 0) (T !! id).
Proof.
  intros Hok HT Hid. pose proof (id_index_range id Hid). rewrite HT, object_of_word by (done || lia).
  destruct (word m id) as [w|] eqn:Ew; [|done]. simpl.
  destruct (Z.leb_spec (id_index id) WL_MAP_MAX_OBJECTS) as [Hm|Hm]; simpl.
  - destruct (own m id) eqn:Eo; [|done]. destruct (bool_decide_reflect (id_index id ∈ l)) as [Hl|]; [|done]. simpl.
    destruct (own_entries_id m id (mo_side m l Hok) Eo) as (E1 & _ & _).
    destruct (chain_member _ _ _ _ (mo_chain m l Hok) Hl) as (w' & Hw' & Hv). rewrite E1 in Hw'. unfold word in Ew. congruence.
  - by rewrite (mo_big m l Hok id w Hid Ew Hm).
Qed.

(** A written entry is a new line of the table. *)
Lemma put_represents m l T id w a' : map_ok m l -> represents m l T -> id_ok id -> put (id_entries m id) (id_index id) w a' ->
  (own m id = true -> id_index id ∉ l) -> id_index id <= WL_MAP_MAX_OBJECTS ->
  represents (set_id_entries id a' m) l (<[id := view_word w]> T).
Proof.
  intros Hok HT Hid Hput Hl Hm id' Hid'. pose proof (id_index_range id' Hid'). pose proof (id_index_range id Hid).
  destruct (set_entries_same m id a') as (Es & _ & _). rewrite object_of_word by lia.
  rewrite (put_word m id w a' Hid Hput id' Hid'). unfold own. rewrite Es. fold (own m id').
  destruct (Z.eqb_spec id' id) as [->|].
  - rewrite lookup_insert_eq. simpl. replace (_ <=? _) with true by lia. simpl.
    destruct (own m id); [|done]. by rewrite bool_decide_eq_false_2 by auto.
  - rewrite lookup_insert_ne by done. rewrite HT, object_of_word by (done || lia). done.
Qed.

(** ** Each call *)

Lemma pred_id m id : id_ok id -> id_index id <> 0 ->
  id_ok (id - 1) /\ id_index (id - 1) = id_index id - 1 /\ own m (id - 1) = own m id /\ id_entries m (id - 1) = id_entries m id.
Proof.
  unfold id_ok, id_index, own, id_entries. assert (Hs : 0 <= WL_SERVER_ID_START) by done. revert Hs.
  generalize WL_SERVER_ID_START. intros s Hs Hid Hn.
  assert (E : (id - 1 <? s) = (id <? s)) by (destruct (Z.ltb_spec id s); lia). rewrite E.
  split_and!; [| | |done|done]; destruct (Z.ltb_spec id s); lia.
Qed.

Section Calls.
Context (h : allocator) (m : wl_map) (l : list Z) (T : gmap Z (Z * Z)).
Hypothesis Hok : map_ok m l.
Hypothesis HT : represents m l T.

(** What a call has to establish. *)
Definition simulated (c : map_call) : Prop := exists m' r l' T', run_call h m c = Some (m', r) /\
  map_ok m' l' /\ side m' = side m /\ represents m' l' T' /\ table_step (side m) h T c r T'.

Lemma stays c r : run_call h m c = Some (m, r) -> table_step (side m) h T c r T -> simulated c.
Proof using HT Hok. intros E Hs. by exists m, r, l, T. Qed.

(** The id is one of the table just when its entry exists, on the other side. *)
Lemma other_side id : id_ok id -> own m id = false -> id_index id <= WL_MAP_MAX_OBJECTS ->
  T !! id = view_word <$> word m id.
Proof using HT.
  intros Hid Ho Hm. pose proof (id_index_range id Hid). rewrite HT, object_of_word, Ho by (done || lia).
  replace (_ <=? _) with true by lia. by destruct (word m id).
Qed.

(** Ids past the end leave a gap. *)
Lemma gap_iff id : id_ok id -> own m id = false -> id_index id <= WL_MAP_MAX_OBJECTS ->
  gap T id <-> arr_count (id_entries m id) < id_index id.
Proof using HT.
  intros Hid Ho Hm. pose proof (id_index_range id Hid) as Hi. unfold gap. rewrite (other_side id Hid Ho Hm).
  destruct (decide (id_index id = 0)) as [E|E]; [unfold arr_count; lia|].
  destruct (pred_id m id Hid E) as (Hid' & E1 & E2 & E3). rewrite other_side by (done || lia || by rewrite E2). unfold word. rewrite E3, E1.
  pose proof (peek_range (id_entries m id) (id_index id)) as P1. pose proof (peek_range (id_entries m id) (id_index id - 1)) as P2.
  rewrite !fmap_None. split.
  - intros (_ & N1 & _). rewrite N1 in P2. destruct (decide (arr_count (id_entries m id) < id_index id)); [done|].
    destruct (proj1 P2) as [? ?]; [lia|done].
  - intros Hc. split; [lia|]. split; apply eq_None_not_Some; [rewrite <- P2|rewrite <- P1]; lia.
Qed.

(** A word that is written keeps everything, and the table has a new line. *)
Lemma written c flags id d a' : id_ok id -> aligned d -> put (id_entries m id) (id_index id) (map_entry_set flags d) a' ->
  (own m id = true -> id_index id ∉ l) -> id_index id <= WL_MAP_MAX_OBJECTS ->
  run_call h m c = Some (set_id_entries id a' m, 0) ->
  table_step (side m) h T c 0 (<[id := (d, Z.land flags 1)]> T) -> simulated c.
Proof using HT Hok.
  intros Hid Hd Hput Hl Hm E Hs. exists (set_id_entries id a' m), 0, l, (<[id := (d, Z.land flags 1)]> T).
  split; [done|]. split; [apply (put_ok m l id (map_entry_set flags d) a'); try done; [by exists d, flags|lia]|].
  split; [apply set_entries_same|]. split; [|done]. rewrite <- (view_used flags d Hd). by apply put_represents.
Qed.

Lemma in_use id : id_ok id -> is_Some (T !! id) ->
  0 <= id_index id < arr_count (id_entries m id) /\ id_index id <= WL_MAP_MAX_OBJECTS /\ (own m id = true -> id_index id ∉ l).
Proof using HT.
  intros Hid [x Hx]. pose proof (id_index_range id Hid). rewrite HT, object_of_word in Hx by (done || lia).
  destruct (word m id) as [w|] eqn:Ew; [|done]. simpl in Hx. split; [by apply peek_range; eexists|].
  destruct (Z.leb_spec (id_index id) WL_MAP_MAX_OBJECTS); [|done]. split; [lia|]. intros Ho. rewrite Ho in Hx. simpl in Hx.
  by destruct (bool_decide_reflect (id_index id ∈ l)).
Qed.

Lemma insert_at_simulated flags id d : call_ok (side m) T (InsertAt flags id d) -> simulated (InsertAt flags id d).
Proof using HT Hok.
  intros (Hid & Hd & Ho). pose proof (id_index_range id Hid) as Hi. assert (Hrun : forall r, wl_map_insert_at h m flags id d = r ->
    run_call h m (InsertAt flags id d) = ((fun r => (fst r, match snd r with None => 0 | Some _ => -1 end)) <$> r)) by (by intros ? <-).
  unfold wl_map_insert_at in Hrun. destruct (Z.gtb_spec (id_index id) WL_MAP_MAX_OBJECTS) as [Hbig|Hsmall].
  { apply (stays _ (-1)); [by rewrite (Hrun _ eq_refl)|]. apply at_failed. right. left. exact Hbig. }
  assert (Hl : own m id = true -> (id_index id ∉ l) /\ id_index id < arr_count (id_entries m id)).
  { intros E. destruct (in_use id Hid (Ho E)) as (? & _ & ?). split; [auto|lia]. }
  assert (Hgap : arr_count (id_entries m id) < id_index id <-> gap T id).
  { destruct (own m id) eqn:Eo; [|by rewrite gap_iff]. destruct (Hl eq_refl). split; [lia|]. intros (_ & _ & E).
    destruct (Ho Eo). congruence. }
  destruct (Z.ltb_spec (arr_count (id_entries m id)) (id_index id)) as [Hlt|Hge].
  { apply (stays _ (-1)); [by rewrite (Hrun _ eq_refl)|]. apply at_failed. right. right. by apply Hgap. }
  assert (Hstep : table_step (side m) h T (InsertAt flags id d) 0 (<[id := (d, Z.land flags 1)]> T)).
  { apply at_done. rewrite <- Hgap. lia. }
  destruct (Z.eqb_spec (arr_count (id_entries m id)) (id_index id)) as [Heq|Hne].
  - destruct (wl_array_add h (id_entries m id)) as [a [k|]] eqn:Ea.
    + destruct (add_poke_put _ _ _ _ (map_entry_set flags d) Ea) as (-> & a'' & Hp & Hput). rewrite <- Heq in Hrun. rewrite Hp in Hrun.
      rewrite Heq in Hput. eapply written; try done; [|by rewrite (Hrun _ eq_refl)]. intros E. by destruct (Hl E).
    + apply (stays _ (-1)); [by rewrite (Hrun _ eq_refl)|]. apply at_failed. left. unfold wl_array_add in Ea.
      destruct (alloc_ok h); [|done]. by rewrite andb_false_r in Ea.
  - destruct (poke_put (id_entries m id) (id_index id) (map_entry_set flags d)) as (a' & Hp & Hput); [lia|]. rewrite Hp in Hrun.
    eapply written; try done; [|by rewrite (Hrun _ eq_refl)]. intros E. by destruct (Hl E).
Qed.

Lemma reserve_new_simulated id : call_ok (side m) T (ReserveNew id) -> simulated (ReserveNew id).
Proof using HT Hok.
  intros Hid. pose proof (id_index_range id Hid) as Hi. assert (Hrun : forall r, wl_map_reserve_new h m id = r ->
    run_call h m (ReserveNew id) = ((fun r => (fst r, match snd r with None => 0 | Some _ => -1 end)) <$> r)) by (by intros ? <-).
  unfold wl_map_reserve_new in Hrun. fold (own m id) in Hrun. destruct (own m id) eqn:Ho.
  { apply (stays _ (-1)); [by rewrite (Hrun _ eq_refl)|]. apply reserve_failed. do 3 right. left. exact Ho. }
  destruct (Z.gtb_spec (id_index id) WL_MAP_MAX_OBJECTS) as [Hbig|Hsmall].
  { apply (stays _ (-1)); [by rewrite (Hrun _ eq_refl)|]. apply reserve_failed. right. left. exact Hbig. }
  pose proof (gap_iff id Hid Ho Hsmall) as Hgap. pose proof (other_side id Hid Ho Hsmall) as Hv.
  destruct (Z.ltb_spec (arr_count (id_entries m id)) (id_index id)) as [Hlt|Hge].
  { apply (stays _ (-1)); [by rewrite (Hrun _ eq_refl)|]. apply reserve_failed. do 2 right. left. by apply Hgap. }
  destruct (Z.eqb_spec (arr_count (id_entries m id)) (id_index id)) as [Heq|Hne].
  - destruct (wl_array_add h (id_entries m id)) as [a [k|]] eqn:Ea.
    + destruct (add_poke_put _ _ _ _ 0 Ea) as (-> & a'' & Hp & Hput). rewrite <- Heq in Hrun. rewrite Hp in Hrun.
      rewrite Heq in Hput. apply (written _ 0 id 0 a''); try done; [by rewrite Ho|by rewrite (Hrun _ eq_refl)|].
      apply reserve_new; [exact Ho| |rewrite Hgap; lia]. rewrite Hv. apply fmap_None, eq_None_not_Some. unfold word.
      rewrite <- peek_range. lia.
    + apply (stays _ (-1)); [by rewrite (Hrun _ eq_refl)|]. apply reserve_failed. left. unfold wl_array_add in Ea.
      destruct (alloc_ok h); [|done]. by rewrite andb_false_r in Ea.
  - destruct (proj1 (peek_range (id_entries m id) (id_index id)) ltac:(lia)) as [w Hw]. rewrite Hw in Hrun. cbn [mbind option_bind] in Hrun. fold (word m id) in Hw.
    rewrite Hw in Hv. simpl in Hv. destruct (mo_words m l Hok id w Hid Hw) as [[E _]|Hu]; [congruence|].
    pose proof (view_zero w Hu) as Hz. destruct (Z.eqb_spec w 0) as [E|E].
    + apply (stays _ 0); [by rewrite (Hrun _ eq_refl)|]. apply reserve_again; [exact Ho|]. rewrite Hv. f_equal. by apply Hz.
    + apply (stays _ (-1)); [by rewrite (Hrun _ eq_refl)|]. apply reserve_failed. do 4 right. exists (view_word w). split; [done|].
      intros E'. by apply E, Hz.
Qed.

(** A removed id is the first of the free list. *)
Lemma freed_ok id a' : id_ok id -> own m id = true -> put (id_entries m id) (id_index id) (free_list m) a' ->
  id_index id ∉ l -> id_index id <= WL_MAP_MAX_OBJECTS ->
  let m' := (set_id_entries id a' m) <{ free_list := 2 * id_index id + 1 }> in
  map_ok m' (id_index id :: l) /\ represents m' (id_index id :: l) (delete id T).
Proof using HT Hok.
  intros Hid Ho Hput Hl Hm m'. destruct Hok as [H1 H2 H3 H4 H5 H6]. pose proof (put_word m id _ a' Hid Hput) as Hpw.
  destruct (set_entries_same m id a') as (Es & _ & Ee). pose proof (id_index_range id Hid) as Hi.
  destruct (own_entries_id m id H1 Ho) as (E1 & E2 & _).
  assert (Hside : side m' = side m) by exact Es. assert (Hown : forall i, own m' i = own m i) by (intros i; unfold own; by rewrite Hside).
  assert (Hw : forall i, word m' i = word (set_id_entries id a' m) i) by done.
  split; [split|]; rewrite ?Hside; try done.
  - destruct (own_entries_id m' id) as (E & _ & _); [by rewrite Hside|by rewrite Hown|]. rewrite E.
    change (id_entries m' id) with (id_entries (set_id_entries id a' m) id). rewrite Ee. split; [done|].
    exists (free_list m). rewrite (put_peek _ _ _ _ Hput), Z.eqb_refl. split; [done|]. eapply chain_put; [done..|]. by rewrite <- E1.
  - by apply NoDup_cons.
  - apply Forall_cons. by split; [lia|].
  - intros i w Hio. rewrite Hw, Hpw, Hown by done. destruct (Z.eqb_spec i id) as [->|].
    + intros _. left. split; [done|]. apply list_elem_of_here.
    + intros Hwi. destruct (H5 i w Hio Hwi) as [[? ?]|?]; [left|by right]. split; [done|]. by apply list_elem_of_further.
  - intros i w Hio. rewrite Hw, Hpw by done. destruct (Z.eqb_spec i id) as [->|]; [lia|]. by apply H6.
  - intros i Hio. pose proof (id_index_range i Hio). rewrite object_of_word, Hw, Hpw, Hown by (done || lia).
    destruct (Z.eqb_spec i id) as [->|Hne].
    + rewrite lookup_delete_eq. simpl. rewrite Ho, bool_decide_eq_true_2 by apply list_elem_of_here. by rewrite andb_false_r.
    + rewrite lookup_delete_ne by done. rewrite HT, object_of_word by (done || lia).
      destruct (own m i) eqn:Eo; [|done]. replace (bool_decide (id_index i ∈ id_index id :: l)) with (bool_decide (id_index i ∈ l)); [done|].
      apply bool_decide_ext. rewrite elem_of_cons. split; [by right|]. intros [E|?]; [|done]. by destruct Hne; apply (own_inj m).
Qed.

Lemma remove_simulated id : call_ok (side m) T (Remove id) -> simulated (Remove id).
Proof using HT Hok.
  intros (Hid & Ho). unfold simulated, run_call, wl_map_remove. pose proof (mo_side m l Hok) as Hside.
  assert (Hneg : (if id <? WL_SERVER_ID_START then side m =? WL_MAP_SERVER_SIDE else side m =? WL_MAP_CLIENT_SIDE) = negb (own m id)).
  { unfold own. destruct Hside as [-> | ->]; by destruct (id <? WL_SERVER_ID_START). }
  rewrite Hneg. destruct (own m id) eqn:Eo; cbn [negb].
  - destruct (in_use id Hid (Ho Eo)) as (Hi & Hm & Hl). destruct (poke_put _ _ (free_list m) Hi) as (a' & -> & Hput).
    cbn [mbind option_bind fmap option_fmap option_map].
    replace (Z.lor (u32 (Z.shiftl (id_index id) 1)) 1) with (2 * id_index id + 1).
    + destruct (freed_ok id a' Hid Eo Hput (Hl Eo) Hm) as [F1 F2]. eexists _, _, _, _. split; [done|]. split; [done|].
      split; [apply set_entries_same|]. split; [done|]. by apply remove_own.
    + rewrite Z.shiftl_mul_pow2, (Z.mul_comm _ (2 ^ 1)) by lia. unfold u32. rewrite Z.mod_small by (unfold WL_MAP_MAX_OBJECTS in Hm; lia).
      change (2 ^ 1) with 2. destruct (id_index id); [done..|lia].
  - exists m, 0, l, T. split; [done|]. split; [done|]. split; [done|]. split; [done|]. by apply remove_other.
Qed.

(** The id of an index of the own entries. *)
Lemma own_id_of i : 0 <= i <= WL_MAP_MAX_OBJECTS -> let id := i + own_base m in
  id_ok id /\ own m id = true /\ id_index id = i.
Proof using Hok.
  unfold id_ok, own, id_index, own_base, WL_MAP_CLIENT_SIDE, WL_MAP_SERVER_SIDE, WL_MAP_MAX_OBJECTS, WL_SERVER_ID_START. intros Hi.
  destruct (mo_side m l Hok) as [E|E]; rewrite E; cbv zeta; unfold WL_MAP_SERVER_SIDE, WL_MAP_CLIENT_SIDE; cbn [Z.eqb Pos.eqb].
  - replace (_ <? _) with false by lia. split; [lia|]. split; [done|lia].
  - replace (_ <? _) with true by lia. split; [lia|]. split; [done|lia].
Qed.

(** A free entry that is taken off the free list. *)
Lemma reused_ok flags d id l0 next a' : l = id_index id :: l0 -> id_ok id -> own m id = true -> aligned d ->
  put (id_entries m id) (id_index id) (map_entry_set flags d) a' -> id_index id ∉ l0 -> chain (id_entries m id) next l0 ->
  id_index id <= WL_MAP_MAX_OBJECTS ->
  let m' := set_id_entries id a' (m <{ free_list := next }>) in
  map_ok m' l0 /\ represents m' l0 (<[id := (d, Z.land flags 1)]> T) /\ T !! id = None.
Proof using HT Hok.
  intros El Hid Ho Hd Hput Hnin Hc Hm. set (m0 := m <{ free_list := next }>). cbv zeta. set (m' := set_id_entries id a' m0).
  destruct Hok as [H1 _ H3 H4 H5 H6]. rewrite El in H3, H4, H5. apply NoDup_cons in H3 as [_ H3]. apply Forall_cons in H4 as [_ H4].
  pose proof (put_word m0 id _ a' Hid Hput) as Hpw. destruct (set_entries_same m0 id a') as (Es & Ef & Ee).
  assert (Hown : forall i, own m' i = own m i) by (intros i; unfold own; unfold m'; by rewrite Es).
  pose proof (id_index_range id Hid). split; [split|split].
  - unfold m'. by rewrite Es.
  - destruct (own_entries_id m' id) as (E & _ & _); [unfold m'; by rewrite Es|by rewrite Hown|]. unfold m' in *. rewrite E, Ee, Ef.
    by eapply chain_put.
  - done.
  - done.
  - intros i w Hi. rewrite Hown. unfold m'. rewrite Hpw by done. destruct (Z.eqb_spec i id) as [->|Hne].
    + intros [= <-]. right. by exists d, flags.
    + intros Hw. destruct (H5 i w Hi Hw) as [[Hoi [E|Hl]%elem_of_cons]|?]; [|by left|by right].
      by destruct Hne; apply (own_inj m).
  - intros i w Hi. unfold m'. rewrite Hpw by done. destruct (Z.eqb_spec i id) as [->|]; [lia|]. by apply H6.
  - intros i Hi. pose proof (id_index_range i Hi). rewrite object_of_word by lia. rewrite Hown. unfold m'. rewrite Hpw by done.
    destruct (Z.eqb_spec i id) as [->|Hne].
    + rewrite lookup_insert_eq. simpl. rewrite view_used, bool_decide_eq_false_2 by done. replace (_ <=? _) with true by lia.
      by rewrite andb_false_r.
    + rewrite lookup_insert_ne by done. rewrite HT, object_of_word by (done || lia). rewrite El.
      change (word m0 i) with (word m i). destruct (own m i) eqn:Eo; [|done].
      replace (bool_decide (id_index i ∈ id_index id :: l0)) with (bool_decide (id_index i ∈ l0)); [done|].
      apply bool_decide_ext. rewrite elem_of_cons. split; [by right|]. intros [E|?]; [|done]. by destruct Hne; apply (own_inj m).
  - rewrite HT, object_of_word, El, Ho by (done || lia). rewrite bool_decide_eq_true_2 by apply list_elem_of_here.
    rewrite andb_false_r. by destruct (word m id).
Qed.

Lemma reused flags d i l0 : l = i :: l0 -> aligned d -> simulated (InsertNew flags d).
Proof using HT Hok.
  intros El Hd. pose proof (mo_chain m _ Hok) as Hch. pose proof (mo_small m _ Hok) as Hs. pose proof (mo_nodup m _ Hok) as Hn.
  rewrite El in Hch, Hs, Hn. destruct Hch as (Ef & next & Hpk & Hc).
  apply Forall_cons in Hs as [Hi Hsm]. apply NoDup_cons in Hn as [Hnin _].
  destruct (own_id_of i Hi) as (Hid & Ho & Ei). destruct (own_entries_id m (i + own_base m) (mo_side m _ Hok) Ho) as (E1 & _ & E3).
  assert (Hu : u32 next = next).
  { apply Z.mod_small. destruct l0 as [|j l0]; [simpl in Hc; lia|]. destruct Hc as [-> _].
    apply Forall_cons in Hsm as [Hj _]. unfold WL_MAP_MAX_OBJECTS in Hj. lia. }
  rewrite E1 in Hpk, Hc. pose proof (proj2 (peek_range _ _) (mk_is_Some _ _ Hpk)) as Hr.
  destruct (poke_put _ _ (map_entry_set flags d) Hr) as (a' & Hp & Hput).
  set (id := i + own_base m) in *. clearbody id. subst i.
  destruct (reused_ok flags d id l0 next a') as (R1 & R2 & R3); try done; [lia|].
  exists (set_id_entries id a' (m <{ free_list := next }>)), id, l0, (<[id := (d, Z.land flags 1)]> T).
  split; [|split; [done|]; split; [exact (proj1 (set_entries_same (m <{ free_list := next }>) id a'))|]; split; [done|by apply new_done]].
  unfold run_call, wl_map_insert_new. replace (free_list m =? 0) with false by lia. cbn [negb].
  rewrite Ef, link_index, E1, Hpk. cbn [mbind option_bind]. rewrite Hu. set (m0 := m <{ free_list := next }>).
  destruct (own_entries_id m0 id (mo_side m _ Hok) Ho) as (F1 & F2 & F3). rewrite F1.
  change (id_entries m0 id) with (id_entries m id). rewrite Hp. replace (_ >? _) with false by lia.
  cbn [mbind option_bind]. rewrite F3. do 2 f_equal. lia.
Qed.

(** An entry past the limit stays without an object. *)
Lemma past_ok i a' : put (own_entries m) i 0 a' -> WL_MAP_MAX_OBJECTS < i ->
  map_ok (set_own_entries a' m) l /\ represents (set_own_entries a' m) l T.
Proof using HT Hok.
  intros Hput Hbig. destruct Hok as [H1 H2 H3 H4 H5 H6]. set (m' := set_own_entries a' m).
  assert (Hs : side m' = side m) by (unfold m', set_own_entries; by destruct (side m =? _)).
  assert (Hf : free_list m' = free_list m) by (unfold m', set_own_entries; by destruct (side m =? _)).
  assert (Ha : own_entries m' = a').
  { unfold own_entries. rewrite Hs. unfold m', set_own_entries. by destruct (side m =? _). }
  assert (Hown : forall id, own m' id = own m id) by (intros id; unfold own; by rewrite Hs).
  assert (Hw : forall id, word m' id = if own m id && (id_index id =? i) then Some 0 else word m id).
  { intros id. unfold word. destruct (own m id) eqn:Eo; cbn [andb].
    - destruct (own_entries_id m id H1 Eo) as (E1 & _). destruct (own_entries_id m' id) as (E2 & _); [by rewrite Hs|by rewrite Hown|].
      by rewrite <- E1, <- E2, Ha, (put_peek _ _ _ _ Hput).
    - f_equal. unfold m', set_own_entries, id_entries, own, WL_MAP_SERVER_SIDE, WL_MAP_CLIENT_SIDE in *.
      destruct H1 as [E|E]; rewrite E in *; by destruct (id <? WL_SERVER_ID_START). }
  split; [split|]; rewrite ?Hs, ?Hf, ?Ha; try done.
  - eapply chain_put; [done| |done]. intros Hi. pose proof (proj1 (Forall_forall _ _) H4 i Hi). simpl in *. lia.
  - intros id w Hid. rewrite Hw, Hown. destruct (own m id && _) eqn:E; [|by apply H5].
    intros [= <-]. right. apply used_zero.
  - intros id w Hid. rewrite Hw. destruct (own m id && _); [by intros [= <-]|by apply H6].
  - intros id Hid. pose proof (id_index_range id Hid). rewrite HT, !object_of_word, Hw, Hown by (done || lia).
    destruct (own m id) eqn:Eo; [|done]. cbn [andb]. destruct (Z.eqb_spec (id_index id) i) as [E|]; [|done].
    replace (_ <=? _) with false by lia. simpl. by destruct (word m id).
Qed.

Lemma all_used : l = [] -> WL_MAP_MAX_OBJECTS < arr_count (own_entries m) -> full (side m) T.
Proof using HT Hok.
  intros El Hc id Hid Ho Hm. pose proof (id_index_range id Hid). destruct (own_entries_id m id (mo_side m _ Hok) Ho) as (E1 & _).
  destruct (proj1 (peek_range (id_entries m id) (id_index id))) as [w Hw]; [rewrite <- E1; lia|].
  rewrite HT, object_of_word by (done || lia). unfold word. rewrite Hw, El. cbn [mbind option_bind]. replace (_ <=? _) with true by lia.
  rewrite bool_decide_eq_false_2 by apply not_elem_of_nil. rewrite andb_false_r. by eexists.
Qed.

Lemma insert_new_simulated flags d : call_ok (side m) T (InsertNew flags d) -> simulated (InsertNew flags d).
Proof using HT Hok.
  intros Hd. assert (l = [] \/ exists i l0, l = i :: l0) as [El|(i & l0 & El)] by (destruct l; eauto); [|by eapply reused].
  pose proof (mo_chain m _ Hok) as Hf. rewrite El in Hf. simpl in Hf. assert (Hnin : forall i, i ∉ l) by (intros i; rewrite El; apply not_elem_of_nil).
  assert (Hrun : forall r, wl_map_insert_new h m flags d = r -> run_call h m (InsertNew flags d) = r) by (by intros ? <-).
  unfold wl_map_insert_new in Hrun. rewrite Hf in Hrun. cbn [negb Z.eqb] in Hrun.
  destruct (wl_array_add h (own_entries m)) as [a [k|]] eqn:Ea.
  - destruct (add_poke_put _ _ _ _ 0 Ea) as (-> & a0 & Hp0 & Hput0).
    destruct (add_poke_put _ _ _ _ (map_entry_set flags d) Ea) as (_ & a1 & Hp1 & Hput1).
    rewrite set_own_own, Hp0, Hp1, set_own_base in Hrun. cbn [mbind option_bind] in Hrun. rewrite !set_set_own in Hrun.
    assert (Hc : 0 <= arr_count (own_entries m)) by (unfold arr_count; lia).
    destruct (Z.gtb_spec (arr_count (own_entries m)) WL_MAP_MAX_OBJECTS) as [Hbig|Hsmall].
    + destruct (past_ok _ a0 Hput0 Hbig) as [P1 P2]. exists (set_own_entries a0 m), 0, l, T.
      split; [by apply Hrun|]. split; [done|]. split; [unfold set_own_entries; by destruct (side m =? _)|]. split; [done|].
      apply new_failed. right. by apply all_used.
    + destruct (own_id_of _ (conj Hc Hsmall)) as (Hid & Ho & Ei). set (id := _ + own_base m) in *. clearbody id.
      destruct (own_entries_id m id (mo_side m _ Hok) Ho) as (E1 & _ & E3). rewrite E3 in Hrun. rewrite <- Ei, E1 in Hput1.
      assert (Hn : T !! id = None).
      { rewrite HT, object_of_word by (done || lia). replace (word m id) with (@None Z); [done|]. symmetry. apply eq_None_not_Some.
        unfold word. rewrite <- peek_range, <- E1. lia. }
      exists (set_id_entries id a1 m), id, l, (<[id := (d, Z.land flags 1)]> T). split; [by apply Hrun|].
      split; [eapply put_ok; try done; try lia; by exists d, flags|].
      split; [apply set_entries_same|]. split; [|by apply new_done]. rewrite <- (view_used flags d Hd).
      apply put_represents; try done; lia.
  - apply (stays _ 0); [by apply Hrun|]. apply new_failed. left. unfold wl_array_add in Ea.
    destruct (alloc_ok h); [|done]. by rewrite andb_false_r in Ea.
Qed.
End Calls.

(** ** All calls *)

(** An empty map stands for the empty table. *)
Lemma init_represents s : s = WL_MAP_SERVER_SIDE \/ s = WL_MAP_CLIENT_SIDE ->
  map_ok (wl_map_init s) [] /\ represents (wl_map_init s) [] ∅.
Proof.
  intros Hs. assert (Hw : forall id, word (wl_map_init s) id = None).
  { intros id. unfold word, id_entries, peek. by destruct (id <? _), (0 <=? id_index id). }
  split; [split|].
  - done.
  - done.
  - apply NoDup_nil_2.
  - apply Forall_nil_2.
  - intros id w _. by rewrite Hw.
  - intros id w _. by rewrite Hw.
  - intros id Hid. pose proof (id_index_range id Hid). rewrite object_of_word, Hw by lia. done.
Qed.

Lemma call_simulated h m l T c : map_ok m l -> represents m l T -> call_ok (side m) T c -> simulated h m T c.
Proof.
  intros Hok HT Hc. destruct c; [by eapply insert_new_simulated|by eapply insert_at_simulated|by eapply reserve_new_simulated|
    by eapply remove_simulated].
Qed.

(** A run of the map: calls, each with what the allocator does, and what they return. *)
Fixpoint run_calls (m : wl_map) (cs : list (allocator * map_call)) : option (wl_map * list Z) :=
  match cs with
  | [] => Some (m, [])
  | (h, c) :: cs => run_call h m c ≫= fun r => run_calls (fst r) cs ≫= fun r' => Some (fst r', snd r :: snd r')
  end.

(** The same run of a table. *)
Inductive table_run (s : Z) : gmap Z (Z * Z) -> list (allocator * map_call) -> list Z -> gmap Z (Z * Z) -> Prop :=
| table_end T : table_run s T [] [] T
| table_call T h c r T' cs rs T'' : table_step s h T c r T' -> table_run s T' cs rs T'' -> table_run s T ((h, c) :: cs) (r :: rs) T''.

(** Callers respect what they have to, given what the calls before returned. *)
Fixpoint calls_ok (m : wl_map) (T : gmap Z (Z * Z)) (cs : list (allocator * map_call)) : Prop :=
  match cs with
  | [] => True
  | (h, c) :: cs => call_ok (side m) T c /\
      forall m' r T', run_call h m c = Some (m', r) -> table_step (side m) h T c r T' -> calls_ok m' T' cs
  end.

Lemma run_simulated m l T cs : map_ok m l -> represents m l T -> calls_ok m T cs ->
  exists m' rs l' T', run_calls m cs = Some (m', rs) /\ map_ok m' l' /\ represents m' l' T' /\ table_run (side m) T cs rs T'.
Proof.
  revert m l T. induction cs as [|[h c] cs IH]; intros m l T Hok HT Hcs.
  { exists m, [], l, T. split; [done|]. split; [done|]. split; [done|]. apply table_end. }
  destruct Hcs as [Hc Hcs]. destruct (call_simulated h m l T c Hok HT Hc) as (m1 & r & l1 & T1 & E & Hok1 & Es & HT1 & Hstep).
  destruct (IH m1 l1 T1 Hok1 HT1) as (m2 & rs & l2 & T2 & E2 & Hok2 & HT2 & Hrun); [by eapply Hcs|].
  exists m2, (r :: rs), l2, T2. simpl. rewrite E. simpl. rewrite E2. split; [done|]. split; [done|]. split; [done|].
  rewrite Es in Hrun. by econstructor.
Qed.

(** C29. The entries with their links and flags in the low bits implement a table from ids to
    objects: every run of calls on a new map that respects the rules for callers is a run of
    the table with the same results (a new id is one that is not in use, and is only refused
    when there is no memory or all are in use; ids of the other side are used without gaps;
    a removed id is free again), no call accesses memory outside of the entries, and the
    lookups give for every id what the table has. *)
Theorem map_refines_table s cs : s = WL_MAP_SERVER_SIDE \/ s = WL_MAP_CLIENT_SIDE -> calls_ok (wl_map_init s) ∅ cs ->
  exists m rs T, run_calls (wl_map_init s) cs = Some (m, rs) /\ table_run s ∅ cs rs T /\
    forall id, id_ok id -> (wl_map_lookup m id, wl_map_lookup_flags m id) = default (0, 0) (T !! id).
Proof.
  intros Hs Hcs. destruct (init_represents s Hs) as [H1 H2].
  destruct (run_simulated _ _ _ cs H1 H2 Hcs) as (m & rs & l & T & E & Hok & HT & Hrun). exists m, rs, T.
  split; [done|]. split; [done|]. intros id Hid. rewrite lookups_word. by eapply view_of_table.
Qed.

(** What a server does: the null object, the display of the client, a resource of its own that
    goes away, and another one that gets its id. *)
Definition server_calls : list (allocator * map_call) :=
  let h := Allocator true 0xdeadbeef in
  [(h, InsertAt 0 0 0); (h, ReserveNew 1); (h, InsertAt 0 1 0x1000); (h, InsertNew 1 0x2000); (h, Remove 0xff000000); (h, InsertNew 0 0x3000)].

Example server_calls_run : snd <$> run_calls (wl_map_init WL_MAP_SERVER_SIDE) server_calls = Some [0; 0; 0; 0xff000000; 0; 0xff000000].
Proof. done. Qed.

Lemma server_calls_ok : calls_ok (wl_map_init WL_MAP_SERVER_SIDE) ∅ server_calls.
Proof.
  unfold server_calls. cbn [calls_ok]. split; [done|]. intros m r T E H. vm_compute in E. injection E as <- <-.
  split; [done|]. intros m r T1 E H1. vm_compute in E. injection E as <- <-.
  split; [done|]. intros m r T2 E H2. vm_compute in E. injection E as <- <-.
  split; [done|]. intros m r T3 E H3. vm_compute in E. injection E as <- <-.
  split; [split; [done|]|].
  - intros _. inversion H3. rewrite lookup_insert_eq. by eexists.
  - intros m r T4 E H4. vm_compute in E. injection E as <- <-. done.
Qed.

Lemma map_refines_table_witness : exists m rs T,
  run_calls (wl_map_init WL_MAP_SERVER_SIDE) server_calls = Some (m, rs) /\ table_run WL_MAP_SERVER_SIDE ∅ server_calls rs T /\
  forall id, id_ok id -> (wl_map_lookup m id, wl_map_lookup_flags m id) = default (0, 0) (T !! id).
Proof. apply (map_refines_table WL_MAP_SERVER_SIDE server_calls); [by left|apply server_calls_ok]. Defined.

(** The rule for callers is needed: an id that is removed twice is given to two objects. *)
Example removed_twice : let h := Allocator true 0 in
  snd <$> run_calls (wl_map_init WL_MAP_SERVER_SIDE)
    [(h, InsertNew 0 8); (h, Remove 0xff000000); (h, Remove 0xff000000); (h, InsertNew 0 16); (h, InsertNew 0 24)]
  = Some [0xff000000; 0; 0; 0xff000000; 0xff000000].
Proof. done. Qed.

(** ** Going over all objects *)

Section ForEachFacts.
Context {S : Type} (func : Z -> Z -> S -> S * wl_iterator_result).

(** [func] on the objects of a list of words, until it stops. *)
Fixpoint visit (ws : list Z) (s : S) : S * wl_iterator_result :=
  match ws with
  | [] => (s, WL_ITERATOR_CONTINUE)
  | w :: ws =>
      if negb (w =? 0) && negb (map_entry_is_free w) then
        match func (map_entry_get_data w) (map_entry_get_flags w) s with
        | (s, WL_ITERATOR_CONTINUE) => visit ws s
        | r => r
        end
      else visit ws s
  end.

Lemma for_each_visits (entries : S -> wl_array) fuel (k : nat) s :
  (forall d f s, entries (fst (func d f s)) = entries s) -> (length (arr_words (entries s)) - k < fuel)%nat ->
  for_each_helper func fuel entries (Z.of_nat k) WL_ITERATOR_CONTINUE s = visit (drop k (arr_words (entries s))) s.
Proof.
  intros Hf. revert k s. induction fuel as [|fuel IH]; intros k s Hk; [lia|]. cbn [for_each_helper]. unfold arr_count.
  destruct (Z.geb_spec (Z.of_nat k) (Z.of_nat (length (arr_words (entries s))))); [by rewrite drop_ge by lia|].
  destruct (lookup_lt_is_Some_2 (arr_words (entries s)) k ltac:(lia)) as [w Hw]. unfold peek.
  replace (0 <=? Z.of_nat k) with true by lia. rewrite Nat2Z.id, Hw, (drop_S _ _ _ Hw). cbn [visit].
  replace (Z.of_nat k + 1) with (Z.of_nat (Datatypes.S k)) by lia.
  destruct (negb (w =? 0) && negb (map_entry_is_free w)); [|apply IH; lia].
  pose proof (Hf (map_entry_get_data w) (map_entry_get_flags w) s) as He. destruct (func _ _ s) as [s' []]; [done|].
  simpl in He. rewrite <- He. apply IH. rewrite He. lia.
Qed.

(** The client's objects first, then the server's, each once and in order. *)
Lemma wl_map_for_each_spec map_of fuel s : (forall d f s, map_of (fst (func d f s)) = map_of s) ->
  (length (arr_words (client_entries (map_of s))) < fuel)%nat -> (length (arr_words (server_entries (map_of s))) < fuel)%nat ->
  wl_map_for_each func fuel map_of s =
  fst (visit (arr_words (client_entries (map_of s)) ++ arr_words (server_entries (map_of s))) s).
Proof.
  intros Hf H1 H2. unfold wl_map_for_each. change 0 with (Z.of_nat 0).
  rewrite for_each_visits by (intros; rewrite ?Hf; done || lia). rewrite drop_0.
  assert (Happ : forall l l' s, visit (l ++ l') s = match visit l s with (s, WL_ITERATOR_CONTINUE) => visit l' s | r => r end).
  { clear. induction l as [|w l IH]; intros l' s; [done|]. simpl. destruct (_ && _); [|apply IH]. by destruct (func _ _ s) as [? []]. }
  assert (Hm : forall l s, map_of (fst (visit l s)) = map_of s).
  { clear - Hf. induction l as [|w l IH]; intros s; [done|]. simpl. destruct (_ && _); [|apply IH].
    pose proof (Hf (map_entry_get_data w) (map_entry_get_flags w) s) as E. destruct (func _ _ s) as [? []]; [done|]. by rewrite IH. }
  rewrite Happ. specialize (Hm (arr_words (client_entries (map_of s))) s).
  destruct (visit (arr_words (client_entries (map_of s))) s) as [s' []]; [done|]. simpl in Hm.
  rewrite for_each_visits by (intros; rewrite ?Hf, ?Hm; done || lia). by rewrite Hm, drop_0.
Qed.
End ForEachFacts.
