(* ===== verification/Connection.v ===== *)
(** * The connection of a Wayland client

    Models struct wl_connection of src/libs/wayland/src/connection.c: the queues of bytes and
    of file descriptors to and from the socket.  The socket and the allocator are what the
    kernel answers, in order: a call to sendmsg may send any part of what it is given, with all
    of the descriptors, or fail; a call to recvmsg gives bytes and control messages, or fails. *)

From S2P Require Import Prelude RingBuffer.

Definition MAX_FDS_OUT : Z := 28.

(** ** Words in memory *)

Definition le32 (z : Z) : list Z := [z mod 256; Z.shiftr z 8 mod 256; Z.shiftr z 16 mod 256; Z.shiftr z 24 mod 256].
Definition of_le32 (l : list Z) : Z := foldr (fun b acc => b + 256 * acc) 0 l.
Definition i32 (z : Z) : Z := let u := u32 z in if u <? 2 ^ 31 then u else u - 2 ^ 32.

(** ** The kernel *)

Inductive errno := EAGAIN | EINTR | EOVERFLOW | EOTHER.

Inductive send_answer := Sent (len : Z) | SendFailed (e : errno).
Inductive recv_answer := Received (bytes : list Z) (cmsgs : list (bool * list Z)) | RecvFailed (e : errno).

(** What the kernel will answer, what was sent and received (bytes and descriptors of each
    message), and the descriptors that were closed. *)
Record kernel := Kernel { sends : list send_answer; recvs : list recv_answer; allocs : list bool;
  wire : list (list Z * list Z); received : list (list Z * list Z); closed : list Z }.

Record wl_connection := Conn { conn_in : wl_ring_buffer; conn_out : wl_ring_buffer;
  fds_in : wl_ring_buffer; fds_out : wl_ring_buffer; want_flush : bool; os : kernel }.

#[export] Instance kernel_fields : Fields kernel := {| rebuild := fun k =>
  Kernel (sends k) (recvs k) (allocs k) (wire k) (received k) (closed k) |}.
#[export] Instance conn_fields : Fields wl_connection := {| rebuild := fun c =>
  Conn (conn_in c) (conn_out c) (fds_in c) (fds_out c) (want_flush c) (os c) |}.

(** The answer to an allocation: none left means that it succeeds. *)
Definition next_alloc (c : wl_connection) : bool := default true (head (allocs (os c))).
Definition alloc_done (c : wl_connection) : wl_connection := c <{ os ::= fun k => k <{ allocs ::= tail }> }>.
Definition log_closed (fds : list Z) (c : wl_connection) : wl_connection := c <{ os ::= fun k => k <{ closed ::= fun l => l ++ fds }> }>.

(** ** Closing descriptors *)

(** The loop goes over the memory of the buffer by words, and wraps. *)
Fixpoint close_loop (mem : list Z) (size : Z) (count : nat) (p : Z) : option (list Z) :=
  match count with
  | O => Some []
  | S count =>
      let p := if p >=? size then 0 else p in
      load (Z.to_nat p) 4 mem ≫= fun w => close_loop mem size count (p + 4) ≫= fun fds => Some (i32 (of_le32 w) :: fds)
  end.

Definition ring_buffer_close_fds (b : wl_ring_buffer) (count : Z) : option (list Z) :=
  close_loop (rb_data b) (ring_buffer_capacity b) (Z.to_nat count) (ring_buffer_mask b (rb_tail b)).

(** The buffer after, and the descriptors that are closed. *)
Definition close_fds (b : wl_ring_buffer) (max : Z) : option (wl_ring_buffer * list Z) :=
  let size := ring_buffer_size b in
  if size =? 0 then Some (b, [])
  else
    let count := size / 4 in
    let count := if (max >? 0) && (max <? count) then max else count in
    ring_buffer_close_fds b count ≫= fun fds => Some (ring_buffer_consume (count * 4) b, fds).

Definition wl_connection_close_fds_in (c : wl_connection) (max : Z) : option wl_connection :=
  close_fds (fds_in c) max ≫= fun r => Some (log_closed (snd r) (c <{ fds_in := fst r }>)).

(** What stays of a connection is the descriptors that were closed. *)
Definition wl_connection_destroy (c : wl_connection) : option kernel :=
  close_fds (fds_out c) (-1) ≫= fun r => let c := log_closed (snd r) (c <{ fds_out := fst r }>) in
  close_fds (fds_in c) (-1) ≫= fun r => Some (os (log_closed (snd r) c)).

(** ** Making a connection *)

Definition ensure (get : wl_connection -> wl_ring_buffer) (set : wl_ring_buffer -> wl_connection -> wl_connection)
    (count : Z) (c : wl_connection) : option (wl_connection * option space_error) :=
  ring_buffer_ensure_space (next_alloc c) (get c) count ≫= fun r => Some (alloc_done (set (fst r) c), snd r).

Definition ensure_in := ensure conn_in (fun b c => c <{ conn_in := b }>).
Definition ensure_out := ensure conn_out (fun b c => c <{ conn_out := b }>).
Definition ensure_fds_in := ensure fds_in (fun b c => c <{ fds_in := b }>).
Definition ensure_fds_out := ensure fds_out (fun b c => c <{ fds_out := b }>).

Definition wl_connection_set_max_buffer_size (c : wl_connection) (max_buffer_size : Z) : option wl_connection :=
  let bits := get_max_size_bits_for_size max_buffer_size in
  let limit b := b <{ max_size_bits := bits }> in
  ensure_fds_in 0 (c <{ fds_in ::= limit }>) ≫= fun r =>
  ensure_fds_out 0 ((fst r) <{ fds_out ::= limit }>) ≫= fun r =>
  ensure_in 0 ((fst r) <{ conn_in ::= limit }>) ≫= fun r =>
  ensure_out 0 ((fst r) <{ conn_out ::= limit }>) ≫= fun r => Some (fst r).

Definition wl_connection_create (k : kernel) (max_buffer_size : Z) : option wl_connection :=
  wl_connection_set_max_buffer_size (Conn ring_zero ring_zero ring_zero ring_zero false k) max_buffer_size.

Definition wl_connection_copy (c : wl_connection) (size : Z) : option (list Z) := ring_buffer_copy (conn_in c) size.
Definition wl_connection_consume (c : wl_connection) (size : Z) : wl_connection := c <{ conn_in ::= ring_buffer_consume size }>.
Definition wl_connection_pending_input (c : wl_connection) : Z := u32 (ring_buffer_size (conn_in c)).

(** ** Sending *)

(** The descriptors of a control message. *)
Definition build_cmsg (b : wl_ring_buffer) : option (list Z) :=
  ring_buffer_copy b (if ring_buffer_size b >? MAX_FDS_OUT * 4 then MAX_FDS_OUT * 4 else ring_buffer_size b).

(** The bytes that sendmsg is given, and the descriptors. *)
Definition outgoing (c : wl_connection) : option (list Z * list Z) :=
  build_cmsg (fds_out c) ≫= fun cmsg =>
  let iov := if Z.of_nat (length cmsg) >=? MAX_FDS_OUT * 4
             then [(ring_buffer_mask (conn_out c) (rb_tail (conn_out c)), 1)] else ring_buffer_get_iov (conn_out c) in
  gather (conn_out c) iov ≫= fun data => Some (data, cmsg).

(** After [len] bytes of [data] were sent. *)
Definition after_send (len : Z) (data cmsg : list Z) (c : wl_connection) : option wl_connection :=
  let c := c <{ os ::= fun k => k <{ wire ::= fun w => w ++ [(take (Z.to_nat len) data, cmsg)] }> }> in
  close_fds (fds_out c) MAX_FDS_OUT ≫= fun r =>
  Some ((log_closed (snd r) (c <{ fds_out := fst r }>)) <{ conn_out ::= ring_buffer_consume len }>).

(** The loop uses the answers of the kernel, one for each call; without one the socket is full. *)
Fixpoint flush_loop (answers : list send_answer) (c : wl_connection) : option (wl_connection * option errno) :=
  if negb (ring_buffer_size (conn_out c) >? 0) then Some (c <{ os ::= fun k => k <{ sends := answers }> }>, None)
  else outgoing c ≫= fun '(data, cmsg) =>
    match answers with
    | [] => Some (c <{ os ::= fun k => k <{ sends := [] }> }>, Some EAGAIN)
    | SendFailed EINTR :: answers => flush_loop answers c
    | SendFailed e :: answers => Some (c <{ os ::= fun k => k <{ sends := answers }> }>, Some e)
    | Sent n :: answers => after_send (Z.max 1 (Z.min n (Z.of_nat (length data)))) data cmsg c ≫= flush_loop answers
    end.

Definition wl_connection_flush (c : wl_connection) : option (wl_connection * (Z * option errno)) :=
  if negb (want_flush c) then Some (c, (0, None))
  else
    let tail := rb_tail (conn_out c) in
    flush_loop (sends (os c)) c ≫= fun r =>
    match snd r with
    | Some e => Some (fst r, (-1, Some e))
    | None => let c := (fst r) <{ want_flush := false }> in Some (c, (i32 (rb_head (conn_out c) - tail), None))
    end.

(** A flush that may fail because the socket is full. *)
Definition try_flush (c : wl_connection) : option (wl_connection * bool) :=
  wl_connection_flush (c <{ want_flush := true }>) ≫= fun r =>
  Some (fst r, match snd (snd r) with None => true | Some EAGAIN => true | Some _ => false end).

Definition wl_connection_queue (c : wl_connection) (data : list Z) : option (wl_connection * bool) :=
  let count := Z.of_nat (length data) in
  (if u64 (ring_buffer_size (conn_out c) + count) >? WL_BUFFER_DEFAULT_MAX_SIZE then try_flush c else Some (c, true)) ≫= fun r =>
  if negb (snd r) then Some (fst r, false)
  else ensure_out count (fst r) ≫= fun r =>
    match snd r with
    | Some _ => Some (fst r, false)
    | None => ring_buffer_put (conn_out (fst r)) data ≫= fun b => Some ((fst r) <{ conn_out := b }>, true)
    end.

Definition wl_connection_write (c : wl_connection) (data : list Z) : option (wl_connection * bool) :=
  wl_connection_queue c data ≫= fun r => if negb (snd r) then Some r else Some ((fst r) <{ want_flush := true }>, true).

Definition wl_connection_put_fd (c : wl_connection) (fd : Z) : option (wl_connection * bool) :=
  (if ring_buffer_size (fds_out c) >=? MAX_FDS_OUT * 4 then try_flush c else Some (c, true)) ≫= fun r =>
  if negb (snd r) then Some (fst r, false)
  else ensure_fds_out 4 (fst r) ≫= fun r =>
    match snd r with
    | Some _ => Some (fst r, false)
    | None => ring_buffer_put (fds_out (fst r)) (le32 fd) ≫= fun b => Some ((fst r) <{ fds_out := b }>, true)
    end.

(** ** Receiving *)

(** A control message: whether it carries descriptors, and its data. *)
Fixpoint decode_loop (cmsgs : list (bool * list Z)) (overflow : bool) (c : wl_connection) : option (wl_connection * bool) :=
  match cmsgs with
  | [] => Some (c, overflow)
  | (false, _) :: cmsgs => decode_loop cmsgs overflow c
  | (true, data) :: cmsgs =>
      ensure_fds_in (Z.of_nat (length data)) c ≫= fun r =>
      if match snd r with Some _ => true | None => overflow end
      then close_loop data (Z.of_nat (length data)) (length data / 4) 0 ≫= fun fds =>
        decode_loop cmsgs true (log_closed fds (fst r))
      else ring_buffer_put (fds_in (fst r)) data ≫= fun b => decode_loop cmsgs overflow ((fst r) <{ fds_in := b }>)
  end.

Definition decode_cmsg (cmsgs : list (bool * list Z)) (c : wl_connection) : option (wl_connection * option errno) :=
  decode_loop cmsgs false c ≫= fun r : wl_connection * bool => Some (fst r, if snd r then Some EOVERFLOW else None).

(** The descriptors of the control messages. *)
Definition rights (cmsgs : list (bool * list Z)) : list Z := concat (map (fun m => if fst m : bool then snd m else []) cmsgs).

Definition log_received (bytes : list Z) (cmsgs : list (bool * list Z)) (c : wl_connection) : wl_connection :=
  c <{ os ::= fun k => k <{ received ::= fun l => l ++ [(bytes, rights cmsgs)] }> }>.

Definition iov_len (iov : list (Z * Z)) : nat := sum_list_with (fun v => Z.to_nat (snd v)) iov.

(** The loop uses the answers of the kernel, one for each call; without one there is nothing to read. *)
Fixpoint read_loop (answers : list recv_answer) (c : wl_connection) : option (wl_connection * (Z * option errno)) :=
  let finish (c : wl_connection) (r : Z * option errno) := Some (c <{ os ::= fun k => k <{ recvs := tail answers }> }>, r) in
  let data_size := ring_buffer_size (conn_in c) in
  let failed (c : wl_connection) (e : errno) := finish c (match e with EAGAIN => if data_size >? 0 then (i32 data_size, None) else (-1, Some e) | _ => (-1, Some e) end) in
  if ring_buffer_is_max_size_reached (conn_in c) then Some (c <{ os ::= fun k => k <{ recvs := answers }> }>, (i32 data_size, None))
  else ensure_in 1 c ≫= fun r =>
    let c := fst r in
    match snd r with
    | Some _ => Some (c <{ os ::= fun k => k <{ recvs := answers }> }>, (-1, Some EOTHER))
    | None =>
        let iov := ring_buffer_put_iov (conn_in c) in
        match answers with
        | [] => failed c EAGAIN
        | RecvFailed EINTR :: answers => read_loop answers c
        | RecvFailed e :: _ => failed c e
        | Received bytes cmsgs :: answers' =>
            let bytes := take (iov_len iov) bytes in
            if (length bytes =? 0)%nat then finish c (i32 data_size, None)
            else scatter iov bytes (rb_data (conn_in c)) ≫= fun mem =>
              decode_cmsg cmsgs (log_received bytes cmsgs (c <{ conn_in ::= fun b => b <{ rb_data := mem }> }>)) ≫= fun r =>
              match snd r with
              | Some e => finish (fst r) (-1, Some e)
              | None => read_loop answers' ((fst r) <{ conn_in ::= ring_buffer_advance (Z.of_nat (length bytes)) }>)
              end
        end
    end.

Definition wl_connection_read (c : wl_connection) : option (wl_connection * (Z * option errno)) := read_loop (recvs (os c)) c.

(** ** Descriptors in a buffer *)

Fixpoint decode_fds (l : list Z) : list Z :=
  match l with
  | a :: b :: c :: d :: l => i32 (of_le32 [a; b; c; d]) :: decode_fds l
  | _ => []
  end.

(** A buffer of descriptors: whole words from an aligned position. *)
Record fd_ring (b : wl_ring_buffer) : Prop := {
  fr_inv : ring_inv b;
  fr_tail : rb_tail b mod 4 = 0;
  fr_size : ring_buffer_size b mod 4 = 0 }.

Lemma fd_ring_zero : fd_ring ring_zero.
Proof. split; [apply zero_inv|done..]. Qed.

Lemma capacity_words b : ring_ok b -> WL_BUFFER_DEFAULT_SIZE_POT <= size_bits b -> ring_buffer_capacity b mod 4 = 0.
Proof.
  intros Hb Hs. unfold WL_BUFFER_DEFAULT_SIZE_POT in Hs. unfold ring_buffer_capacity. rewrite size_pot_pow by lia.
  replace (size_bits b) with (2 + (size_bits b - 2)) by lia. rewrite Z.pow_add_r, Z.mul_comm by lia. apply Z_mod_mult.
Qed.

Lemma close_loop_ring b count k p : ring_ok b -> ring_buffer_capacity b mod 4 = 0 -> rb_tail b mod 4 = 0 ->
  0 <= p <= ring_buffer_capacity b -> p mod ring_buffer_capacity b = (rb_tail b + 4 * Z.of_nat k) mod ring_buffer_capacity b ->
  4 * Z.of_nat (k + count) <= ring_buffer_size b ->
  close_loop (rb_data b) (ring_buffer_capacity b) count p = Some (decode_fds (take (4 * count) (drop (4 * k) (contents b)))).
Proof.
  intros Hb Hc4 Ht. pose proof (capacity_pos b Hb) as Hc. pose proof (ro_data b Hb) as Hl.
  revert k p. induction count as [|count IH]; intros k p Hp Hpos Hsize; [done|]. cbn [close_loop].
  set (c := ring_buffer_capacity b) in *.
  assert (E : (if p >=? c then 0 else p) = (rb_tail b + 4 * Z.of_nat k) mod c).
  { rewrite <- Hpos. destruct (Z.geb_spec p c); [|by rewrite Z.mod_small by lia]. assert (p = c) as -> by lia. by rewrite Z.mod_same by lia. }
  rewrite E. clear E Hpos Hp p. set (p := (rb_tail b + 4 * Z.of_nat k) mod c).
  assert (Hp : 0 <= p < c) by (by apply Z.mod_pos_bound).
  assert (Hp4 : p mod 4 = 0).
  { unfold p. rewrite Z.mod_mod_divide by (by apply Z.mod_divide). rewrite Z.add_mod, Ht, Z.mul_comm, Z_mod_mult by lia. done. }
  assert (Hfit : p + 4 <= c) by (pose proof (Z.div_mod p 4); pose proof (Z.div_mod c 4); lia).
  rewrite load_total by lia. cbn [mbind option_bind].
  rewrite (IH (S k)); [|lia| |lia].
  2:{ unfold p. rewrite Z.add_mod_idemp_l by lia. f_equal. lia. }
  assert (Hel : forall j, (j < 4)%nat -> rb_data b !!! (Z.to_nat p + j)%nat = contents b !!! (4 * k + j)%nat).
  { intros j Hj. rewrite contents_total by lia. unfold at_pos. fold c.
    replace (rb_tail b + Z.of_nat (4 * k + j)) with (rb_tail b + 4 * Z.of_nat k + Z.of_nat j) by lia.
    rewrite <- Z.add_mod_idemp_l by lia. fold p. rewrite (Z.mod_small (p + Z.of_nat j)) by lia. f_equal. lia. }
  assert (Htake : take 4 (drop (Z.to_nat p) (rb_data b)) = take 4 (drop (4 * k) (contents b))).
  { apply (list_eq_same_length _ _ 4); [rewrite length_take, length_drop, contents_length; lia|rewrite length_take, length_drop; lia|].
    intros j x y Hj. rewrite !lookup_take_lt, !lookup_drop by lia. specialize (Hel j Hj). rewrite !list_lookup_total_alt in Hel.
    intros E1 E2. rewrite E1, E2 in Hel. done. }
  rewrite Htake. replace (4 * S count)%nat with (4 + 4 * count)%nat by lia. rewrite <- (take_take_drop _ 4).
  replace (4 * S k)%nat with (4 * k + 4)%nat by lia. rewrite <- drop_drop.
  assert (Hlen : length (take 4 (drop (4 * k) (contents b))) = 4%nat) by (rewrite length_take, length_drop, contents_length; lia).
  destruct (take 4 (drop (4 * k) (contents b))) as [|a0 [|a1 [|a2 [|a3 [|? ?]]]]]; try discriminate. done.
Qed.

(** Closing [count] descriptors of a buffer takes them off it. *)
Definition close_count (b : wl_ring_buffer) (max : Z) : Z :=
  let count := ring_buffer_size b / 4 in if (max >? 0) && (max <? count) then max else count.

Lemma close_fds_spec b max : fd_ring b -> let n := Z.to_nat (4 * close_count b max) in
  exists b', close_fds b max = Some (b', decode_fds (take n (contents b))) /\ fd_ring b' /\ contents b' = drop n (contents b).
Proof.
  intros [Hi Ht Hs] n. pose proof (ring_size_range b) as Hr. unfold close_fds.
  assert (Hc : 0 <= close_count b max /\ 4 * close_count b max <= ring_buffer_size b).
  { unfold close_count. pose proof (Z.div_mod (ring_buffer_size b) 4 ltac:(done)). destruct (max >? 0) eqn:E; cbn [andb]; [|lia].
    destruct (Z.ltb_spec max (ring_buffer_size b / 4)); lia. }
  destruct (Z.eqb_spec (ring_buffer_size b) 0) as [E|E].
  { exists b. assert (n = 0%nat) as -> by (unfold n; lia). rewrite take_0, drop_0. done. }
  fold (close_count b max). set (cnt := close_count b max) in *. unfold ring_buffer_close_fds.
  assert (Hok : ring_ok b /\ WL_BUFFER_DEFAULT_SIZE_POT <= size_bits b).
  { destruct (ri_memory b Hi) as [?|Hf]; [done|]. by rewrite (fresh_size b Hf) in E. }
  destruct Hok as [Hok Hbits]. rewrite mask_mod by apply (ro_bits b Hok). pose proof (capacity_pos b Hok).
  assert (Hm : 0 <= rb_tail b mod ring_buffer_capacity b < ring_buffer_capacity b) by (by apply Z.mod_pos_bound).
  rewrite (close_loop_ring b (Z.to_nat cnt) 0); try done; [|by apply capacity_words|lia| |lia].
  2:{ rewrite Z.mod_mod by lia. f_equal. lia. }
  cbn [mbind option_bind]. replace (4 * 0)%nat with 0%nat by lia. rewrite drop_0.
  replace (4 * Z.to_nat cnt)%nat with n by (unfold n; lia). eexists. split; [done|].
  destruct (inv_consume b (cnt * 4) Hi ltac:(lia)) as [H1 H2]. replace (Z.to_nat (cnt * 4)) with n in H2 by (unfold n; lia).
  split; [|done]. split; [done| |].
  - simpl. unfold u64. rewrite Z.mod_mod_divide by (by exists (2 ^ 62)). rewrite Z.add_mod, Ht, Z_mod_mult by lia. done.
  - rewrite size_contents, H2, length_drop, contents_length.
    replace (Z.of_nat (Z.to_nat (ring_buffer_size b) - n)) with (ring_buffer_size b + (- cnt) * 4) by (unfold n; lia).
    by rewrite Z_mod_plus_full.
Qed.

Lemma build_cmsg_spec b : ring_inv b -> build_cmsg b = Some (take 112 (contents b)).
Proof.
  intros Hb. unfold build_cmsg, MAX_FDS_OUT. pose proof (ring_size_range b). destruct (Z.gtb_spec (ring_buffer_size b) (28 * 4)).
  - by rewrite inv_copy by (done || lia).
  - rewrite inv_copy by (done || lia). rewrite take_ge by (rewrite contents_length; lia).
    by rewrite take_ge by (rewrite contents_length; lia).
Qed.

(** sendmsg takes exactly the descriptors that are closed after it. *)
Lemma close_count_sent b : fd_ring b -> take (Z.to_nat (4 * close_count b MAX_FDS_OUT)) (contents b) = take 112 (contents b) /\
  drop (Z.to_nat (4 * close_count b MAX_FDS_OUT)) (contents b) = drop 112 (contents b).
Proof.
  intros [_ _ Hs]. unfold close_count, MAX_FDS_OUT. pose proof (Z.div_mod (ring_buffer_size b) 4 ltac:(done)) as Hd. rewrite Hs in Hd.
  destruct (Z.ltb_spec 28 (ring_buffer_size b / 4)); cbn [andb Z.gtb Z.compare Pos.compare]; [done|].
  rewrite !take_ge, !drop_ge by (rewrite contents_length; lia). done.
Qed.

(** ** Sending *)

Record conn_ok (c : wl_connection) : Prop := {
  co_in : ring_inv (conn_in c);
  co_out : ring_inv (conn_out c);
  co_fds_in : fd_ring (fds_in c);
  co_fds_out : fd_ring (fds_out c) }.

Definition out_bytes (c : wl_connection) : list Z := contents (conn_out c).
Definition out_fds (c : wl_connection) : list Z := contents (fds_out c).

(** One message to the socket: at least one byte, and up to 28 descriptors; a single byte when
    there are that many. *)
Record transmit (c c' : wl_connection) (data cmsg : list Z) : Prop := {
  tr_bytes : out_bytes c = data ++ out_bytes c';
  tr_fds : out_fds c = cmsg ++ out_fds c';
  tr_some : data <> [];
  tr_cmsg : cmsg = take 112 (out_fds c);
  tr_full : (112 <= length (out_fds c))%nat -> length data = 1%nat;
  tr_wire : wire (os c') = wire (os c) ++ [(data, cmsg)];
  tr_closed : closed (os c') = closed (os c) ++ decode_fds cmsg;
  tr_in : conn_in c' = conn_in c /\ fds_in c' = fds_in c }.

Inductive transmits : wl_connection -> wl_connection -> Prop :=
| transmits_none c c' : out_bytes c' = out_bytes c -> out_fds c' = out_fds c -> wire (os c') = wire (os c) ->
    closed (os c') = closed (os c) -> conn_in c' = conn_in c -> fds_in c' = fds_in c -> transmits c c'
| transmits_more c c1 c' data cmsg : transmit c c1 data cmsg -> transmits c1 c' -> transmits c c'.

Lemma outgoing_spec c : conn_ok c -> 0 < ring_buffer_size (conn_out c) -> exists data,
  outgoing c = Some (data, take 112 (out_fds c)) /\ data <> [] /\ data = take (length data) (out_bytes c) /\
  ((112 <= length (out_fds c))%nat -> length data = 1%nat).
Proof.
  intros [Hi Ho Hfi Hfo] Hs. unfold outgoing. rewrite build_cmsg_spec by apply (fr_inv _ Hfo). cbn [mbind option_bind].
  fold (out_fds c). assert (Hok : ring_ok (conn_out c)).
  { destruct (ri_memory _ Ho) as [[? _]|Hf]; [done|]. rewrite (fresh_size _ Hf) in Hs. lia. }
  assert (Hlen : (0 < length (out_bytes c))%nat) by (unfold out_bytes; rewrite contents_length; lia).
  destruct (Z.geb_spec (Z.of_nat (length (take 112 (out_fds c)))) (MAX_FDS_OUT * 4)) as [Hge|Hlt].
  - rewrite mask_mod by apply (ro_bits _ Hok). pose proof (tail_pieces (conn_out c) 1 Hok ltac:(lia)) as Hp. cbv zeta in Hp.
    pose proof (capacity_pos _ Hok) as Hc. pose proof (ro_data _ Hok) as Hd.
    pose proof (Z.mod_pos_bound (rb_tail (conn_out c)) (ring_buffer_capacity (conn_out c)) Hc).
    rewrite Z.min_l, Z.sub_diag, app_nil_r in Hp by lia. cbn [gather foldr]. rewrite load_total by lia.
    cbn [mbind option_bind fmap option_fmap option_map]. rewrite Hp, app_nil_r.
    exists (take 1 (out_bytes c)). split; [done|]. rewrite length_take_le by lia. split; [|done].
    intros E. apply (f_equal length) in E. rewrite length_take_le in E by lia. done.
  - rewrite ring_buffer_get_iov_spec by done. cbn [mbind option_bind]. exists (out_bytes c). split; [done|].
    split; [intros E; rewrite E in Hlen; simpl in Hlen; lia|]. split; [by rewrite take_ge|].
    unfold MAX_FDS_OUT in Hlt. rewrite length_take in Hlt. lia.
Qed.

Lemma after_send_spec c data len : conn_ok c -> data = take (length data) (out_bytes c) ->
  ((112 <= length (out_fds c))%nat -> length data = 1%nat) -> 1 <= len <= Z.of_nat (length data) ->
  exists c', after_send len data (take 112 (out_fds c)) c = Some c' /\ conn_ok c' /\
    transmit c c' (take (Z.to_nat len) data) (take 112 (out_fds c)).
Proof.
  intros [Hi Ho Hfi Hfo] Hd Hfull Hlen. unfold after_send. set (c1 := c <{ os ::= _ }>).
  destruct (close_fds_spec (fds_out c1) MAX_FDS_OUT Hfo) as (b' & -> & Hb' & Hc'). cbn [mbind option_bind].
  destruct (close_count_sent (fds_out c) Hfo) as [E1 E2]. change (fds_out c1) with (fds_out c) in *. rewrite E2 in Hc'.
  assert (Hl : (length data <= length (out_bytes c))%nat) by (rewrite Hd, length_take; lia).
  unfold out_bytes in Hl. rewrite contents_length in Hl. pose proof (ring_size_range (conn_out c)).
  destruct (inv_consume (conn_out c) len Ho ltac:(lia)) as [H1 H2].
  eexists. split; [done|]. split; [by split|]. split.
  - unfold out_bytes. simpl. rewrite H2. rewrite Hd at 1. unfold out_bytes. rewrite take_take, Nat.min_l by lia. by rewrite take_drop.
  - unfold out_fds. simpl. rewrite Hc'. by rewrite take_drop.
  - intros E. apply (f_equal length) in E. rewrite length_take in E. simpl in E. lia.
  - done.
  - intros Hf. specialize (Hfull Hf). rewrite length_take. lia.
  - done.
  - simpl. by rewrite E1.
  - done.
Qed.

Lemma transmits_trans c1 c2 c3 : transmits c1 c2 -> transmits c2 c3 -> transmits c1 c3.
Proof.
  intros H1. revert c3. induction H1 as [c c' E1 E2 E3 E4 E5 E6|]; intros c3 H2; [|eapply transmits_more; eauto].
  inversion H2 as [c2 c4 F1 F2 F3 F4 F5 F6|c2 c4 c5 d m [T1 T2 T3 T4 T5 T6 T7 [T8 T9]] Hr].
  - apply transmits_none; congruence.
  - apply (transmits_more c c4 c3 d m); [|done].
    split; [congruence|congruence|done|by rewrite <- E2|by rewrite <- E2|congruence|congruence|split; congruence].
Qed.

Lemma conn_ok_want c w : conn_ok c -> conn_ok (c <{ want_flush := w }>).
Proof. intros [H1 H2 H3 H4]. by split. Qed.

Lemma transmits_want c c' w : transmits c c' -> transmits c (c' <{ want_flush := w }>).
Proof. intros H. eapply transmits_trans; [done|]. by apply transmits_none. Qed.

(** States that differ in what the kernel will answer only. *)
Lemma conn_ok_sends c f : conn_ok c -> conn_ok (c <{ os ::= f }>).
Proof. intros [H1 H2 H3 H4]. by split. Qed.

Lemma flush_loop_spec answers c : conn_ok c -> exists c' e, flush_loop answers c = Some (c', e) /\
  conn_ok c' /\ transmits c c' /\ (e = None -> out_bytes c' = []).
Proof.
  revert c. induction answers as [|a answers IH]; intros c Hc; cbn [flush_loop].
  all: destruct (Z.gtb_spec (ring_buffer_size (conn_out c)) 0) as [Hs|Hs]; cbn [negb].
  1: destruct (outgoing_spec c Hc Hs) as (data & -> & _); simpl.
  1-2: eexists _, _; split; [done|]; split; [by apply conn_ok_sends|]; split; [by apply transmits_none|].
  1: done.
  1: intros _; apply nil_length_inv; simpl; unfold out_bytes; rewrite contents_length; simpl; lia.
  2:{ eexists _, _. split; [done|]. split; [by apply conn_ok_sends|]. split; [by apply transmits_none|].
      intros _. apply nil_length_inv. unfold out_bytes. rewrite contents_length. simpl. lia. }
  destruct (outgoing_spec c Hc Hs) as (data & -> & Hne & Hd & Hfull). cbn [mbind option_bind].
  destruct a as [n|e].
  - assert (0 < length data)%nat by (destruct data; [done|simpl; lia]).
    destruct (after_send_spec c data (Z.max 1 (Z.min n (Z.of_nat (length data)))) Hc Hd Hfull ltac:(lia)) as (c1 & -> & Hc1 & Ht).
    cbn [mbind option_bind]. destruct (IH c1 Hc1) as (c' & e & E & H1 & H2 & H3). exists c', e. split; [done|].
    split; [done|]. split; [by eapply transmits_more|done].
  - destruct e; [|by apply IH| |]; eexists _, _; (split; [done|]; split; [by apply conn_ok_sends|]; split; [by apply transmits_none|done]).
Qed.

Lemma flush_spec c : conn_ok c -> exists c' r, wl_connection_flush c = Some (c', r) /\ conn_ok c' /\ transmits c c' /\
  (want_flush c = true -> snd r = None -> out_bytes c' = []).
Proof.
  intros Hc. unfold wl_connection_flush. destruct (want_flush c); cbn [negb].
  - destruct (flush_loop_spec (sends (os c)) c Hc) as (c' & e & -> & H1 & H2 & H3). cbn [mbind option_bind fst snd].
    destruct e as [e|]; eexists _, _; (split; [done|]); [done|]. split; [by apply conn_ok_want|]. split; [by apply transmits_want|].
    intros _ _. by apply H3.
  - exists c, (0, None). split; [done|]. split; [done|]. split; [by apply transmits_none|done].
Qed.

Lemma try_flush_spec c : conn_ok c -> exists c' ok, try_flush c = Some (c', ok) /\ conn_ok c' /\ transmits c c'.
Proof.
  intros Hc. unfold try_flush. destruct (flush_spec (c <{ want_flush := true }>)) as (c' & r & -> & H1 & H2 & _).
  { by apply conn_ok_want. }
  cbn [mbind option_bind]. eexists _, _. split; [done|]. split; [done|]. eapply transmits_trans; [|done]. by apply transmits_none.
Qed.

(** What a run of messages to the socket keeps. *)
Lemma transmits_streams c c' : transmits c c' ->
  concat (map fst (wire (os c'))) ++ out_bytes c' = concat (map fst (wire (os c))) ++ out_bytes c /\
  concat (map snd (wire (os c'))) ++ out_fds c' = concat (map snd (wire (os c))) ++ out_fds c /\
  conn_in c' = conn_in c /\ fds_in c' = fds_in c.
Proof.
  induction 1 as [c c' E1 E2 E3 E4 E5 E6|c c1 c' d m [] Hr (I1 & I2 & I3 & I4)]; [by rewrite E1, E2, E3|].
  destruct tr_in0 as [T1 T2]. split_and!; [| |congruence..].
  - rewrite I1, tr_bytes0, tr_wire0, map_app, concat_app. simpl. by rewrite app_nil_r, <- app_assoc.
  - rewrite I2, tr_fds0, tr_wire0, map_app, concat_app. simpl. by rewrite app_nil_r, <- app_assoc.
Qed.

(** ** Queueing *)

Lemma ensure_space_tail a b n b' e : ring_buffer_ensure_space a b n = Some (b', e) -> rb_tail b' = rb_tail b \/ rb_tail b' = 0.
Proof.
  unfold ring_buffer_ensure_space, ring_buffer_allocate. destruct (_ >? _); [intros [= <- _]; by left|].
  destruct (_ =? _); [intros [= <- _]; by left|]. destruct a; cbn [negb]; [|intros [= <- _]; by left].
  destruct (ring_buffer_copy _ _) as [old|]; [|done]. cbn [mbind option_bind]. destruct (store _ _ _) as [mem|]; [|done].
  intros [= <- _]. by right.
Qed.

Lemma ensure_fd_ring a b n : fd_ring b -> 0 <= n -> ring_buffer_size b + n <= 2 ^ 63 ->
  exists b' e, ring_buffer_ensure_space a b n = Some (b', e) /\ fd_ring b' /\ contents b' = contents b /\
    max_size_bits b' = max_size_bits b /\ (e = None -> ring_ok b' /\ ring_buffer_size b' + n <= ring_buffer_capacity b').
Proof.
  intros [H1 H2 H3] Hn Hs. destruct (ensure_space_spec a b n H1 Hn Hs) as (b' & e & E & F1 & F2 & F3 & Fm & F4).
  exists b', e. split; [done|]. split; [|by split; [|split; [|intros ->]]]. split; [done| |by rewrite F3].
  destruct (ensure_space_tail _ _ _ _ _ E) as [-> | ->]; done.
Qed.

Lemma ensure_out_spec c n : conn_ok c -> 0 <= n -> Z.of_nat (length (out_bytes c)) + n <= 2 ^ 63 ->
  exists c' e, ensure_out n c = Some (c', e) /\ conn_ok c' /\ transmits c c' /\
    (e = None -> ring_ok (conn_out c') /\ ring_buffer_size (conn_out c') + n <= ring_buffer_capacity (conn_out c')).
Proof.
  intros [H1 H2 H3 H4] Hn Hs. unfold out_bytes in Hs. rewrite <- size_contents in Hs. unfold ensure_out, ensure.
  destruct (ensure_space_spec (next_alloc c) (conn_out c) n H2 Hn Hs) as (b' & e & -> & F1 & F2 & F3 & _ & F4).
  cbn [mbind option_bind fst snd]. eexists _, _. split; [done|]. split; [by split|]. split; [by apply transmits_none|]. by intros ->.
Qed.

Lemma ensure_fds_out_spec c n : conn_ok c -> 0 <= n -> Z.of_nat (length (out_fds c)) + n <= 2 ^ 63 ->
  exists c' e, ensure_fds_out n c = Some (c', e) /\ conn_ok c' /\ transmits c c' /\
    (e = None -> ring_ok (fds_out c') /\ ring_buffer_size (fds_out c') + n <= ring_buffer_capacity (fds_out c')).
Proof.
  intros [H1 H2 H3 H4] Hn Hs. unfold out_fds in Hs. rewrite <- size_contents in Hs. unfold ensure_fds_out, ensure.
  destruct (ensure_fd_ring (next_alloc c) (fds_out c) n H4 Hn Hs) as (b' & e & -> & F1 & F2 & _ & F3).
  cbn [mbind option_bind fst snd]. eexists _, _. split; [done|]. split; [by split|]. split; [by apply transmits_none|]. done.
Qed.

(** Bytes and descriptors were added to the queues. *)
Record enqueue (c c' : wl_connection) (data fds : list Z) : Prop := {
  eq_bytes : out_bytes c' = out_bytes c ++ data;
  eq_fds : out_fds c' = out_fds c ++ fds;
  eq_wire : wire (os c') = wire (os c) }.

(** First what is queued may be sent, then more is queued; or the call fails. *)
Definition queued (c c' : wl_connection) (ok : bool) (data fds : list Z) : Prop :=
  if ok then exists c1, transmits c c1 /\ enqueue c1 c' data fds else transmits c c'.

(** What is left to send does not grow. *)
Lemma transmits_length c c' : transmits c c' ->
  (length (out_bytes c') <= length (out_bytes c))%nat /\ (length (out_fds c') <= length (out_fds c))%nat.
Proof.
  induction 1 as [c c' E1 E2 _ _ _ _|c c1 c' d m [T1 T2 _ _ _ _ _ _] _ [I1 I2]]; [by rewrite E1, E2|].
  rewrite T1, T2, !length_app. lia.
Qed.

Lemma maybe_flush (b : bool) c : conn_ok c -> exists c' ok, (if b then try_flush c else Some (c, true)) = Some (c', ok) /\
  conn_ok c' /\ transmits c c'.
Proof. intros Hc. destruct b; [by apply try_flush_spec|]. exists c, true. split; [done|]. split; [done|]. by apply transmits_none. Qed.

Lemma queue_spec c data : conn_ok c -> Z.of_nat (length (out_bytes c) + length data) <= 2 ^ 63 ->
  exists c' ok, wl_connection_queue c data = Some (c', ok) /\ conn_ok c' /\ queued c c' ok data [].
Proof.
  intros Hc Hs. unfold wl_connection_queue.
  destruct (maybe_flush (u64 (ring_buffer_size (conn_out c) + Z.of_nat (length data)) >? WL_BUFFER_DEFAULT_MAX_SIZE) c Hc)
    as (c1 & ok & -> & Hc1 & Ht1). cbn [mbind option_bind fst snd]. destruct ok; cbn [negb]; [|by eexists _, false].
  destruct (transmits_length _ _ Ht1) as [Hl _].
  destruct (ensure_out_spec c1 (Z.of_nat (length data)) Hc1 ltac:(lia) ltac:(lia)) as (c2 & e & -> & Hc2 & Ht2 & Hsp).
  cbn [mbind option_bind fst snd]. pose proof (transmits_trans _ _ _ Ht1 Ht2) as Ht.
  destruct e as [e|]; [by eexists _, false|]. destruct (Hsp eq_refl) as [Hok Hfit].
  destruct (inv_put (conn_out c2) data (co_out _ Hc2) Hok Hfit) as (b & -> & Hb & Hcb). cbn [mbind option_bind].
  eexists _, true. split; [done|]. split; [destruct Hc2; by split|]. exists c2. split; [done|]. split; [done| |done].
  by rewrite app_nil_r.
Qed.

Lemma write_spec c data : conn_ok c -> Z.of_nat (length (out_bytes c) + length data) <= 2 ^ 63 ->
  exists c' ok, wl_connection_write c data = Some (c', ok) /\ conn_ok c' /\ queued c c' ok data [].
Proof.
  intros Hc Hs. unfold wl_connection_write. destruct (queue_spec c data Hc Hs) as (c1 & ok & -> & Hc1 & Hq).
  cbn [mbind option_bind fst snd]. destruct ok; cbn [negb]; [|by eexists _, false]. eexists _, true. split; [done|].
  split; [by apply conn_ok_want|]. destruct Hq as (c2 & Ht & []). exists c2. split; [done|]. by split.
Qed.

Lemma put_fd_spec c fd : conn_ok c -> Z.of_nat (length (out_fds c)) + 4 <= 2 ^ 63 ->
  exists c' ok, wl_connection_put_fd c fd = Some (c', ok) /\ conn_ok c' /\ queued c c' ok [] (le32 fd).
Proof.
  intros Hc Hs. unfold wl_connection_put_fd.
  destruct (maybe_flush (ring_buffer_size (fds_out c) >=? MAX_FDS_OUT * 4) c Hc) as (c1 & ok & -> & Hc1 & Ht1).
  cbn [mbind option_bind fst snd]. destruct ok; cbn [negb]; [|by eexists _, false].
  destruct (transmits_length _ _ Ht1) as [_ Hl].
  destruct (ensure_fds_out_spec c1 4 Hc1 ltac:(lia) ltac:(lia)) as (c2 & e & -> & Hc2 & Ht2 & Hsp).
  cbn [mbind option_bind fst snd]. pose proof (transmits_trans _ _ _ Ht1 Ht2) as Ht.
  destruct e as [e|]; [by eexists _, false|]. destruct (Hsp eq_refl) as [Hok Hfit].
  pose proof (co_fds_out _ Hc2) as [F1 F2 F3].
  destruct (ring_buffer_put_spec (fds_out c2) (le32 fd) Hok Hfit) as (b0 & E0 & _ & _ & _ & _ & Htl).
  destruct (inv_put (fds_out c2) (le32 fd) F1 Hok Hfit) as (b & E & Hb & Hcb). rewrite E. cbn [mbind option_bind].
  assert (b0 = b) as -> by congruence.
  eexists _, true. split; [done|]. split.
  - destruct Hc2. split; try done. split; [done|simpl; by rewrite Htl|]. simpl. rewrite size_contents, Hcb, length_app, Nat2Z.inj_add, <- size_contents.
    simpl. rewrite Z.add_mod, F3 by lia. done.
  - exists c2. split; [done|]. split; [|done|done]. by rewrite app_nil_r.
Qed.

(** ** Messages *)

(** A message: its descriptors are queued, then its bytes. *)
Fixpoint put_fds (c : wl_connection) (fds : list Z) : option (wl_connection * bool) :=
  match fds with
  | [] => Some (c, true)
  | fd :: fds => wl_connection_put_fd c fd ≫= fun r : wl_connection * bool => if snd r then put_fds (fst r) fds else Some r
  end.

Definition send_message (c : wl_connection) (fds data : list Z) : option (wl_connection * bool) :=
  put_fds c fds ≫= fun r : wl_connection * bool => if snd r then wl_connection_write (fst r) data else Some r.

(** What a server does with a connection, until a message fails: how many messages it sent. *)
Inductive conn_op := SendMessage (fds data : list Z) | Flush.

Fixpoint run_ops (c : wl_connection) (ops : list conn_op) : option (wl_connection * nat) :=
  match ops with
  | [] => Some (c, 0%nat)
  | Flush :: ops => wl_connection_flush c ≫= fun r => run_ops (fst r) ops
  | SendMessage fds data :: ops =>
      send_message c fds data ≫= fun r : wl_connection * bool =>
      if snd r then run_ops (fst r) ops ≫= fun r' => Some (fst r', S (snd r')) else Some (fst r, 0%nat)
  end.

Definition messages (ops : list conn_op) : list (list Z * list Z) :=
  omap (fun o => match o with SendMessage fds data => Some (fds, data) | Flush => None end) ops.

Definition msg_bytes (ms : list (list Z * list Z)) : list Z := concat (map snd ms).
Definition msg_fds (ms : list (list Z * list Z)) : list Z := concat (map (fun m => concat (map le32 (fst m))) ms).
Definition wire_bytes (w : list (list Z * list Z)) : list Z := concat (map fst w).
Definition wire_fds (w : list (list Z * list Z)) : list Z := concat (map snd w).

(** A message has at least a byte for each 28 descriptors: it has 8 bytes at least, and 20
    arguments at most. *)
Definition message_ok (m : list Z * list Z) : Prop := snd m <> [] /\ (length (fst m) <= 28 * length (snd m))%nat.

(** The bytes and the descriptors up to the end of a message. *)
Definition mark (ms : list (list Z * list Z)) : nat * nat := (length (msg_bytes ms), length (msg_fds ms)).

(** [marks] are ends of messages: the descriptors come with their messages or before, on the
    wire so far and on any wire that continues it. *)
Record ordered (marks : list (nat * nat)) (extra : nat) (c : wl_connection) : Prop := {
  or_wire : forall w1 w2, wire (os c) = w1 ++ w2 -> forall b f, (b, f) ∈ marks ->
    (b <= length (wire_bytes w1))%nat -> (f <= length (wire_fds w1))%nat;
  or_marks : forall b f, (b, f) ∈ marks -> (f <= length (wire_fds (wire (os c))) + 112 * (b - length (wire_bytes (wire (os c)))))%nat /\
    (f <= length (wire_fds (wire (os c))) + length (out_fds c))%nat;
  or_rest : (length (out_fds c) <= 112 * length (out_bytes c) + extra)%nat }.

Lemma wire_app w m : wire_bytes (w ++ [m]) = wire_bytes w ++ fst m /\ wire_fds (w ++ [m]) = wire_fds w ++ snd m.
Proof. unfold wire_bytes, wire_fds. rewrite !map_app, !concat_app. simpl. by rewrite !app_nil_r. Qed.

Lemma transmit_lengths c c' data cmsg : transmit c c' data cmsg ->
  (length (out_bytes c) = length data + length (out_bytes c') /\ length (out_fds c) = length cmsg + length (out_fds c') /\
  0 < length data /\ (length cmsg = 112 /\ length data = 1 \/ length cmsg < 112 /\ length (out_fds c') = 0))%nat.
Proof.
  intros [T1 T2 T3 T4 T5 _ _ _]. rewrite T1 at 1. rewrite T2 at 1. rewrite !length_app. split; [done|]. split; [done|].
  split; [destruct data; [done|simpl; lia]|]. assert (Hl : length cmsg = Nat.min 112 (length (out_fds c))) by (by rewrite T4, length_take).
  destruct (decide (112 <= length (out_fds c))%nat) as [Hf|Hf]; [left; split; [lia|by apply T5]|right].
  apply (f_equal length) in T2. rewrite length_app in T2. lia.
Qed.

Lemma prefix_snoc {A} (w1 w2 w : list A) m : w ++ [m] = w1 ++ w2 -> w1 = w ++ [m] \/ exists w3, w = w1 ++ w3.
Proof.
  destruct w2 as [|x w2 _] using rev_ind; [rewrite app_nil_r; intros ->; by left|].
  rewrite app_assoc. intros [E _]%app_inj_tail. right. by exists w2.
Qed.

Lemma ordered_transmit marks extra c c' data cmsg : transmit c c' data cmsg -> ordered marks extra c -> ordered marks extra c'.
Proof.
  intros Ht [O1 O2 O3]. destruct (transmit_lengths _ _ _ _ Ht) as (L1 & L2 & L3 & L4). pose proof (tr_wire _ _ _ _ Ht) as Hw.
  destruct (wire_app (wire (os c)) (data, cmsg)) as [E1 E2]. rewrite <- Hw in E1, E2. simpl in E1, E2.
  apply (f_equal length) in E1, E2. rewrite length_app in E1, E2.
  assert (Hm : forall b f, (b, f) ∈ marks ->
    (f <= length (wire_fds (wire (os c'))) + 112 * (b - length (wire_bytes (wire (os c')))))%nat /\
    (f <= length (wire_fds (wire (os c'))) + length (out_fds c'))%nat).
  { intros b f Hbf. destruct (O2 b f Hbf). lia. }
  split; [|done|lia]. intros w1 w2 E b f Hbf Hb. rewrite Hw in E. apply prefix_snoc in E as [->|[w3 E]].
  - rewrite <- Hw in *. destruct (Hm b f Hbf). lia.
  - by eapply O1.
Qed.

Lemma ordered_transmits marks extra c c' : transmits c c' -> ordered marks extra c -> ordered marks extra c'.
Proof.
  induction 1 as [c c' E1 E2 E3 _ _ _|]; intros Ho; [|eauto using ordered_transmit].
  destruct Ho as [O1 O2 O3]. split; by rewrite ?E1, ?E2, ?E3.
Qed.

Lemma ordered_fds marks extra c c' fds : enqueue c c' [] fds -> ordered marks extra c -> ordered marks (extra + length fds) c'.
Proof.
  intros [E1 E2 E3] [O1 O2 O3]. rewrite app_nil_r in E1. split; rewrite ?E3, ?E1, ?E2, ?length_app; [done| |lia].
  intros b f Hbf. destruct (O2 b f Hbf). lia.
Qed.

(** The end of a message: its bytes are queued after its descriptors. *)
Lemma ordered_message marks extra c c' data : enqueue c c' data [] -> data <> [] -> (extra <= 112 * length data)%nat ->
  ordered marks extra c ->
  ordered ((length (wire_bytes (wire (os c'))) + length (out_bytes c'), length (wire_fds (wire (os c'))) + length (out_fds c'))%nat :: marks) 0 c'.
Proof.
  intros [E1 E2 E3] Hd Hx [O1 O2 O3]. assert (0 < length data)%nat by (destruct data; [done|simpl; lia]).
  rewrite app_nil_r in E2. split; rewrite ?E3, ?E1, ?E2, ?length_app; [| |lia].
  - intros w1 w2 E b f [[= -> ->]|Hbf]%elem_of_cons Hb; [|by eapply O1].
    rewrite E in Hb. unfold wire_bytes in Hb. rewrite map_app, concat_app, length_app in Hb. lia.
  - intros b f [[= -> ->]|Hbf]%elem_of_cons; [lia|by apply O2].
Qed.

Definition marks_of (ms : list (list Z * list Z)) : list (nat * nat) := map (fun j => mark (take j ms)) (seq 1 (length ms)).

Lemma marks_snoc ms m b f : (b, f) ∈ marks_of (ms ++ [m]) -> (b, f) = mark (ms ++ [m]) \/ (b, f) ∈ marks_of ms.
Proof.
  unfold marks_of. rewrite length_app, Nat.add_1_r, seq_S, map_app, elem_of_app. intros [H|H].
  - right. apply list_elem_of_In, in_map_iff in H as (j & E & Hj). apply in_seq in Hj. rewrite take_app_le in E by lia.
    rewrite <- E. apply list_elem_of_In, (in_map (fun j => mark (take j ms))), in_seq. lia.
  - left. simpl in H. apply list_elem_of_singleton in H as ->. rewrite take_ge; [done|]. rewrite length_app. simpl. lia.
Qed.

Lemma ordered_sub marks marks' extra c : (forall b f, (b, f) ∈ marks' -> (b, f) ∈ marks) -> ordered marks extra c -> ordered marks' extra c.
Proof. intros Hs [O1 O2 O3]. split; eauto. Qed.

(** The state after the messages [ms], when the descriptors [xf] of the next one are queued. *)
Record run_inv (ms : list (list Z * list Z)) (xf : list Z) (c : wl_connection) : Prop := {
  rn_ok : conn_ok c;
  rn_bytes : wire_bytes (wire (os c)) ++ out_bytes c = msg_bytes ms;
  rn_fds : wire_fds (wire (os c)) ++ out_fds c = msg_fds ms ++ xf;
  rn_order : ordered (marks_of ms) (length xf) c }.

Lemma run_inv_lengths ms xf c : run_inv ms xf c -> (length (out_bytes c) <= length (msg_bytes ms))%nat /\
  (length (out_fds c) <= length (msg_fds ms) + length xf)%nat.
Proof.
  intros [_ H1 H2 _]. apply (f_equal length) in H1, H2. rewrite length_app in H1. rewrite !length_app in H2. lia.
Qed.

Lemma run_transmits ms xf c c' : conn_ok c' -> transmits c c' -> run_inv ms xf c -> run_inv ms xf c'.
Proof.
  intros Hc' Ht [H0 H1 H2 H3]. destruct (transmits_streams _ _ Ht) as (T1 & T2 & _).
  split; [done|by rewrite <- H1|by rewrite <- H2|by eapply ordered_transmits].
Qed.

Lemma concat_le32_length fds : length (concat (map le32 fds)) = (4 * length fds)%nat.
Proof. induction fds as [|fd fds IH]; [done|]. simpl. rewrite IH. lia. Qed.

Definition room (ms : list (list Z * list Z)) (xf : list Z) : Prop :=
  Z.of_nat (length (msg_bytes ms)) <= 2 ^ 62 /\ Z.of_nat (length (msg_fds ms) + length xf) <= 2 ^ 62.

Lemma put_fds_spec ms fds xf c : run_inv ms xf c -> room ms (xf ++ concat (map le32 fds)) ->
  exists c' ok xf', put_fds c fds = Some (c', ok) /\ run_inv ms xf' c' /\ xf' `prefix_of` xf ++ concat (map le32 fds) /\
    (ok = true -> xf' = xf ++ concat (map le32 fds)).
Proof.
  revert xf c. induction fds as [|fd fds IH]; intros xf c Hr Hroom.
  { exists c, true, xf. simpl. rewrite app_nil_r. done. }
  change (concat (map le32 (fd :: fds))) with (le32 fd ++ concat (map le32 fds)) in *. destruct Hroom as [R1 R2]. rewrite !length_app in R2.
  destruct (run_inv_lengths _ _ _ Hr) as [L1 L2]. cbn [put_fds].
  destruct (put_fd_spec c fd (rn_ok _ _ _ Hr)) as (c1 & ok & -> & Hc1 & Hq); [simpl in R2; lia|]. cbn [mbind option_bind fst snd].
  destruct ok.
  - assert (Hr1 : run_inv ms (xf ++ le32 fd) c1).
    { destruct Hq as (c0 & Ht & He). destruct (transmits_streams _ _ Ht) as (T1 & T2 & _). destruct Hr as [H0 H1 H2 H3].
      pose proof (ordered_fds _ _ _ _ _ He (ordered_transmits _ _ _ _ Ht H3)) as Ho. destruct He as [E1 E2 E3].
      split; [done| | |].
      - rewrite E1, E3, app_nil_r. by rewrite <- H1.
      - rewrite E2, E3, (app_assoc (wire_fds _)), (app_assoc (msg_fds ms)). f_equal. by rewrite <- H2.
      - by rewrite length_app. }
    destruct (IH _ _ Hr1) as (c' & ok & xf' & E & I1 & I2 & I3); [by rewrite <- app_assoc; split; rewrite ?length_app|].
    exists c', ok, xf'. rewrite <- app_assoc in I2, I3. done.
  - exists c1, false, xf. split; [done|]. split; [by eapply run_transmits|]. split; [|done]. by exists (le32 fd ++ concat (map le32 fds)).
Qed.

Lemma send_message_spec ms fds data c : run_inv ms [] c -> message_ok (fds, data) -> room (ms ++ [(fds, data)]) [] ->
  exists c' ok, send_message c fds data = Some (c', ok) /\
    if ok then run_inv (ms ++ [(fds, data)]) [] c'
    else exists xf', run_inv ms xf' c' /\ xf' `prefix_of` concat (map le32 fds).
Proof.
  intros Hr [Hd Hf] [R1 R2]. assert (Eb : msg_bytes (ms ++ [(fds, data)]) = msg_bytes ms ++ data).
  { unfold msg_bytes. rewrite map_app, concat_app. simpl. by rewrite app_nil_r. }
  assert (Ef : msg_fds (ms ++ [(fds, data)]) = msg_fds ms ++ concat (map le32 fds)).
  { unfold msg_fds. rewrite map_app, concat_app. simpl. by rewrite app_nil_r. }
  rewrite Eb in R1. rewrite Ef in R2. rewrite !length_app in *. unfold send_message.
  destruct (put_fds_spec ms fds [] c Hr) as (c1 & ok & xf & -> & H1 & H2 & H3); [by split; simpl in *; lia|].
  cbn [mbind option_bind fst snd]. destruct ok; [|by exists c1, false; split; [|exists xf]]. rewrite (H3 eq_refl) in *. clear H2 H3.
  destruct (run_inv_lengths _ _ _ H1) as [L1 L2].
  destruct (write_spec c1 data (rn_ok _ _ _ H1)) as (c2 & ok & -> & Hc2 & Hq); [lia|]. exists c2, ok. split; [done|].
  destruct ok; [|exists (concat (map le32 fds)); split; [by eapply run_transmits|done]].
  destruct Hq as (c0 & Ht & He). destruct (transmits_streams _ _ Ht) as (T1 & T2 & _). destruct H1 as [H0 H1 H2 H3].
  assert (B : wire_bytes (wire (os c2)) ++ out_bytes c2 = msg_bytes (ms ++ [(fds, data)])).
  { destruct He as [E1 E2 E3]. rewrite Eb, E1, E3, app_assoc. f_equal. by rewrite <- H1. }
  assert (F : wire_fds (wire (os c2)) ++ out_fds c2 = msg_fds (ms ++ [(fds, data)]) ++ []).
  { destruct He as [E1 E2 E3]. rewrite Ef, E2, E3, !app_nil_r. by etransitivity. }
  split; [done|done|done|]. rewrite app_nil_l, concat_le32_length in H3. simpl in Hf.
  eapply ordered_sub; [|by eapply ordered_message; [done|done| |by eapply ordered_transmits]; lia].
  intros b f [Hm|Hm]%marks_snoc; [|by apply list_elem_of_further]. rewrite Hm. unfold mark.
  rewrite <- B. rewrite app_nil_r in F. rewrite <- F, !length_app. apply list_elem_of_here.
Qed.

Lemma room_prefix ms ms' xf : room (ms ++ ms') xf -> room ms [].
Proof.
  unfold room, msg_bytes, msg_fds. rewrite !map_app, !concat_app, !length_app. simpl. lia.
Qed.

Lemma run_ops_spec ops ms c : run_inv ms [] c -> Forall message_ok (messages ops) -> room (ms ++ messages ops) [] ->
  exists c' n xf, run_ops c ops = Some (c', n) /\ run_inv (ms ++ take n (messages ops)) xf c' /\
    (n <= length (messages ops))%nat /\ msg_fds (take n (messages ops)) ++ xf `prefix_of` msg_fds (messages ops).
Proof.
  revert ms c. induction ops as [|[fds data|] ops IH]; intros ms c Hr Hm Hroom.
  - exists c, 0%nat, []. split; [done|]. rewrite app_nil_r. split; [done|]. split; [lia|done].
  - change (messages (SendMessage fds data :: ops)) with ((fds, data) :: messages ops) in *. apply Forall_cons in Hm as [Hm Hms].
    replace (ms ++ (fds, data) :: messages ops) with ((ms ++ [(fds, data)]) ++ messages ops) in Hroom by (by rewrite <- app_assoc).
    cbn [run_ops]. destruct (send_message_spec ms fds data c Hr Hm (room_prefix _ _ _ Hroom)) as (c1 & ok & -> & Hs).
    cbn [mbind option_bind fst snd]. destruct ok.
    + destruct (IH _ _ Hs Hms Hroom) as (c' & n & xf & -> & I1 & I2 & I3). exists c', (S n), xf. split; [done|]. cbn [firstn].
      rewrite <- app_assoc in I1. split; [done|]. split; [simpl; lia|]. unfold msg_fds in *. simpl. rewrite <- app_assoc. by apply prefix_app.
    + destruct Hs as (xf & H1 & H2). exists c1, 0%nat, xf. split; [done|]. rewrite take_0, app_nil_r. split; [done|]. split; [lia|].
      unfold msg_fds. simpl. by apply prefix_app_r.
  - change (messages (Flush :: ops)) with (messages ops) in *. cbn [run_ops].
    destruct (flush_spec c (rn_ok _ _ _ Hr)) as (c1 & r & -> & H1 & H2 & _). cbn [mbind option_bind fst].
    apply IH; [by eapply run_transmits|done|done].
Qed.

(** ** A new connection *)

Lemma set_limit_inv b bits : ring_inv b -> bits = 0 \/ WL_BUFFER_DEFAULT_SIZE_POT <= bits <= 64 ->
  ring_inv (b <{ max_size_bits := bits }>) /\ contents (b <{ max_size_bits := bits }>) = contents b.
Proof.
  intros [_ Hm] Hl. split; [|done]. split; [done|]. destruct Hm as [[[H1 H2 H3 H4 H5 _] Hs]|Hf]; [left|by right]. split; [|done].
  split; try done. unfold WL_BUFFER_DEFAULT_SIZE_POT in Hl. simpl. lia.
Qed.

Lemma new_ring a bits : bits = 0 \/ WL_BUFFER_DEFAULT_SIZE_POT <= bits <= 64 ->
  exists b' e, ring_buffer_ensure_space a (ring_zero <{ max_size_bits := bits }>) 0 = Some (b', e) /\ fd_ring b' /\ contents b' = [] /\
    max_size_bits b' = bits.
Proof.
  intros Hl. destruct (set_limit_inv ring_zero bits zero_inv Hl) as [H1 H2].
  destruct (ensure_fd_ring a (ring_zero <{ max_size_bits := bits }>) 0) as (b' & e & E & F1 & F2 & F3 & _); [by split|done|done|].
  exists b', e. split; [done|]. split; [done|]. by rewrite F2.
Qed.

Lemma create_spec k max : 0 <= max <= 2 ^ 64 -> exists c, wl_connection_create k max = Some c /\ conn_ok c /\
  out_bytes c = [] /\ out_fds c = [] /\ contents (conn_in c) = [] /\ contents (fds_in c) = [] /\ wire (os c) = wire k /\
  (allocs k = [] -> allocs (os c) = [] /\ sends (os c) = sends k /\
     max_size_bits (conn_out c) = get_max_size_bits_for_size max /\ max_size_bits (fds_out c) = get_max_size_bits_for_size max).
Proof.
  intros Hm. pose proof (max_bits_ok max Hm) as Hl. unfold wl_connection_create, wl_connection_set_max_buffer_size.
  set (bits := get_max_size_bits_for_size max) in *. clearbody bits. unfold ensure_fds_in, ensure_fds_out, ensure_in, ensure_out, ensure.
  do 4 match goal with |- context [ring_buffer_ensure_space ?a ?b 0] =>
    let b' := fresh "b" in let E := fresh "E" in let e := fresh "e" in
    destruct (new_ring a bits Hl) as (b' & e & E & ? & ? & ?);
    change b with (ring_zero <{ max_size_bits := bits }>); rewrite E; cbn [mbind option_bind fst snd]; clear E end.
  eexists. split; [done|]. split; [split; simpl; try done; by apply fr_inv|]. do 5 (split; [done|]).
  intros Ha. simpl. rewrite Ha. split; [done|]. split; [done|]. split; congruence.
Qed.

(** ** Why a message is not queued *)

(** The socket may be full, but it does not fail; there is memory; the buffers have the limit
    [bits], none when it is 0. *)
Record benign (bits : Z) (c : wl_connection) : Prop := {
  bn_allocs : allocs (os c) = [];
  bn_sends : Forall (fun a => a <> SendFailed EOVERFLOW /\ a <> SendFailed EOTHER) (sends (os c));
  bn_out : max_size_bits (conn_out c) = bits;
  bn_fds : max_size_bits (fds_out c) = bits }.

(** [n] bytes pass the limit. *)
Definition over (bits : Z) (n : nat) : Prop := 0 < bits /\ 2 ^ bits < Z.of_nat n.

Lemma close_fds_limit b max b' fds : close_fds b max = Some (b', fds) -> max_size_bits b' = max_size_bits b.
Proof.
  unfold close_fds. destruct (_ =? 0); [by intros [= <- _]|]. destruct (ring_buffer_close_fds _ _); [|done]. by intros [= <- _].
Qed.

Lemma flush_loop_benign bits answers c c' e : flush_loop answers c = Some (c', e) ->
  benign bits (c <{ os ::= fun k => k <{ sends := answers }> }>) -> benign bits c' /\ (e = None \/ e = Some EAGAIN).
Proof.
  revert c. induction answers as [|a answers IH]; intros c; cbn [flush_loop];
    (destruct (negb _); [intros [= <- <-] Hb; split; [done|by left]|]);
    destruct (outgoing c) as [[data cmsg]|]; try done; cbn [mbind option_bind].
  { intros [= <- <-] Hb. split; [done|by right]. }
  intros E [B1 B2 B3 B4]. simpl in B2. apply Forall_cons in B2 as [[N1 N2] B2]. destruct a as [n|[]]; try done.
  - destruct (after_send _ data cmsg c) as [c1|] eqn:Ea; [|done]. cbn [mbind option_bind] in E. apply (IH c1 E).
    unfold after_send in Ea. destruct (close_fds _ _) as [[b fds]|] eqn:Ec; [|done]. injection Ea as <-. apply close_fds_limit in Ec.
    split; try done. simpl in *. congruence.
  - injection E as <- <-. split; [|by right]. by split.
  - apply (IH c E). by split.
Qed.

Lemma try_flush_benign bits c : conn_ok c -> benign bits c -> exists c', try_flush c = Some (c', true) /\ benign bits c'.
Proof.
  intros Hc Hb. destruct (try_flush_spec c Hc) as (c' & ok & E & _). unfold try_flush, wl_connection_flush in *. cbn [negb want_flush] in *.
  simpl in *. destruct (flush_loop (sends (os c)) (c <{ want_flush := true }>)) as [[c1 e]|] eqn:El; [|done].
  destruct (flush_loop_benign bits _ _ _ _ El) as [Hb1 He]; [destruct Hb; by split|]. cbn [mbind option_bind fst snd] in *.
  destruct He as [-> | ->]; cbn [mbind option_bind fst snd] in *; eexists; (split; [done|]); [|done]. destruct Hb1. by split.
Qed.

Lemma ensure_benign bits c n b : ring_inv b -> benign bits c -> max_size_bits b = bits -> 0 <= n -> ring_buffer_size b + n <= 2 ^ 63 ->
  exists b' e, ring_buffer_ensure_space (next_alloc c) b n = Some (b', e) /\ max_size_bits b' = bits /\
    match e with None => True | Some _ => b' = b /\ 0 < bits /\ 2 ^ bits < ring_buffer_size b + n end.
Proof.
  intros Hi Hb Hx Hn Hs. destruct (ensure_space_spec (next_alloc c) b n Hi Hn Hs) as (b' & e & E & _ & _ & _ & Hm & He).
  exists b', e. split; [done|]. split; [congruence|]. unfold next_alloc in He. rewrite (bn_allocs bits c Hb) in He.
  rewrite <- Hx. destruct e as [[]|]; [done|by destruct He|done].
Qed.

Lemma put_limit b data b' : ring_buffer_put b data = Some b' -> max_size_bits b' = max_size_bits b.
Proof.
  unfold ring_buffer_put. destruct (_ =? 0); [by intros [= <-]|]. by intros (mem & _ & ->)%fmap_Some.
Qed.

Lemma maybe_flush_benign bits (b : bool) c : conn_ok c -> benign bits c ->
  exists c', (if b then try_flush c else Some (c, true)) = Some (c', true) /\ benign bits c'.
Proof. intros Hc Hb. destruct b; [by apply try_flush_benign|]. by exists c. Qed.

Lemma write_benign bits c data c' ok : conn_ok c -> benign bits c -> Z.of_nat (length (out_bytes c) + length data) <= 2 ^ 63 ->
  wl_connection_write c data = Some (c', ok) -> if ok then benign bits c' else over bits (length (out_bytes c') + length data).
Proof.
  intros Hc Hb Hs. unfold wl_connection_write, wl_connection_queue.
  set (f := u64 _ >? _). destruct (maybe_flush f c Hc) as (c1 & ok1 & E1 & Hc1 & Ht1).
  destruct (maybe_flush_benign bits f c Hc Hb) as (c2 & E2 & Hb2). rewrite E1 in *. injection E2 as <- ->. cbn [mbind option_bind fst snd negb].
  destruct (transmits_length _ _ Ht1) as [Hl _]. unfold out_bytes in Hl, Hs. rewrite !contents_length in Hl. rewrite contents_length in Hs.
  pose proof (ring_size_range (conn_out c)). pose proof (ring_size_range (conn_out c1)). unfold ensure_out, ensure.
  destruct (ensure_benign bits c1 (Z.of_nat (length data)) (conn_out c1) (co_out _ Hc1) Hb2 (bn_out _ _ Hb2)) as (b & e & -> & Hx & He); [lia..|].
  cbn [mbind option_bind fst snd]. destruct e as [e|]; cbn [mbind option_bind fst snd negb].
  - intros [= <- <-]. destruct He as (-> & He). unfold over, out_bytes. simpl. rewrite contents_length. lia.
  - destruct (ring_buffer_put _ data) as [b'|] eqn:Ep; [|done]. apply put_limit in Ep.
    intros [= <- <-]. destruct Hb2. split; try done; simpl in *; [by rewrite bn_allocs0|congruence].
Qed.

Lemma put_fd_benign bits c fd c' ok : conn_ok c -> benign bits c -> Z.of_nat (length (out_fds c)) + 4 <= 2 ^ 63 ->
  wl_connection_put_fd c fd = Some (c', ok) -> if ok then benign bits c' else over bits (length (out_fds c') + 4).
Proof.
  intros Hc Hb Hs. unfold wl_connection_put_fd.
  set (f := _ >=? _). destruct (maybe_flush f c Hc) as (c1 & ok1 & E1 & Hc1 & Ht1).
  destruct (maybe_flush_benign bits f c Hc Hb) as (c2 & E2 & Hb2). rewrite E1 in *. injection E2 as <- ->. cbn [mbind option_bind fst snd negb].
  destruct (transmits_length _ _ Ht1) as [_ Hl]. unfold out_fds in Hl, Hs. rewrite !contents_length in Hl. rewrite contents_length in Hs.
  pose proof (ring_size_range (fds_out c)). pose proof (ring_size_range (fds_out c1)). unfold ensure_fds_out, ensure.
  destruct (ensure_benign bits c1 4 (fds_out c1) (fr_inv _ (co_fds_out _ Hc1)) Hb2 (bn_fds _ _ Hb2)) as (b & e & -> & Hx & He); [lia..|].
  cbn [mbind option_bind fst snd]. destruct e as [e|]; cbn [mbind option_bind fst snd negb].
  - intros [= <- <-]. destruct He as (-> & He). unfold over, out_fds. simpl. rewrite contents_length. lia.
  - destruct (ring_buffer_put _ (le32 fd)) as [b'|] eqn:Ep; [|done]. apply put_limit in Ep.
    intros [= <- <-]. destruct Hb2. split; try done; simpl in *; [by rewrite bn_allocs0|congruence].
Qed.

Lemma put_fds_benign bits ms fds xf c c' ok : run_inv ms xf c -> benign bits c -> room ms (xf ++ concat (map le32 fds)) ->
  put_fds c fds = Some (c', ok) -> if ok then benign bits c' else over bits (length (out_fds c') + 4).
Proof.
  revert xf c. induction fds as [|fd fds IH]; intros xf c Hr Hb Hroom; [by intros [= <- <-]|].
  change (concat (map le32 (fd :: fds))) with (le32 fd ++ concat (map le32 fds)) in Hroom.
  assert (Hroom' : room ms (xf ++ concat (map le32 [fd]))).
  { destruct Hroom as [R1 R2]. split; [done|]. rewrite !length_app in *. simpl in *. lia. }
  destruct (put_fds_spec ms [fd] xf c Hr Hroom') as (c1 & ok1 & xf' & E & Hr1 & _ & Hx). cbn [put_fds] in *.
  destruct (run_inv_lengths _ _ _ Hr) as [_ L2].
  destruct (wl_connection_put_fd c fd) as [[c2 ok2]|] eqn:Ep; [|done]. cbn [mbind option_bind fst snd] in *.
  pose proof (put_fd_benign bits c fd c2 ok2 (rn_ok _ _ _ Hr) Hb) as Hb2. destruct ok2; cbn [negb] in *.
  - injection E as <- <-. rewrite (Hx eq_refl) in Hr1. apply (IH (xf ++ le32 fd) c2); [| |by rewrite <- app_assoc].
    + by simpl in Hr1.
    + apply Hb2; [destruct Hroom' as [_ R]; rewrite length_app in R; simpl in R; lia|done].
  - intros [= <- <-]. apply Hb2; [destruct Hroom' as [_ R]; rewrite length_app in R; simpl in R; lia|done].
Qed.

(** A message that is not queued passes the limit, with its bytes or with a descriptor. *)
Definition overflows (bits : Z) (c : wl_connection) (m : list Z * list Z) : Prop :=
  over bits (length (out_bytes c) + length (snd m)) \/ over bits (length (out_fds c) + 4).

Lemma send_message_benign bits ms fds data c c' ok : run_inv ms [] c -> benign bits c -> room (ms ++ [(fds, data)]) [] ->
  send_message c fds data = Some (c', ok) -> if ok then benign bits c' else overflows bits c' (fds, data).
Proof.
  intros Hr Hb [R1 R2]. unfold msg_bytes, msg_fds in R1, R2. rewrite map_app, concat_app, length_app in R1, R2. simpl in R1, R2.
  rewrite app_nil_r in R1, R2. fold (msg_bytes ms) in R1. fold (msg_fds ms) in R2.
  assert (Hroom : room ms ([] ++ concat (map le32 fds))) by (split; simpl; lia).
  unfold send_message, overflows. destruct (put_fds_spec ms fds [] c Hr Hroom) as (c1 & ok1 & xf & E & Hr1 & _ & Hx).
  pose proof (put_fds_benign bits _ _ _ _ _ _ Hr Hb Hroom E) as Hb1. rewrite E. cbn [mbind option_bind fst snd].
  destruct ok1; cbn [negb]; [|intros [= <- <-]; by right].
  destruct (run_inv_lengths _ _ _ Hr1) as [L1 _]. intros Hw. apply (write_benign bits) in Hw; [|apply Hr1|done|lia].
  destruct ok; [done|by left].
Qed.

Lemma run_ops_benign bits ops ms c c' n : run_inv ms [] c -> benign bits c -> Forall message_ok (messages ops) -> room (ms ++ messages ops) [] ->
  run_ops c ops = Some (c', n) -> n = length (messages ops) \/ exists m, messages ops !! n = Some m /\ overflows bits c' m.
Proof.
  revert ms c n. induction ops as [|[fds data|] ops IH]; intros ms c n Hr Hb Hm Hroom; [intros [= _ <-]; by left| |].
  - change (messages (SendMessage fds data :: ops)) with ((fds, data) :: messages ops) in *. apply Forall_cons in Hm as [Hm Hms].
    replace (ms ++ (fds, data) :: messages ops) with ((ms ++ [(fds, data)]) ++ messages ops) in Hroom by (by rewrite <- app_assoc).
    cbn [run_ops]. destruct (send_message_spec ms fds data c Hr Hm (room_prefix _ _ _ Hroom)) as (c1 & ok & E & Hs). rewrite E.
    pose proof (send_message_benign bits _ _ _ _ _ _ Hr Hb (room_prefix _ _ _ Hroom) E) as Hb1. cbn [mbind option_bind fst snd].
    destruct ok; [|intros [= <- <-]; right; by eexists].
    destruct (run_ops c1 ops) as [[c2 n']|] eqn:Er; [|done]. intros [= -> <-].
    destruct (IH _ _ _ Hs Hb1 Hms Hroom Er) as [->|(m & E1 & E2)]; [by left|right; by exists m].
  - change (messages (Flush :: ops)) with (messages ops) in *. cbn [run_ops].
    destruct (flush_spec c (rn_ok _ _ _ Hr)) as (c1 & r & E & H1 & H2 & _). rewrite E. cbn [mbind option_bind fst].
    apply (IH ms c1); [by eapply run_transmits| |done|done].
    unfold wl_connection_flush in E. destruct (want_flush c); cbn [negb] in E; [|by injection E as <- <-].
    destruct (flush_loop _ c) as [[c2 e]|] eqn:Ef; [|done]. apply (flush_loop_benign bits) in Ef as [Hb2 _]; [|destruct Hb; by split].
    cbn [mbind option_bind fst snd] in E. destruct e; injection E as <- <-; [done|]. destruct Hb2. by split.
Qed.

(** The limit of a connection is at least the size it was asked for. *)
Lemma over_max max n : 0 <= max <= 2 ^ 64 -> over (get_max_size_bits_for_size max) n -> 0 < max < Z.of_nat n.
Proof.
  intros Hm [H1 H2]. unfold get_max_size_bits_for_size in *. destruct (Z.eqb_spec max 0); [lia|].
  destruct (grow_bits_spec 64 WL_BUFFER_DEFAULT_SIZE_POT max) as (_ & I & _); unfold WL_BUFFER_DEFAULT_SIZE_POT in *; lia.
Qed.

(** Descriptors arrive with their message or before: for any messages (with at least a byte
    for each 28 descriptors) and flushes, whatever parts the socket takes and wherever it fails,
    no call accesses memory outside of the buffers; at each point of what went over the
    socket, when all bytes of the first [j] messages are there, then so are all their
    descriptors, and both streams are the ones of the messages, in order.  While there is memory
    and the socket does not fail, every message is queued, up to one that, with what is queued
    already, passes the limit. *)
Lemma fds_with_their_message k max ops : wire k = [] -> 0 <= max <= 2 ^ 64 ->
  Forall message_ok (messages ops) -> room (messages ops) [] ->
  exists c0 c n, wl_connection_create k max = Some c0 /\ run_ops c0 ops = Some (c, n) /\
    wire_bytes (wire (os c)) ++ out_bytes c = msg_bytes (take n (messages ops)) /\
    wire_fds (wire (os c)) `prefix_of` msg_fds (messages ops) /\
    (forall w1 w2 j, wire (os c) = w1 ++ w2 -> (1 <= j <= n)%nat ->
      (length (msg_bytes (take j (messages ops))) <= length (wire_bytes w1))%nat ->
      (length (msg_fds (take j (messages ops))) <= length (wire_fds w1))%nat) /\
    (allocs k = [] -> Forall (fun a => a <> SendFailed EOVERFLOW /\ a <> SendFailed EOTHER) (sends k) ->
      n = length (messages ops) \/ exists m, messages ops !! n = Some m /\ overflows (get_max_size_bits_for_size max) c m).
Proof.
  intros Hk Hmax Hms Hroom. destruct (create_spec k max Hmax) as (c0 & E0 & Hc0 & B0 & F0 & _ & _ & W0 & Hben).
  assert (Hinit : run_inv [] [] c0).
  { split; [done|by rewrite W0, Hk, B0|by rewrite W0, Hk, F0|].
    split; [|by intros b f ?%not_elem_of_nil|rewrite F0; simpl; lia]. by intros w1 w2 _ b f ?%not_elem_of_nil. }
  destruct (run_ops_spec ops [] c0 Hinit Hms Hroom) as (c & n & xf & E & [H1 H2 H3 H4] & Hn & Hp). rewrite app_nil_l in *.
  exists c0, c, n. split; [done|]. split; [done|]. split; [done|]. split; [|split].
  - etransitivity; [|apply Hp]. rewrite <- H3. by exists (out_fds c).
  - intros w1 w2 j Ew Hj Hb. eapply (or_wire _ _ _ H4); [done| |done]. unfold marks_of. apply list_elem_of_In, in_map_iff.
    exists j. rewrite take_take, Nat.min_l by lia. split; [done|]. apply in_seq. rewrite length_take. lia.
  - intros Ha Hse. destruct (Hben Ha) as (X1 & X2 & X3 & X4). eapply (run_ops_benign _ ops [] c0); try done.
    split; [done|by rewrite X2|done|done].
Qed.

(** A message with a descriptor, a flush that the socket takes in two parts. *)
Definition example_kernel : kernel := Kernel [Sent 3; SendFailed EINTR; Sent 100] [] [] [] [] [].
Definition example_ops : list conn_op := [SendMessage [7] [1; 2; 3; 4; 5; 6; 7; 8]; Flush; SendMessage [] [9; 10; 11; 12; 13; 14; 15; 16]].

Example example_wire : (wl_connection_create example_kernel 0 ≫= fun c => run_ops c example_ops ≫= fun r =>
  Some (wire (os (fst r)), closed (os (fst r)), snd r)) =
  Some ([([1; 2; 3], [7; 0; 0; 0]); ([4; 5; 6; 7; 8], [])], [7], 2%nat).
Proof. vm_compute. done. Qed.

(** ** Receiving *)

Lemma close_loop_plain mem count p : (p + 4 * count <= length mem)%nat ->
  close_loop mem (Z.of_nat (length mem)) count (Z.of_nat p) = Some (decode_fds (take (4 * count) (drop p mem))).
Proof.
  revert p. induction count as [|count IH]; intros p Hp; [done|]. cbn [close_loop].
  replace (Z.of_nat p >=? Z.of_nat (length mem)) with false by lia. rewrite load_total by lia. cbn [mbind option_bind].
  replace (Z.of_nat p + 4) with (Z.of_nat (p + 4)) by lia. rewrite IH by lia. cbn [mbind option_bind].
  replace (4 * S count)%nat with (4 + 4 * count)%nat by lia. rewrite <- (take_take_drop _ 4), Nat2Z.id, <- drop_drop.
  assert (Hlen : length (take 4 (drop p mem)) = 4%nat) by (rewrite length_take, length_drop; lia).
  destruct (take 4 (drop p mem)) as [|a0 [|a1 [|a2 [|a3 [|? ?]]]]]; try discriminate. done.
Qed.

Lemma decode_fds_app l l' : Z.of_nat (length l) mod 4 = 0 -> decode_fds (l ++ l') = decode_fds l ++ decode_fds l'.
Proof.
  intros H. assert (exists n, length l = (4 * n)%nat) as [n Hn].
  { exists (Z.to_nat (Z.of_nat (length l) / 4)). pose proof (Z.div_mod (Z.of_nat (length l)) 4). lia. }
  clear H. revert l Hn. induction n as [|n IH]; intros l Hn; [by destruct l|].
  destruct l as [|a [|b [|c [|d l]]]]; try (simpl in Hn; lia). cbn [app decode_fds]. rewrite IH; [done|]. simpl in Hn. lia.
Qed.

(** All descriptors are queued, or, from the first that does not fit, closed. *)
Lemma decode_loop_spec cmsgs overflow c : fd_ring (fds_in c) -> Forall (fun m => Z.of_nat (length (snd m)) mod 4 = 0) cmsgs ->
  Z.of_nat (length (contents (fds_in c)) + length (rights cmsgs)) <= 2 ^ 63 ->
  exists c' o kept gone, decode_loop cmsgs overflow c = Some (c', o) /\ fd_ring (fds_in c') /\
    rights cmsgs = kept ++ gone /\ contents (fds_in c') = contents (fds_in c) ++ kept /\
    closed (os c') = closed (os c) ++ decode_fds gone /\ (o = false -> gone = [] /\ overflow = false) /\
    (conn_in c' = conn_in c /\ conn_out c' = conn_out c /\ fds_out c' = fds_out c /\ received (os c') = received (os c)) /\
    (overflow = true -> kept = []).
Proof.
  revert overflow c. induction cmsgs as [|[[] data] cmsgs IH]; intros overflow c Hr Hf Hs.
  - exists c, overflow, [], []. simpl. rewrite !app_nil_r. done.
  - apply Forall_cons in Hf as [Hd Hf]. simpl in Hd. change (rights ((true, data) :: cmsgs)) with (data ++ rights cmsgs) in *.
    rewrite length_app in Hs. cbn [decode_loop]. unfold ensure_fds_in, ensure.
    destruct (ensure_fd_ring (next_alloc c) (fds_in c) (Z.of_nat (length data)) Hr) as (b & e & -> & Hb & Hcb & _ & Hsp);
      [lia|rewrite size_contents; lia|]. cbn [mbind option_bind fst snd]. set (c1 := alloc_done _).
    destruct (match e with Some _ => true | None => overflow end) eqn:Eo.
    + change 0 with (Z.of_nat 0) at 1. rewrite (close_loop_plain data (length data / 4) 0) by (pose proof (Nat.div_mod_eq (length data) 4); lia).
      assert (Hdiv : (4 * (length data / 4) = length data)%nat).
      { pose proof (Z.div_mod (Z.of_nat (length data)) 4 ltac:(done)). rewrite Hd in *. pose proof (Nat.div_mod_eq (length data) 4).
        pose proof (Nat.mod_upper_bound (length data) 4 ltac:(done)). lia. }
      rewrite Hdiv, drop_0, take_ge by lia. cbn [mbind option_bind].
      destruct (IH true (log_closed (decode_fds data) c1)) as (c' & o & kept & gone & E & I1 & I2 & I3 & I4 & I5 & I6 & I7);
        [done|done|simpl; rewrite Hcb; lia|].
      rewrite (I7 eq_refl) in *. clear I7. exists c', o, [], (data ++ gone). split; [done|]. split; [done|]. split; [by rewrite I2|].
      split; [rewrite I3; simpl; by rewrite Hcb|]. split; [rewrite I4; simpl; by rewrite decode_fds_app, app_assoc|].
      split; [intros Ho; by destruct (I5 Ho)|]. done.
    + destruct e; [done|]. subst overflow. destruct (Hsp eq_refl) as [Hok Hfit].
      destruct (ring_buffer_put_spec b data Hok Hfit) as (b0 & E0 & _ & _ & _ & _ & Htl).
      destruct (inv_put b data (fr_inv _ Hb) Hok Hfit) as (b1 & E1 & Hb1 & Hc1). assert (b0 = b1) as -> by congruence.
      change (fds_in c1) with b. rewrite E1. cbn [mbind option_bind].
      destruct (IH false (c1 <{ fds_in := b1 }>)) as (c' & o & kept & gone & E & I1 & I2 & I3 & I4 & I5 & I6 & I7); [|done| |].
      * split; [done|simpl; rewrite Htl; apply (fr_tail _ Hb)|]. simpl.
        rewrite size_contents, Hc1, length_app, Nat2Z.inj_add, <- size_contents, Z.add_mod, Hd, (fr_size _ Hb) by lia. done.
      * simpl. rewrite Hc1, length_app, Hcb. lia.
      * exists c', o, (data ++ kept), gone. split; [done|]. split; [done|]. split; [by rewrite I2, app_assoc|].
        split; [rewrite I3; simpl; by rewrite Hc1, Hcb, app_assoc|]. done.
  - apply Forall_cons in Hf as [_ Hf]. cbn [decode_loop]. apply IH; done.
Qed.

Definition recv_bytes (a : recv_answer) : list Z := match a with Received bytes _ => bytes | RecvFailed _ => [] end.
Definition recv_rights (a : recv_answer) : list Z := match a with Received _ cmsgs => rights cmsgs | RecvFailed _ => [] end.
(** The kernel gives whole descriptors. *)
Definition recv_ok (a : recv_answer) : Prop :=
  match a with Received _ cmsgs => Forall (fun m => Z.of_nat (length (snd m)) mod 4 = 0) cmsgs | RecvFailed _ => True end.

(** What was received since [c], and where it went. *)
Record read_result (c c' : wl_connection) (r : Z * option errno) (new : list (list Z * list Z)) (bytes kept gone : list Z) : Prop := {
  rd_ok : conn_ok c';
  rd_received : received (os c') = received (os c) ++ new;
  rd_bytes : contents (conn_in c') = contents (conn_in c) ++ bytes;
  rd_fds : contents (fds_in c') = contents (fds_in c) ++ kept;
  rd_closed : closed (os c') = closed (os c) ++ decode_fds gone;
  rd_rights : wire_fds new = kept ++ gone;
  rd_prefix : bytes `prefix_of` wire_bytes new;
  rd_all : snd r <> Some EOVERFLOW -> gone = [] /\ bytes = wire_bytes new;
  rd_size : snd r = None -> fst r = i32 (ring_buffer_size (conn_in c'));
  rd_out : conn_out c' = conn_out c /\ fds_out c' = fds_out c }.

(** Nothing more was received. *)
Lemma read_stop c c' r f : conn_ok c -> c' = c <{ os ::= f }> -> (forall k, received (f k) = received k /\ closed (f k) = closed k) ->
  (snd r = None -> fst r = i32 (ring_buffer_size (conn_in c))) -> read_result c c' r [] [] [] [].
Proof.
  intros [H1 H2 H3 H4] -> Hf Hr. destruct (Hf (os c)) as [F1 F2]. split; simpl; rewrite ?app_nil_r; done.
Qed.

Lemma read_more c c1 c' r b fs new bytes kept gone : received (os c1) = received (os c) ++ [(b, fs)] ->
  contents (conn_in c1) = contents (conn_in c) ++ b -> contents (fds_in c1) = contents (fds_in c) ++ fs ->
  closed (os c1) = closed (os c) -> conn_out c1 = conn_out c /\ fds_out c1 = fds_out c ->
  read_result c1 c' r new bytes kept gone -> read_result c c' r ((b, fs) :: new) (b ++ bytes) (fs ++ kept) gone.
Proof.
  intros E1 E2 E3 E4 [E5 E6] [R1 R2 R3 R4 R5 R6 R7 R8 R9 [R10 R11]]. split; try done.
  - by rewrite R2, E1, <- app_assoc.
  - by rewrite R3, E2, app_assoc.
  - by rewrite R4, E3, app_assoc.
  - by rewrite R5, E4.
  - unfold wire_fds in *. simpl. by rewrite R6, app_assoc.
  - unfold wire_bytes in *. simpl. by apply prefix_app.
  - intros Hr. destruct (R8 Hr) as [-> ->]. done.
  - by rewrite R10, R11, E5, E6.
Qed.

Lemma read_same_in c c1 c' r new bytes kept gone : received (os c1) = received (os c) -> contents (conn_in c1) = contents (conn_in c) ->
  fds_in c1 = fds_in c -> closed (os c1) = closed (os c) -> conn_out c1 = conn_out c /\ fds_out c1 = fds_out c ->
  read_result c1 c' r new bytes kept gone -> read_result c c' r new bytes kept gone.
Proof.
  intros E1 E2 E3 E4 [E5 E6] [R1 R2 R3 R4 R5 R6 R7 R8 R9 [R10 R11]]. split; try done; try congruence. split; congruence.
Qed.

(** Data in the free part of a buffer does not change what it holds. *)
Lemma free_part b b' mem n data : ring_inv b -> ring_inv b' -> ring_ok b' -> b' = ring_buffer_advance n (b <{ rb_data := mem }>) ->
  contents b' = contents b ++ data -> ring_ok b -> ring_inv (b <{ rb_data := mem }>) /\ contents (b <{ rb_data := mem }>) = contents b.
Proof.
  intros [Hl Hm] Hi Hb' Eb Hc Hb. assert (Ec : contents (b <{ rb_data := mem }>) = contents b).
  { apply contents_eq; [exact (size_contents b)|]. intros j Hj. rewrite contents_length in Hj. pose proof (ring_size_range b).
    assert (Hj' : Z.of_nat j < ring_buffer_size b') by (rewrite size_contents, Hc, length_app, contents_length; lia).
    pose proof (contents_total b' j Hj') as E. rewrite Hc, lookup_total_app_l in E by (rewrite contents_length; lia).
    rewrite E, Eb. done. }
  split; [|done]. split; [done|]. destruct Hm as [[_ Hs]|Hf].
  - left. split; [|done]. pose proof (ro_data b' Hb') as Hd. rewrite Eb in Hd. destruct Hb. by split.
  - pose proof (ro_data b Hb) as Hd. destruct Hf as (E & _). rewrite E in Hd. pose proof (capacity_pos b Hb). simpl in *. lia.
Qed.

Lemma ensure_in_spec c n : conn_ok c -> 0 <= n -> ring_buffer_size (conn_in c) + n <= 2 ^ 63 ->
  exists b e, ensure_in n c = Some (alloc_done (c <{ conn_in := b }>), e) /\ ring_inv b /\ contents b = contents (conn_in c) /\
    (e = None -> ring_ok b /\ ring_buffer_size b + n <= ring_buffer_capacity b).
Proof.
  intros [H1 H2 H3 H4] Hn Hs. unfold ensure_in, ensure.
  destruct (ensure_space_spec (next_alloc c) (conn_in c) n H1 Hn Hs) as (b' & e & -> & F1 & F2 & F3 & _ & F4).
  cbn [mbind option_bind fst snd]. exists b', e. split; [done|]. split; [done|]. split; [done|]. by intros ->.
Qed.

(** What a call to recvmsg reads fits, and goes to the end of the queue. *)
Lemma receive_bytes b bytes : ring_inv b -> ring_ok b -> ring_buffer_size b + 1 <= ring_buffer_capacity b ->
  let bytes := take (iov_len (ring_buffer_put_iov b)) bytes in
  exists mem, scatter (ring_buffer_put_iov b) bytes (rb_data b) = Some mem /\
    ring_inv (b <{ rb_data := mem }>) /\ contents (b <{ rb_data := mem }>) = contents b /\
    ring_inv (ring_buffer_advance (Z.of_nat (length bytes)) (b <{ rb_data := mem }>)) /\
    contents (ring_buffer_advance (Z.of_nat (length bytes)) (b <{ rb_data := mem }>)) = contents b ++ bytes.
Proof.
  intros Hi Hb Hs l. destruct (iov_total b Hb ltac:(lia)) as [Ht _]. pose proof (ring_size_range b).
  assert (Hl : Z.of_nat (length l) <= ring_buffer_capacity b - ring_buffer_size b).
  { assert (iov_len (ring_buffer_put_iov b) = Z.to_nat (ring_buffer_capacity b - ring_buffer_size b)) as E.
    { rewrite <- Ht. unfold iov_len. clear. induction (ring_buffer_put_iov b) as [|[o n] iov IH]; [done|]. simpl in *. by rewrite IH. }
    unfold l. rewrite length_take, E. lia. }
  destruct (ring_buffer_put_iov_spec b l Hb ltac:(lia) Hl) as (mem & Hsc & Hput). exists mem. split; [done|].
  destruct (inv_put b l Hi Hb ltac:(lia)) as (b' & E' & Hi' & Hc'). destruct (ring_buffer_put_spec b l Hb ltac:(lia)) as (b2 & E2 & Hb2 & _).
  assert (b2 = b') as -> by congruence. assert (Eb : b' = ring_buffer_advance (Z.of_nat (length l)) (b <{ rb_data := mem }>)) by congruence.
  destruct (free_part b b' mem _ l Hi Hi' Hb2 Eb Hc' Hb) as [F1 F2]. rewrite Eb in Hi', Hc'. done.
Qed.

Lemma read_loop_spec answers c : conn_ok c -> Forall recv_ok answers ->
  Z.of_nat (length (contents (conn_in c)) + length (concat (map recv_bytes answers))) < 2 ^ 63 ->
  Z.of_nat (length (contents (fds_in c)) + length (concat (map recv_rights answers))) < 2 ^ 63 ->
  exists c' r new bytes kept gone, read_loop answers c = Some (c', r) /\ read_result c c' r new bytes kept gone.
Proof.
  revert c. induction answers as [|a answers IH]; intros c Hc Ha Hs Hf; cbn [read_loop].
  all: destruct (ring_buffer_is_max_size_reached (conn_in c));
    [eexists _, _, [], [], [], []; split; [done|]; by eapply read_stop|].
  all: destruct (ensure_in_spec c 1 Hc ltac:(lia)) as (b & e & -> & Hi & Hcb & Hsp); [rewrite size_contents; lia|].
  all: cbn [mbind option_bind fst snd]; set (c1 := alloc_done _).
  all: assert (Hc1 : conn_ok c1) by (destruct Hc; by split).
  all: assert (Es : ring_buffer_size (conn_in c) = ring_buffer_size (conn_in c1)) by (rewrite !size_contents; simpl; by rewrite Hcb).
  all: destruct e as [e|]; [eexists _, _, [], [], [], []; split; [done|];
    eapply (read_same_in c c1); try done; by eapply read_stop|].
  { eexists _, _, [], [], [], []. split; [done|]. eapply (read_same_in c c1); try done. eapply read_stop; try done.
    rewrite Es. by destruct (_ >? 0). }
  apply Forall_cons in Ha as [Ha Has]. simpl in Hs, Hf. rewrite length_app in Hs. rewrite length_app in Hf. destruct (Hsp eq_refl) as [Hok Hfit].
  destruct a as [bytes cmsgs|e]; cbn [recv_bytes recv_rights recv_ok] in Hs, Hf, Ha.
  - destruct (receive_bytes b bytes Hi Hok Hfit) as (mem & Hsc & M1 & M2 & M3 & M4). change (conn_in c1) with b.
    set (l := take (iov_len (ring_buffer_put_iov b)) bytes) in *.
    destruct (Nat.eqb_spec (length l) 0) as [El|El].
    { eexists _, _, [], [], [], []. split; [done|]. eapply (read_same_in c c1); try done. eapply read_stop; try done.
      by rewrite Es. }
    rewrite Hsc. cbn [mbind option_bind]. set (c2 := log_received l cmsgs _). unfold decode_cmsg.
    destruct (decode_loop_spec cmsgs false c2) as (c3 & o & kept & gone & -> & D1 & D2 & D3 & D4 & D5 & (D6 & D7 & D8 & D9) & _);
      [apply Hc|done|simpl; lia|]. cbn [mbind option_bind fst snd].
    destruct o.
    + eexists _, _, [(l, rights cmsgs)], [], kept, gone. split; [done|]. destruct Hc as [_ Ho _ Hfo].
      split; simpl; rewrite ?app_nil_r, ?D6, ?D7, ?D8, ?D9; try done.
      * split; simpl; by rewrite ?D6, ?D7, ?D8.
      * simpl. by rewrite M2.
      * unfold wire_fds. simpl. by rewrite app_nil_r.
      * apply prefix_nil.
    + destruct (D5 eq_refl) as [-> _]. rewrite app_nil_r in D2, D4. subst kept.
      set (c4 := c3 <{ conn_in ::= ring_buffer_advance (Z.of_nat (length l)) }>).
      assert (E4 : contents (conn_in c4) = contents (conn_in c) ++ l) by (simpl; rewrite D6; simpl; by rewrite M4, Hcb).
      assert (Hc4 : conn_ok c4).
      { destruct Hc as [_ Ho _ Hfo]. split; simpl; [by rewrite D6|by rewrite D7|done|by rewrite D8]. }
      assert (length l <= length bytes)%nat by (unfold l; rewrite length_take; lia).
      destruct (IH c4 Hc4 Has) as (c' & r & new & bs & kept & gone & E & Hr); [rewrite E4, length_app; lia|simpl; rewrite D3, length_app; simpl; lia|].
      exists c', r, ((l, rights cmsgs) :: new), (l ++ bs), (rights cmsgs ++ kept), gone. split; [done|].
      eapply read_more; [| | | | |done]; simpl; try done; by rewrite D9.
  - assert (Hstop : e <> EINTR -> exists c' r new bytes kept gone,
      Some (c1 <{ os ::= fun k => k <{ recvs := answers }> }>,
        match e with EAGAIN => if ring_buffer_size (conn_in c) >? 0 then (i32 (ring_buffer_size (conn_in c)), None) else (-1, Some e) | _ => (-1, Some e) end)
      = Some (c', r) /\ read_result c c' r new bytes kept gone).
    { intros _. eexists _, _, [], [], [], []. split; [done|]. eapply (read_same_in c c1); try done. eapply read_stop; try done.
      rewrite Es. destruct e; try done. by destruct (_ >? 0). }
    destruct e; try (by apply Hstop).
    destruct (IH c1 Hc1 Has) as (c' & r & new & bs & kept & gone & E & Hr); [simpl; rewrite Hcb; simpl in Hs; lia|simpl; simpl in Hf; lia|].
    exists c', r, new, bs, kept, gone. split; [done|]. by eapply read_same_in; [..|done].
Qed.

(** C31. Reading from the socket never accesses memory outside of the buffers.  The bytes and
    descriptors that the kernel gave are at the end of the queues, in order; when there is no
    space for descriptors then all from the first one that does not fit are closed, none is
    lost, and the call fails; otherwise nothing is left out. *)
Theorem read_queues_input c : conn_ok c -> Forall recv_ok (recvs (os c)) ->
  Z.of_nat (length (contents (conn_in c)) + length (concat (map recv_bytes (recvs (os c))))) < 2 ^ 63 ->
  Z.of_nat (length (contents (fds_in c)) + length (concat (map recv_rights (recvs (os c))))) < 2 ^ 63 ->
  exists c' r new bytes kept gone, wl_connection_read c = Some (c', r) /\ read_result c c' r new bytes kept gone.
Proof. intros Hc Ha Hs Hf. by apply read_loop_spec. Qed.

(** Two parts of a stream, the second with a descriptor. *)
Definition example_input : kernel :=
  Kernel [] [Received [1; 2; 3] []; RecvFailed EINTR; Received [4; 5] [(true, [9; 0; 0; 0])]] [] [] [] [].

Example example_read : (wl_connection_create example_input 0 ≫= fun c => wl_connection_read c ≫= fun r =>
  Some (contents (conn_in (fst r)), contents (fds_in (fst r)), snd r)) = Some ([1; 2; 3; 4; 5], [9; 0; 0; 0], (5, None)).
Proof. vm_compute. done. Qed.

Definition example_reader : wl_connection := default (Conn ring_zero ring_zero ring_zero ring_zero false example_input)
  (wl_connection_create example_input 0).

Lemma example_reader_ok : conn_ok example_reader.
Proof.
  destruct (create_spec example_input 0 ltac:(lia)) as (c & E & Hc & _). unfold example_reader. by rewrite E.
Qed.

Lemma read_queues_input_witness : exists c' r new bytes kept gone,
  wl_connection_read example_reader = Some (c', r) /\ read_result example_reader c' r new bytes kept gone.
Proof.
  apply (read_queues_input example_reader); [apply example_reader_ok| | |].
  - repeat constructor; vm_compute; done.
  - vm_compute. done.
  - vm_compute. done.
Defined.

(** With 4095 bytes in the buffer the code takes it for full, whatever its limit is, and reads
    nothing: the last byte of a message of 4096 bytes is never read when the kernel gave the
    other 4095 first. *)
Theorem read_stalls_at_4095 c : limit_ok (conn_in c) -> ring_buffer_size (conn_in c) = 4095 ->
  wl_connection_read c = Some (c <{ os ::= fun k => k <{ recvs := recvs (os c) }> }>, (4095, None)).
Proof.
  intros Hl Hs. unfold wl_connection_read. assert (Hm : ring_buffer_is_max_size_reached (conn_in c) = true).
  { unfold ring_buffer_is_max_size_reached. rewrite Hs. change (u64 (4095 + 1)) with 4096.
    unfold ring_buffer_get_bits_for_size. change (Z.max _ _) with 12. unfold limit_ok, WL_BUFFER_DEFAULT_SIZE_POT in Hl.
    replace (_ && _) with false by lia. done. }
  destruct (recvs (os c)); cbn [read_loop]; by rewrite Hm, Hs.
Qed.
