(* ===== verification/Marshal.v ===== *)
(** * Messages on the wire

    Models the closures of src/libs/wayland/src/connection.c: how the arguments of a message are
    checked, written to the wire, read from it, and how the objects among them are looked up.
    Pointers into a message are the rest of it; a read past its end is [None]. *)

From Stdlib Require Import Ascii.
From S2P Require Import Prelude RingBuffer ObjectMap Connection.

Definition WL_CLOSURE_MAX_ARGS : Z := 20.

Inductive wl_arg_type :=
| WL_ARG_INT | WL_ARG_UINT | WL_ARG_FIXED | WL_ARG_STRING | WL_ARG_OBJECT | WL_ARG_NEW_ID | WL_ARG_ARRAY | WL_ARG_FD.

#[export] Instance arg_type_eq_dec : EqDecision wl_arg_type.
Proof. solve_decision. Defined.

Definition arg_type_of (c : ascii) : option wl_arg_type :=
  match c with
  | "i"%char => Some WL_ARG_INT
  | "u"%char => Some WL_ARG_UINT
  | "f"%char => Some WL_ARG_FIXED
  | "s"%char => Some WL_ARG_STRING
  | "o"%char => Some WL_ARG_OBJECT
  | "n"%char => Some WL_ARG_NEW_ID
  | "a"%char => Some WL_ARG_ARRAY
  | "h"%char => Some WL_ARG_FD
  | _ => None
  end.

Record wl_interface := Interface { iface_addr : Z; iface_name : list ascii }.
Record wl_object := Object { obj_interface : wl_interface; obj_id : Z }.
Record wl_message := Message { msg_signature : list ascii; msg_types : list (option wl_interface) }.

(** A string is its bytes before the terminating 0; null pointers are [None]. *)
Inductive wl_argument :=
| ArgI (i : Z) | ArgU (u : Z) | ArgF (f : Z) | ArgS (s : option (list Z)) | ArgO (o : option wl_object)
| ArgN (n : Z) | ArgA (a : option (list Z)) | ArgH (h : Z).

Record wl_closure := Closure { cl_message : wl_message; cl_opcode : Z; cl_sender_id : Z; cl_args : list wl_argument }.

Definition wl_interface_equal (a b : wl_interface) : bool := (iface_addr a =? iface_addr b) || bool_decide (iface_name a = iface_name b).

(** ** Signatures *)

Definition div_roundup (n a : Z) : Z := u32 (u64 (n + (a - 1)) / a).

(** The type of the next argument and whether it may be null; no type at the end. *)
Fixpoint next_argument (nullable : bool) (signature : list ascii) : list ascii * option (wl_arg_type * bool) :=
  match signature with
  | [] => ([], None)
  | c :: signature =>
      match arg_type_of c with
      | Some t => (signature, Some (t, nullable))
      | None => next_argument (if bool_decide (c = "?"%char) then true else nullable) signature
      end
  end.
Definition get_next_argument : list ascii -> list ascii * option (wl_arg_type * bool) := next_argument false.

Fixpoint arg_count_for_signature (signature : list ascii) : nat :=
  match signature with
  | [] => 0
  | c :: signature => match arg_type_of c with Some _ => S (arg_count_for_signature signature) | None => arg_count_for_signature signature end
  end.

Fixpoint wl_message_count_arrays (signature : list ascii) : nat :=
  match signature with
  | [] => 0
  | c :: signature => (if bool_decide (c = "a"%char) then 1 else 0) + wl_message_count_arrays signature
  end.

(** ** Descriptors of a closure *)

Definition is_fd (d : option (wl_arg_type * bool)) : bool := match d with Some (WL_ARG_FD, _) => true | _ => false end.

Fixpoint wl_closure_clear_fds (signature : list ascii) (args : list wl_argument) : list wl_argument :=
  match args with
  | [] => []
  | a :: args => let '(signature, d) := get_next_argument signature in
      (if is_fd d then ArgH (-1) else a) :: wl_closure_clear_fds signature args
  end.

(** The descriptors that are closed. *)
Fixpoint wl_closure_close_fds (signature : list ascii) (args : list wl_argument) : list Z :=
  match args with
  | [] => []
  | a :: args => let '(signature, d) := get_next_argument signature in
      match a with
      | ArgH h => if is_fd d && negb (h =? -1) then h :: wl_closure_close_fds signature args else wl_closure_close_fds signature args
      | _ => wl_closure_close_fds signature args
      end
  end.

Definition wl_closure_destroy (cl : wl_closure) : list Z := wl_closure_close_fds (msg_signature (cl_message cl)) (cl_args cl).

(** ** Making a closure *)

Inductive closure_error := CloseEINVAL | CloseENOMEM | CloseENOSPC | CloseEMFILE.

(** [args] are the arguments to copy, at least as many as the signature has; without them the
    memory is 0. *)
Definition wl_closure_init (alloc_ok : bool) (message : wl_message) (args : option (list wl_argument)) : wl_closure + closure_error :=
  let count := arg_count_for_signature (msg_signature message) in
  if Z.of_nat count >? WL_CLOSURE_MAX_ARGS then inr CloseEINVAL
  else if negb alloc_ok then inr CloseENOMEM
  else
    let args := match args with Some args => take count args | None => replicate count (ArgU 0) end in
    inl (Closure message 0 0 (wl_closure_clear_fds (msg_signature message) args)).

(** The arguments before this one are [done]; on an error the closure holds what follows as
    [wl_closure_init] left it.  [dups] are the descriptors that duplicating gives. *)
Fixpoint marshal_loop (signature : list ascii) (done args : list wl_argument) (dups : list (option Z))
    : option ((list wl_argument + closure_error * list wl_argument)) :=
  match args with
  | [] => Some (inl done)
  | a :: args =>
      let '(signature', d) := get_next_argument signature in
      let rest := wl_closure_clear_fds signature (a :: args) in
      let next a := marshal_loop signature' (done ++ [a]) args in
      let null := Some (inr (CloseEINVAL, done ++ rest)) in
      match d, a with
      | Some (WL_ARG_FIXED, _), ArgF _ | Some (WL_ARG_UINT, _), ArgU _ | Some (WL_ARG_INT, _), ArgI _ => next a dups
      | Some (WL_ARG_STRING, nullable), ArgS s => if negb nullable && bool_decide (s = None) then null else next a dups
      | Some (WL_ARG_OBJECT, nullable), ArgO o => match o with None => if nullable then next a dups else null | Some _ => next a dups end
      | Some (WL_ARG_NEW_ID, _), ArgO o => match o with None => null | Some o => next (ArgN (obj_id o)) dups end
      | Some (WL_ARG_ARRAY, _), ArgA l => if bool_decide (l = None) then null else next a dups
      | Some (WL_ARG_FD, _), ArgH _ =>
          match dups with
          | Some fd :: dups => next (ArgH fd) dups
          | _ => Some (inr (CloseEMFILE, done ++ rest))
          end
      | _, _ => None
      end
  end.

(** The closure, or why there is none and the descriptors that were closed. *)
Definition wl_closure_marshal (alloc_ok : bool) (dups : list (option Z)) (sender_id opcode : Z) (args : list wl_argument) (message : wl_message)
    : option (wl_closure + closure_error * list Z) :=
  match wl_closure_init alloc_ok message (Some args) with
  | inr e => Some (inr (e, []))
  | inl cl =>
      marshal_loop (msg_signature message) [] (take (length (cl_args cl)) args) dups ≫= fun r =>
      Some match r with
           | inl args => inl (Closure message opcode sender_id args)
           | inr (e, args) => inr (e, wl_closure_destroy (Closure message 0 0 args))
           end
  end.

(** ** Reading a message *)

(** [*p++]. *)
Definition read_word (p : list Z) : option (Z * list Z) :=
  match p with a :: b :: c :: d :: p => Some (of_le32 [a; b; c; d], p) | _ => None end.

(** How far the first 0 is; none means that it reads on past the memory. *)
Fixpoint strlen (p : list Z) : option Z :=
  match p with [] => None | b :: p => if b =? 0 then Some 0 else Z.succ <$> strlen p end.

(** What one argument needs and changes. *)
Record reader := Reader { rd_p : list Z; rd_conn : wl_connection; rd_objects : wl_map }.

#[export] Instance reader_fields : Fields reader := {| rebuild := fun r => Reader (rd_p r) (rd_conn r) (rd_objects r) |}.

(** [(uint32_t) (end - p)], in words. *)
Definition words_left (p : list Z) : Z := Z.of_nat (length p) / 4.

(** [inr] is the error; the outer option is for accesses outside of the memory. *)
Definition demarshal_argument (h : allocator) (t : wl_arg_type) (nullable : bool) (r : reader)
    : option (reader * (wl_argument + closure_error)) :=
  if negb (bool_decide (t = WL_ARG_FD)) && (length (rd_p r) =? 0)%nat then Some (r, inr CloseEINVAL)
  else match t with
  | WL_ARG_UINT => read_word (rd_p r) ≫= fun '(w, p) => Some (r <{ rd_p := p }>, inl (ArgU w))
  | WL_ARG_INT => read_word (rd_p r) ≫= fun '(w, p) => Some (r <{ rd_p := p }>, inl (ArgI (i32 w)))
  | WL_ARG_FIXED => read_word (rd_p r) ≫= fun '(w, p) => Some (r <{ rd_p := p }>, inl (ArgF (i32 w)))
  | WL_ARG_STRING =>
      read_word (rd_p r) ≫= fun '(len, p) =>
      let r := r <{ rd_p := p }> in
      if (len =? 0) && negb nullable then Some (r, inr CloseEINVAL)
      else if len =? 0 then Some (r, inl (ArgS None))
      else
        let length_in_u32 := div_roundup len 4 in
        if words_left p <? length_in_u32 then Some (r, inr CloseEINVAL)
        else p !! Z.to_nat (len - 1) ≫= fun last =>
          if negb (last =? 0) then Some (r, inr CloseEINVAL)
          else strlen p ≫= fun n =>
            if negb (n =? len - 1) then Some (r, inr CloseEINVAL)
            else Some (r <{ rd_p := drop (Z.to_nat (4 * length_in_u32)) p }>, inl (ArgS (Some (take (Z.to_nat n) p))))
  | WL_ARG_OBJECT =>
      read_word (rd_p r) ≫= fun '(id, p) =>
      let r := r <{ rd_p := p }> in
      if (id =? 0) && negb nullable then Some (r, inr CloseEINVAL) else Some (r, inl (ArgN id))
  | WL_ARG_NEW_ID =>
      read_word (rd_p r) ≫= fun '(id, p) =>
      let r := r <{ rd_p := p }> in
      if id =? 0 then Some (r, inr CloseEINVAL)
      else wl_map_reserve_new h (rd_objects r) id ≫= fun '(m, e) =>
        Some (r <{ rd_objects := m }>,
          match e with None => inl (ArgN id) | Some EINVAL => inr CloseEINVAL | Some ENOSPC => inr CloseENOSPC | Some ENOMEM => inr CloseENOMEM end)
  | WL_ARG_ARRAY =>
      read_word (rd_p r) ≫= fun '(len, p) =>
      let r := r <{ rd_p := p }> in
      let length_in_u32 := div_roundup len 4 in
      if words_left p <? length_in_u32 then Some (r, inr CloseEINVAL)
      else load 0 (Z.to_nat len) p ≫= fun data =>
        Some (r <{ rd_p := drop (Z.to_nat (4 * length_in_u32)) p }>, inl (ArgA (Some data)))
  | WL_ARG_FD =>
      if rb_tail (fds_in (rd_conn r)) =? rb_head (fds_in (rd_conn r)) then Some (r, inr CloseEINVAL)
      else ring_buffer_copy (fds_in (rd_conn r)) 4 ≫= fun fd =>
        Some (r <{ rd_conn ::= fun c => c <{ fds_in ::= ring_buffer_consume 4 }> }>, inl (ArgH (i32 (of_le32 fd))))
  end.

(** The arguments before are [done]; after an error the others are as [wl_closure_init] left
    them.  The code aborts on arguments without a type. *)
Fixpoint demarshal_loop (h : allocator) (count : nat) (signature : list ascii) (done : list wl_argument) (r : reader)
    : option (reader * (list wl_argument + closure_error * list wl_argument)) :=
  match count with
  | O => Some (r, inl done)
  | S count =>
      match get_next_argument signature with
      | (signature', Some (t, nullable)) =>
          demarshal_argument h t nullable r ≫= fun '(r, a) =>
          match a with
          | inl a => demarshal_loop h count signature' (done ++ [a]) r
          | inr e => Some (r, inr (e, done ++ wl_closure_clear_fds signature (replicate (S count) (ArgU 0))))
          end
      | (_, None) => None
      end
  end.

(** [closure_ok] is whether there is memory for the closure. *)
Definition wl_connection_demarshal (h : allocator) (closure_ok : bool) (c : wl_connection) (size : Z) (objects : wl_map) (message : wl_message)
    : option (wl_connection * wl_map * (wl_closure + closure_error)) :=
  if size <? 8 then Some (wl_connection_consume c size, objects, inr CloseEINVAL)
  else match wl_closure_init closure_ok message None with
  | inr e => Some (wl_connection_consume c size, objects, inr e)
  | inl cl =>
      wl_connection_copy c size ≫= fun bytes =>
      let p := take (Z.to_nat (4 * (size / 4))) bytes in
      read_word p ≫= fun '(sender_id, p) =>
      read_word p ≫= fun '(word, p) =>
      demarshal_loop h (length (cl_args cl)) (msg_signature message) [] (Reader p c objects) ≫= fun '(r, res) =>
      match res with
      | inl args => Some (wl_connection_consume (rd_conn r) size, rd_objects r, inl (Closure message (Z.land word 0xffff) sender_id args))
      | inr (e, args) =>
          Some (wl_connection_consume (log_closed (wl_closure_destroy (Closure message 0 0 args)) (rd_conn r)) size, rd_objects r, inr e)
      end
  end.

(** ** Looking up the objects *)

(** [deref] is the object at an address. *)
Fixpoint lookup_loop (deref : Z -> wl_object) (objects : wl_map) (signature : list ascii) (types : list (option wl_interface))
    (args : list wl_argument) : option (list wl_argument + closure_error) :=
  match args with
  | [] => Some (inl [])
  | a :: args =>
      let '(signature, d) := get_next_argument signature in
      let type := default None (head types) in
      let next a := lookup_loop deref objects signature (tail types) args ≫= fun r =>
        Some match r with inl args => inl (a :: args) | inr e => inr e end in
      match d, a with
      | Some (WL_ARG_OBJECT, _), ArgN id =>
          let ptr := wl_map_lookup objects id in
          let zombie := wl_object_is_zombie objects id in
          if negb zombie && (ptr =? 0) && negb (id =? 0) then Some (inr CloseEINVAL)
          else
            let object := if zombie || (ptr =? 0) then None else Some (deref ptr) in
            match object, type with
            | Some o, Some t => if negb (wl_interface_equal (obj_interface o) t) then Some (inr CloseEINVAL) else next (ArgO object)
            | _, _ => next (ArgO object)
            end
      | Some (WL_ARG_OBJECT, _), _ => None
      | _, _ => next a
      end
  end.

Definition wl_closure_lookup_objects (deref : Z -> wl_object) (cl : wl_closure) (objects : wl_map) : option (wl_closure + closure_error) :=
  lookup_loop deref objects (msg_signature (cl_message cl)) (msg_types (cl_message cl)) (cl_args cl) ≫= fun r =>
  Some match r with
       | inl args => inl (Closure (cl_message cl) (cl_opcode cl) (cl_sender_id cl) args)
       | inr e => inr e
       end.

(** ** Writing a message *)

Definition is_some {A} (o : option A) : bool := match o with Some _ => true | None => false end.

Fixpoint args_size (signature : list ascii) (args : list wl_argument) (buffer_size : Z) : option Z :=
  match args with
  | [] => Some buffer_size
  | a :: args =>
      let '(signature, d) := get_next_argument signature in
      let next n := args_size signature args (u32 (buffer_size + n)) in
      match d, a with
      | Some (WL_ARG_FD, _), _ => next 0
      | Some (WL_ARG_UINT, _), _ | Some (WL_ARG_INT, _), _ | Some (WL_ARG_FIXED, _), _ | Some (WL_ARG_OBJECT, _), _ | Some (WL_ARG_NEW_ID, _), _ => next 1
      | Some (WL_ARG_STRING, _), ArgS None => next 1
      | Some (WL_ARG_STRING, _), ArgS (Some s) => next (1 + div_roundup (u32 (Z.of_nat (length s) + 1)) 4)
      | Some (WL_ARG_ARRAY, _), ArgA None => next 1
      | Some (WL_ARG_ARRAY, _), ArgA (Some l) => next (1 + div_roundup (u32 (Z.of_nat (length l))) 4)
      | _, _ => None
      end
  end.

Definition buffer_size_for_closure (cl : wl_closure) : option Z :=
  args_size (msg_signature (cl_message cl)) (cl_args cl) 0 ≫= fun n => Some (u32 (n + 2)).

(** Where the code writes: what is before [p], and the memory from there on. *)
Definition buffer := (list Z * list Z)%type.

Definition write_word (w : Z) (b : buffer) : option buffer :=
  if (4 <=? length (snd b))%nat then Some (fst b ++ le32 w, drop 4 (snd b)) else None.

(** memcpy of [size] bytes of [data], then [p] moves on by whole words. *)
Definition write_data (data : list Z) (size : Z) (b : buffer) : option buffer :=
  store 0 (take (Z.to_nat size) data) (snd b) ≫= fun mem =>
  let n := Z.to_nat (4 * div_roundup size 4) in Some (fst b ++ take n mem, drop n mem).

(** [None] inside is an overflow of the buffer. *)
Definition serialize_argument (t : wl_arg_type) (a : wl_argument) (b : buffer) : option (option buffer) :=
  let sized (data : list Z) (size : Z) :=
    write_word size b ≫= fun b =>
    if div_roundup size 4 >? words_left (snd b) then Some None else Some <$> write_data data size b in
  match t, a with
  | WL_ARG_UINT, ArgU w => Some <$> write_word w b
  | WL_ARG_INT, ArgI w => Some <$> write_word w b
  | WL_ARG_FIXED, ArgF w => Some <$> write_word w b
  | WL_ARG_OBJECT, ArgO o => Some <$> write_word (from_option obj_id 0 o) b
  | WL_ARG_NEW_ID, ArgN n => Some <$> write_word n b
  | WL_ARG_STRING, ArgS None => Some <$> write_word 0 b
  | WL_ARG_STRING, ArgS (Some s) => sized (s ++ [0]) (u32 (Z.of_nat (length s) + 1))
  | WL_ARG_ARRAY, ArgA None => Some <$> write_word 0 b
  | WL_ARG_ARRAY, ArgA (Some l) => sized l (u32 (Z.of_nat (length l)))
  | _, _ => None
  end.

Fixpoint serialize_loop (signature : list ascii) (args : list wl_argument) (b : buffer) : option (option buffer) :=
  match args with
  | [] => Some (Some b)
  | a :: args =>
      match get_next_argument signature with
      | (signature, Some (t, _)) =>
          if bool_decide (t = WL_ARG_FD) then serialize_loop signature args b
          else if (length (snd b) =? 0)%nat then Some None
          else serialize_argument t a b ≫= fun r =>
            match r with Some b => serialize_loop signature args b | None => Some None end
      | (_, None) => None
      end
  end.

(** The bytes of the message, in a buffer that holds [mem] before. *)
Definition serialize_closure (cl : wl_closure) (mem : list Z) : option (option (list Z)) :=
  if (Z.of_nat (length mem) / 4 <? 2) then Some None
  else serialize_loop (msg_signature (cl_message cl)) (cl_args cl) ([], drop 8 mem) ≫= fun r =>
    Some match r with
         | None => None
         | Some (body, _) =>
             let size := 8 + Z.of_nat (length body) in
             Some (le32 (cl_sender_id cl) ++ le32 (Z.lor (u32 (Z.shiftl size 16)) (Z.land (cl_opcode cl) 0xffff)) ++ body)
         end.

(** The closure after, and whether all descriptors were queued. *)
Fixpoint copy_fds_loop (signature : list ascii) (args : list wl_argument) (c : wl_connection)
    : option (wl_connection * list wl_argument * bool) :=
  match args with
  | [] => Some (c, [], true)
  | a :: args =>
      let '(signature, d) := get_next_argument signature in
      let next a c := copy_fds_loop signature args c ≫= fun '(c, args, ok) => Some (c, a :: args, ok) in
      match is_fd d, a with
      | true, ArgH fd =>
          wl_connection_put_fd c fd ≫= fun r =>
          if negb (snd r) then Some (fst r, ArgH fd :: args, false) else next (ArgH (-1)) (fst r)
      | true, _ => None
      | false, a => next a c
      end
  end.

Definition copy_fds_to_connection (cl : wl_closure) (c : wl_connection) : option (wl_connection * wl_closure * bool) :=
  copy_fds_loop (msg_signature (cl_message cl)) (cl_args cl) c ≫= fun '(c, args, ok) =>
  Some (c, Closure (cl_message cl) (cl_opcode cl) (cl_sender_id cl) args, ok).

(** Both senders: [mem] is the memory that the allocator gives for the buffer, if it does. *)
Definition send_with (put : wl_connection -> list Z -> option (wl_connection * bool)) (mem : Z -> option (list Z))
    (cl : wl_closure) (c : wl_connection) : option (wl_connection * wl_closure * bool) :=
  copy_fds_to_connection cl c ≫= fun '(c, cl, ok) =>
  if negb ok then Some (c, cl, false)
  else buffer_size_for_closure cl ≫= fun buffer_size =>
    match mem buffer_size with
    | None => Some (c, cl, false)
    | Some mem =>
        serialize_closure cl mem ≫= fun r =>
        match r with
        | None => Some (c, cl, false)
        | Some bytes => put c bytes ≫= fun r => Some (fst r, cl, snd r)
        end
    end.

(** zalloc: the memory is 0. *)
Definition wl_closure_send (alloc_ok : bool) (cl : wl_closure) (c : wl_connection) : option (wl_connection * wl_closure * bool) :=
  send_with wl_connection_write (fun n => if alloc_ok then Some (replicate (Z.to_nat (4 * n)) 0) else None) cl c.
(** malloc: the memory holds anything. *)
Definition wl_closure_queue (mem : Z -> option (list Z)) (cl : wl_closure) (c : wl_connection) : option (wl_connection * wl_closure * bool) :=
  send_with wl_connection_queue mem cl c.

(** ** Signatures as lists of types *)

Fixpoint arguments_from (nullable : bool) (signature : list ascii) : list (wl_arg_type * bool) :=
  match signature with
  | [] => []
  | c :: signature =>
      match arg_type_of c with
      | Some t => (t, nullable) :: arguments_from false signature
      | None => arguments_from (if bool_decide (c = "?"%char) then true else nullable) signature
      end
  end.
Definition arguments : list ascii -> list (wl_arg_type * bool) := arguments_from false.

Lemma next_argument_spec nullable signature d ds : arguments_from nullable signature = d :: ds ->
  exists signature', next_argument nullable signature = (signature', Some d) /\ arguments signature' = ds.
Proof.
  revert nullable. induction signature as [|c signature IH]; intros nullable; [done|]. cbn [arguments_from next_argument].
  destruct (arg_type_of c) as [t|]; [|apply IH]. intros [= <- <-]. by exists signature.
Qed.

Lemma count_arguments nullable signature : length (arguments_from nullable signature) = arg_count_for_signature signature.
Proof.
  revert nullable. induction signature as [|c signature IH]; intros nullable; [done|]. cbn [arguments_from arg_count_for_signature].
  destruct (arg_type_of c); [|apply IH]. simpl. by rewrite IH.
Qed.

(** ** What arguments of a signature are *)

Definition byte (b : Z) : Prop := 0 <= b < 256.

(** A received argument: integers are in their range, strings have no 0, what may not be null
    is not, and new ids are on the other side. *)
Definition arg_ok (s : Z) (d : wl_arg_type * bool) (a : wl_argument) : Prop :=
  match fst d, a with
  | WL_ARG_INT, ArgI i | WL_ARG_FIXED, ArgF i => - 2 ^ 31 <= i < 2 ^ 31
  | WL_ARG_UINT, ArgU u => 0 <= u < 2 ^ 32
  | WL_ARG_STRING, ArgS None => snd d = true
  | WL_ARG_STRING, ArgS (Some l) => Forall (fun b => 0 < b < 256) l
  | WL_ARG_OBJECT, ArgN id => id_ok id /\ (id = 0 -> snd d = true)
  | WL_ARG_NEW_ID, ArgN id => id_ok id /\ id <> 0 /\ own_id s id = false
  | WL_ARG_ARRAY, ArgA (Some l) => Forall byte l
  | WL_ARG_FD, ArgH _ => True
  | _, _ => False
  end.

Definition arg_fds (a : wl_argument) : list Z := match a with ArgH fd => [fd] | _ => [] end.

(** ** Words *)

Lemma of_le32_range a b c d : byte a -> byte b -> byte c -> byte d -> 0 <= of_le32 [a; b; c; d] < 2 ^ 32.
Proof. unfold byte, of_le32. simpl. lia. Qed.

Lemma i32_range z : - 2 ^ 31 <= i32 z < 2 ^ 31.
Proof. unfold i32, u32. pose proof (Z.mod_pos_bound z (2 ^ 32)). destruct (Z.ltb_spec (z mod 2 ^ 32) (2 ^ 31)); lia. Qed.

(** A part of a message: bytes, as whole words. *)
Record words (p : list Z) : Prop := { wo_bytes : Forall byte p; wo_len : (length p mod 4 = 0)%nat }.

Lemma nat_mod_4 n : (n mod 4 = 0)%nat -> (n = 0)%nat \/ (4 <= n)%nat.
Proof. intros H. pose proof (Nat.div_mod_eq n 4). lia. Qed.

Lemma words_drop p n : words p -> words (drop (4 * n) p).
Proof.
  intros [H1 H2]. split; [by apply Forall_drop|]. rewrite length_drop. pose proof (Nat.div_mod_eq (length p) 4) as E. rewrite H2 in E.
  replace (length p - 4 * n)%nat with ((length p / 4 - n) * 4)%nat by lia. apply Nat.Div0.mod_mul.
Qed.

Lemma read_word_spec p : words p -> length p <> 0%nat -> exists w p', read_word p = Some (w, p') /\ 0 <= w < 2 ^ 32 /\ words p' /\
  length p = (4 + length p')%nat.
Proof.
  intros Hw Hne. pose proof (words_drop p 1 Hw) as Hd. destruct Hw as [H1 H2].
  destruct p as [|a [|b [|c [|d p]]]]; try done. apply Forall_cons in H1 as [Ha H1]. apply Forall_cons in H1 as [Hb H1].
  apply Forall_cons in H1 as [Hc H1]. apply Forall_cons in H1 as [Hdd H1].
  exists (of_le32 [a; b; c; d]), p. split; [done|]. split; [by apply of_le32_range|]. done.
Qed.

Lemma div_roundup_4 n : 0 <= n < 2 ^ 32 -> div_roundup n 4 = (n + 3) / 4.
Proof.
  intros Hn. unfold div_roundup, u64, u32. rewrite (Z.mod_small (n + (4 - 1))) by lia.
  replace (n + (4 - 1)) with (n + 3) by lia. apply Z.mod_small. pose proof (Z.div_mod (n + 3) 4). pose proof (Z.mod_pos_bound (n + 3) 4). lia.
Qed.

Lemma roundup_fits p n : 0 <= n < 2 ^ 32 -> ~ words_left p < div_roundup n 4 -> words p ->
  n <= 4 * div_roundup n 4 < n + 4 /\ 4 * div_roundup n 4 <= Z.of_nat (length p).
Proof.
  intros Hn Hw [_ Hl]. rewrite div_roundup_4 in * by done. unfold words_left in Hw.
  pose proof (Z.div_mod (n + 3) 4). pose proof (Z.mod_pos_bound (n + 3) 4). pose proof (Z.div_mod (Z.of_nat (length p)) 4).
  pose proof (Z.mod_pos_bound (Z.of_nat (length p)) 4). lia.
Qed.

Lemma strlen_found p k : p !! k = Some 0 -> exists n, strlen p = Some (Z.of_nat n) /\ (n <= k)%nat /\ Forall (fun b => b <> 0) (take n p).
Proof.
  revert k. induction p as [|b p IH]; intros k Hk; [done|]. cbn [strlen]. destruct (Z.eqb_spec b 0) as [->|Hb].
  - exists 0%nat. split; [done|]. split; [lia|]. apply Forall_nil_2.
  - destruct k as [|k]; [by injection Hk as ->|]. destruct (IH k Hk) as (n & -> & Hn & Hf). exists (S n).
    split; [simpl; f_equal; lia|]. split; [lia|]. by apply Forall_cons.
Qed.

(** ** Reading an argument *)

Record reader_ok (r : reader) : Prop := {
  ro_words : words (rd_p r);
  ro_conn : conn_ok (rd_conn r);
  ro_map : exists l T, map_ok (rd_objects r) l /\ represents (rd_objects r) l T }.

(** What reading arguments may change: the descriptors [taken] are off the queue. *)
Record reads (r r' : reader) (taken : list Z) : Prop := {
  rs_ok : reader_ok r';
  rs_fds : contents (fds_in (rd_conn r)) = taken ++ contents (fds_in (rd_conn r'));
  rs_in : conn_in (rd_conn r') = conn_in (rd_conn r);
  rs_out : conn_out (rd_conn r') = conn_out (rd_conn r) /\ fds_out (rd_conn r') = fds_out (rd_conn r) /\ os (rd_conn r') = os (rd_conn r);
  rs_side : side (rd_objects r') = side (rd_objects r) }.

Lemma reads_p r p : reader_ok r -> words p -> reads r (r <{ rd_p := p }>) [].
Proof. intros [H1 H2 H3] Hp. by split. Qed.

Lemma reads_trans r1 r2 r3 t1 t2 : reads r1 r2 t1 -> reads r2 r3 t2 -> reads r1 r3 (t1 ++ t2).
Proof.
  intros [A1 A2 A3 (A4 & A5 & A6) A7] [B1 B2 B3 (B4 & B5 & B6) B7].
  split; [done|by rewrite A2, B2, app_assoc|congruence|split_and!; congruence|congruence].
Qed.

(** What has to hold of the result for one argument. *)
Definition argument_read (r : reader) (d : wl_arg_type * bool) (res : option (reader * (wl_argument + closure_error))) : Prop :=
  exists r' a taken, res = Some (r', a) /\ reads r r' taken /\
    match a with inl a => arg_ok (side (rd_objects r)) d a /\ decode_fds taken = arg_fds a /\ (length taken mod 4 = 0)%nat | inr _ => taken = [] end.

(** An argument that is just a word, or an error. *)
Lemma word_read r d p a : reader_ok r -> words p -> match a with inl a => arg_ok (side (rd_objects r)) d a /\ arg_fds a = [] | inr _ => True end ->
  argument_read r d (Some (r <{ rd_p := p }>, a)).
Proof.
  intros Hr Hp Ha. exists (r <{ rd_p := p }>), a, []. split; [done|]. split; [by apply reads_p|]. destruct a; [|done].
  destruct Ha as [? E]. by rewrite E.
Qed.

Lemma string_read h r nullable : reader_ok r -> length (rd_p r) <> 0%nat ->
  argument_read r (WL_ARG_STRING, nullable) (demarshal_argument h WL_ARG_STRING nullable r).
Proof.
  intros Hr Hne. destruct (read_word_spec _ (ro_words r Hr) Hne) as (len & p & Hrw & Hlen & Hp & _).
  unfold demarshal_argument. replace (length (rd_p r) =? 0)%nat with false by (symmetry; by apply Nat.eqb_neq).
  rewrite andb_false_r, Hrw. cbn [mbind option_bind].
  destruct (Z.eqb_spec len 0) as [->|Hl]; cbn [andb].
  { destruct nullable; cbn [negb]; by apply word_read. }
  destruct (Z.ltb_spec (words_left p) (div_roundup len 4)) as [|Hw]; [by apply word_read|].
  destruct (roundup_fits p len Hlen ltac:(lia) Hp) as [Hr1 Hr2].
  destruct (lookup_lt_is_Some_2 p (Z.to_nat (len - 1)) ltac:(lia)) as [last Hlast]. rewrite Hlast. cbn [mbind option_bind].
  destruct (Z.eqb_spec last 0) as [->|]; cbn [negb]; [|by apply word_read].
  destruct (strlen_found p _ Hlast) as (n & -> & Hn & Hf). cbn [mbind option_bind].
  destruct (Z.eqb_spec (Z.of_nat n) (len - 1)); cbn [negb]; [|by apply word_read].
  apply (word_read r _ (drop (Z.to_nat (4 * div_roundup len 4)) p)); [done| |].
  - replace (Z.to_nat (4 * div_roundup len 4)) with (4 * Z.to_nat (div_roundup len 4))%nat by lia. by apply words_drop.
  - split; [|done]. rewrite Nat2Z.id. cbn [arg_ok fst]. apply Forall_forall. intros b Hb.
    pose proof (proj1 (Forall_forall _ _) Hf b Hb) as Hb0. simpl in Hb0.
    pose proof (proj1 (Forall_forall _ _) (Forall_take _ _ _ (wo_bytes _ Hp)) b Hb) as Hb1. unfold byte in Hb1. simpl in Hb1. lia.
Qed.

Lemma array_read h r nullable : reader_ok r -> length (rd_p r) <> 0%nat ->
  argument_read r (WL_ARG_ARRAY, nullable) (demarshal_argument h WL_ARG_ARRAY nullable r).
Proof.
  intros Hr Hne. destruct (read_word_spec _ (ro_words r Hr) Hne) as (len & p & Hrw & Hlen & Hp & _).
  unfold demarshal_argument. replace (length (rd_p r) =? 0)%nat with false by (symmetry; by apply Nat.eqb_neq).
  rewrite andb_false_r, Hrw. cbn [mbind option_bind].
  destruct (Z.ltb_spec (words_left p) (div_roundup len 4)) as [|Hw]; [by apply word_read|].
  destruct (roundup_fits p len Hlen ltac:(lia) Hp) as [Hr1 Hr2]. rewrite load_total by lia. cbn [mbind option_bind].
  apply (word_read r _ (drop (Z.to_nat (4 * div_roundup len 4)) p)); [done| |].
  - replace (Z.to_nat (4 * div_roundup len 4)) with (4 * Z.to_nat (div_roundup len 4))%nat by lia. by apply words_drop.
  - split; [|done]. cbn [arg_ok fst]. rewrite drop_0. apply Forall_take, (wo_bytes _ Hp).
Qed.

Lemma new_id_read h r nullable : reader_ok r -> length (rd_p r) <> 0%nat ->
  argument_read r (WL_ARG_NEW_ID, nullable) (demarshal_argument h WL_ARG_NEW_ID nullable r).
Proof.
  intros Hr Hne. destruct (read_word_spec _ (ro_words r Hr) Hne) as (id & p & Hrw & Hid & Hp & _).
  unfold demarshal_argument. replace (length (rd_p r) =? 0)%nat with false by (symmetry; by apply Nat.eqb_neq).
  rewrite andb_false_r, Hrw. cbn [mbind option_bind]. destruct (Z.eqb_spec id 0); [by apply word_read|].
  destruct (ro_map r Hr) as (l & T & Hm & HT).
  destruct (reserve_new_simulated h (rd_objects r) l T Hm HT id Hid) as (m' & x & l' & T' & E & Hm' & Hs & HT' & Hstep).
  change (rd_objects (r <{ rd_p := p }>)) with (rd_objects r). cbn [run_call] in E.
  destruct (wl_map_reserve_new h (rd_objects r) id) as [[m1 e]|] eqn:Er; [|done]. cbn [mbind option_bind]. injection E as -> <-.
  exists (r <{ rd_p := p }> <{ rd_objects := m' }>), (match e with None => inl (ArgN id) | Some EINVAL => inr CloseEINVAL
    | Some ENOSPC => inr CloseENOSPC | Some ENOMEM => inr CloseENOMEM end), [].
  split; [done|]. split.
  - destruct Hr. split; [|done..]. split; [done|done|]. by exists l', T'.
  - destruct e as [[]|]; try done. split; [|done]. simpl. split; [done|]. split; [done|]. by inversion Hstep.
Qed.

Lemma fd_read h r nullable : reader_ok r -> argument_read r (WL_ARG_FD, nullable) (demarshal_argument h WL_ARG_FD nullable r).
Proof.
  intros Hr. unfold demarshal_argument. rewrite bool_decide_eq_true_2 by done. cbn [negb andb].
  pose proof (co_fds_in _ (ro_conn r Hr)) as [Hi Ht Hs]. set (b := fds_in (rd_conn r)) in *.
  destruct (Z.eqb_spec (rb_tail b) (rb_head b)) as [E|E].
  { exists r, (inr CloseEINVAL), []. split; [done|]. split; [|done]. by split. }
  assert (Hpos : 4 <= ring_buffer_size b).
  { pose proof (ring_size_range b) as Hrg. assert (ring_buffer_size b <> 0).
    { intros E0. destruct (ri_memory b Hi) as [[Hb _]|(_ & E1 & E2 & _)]; [|congruence]. pose proof (ro_head b Hb). pose proof (ro_tail b Hb).
      unfold ring_buffer_size, u64 in E0. apply Z.mod_divide in E0 as [q Hq]; [|done]. nia. }
    pose proof (Z.div_mod (ring_buffer_size b) 4). lia. }
  rewrite inv_copy by (done || lia). cbn [mbind option_bind].
  destruct (inv_consume b 4 Hi ltac:(lia)) as [C1 C2].
  eexists _, _, (take 4 (contents b)). split; [done|].
  assert (Hlen : length (take 4 (contents b)) = 4%nat) by (rewrite length_take, contents_length; lia). split.
  - destruct Hr as [R1 [O1 O2 O3 O4] R3]. split; try done.
    + split; [done| |done]. split; try done. split; [done| |].
      * simpl. unfold u64. rewrite Z.mod_mod_divide by (by exists (2 ^ 62)). fold b. by rewrite Z.add_mod, Ht by lia.
      * simpl. fold b. rewrite size_contents, C2, length_drop, contents_length.
        replace (Z.of_nat _) with (ring_buffer_size b + (-1) * 4) by lia. by rewrite Z_mod_plus_full.
    + simpl. fold b. rewrite C2. by rewrite take_drop.
  - split; [done|]. split; [|by rewrite Hlen].
    change (Z.to_nat 4) with 4%nat. destruct (take 4 (contents b)) as [|a0 [|a1 [|a2 [|a3 [|? ?]]]]]; done.
Qed.

Lemma demarshal_argument_spec h d r : reader_ok r -> argument_read r d (demarshal_argument h (fst d) (snd d) r).
Proof.
  destruct d as [t nullable]. cbn [fst snd]. intros Hr. destruct (decide (t = WL_ARG_FD)) as [->|Ht]; [by apply fd_read|].
  destruct (decide (length (rd_p r) = 0%nat)) as [E|Hne].
  { unfold demarshal_argument. rewrite bool_decide_eq_false_2, E by done. cbn [negb andb Nat.eqb].
    exists r, (inr CloseEINVAL), []. split; [done|]. split; [|done]. destruct Hr. by split. }
  destruct t; [| | |by apply string_read| |by apply new_id_read|by apply array_read|done].
  all: destruct (read_word_spec _ (ro_words r Hr) Hne) as (w & p & Hrw & Hwr & Hp & _).
  all: unfold demarshal_argument; replace (length (rd_p r) =? 0)%nat with false by (symmetry; by apply Nat.eqb_neq).
  all: rewrite andb_false_r, Hrw; cbn [mbind option_bind].
  1-3: apply word_read; [done|done|]; split; [|done]; first [exact Hwr|apply i32_range].
  destruct (Z.eqb_spec w 0) as [->|]; destruct nullable; cbn [andb negb]; by apply word_read.
Qed.

(** ** Reading all arguments *)

(** Only arguments for descriptors hold one. *)
Definition fd_typed (d : wl_arg_type * bool) (a : wl_argument) : Prop := arg_fds a <> [] -> fst d = WL_ARG_FD.
Definition all_fds (args : list wl_argument) : list Z := concat (map arg_fds args).
Definition open_fds (fds : list Z) : list Z := filter (fun fd => fd <> -1) fds.

Lemma all_fds_app l l' : all_fds (l ++ l') = all_fds l ++ all_fds l'.
Proof. unfold all_fds. by rewrite map_app, concat_app. Qed.

Lemma open_fds_app l l' : open_fds (l ++ l') = open_fds l ++ open_fds l'.
Proof. apply filter_app. Qed.

Lemma close_fds_typed ds signature args : arguments signature = ds -> Forall2 fd_typed ds args ->
  wl_closure_close_fds signature args = open_fds (all_fds args).
Proof.
  intros E H. revert signature E. induction H as [|d a ds args Hd Hf IH]; intros signature E; [done|]. cbn [wl_closure_close_fds].
  destruct (next_argument_spec _ _ _ _ E) as (signature' & En & Es). unfold get_next_argument. rewrite En. specialize (IH _ Es).
  change (all_fds (a :: args)) with (arg_fds a ++ all_fds args). rewrite open_fds_app.
  destruct a; try (by rewrite IH). destruct d as [t nullable]. rewrite (Hd ltac:(done) : t = WL_ARG_FD). cbn [is_fd andb].
  destruct (Z.eqb_spec h (-1)) as [->|Hne]; cbn [negb]; rewrite IH; [done|]. unfold open_fds, arg_fds. rewrite filter_cons_True by done. done.
Qed.

Lemma cleared_typed ds signature : arguments signature = ds ->
  Forall2 fd_typed ds (wl_closure_clear_fds signature (replicate (length ds) (ArgU 0))) /\
  open_fds (all_fds (wl_closure_clear_fds signature (replicate (length ds) (ArgU 0)))) = [].
Proof.
  revert signature. induction ds as [|d ds IH]; intros signature E; [done|]. simpl.
  destruct (next_argument_spec _ _ _ _ E) as (signature' & En & Es). unfold get_next_argument. rewrite En.
  destruct (IH _ Es) as [I1 I2]. change (all_fds (?a :: ?l)) with (arg_fds a ++ all_fds l). rewrite open_fds_app, I2, app_nil_r.
  destruct d as [[] nullable]; (split; [constructor; [|done]; by intros ?|done]).
Qed.

Lemma arg_ok_typed s d a : arg_ok s d a -> fd_typed d a.
Proof. destruct d as [[] ?], a; by intros H ?. Qed.

Lemma demarshal_loop_spec h ds ds0 signature done r : arguments signature = ds -> reader_ok r ->
  Forall2 (arg_ok (side (rd_objects r))) ds0 done ->
  exists r' res taken, demarshal_loop h (length ds) signature done r = Some (r', res) /\ reads r r' taken /\ (length taken mod 4 = 0)%nat /\
    match res with
    | inl args => Forall2 (arg_ok (side (rd_objects r))) (ds0 ++ ds) args /\ all_fds args = all_fds done ++ decode_fds taken
    | inr (e, args) => Forall2 fd_typed (ds0 ++ ds) args /\ open_fds (all_fds args) = open_fds (all_fds done ++ decode_fds taken)
    end.
Proof.
  revert ds0 signature done r. induction ds as [|d ds IH]; intros ds0 signature done r E Hr Hd.
  { exists r, (inl done), []. split; [done|]. split; [destruct Hr; by split|]. split; [done|]. by rewrite !app_nil_r. }
  cbn [length demarshal_loop]. destruct (next_argument_spec _ _ _ _ E) as (signature' & En & Es). unfold get_next_argument. rewrite En.
  destruct d as [t nullable]. destruct (demarshal_argument_spec h (t, nullable) r Hr) as (r1 & a & taken & E1 & R1 & Ha).
  cbn [fst snd] in E1. rewrite E1. cbn [mbind option_bind]. destruct a as [a|e].
  - destruct Ha as (Ha & Hfa & Hla). pose proof (rs_side _ _ _ R1) as Hs. destruct (IH (ds0 ++ [(t, nullable)]) signature' (done ++ [a]) r1 Es (rs_ok _ _ _ R1))
      as (r' & res & taken' & E' & R' & Hl' & Hres); [rewrite Hs; apply Forall2_app; [done|by constructor]|].
    exists r', res, (taken ++ taken'). split; [done|]. split; [by eapply reads_trans|].
    split; [rewrite length_app, Nat.Div0.add_mod, Hla, Hl'; done|].
    rewrite Hs, <- app_assoc in Hres. rewrite decode_fds_app by (rewrite <- (Nat2Z.inj_mod _ 4), Hla; done).
    assert (Ea : all_fds (done ++ [a]) = all_fds done ++ decode_fds taken)
      by (rewrite all_fds_app, Hfa; unfold all_fds at 2; simpl; by rewrite app_nil_r).
    destruct res as [args|[e args]]; destruct Hres as [H1 H2]; rewrite Ea, <- app_assoc in H2; done.
  - subst taken. eexists r1, _, []. split; [done|]. split; [done|]. split; [done|]. rewrite app_nil_r.
    destruct (cleared_typed _ _ E) as [C1 C2]. cbn [length] in C1, C2. split.
    + apply Forall2_app; [|done]. by eapply Forall2_impl; [|apply arg_ok_typed].
    + rewrite all_fds_app, open_fds_app, C2. by rewrite app_nil_r.
Qed.

Lemma consume_ok c size : conn_ok c -> 0 <= size <= ring_buffer_size (conn_in c) ->
  conn_ok (wl_connection_consume c size) /\ contents (conn_in (wl_connection_consume c size)) = drop (Z.to_nat size) (contents (conn_in c)).
Proof.
  intros [H1 H2 H3 H4] Hs. destruct (inv_consume (conn_in c) size H1 Hs) as [C1 C2]. split; [by split|done].
Qed.

Lemma whole_words p n : Forall byte p -> words (take (4 * n) p) \/ (length p < 4 * n)%nat.
Proof.
  intros Hp. destruct (decide (length p < 4 * n)%nat); [by right|left]. split; [by apply Forall_take|].
  rewrite length_take, Nat.min_l, Nat.mul_comm by lia. apply Nat.Div0.mod_mul.
Qed.

(** The result of reading a message of [size] bytes. *)
Definition message_read (c : wl_connection) (size : Z) (s : Z) (message : wl_message) (c' : wl_connection) (m' : wl_map)
    (res : wl_closure + closure_error) (taken : list Z) : Prop :=
  conn_ok c' /\ (exists l T, map_ok m' l /\ represents m' l T) /\ side m' = s /\
  contents (conn_in c') = drop (Z.to_nat size) (contents (conn_in c)) /\
  contents (fds_in c) = taken ++ contents (fds_in c') /\
  match res with
  | inl cl => cl_message cl = message /\ Forall2 (arg_ok s) (arguments (msg_signature message)) (cl_args cl) /\
      all_fds (cl_args cl) = decode_fds taken /\ closed (os c') = closed (os c)
  | inr _ => closed (os c') = closed (os c) ++ open_fds (decode_fds taken)
  end.

Lemma demarshal_reads h closure_ok c size objects l T message : conn_ok c -> Forall byte (contents (conn_in c)) ->
  map_ok objects l -> represents objects l T -> 0 <= size <= ring_buffer_size (conn_in c) ->
  exists c' m' res taken, wl_connection_demarshal h closure_ok c size objects message = Some (c', m', res) /\
    message_read c size (side objects) message c' m' res taken.
Proof.
  intros Hc Hb Hm HT Hs. unfold wl_connection_demarshal. destruct (consume_ok c size Hc Hs) as [C1 C2].
  assert (Hfail : forall e, exists c' m' res taken, Some (wl_connection_consume c size, objects, inr e) = Some (c', m', res) /\
    message_read c size (side objects) message c' m' res taken).
  { intros e. exists (wl_connection_consume c size), objects, (inr e), []. split; [done|]. split; [done|].
    split; [by exists l, T|]. split; [done|]. split; [done|]. split; [done|]. simpl. by rewrite app_nil_r. }
  destruct (Z.ltb_spec size 8); [apply Hfail|]. unfold wl_closure_init. destruct (_ >? _); [apply Hfail|].
  destruct closure_ok; cbn [negb]; [|apply Hfail]. unfold wl_connection_copy. rewrite inv_copy by (done || apply Hc).
  cbn [mbind option_bind cl_args]. set (bytes := take (Z.to_nat size) (contents (conn_in c))).
  assert (Hbl : length bytes = Z.to_nat size) by (unfold bytes; rewrite length_take, contents_length; lia).
  pose proof (Z.div_mod size 4 ltac:(done)) as Hdm. pose proof (Z.mod_pos_bound size 4 ltac:(done)) as Hmb.
  replace (Z.to_nat (4 * (size / 4))) with (4 * Z.to_nat (size / 4))%nat by lia.
  destruct (whole_words bytes (Z.to_nat (size / 4)) (Forall_take _ _ _ Hb)) as [Hw|]; [|lia].
  assert (Hwl : length (take (4 * Z.to_nat (size / 4)) bytes) = (4 * Z.to_nat (size / 4))%nat) by (rewrite length_take; lia).
  destruct (read_word_spec _ Hw) as (sender & p1 & -> & _ & Hw1 & L1); [lia|]. cbn [mbind option_bind].
  destruct (read_word_spec _ Hw1) as (word & p2 & -> & _ & Hw2 & L2); [lia|]. cbn [mbind option_bind].
  assert (Hcount : length (wl_closure_clear_fds (msg_signature message) (replicate (arg_count_for_signature (msg_signature message)) (ArgU 0))) =
    length (arguments (msg_signature message))).
  { rewrite <- (count_arguments false). symmetry. apply (Forall2_length fd_typed), cleared_typed. done. }
  rewrite Hcount. destruct (demarshal_loop_spec h _ [] (msg_signature message) [] (Reader p2 c objects) eq_refl) as
    (r' & res & taken & -> & R & _ & Hres); [split; [done|done|by exists l, T]|constructor|].
  cbn [mbind option_bind]. destruct R as [[_ R1 R2] R3 R4 (R5 & R6 & R7) R8]. cbn [rd_conn rd_objects] in *.
  assert (Hs' : 0 <= size <= ring_buffer_size (conn_in (rd_conn r'))) by (by rewrite R4).
  destruct res as [args|[e args]].
  - eexists _, _, _, taken. split; [done|]. destruct (consume_ok (rd_conn r') size R1 Hs') as [D1 D2]. split; [done|]. split; [done|].
    split; [done|]. split; [by rewrite D2, R4|]. split; [done|]. simpl. rewrite R7. destruct Hres as [Hres1 Hres2]. done.
  - eexists _, _, _, taken. split; [done|]. set (c2 := log_closed _ (rd_conn r')).
    assert (Hc2 : conn_ok c2) by (destruct R1; by split).
    destruct (consume_ok c2 size Hc2 Hs') as [D1 D2]. split; [done|]. split; [done|]. split; [done|].
    split; [rewrite D2; simpl; by rewrite R4|]. split; [done|]. destruct Hres as [Hty Hop]. simpl. rewrite R7. f_equal.
    unfold wl_closure_destroy. simpl. rewrite (close_fds_typed _ _ _ eq_refl Hty). done.
Qed.

(** ** Resolving objects *)

(** An argument after the lookup: an object is one of the map and has the interface that the
    message asks for; a missing one is allowed to be (or, for a client, was destroyed). *)
Definition resolved (deref : Z -> wl_object) (objects : wl_map) (d : wl_arg_type * bool) (type : option wl_interface) (a : wl_argument) : Prop :=
  match fst d with
  | WL_ARG_OBJECT =>
      match a with
      | ArgO None => snd d = true \/ side objects = WL_MAP_CLIENT_SIDE
      | ArgO (Some o) => (exists id, id_ok id /\ wl_map_lookup objects id <> 0 /\ o = deref (wl_map_lookup objects id)) /\
          forall t, type = Some t -> wl_interface_equal (obj_interface o) t = true
      | _ => False
      end
  | _ => arg_ok (side objects) d a
  end.

Fixpoint all_resolved (deref : Z -> wl_object) (objects : wl_map) (ds : list (wl_arg_type * bool)) (types : list (option wl_interface))
    (args : list wl_argument) : Prop :=
  match ds, args with
  | [], [] => True
  | d :: ds, a :: args => resolved deref objects d (default None (head types)) a /\ all_resolved deref objects ds (tail types) args
  | _, _ => False
  end.

Lemma lookup_loop_spec deref objects ds signature types args : side objects = WL_MAP_SERVER_SIDE \/ side objects = WL_MAP_CLIENT_SIDE ->
  arguments signature = ds -> Forall2 (arg_ok (side objects)) ds args ->
  exists res, lookup_loop deref objects signature types args = Some res /\
    match res with inl args => all_resolved deref objects ds types args | inr _ => True end.
Proof.
  intros Hside E H. revert signature types E. induction H as [|d a ds args Ha Hf IH]; intros signature types E; [by exists (inl [])|].
  cbn [lookup_loop]. destruct (next_argument_spec _ _ _ _ E) as (signature' & En & Es). unfold get_next_argument. rewrite En.
  destruct (IH signature' (tail types) Es) as (res & -> & Hres). cbn [mbind option_bind]. destruct d as [t nullable].
  assert (Hnext : forall a', resolved deref objects (t, nullable) (default None (head types)) a' ->
    exists res0, Some match res with inl args => inl (a' :: args) | inr e => inr e end = Some res0 /\
      match res0 with inl args => all_resolved deref objects ((t, nullable) :: ds) types args | inr _ => True end).
  { intros a' Ha'. eexists. split; [done|]. destruct res as [args'|e]; [|done]. by split. }
  destruct (decide (t = WL_ARG_OBJECT)) as [->|Ht]; [|destruct t; try done; by apply Hnext].
  destruct a; try done. destruct Ha as [Hid Hnull]. simpl in Hnull.
  destruct (wl_object_is_zombie objects n) eqn:Ez; cbn [negb andb orb].
  { apply Hnext. simpl. right. unfold wl_object_is_zombie in Ez. destruct Hside as [Hside|]; [by rewrite Hside in Ez|done]. }
  destruct (Z.eqb_spec (wl_map_lookup objects n) 0) as [E0|E0]; cbn [andb].
  - destruct (Z.eqb_spec n 0); cbn [negb]; [|by eexists]. apply Hnext. simpl. left. auto.
  - destruct (default None (head types)) as [ty|] eqn:Ety.
    + destruct (wl_interface_equal _ ty) eqn:Ee; cbn [negb]; [|by eexists]. apply Hnext. split; [by exists n|]. by intros t [= <-].
    + apply Hnext. split; [by exists n|done].
Qed.

