(* ===== verification/RoundTrip.v ===== *)
(** * Messages survive the wire

    What serialize_closure writes, wl_connection_demarshal reads
    (src/libs/wayland/src/connection.c), and the buffer that is computed for a message is
    exactly as large as the message. *)

From Stdlib Require Import Ascii.
From S2P Require Import Prelude RingBuffer ObjectMap Connection Marshal.

(** ** Words *)

Lemma shift_byte z k : 0 <= k -> Z.shiftr z k mod 256 = (z / 2 ^ k) mod 256.
Proof. intros Hk. by rewrite Z.shiftr_div_pow2. Qed.

Lemma of_le32_le32 z : of_le32 (le32 z) = u32 z.
Proof.
  unfold le32, of_le32, u32. cbn [foldr]. rewrite !shift_byte by lia.
  change (2 ^ 32) with (256 * (256 * (256 * 256))). rewrite !Z.rem_mul_r by lia.
  change (2 ^ 8) with 256. change (2 ^ 16) with (256 * 256). change (2 ^ 24) with (256 * 256 * 256). rewrite <- !Z.div_div by lia. lia.
Qed.

Lemma le32_bytes z : Forall byte (le32 z).
Proof. repeat constructor; apply Z.mod_pos_bound; lia. Qed.

Lemma i32_small z : - 2 ^ 31 <= z < 2 ^ 31 -> i32 (u32 z) = z.
Proof.
  intros Hz. unfold i32, u32. rewrite Z.mod_mod by lia. destruct (decide (0 <= z)).
  - rewrite Z.mod_small by lia. by replace (z <? 2 ^ 31) with true by lia.
  - rewrite <- (Z.mod_add z 1 (2 ^ 32)), Z.mod_small by lia. replace (_ <? 2 ^ 31) with false by lia. lia.
Qed.

Lemma read_le32 z p : read_word (le32 z ++ p) = Some (u32 z, p).
Proof. rewrite <- of_le32_le32. done. Qed.

(** ** Arguments that can be sent *)

Definition send_ok (d : wl_arg_type * bool) (a : wl_argument) : Prop :=
  match fst d, a with
  | WL_ARG_INT, ArgI i | WL_ARG_FIXED, ArgF i => - 2 ^ 31 <= i < 2 ^ 31
  | WL_ARG_UINT, ArgU u => 0 <= u < 2 ^ 32
  | WL_ARG_STRING, ArgS None => snd d = true
  | WL_ARG_STRING, ArgS (Some l) => Forall (fun b => 0 < b < 256) l /\ Z.of_nat (length l) + 1 < 2 ^ 32
  | WL_ARG_OBJECT, ArgO None => snd d = true
  | WL_ARG_OBJECT, ArgO (Some o) => 0 < obj_id o < 2 ^ 32
  | WL_ARG_NEW_ID, ArgN id => 0 < id < 2 ^ 32
  | WL_ARG_ARRAY, ArgA (Some l) => Forall byte l /\ Z.of_nat (length l) < 2 ^ 32
  | WL_ARG_FD, ArgH _ => True
  | _, _ => False
  end.

(** How many words an argument takes. *)
Definition arg_words (a : wl_argument) : Z :=
  match a with
  | ArgH _ => 0
  | ArgS (Some l) => 1 + (Z.of_nat (length l) + 4) / 4
  | ArgA (Some l) => 1 + (Z.of_nat (length l) + 3) / 4
  | _ => 1
  end.

(** How an argument looks to the other side: objects are their ids. *)
Definition recv_arg (a : wl_argument) : wl_argument := match a with ArgO o => ArgN (from_option obj_id 0 o) | _ => a end.

(** What reading the bytes of an argument does. *)
Definition expected (h : allocator) (a : wl_argument) (r : reader) (p : list Z) : option (reader * (wl_argument + closure_error)) :=
  let r := r <{ rd_p := p }> in
  match a with
  | ArgN id => wl_map_reserve_new h (rd_objects r) id ≫= fun '(m, e) =>
      Some (r <{ rd_objects := m }>,
        match e with None => inl (ArgN id) | Some EINVAL => inr CloseEINVAL | Some ENOSPC => inr CloseENOSPC | Some ENOMEM => inr CloseENOMEM end)
  | _ => Some (r, inl (recv_arg a))
  end.

Definition decodes (d : wl_arg_type * bool) (a : wl_argument) (enc : list Z) : Prop :=
  forall h r p, (length p mod 4 = 0)%nat -> rd_p r = enc ++ p -> demarshal_argument h (fst d) (snd d) r = expected h a r p.

(** ** One argument *)

Lemma demarshal_not_empty t r x p : rd_p r = le32 x ++ p ->
  negb (bool_decide (t = WL_ARG_FD)) && (length (rd_p r) =? 0)%nat = false.
Proof. intros ->. simpl. by rewrite andb_false_r. Qed.

Lemma write_word_spec w b : (4 <= length (snd b))%nat -> write_word w b = Some (fst b ++ le32 w, drop 4 (snd b)).
Proof. intros H. unfold write_word. by replace (4 <=? length (snd b))%nat with true by (symmetry; by apply Nat.leb_le). Qed.

(** Data is written whole, with what the memory held as padding. *)
Lemma write_data_spec data b : let size := Z.of_nat (length data) in
  0 <= size < 2 ^ 32 -> 4 * ((size + 3) / 4) <= Z.of_nat (length (snd b)) -> Forall byte data -> Forall byte (snd b) ->
  exists pad, write_data data size b = Some (fst b ++ data ++ pad, drop (length (data ++ pad)) (snd b)) /\ Forall byte pad /\
    Z.of_nat (length (data ++ pad)) = 4 * ((size + 3) / 4).
Proof.
  intros size Hs Hfit Hd Hb. unfold write_data. rewrite div_roundup_4 by done.
  pose proof (Z.div_mod (size + 3) 4 ltac:(done)). pose proof (Z.mod_pos_bound (size + 3) 4 ltac:(done)).
  set (n := Z.to_nat (4 * ((size + 3) / 4))). assert (Hn : (length data <= n <= length (snd b))%nat) by lia.
  rewrite take_ge by (unfold size; lia). rewrite store_total by lia. cbn [mbind option_bind].
  assert (Hins : list_inserts 0 data (snd b) = data ++ drop (length data) (snd b)).
  { rewrite <- (take_drop (length data) (snd b)) at 1. apply list_inserts_0_r. rewrite length_take. lia. }
  rewrite Hins.
  exists (take (n - length data) (drop (length data) (snd b))).
  assert (Hl : length (data ++ take (n - length data) (drop (length data) (snd b))) = n) by (rewrite length_app, length_take, length_drop; lia).
  split; [|split; [by apply Forall_take, Forall_drop|lia]]. do 2 f_equal.
  - f_equal. rewrite take_app, (take_ge data) by lia. done.
  - rewrite drop_app, (drop_ge data), app_nil_l by lia. rewrite drop_drop, Hl. f_equal. lia.
Qed.

(** What writing an argument has to give: bytes that the other side decodes. *)
Definition argument_written (d : wl_arg_type * bool) (a : wl_argument) (b : buffer) (res : option (option buffer)) : Prop :=
  exists enc, res = Some (Some (fst b ++ enc, drop (length enc) (snd b))) /\ Forall byte enc /\
    Z.of_nat (length enc) = 4 * arg_words a /\ decodes d a enc.

Lemma word_written d a b w : (4 <= length (snd b))%nat -> arg_words a = 1 -> decodes d a (le32 w) ->
  argument_written d a b (Some <$> write_word w b).
Proof.
  intros Hl Hw Hd. exists (le32 w). rewrite write_word_spec by done. split; [done|]. split; [apply le32_bytes|]. by rewrite Hw.
Qed.

(** A length, then the data. *)
Lemma sized_written d a b data : let size := Z.of_nat (length data) in
  0 <= size < 2 ^ 32 -> arg_words a = 1 + (size + 3) / 4 -> 4 * arg_words a <= Z.of_nat (length (snd b)) -> words (snd b) -> Forall byte data ->
  (forall pad, Z.of_nat (length (data ++ pad)) = 4 * ((size + 3) / 4) -> decodes d a (le32 size ++ data ++ pad)) ->
  argument_written d a b (write_word size b ≫= fun b =>
    if div_roundup size 4 >? words_left (snd b) then Some None else Some <$> write_data data size b).
Proof.
  intros size Hs Hw Hfit Hb Hdata Hdec. pose proof (Z.div_mod (size + 3) 4 ltac:(done)) as Hdm. pose proof (Z.mod_pos_bound (size + 3) 4 ltac:(done)).
  rewrite write_word_spec by lia. cbn [mbind option_bind snd]. rewrite div_roundup_4 by done. unfold words_left.
  assert (Hgt : ((size + 3) / 4 >? Z.of_nat (length (drop 4 (snd b))) / 4) = false).
  { rewrite length_drop. pose proof (Z.div_le_lower_bound (Z.of_nat (length (snd b) - 4)) 4 ((size + 3) / 4)). lia. }
  rewrite Hgt. destruct (write_data_spec data (fst b ++ le32 size, drop 4 (snd b))) as (pad & E & Hpad & Hlen); simpl snd.
  - done.
  - rewrite length_drop. fold size. lia.
  - done.
  - apply Forall_drop, (wo_bytes _ Hb).
  - fold size in E, Hlen. rewrite E. exists (le32 size ++ data ++ pad). split; [|split; [|split]].
    + cbn [fst snd]. rewrite drop_drop. simpl. by rewrite <- (app_assoc (fst b)).
    + apply Forall_app. split; [apply le32_bytes|]. by apply Forall_app.
    + rewrite length_app. simpl. lia.
    + by apply Hdec.
Qed.

Lemma strlen_prefix s p : Forall (fun b => 0 < b < 256) s -> strlen (s ++ 0 :: p) = Some (Z.of_nat (length s)).
Proof.
  intros Hs. induction Hs as [|b s Hb _ IH]; [done|]. cbn [app strlen]. replace (b =? 0) with false by lia. rewrite IH. simpl. f_equal. lia.
Qed.

(** The bytes of sized data followed by whole words. *)
Lemma sized_read data pad p : let size := Z.of_nat (length data) in
  0 <= size < 2 ^ 32 -> Z.of_nat (length (data ++ pad)) = 4 * ((size + 3) / 4) ->
  (words_left ((data ++ pad) ++ p) <? div_roundup size 4) = false /\ drop (Z.to_nat (4 * div_roundup size 4)) ((data ++ pad) ++ p) = p.
Proof.
  intros size Hs Hl. rewrite div_roundup_4 by done. split.
  - unfold words_left. rewrite length_app. pose proof (Z.div_le_lower_bound (Z.of_nat (length (data ++ pad) + length p)) 4 ((size + 3) / 4)). lia.
  - replace (Z.to_nat (4 * ((size + 3) / 4))) with (length (data ++ pad)) by lia. by rewrite drop_app_length.
Qed.

Lemma string_decodes s nullable pad : let data := s ++ [0] in let size := Z.of_nat (length data) in
  Forall (fun b => 0 < b < 256) s -> 0 <= size < 2 ^ 32 -> Z.of_nat (length (data ++ pad)) = 4 * ((size + 3) / 4) ->
  decodes (WL_ARG_STRING, nullable) (ArgS (Some s)) (le32 size ++ data ++ pad).
Proof.
  intros data size Hf Hs Hl h r p Hp Hr. unfold demarshal_argument, expected. cbn [fst snd].
  rewrite <- app_assoc in Hr. rewrite (demarshal_not_empty _ _ _ _ Hr), Hr, read_le32. cbn [mbind option_bind].
  unfold u32. rewrite Z.mod_small by done. assert (Hpos : 0 < size) by (unfold size, data; rewrite length_app; simpl; lia).
  replace (size =? 0) with false by lia. cbn [andb]. destruct (sized_read data pad p Hs Hl) as [E Hdrop]. fold size in E, Hdrop. rewrite E.
  assert (Hlast : ((data ++ pad) ++ p) !! Z.to_nat (size - 1) = Some 0).
  { unfold size, data. rewrite length_app. simpl. replace (Z.to_nat _) with (length s) by lia. rewrite <- !app_assoc. cbn [app]. by rewrite list_lookup_middle. }
  rewrite Hlast. cbn [mbind option_bind Z.eqb negb].
  assert (Hstr : strlen ((data ++ pad) ++ p) = Some (size - 1)).
  { unfold data. rewrite <- !app_assoc. simpl. rewrite strlen_prefix by done. f_equal. unfold size, data. rewrite length_app. simpl. lia. }
  rewrite Hstr. cbn [mbind option_bind]. rewrite Z.eqb_refl. cbn [negb]. rewrite Hdrop. do 4 f_equal.
  unfold size, data. rewrite length_app. simpl. replace (Z.to_nat _) with (length s) by lia. rewrite <- !app_assoc. by rewrite take_app_length.
Qed.

Lemma array_decodes l nullable pad : let size := Z.of_nat (length l) in
  0 <= size < 2 ^ 32 -> Z.of_nat (length (l ++ pad)) = 4 * ((size + 3) / 4) ->
  decodes (WL_ARG_ARRAY, nullable) (ArgA (Some l)) (le32 size ++ l ++ pad).
Proof.
  intros size Hs Hl h r p Hp Hr. unfold demarshal_argument, expected. cbn [fst snd].
  rewrite <- app_assoc in Hr. rewrite (demarshal_not_empty _ _ _ _ Hr), Hr, read_le32. cbn [mbind option_bind].
  unfold u32. rewrite Z.mod_small by done. destruct (sized_read l pad p Hs Hl) as [E Hdrop]. fold size in E, Hdrop. rewrite E.
  replace (Z.to_nat size) with (length l) by lia. rewrite load_total by (rewrite !length_app; lia). cbn [mbind option_bind]. rewrite Hdrop.
  rewrite drop_0, <- app_assoc, take_app_length. done.
Qed.

Lemma serialize_argument_spec d a b : fst d <> WL_ARG_FD -> send_ok d a -> words (snd b) -> 4 * arg_words a <= Z.of_nat (length (snd b)) ->
  argument_written d a b (serialize_argument (fst d) a b).
Proof.
  destruct d as [t nullable]. intros Ht Ha Hb Hfit. cbn [fst] in *.
  destruct t, a as [i|u|f|[s|]|o|n|[l|]|fd]; try done; cbn [serialize_argument].
  - apply word_written; [simpl in Hfit; lia|done|]. intros h r p Hp Hr. unfold demarshal_argument, expected. cbn [fst].
    rewrite (demarshal_not_empty _ _ _ _ Hr), Hr, read_le32. cbn [mbind option_bind]. by rewrite i32_small.
  - apply word_written; [simpl in Hfit; lia|done|]. intros h r p Hp Hr. unfold demarshal_argument, expected. cbn [fst].
    rewrite (demarshal_not_empty _ _ _ _ Hr), Hr, read_le32. cbn [mbind option_bind]. unfold u32. by rewrite Z.mod_small.
  - apply word_written; [simpl in Hfit; lia|done|]. intros h r p Hp Hr. unfold demarshal_argument, expected. cbn [fst].
    rewrite (demarshal_not_empty _ _ _ _ Hr), Hr, read_le32. cbn [mbind option_bind]. by rewrite i32_small.
  - destruct Ha as [Hs Hl]. replace (u32 (Z.of_nat (length s) + 1)) with (Z.of_nat (length (s ++ [0]))).
    2:{ unfold u32. rewrite Z.mod_small by lia. rewrite length_app. simpl. lia. }
    assert (El : Z.of_nat (length (s ++ [0])) = Z.of_nat (length s) + 1) by (rewrite length_app; simpl; lia).
    apply sized_written; try done; [lia|rewrite El; cbn [arg_words]; by replace (Z.of_nat (length s) + 1 + 3) with (Z.of_nat (length s) + 4) by lia| |].
    + apply Forall_app. split; [|by repeat constructor]. eapply Forall_impl; [done|]. unfold byte. intros x Hx. simpl in *. lia.
    + intros pad Hpad. apply string_decodes; [done|lia|done].
  - apply word_written; [simpl in Hfit; lia|done|]. intros h r p Hp Hr. unfold demarshal_argument, expected. cbn [fst snd].
    rewrite (demarshal_not_empty _ _ _ _ Hr), Hr, read_le32. cbn [mbind option_bind]. simpl in Ha. by rewrite Ha.
  - apply word_written; [simpl in Hfit; lia|done|]. intros h r p Hp Hr. unfold demarshal_argument, expected. cbn [fst snd].
    rewrite (demarshal_not_empty _ _ _ _ Hr), Hr, read_le32. cbn [mbind option_bind]. destruct o as [o|]; unfold send_ok in Ha; simpl in Ha.
    + change (from_option obj_id 0 (Some o)) with (obj_id o). unfold u32. rewrite Z.mod_small by lia. by replace (obj_id o =? 0) with false by lia.
    + by rewrite Ha.
  - apply word_written; [simpl in Hfit; lia|done|]. intros h r p Hp Hr. unfold demarshal_argument, expected. cbn [fst snd].
    rewrite (demarshal_not_empty _ _ _ _ Hr), Hr, read_le32. cbn [mbind option_bind]. unfold send_ok in Ha. simpl in Ha. unfold u32. rewrite Z.mod_small by lia.
    by replace (n =? 0) with false by lia.
  - destruct Ha as [Hf Hl]. replace (u32 (Z.of_nat (length l))) with (Z.of_nat (length l)) by (unfold u32; by rewrite Z.mod_small by lia).
    apply sized_written; try done; [lia|]. intros pad Hpad. apply array_decodes; [lia|done].
Qed.

(** ** All arguments *)

Definition total_words (args : list wl_argument) : Z := foldr (fun a n => arg_words a + n) 0 args.

Definition new_ids (args : list wl_argument) : list Z := omap (fun a => match a with ArgN id => Some id | _ => None end) args.

(** The new ids of a message can be reserved. *)
Fixpoint reserve_all (h : allocator) (m : wl_map) (ids : list Z) : option wl_map :=
  match ids with
  | [] => Some m
  | id :: ids => match wl_map_reserve_new h m id with Some (m, None) => reserve_all h m ids | _ => None end
  end.

(** How the arguments look to the other side, where the descriptors have other numbers. *)
Fixpoint receive (args : list wl_argument) (fds : list Z) : list wl_argument :=
  match args, fds with
  | ArgH _ :: args, fd :: fds => ArgH fd :: receive args fds
  | a :: args, fds => recv_arg a :: receive args fds
  | [], _ => []
  end.

Definition int32 (z : Z) : Prop := - 2 ^ 31 <= z < 2 ^ 31.

Definition fd_bytes (fds : list Z) : list Z := concat (map le32 fds).

(** The reader has the bytes [enc] before [p], and the descriptors [fds] before [more]. *)
Record ready (h : allocator) (r : reader) (enc p : list Z) (args : list wl_argument) (fds more : list Z) (m' : wl_map) : Prop := {
  rdy_ok : reader_ok r;
  rdy_p : rd_p r = enc ++ p;
  rdy_fds : contents (fds_in (rd_conn r)) = fd_bytes fds ++ more;
  rdy_count : length fds = length (all_fds args);
  rdy_range : Forall int32 fds;
  rdy_ids : reserve_all h (rd_objects r) (new_ids args) = Some m' }.

(** They have been read. *)
Record finished (r r' : reader) (p more : list Z) (m' : wl_map) : Prop := {
  fin_ok : reader_ok r';
  fin_p : rd_p r' = p;
  fin_fds : contents (fds_in (rd_conn r')) = more;
  fin_map : rd_objects r' = m';
  fin_in : conn_in (rd_conn r') = conn_in (rd_conn r);
  fin_os : os (rd_conn r') = os (rd_conn r) }.

Lemma fd_decodes h r nullable fd more : reader_ok r -> contents (fds_in (rd_conn r)) = le32 fd ++ more -> int32 fd ->
  exists r', demarshal_argument h WL_ARG_FD nullable r = Some (r', inl (ArgH fd)) /\ reads r r' (le32 fd) /\ rd_p r' = rd_p r /\
    rd_objects r' = rd_objects r.
Proof.
  intros Hr Hc Hfd. destruct (fd_read h r nullable Hr) as (r' & a & taken & E & R & Ha). revert E. unfold demarshal_argument.
  rewrite bool_decide_eq_true_2 by done. cbn [negb andb]. pose proof (co_fds_in _ (ro_conn r Hr)) as [Hi _ _].
  assert (Hsize : ring_buffer_size (fds_in (rd_conn r)) = 4 + Z.of_nat (length more)) by (rewrite size_contents, Hc, length_app; simpl; lia).
  destruct (Z.eqb_spec (rb_tail (fds_in (rd_conn r))) (rb_head (fds_in (rd_conn r)))) as [E0|_].
  { unfold ring_buffer_size in Hsize. rewrite E0, Z.sub_diag in Hsize. change (u64 0) with 0 in Hsize. lia. }
  rewrite inv_copy, Hc by (done || lia). cbn [mbind option_bind]. change (take (Z.to_nat 4) (le32 fd ++ more)) with (le32 fd).
  rewrite of_le32_le32, i32_small by done. intros [= <- <-]. eexists. split; [done|]. split; [|done].
  destruct Ha as (_ & Hd & Hl). replace (le32 fd) with taken; [done|]. pose proof (rs_fds _ _ _ R) as Hf. rewrite Hc in Hf.
  destruct taken as [|t0 [|t1 [|t2 [|t3 [|t4 taken]]]]]; try done; [by injection Hf as <- <- <- <- _|].
  simpl in Hd. injection Hd as _ Hd. destruct taken as [|? [|? [|? ?]]]; try done.
Qed.

Definition decodes_all (ds : list (wl_arg_type * bool)) (args : list wl_argument) (enc : list Z) : Prop :=
  forall h r p fds more m' signature done, arguments signature = ds -> words p -> ready h r enc p args fds more m' ->
  exists r', demarshal_loop h (length ds) signature done r = Some (r', inl (done ++ receive args fds)) /\ finished r r' p more m'.

(** A descriptor takes no bytes. *)
Lemma decodes_fd ds args enc nullable fd : decodes_all ds args enc -> decodes_all ((WL_ARG_FD, nullable) :: ds) (ArgH fd :: args) enc.
Proof.
  intros IH h r p fds more m' signature done E Hp [R1 R2 R3 R4 R5 R6]. destruct (next_argument_spec _ _ _ _ E) as (signature' & En & Es).
  cbn [length demarshal_loop]. unfold get_next_argument. rewrite En.
  destruct fds as [|fd' fds]; [done|]. apply Forall_cons in R5 as [Hfd R5].
  destruct (fd_decodes h r nullable fd' (fd_bytes fds ++ more) R1) as (r1 & -> & Hr1 & Hp1 & Hm1); [by rewrite R3|done|].
  cbn [mbind option_bind]. destruct (IH h r1 p fds more m' signature' (done ++ [ArgH fd']) Es Hp) as (r' & E' & [F1 F2 F3 F4 F5 F6]).
  - split; [apply (rs_ok _ _ _ Hr1)|by rewrite Hp1| |simpl in R4; by injection R4|done|by rewrite Hm1].
    pose proof (rs_fds _ _ _ Hr1) as Hf. rewrite R3 in Hf. unfold fd_bytes in Hf. simpl in Hf. by injection Hf.
  - exists r'. split; [rewrite E'; cbn [receive]; by rewrite <- app_assoc|].
    destruct (rs_out _ _ _ Hr1) as (_ & _ & Hos). split; try done; [by rewrite F5, (rs_in _ _ _ Hr1)|by rewrite F6].
Qed.

Lemma decode_fds_nil l : decode_fds l = [] -> (length l mod 4 = 0)%nat -> l = [].
Proof. destruct l as [|? [|? [|? [|? l]]]]; done. Qed.

Lemma expected_step h a r p args m' r1 x : arg_fds a = [] -> reserve_all h (rd_objects r) (new_ids (a :: args)) = Some m' ->
  expected h a r p = Some (r1, x) ->
  x = inl (recv_arg a) /\ rd_p r1 = p /\ reserve_all h (rd_objects r1) (new_ids args) = Some m' /\ arg_fds (recv_arg a) = [].
Proof.
  intros Hf Hres. unfold expected. destruct a; try done; try (by intros [= <- <-]). cbn in Hres.
  change (rd_objects (r <{ rd_p := p }>)) with (rd_objects r). destruct (wl_map_reserve_new h (rd_objects r) n) as [[m [e|]]|]; try done.
  cbn [mbind option_bind]. by intros [= <- <-].
Qed.

(** Any other argument comes first in the bytes. *)
Lemma decodes_word d a ds args enc enc' : arg_fds a = [] -> decodes d a enc -> words enc' -> decodes_all ds args enc' ->
  decodes_all (d :: ds) (a :: args) (enc ++ enc').
Proof.
  intros Ha Hdec Hw IH h r p fds more m' signature done E Hp [R1 R2 R3 R4 R5 R6].
  destruct (next_argument_spec _ _ _ _ E) as (signature' & En & Es). cbn [length demarshal_loop]. unfold get_next_argument. rewrite En.
  destruct d as [t nullable]. rewrite <- app_assoc in R2.
  assert (Hw' : words (enc' ++ p)).
  { split; [apply Forall_app; by split; apply wo_bytes|]. by rewrite length_app, Nat.Div0.add_mod, (wo_len _ Hw), (wo_len _ Hp). }
  pose proof (Hdec h r (enc' ++ p) (wo_len _ Hw') R2) as E1. cbn [fst snd] in E1.
  destruct (demarshal_argument_spec h (t, nullable) r R1) as (r1 & x & taken & E2 & Hr1 & Hx). cbn [fst snd] in E2.
  rewrite E2. rewrite E1 in E2. destruct (expected_step _ _ _ _ _ _ _ _ Ha R6 E2) as (-> & Hp1 & Hm1 & Hf1). cbn [mbind option_bind].
  destruct Hx as (_ & Htk & Hlen). rewrite Hf1 in Htk. assert (taken = []) as -> by (by apply decode_fds_nil).
  change (all_fds (a :: args)) with (arg_fds a ++ all_fds args) in R4. rewrite Ha, app_nil_l in R4.
  destruct (IH h r1 p fds more m' signature' (done ++ [recv_arg a]) Es Hp) as (r' & E' & [F1 F2 F3 F4 F5 F6]).
  - split; [apply (rs_ok _ _ _ Hr1)|done| |done|done|done]. pose proof (rs_fds _ _ _ Hr1) as Hf. by rewrite <- R3, Hf.
  - exists r'. split; [rewrite E', <- app_assoc; by destruct a|].
    destruct (rs_out _ _ _ Hr1) as (_ & _ & Hos). split; try done; [by rewrite F5, (rs_in _ _ _ Hr1)|by rewrite F6].
Qed.

Lemma decodes_end : decodes_all [] [] [].
Proof.
  intros h r p fds more m' signature done _ Hp [R1 R2 R3 R4 R5 R6]. destruct fds; [|done]. exists r.
  split; [by rewrite app_nil_r|]. injection R6 as R6. by split.
Qed.

Lemma arg_words_pos a : 0 <= arg_words a.
Proof.
  destruct a as [| | |[l|]| | |[l|]|]; simpl; try lia; [pose proof (Z.div_pos (Z.of_nat (length l) + 4) 4)|
    pose proof (Z.div_pos (Z.of_nat (length l) + 3) 4)]; lia.
Qed.

Lemma serialize_loop_spec ds signature args b : arguments signature = ds -> Forall2 send_ok ds args -> words (snd b) ->
  4 * total_words args <= Z.of_nat (length (snd b)) ->
  exists enc, serialize_loop signature args b = Some (Some (fst b ++ enc, drop (length enc) (snd b))) /\ words enc /\
    Z.of_nat (length enc) = 4 * total_words args /\ decodes_all ds args enc.
Proof.
  intros E H. revert signature b E. induction H as [|d a ds args Ha Hf IH]; intros signature b E Hb Hfit.
  { exists []. split; [by destruct b; simpl; rewrite app_nil_r|]. split; [by split|]. split; [done|]. apply decodes_end. }
  cbn [serialize_loop]. destruct (next_argument_spec _ _ _ _ E) as (signature' & En & Es). unfold get_next_argument. rewrite En.
  pose proof (arg_words_pos a) as Hpos. assert (Hnn : 0 <= total_words args).
  { clear. induction args as [|a args IH]; simpl; [lia|]. pose proof (arg_words_pos a). lia. }
  change (total_words (a :: args)) with (arg_words a + total_words args) in *. destruct d as [t nullable].
  destruct (bool_decide_reflect (t = WL_ARG_FD)) as [->|Ht].
  { destruct a; try done. destruct (IH signature' b Es Hb ltac:(simpl in *; lia)) as (enc & E' & H1 & H2 & H3). exists enc.
    split; [done|]. split; [done|]. split; [simpl; lia|]. by apply decodes_fd. }
  assert (Haf : arg_fds a = []) by (destruct t, a; done).
  assert (Hone : 1 <= arg_words a).
  { destruct a as [| | |[l|]| | |[l|]|]; simpl; try lia; [pose proof (Z.div_pos (Z.of_nat (length l) + 4) 4)|
      pose proof (Z.div_pos (Z.of_nat (length l) + 3) 4)|destruct t; done]; lia. }
  replace (length (snd b) =? 0)%nat with false by (symmetry; apply Nat.eqb_neq; lia).
  destruct (serialize_argument_spec (t, nullable) a b Ht Ha Hb ltac:(lia)) as (enc & Ee & Hbytes & Hlen & Hdec).
  cbn [fst] in Ee. rewrite Ee. cbn [mbind option_bind fst].
  assert (Hlw : length enc = (4 * Z.to_nat (arg_words a))%nat) by lia.
  destruct (IH signature' (fst b ++ enc, drop (length enc) (snd b)) Es) as (enc' & E' & Hw' & Hl' & Hd').
  { cbn [snd]. rewrite Hlw. by apply words_drop. }
  { cbn [snd]. rewrite length_drop. lia. }
  cbn [fst snd] in E'. exists (enc ++ enc'). rewrite E', <- app_assoc, length_app, drop_drop. split; [done|].
  split; [split; [by apply Forall_app; split; [|apply wo_bytes]|]|].
  - rewrite length_app, Nat.Div0.add_mod, (wo_len _ Hw'), Hlw, Nat.mul_comm, Nat.Div0.mod_mul. done.
  - split; [lia|]. by apply decodes_word.
Qed.

(** ** The size of a message *)

Lemma total_words_pos args : 0 <= total_words args.
Proof. induction args as [|a args IH]; simpl; [lia|]. pose proof (arg_words_pos a). lia. Qed.

Lemma args_size_spec ds signature args n : arguments signature = ds -> Forall2 send_ok ds args -> 0 <= n ->
  n + total_words args < 2 ^ 32 -> args_size signature args n = Some (n + total_words args).
Proof.
  intros E H. revert signature n E. induction H as [|d a ds args Ha Hf IH]; intros signature n E Hn Hs; [simpl; f_equal; lia|].
  cbn [args_size]. destruct (next_argument_spec _ _ _ _ E) as (signature' & En & Es). unfold get_next_argument. rewrite En.
  change (total_words (a :: args)) with (arg_words a + total_words args) in *. pose proof (total_words_pos args). pose proof (arg_words_pos a).
  assert (Hnext : forall k, k = arg_words a -> args_size signature' args (u32 (n + k)) = Some (n + (arg_words a + total_words args))).
  { intros k ->. unfold u32. rewrite Z.mod_small by lia. rewrite IH by (done || lia). f_equal. lia. }
  destruct d as [t nullable]. destruct t, a as [i|u|f|[s|]|o|id|[l|]|fd]; try done; try (by apply Hnext).
  - apply Hnext. destruct Ha as [_ Hl]. unfold u32. rewrite Z.mod_small, div_roundup_4 by lia. cbn [arg_words].
    by replace (Z.of_nat (length s) + 1 + 3) with (Z.of_nat (length s) + 4) by lia.
  - apply Hnext. destruct Ha as [_ Hl]. unfold u32. rewrite Z.mod_small, div_roundup_4 by lia. done.
Qed.

Lemma buffer_size_spec cl : Forall2 send_ok (arguments (msg_signature (cl_message cl))) (cl_args cl) ->
  total_words (cl_args cl) + 2 < 2 ^ 32 -> buffer_size_for_closure cl = Some (total_words (cl_args cl) + 2).
Proof.
  intros Ha Hs. pose proof (total_words_pos (cl_args cl)). unfold buffer_size_for_closure.
  rewrite (args_size_spec _ _ _ 0 eq_refl Ha) by lia. cbn [mbind option_bind]. unfold u32. by rewrite Z.mod_small by lia.
Qed.

(** ** The header *)

Definition header_word (size opcode : Z) : Z := Z.lor (u32 (Z.shiftl size 16)) (Z.land opcode 0xffff).

(** The header says the size only up to 16 bits. *)
Lemma header_size size opcode : 0 <= size -> Z.shiftr (u32 (header_word size opcode)) 16 = size mod 65536.
Proof.
  intros Hs. unfold header_word, u32. rewrite <- !Z.land_ones by lia. rewrite !Z.shiftr_land, Z.shiftr_lor, !Z.shiftr_land.
  rewrite Z.shiftr_shiftl_l by lia. change (Z.shiftr 65535 16) with 0. change (Z.shiftr (Z.ones 32) 16) with (Z.ones 16).
  rewrite Z.land_0_r, Z.lor_0_r, Z.shiftl_0_r, <- Z.land_assoc, Z.land_diag. by rewrite Z.land_ones by lia.
Qed.

Lemma header_opcode size opcode : 0 <= size -> Z.land (u32 (header_word size opcode)) 0xffff = opcode mod 65536.
Proof.
  intros Hs. unfold header_word, u32. rewrite <- !Z.land_ones by lia. change 65535 with (Z.ones 16).
  rewrite <- Z.land_assoc. change (Z.land (Z.ones 32) (Z.ones 16)) with (Z.ones 16). rewrite Z.land_lor_distr_l.
  rewrite <- !Z.land_assoc, Z.land_diag. change (Z.land (Z.ones 32) (Z.ones 16)) with (Z.ones 16).
  rewrite !Z.land_ones, Z.shiftl_mul_pow2, Z_mod_mult, Z.lor_0_l by lia. done.
Qed.

(** ** The round trip *)

Record closure_ok (cl : wl_closure) : Prop := {
  ck_args : Forall2 send_ok (arguments (msg_signature (cl_message cl))) (cl_args cl);
  ck_count : Z.of_nat (length (cl_args cl)) <= WL_CLOSURE_MAX_ARGS;
  ck_opcode : 0 <= cl_opcode cl < 65536;
  ck_sender : 0 <= cl_sender_id cl < 2 ^ 32;
  ck_size : 4 * (total_words (cl_args cl) + 2) < 2 ^ 32 }.

(** A buffer of the size that is computed for it holds a message exactly. *)
Lemma serialize_spec cl mem : closure_ok cl -> Forall byte mem -> Z.of_nat (length mem) = 4 * (total_words (cl_args cl) + 2) ->
  exists enc, serialize_closure cl mem = Some (Some (le32 (cl_sender_id cl) ++ le32 (header_word (Z.of_nat (length mem)) (cl_opcode cl)) ++ enc)) /\
    words enc /\ Z.of_nat (length enc) + 8 = Z.of_nat (length mem) /\
    decodes_all (arguments (msg_signature (cl_message cl))) (cl_args cl) enc.
Proof.
  intros [Ha _ _ _ Hs] Hb Hl. pose proof (total_words_pos (cl_args cl)). unfold serialize_closure.
  assert (Hw : words mem).
  { split; [done|]. replace (length mem) with (Z.to_nat (total_words (cl_args cl) + 2) * 4)%nat by lia. apply Nat.Div0.mod_mul. }
  replace (Z.of_nat (length mem) / 4 <? 2) with false by (rewrite Hl, Z.mul_comm, Z.div_mul by lia; lia).
  destruct (serialize_loop_spec _ _ _ ([], drop 8 mem) eq_refl Ha) as (enc & -> & H1 & H2 & H3); cbn [snd].
  { exact (words_drop mem 2 Hw). }
  { rewrite length_drop. lia. }
  cbn [mbind option_bind fst]. rewrite app_nil_l. exists enc. split; [|split; [done|split; [lia|done]]].
  unfold header_word. by replace (8 + Z.of_nat (length enc)) with (Z.of_nat (length mem)) by lia.
Qed.

Lemma receive_length args fds : length (receive args fds) = length args.
Proof. revert fds. induction args as [|a args IH]; intros fds; [done|]. destruct a, fds; simpl; by rewrite IH. Qed.

Lemma demarshal_serialized h cl enc size c objects l T fds more more_fds m' : closure_ok cl ->
  words enc -> decodes_all (arguments (msg_signature (cl_message cl))) (cl_args cl) enc ->
  size = Z.of_nat (length enc) + 8 -> size < 65536 ->
  conn_ok c -> contents (conn_in c) = (le32 (cl_sender_id cl) ++ le32 (header_word size (cl_opcode cl)) ++ enc) ++ more ->
  contents (fds_in c) = fd_bytes fds ++ more_fds -> length fds = length (all_fds (cl_args cl)) -> Forall int32 fds ->
  map_ok objects l -> represents objects l T -> reserve_all h objects (new_ids (cl_args cl)) = Some m' ->
  exists c', wl_connection_demarshal h true c size objects (cl_message cl) =
      Some (c', m', inl (Closure (cl_message cl) (cl_opcode cl) (cl_sender_id cl) (receive (cl_args cl) fds))) /\
    conn_ok c' /\ contents (conn_in c') = more /\ contents (fds_in c') = more_fds.
Proof.
  intros [Ha Hcount Hop Hsend Hsz] Hw Hdec Es Hs Hc Hin Hfin Hfl Hfr Hm HT Hres. unfold wl_connection_demarshal.
  set (bytes := le32 (cl_sender_id cl) ++ le32 (header_word size (cl_opcode cl)) ++ enc) in *.
  assert (Hbl : Z.of_nat (length bytes) = size) by (unfold bytes; rewrite !length_app; simpl; lia).
  assert (Hsize : 0 <= size <= ring_buffer_size (conn_in c)) by (rewrite size_contents, Hin, length_app; lia).
  replace (size <? 8) with false by lia. unfold wl_closure_init.
  assert (Hcnt : arg_count_for_signature (msg_signature (cl_message cl)) = length (cl_args cl)).
  { rewrite <- (count_arguments false). by apply (Forall2_length send_ok). }
  rewrite Hcnt. replace (_ >? WL_CLOSURE_MAX_ARGS) with false by lia. cbn [negb cl_args]. unfold wl_connection_copy.
  rewrite inv_copy by (done || apply Hc). cbn [mbind option_bind]. rewrite Hin.
  replace (Z.to_nat size) with (length bytes) by lia. rewrite take_app_length.
  assert (Hdiv : Z.to_nat (4 * (size / 4)) = length bytes).
  { assert (Hm4 : size mod 4 = 0).
    { rewrite Es, <- (Z.mod_add _ (-2)) by lia. replace (Z.of_nat (length enc) + 8 + -2 * 4) with (Z.of_nat (length enc)) by lia.
      rewrite <- (Nat2Z.inj_mod _ 4), (wo_len _ Hw). done. }
    pose proof (Z.div_mod size 4). lia. }
  rewrite Hdiv, take_ge by lia. unfold bytes at 1. rewrite read_le32. cbn [mbind option_bind]. rewrite read_le32. cbn [mbind option_bind].
  assert (Hlen : length (wl_closure_clear_fds (msg_signature (cl_message cl)) (replicate (length (cl_args cl)) (ArgU 0))) =
    length (arguments (msg_signature (cl_message cl)))).
  { rewrite <- Hcnt, <- (count_arguments false). symmetry. by apply (Forall2_length fd_typed), cleared_typed. }
  rewrite Hlen. destruct (Hdec h (Reader enc c objects) [] fds more_fds m' (msg_signature (cl_message cl)) [] eq_refl) as (r' & -> & [F1 F2 F3 F4 F5 F6]).
  { split; [constructor|done]. }
  { split; try done; [|by rewrite app_nil_r]. split; [done|done|]. by exists l, T. }
  cbn [mbind option_bind]. rewrite F4. eexists. split.
  - do 5 f_equal; [rewrite header_opcode by lia; by apply Z.mod_small|unfold u32; by apply Z.mod_small].
  - assert (Hs' : 0 <= size <= ring_buffer_size (conn_in (rd_conn r'))) by (by rewrite F5).
    destruct (consume_ok (rd_conn r') size (ro_conn _ F1) Hs') as [D1 D2]. split; [done|]. split; [|done].
    rewrite D2, F5. cbn [rd_conn]. rewrite Hin. replace (Z.to_nat size) with (length bytes) by lia. by rewrite drop_app_length.
Qed.

(** C30. What is written is read: a message of less than 65536 bytes, in a buffer of the size
    that is computed for it (which it fills exactly, whatever the memory held before), is read
    by the other side as the same message, with the ids of its objects, the same numbers,
    strings and arrays, and the descriptors that come with it; the bytes and descriptors after
    it stay in the queues, and the header says where it ends. *)
Theorem message_round_trip h cl mem c objects l T fds more more_fds m' n :
  closure_ok cl -> 4 * (total_words (cl_args cl) + 2) < 65536 ->
  buffer_size_for_closure cl = Some n -> Z.of_nat (length mem) = 4 * n -> Forall byte mem ->
  conn_ok c -> map_ok objects l -> represents objects l T -> reserve_all h objects (new_ids (cl_args cl)) = Some m' ->
  contents (fds_in c) = fd_bytes fds ++ more_fds -> length fds = length (all_fds (cl_args cl)) -> Forall int32 fds ->
  exists bytes, serialize_closure cl mem = Some (Some bytes) /\ length bytes = length mem /\
    (exists x, read_word (drop 4 bytes) = Some (x, drop 8 bytes) /\ Z.shiftr x 16 = Z.of_nat (length bytes)) /\
    (contents (conn_in c) = bytes ++ more ->
      exists c', wl_connection_demarshal h true c (Z.of_nat (length bytes)) objects (cl_message cl) =
          Some (c', m', inl (Closure (cl_message cl) (cl_opcode cl) (cl_sender_id cl) (receive (cl_args cl) fds))) /\
        conn_ok c' /\ contents (conn_in c') = more /\ contents (fds_in c') = more_fds).
Proof.
  intros Hcl Hs Hn Hlen Hmem Hc Hm HT Hres Hf Hfl Hfr. rewrite buffer_size_spec in Hn by (apply Hcl || lia). injection Hn as <-.
  destruct (serialize_spec cl mem Hcl Hmem Hlen) as (enc & E & Hw & Hl & Hdec). eexists. split; [done|].
  set (bytes := le32 (cl_sender_id cl) ++ _). assert (Hbl : length bytes = length mem) by (unfold bytes; rewrite !length_app; simpl; lia).
  split; [done|]. split.
  - exists (u32 (header_word (Z.of_nat (length mem)) (cl_opcode cl))). split; [apply read_le32|].
    rewrite header_size, Z.mod_small by lia. by rewrite Hbl.
  - intros Hin. rewrite Hbl. eapply demarshal_serialized; try done; lia.
Qed.

(** A message of 65536 bytes or more has a wrong size in its header: the header is all that the
    other side knows of where the message ends. *)
Theorem long_message_header cl mem : closure_ok cl -> Forall byte mem -> Z.of_nat (length mem) = 4 * (total_words (cl_args cl) + 2) ->
  65536 <= Z.of_nat (length mem) ->
  exists bytes x, serialize_closure cl mem = Some (Some bytes) /\ length bytes = length mem /\ read_word (drop 4 bytes) = Some (x, drop 8 bytes) /\
    Z.shiftr x 16 < Z.of_nat (length bytes).
Proof.
  intros Hcl Hb Hl Hbig. destruct (serialize_spec cl mem Hcl Hb Hl) as (enc & E & Hw & Hlen & _). eexists _, _. split; [done|].
  set (bytes := le32 (cl_sender_id cl) ++ _). assert (Hbl : length bytes = length mem) by (unfold bytes; rewrite !length_app; simpl; lia).
  split; [done|]. split; [apply read_le32|]. rewrite header_size by lia. pose proof (Z.mod_pos_bound (Z.of_nat (length mem)) 65536). lia.
Qed.
