(* ===== verification/Delivery.v ===== *)
(** * From one side of a connection to the other

    Closures are checked and sent by wl_closure_marshal and wl_closure_send, go over the socket
    in the parts that it takes, and are read by wl_connection_demarshal
    (src/libs/wayland/src/connection.c). *)

From Stdlib Require Import Ascii.
From S2P Require Import Prelude RingBuffer ObjectMap Connection Marshal RoundTrip.

(** ** Making closures *)

(** What callers pass: the right kind of argument, with numbers in range; null or not. *)
Definition given_ok (d : wl_arg_type * bool) (a : wl_argument) : Prop :=
  match fst d, a with
  | WL_ARG_INT, ArgI i | WL_ARG_FIXED, ArgF i => - 2 ^ 31 <= i < 2 ^ 31
  | WL_ARG_UINT, ArgU u => 0 <= u < 2 ^ 32
  | WL_ARG_STRING, ArgS s => from_option (fun l => Forall (fun b => 0 < b < 256) l /\ Z.of_nat (length l) + 1 < 2 ^ 32) True s
  | WL_ARG_OBJECT, ArgO o | WL_ARG_NEW_ID, ArgO o => from_option (fun o => 0 < obj_id o < 2 ^ 32) True o
  | WL_ARG_ARRAY, ArgA l => from_option (fun l => Forall byte l /\ Z.of_nat (length l) < 2 ^ 32) True l
  | WL_ARG_FD, ArgH _ => True
  | _, _ => False
  end.

(** What is left of arguments that were not checked yet holds no descriptor. *)
Lemma clear_given ds signature args : arguments signature = ds -> Forall2 given_ok ds args ->
  Forall2 fd_typed ds (wl_closure_clear_fds signature args) /\ open_fds (all_fds (wl_closure_clear_fds signature args)) = [].
Proof.
  intros E H. revert signature E. induction H as [|d a ds args Ha Hf IH]; intros signature E; [done|]. cbn [wl_closure_clear_fds].
  destruct (next_argument_spec _ _ _ _ E) as (signature' & En & Es). unfold get_next_argument. rewrite En. destruct (IH _ Es) as [I1 I2].
  change (all_fds (?a :: ?l)) with (arg_fds a ++ all_fds l). rewrite open_fds_app, I2, app_nil_r.
  destruct d as [[] nullable], a; try done; (split; [constructor; [|done]; by intros ?|done]).
Qed.

(** What checking arguments has to give: arguments that can be sent, with the new descriptors;
    or an error, and a closure that holds the new descriptors. *)
Definition checked (ds : list (wl_arg_type * bool)) (before : list Z) (dups : list (option Z))
    (res : option (list wl_argument + closure_error * list wl_argument)) : Prop :=
  exists r used rest, res = Some r /\ dups = map Some used ++ rest /\
    match r with
    | inl args => Forall2 send_ok ds args /\ all_fds args = before ++ used
    | inr (_, args) => Forall2 fd_typed ds args /\ open_fds (all_fds args) = open_fds (before ++ used)
    end.

Lemma marshal_loop_spec ds ds0 signature done args dups : arguments signature = ds -> Forall2 given_ok ds args ->
  Forall2 send_ok ds0 done -> checked (ds0 ++ ds) (all_fds done) dups (marshal_loop signature done args dups).
Proof.
  intros E H. revert ds0 signature done dups E. induction H as [|[t nullable] a ds args Ha Hf IH]; intros ds0 signature done dups E Hd.
  { exists (inl done), [], dups. split; [done|]. split; [done|]. by rewrite !app_nil_r. }
  cbn [marshal_loop]. destruct (next_argument_spec _ _ _ _ E) as (signature' & En & Es). unfold get_next_argument. rewrite En.
  assert (Hnext : forall a' dups', send_ok (t, nullable) a' -> arg_fds a' = [] -> dups' = dups ->
    checked (ds0 ++ (t, nullable) :: ds) (all_fds done) dups (marshal_loop signature' (done ++ [a']) args dups')).
  { intros a' dups' Ha' Hfa ->. destruct (IH (ds0 ++ [(t, nullable)]) signature' (done ++ [a']) dups Es) as (r & used & rest & E1 & E2 & Hr).
    { apply Forall2_app; [done|]. by constructor. }
    assert (Ef : all_fds (done ++ [a']) = all_fds done) by (rewrite all_fds_app; unfold all_fds at 2; simpl; by rewrite Hfa, !app_nil_r).
    rewrite Ef, <- app_assoc in Hr. by exists r, used, rest. }
  assert (Hnull : forall e, checked (ds0 ++ (t, nullable) :: ds) (all_fds done) dups
    (Some (inr (e, done ++ wl_closure_clear_fds signature (a :: args))))).
  { intros e. eexists _, [], dups. split; [done|]. split; [done|].
    destruct (clear_given ((t, nullable) :: ds) signature (a :: args) E) as [C1 C2]; [by constructor|]. split.
    - apply Forall2_app; [|done]. eapply Forall2_impl; [done|]. intros [[] ?] []; by intros ? ?.
    - by rewrite all_fds_app, open_fds_app, C2, !app_nil_r. }
  destruct t, a as [i|u|f|s|o|id|l|fd]; try done; try (by apply Hnext).
  - destruct s as [s|]; [rewrite bool_decide_eq_false_2, andb_false_r by done; by apply Hnext|].
    rewrite bool_decide_eq_true_2, andb_true_r by done. destruct nullable; [by apply Hnext|apply Hnull].
  - destruct o as [o|]; [by apply Hnext|]. destruct nullable; [by apply Hnext|apply Hnull].
  - destruct o as [o|]; [by apply Hnext|apply Hnull].
  - destruct l as [l|]; [rewrite bool_decide_eq_false_2 by done; by apply Hnext|]. rewrite bool_decide_eq_true_2 by done. apply Hnull.
  - destruct dups as [|[fd'|] dups]; try apply Hnull.
    destruct (IH (ds0 ++ [(WL_ARG_FD, nullable)]) signature' (done ++ [ArgH fd']) dups Es) as (r & used & rest & E1 & -> & Hr).
    { apply Forall2_app; [done|]. by constructor. }
    exists r, (fd' :: used), rest. split; [done|]. split; [done|].
    assert (Ef : all_fds (done ++ [ArgH fd']) = all_fds done ++ [fd']) by (by rewrite all_fds_app).
    rewrite Ef, <- !app_assoc in Hr. destruct r as [|[? ?]]; exact Hr.
Qed.

(** Marshalling checks what it is given, and loses no descriptor. *)
Lemma marshal_spec alloc_ok dups sender opcode args message :
  Forall2 given_ok (arguments (msg_signature message)) (take (length (arguments (msg_signature message))) args) ->
  exists r used rest, wl_closure_marshal alloc_ok dups sender opcode args message = Some r /\ dups = map Some used ++ rest /\
    match r with
    | inl cl => Forall2 send_ok (arguments (msg_signature message)) (cl_args cl) /\ all_fds (cl_args cl) = used /\
        cl_message cl = message /\ cl_sender_id cl = sender /\ cl_opcode cl = opcode /\ Z.of_nat (length (cl_args cl)) <= WL_CLOSURE_MAX_ARGS
    | inr (_, closed) => closed = open_fds used
    end.
Proof.
  intros Ha. unfold wl_closure_marshal, wl_closure_init. rewrite <- (count_arguments false). fold arguments.
  destruct (Z.gtb_spec (Z.of_nat (length (arguments (msg_signature message)))) WL_CLOSURE_MAX_ARGS) as [|Hcount]; [by eexists _, [], dups|].
  destruct alloc_ok; cbn [negb]; [|by eexists _, [], dups]. cbn [cl_args].
  destruct (clear_given _ _ _ eq_refl Ha) as [C1 _]. rewrite <- (Forall2_length _ _ _ C1).
  destruct (marshal_loop_spec _ [] (msg_signature message) [] _ dups eq_refl Ha) as (r & used & rest & -> & E2 & Hr); [constructor|].
  cbn [mbind option_bind]. rewrite !app_nil_l in Hr. eexists _, used, rest. split; [done|]. split; [done|].
  destruct r as [args'|[e args']]; destruct Hr as [H1 H2].
  - split; [done|]. split; [done|]. split; [done|]. split; [done|]. split; [done|]. cbn [cl_args]. by rewrite <- (Forall2_length _ _ _ H1).
  - unfold wl_closure_destroy. cbn [cl_message cl_args]. rewrite (close_fds_typed _ _ _ eq_refl H1). done.
Qed.

(** ** Sending closures *)

Definition clear_arg (a : wl_argument) : wl_argument := match a with ArgH _ => ArgH (-1) | a => a end.
Definition cleared (cl : wl_closure) : wl_closure := Closure (cl_message cl) (cl_opcode cl) (cl_sender_id cl) (map clear_arg (cl_args cl)).

Lemma cleared_send ds args : Forall2 send_ok ds args -> Forall2 send_ok ds (map clear_arg args).
Proof. induction 1 as [|d a ds args Ha Hf IH]; constructor; [|done]. by destruct d as [[] ?], a as [| | |[]|[]| |[]|]. Qed.

Lemma cleared_words args : total_words (map clear_arg args) = total_words args.
Proof. induction args as [|a args IH]; [done|]. simpl. rewrite IH. by destruct a. Qed.

Lemma cleared_ok cl : closure_ok cl -> closure_ok (cleared cl).
Proof.
  intros [H1 H2 H3 H4 H5]. split; cbn [cleared cl_args cl_message cl_opcode cl_sender_id]; try done.
  - by apply cleared_send.
  - by rewrite length_map.
  - by rewrite cleared_words.
Qed.

Lemma cleared_fds args : length (all_fds (map clear_arg args)) = length (all_fds args).
Proof.
  induction args as [|a args IH]; [done|]. change (all_fds (?x :: ?l)) with (arg_fds x ++ all_fds l). simpl map.
  change (all_fds (?x :: ?l)) with (arg_fds x ++ all_fds l). rewrite !length_app, IH. by destruct a.
Qed.

Lemma cleared_ids args : new_ids (map clear_arg args) = new_ids args.
Proof. unfold new_ids. induction args as [|a args IH]; [done|]. destruct a; simpl; try apply IH. f_equal. apply IH. Qed.

Lemma cleared_receive args fds : length fds = length (all_fds args) -> receive (map clear_arg args) fds = receive args fds.
Proof.
  revert fds. induction args as [|a args IH]; intros fds; [done|]. change (all_fds (a :: args)) with (arg_fds a ++ all_fds args).
  destruct a, fds; simpl; intros Hl; try done; rewrite IH by (simpl; congruence); done.
Qed.

(** The other side does not see that the descriptors were taken out. *)
Lemma cleared_decodes ds args enc : decodes_all ds (map clear_arg args) enc -> decodes_all ds args enc.
Proof.
  intros H h r p fds more m' signature done E Hp [R1 R2 R3 R4 R5 R6].
  rewrite <- (cleared_receive args fds) by done. apply H; [done|done|]. split; try done; [by rewrite cleared_fds|by rewrite cleared_ids].
Qed.

(** The bytes of a closure that is sent. *)
Definition bytes_of (cl : wl_closure) : list Z :=
  match serialize_closure (cleared cl) (replicate (Z.to_nat (4 * (total_words (cl_args cl) + 2))) 0) with Some (Some bytes) => bytes | _ => [] end.

Lemma bytes_of_spec cl : closure_ok cl -> exists enc,
  serialize_closure (cleared cl) (replicate (Z.to_nat (4 * (total_words (cl_args cl) + 2))) 0) = Some (Some (bytes_of cl)) /\
  bytes_of cl = le32 (cl_sender_id cl) ++ le32 (header_word (Z.of_nat (length (bytes_of cl))) (cl_opcode cl)) ++ enc /\ words enc /\
  Z.of_nat (length (bytes_of cl)) = Z.of_nat (length enc) + 8 /\ Z.of_nat (length (bytes_of cl)) = 4 * (total_words (cl_args cl) + 2) /\
  decodes_all (arguments (msg_signature (cl_message cl))) (cl_args cl) enc.
Proof.
  intros Hcl. pose proof (total_words_pos (cl_args cl)) as Hpos.
  set (mem := replicate (Z.to_nat (4 * (total_words (cl_args cl) + 2))) 0).
  assert (Hl : Z.of_nat (length mem) = 4 * (total_words (cl_args (cleared cl)) + 2)).
  { unfold mem. rewrite length_replicate. cbn [cleared cl_args]. rewrite cleared_words. lia. }
  destruct (serialize_spec (cleared cl) mem (cleared_ok _ Hcl)) as (enc & E & Hw & Hlen & Hdec).
  { apply Forall_replicate. done. } { done. }
  unfold bytes_of. fold mem. rewrite E. cbn [cleared cl_args cl_message cl_opcode cl_sender_id] in *. exists enc.
  assert (Hb : Z.of_nat (length (le32 (cl_sender_id cl) ++ le32 (header_word (Z.of_nat (length mem)) (cl_opcode cl)) ++ enc)) = Z.of_nat (length mem))
    by (rewrite !length_app; simpl; lia).
  rewrite Hb, cleared_words in *. split; [done|]. split; [done|]. split; [done|]. split; [lia|]. split; [done|]. by apply cleared_decodes.
Qed.

Lemma copy_fds_spec ds signature args c c' ok : arguments signature = ds -> Forall2 send_ok ds args ->
  put_fds c (all_fds args) = Some (c', ok) ->
  exists args', copy_fds_loop signature args c = Some (c', args', ok) /\ (ok = true -> args' = map clear_arg args).
Proof.
  intros E H. revert signature c E. induction H as [|d a ds args Ha Hf IH]; intros signature c E; cbn [copy_fds_loop].
  { intros [= <- <-]. by exists []. }
  destruct (next_argument_spec _ _ _ _ E) as (signature' & En & Es). unfold get_next_argument. rewrite En.
  change (all_fds (a :: args)) with (arg_fds a ++ all_fds args).
  assert (Hfd : is_fd (Some d) = true /\ (exists fd, a = ArgH fd) \/ is_fd (Some d) = false /\ arg_fds a = [] /\ clear_arg a = a).
  { destruct d as [[] ?], a; try done; try (by right); left; split; eauto. }
  destruct Hfd as [[-> [fd ->]]|(-> & Hn & Hca)].
  - cbn [arg_fds app put_fds]. destruct (wl_connection_put_fd c fd) as [[c1 ok1]|]; [|done]. cbn [mbind option_bind fst snd].
    destruct ok1; cbn [negb]; [|intros [= <- <-]; by eexists]. intros Hp. destruct (IH signature' c1 Es Hp) as (args' & -> & Hargs).
    cbn [mbind option_bind]. eexists. split; [done|]. intros Hok. simpl. by rewrite (Hargs Hok).
  - rewrite Hn, app_nil_l. intros Hp. destruct (IH signature' c Es Hp) as (args' & -> & Hargs). cbn [mbind option_bind].
    exists (a :: args'). split; [by destruct a|]. intros Hok. simpl. by rewrite (Hargs Hok), Hca.
Qed.

(** Sending a closure is queueing its descriptors and then its bytes. *)
Lemma closure_send_spec cl c c' ok : closure_ok cl -> send_message c (all_fds (cl_args cl)) (bytes_of cl) = Some (c', ok) ->
  exists cl', wl_closure_send true cl c = Some (c', cl', ok).
Proof.
  intros Hcl. unfold send_message, wl_closure_send, send_with, copy_fds_to_connection.
  destruct (put_fds c (all_fds (cl_args cl))) as [[c1 ok1]|] eqn:Ep; [|done]. cbn [mbind option_bind fst snd].
  destruct (copy_fds_spec _ (msg_signature (cl_message cl)) (cl_args cl) c c1 ok1 eq_refl (ck_args _ Hcl) Ep) as (args' & -> & Hargs).
  cbn [mbind option_bind]. destruct ok1; cbn [negb]; [|intros [= <- <-]; by eexists]. rewrite (Hargs eq_refl). fold (cleared cl).
  pose proof (total_words_pos (cl_args cl)). rewrite buffer_size_spec by (apply (ck_args _ (cleared_ok _ Hcl)) ||
    (cbn [cleared cl_args]; rewrite cleared_words; pose proof (ck_size _ Hcl); lia)).
  cbn [mbind option_bind]. cbn [cleared cl_args]. rewrite cleared_words. fold (cleared cl).
  destruct (bytes_of_spec cl Hcl) as (enc & -> & _). cbn [mbind option_bind]. intros ->. cbn [mbind option_bind fst snd]. by eexists.
Qed.

(** Every closure is a message as the order of descriptors needs it. *)
Lemma closure_message_ok cl : closure_ok cl -> message_ok (all_fds (cl_args cl), bytes_of cl).
Proof.
  intros Hcl. destruct (bytes_of_spec cl Hcl) as (enc & _ & E & _ & Hl & _). split; cbn [fst snd].
  - intros E0. rewrite E0 in Hl. simpl in Hl. lia.
  - assert (Hf : (length (all_fds (cl_args cl)) <= length (cl_args cl))%nat).
    { clear. induction (cl_args cl) as [|a args IH]; [done|]. change (all_fds (a :: args)) with (arg_fds a ++ all_fds args).
      rewrite length_app. simpl. destruct a; simpl; lia. }
    pose proof (ck_count _ Hcl) as Hc. unfold WL_CLOSURE_MAX_ARGS in Hc. lia.
Qed.

(** ** Both sides *)

(** What a server does with a client, until a closure cannot be sent. *)
Inductive server_op := SendClosure (cl : wl_closure) | FlushClient.

Fixpoint run_server (c : wl_connection) (ops : list server_op) : option (wl_connection * nat) :=
  match ops with
  | [] => Some (c, 0%nat)
  | FlushClient :: ops => wl_connection_flush c ≫= fun r => run_server (fst r) ops
  | SendClosure cl :: ops =>
      wl_closure_send true cl c ≫= fun '(c, _, ok) =>
      if ok : bool then run_server c ops ≫= fun r => Some (fst r, S (snd r)) else Some (c, 0%nat)
  end.

Definition closures (ops : list server_op) : list wl_closure :=
  omap (fun o => match o with SendClosure cl => Some cl | FlushClient => None end) ops.

Definition op_of (o : server_op) : conn_op :=
  match o with SendClosure cl => SendMessage (all_fds (cl_args cl)) (bytes_of cl) | FlushClient => Flush end.

Definition message_of (cl : wl_closure) : list Z * list Z := (all_fds (cl_args cl), bytes_of cl).

Lemma messages_of_ops ops : messages (map op_of ops) = map message_of (closures ops).
Proof. unfold messages, closures. induction ops as [|[cl|] ops IH]; [done| |done]. simpl. f_equal. apply IH. Qed.

Lemma run_server_ops ops c r : Forall closure_ok (closures ops) -> run_ops c (map op_of ops) = Some r -> run_server c ops = Some r.
Proof.
  revert c r. induction ops as [|[cl|] ops IH]; intros c r Hcl; [done| |].
  - change (closures (SendClosure cl :: ops)) with (cl :: closures ops) in Hcl. apply Forall_cons in Hcl as [Hc Hcl].
    cbn [map op_of run_ops run_server]. destruct (send_message c _ _) as [[c1 ok]|] eqn:E; [|done]. cbn [mbind option_bind fst snd].
    destruct (closure_send_spec cl c c1 ok Hc E) as (cl' & ->). cbn [mbind option_bind]. destruct ok; [|done].
    destruct (run_ops c1 _) as [r1|] eqn:E1; [|done]. by rewrite (IH _ _ Hcl E1).
  - change (closures (FlushClient :: ops)) with (closures ops) in Hcl. cbn [map op_of run_ops run_server].
    destruct (wl_connection_flush c) as [[c1 x]|]; [|done]. cbn [mbind option_bind fst]. by apply IH.
Qed.

(** The reader takes the size of a message from its header. *)
Definition read_next (h : allocator) (c : wl_connection) (objects : wl_map) (message : wl_message)
    : option (wl_connection * wl_map * (wl_closure + closure_error)) :=
  wl_connection_copy c 8 ≫= fun p => read_word p ≫= fun '(_, p) => read_word p ≫= fun '(word, _) =>
  wl_connection_demarshal h true c (Z.shiftr word 16) objects message.

Fixpoint read_messages (h : allocator) (c : wl_connection) (objects : wl_map) (ms : list wl_message) : option (wl_connection * wl_map * list wl_closure) :=
  match ms with
  | [] => Some (c, objects, [])
  | m :: ms =>
      read_next h c objects m ≫= fun '(c, objects, res) =>
      match res with
      | inl cl => read_messages h c objects ms ≫= fun '(c, objects, cls) => Some (c, objects, cl :: cls)
      | inr _ => None
      end
  end.

(** A closure as the other side sees it. *)
Definition seen (cl : wl_closure) : wl_closure := Closure (cl_message cl) (cl_opcode cl) (cl_sender_id cl) (map recv_arg (cl_args cl)).

Lemma receive_same args : receive args (all_fds args) = map recv_arg args.
Proof.
  induction args as [|a args IH]; [done|]. change (all_fds (a :: args)) with (arg_fds a ++ all_fds args).
  destruct a; simpl; rewrite ?IH; try done; by destruct (all_fds args).
Qed.

Lemma reserve_all_app h m ids ids' m' : reserve_all h m (ids ++ ids') = Some m' ->
  exists m1, reserve_all h m ids = Some m1 /\ reserve_all h m1 ids' = Some m'.
Proof.
  revert m. induction ids as [|id ids IH]; intros m; [by exists m|]. cbn [app reserve_all].
  destruct (wl_map_reserve_new h m id) as [[m1 [e|]]|]; try done. apply IH.
Qed.

Lemma reserve_all_ok h ids m l T m' : map_ok m l -> represents m l T -> Forall id_ok ids -> reserve_all h m ids = Some m' ->
  exists l' T', map_ok m' l' /\ represents m' l' T'.
Proof.
  intros Hm HT Hids. revert m l T Hm HT. induction Hids as [|id ids Hid _ IH]; intros m l T Hm HT; cbn [reserve_all].
  { intros [= <-]. by exists l, T. }
  destruct (reserve_new_simulated h m l T Hm HT id Hid) as (m1 & x & l1 & T1 & E & Hm1 & _ & HT1 & _). cbn [run_call] in E.
  destruct (wl_map_reserve_new h m id) as [[m2 [e|]]|]; try done. injection E as -> _. by apply IH with l1 T1.
Qed.

Lemma send_ok_ids ds args : Forall2 send_ok ds args -> Forall id_ok (new_ids args).
Proof.
  unfold new_ids. induction 1 as [|d a ds args Ha Hf IH]; [constructor|]. destruct a; try apply IH. simpl. constructor; [|apply IH].
  destruct d as [[] ?]; try done. unfold send_ok in Ha. simpl in Ha. unfold id_ok. lia.
Qed.

(** Closures of less than 65536 bytes, with descriptors of 32 bits. *)
Definition sendable (cl : wl_closure) : Prop :=
  closure_ok cl /\ 4 * (total_words (cl_args cl) + 2) < 65536 /\ Forall int32 (all_fds (cl_args cl)).

Lemma read_next_spec h cl c objects l T more more_fds m' : sendable cl -> conn_ok c -> map_ok objects l -> represents objects l T ->
  contents (conn_in c) = bytes_of cl ++ more -> contents (fds_in c) = fd_bytes (all_fds (cl_args cl)) ++ more_fds ->
  reserve_all h objects (new_ids (cl_args cl)) = Some m' ->
  exists c', read_next h c objects (cl_message cl) = Some (c', m', inl (seen cl)) /\ conn_ok c' /\
    contents (conn_in c') = more /\ contents (fds_in c') = more_fds.
Proof.
  intros (Hcl & Hs & Hf) Hc Hm HT Hin Hfin Hres. destruct (bytes_of_spec cl Hcl) as (enc & _ & Eb & Hw & Hl & Hl2 & Hdec).
  unfold read_next, wl_connection_copy. rewrite inv_copy; [|apply Hc|rewrite size_contents, Hin, length_app; lia].
  assert (E8 : take (Z.to_nat 8) (contents (conn_in c)) =
    le32 (cl_sender_id cl) ++ le32 (header_word (Z.of_nat (length (bytes_of cl))) (cl_opcode cl)) ++ []).
  { rewrite Hin, Eb at 1. rewrite <- !app_assoc. done. }
  rewrite E8. cbn [mbind option_bind]. rewrite read_le32. cbn [mbind option_bind]. rewrite read_le32. cbn [mbind option_bind].
  rewrite header_size, Z.mod_small by lia.
  destruct (demarshal_serialized h cl enc (Z.of_nat (length (bytes_of cl))) c objects l T (all_fds (cl_args cl)) more more_fds m')
    as (c' & -> & H1 & H2 & H3); try done; [lia|by rewrite <- Eb|].
  exists c'. rewrite receive_same. done.
Qed.

Lemma read_messages_spec h cls c objects l T more more_fds m' : Forall sendable cls -> conn_ok c -> map_ok objects l -> represents objects l T ->
  contents (conn_in c) = msg_bytes (map message_of cls) ++ more -> contents (fds_in c) = msg_fds (map message_of cls) ++ more_fds ->
  reserve_all h objects (concat (map (fun cl => new_ids (cl_args cl)) cls)) = Some m' ->
  exists c', read_messages h c objects (map cl_message cls) = Some (c', m', map seen cls) /\ contents (conn_in c') = more /\ contents (fds_in c') = more_fds.
Proof.
  intros Hs. revert c objects l T. induction Hs as [|cl cls Hcl _ IH]; intros c objects l T Hc Hm HT Hin Hf Hres.
  { injection Hres as <-. by exists c. }
  unfold msg_bytes, msg_fds in Hin, Hf. simpl in Hin, Hf, Hres. rewrite <- app_assoc in Hin, Hf. apply reserve_all_app in Hres as (m1 & Hr1 & Hr2).
  cbn [map read_messages]. destruct (read_next_spec h cl c objects l T _ _ m1 Hcl Hc Hm HT Hin Hf Hr1) as (c1 & -> & Hc1 & Hin1 & Hf1).
  cbn [mbind option_bind]. destruct (reserve_all_ok h _ objects l T m1 Hm HT (send_ok_ids _ _ (ck_args _ (proj1 Hcl))) Hr1) as (l1 & T1 & Hm1 & HT1).
  destruct (IH c1 m1 l1 T1 Hc1 Hm1 HT1 Hin1 Hf1 Hr2) as (c' & -> & H1 & H2). cbn [mbind option_bind]. by exists c'.
Qed.

Lemma prefix_shorter {A} (l1 l2 l : list A) : l1 `prefix_of` l -> l2 `prefix_of` l -> (length l1 <= length l2)%nat -> l1 `prefix_of` l2.
Proof.
  intros H1 H2 Hl. destruct (prefix_weak_total _ _ _ H1 H2) as [|H]; [done|]. by rewrite (prefix_length_eq _ _ H Hl).
Qed.

Lemma msg_prefix ms j : msg_bytes (take j ms) `prefix_of` msg_bytes ms /\ msg_fds (take j ms) `prefix_of` msg_fds ms.
Proof.
  rewrite <- (take_drop j ms) at 2 4. unfold msg_bytes, msg_fds. rewrite !map_app, !concat_app. split; by eexists.
Qed.

(** What keeps a closure from being sent: with what is queued, its bytes or one of its
    descriptors would pass the limit of the connection. *)
Definition passes_limit (max : Z) (c : wl_connection) (cl : wl_closure) : Prop :=
  0 < max < Z.of_nat (length (out_bytes c) + length (bytes_of cl)) \/ 0 < max < Z.of_nat (length (out_fds c) + 4).


(** ** Examples *)

(** An event with a number, a string, an object that may be missing, and a descriptor. *)
Definition example_message : wl_message := Message (String.list_ascii_of_string "2us?oh") [None; None; None; None].
Definition example_closure : wl_closure :=
  Closure example_message 3 7 [ArgU 42; ArgS (Some [104; 105]); ArgO (Some (Object (Interface 0 []) 9)); ArgH 5].
Definition example_sends : list server_op := [SendClosure example_closure; FlushClient; SendClosure example_closure].
Definition example_socket : kernel := Kernel [Sent 5; SendFailed EINTR; Sent 100] [] [] [] [] [].

Lemma example_closure_ok : sendable example_closure.
Proof.
  split; [split|split].
  - repeat constructor; simpl; lia.
  - done.
  - done.
  - done.
  - done.
  - done.
  - repeat constructor; unfold int32; lia.
Qed.

(** The bytes: sender, size and opcode, the number, the string with its length and padding, the
    object. *)
Example example_bytes : bytes_of example_closure =
  [7; 0; 0; 0; 3; 0; 24; 0; 42; 0; 0; 0; 3; 0; 0; 0; 104; 105; 0; 0; 9; 0; 0; 0].
Proof. vm_compute. done. Qed.


(** Both are sent; with a socket that takes nothing, 4096 bytes of buffer hold 170 closures of 24
    bytes. *)
Example example_all_sent : (wl_connection_create example_socket (2 ^ 20) ≫= fun c => snd <$> run_server c example_sends) = Some 2%nat.
Proof. vm_compute. done. Qed.

Definition example_plain : wl_closure := Closure (Message (String.list_ascii_of_string "ua") [None; None]) 1 2 [ArgU 42; ArgA (Some [1; 2; 3; 4; 5])].

Example example_full : (wl_connection_create (Kernel [] [] [] [] [] []) 4096 ≫= fun c =>
  snd <$> run_server c (replicate 200 (SendClosure example_plain))) = Some 170%nat.
Proof. vm_compute. done. Qed.

Definition example_connection : wl_connection := default (Conn ring_zero ring_zero ring_zero ring_zero false example_socket)
  (wl_connection_create example_socket 0).

Lemma example_connection_ok : conn_ok example_connection /\ contents (fds_in example_connection) = [] /\ contents (conn_in example_connection) = [].
Proof.
  destruct (create_spec example_socket 0 ltac:(lia)) as (c & E & Hc & _ & _ & H1 & H2 & _). unfold example_connection. by rewrite E.
Qed.

Lemma example_plain_ok : closure_ok example_plain.
Proof. split; try done. repeat constructor; unfold byte; simpl; lia. Qed.

Lemma message_round_trip_witness : exists bytes, serialize_closure example_plain (replicate 24 0xff) = Some (Some bytes) /\ length bytes = 24%nat.
Proof.
  destruct (message_round_trip (Allocator true 0) example_plain (replicate 24 0xff) example_connection
    (wl_map_init WL_MAP_SERVER_SIDE) [] ∅ [] [] [] (wl_map_init WL_MAP_SERVER_SIDE) 6) as (bytes & E & Hl & _).
  - apply example_plain_ok.
  - reflexivity.
  - reflexivity.
  - reflexivity.
  - apply Forall_replicate. split; lia.
  - apply example_connection_ok.
  - apply init_represents. by left.
  - apply init_represents. by left.
  - reflexivity.
  - apply example_connection_ok.
  - reflexivity.
  - constructor.
  - exists bytes. split; [done|]. by rewrite Hl.
Defined.

(** wl_closure_queue takes the buffer from malloc: what the memory held goes to the client, as
    the padding of arrays and strings. *)
Example queue_sends_old_memory :
  serialize_closure example_plain (replicate 24 0xaa) =
  Some (Some [2; 0; 0; 0; 1; 0; 24; 0; 42; 0; 0; 0; 5; 0; 0; 0; 1; 2; 3; 4; 5; 0xaa; 0xaa; 0xaa]).
Proof. vm_compute. done. Qed.

