(* ===== verification/Signals.v ===== *)
(** * Linked lists and signals

    Models struct wl_list of src/libs/wayland/src/wayland-util.c, circular lists whose links are
    part of their elements, in a memory of links; and the signals of wayland-server.c, which
    call their listeners while these take themselves and others off the list.  An access to an
    address without a link is [None]. *)

From S2P Require Import Prelude.

Record wl_list := Link { prev : Z; next : Z }.
Abbreviation memory := (gmap Z wl_list).

Definition get_next (a : Z) (h : memory) : option Z := next <$> h !! a.
Definition get_prev (a : Z) (h : memory) : option Z := prev <$> h !! a.
Definition set_next (a v : Z) (h : memory) : option memory := h !! a ≫= fun l => Some (<[a := Link (prev l) v]> h).
Definition set_prev (a v : Z) (h : memory) : option memory := h !! a ≫= fun l => Some (<[a := Link v (next l)]> h).

(** ** Lists *)

Definition wl_list_init (l : Z) (h : memory) : option memory := set_prev l l h ≫= set_next l l.

Definition wl_list_insert (l elm : Z) (h : memory) : option memory :=
  set_prev elm l h ≫= fun h =>
  get_next l h ≫= fun n => set_next elm n h ≫= fun h =>
  set_next l elm h ≫= fun h =>
  get_next elm h ≫= fun n => set_prev n elm h.

Definition wl_list_remove (elm : Z) (h : memory) : option memory :=
  get_prev elm h ≫= fun p => get_next elm h ≫= fun n => set_next p n h ≫= fun h =>
  get_next elm h ≫= fun n => get_prev elm h ≫= fun p => set_prev n p h ≫= fun h =>
  set_next elm 0 h ≫= set_prev elm 0.

Definition wl_list_empty (l : Z) (h : memory) : option bool := get_next l h ≫= fun n => Some (n =? l).

Fixpoint length_loop (fuel : nat) (l e count : Z) (h : memory) : option Z :=
  match fuel with
  | O => None
  | S fuel => if e =? l then Some count else get_next e h ≫= fun e => length_loop fuel l e (count + 1) h
  end.
Definition wl_list_length (l : Z) (h : memory) : option Z := get_next l h ≫= fun e => length_loop (S (size h)) l e 0 h.

Definition wl_list_insert_list (l other : Z) (h : memory) : option memory :=
  wl_list_empty other h ≫= fun empty =>
  if empty : bool then Some h
  else
    get_next other h ≫= fun n => set_prev n l h ≫= fun h =>
    get_prev other h ≫= fun p => get_next l h ≫= fun n => set_next p n h ≫= fun h =>
    get_next l h ≫= fun n => get_prev other h ≫= fun p => set_prev n p h ≫= fun h =>
    get_next other h ≫= fun n => set_next l n h.

(** ** Signals *)

Definition wl_signal_init (signal : Z) (h : memory) : option memory := wl_list_init signal h.

(** What a listener does when it is called: it takes listeners off the list, or adds some. *)
Inductive action := Remove (listener : Z) | Add (listener : Z).

(** wl_signal_add: at the end. *)
Definition wl_signal_add (signal listener : Z) (h : memory) : option memory :=
  get_prev signal h ≫= fun p => wl_list_insert p listener h.

Definition run_action (signal : Z) (h : memory) (a : action) : option memory :=
  match a with Remove x => wl_list_remove x h | Add x => wl_signal_add signal x h end.
Definition run_actions (signal : Z) (acts : list action) (h : memory) : option memory :=
  foldl (fun h a => h ≫= fun h => run_action signal h a) (Some h) acts.

(** [script] is what the listeners do, in the order they are called; [log] is who was. *)
Fixpoint emit_loop (fuel : nat) (signal cursor end_ : Z) (script : list (list action)) (h : memory) (log : list Z) : option (memory * list Z) :=
  match fuel with
  | O => None
  | S fuel =>
      get_next cursor h ≫= fun pos =>
      if pos =? end_ then Some (h, log)
      else
        wl_list_remove cursor h ≫= fun h =>
        wl_list_insert pos cursor h ≫= fun h =>
        run_actions signal (default [] (head script)) h ≫= fun h =>
        emit_loop fuel signal cursor end_ (tail script) h (log ++ [pos])
  end.

(** wl_signal_emit: [next] is read before the listener at [pos] is called. *)
Fixpoint emit_safe_loop (fuel : nat) (signal pos next : Z) (script : list (list action)) (h : memory) (log : list Z) : option (memory * list Z) :=
  match fuel with
  | O => None
  | S fuel =>
      if pos =? signal then Some (h, log)
      else
        run_actions signal (default [] (head script)) h ≫= fun h =>
        get_next next h ≫= fun next' => emit_safe_loop fuel signal next next' (tail script) h (log ++ [pos])
  end.

Definition wl_signal_emit (fuel : nat) (signal : Z) (script : list (list action)) (h : memory) : option (memory * list Z) :=
  get_next signal h ≫= fun pos => get_next pos h ≫= fun next => emit_safe_loop fuel signal pos next script h [].

(** [cursor] and [end_] are the markers on the stack. *)
Definition wl_signal_emit_mutable (fuel : nat) (signal cursor end_ : Z) (script : list (list action)) (h : memory) : option (memory * list Z) :=
  wl_list_insert signal cursor h ≫= fun h =>
  get_prev signal h ≫= fun p => wl_list_insert p end_ h ≫= fun h =>
  emit_loop fuel signal cursor end_ script h [] ≫= fun '(h, log) =>
  wl_list_remove cursor h ≫= fun h =>
  wl_list_remove end_ h ≫= fun h => Some (h, log).

(** A private signal: the list of listeners and the list of those still to call. *)
Record wl_priv_signal := PrivSignal { listener_list : Z; emit_list : Z }.

Definition wl_priv_signal_init (s : wl_priv_signal) (h : memory) : option memory :=
  wl_list_init (listener_list s) h ≫= wl_list_init (emit_list s).

Definition wl_priv_signal_add (s : wl_priv_signal) (listener : Z) (h : memory) : option memory :=
  get_prev (listener_list s) h ≫= fun p => wl_list_insert p listener h.

Fixpoint priv_emit_loop (fuel : nat) (s : wl_priv_signal) (script : list (list action)) (h : memory) (log : list Z) : option (memory * list Z) :=
  match fuel with
  | O => None
  | S fuel =>
      wl_list_empty (emit_list s) h ≫= fun empty =>
      if empty : bool then Some (h, log)
      else
        get_next (emit_list s) h ≫= fun pos =>
        wl_list_remove pos h ≫= fun h =>
        wl_list_insert (listener_list s) pos h ≫= fun h =>
        run_actions (listener_list s) (default [] (head script)) h ≫= fun h =>
        priv_emit_loop fuel s (tail script) h (log ++ [pos])
  end.

Definition wl_priv_signal_emit (fuel : nat) (s : wl_priv_signal) (script : list (list action)) (h : memory) : option (memory * list Z) :=
  wl_list_insert_list (emit_list s) (listener_list s) h ≫= fun h =>
  wl_list_init (listener_list s) h ≫= fun h => priv_emit_loop fuel s script h [].

(** The last emission isolates each listener before it is called. *)
Fixpoint wl_priv_signal_final_emit (fuel : nat) (s : wl_priv_signal) (script : list (list action)) (h : memory) (log : list Z)
    : option (memory * list Z) :=
  match fuel with
  | O => None
  | S fuel =>
      wl_list_empty (listener_list s) h ≫= fun empty =>
      if empty : bool then Some (h, log)
      else
        get_next (listener_list s) h ≫= fun pos =>
        wl_list_remove pos h ≫= fun h =>
        wl_list_init pos h ≫= fun h =>
        run_actions (listener_list s) (default [] (head script)) h ≫= fun h =>
        wl_priv_signal_final_emit fuel s (tail script) h (log ++ [pos])
  end.

(** ** What a list holds *)

Definition edge (h : memory) (x y : Z) : Prop := get_next x h = Some y /\ get_prev y h = Some x.

(** The links from [x] through all of [ys]. *)
Fixpoint links (h : memory) (x : Z) (ys : list Z) : Prop :=
  match ys with [] => True | y :: ys => edge h x y /\ links h y ys end.

(** [l] is the list with the head [a]. *)
Record ring (h : memory) (a : Z) (l : list Z) : Prop := {
  rg_links : links h a (l ++ [a]);
  rg_nodup : NoDup (a :: l) }.

(** The last of [x] and [ys]. *)
Definition final (x : Z) (ys : list Z) : Z := default x (last ys).

Lemma final_app x ys y : final x (ys ++ [y]) = y.
Proof. unfold final. by rewrite last_snoc. Qed.

Lemma final_cons x y ys : final x (y :: ys) = final y ys.
Proof. unfold final. destruct ys as [|z ys]; [done|]. rewrite last_cons_cons. destruct (last (z :: ys)) eqn:E; [done|]. by apply last_None in E. Qed.

Lemma final_elem x ys : final x ys ∈ x :: ys.
Proof.
  revert x. induction ys as [|y ys IH]; intros x; [apply list_elem_of_here|]. rewrite final_cons. apply list_elem_of_further, IH.
Qed.

Lemma links_app h x ys zs : links h x (ys ++ zs) <-> links h x ys /\ links h (final x ys) zs.
Proof.
  revert x. induction ys as [|y ys IH]; intros x; [simpl; unfold final; simpl; tauto|]. simpl. rewrite IH, final_cons. tauto.
Qed.

(** Links depend on the [next] of all but the last and the [prev] of all but the first. *)
Lemma links_frame h h' x ys : NoDup (x :: ys) ->
  (forall a, a ∈ x :: ys -> a <> final x ys -> get_next a h' = get_next a h) -> (forall b, b ∈ ys -> get_prev b h' = get_prev b h) ->
  links h x ys -> links h' x ys.
Proof.
  revert x. induction ys as [|y ys IH]; intros x Hnd Hn Hp; [done|]. rewrite final_cons in Hn. intros [[E1 E2] Hl].
  apply NoDup_cons in Hnd as [Hx Hnd]. split; [split|].
  - rewrite Hn; [done|apply list_elem_of_here|]. intros E. apply Hx. rewrite E. apply final_elem.
  - rewrite Hp; [done|apply list_elem_of_here].
  - apply IH; [done| | |done]; intros b Hb; [apply Hn|apply Hp]; by apply list_elem_of_further.
Qed.

(** ** One write *)

Lemma set_next_spec a v h : is_Some (h !! a) -> exists h', set_next a v h = Some h' /\ (forall x, is_Some (h' !! x) <-> is_Some (h !! x)) /\
  (forall x, get_next x h' = if x =? a then Some v else get_next x h) /\ (forall x, get_prev x h' = get_prev x h).
Proof.
  intros [l Hl]. unfold set_next. rewrite Hl. eexists. split; [done|]. unfold get_next, get_prev. split; [|split]; intros x.
  - destruct (decide (x = a)) as [->|]; [rewrite lookup_insert_eq, Hl; split; intros _; by eexists|by rewrite lookup_insert_ne].
  - destruct (Z.eqb_spec x a) as [->|]; [by rewrite lookup_insert_eq|by rewrite lookup_insert_ne].
  - destruct (decide (x = a)) as [->|]; [by rewrite lookup_insert_eq, Hl|by rewrite lookup_insert_ne].
Qed.

Lemma set_prev_spec a v h : is_Some (h !! a) -> exists h', set_prev a v h = Some h' /\ (forall x, is_Some (h' !! x) <-> is_Some (h !! x)) /\
  (forall x, get_next x h' = get_next x h) /\ (forall x, get_prev x h' = if x =? a then Some v else get_prev x h).
Proof.
  intros [l Hl]. unfold set_prev. rewrite Hl. eexists. split; [done|]. unfold get_next, get_prev. split; [|split]; intros x.
  - destruct (decide (x = a)) as [->|]; [rewrite lookup_insert_eq, Hl; split; intros _; by eexists|by rewrite lookup_insert_ne].
  - destruct (decide (x = a)) as [->|]; [by rewrite lookup_insert_eq, Hl|by rewrite lookup_insert_ne].
  - destruct (Z.eqb_spec x a) as [->|]; [by rewrite lookup_insert_eq|by rewrite lookup_insert_ne].
Qed.

Lemma next_alloc_link a h v : get_next a h = Some v -> is_Some (h !! a).
Proof. unfold get_next. intros H. apply fmap_Some in H as (l & -> & _). by eexists. Qed.

Lemma prev_alloc_link a h v : get_prev a h = Some v -> is_Some (h !! a).
Proof. unfold get_prev. intros H. apply fmap_Some in H as (l & -> & _). by eexists. Qed.

(** ** Whole operations, by the links they change *)

Lemma insert_links l elm v h : is_Some (h !! elm) -> edge h l v -> elm <> l -> elm <> v ->
  exists h', wl_list_insert l elm h = Some h' /\ (forall x, is_Some (h' !! x) <-> is_Some (h !! x)) /\
    (forall x, get_next x h' = if x =? l then Some elm else if x =? elm then Some v else get_next x h) /\
    (forall x, get_prev x h' = if x =? v then Some elm else if x =? elm then Some l else get_prev x h).
Proof.
  intros Hel [E1 E2] N1 N2. unfold wl_list_insert. pose proof (next_alloc_link _ _ _ E1) as Al. pose proof (prev_alloc_link _ _ _ E2) as Av.
  destruct (set_prev_spec elm l h Hel) as (h1 & -> & A1 & X1 & P1). cbn [mbind option_bind].
  rewrite X1, E1. cbn [mbind option_bind].
  destruct (set_next_spec elm v h1) as (h2 & -> & A2 & X2 & P2); [by apply A1|]. cbn [mbind option_bind].
  destruct (set_next_spec l elm h2) as (h3 & -> & A3 & X3 & P3); [by apply A2, A1|]. cbn [mbind option_bind].
  rewrite X3. replace (elm =? l) with false by lia. rewrite X2, Z.eqb_refl. cbn [mbind option_bind].
  destruct (set_prev_spec v elm h3) as (h4 & -> & A4 & X4 & P4); [by apply A3, A2, A1|].
  exists h4. split; [done|]. split; [intros x; by rewrite A4, A3, A2, A1|]. split; intros x.
  - by rewrite X4, X3, X2, X1.
  - by rewrite P4, P3, P2, P1.
Qed.

Lemma remove_links p elm n h : edge h p elm -> edge h elm n -> elm <> p -> elm <> n ->
  exists h', wl_list_remove elm h = Some h' /\ (forall x, is_Some (h' !! x) <-> is_Some (h !! x)) /\
    (forall x, get_next x h' = if x =? elm then Some 0 else if x =? p then Some n else get_next x h) /\
    (forall x, get_prev x h' = if x =? elm then Some 0 else if x =? n then Some p else get_prev x h).
Proof.
  intros [E1 E2] [E3 E4] N1 N2. unfold wl_list_remove.
  pose proof (next_alloc_link _ _ _ E1) as Ap. pose proof (next_alloc_link _ _ _ E3) as Ae. pose proof (prev_alloc_link _ _ _ E4) as An.
  rewrite E2, E3. cbn [mbind option_bind].
  destruct (set_next_spec p n h Ap) as (h1 & -> & A1 & X1 & P1). cbn [mbind option_bind].
  rewrite X1. replace (elm =? p) with false by lia. rewrite E3. cbn [mbind option_bind]. rewrite P1, E2. cbn [mbind option_bind].
  destruct (set_prev_spec n p h1) as (h2 & -> & A2 & X2 & P2); [by apply A1|]. cbn [mbind option_bind].
  destruct (set_next_spec elm 0 h2) as (h3 & -> & A3 & X3 & P3); [by apply A2, A1|]. cbn [mbind option_bind].
  destruct (set_prev_spec elm 0 h3) as (h4 & -> & A4 & X4 & P4); [by apply A3, A2, A1|].
  exists h4. split; [done|]. split; [intros x; by rewrite A4, A3, A2, A1|]. split; intros x.
  - by rewrite X4, X3, X2, X1.
  - by rewrite P4, P3, P2, P1.
Qed.

(** Only links of [s] change. *)
Definition same_outside (s : list Z) (h h' : memory) : Prop :=
  (forall x, is_Some (h' !! x) <-> is_Some (h !! x)) /\
  forall x, x ∉ s -> get_next x h' = get_next x h /\ get_prev x h' = get_prev x h.

Lemma same_outside_trans s h1 h2 h3 : same_outside s h1 h2 -> same_outside s h2 h3 -> same_outside s h1 h3.
Proof. intros [A1 B1] [A2 B2]. split; [intros x; by rewrite A2, A1|]. intros x Hx. destruct (B1 x Hx), (B2 x Hx). split; congruence. Qed.

Lemma same_outside_weaken s s' h h' : s ⊆ s' -> same_outside s h h' -> same_outside s' h h'.
Proof. intros Hs [A B]. split; [done|]. intros x Hx. apply B. set_solver. Qed.

(** The rest of a circular list after some of it: its first, or the head. *)
Lemma rest_cons (l2 : list Z) a : exists v rest, l2 ++ [a] = v :: rest /\ v ∈ a :: l2 /\ (v = a -> l2 = [] \/ a ∈ l2) /\ final v rest = a /\ (rest = [] -> v = a).
Proof.
  destruct l2 as [|v l2]; [exists a, []|exists v, (l2 ++ [a])].
  - split; [done|]. split; [apply list_elem_of_here|]. split; [by left|]. done.
  - split; [done|]. split; [apply list_elem_of_further, list_elem_of_here|]. split; [intros ->; right; apply list_elem_of_here|].
    split; [apply final_app|]. by destruct l2.
Qed.

Lemma ring_split h a l1 l2 v rest : ring h a (l1 ++ l2) -> l2 ++ [a] = v :: rest ->
  links h a l1 /\ edge h (final a l1) v /\ links h v rest /\ NoDup (a :: l1) /\ NoDup (v :: rest) /\
  (forall x, x ∈ v :: rest -> x <> a -> x ∉ a :: l1) /\ (forall x, x ∈ l1 -> x ∉ v :: rest).
Proof.
  intros [Hl Hnd] E. rewrite <- app_assoc, E, links_app in Hl. destruct Hl as [H1 [H2 H3]].
  rewrite app_comm_cons in Hnd. apply NoDup_app in Hnd as (N1 & N2 & N3).
  assert (Hel : forall x, x ∈ v :: rest <-> x ∈ l2 \/ x = a) by (intros x; rewrite <- E; set_solver).
  split; [done|]. split; [done|]. split; [done|]. split; [done|]. split; [|split].
  - rewrite <- E. apply NoDup_app. split; [done|]. split; [|apply NoDup_singleton]. intros x Hx ->%list_elem_of_singleton.
    apply (N2 a); [apply list_elem_of_here|done].
  - intros x Hx Hxa Hin. apply Hel in Hx as [Hx|]; [by apply (N2 x)|done].
  - intros x Hx Hin. apply Hel in Hin as [Hin| ->]; [apply (N2 x); [by apply list_elem_of_further|done]|].
    by apply NoDup_cons in N1 as [? _].
Qed.

Lemma ring_insert h a l1 l2 elm : ring h a (l1 ++ l2) -> is_Some (h !! elm) -> elm ∉ a :: l1 ++ l2 ->
  exists h', wl_list_insert (final a l1) elm h = Some h' /\ ring h' a (l1 ++ elm :: l2) /\ same_outside (elm :: a :: l1 ++ l2) h h'.
Proof.
  intros Hr Hel Hnin. destruct (rest_cons l2 a) as (v & rest & E & Hv & _ & Hfin & _).
  destruct (ring_split _ _ _ _ _ _ Hr E) as (H1 & H2 & H3 & N1 & N2 & N3 & N4).
  assert (Hu : final a l1 ∈ a :: l1) by apply final_elem.
  assert (Hvr : forall x, x ∈ v :: rest -> x ∈ a :: l1 ++ l2) by (intros x; rewrite <- E; set_solver).
  destruct (insert_links (final a l1) elm v h Hel H2) as (h' & E' & A' & X' & P'); [set_solver|set_solver|].
  exists h'. split; [done|]. split; [split|split].
  - rewrite <- app_assoc. change ((elm :: l2) ++ [a]) with (elm :: (l2 ++ [a])). rewrite E, links_app. split; [|split; [|split]].
    + apply (links_frame h); [done| | |done].
      * intros x Hx Hf. rewrite X'. replace (x =? _) with false by lia. replace (x =? elm) with false; [done|]. symmetry. apply Z.eqb_neq. set_solver.
      * intros x Hx. rewrite P'. assert (x <> v) by (intros ->; by apply (N4 v Hx), list_elem_of_here).
        assert (x <> elm) by set_solver. replace (x =? v) with false by lia. by replace (x =? elm) with false by lia.
    + split; [rewrite X'; by rewrite Z.eqb_refl|]. rewrite P'. assert (elm <> v) by set_solver. replace (elm =? v) with false by lia. by rewrite Z.eqb_refl.
    + split; [|rewrite P'; by rewrite Z.eqb_refl]. rewrite X'. assert (elm <> final a l1) by set_solver.
      replace (elm =? final a l1) with false by lia. by rewrite Z.eqb_refl.
    + apply (links_frame h); [done| | |done].
      * intros x Hx Hf. rewrite Hfin in Hf. rewrite X'. pose proof (N3 x Hx Hf). assert (x <> final a l1) by set_solver.
        assert (x <> elm) by set_solver. replace (x =? _) with false by lia. by replace (x =? elm) with false by lia.
      * intros x Hx. rewrite P'. assert (x <> v) by (apply NoDup_cons in N2 as [? _]; set_solver). assert (x <> elm) by set_solver.
        replace (x =? v) with false by lia. by replace (x =? elm) with false by lia.
  - destruct Hr as [_ Hnd]. apply NoDup_cons in Hnd as [Ha Hnd]. apply NoDup_app in Hnd as (M1 & M2 & M3).
    apply NoDup_cons. split; [set_solver|]. apply NoDup_app. split; [done|]. split; [set_solver|]. apply NoDup_cons. split; [set_solver|done].
  - done.
  - intros x Hx. rewrite X', P'. assert (x <> elm /\ x <> final a l1 /\ x <> v) as (D1 & D2 & D3) by set_solver.
    replace (x =? final a l1) with false by lia. replace (x =? elm) with false by lia. by replace (x =? v) with false by lia.
Qed.

Lemma ring_remove h a l1 elm l2 : ring h a (l1 ++ elm :: l2) ->
  exists h', wl_list_remove elm h = Some h' /\ ring h' a (l1 ++ l2) /\ same_outside (a :: l1 ++ elm :: l2) h h'.
Proof.
  intros Hr. destruct (rest_cons l2 a) as (v & rest & E & Hv & _ & Hfin & _).
  assert (E2 : (elm :: l2) ++ [a] = elm :: v :: rest) by (simpl; by rewrite E).
  destruct (ring_split _ _ _ _ _ _ Hr E2) as (H1 & H2 & [H3 H4] & N1 & N2 & N3 & N4).
  pose proof (rg_nodup _ _ _ Hr) as Hnd. apply NoDup_cons in Hnd as [Ha Hnd]. apply NoDup_app in Hnd as (M1 & M2 & M3). apply NoDup_cons in M3 as [M3 M4].
  assert (Hu : final a l1 ∈ a :: l1) by apply final_elem. apply NoDup_cons in N2 as [N2 N5].
  assert (Hvr : forall x, x ∈ v :: rest -> x ∈ a :: l2) by (intros x; rewrite <- E; set_solver).
  assert (Helu : elm <> final a l1) by set_solver. assert (Helv : elm <> v) by set_solver.
  destruct (remove_links (final a l1) elm v h H2 H3 Helu Helv) as (h' & E' & A' & X' & P').
  exists h'. split; [done|]. split; [split|split].
  - rewrite <- app_assoc, E, links_app. split; [|split].
    + apply (links_frame h); [done| | |done].
      * intros x Hx Hf. rewrite X'. assert (x <> elm) by set_solver. replace (x =? elm) with false by lia. by replace (x =? final a l1) with false by lia.
      * intros x Hx. rewrite P'. assert (x <> elm) by set_solver. assert (x <> v) by (intros ->; apply (N4 v Hx); set_solver).
        replace (x =? elm) with false by lia. by replace (x =? v) with false by lia.
    + split; [rewrite X'|rewrite P'].
      * replace (final a l1 =? elm) with false by lia. by rewrite Z.eqb_refl.
      * replace (v =? elm) with false by lia. by rewrite Z.eqb_refl.
    + apply (links_frame h); [done| | |done].
      * intros x Hx Hf. rewrite Hfin in Hf. rewrite X'. assert (x <> elm) by set_solver.
        assert (x <> final a l1) by (pose proof (N3 x ltac:(set_solver) Hf); set_solver).
        replace (x =? elm) with false by lia. by replace (x =? final a l1) with false by lia.
      * intros x Hx. rewrite P'. assert (x <> v) by (apply NoDup_cons in N5 as [? _]; set_solver). assert (x <> elm) by set_solver.
        replace (x =? elm) with false by lia. by replace (x =? v) with false by lia.
  - apply NoDup_cons. split; [set_solver|]. apply NoDup_app. split; [done|]. split; [set_solver|done].
  - done.
  - intros x Hx. rewrite X', P'. assert (x <> elm /\ x <> final a l1 /\ x <> v) as (D1 & D2 & D3) by set_solver.
    replace (x =? elm) with false by lia. replace (x =? final a l1) with false by lia. by replace (x =? v) with false by lia.
Qed.

(** ** What an emission promises *)

Definition apply_action (l : list Z) (a : action) : list Z := match a with Remove x => filter (fun y => y <> x) l | Add x => l ++ [x] end.
Definition apply_actions (l : list Z) (acts : list action) : list Z := foldl apply_action l acts.

(** Listeners take off what is on the list and add what is not; [ok] is what may be added. *)
Fixpoint acts_valid (ok : Z -> Prop) (l : list Z) (acts : list action) : Prop :=
  match acts with
  | [] => True
  | a :: acts => match a with Remove x => x ∈ l | Add x => (x ∉ l) /\ ok x end /\ acts_valid ok (apply_action l a) acts
  end.

Definition removed (acts : list action) : list Z := omap (fun a => match a with Remove x => Some x | Add _ => None end) acts.

(** The listeners that are called: in order, all that are not taken off before. *)
Fixpoint notified (script : list (list action)) (l gone : list Z) : list Z :=
  match l with
  | [] => []
  | x :: l => if bool_decide (x ∈ gone) then notified script l gone
              else x :: notified (tail script) l (gone ++ removed (default [] (head script)))
  end.

(** The list after. *)
Definition remaining (l : list Z) (script : list (list action)) (calls : nat) : list Z := apply_actions l (concat (take calls script)).

(** All that happens while listeners are called is valid. *)
Fixpoint calls_valid (ok : Z -> Prop) (script : list (list action)) (l cur gone : list Z) : Prop :=
  match l with
  | [] => True
  | x :: l => if bool_decide (x ∈ gone) then calls_valid ok script l cur gone
              else let acts := default [] (head script) in
                acts_valid ok cur acts /\ calls_valid ok (tail script) l (apply_actions cur acts) (gone ++ removed acts)
  end.

(** ** The emission with its markers *)

Lemma ring_edge h a l1 x l2 v rest : ring h a (l1 ++ x :: l2) -> l2 ++ [a] = v :: rest -> edge h x v.
Proof.
  intros Hr E. replace (l1 ++ x :: l2) with ((l1 ++ [x]) ++ l2) in Hr by (by rewrite <- app_assoc).
  destruct (ring_split _ _ _ _ _ _ Hr E) as (_ & H & _). by rewrite final_app in H.
Qed.

Lemma ring_last h a l : ring h a l -> get_prev a h = Some (final a l).
Proof.
  intros Hr. rewrite <- (app_nil_r l) in Hr. by destruct (ring_split _ _ l [] a [] Hr eq_refl) as (_ & [_ H] & _).
Qed.

Lemma ring_append h a l x : ring h a l -> is_Some (h !! x) -> x ∉ a :: l ->
  exists h', wl_signal_add a x h = Some h' /\ ring h' a (l ++ [x]) /\ same_outside (x :: a :: l) h h'.
Proof.
  intros Hr Hx Hn. unfold wl_signal_add. rewrite (ring_last _ _ _ Hr). cbn [mbind option_bind].
  destruct (ring_insert h a l [] x) as (h' & E & H1 & H2); [by rewrite app_nil_r|done|by rewrite app_nil_r|]. exists h'.
  rewrite app_nil_r in H2. done.
Qed.

Lemma filter_all_in (P : Z -> Prop) `{forall x, Decision (P x)} (l : list Z) : (forall y, y ∈ l -> P y) -> filter P l = l.
Proof.
  induction l as [|y l IH]; intros Hl; [done|]. rewrite filter_cons_True by apply Hl, list_elem_of_here. f_equal. apply IH.
  intros z Hz. by apply Hl, list_elem_of_further.
Qed.

Lemma filter_split (x : Z) l1 l2 : NoDup (l1 ++ x :: l2) -> filter (fun y => y <> x) (l1 ++ x :: l2) = l1 ++ l2.
Proof.
  intros Hnd. apply NoDup_app in Hnd as (_ & N1 & N2). apply NoDup_cons in N2 as [N2 _].
  assert (Hid : forall l : list Z, x ∉ l -> filter (fun y => y <> x) l = l).
  { intros l Hl. apply filter_all_in. intros y Hy. set_solver. }
  rewrite filter_app, filter_cons_False by (by intros []). rewrite !Hid; set_solver.
Qed.

Section Emission.
Context (signal cursor end_ : Z).

(** The list with the markers: who was called, who is still to be called, who came later. *)
Definition marked (called todo later : list Z) : list Z := called ++ cursor :: todo ++ end_ :: later.

(** What may be added is in memory and is none of the nodes of the emission itself. *)
Definition free_link (h : memory) (x : Z) : Prop := is_Some (h !! x) /\ x <> signal /\ x <> cursor /\ x <> end_.

Lemma run_action_spec h called todo later a l : ring h signal (marked called todo later) ->
  called ++ todo ++ later = l ->
  match a with Remove x => x ∈ l | Add x => (x ∉ l) /\ free_link h x end ->
  exists h' called' todo' later', run_action signal h a = Some h' /\ ring h' signal (marked called' todo' later') /\
    called' ++ todo' ++ later' = apply_action l a /\ (forall x, is_Some (h' !! x) <-> is_Some (h !! x)) /\
    todo' = filter (fun y => y ∉ removed [a]) todo.
Proof.
  intros Hr <- Hv. pose proof (rg_nodup _ _ _ Hr) as Hnd. destruct a as [x|x]; cbn [run_action apply_action].
  - assert (Hx : x ∈ marked called todo later) by (unfold marked; set_solver).
    apply list_elem_of_split in Hx as (l1 & l2 & E). pose proof Hnd as Hnd'. rewrite E in Hr, Hnd'.
    destruct (ring_remove _ _ _ _ _ Hr) as (h' & E' & H1 & [H2 _]). exists h'.
    exists (filter (fun y => y <> x) called), (filter (fun y => y <> x) todo), (filter (fun y => y <> x) later).
    split; [done|]. split; [|split; [by rewrite !filter_app|split; [done|]]].
    + rewrite <- (filter_split x l1 l2) in H1 by (by apply NoDup_cons in Hnd' as [_ ?]). rewrite <- E in H1.
      assert (Hc : x <> cursor /\ x <> end_).
      { unfold marked in Hnd. clear -Hnd Hv. rewrite NoDup_cons, NoDup_app, NoDup_cons, NoDup_app, NoDup_cons in Hnd. set_solver. }
      destruct Hc as [Hc1 Hc2]. unfold marked in *. rewrite filter_app, filter_cons_True, filter_app, filter_cons_True in H1 by congruence. done.
    + apply list_filter_iff. intros y. simpl. set_solver.
  - destruct Hv as (Hn & Hal & Hx1 & Hx2 & Hx3).
    destruct (ring_append h signal (marked called todo later) x Hr Hal) as (h' & E & H1 & [H2 _]); [unfold marked; set_solver|].
    exists h', called, todo, (later ++ [x]). split; [done|]. split; [|split; [by rewrite !app_assoc|split; [done|]]].
    + unfold marked in *. rewrite <- !app_assoc in H1. simpl in H1. rewrite <- !app_assoc in H1. done.
    + symmetry. apply filter_all_in. intros y _. simpl. apply not_elem_of_nil.
Qed.

Lemma run_actions_spec acts h called todo later l : ring h signal (marked called todo later) -> called ++ todo ++ later = l ->
  acts_valid (free_link h) l acts ->
  exists h' called' todo' later', run_actions signal acts h = Some h' /\ ring h' signal (marked called' todo' later') /\
    called' ++ todo' ++ later' = apply_actions l acts /\ (forall x, is_Some (h' !! x) <-> is_Some (h !! x)) /\
    todo' = filter (fun y => y ∉ removed acts) todo.
Proof.
  revert h called todo later l. induction acts as [|a acts IH]; intros h called todo later l Hr Hl Hv.
  - exists h, called, todo, later. split; [done|]. split; [done|]. split; [done|]. split; [done|].
    symmetry. apply filter_all_in. intros y _. simpl. apply not_elem_of_nil.
  - destruct Hv as [Ha Hv]. destruct (run_action_spec h called todo later a l Hr Hl) as (h1 & c1 & t1 & e1 & E1 & R1 & L1 & A1 & T1); [by destruct a|].
    assert (Hfree : forall x, free_link h1 x <-> free_link h x) by (intros x; unfold free_link; by rewrite A1).
    destruct (IH h1 c1 t1 e1 _ R1 L1) as (h' & c' & t' & e' & E' & R' & L' & A' & T').
    { clear -Hv Hfree. revert Hv. generalize (apply_action l a). induction acts as [|b acts IH]; intros l0; [done|]. intros [Hb Hv].
      split; [|by apply IH]. destruct b; [done|]. by rewrite Hfree. }
    exists h', c', t', e'. unfold run_actions in *. simpl. rewrite E1. split; [done|]. split; [done|]. split; [done|].
    split; [intros x; by rewrite A', A1|]. rewrite T', T1, list_filter_filter. apply list_filter_iff. intros y.
    unfold removed. simpl. destruct a; simpl; set_solver.
Qed.

Lemma valid_free h h' script l cur gone : (forall x, is_Some (h' !! x) <-> is_Some (h !! x)) ->
  calls_valid (free_link h) script l cur gone -> calls_valid (free_link h') script l cur gone.
Proof.
  intros Ha. revert script cur gone. induction l as [|x l IH]; intros script cur gone; [done|]. cbn [calls_valid].
  destruct (bool_decide _); [apply IH|]. intros [H1 H2]. split; [|by apply IH]. clear IH H2.
  revert H1. generalize cur. induction (default [] (head script)) as [|a acts IHa]; intros c; [done|]. intros [Hb Hv].
  split; [|by apply IHa]. destruct a; [done|]. destruct Hb as [? [? ?]]. split; [done|]. split; [by apply Ha|done].
Qed.

(** The cursor moves past the next listener. *)
Lemma cursor_step h called x todo later : ring h signal (marked called (x :: todo) later) ->
  get_next cursor h = Some x /\ x <> end_ /\ exists h1 h2, wl_list_remove cursor h = Some h1 /\ wl_list_insert x cursor h1 = Some h2 /\
    ring h2 signal (marked (called ++ [x]) todo later) /\ (forall y, is_Some (h2 !! y) <-> is_Some (h !! y)).
Proof.
  intros Hr. pose proof (rg_nodup _ _ _ Hr) as Hnd. unfold marked in *.
  assert (Hc : is_Some (h !! cursor)).
  { destruct (ring_edge _ _ _ _ _ _ _ Hr eq_refl) as [Hn _]. by eapply next_alloc_link. }
  assert (Hd : x <> end_ /\ cursor ∉ signal :: (called ++ [x]) ++ todo ++ end_ :: later).
  { clear -Hnd. rewrite NoDup_cons, NoDup_app, NoDup_cons in Hnd. simpl in Hnd. rewrite NoDup_cons in Hnd. set_solver. }
  destruct Hd as [Hd1 Hd2]. split; [by destruct (ring_edge _ _ _ _ _ _ _ Hr eq_refl) as [Hn _]|]. split; [done|].
  destruct (ring_remove _ _ _ _ _ Hr) as (h1 & E1 & R1 & [A1 _]).
  replace (called ++ (x :: todo) ++ end_ :: later) with ((called ++ [x]) ++ todo ++ end_ :: later) in R1 by (by rewrite <- !app_assoc).
  destruct (ring_insert _ _ _ _ cursor R1) as (h2 & E2 & R2 & [A2 _]); [by apply A1|done|]. rewrite final_app in E2.
  exists h1, h2. split; [done|]. split; [done|]. split; [done|]. intros y. by rewrite A2, A1.
Qed.

Lemma take_calls (script : list (list action)) n : concat (take (S n) script) = default [] (head script) ++ concat (take n (tail script)).
Proof. destruct script; [by destruct n|done]. Qed.

Lemma emit_loop_spec rest fuel script h called later gone cur log : (length rest < fuel)%nat ->
  let todo := filter (fun y => y ∉ gone) rest in
  ring h signal (marked called todo later) -> called ++ todo ++ later = cur -> calls_valid (free_link h) script rest cur gone ->
  exists h' called' later', emit_loop fuel signal cursor end_ script h log = Some (h', log ++ notified script rest gone) /\
    ring h' signal (marked called' [] later') /\ called' ++ later' = remaining cur script (length (notified script rest gone)).
Proof.
  revert fuel script h called later gone cur log. induction rest as [|x rest IH]; intros fuel script h called later gone cur log Hf todo Hr Hcur Hv.
  - destruct fuel as [|fuel]; [simpl in Hf; lia|]. exists h, called, later. cbn [emit_loop notified].
    assert (Hend : get_next cursor h = Some end_) by (by destruct (ring_edge _ _ called cursor (end_ :: later) end_ _ Hr eq_refl)).
    rewrite Hend. cbn [mbind option_bind]. rewrite Z.eqb_refl, app_nil_r.
    split; [done|]. split; [done|]. unfold remaining. by rewrite take_0.
  - cbn [notified calls_valid] in *. unfold todo in *. clear todo. destruct (bool_decide_reflect (x ∈ gone)) as [Hg|Hg].
    { rewrite filter_cons_False in * by auto. apply (IH _ _ _ called later); [simpl in Hf; lia|done..]. }
    rewrite filter_cons_True in * by done. destruct fuel as [|fuel]; [simpl in Hf; lia|]. cbn [emit_loop].
    destruct (cursor_step _ _ _ _ _ Hr) as (-> & Hne & h1 & h2 & E1 & E2 & R2 & A2). cbn [mbind option_bind].
    replace (x =? end_) with false by lia. rewrite E1. cbn [mbind option_bind]. rewrite E2. cbn [mbind option_bind].
    destruct Hv as [Hv1 Hv2]. set (acts := default [] (head script)) in *.
    assert (Hv1' : acts_valid (free_link h2) cur acts).
    { pose proof (valid_free h h2 (acts :: tail script) [x] cur [] A2) as Hvf. cbn [calls_valid] in Hvf.
      rewrite bool_decide_eq_false_2 in Hvf by apply not_elem_of_nil. by apply Hvf. }
    destruct (run_actions_spec acts h2 (called ++ [x]) _ later cur R2) as (h3 & c3 & t3 & e3 & -> & R3 & L3 & A3 & T3);
      [by rewrite <- app_assoc|done|]. cbn [mbind option_bind].
    rewrite T3, list_filter_filter in *.
    assert (Et : filter (fun y => (y ∉ removed acts) /\ (y ∉ gone)) rest = filter (fun y => y ∉ gone ++ removed acts) rest).
    { apply list_filter_iff. intros y. set_solver. }
    rewrite Et in *. destruct (IH fuel (tail script) h3 c3 e3 (gone ++ removed acts) (apply_actions cur acts) (log ++ [x])) as (h' & c' & e' & E' & R' & L').
    { simpl in Hf. lia. } { done. } { done. } { apply (valid_free h); [intros y; by rewrite A3, A2|done]. }
    exists h', c', e'. rewrite E', <- app_assoc. split; [done|]. split; [done|]. rewrite L'. unfold remaining, apply_actions. simpl length.
    rewrite take_calls, foldl_app. done.
Qed.
End Emission.

(** C34. An emission keeps what its documentation promises: for any listeners that, when called,
    take any listeners off the list or add new ones, it ends, accesses no address without a
    link, calls exactly the listeners of the list at its start that were not taken off before
    their turn, in order and once each (those added or put back meanwhile are not called), and
    leaves the list as these changes made it, without its own markers. *)
Theorem signal_emission_exact signal cursor end_ l h script :
  ring h signal l -> is_Some (h !! cursor) -> is_Some (h !! end_) -> NoDup (cursor :: end_ :: signal :: l) ->
  calls_valid (free_link signal cursor end_ h) script l l [] ->
  let log := notified script l [] in
  exists h', wl_signal_emit_mutable (S (length l)) signal cursor end_ script h = Some (h', log) /\
    ring h' signal (remaining l script (length log)) /\ log `sublist_of` l.
Proof.
  intros Hr Hc He Hnd Hv log. unfold wl_signal_emit_mutable. rewrite !NoDup_cons in Hnd. destruct Hnd as (N1 & N2 & N3 & N4).
  destruct (ring_insert h signal [] l cursor Hr Hc) as (h1 & E1 & R1 & [A1 _]); [set_solver|]. change (final signal []) with signal in E1.
  rewrite E1. cbn [mbind option_bind]. rewrite (ring_last _ _ _ R1). cbn [mbind option_bind].
  destruct (ring_insert h1 signal ([] ++ cursor :: l) [] end_) as (h2 & E2 & R2 & [A2 _]);
    [by rewrite app_nil_r|by apply A1|rewrite app_nil_r; set_solver|].
  rewrite E2. cbn [mbind option_bind].
  assert (Hfil : filter (fun y => y ∉ []) l = l) by (apply filter_all_in; intros y _; apply not_elem_of_nil).
  destruct (emit_loop_spec signal cursor end_ l (S (length l)) script h2 [] [] [] l []) as (h3 & c3 & e3 & E3 & R3 & L3); [lia| | | |].
  { rewrite Hfil. unfold marked. by rewrite <- app_assoc in R2. }
  { rewrite Hfil. by rewrite app_nil_r. }
  { apply (valid_free _ _ _ h); [intros y; by rewrite A2, A1|done]. }
  rewrite E3. cbn [mbind option_bind]. unfold marked in R3. simpl in R3.
  destruct (ring_remove _ _ _ _ _ R3) as (h4 & -> & R4 & _). cbn [mbind option_bind].
  destruct (ring_remove _ _ _ _ _ R4) as (h5 & -> & R5 & _). cbn [mbind option_bind].
  exists h5. split; [done|]. unfold log. split; [by rewrite <- L3|]. generalize script, (@nil Z). clear.
  induction l as [|x l IH]; intros script gone; [done|]. cbn [notified]. destruct (bool_decide _); [by apply sublist_cons|by apply sublist_skip].
Qed.


(** ** Signals with two lists *)

Lemma links_same h h' x ys : (forall y, y ∈ x :: ys -> get_next y h' = get_next y h /\ get_prev y h' = get_prev y h) -> links h x ys -> links h' x ys.
Proof.
  revert x. induction ys as [|y ys IH]; intros x Hs; [done|]. intros [[E1 E2] Hl]. split; [split|].
  - by rewrite (proj1 (Hs x ltac:(set_solver))).
  - by rewrite (proj2 (Hs y ltac:(set_solver))).
  - apply IH; [|done]. set_solver.
Qed.

Lemma ring_frame s h h' a l : same_outside s h h' -> (forall x, x ∈ a :: l -> x ∉ s) -> ring h a l -> ring h' a l.
Proof. intros [_ Hs] Hd [Hl Hnd]. split; [|done]. apply (links_same h); [|done]. intros y Hy. apply Hs, Hd. set_solver. Qed.

Lemma ring_init h a : is_Some (h !! a) -> exists h', wl_list_init a h = Some h' /\ ring h' a [] /\ same_outside [a] h h'.
Proof.
  intros Ha. unfold wl_list_init. destruct (set_prev_spec a a h Ha) as (h1 & -> & A1 & X1 & P1). cbn [mbind option_bind].
  destruct (set_next_spec a a h1) as (h2 & -> & A2 & X2 & P2); [by apply A1|]. exists h2. split; [done|]. split; [split|split].
  - split; [|done]. split; [rewrite X2; by rewrite Z.eqb_refl|rewrite P2, P1; by rewrite Z.eqb_refl].
  - apply NoDup_singleton.
  - intros x. by rewrite A2, A1.
  - intros x Hx. assert (x <> a) by set_solver. rewrite X2, P2, X1, P1. by replace (x =? a) with false by lia.
Qed.

(** wl_list_empty tells whether the list is. *)
Lemma ring_empty h a l : ring h a l -> wl_list_empty a h = Some (bool_decide (l = [])).
Proof.
  intros [Hl Hnd]. unfold wl_list_empty. destruct l as [|v l]; destruct Hl as [[-> _] _]; cbn [mbind option_bind].
  - by rewrite Z.eqb_refl.
  - replace (v =? a) with false; [done|]. symmetry. apply Z.eqb_neq. apply NoDup_cons in Hnd as [Hn _]. set_solver.
Qed.

(** A list moves over to an empty one whole. *)
Lemma ring_take_over h a l e : ring h a l -> ring h e [] -> e ∉ a :: l ->
  exists h', wl_list_insert_list e a h = Some h' /\ ring h' e l /\ (forall x, is_Some (h' !! x) <-> is_Some (h !! x)) /\
    same_outside (e :: a :: l) h h'.
Proof.
  intros Hr He Hn. unfold wl_list_insert_list. rewrite (ring_empty _ _ _ Hr). cbn [mbind option_bind].
  destruct (bool_decide_reflect (l = [])) as [->|Hne]; [by exists h|].
  destruct l as [|v l]; [done|]. pose proof (rg_nodup _ _ _ Hr) as Hnd. pose proof (ring_last _ _ _ Hr) as Hp.
  destruct Hr as [[[Hv1 Hv2] Hl] _]. destruct He as [[[He1 He2] _] _]. rewrite final_cons in Hp. set (w := final v l) in *.
  assert (Hw : w ∈ v :: l) by apply final_elem. apply NoDup_cons in Hnd as [Ha Hnd].
  assert (Hll : links h v l /\ is_Some (h !! w)).
  { change (links h v (l ++ [a])) in Hl.
    apply links_app in Hl as [Hl [[Hx _] _]]. split; [done|]. by eapply next_alloc_link. }
  destruct Hll as [Hll Hwa].
  rewrite Hv1. cbn [mbind option_bind].
  destruct (set_prev_spec v e h) as (h1 & -> & A1 & X1 & P1); [by eapply prev_alloc_link|]. cbn [mbind option_bind].
  rewrite P1. replace (a =? v) with false; [|symmetry; apply Z.eqb_neq; set_solver]. rewrite Hp. cbn [mbind option_bind]. rewrite X1, He1. cbn [mbind option_bind].
  destruct (set_next_spec w e h1) as (h2 & -> & A2 & X2 & P2); [by apply A1|]. cbn [mbind option_bind].
  assert (Hew : e <> w) by set_solver. assert (Haw : a <> w) by set_solver. assert (Hev : e <> v) by set_solver. assert (Hav : a <> v) by set_solver.
  rewrite X2, X1. replace (e =? w) with false by lia. rewrite He1. cbn [mbind option_bind].
  rewrite P2, P1. replace (a =? v) with false by lia. rewrite Hp. cbn [mbind option_bind].
  destruct (set_prev_spec e w h2) as (h3 & -> & A3 & X3 & P3); [apply A2, A1; by eapply next_alloc_link|]. cbn [mbind option_bind].
  rewrite X3, X2, X1. replace (a =? w) with false by lia. rewrite Hv1. cbn [mbind option_bind].
  destruct (set_next_spec e v h3) as (h4 & -> & A4 & X4 & P4); [apply A3, A2, A1; by eapply next_alloc_link|].
  assert (Hal : forall x, is_Some (h4 !! x) <-> is_Some (h !! x)) by (intros x; by rewrite A4, A3, A2, A1).
  exists h4. split; [done|]. split; [split|split; [done|split; [done|]]].
  - change (links h4 e (v :: (l ++ [e]))). split; [split; [rewrite X4; by rewrite Z.eqb_refl|]|].
    + rewrite P4, P3, P2, P1. replace (v =? e) with false by lia. by rewrite Z.eqb_refl.
    + apply links_app. fold w. split; [|split; [split|done]].
      * apply (links_frame h); [done| | |done].
        -- intros x Hx Hf. rewrite X4, X3, X2, X1. assert (x <> e) by set_solver. replace (x =? e) with false by lia. by replace (x =? w) with false by lia.
        -- intros x Hx. rewrite P4, P3, P2, P1. apply NoDup_cons in Hnd as [Hnv _]. assert (x <> e /\ x <> v) as [? ?] by set_solver.
           replace (x =? e) with false by lia. by replace (x =? v) with false by lia.
      * rewrite X4, X3, X2. replace (w =? e) with false by lia. by rewrite Z.eqb_refl.
      * rewrite P4, P3. by rewrite Z.eqb_refl.
  - apply NoDup_cons. split; [set_solver|done].
  - intros x Hx. rewrite X4, X3, X2, X1, P4, P3, P2, P1. assert (x <> e /\ x <> w /\ x <> v) as (D1 & D2 & D3) by set_solver.
    replace (x =? e) with false by lia. replace (x =? w) with false by lia. by replace (x =? v) with false by lia.
Qed.

(** One turn of the loop of [wl_priv_signal_emit] before the listener is called. *)
Lemma priv_step s h pos todo done_ : ring h (emit_list s) (pos :: todo) -> ring h (listener_list s) done_ ->
  NoDup (emit_list s :: listener_list s :: (pos :: todo) ++ done_) ->
  exists h1 h2, wl_list_remove pos h = Some h1 /\ wl_list_insert (listener_list s) pos h1 = Some h2 /\
    ring h2 (emit_list s) todo /\ ring h2 (listener_list s) (pos :: done_).
Proof.
  intros He Hr Hnd. rewrite !NoDup_cons, NoDup_app, NoDup_cons in Hnd. destruct Hnd as (N1 & N2 & (N3 & N4) & N5 & N6).
  destruct (ring_remove h (emit_list s) [] pos todo He) as (h1 & E1 & R1 & S1).
  assert (Hr1 : ring h1 (listener_list s) done_) by (eapply ring_frame; [done| |done]; intros x; set_solver).
  assert (Hp : is_Some (h1 !! pos)).
  { apply S1. destruct He as [[[_ Hp] _] _]. by eapply prev_alloc_link. }
  destruct (ring_insert h1 (listener_list s) [] done_ pos Hr1 Hp) as (h2 & E2 & R2 & S2); [set_solver|].
  exists h1, h2. split; [done|]. split; [done|]. split; [|done]. eapply ring_frame; [done| |done]. intros x. set_solver.
Qed.

Lemma priv_emit_loop_quiet todo fuel s h done_ log : (length todo < fuel)%nat ->
  ring h (emit_list s) todo -> ring h (listener_list s) done_ -> NoDup (emit_list s :: listener_list s :: todo ++ done_) ->
  exists h', priv_emit_loop fuel s [] h log = Some (h', log ++ todo) /\ ring h' (emit_list s) [] /\ ring h' (listener_list s) (rev todo ++ done_).
Proof.
  revert fuel h done_ log. induction todo as [|pos todo IH]; intros fuel h done_ log Hf He Hr Hnd; (destruct fuel as [|fuel]; [simpl in Hf; lia|]);
    cbn [priv_emit_loop]; rewrite (ring_empty _ _ _ He); cbn [mbind option_bind].
  - rewrite bool_decide_eq_true_2 by done. exists h. by rewrite app_nil_r.
  - rewrite bool_decide_eq_false_2 by done. pose proof He as [[[-> _] _] _]. cbn [mbind option_bind].
    destruct (priv_step s h pos todo done_ He Hr Hnd) as (h1 & h2 & -> & E2 & He2 & Hr2). cbn [mbind option_bind]. rewrite E2. cbn [mbind option_bind].
    unfold run_actions. simpl default. simpl foldl. cbn [mbind option_bind tail].
    destruct (IH fuel h2 (pos :: done_) (log ++ [pos])) as (h' & E' & He' & Hr').
    { simpl in Hf. lia. } { done. } { done. }
    { revert Hnd. rewrite !NoDup_cons, !NoDup_app, !NoDup_cons. set_solver. }
    exists h'. rewrite E'. rewrite <- !app_assoc in *. simpl. by rewrite <- app_assoc.
Qed.

(** An emission of a private signal calls its listeners in order and leaves them reversed: the
    next one calls them from the last to the first. *)
Theorem priv_emit_reverses s l h : ring h (listener_list s) l -> ring h (emit_list s) [] -> NoDup (emit_list s :: listener_list s :: l) ->
  exists h', wl_priv_signal_emit (S (length l)) s [] h = Some (h', l) /\ ring h' (listener_list s) (rev l) /\ ring h' (emit_list s) [].
Proof.
  intros Hr He Hnd. pose proof Hnd as Hnd'. rewrite !NoDup_cons in Hnd'. destruct Hnd' as (N1 & N2 & N3). unfold wl_priv_signal_emit.
  destruct (ring_take_over h (listener_list s) l (emit_list s) Hr He N1) as (h1 & -> & R1 & A1 & S1). cbn [mbind option_bind].
  destruct (ring_init h1 (listener_list s)) as (h2 & -> & R2 & S2).
  { apply A1. destruct (ring_last _ _ _ Hr). by eapply prev_alloc_link, ring_last. }
  cbn [mbind option_bind].
  destruct (priv_emit_loop_quiet l (S (length l)) s h2 [] []) as (h' & E' & He' & Hr'); [lia| |done|by rewrite app_nil_r|].
  { eapply ring_frame; [done| |done]. intros x. set_solver. }
  exists h'. rewrite E'. by rewrite app_nil_r in Hr'.
Qed.

(** wl_list_length counts the list. *)
Lemma length_loop_spec h a x l fuel count : links h x (l ++ [a]) -> NoDup (a :: l) -> (length l < fuel)%nat ->
  (get_next x h ≫= fun e => length_loop fuel a e count h) = Some (count + Z.of_nat (length l)).
Proof.
  revert x fuel count. induction l as [|y l IH]; intros x fuel count [[-> _] Hl] Hnd Hf; (destruct fuel as [|fuel]; [simpl in Hf; lia|]); cbn [mbind option_bind length_loop].
  - rewrite Z.eqb_refl. f_equal. simpl. lia.
  - assert (y <> a) by (apply NoDup_cons in Hnd as [Hn _]; set_solver). replace (y =? a) with false by lia.
    rewrite IH; [f_equal; simpl; lia|done| |simpl in Hf; lia]. rewrite !NoDup_cons in *. set_solver.
Qed.

Lemma links_alloc h x ys y : links h x ys -> y ∈ ys -> is_Some (h !! y).
Proof.
  revert x. induction ys as [|z ys IH]; intros x Hl Hy; [by apply not_elem_of_nil in Hy|]. destruct Hl as [[_ Hp] Hl].
  apply elem_of_cons in Hy as [->|Hy]; [by eapply prev_alloc_link|by apply (IH z)].
Qed.

Theorem wl_list_length_ring h a l : ring h a l -> wl_list_length a h = Some (Z.of_nat (length l)).
Proof.
  intros [Hl Hnd]. unfold wl_list_length. rewrite (length_loop_spec h a a l) ; [done|done|done|].
  assert (Hsub : list_to_set (a :: l) ⊆ dom h).
  { intros x Hx. apply elem_of_dom. apply elem_of_list_to_set in Hx. eapply links_alloc; [done|]. set_solver. }
  apply subseteq_size in Hsub. rewrite size_list_to_set, size_dom in Hsub by done. simpl in Hsub. lia.
Qed.

(** Three listeners on the signal at 1, the markers at 2 and 3, and a listener at 40 on no list:
    the first to be called takes the second off and adds the fourth, the third takes itself off
    and puts the second back. *)
Definition example_memory : memory :=
  list_to_map [(1, Link 30 10); (2, Link 0 0); (3, Link 0 0); (10, Link 1 20); (20, Link 10 30); (30, Link 20 1); (40, Link 0 0)].
Definition example_script : list (list action) := [[Remove 20; Add 40]; [Remove 30; Add 20]].

Lemma signal_emission_exact_witness :
  exists h', wl_signal_emit_mutable 4 1 2 3 example_script example_memory = Some (h', [10; 30]) /\
    ring h' 1 [10; 40; 20] /\ [10; 30] `sublist_of` [10; 20; 30].
Proof.
  apply (signal_emission_exact 1 2 3 [10; 20; 30] example_memory example_script).
  - split; [repeat split; reflexivity|apply (bool_decide_unpack _); vm_compute; exact I].
  - eexists; reflexivity.
  - eexists; reflexivity.
  - apply (bool_decide_unpack _); vm_compute; exact I.
  - cbn -[not elem_of]. repeat split; try (eexists; reflexivity); try lia; apply (bool_decide_unpack _); vm_compute; exact I.
Defined.

(** The simple emission survives a listener that takes itself off, but not one that takes off
    the next one: it calls that one all the same and then follows its null link. *)
Example emit_safe_self : snd <$> wl_signal_emit 4 1 [[Remove 10]] example_memory = Some [10; 20; 30].
Proof. vm_compute. reflexivity. Qed.
Example emit_safe_next : wl_signal_emit 4 1 [[Remove 20]] example_memory = None /\
  snd <$> wl_signal_emit_mutable 4 1 2 3 [[Remove 20]] example_memory = Some [10; 30].
Proof. vm_compute. split; reflexivity. Qed.
