(* ===== verification/Events.v ===== *)
(** * Resources and events of a Wayland client

    Models what src/libs/wayland/src/wayland-server.c does for the compositor's handlers: struct
    wl_resource and its creation and destruction in the table of a client's objects, events and
    protocol errors.  Accesses through pointers to nothing are [None]. *)

From Stdlib Require Import Ascii.
From S2P Require Import Prelude RingBuffer ObjectMap Connection Marshal RoundTrip Delivery.

(** ** Queues with a limit *)

(** The limit of a buffer is 2^[bits] bytes, and its memory is not larger. *)
Definition small (bits : Z) (b : wl_ring_buffer) : Prop := max_size_bits b = bits /\ size_bits b <= bits.

Definition limit_range (bits : Z) : Prop := WL_BUFFER_DEFAULT_SIZE_POT <= bits <= 30.

Lemma small_contents bits b : limit_range bits -> ring_inv b -> small bits b -> Z.of_nat (length (contents b)) <= 2 ^ 30.
Proof.
  intros [H1 H2] [_ [[Hb _]|Hf]] [_ Hs]; [|by rewrite fresh_contents].
  rewrite <- size_contents. pose proof (ro_size b Hb) as Hsz. unfold ring_buffer_capacity in Hsz. rewrite size_pot_pow in Hsz by apply (ro_bits b Hb).
  etransitivity; [done|]. apply Z.pow_le_mono_r; lia.
Qed.

Lemma small_ensure bits a b n b' e : limit_range bits -> small bits b -> ring_buffer_ensure_space a b n = Some (b', e) -> small bits b'.
Proof.
  intros [H1 _] [Hm Hs]. unfold WL_BUFFER_DEFAULT_SIZE_POT in H1. unfold ring_buffer_ensure_space, ring_buffer_allocate.
  set (k := ring_buffer_get_bits_for_size b _).
  assert (Hk : k <= bits).
  { unfold k, ring_buffer_get_bits_for_size. rewrite Hm. set (j := Z.max _ _). replace (bits >? 0) with true by lia. cbn [andb].
    destruct (Z.gtb_spec j bits); lia. }
  destruct (_ >? _); [intros [= <- _]; done|]. destruct (_ =? _); [intros [= <- _]; done|].
  destruct a; cbn [negb]; [|intros [= <- _]; done]. destruct (ring_buffer_copy _ _) as [old|]; [|done]. cbn [mbind option_bind].
  destruct (store _ _ _) as [mem|]; [|done]. intros [= <- _]. by split.
Qed.

Lemma small_put bits b data b' : small bits b -> ring_buffer_put b data = Some b' -> small bits b'.
Proof.
  intros Hs. unfold ring_buffer_put. destruct (_ =? 0); [by intros [= <-]|]. cbv zeta.
  intros E. by apply fmap_Some in E as (mem & _ & ->).
Qed.

(** Both queues to the socket. *)
Definition small_out (bits : Z) (c : wl_connection) : Prop := small bits (conn_out c) /\ small bits (fds_out c).

(** What sending does to a connection: nothing to its input; descriptors that were sent are
    closed. *)
Record out_only (bits : Z) (c c' : wl_connection) : Prop := {
  oo_ok : conn_ok c';
  oo_small : small_out bits c';
  oo_in : conn_in c' = conn_in c;
  oo_fds : fds_in c' = fds_in c;
  oo_recvs : recvs (os c') = recvs (os c);
  oo_closed : closed (os c) `prefix_of` closed (os c') }.

Lemma out_only_refl bits c : conn_ok c -> small_out bits c -> out_only bits c c.
Proof. by split. Qed.

Lemma out_only_trans bits c1 c2 c3 : out_only bits c1 c2 -> out_only bits c2 c3 -> out_only bits c1 c3.
Proof. intros [_ _ ? ? ? ?] [? ? ? ? ? ?]. split; try congruence. by etransitivity. Qed.

Lemma out_only_closed bits fds c c' : out_only bits c c' -> out_only bits c (log_closed fds c').
Proof. intros [[] ? ? ? ? ?]. split; [by split|done..|]. simpl. by apply prefix_app_r. Qed.

Section Limited.
Context (bits : Z) (Hbits : limit_range bits).

Lemma close_small b max b' fds : small bits b -> close_fds b max = Some (b', fds) -> small bits b'.
Proof.
  intros Hs. unfold close_fds. destruct (_ =? 0); [by intros [= <- _]|]. cbv zeta.
  destruct (ring_buffer_close_fds _ _); [|done]. by intros [= <- _].
Qed.

Lemma flush_loop_small answers c c' e : small_out bits c -> flush_loop answers c = Some (c', e) ->
  small_out bits c' /\ recvs (os c') = recvs (os c) /\ received (os c') = received (os c) /\ closed (os c) `prefix_of` closed (os c').
Proof.
  revert c. induction answers as [|a answers IH]; intros c Hs; cbn [flush_loop]; destruct (negb _); try (by intros [= <- _]).
  all: destruct (outgoing c) as [[data cmsg]|]; [|done]; cbn [mbind option_bind]; try (by intros [= <- _]).
  destruct a as [n|[]]; try (by intros [= <- _]); [|by apply IH]. unfold after_send. cbv zeta.
  destruct (close_fds _ _) as [[b fds]|] eqn:E; [|done]. cbn [mbind option_bind fst snd]. intros E'.
  destruct Hs as [Hs1 Hs2]. apply (close_small _ _ _ _ Hs2) in E. apply IH in E'; [|by split].
  destruct E' as (I1 & I2 & I3 & I4). split_and!; try done. etransitivity; [|exact I4]. simpl. by eexists.
Qed.

Lemma try_flush_out c : conn_ok c -> small_out bits c -> exists c' ok, try_flush c = Some (c', ok) /\ out_only bits c c'.
Proof.
  intros Hc Hs. destruct (try_flush_spec c Hc) as (c' & ok & E & Hc' & Ht). exists c', ok. split; [done|].
  destruct (transmits_streams _ _ Ht) as (_ & _ & E1 & E2).
  assert (Hsm : small_out bits c' /\ recvs (os c') = recvs (os c) /\ received (os c') = received (os c) /\ closed (os c) `prefix_of` closed (os c')).
  { revert E. unfold try_flush, wl_connection_flush. simpl. destruct (flush_loop _ _) as [[c1 e]|] eqn:Ef; [|done]. cbn [mbind option_bind fst snd].
    apply flush_loop_small in Ef; [|done]. destruct e; intros [= <- _]; exact Ef. }
  destruct Hsm as (? & ? & _ & ?). by split.
Qed.

Lemma flush_out c : conn_ok c -> small_out bits c ->
  exists c' r, wl_connection_flush c = Some (c', r) /\ out_only bits c c' /\ received (os c') = received (os c).
Proof.
  intros Hc Hs. destruct (flush_spec c Hc) as (c' & r & E & Hc' & Ht & _). exists c', r. split; [done|].
  destruct (transmits_streams _ _ Ht) as (_ & _ & E1 & E2).
  assert (Hsm : small_out bits c' /\ recvs (os c') = recvs (os c) /\ received (os c') = received (os c) /\ closed (os c) `prefix_of` closed (os c')).
  { revert E. unfold wl_connection_flush. destruct (negb _); [by intros [= <- _]|]. destruct (flush_loop _ _) as [[c1 e]|] eqn:Ef; [|done].
    cbn [mbind option_bind fst snd]. apply flush_loop_small in Ef; [|done]. destruct e; intros [= <- _]; exact Ef. }
  destruct Hsm as (? & ? & ? & ?). split; [by split|done].
Qed.

Lemma maybe_flush_out (b : bool) c : conn_ok c -> small_out bits c ->
  exists c' ok, (if b then try_flush c else Some (c, true)) = Some (c', ok) /\ out_only bits c c'.
Proof. intros Hc Hs. destruct b; [by apply try_flush_out|]. exists c, true. split; [done|]. by apply out_only_refl. Qed.

Lemma queue_out c data : conn_ok c -> small_out bits c -> Z.of_nat (length data) <= 2 ^ 32 ->
  exists c' ok, wl_connection_queue c data = Some (c', ok) /\ out_only bits c c'.
Proof using Hbits.
  intros Hc Hs Hl. unfold wl_connection_queue.
  destruct (maybe_flush_out (u64 (ring_buffer_size (conn_out c) + Z.of_nat (length data)) >? WL_BUFFER_DEFAULT_MAX_SIZE) c Hc Hs)
    as (c1 & ok & -> & H1). cbn [mbind option_bind fst snd]. destruct ok; cbn [negb]; [|by eexists _, _].
  pose proof (oo_ok _ _ _ H1) as Hc1. destruct (oo_small _ _ _ H1) as [Hs1 Hs2].
  pose proof (small_contents _ _ Hbits (co_out _ Hc1) Hs1).
  destruct (ensure_out_spec c1 (Z.of_nat (length data)) Hc1 ltac:(lia)) as (c2 & e & E & Hc2 & _ & Hsp); [unfold out_bytes; lia|].
  rewrite E. cbn [mbind option_bind fst snd]. unfold ensure_out, ensure in E.
  destruct (ring_buffer_ensure_space _ _ _) as [[b e']|] eqn:Ee; [|done]. injection E as <- <-. apply small_ensure with (bits := bits) in Ee; [|done..].
  assert (H2 : out_only bits c (alloc_done (c1 <{ conn_out := b }>))) by (eapply out_only_trans; [done|]; by split).
  destruct e' as [e'|]; [by eexists _, _|]. destruct (Hsp eq_refl) as [Hok Hfit].
  destruct (inv_put _ data (co_out _ Hc2) Hok Hfit) as (b2 & E2 & Hb2 & _). rewrite E2. cbn [mbind option_bind].
  eexists _, _. split; [done|]. eapply out_only_trans; [exact H2|]. apply small_put with (bits := bits) in E2; [|done].
  destruct Hc2. split; [by split|by split|done..].
Qed.

Lemma write_out c data : conn_ok c -> small_out bits c -> Z.of_nat (length data) <= 2 ^ 32 ->
  exists c' ok, wl_connection_write c data = Some (c', ok) /\ out_only bits c c'.
Proof using Hbits.
  intros Hc Hs Hl. unfold wl_connection_write. destruct (queue_out c data Hc Hs Hl) as (c' & ok & -> & H). cbn [mbind option_bind fst snd].
  destruct ok; cbn [negb]; [|by eexists _, _]. eexists _, _. split; [done|]. destruct H as [[] ? ? ? ? ?]. split; [by split|done..].
Qed.

Lemma put_fd_out c fd : conn_ok c -> small_out bits c -> exists c' ok, wl_connection_put_fd c fd = Some (c', ok) /\ out_only bits c c'.
Proof using Hbits.
  intros Hc Hs. pose proof (small_contents _ _ Hbits (fr_inv _ (co_fds_out _ Hc)) (proj2 Hs)).
  destruct (put_fd_spec c fd Hc) as (c' & ok & E & Hc' & _); [unfold out_fds; lia|].
  exists c', ok; split; [done|]; revert E; unfold wl_connection_put_fd.
  destruct (maybe_flush_out (ring_buffer_size (fds_out c) >=? MAX_FDS_OUT * 4) c Hc Hs) as (c1 & ok1 & -> & H1).
  cbn [mbind option_bind fst snd]; destruct ok1; cbn [negb]; [|by intros [= <- _]].
  unfold ensure_fds_out, ensure; destruct (ring_buffer_ensure_space _ _ _) as [[b e']|] eqn:Ee; [|done]; cbn [mbind option_bind fst snd].
  destruct (oo_small _ _ _ H1) as [Hs1 Hs2]; apply small_ensure with (bits := bits) in Ee; [|done..].
  destruct e' as [e'|]; [intros [= <- _]; eapply out_only_trans; [done|]; by split|].
  destruct (ring_buffer_put _ _) as [b2|] eqn:E2; [|done]; apply small_put with (bits := bits) in E2; [|done].
  intros [= <- _]; eapply out_only_trans; [done|]; by split.
Qed.
End Limited.

(** ** The interfaces of the protocol *)

(** The tables that are generated from the protocol: the requests and events of an interface,
    and the names of requests; wl_display has the events error and delete_id. *)
Class Protocol := {
  methods : wl_interface -> list wl_message;
  method_name : wl_interface -> Z -> list ascii;
  events : wl_interface -> list wl_message;
  wl_display_interface : wl_interface;
  display_error_event : exists types, events wl_display_interface !! 0%nat = Some (Message (String.list_ascii_of_string "ous") types);
  display_delete_id_event : exists types, events wl_display_interface !! 1%nat = Some (Message (String.list_ascii_of_string "u") types) }.

Definition WL_DISPLAY_ERROR : Z := 0.
Definition WL_DISPLAY_DELETE_ID : Z := 1.
Definition WL_DISPLAY_ERROR_INVALID_OBJECT : Z := 0.
Definition WL_DISPLAY_ERROR_INVALID_METHOD : Z := 1.
Definition WL_DISPLAY_ERROR_NO_MEMORY : Z := 2.

(** ** Formatted text *)

Definition codes (l : list ascii) : list Z := map (fun a => Z.of_N (N_of_ascii a)) l.
Definition literal (s : string) : list Z := codes (String.list_ascii_of_string s).

Fixpoint digits (fuel : nat) (z : Z) : list Z :=
  match fuel with O => [] | S fuel => (if z <? 10 then [] else digits fuel (z / 10)) ++ [48 + z mod 10] end.
(** [%d] and [%u]. *)
Definition decimal (z : Z) : list Z := if z <? 0 then 45 :: digits 20 (- z) else digits 20 z.

(** What a string holds, up to its end. *)
Fixpoint c_string (l : list Z) : list Z := match l with [] => [] | b :: l => if b =? 0 then [] else b :: c_string l end.

(** ** State *)

Record wl_resource := Resource { res_object : wl_object; res_client : Z; res_version : Z; res_dispatcher : bool }.

(** A request that was handed to its handler. *)
Record request := Request { rq_resource : wl_resource; rq_legacy : bool; rq_closure : wl_closure }.

(** The answer to a malloc: whether there is memory, and what it holds. *)
Record malloc_answer := Malloc { ma_allocator : allocator; ma_fill : nat -> Z }.

(** A client, with the memory of resources, also those of other clients; the answers of the
    allocator; the requests that were handed to their handlers; and whether the client was
    destroyed.  [source] is what the event loop waits for. *)
Record wl_client := Client { client_addr : Z; connection : wl_connection; source : Z; display_resource : option Z; objects : wl_map;
  error : bool; resources : gmap Z wl_resource; heap : list malloc_answer; served : list request; destroyed : bool }.

#[export] Instance client_fields : Fields wl_client := {| rebuild := fun c =>
  Client (client_addr c) (connection c) (source c) (display_resource c) (objects c) (error c) (resources c) (heap c) (served c) (destroyed c) |}.

Definition malloc (c : wl_client) : malloc_answer := default (Malloc (Allocator true 0) (fun _ => 0)) (head (heap c)).
Definition allocated (c : wl_client) : wl_client := c <{ heap ::= tail }>.
Definition has_memory (a : malloc_answer) : bool := alloc_ok (ma_allocator a).
(** Memory of [n] words, as bytes. *)
Definition memory_of (a : malloc_answer) (n : Z) : option (list Z) :=
  if has_memory a then Some (map (fun i => ma_fill a i mod 256) (seq 0 (Z.to_nat (4 * n)))) else None.

(** ** Events *)

(** An argument of an event: objects are pointers to resources. *)
Inductive event_argument := Res (r : option Z) | Val (a : wl_argument).

Section Events.
Context `{Protocol}.

Fixpoint verify_loop (rs : gmap Z wl_resource) (client : Z) (count : nat) (signature : list ascii) (args : list event_argument) : option bool :=
  match count, args with
  | O, _ => Some true
  | S _, [] => None
  | S count, a :: args =>
      let '(signature, d) := get_next_argument signature in
      match d with
      | Some (WL_ARG_NEW_ID, _) | Some (WL_ARG_OBJECT, _) =>
          match a with
          | Res None => verify_loop rs client count signature args
          | Res (Some r) => rs !! r ≫= fun res => if negb (res_client res =? client) then Some false else verify_loop rs client count signature args
          | Val _ => None
          end
      | _ => verify_loop rs client count signature args
      end
  end.

Definition verify_objects (c : wl_client) (signature : list ascii) (args : list event_argument) : option bool :=
  verify_loop (resources c) (client_addr c) (arg_count_for_signature signature) signature args.

(** The argument as the closure has it. *)
Definition deref_arg (rs : gmap Z wl_resource) (a : event_argument) : option wl_argument :=
  match a with
  | Res None => Some (ArgO None)
  | Res (Some r) => rs !! r ≫= fun res => Some (ArgO (Some (res_object res)))
  | Val a => Some a
  end.

(** [queue] is whether the event may wait for the next flush; [dups] are the descriptors that
    duplicating those of the arguments gives. *)
Definition handle_array (queue : bool) (r opcode : Z) (args : list event_argument) (dups : list (option Z)) (c : wl_client) : option wl_client :=
  resources c !! r ≫= fun res =>
  if error c then Some c
  else events (obj_interface (res_object res)) !! Z.to_nat opcode ≫= fun message =>
    verify_objects c (msg_signature message) args ≫= fun ok =>
    if negb ok then Some (c <{ error := true }>)
    else mapM (deref_arg (resources c)) args ≫= fun args =>
      let a := malloc c in let c := allocated c in
      wl_closure_marshal (has_memory a) dups (obj_id (res_object res)) opcode args message ≫= fun m =>
      match m with
      | inr (_, fds) => Some (c <{ connection ::= log_closed fds }> <{ error := true }>)
      | inl cl =>
          let a := malloc c in let c := allocated c in
          (if queue then wl_closure_queue (memory_of a) cl (connection c) else wl_closure_send (has_memory a) cl (connection c)) ≫= fun '(conn, cl, ok) =>
          Some (c <{ connection := log_closed (wl_closure_destroy cl) conn }> <{ error := negb ok }>)
      end.

Definition wl_resource_post_event_array : Z -> Z -> list event_argument -> list (option Z) -> wl_client -> option wl_client := handle_array false.
Definition wl_resource_queue_event_array : Z -> Z -> list event_argument -> list (option Z) -> wl_client -> option wl_client := handle_array true.

(** [text] is what the format gives; the buffer holds 127 bytes of it. *)
Definition wl_resource_post_error (r code : Z) (text : list Z) (c : wl_client) : option wl_client :=
  resources c !! r ≫= fun _ =>
  match error c, display_resource c with
  | false, Some display =>
      wl_resource_post_event_array display WL_DISPLAY_ERROR [Res (Some r); Val (ArgU code); Val (ArgS (Some (c_string (take 127 text))))] [] c ≫= fun c =>
      Some (c <{ error := true }>)
  | _, _ => Some c
  end.

(** An error on the display of the client. *)
Definition post_display_error (code : Z) (text : list Z) (c : wl_client) : option wl_client :=
  display_resource c ≫= fun display => wl_resource_post_error display code text c.

Definition wl_client_post_no_memory (c : wl_client) : option wl_client := post_display_error WL_DISPLAY_ERROR_NO_MEMORY (literal "no memory") c.

(** ** Resources *)

(** The new resource at [addr] is entered into the table; the result is the resource, or none. *)
Definition enter_resource (addr : Z) (interface : wl_interface) (version id : Z) (c : wl_client) : option (wl_client * option Z) :=
  let c := c <{ resources ::= <[addr := Resource (Object interface id) (client_addr c) version false]> }> in
  let a := malloc c in let c := allocated c in
  wl_map_insert_at (ma_allocator a) (objects c) 0 id addr ≫= fun '(m, e) =>
  let c := c <{ objects := m }> in
  match e with
  | None => Some (c, Some addr)
  | Some e =>
      (match e with
       | EINVAL => post_display_error WL_DISPLAY_ERROR_INVALID_OBJECT (literal "invalid new id " ++ decimal (i32 id)) c
       | _ => Some c
       end) ≫= fun c => Some (c <{ resources ::= delete addr }>, None)
  end.

(** [addr] is where the allocator puts the resource. Nobody listens for new resources
    (resource_created_signal). *)
Definition wl_resource_create (addr : Z) (interface : wl_interface) (version id : Z) (c : wl_client) : option (wl_client * option Z) :=
  let a := malloc c in let c := allocated c in
  if negb (has_memory a) then Some (c, None)
  else if id =? 0
  then let a := malloc c in let c := allocated c in
    wl_map_insert_new (ma_allocator a) (objects c) 0 0 ≫= fun '(m, id) =>
    let c := c <{ objects := m }> in
    if id =? 0 then Some (c, None) else enter_resource addr interface version id c
  else enter_resource addr interface version id c.

(** [callbacks] is what the listeners of the destruction and the destructor do. *)
Definition wl_resource_destroy (callbacks : wl_client -> option wl_client) (r : Z) (c : wl_client) : option wl_client :=
  resources c !! r ≫= fun res =>
  let id := obj_id (res_object res) in
  callbacks c ≫= fun c =>
  (if id <? WL_SERVER_ID_START
   then match display_resource c with
        | Some display => wl_resource_queue_event_array display WL_DISPLAY_DELETE_ID [Val (ArgU id)] [] c
        | None => Some c
        end ≫= fun c =>
        let a := malloc c in let c := allocated c in
        wl_map_insert_at (ma_allocator a) (objects c) 0 id 0 ≫= fun '(m, _) => Some (c <{ objects := m }>)
   else wl_map_remove (objects c) id ≫= fun m => Some (c <{ objects := m }>)) ≫= fun c =>
  Some (c <{ resources ::= delete r }>).

(** ** What handlers do *)

Inductive api_call :=
| CreateResource (addr : Z) (interface : wl_interface) (version id : Z)
| DestroyResource (r : Z) (callbacks : list api_call)
| SendEvent (queue : bool) (r opcode : Z) (args : list event_argument) (dups : list (option Z))
| SendError (r code : Z) (text : list Z).

Definition run_list (run : api_call -> wl_client -> option wl_client) (calls : list api_call) (c : wl_client) : option wl_client :=
  foldr (fun call k c => run call c ≫= k) Some calls c.

Fixpoint run_api (call : api_call) (c : wl_client) : option wl_client :=
  match call with
  | CreateResource addr interface version id => fst <$> wl_resource_create addr interface version id c
  | DestroyResource r callbacks => wl_resource_destroy (run_list run_api callbacks) r c
  | SendEvent queue r opcode args dups => handle_array queue r opcode args dups c
  | SendError r code text => wl_resource_post_error r code text c
  end.
Definition run_apis : list api_call -> wl_client -> option wl_client := run_list run_api.
End Events.

(** ** Sending closures *)

Section Sending.
Context (bits : Z) (Hbits : limit_range bits).

Lemma put_fds_out fds c : conn_ok c -> small_out bits c -> exists c' ok, put_fds c fds = Some (c', ok) /\ out_only bits c c'.
Proof using Hbits.
  revert c. induction fds as [|fd fds IH]; intros c Hc Hs; cbn [put_fds]; [exists c, true; split; [done|by apply out_only_refl]|].
  destruct (put_fd_out bits Hbits c fd Hc Hs) as (c1 & ok & -> & H1). cbn [mbind option_bind fst snd]. destruct ok; [|by eexists _, _].
  destruct (IH c1 (oo_ok _ _ _ H1) (oo_small _ _ _ H1)) as (c' & ok & E & H2). exists c', ok. split; [done|]. by eapply out_only_trans.
Qed.

Lemma send_with_out put mem cl c : closure_ok cl -> conn_ok c -> small_out bits c ->
  (forall c data, conn_ok c -> small_out bits c -> Z.of_nat (length data) <= 2 ^ 32 -> exists c' ok, put c data = Some (c', ok) /\ out_only bits c c') ->
  (forall n m, 0 <= n -> mem n = Some m -> Z.of_nat (length m) = 4 * n /\ Forall byte m) ->
  exists c' cl' ok, send_with put mem cl c = Some (c', cl', ok) /\ out_only bits c c'.
Proof using Hbits.
  intros Hcl Hc Hs Hput Hmem. unfold send_with, copy_fds_to_connection.
  destruct (put_fds_out (all_fds (cl_args cl)) c Hc Hs) as (c1 & ok1 & Ep & H1).
  destruct (copy_fds_spec _ (msg_signature (cl_message cl)) (cl_args cl) c c1 ok1 eq_refl (ck_args _ Hcl) Ep) as (args' & -> & Hargs).
  cbn [mbind option_bind]. destruct ok1; cbn [negb]; [|by eexists _, _, _]. rewrite (Hargs eq_refl). fold (cleared cl).
  pose proof (total_words_pos (cl_args cl)) as Hpos. pose proof (ck_size _ Hcl) as Hsz.
  rewrite buffer_size_spec by (apply (ck_args _ (cleared_ok _ Hcl)) || (cbn [cleared cl_args]; rewrite cleared_words; lia)).
  cbn [mbind option_bind]. cbn [cleared cl_args]. rewrite cleared_words. fold (cleared cl).
  destruct (mem _) as [m|] eqn:Em; [|by eexists _, _, _]. apply Hmem in Em as [El Eb]; [|lia].
  destruct (serialize_spec (cleared cl) m (cleared_ok _ Hcl) Eb) as (enc & -> & _ & Hlen & _).
  { cbn [cleared cl_args]. rewrite cleared_words. lia. }
  cbn [mbind option_bind]. edestruct (Hput c1) as (c' & ok & -> & H2); [apply H1|apply H1| |].
  { rewrite !length_app. simpl. lia. }
  cbn [mbind option_bind fst snd]. eexists _, _, _. split; [done|]. by eapply out_only_trans.
Qed.

Lemma send_closure_out queue a cl c : closure_ok cl -> conn_ok c -> small_out bits c ->
  exists c' cl' ok, (if queue : bool then wl_closure_queue (memory_of a) cl c else wl_closure_send (has_memory a) cl c) = Some (c', cl', ok) /\ out_only bits c c'.
Proof using Hbits.
  intros Hcl Hc Hs. destruct queue; (apply send_with_out; try done).
  - intros. by apply queue_out.
  - unfold memory_of. intros n m Hn. destruct (has_memory a); [|done]. intros [= <-]. rewrite length_map, length_seq. split; [lia|].
    apply Forall_fmap, Forall_true. intros i. apply (Z.mod_pos_bound _ 256). done.
  - intros. by apply write_out.
  - intros n m Hn. destruct (has_memory a); [|done]. intros [= <-]. rewrite length_replicate. split; [lia|]. by apply Forall_replicate.
Qed.
End Sending.

(** The arguments of a closure take as many words as those it was made of. *)
Lemma marshal_words signature done args dups r : marshal_loop signature done args dups = Some (inl r) ->
  total_words r = total_words done + total_words args.
Proof.
  revert signature done dups. induction args as [|a args IH]; intros signature done dups; cbn [marshal_loop]; [intros [= ->]; simpl; lia|].
  destruct (get_next_argument signature) as [signature' d].
  assert (Hn : forall a' dups, arg_words a' = arg_words a -> marshal_loop signature' (done ++ [a']) args dups = Some (inl r) ->
    total_words r = total_words done + total_words (a :: args)).
  { intros a' dups' Ha E. apply IH in E. rewrite E. unfold total_words. rewrite foldr_app. simpl.
    assert (Hf : forall l x, foldr (fun a n => arg_words a + n) x l = foldr (fun a n => arg_words a + n) 0 l + x).
    { clear. induction l as [|y l IHl]; intros x; simpl; [lia|]. rewrite IHl. lia. }
    rewrite Hf. lia. }
  destruct d as [[[] nullable]|], a as [i|u|f|s|[o|]|id|l|fd]; try done; try (by apply Hn).
  all: repeat match goal with |- context [if ?b then _ else _] => destruct b end; try done; try (by apply Hn).
  all: destruct dups as [|[]]; try done; by apply Hn.
Qed.

(** ** The map of objects, by what lookups give *)

Definition map_good (m : wl_map) : Prop := side m = WL_MAP_SERVER_SIDE /\ exists l T, map_ok m l /\ represents m l T.

Lemma lookup_table m l T id : map_ok m l -> represents m l T -> id_ok id -> wl_map_lookup m id = fst (default (0, 0) (T !! id)).
Proof. intros Hm HT Hid. rewrite <- (view_of_table m l T id Hm HT Hid), <- lookups_word. done. Qed.

Lemma aligned_0 : aligned 0.
Proof. by split. Qed.

Lemma insert_new_lookups h m : map_good m -> exists m' id l T, wl_map_insert_new h m 0 0 = Some (m', id) /\
  map_ok m' l /\ represents m' l T /\ side m' = WL_MAP_SERVER_SIDE /\ (forall i, id_ok i -> wl_map_lookup m' i = wl_map_lookup m i) /\
  (id = 0 \/ id_ok id /\ WL_SERVER_ID_START <= id /\ wl_map_lookup m id = 0 /\ is_Some (T !! id)).
Proof.
  intros (Hs & l & T & Hm & HT). destruct (call_simulated h m l T (InsertNew 0 0) Hm HT aligned_0) as (m' & id & l' & T' & E & Hm' & Hs' & HT' & Hstep).
  exists m', id, l', T'. split; [done|]. split; [done|]. split; [done|]. split; [congruence|]. rewrite Hs in Hstep. inversion Hstep as [f d i Hid Ho HN| | | | | | | |]; subst.
  - split; [|right; split; [done|]].
    + intros i Hi. rewrite (lookup_table m' l' _ i Hm' HT' Hi), (lookup_table m l T i Hm HT Hi).
      destruct (decide (i = id)) as [->|]; [by rewrite lookup_insert_eq, HN|by rewrite lookup_insert_ne].
    + split; [unfold own_id, WL_MAP_SERVER_SIDE, WL_MAP_CLIENT_SIDE in Ho; by destruct (Z.ltb_spec id WL_SERVER_ID_START)|].
      split; [by rewrite (lookup_table m l T id Hm HT Hid), HN|]. rewrite lookup_insert_eq. by eexists.
  - split; [|by left]. intros i Hi. by rewrite (lookup_table m' l' _ i Hm' HT' Hi), (lookup_table m l T' i Hm HT Hi).
Qed.

(** An id that is in use is written without fail. *)
Lemma insert_used h m l T flags id d : map_ok m l -> represents m l T -> id_ok id -> is_Some (T !! id) ->
  exists a, wl_map_insert_at h m flags id d = Some (set_id_entries id a m, None).
Proof.
  intros Hm HT Hid HU. destruct (in_use m l T HT id Hid HU) as (H1 & H2 & _). unfold wl_map_insert_at.
  replace (id_index id >? WL_MAP_MAX_OBJECTS) with false by lia. replace (arr_count _ <? id_index id) with false by lia.
  replace (arr_count _ =? id_index id) with false by lia. destruct (poke_put _ _ (map_entry_set flags d) H1) as (a & -> & _). by exists a.
Qed.

Lemma insert_at_lookups h m l T id d : map_ok m l -> represents m l T -> side m = WL_MAP_SERVER_SIDE -> id_ok id -> aligned d ->
  (WL_SERVER_ID_START <= id -> is_Some (T !! id)) ->
  exists m' e, wl_map_insert_at h m 0 id d = Some (m', e) /\ map_good m' /\
    (forall i, id_ok i -> wl_map_lookup m' i = if bool_decide (e = None /\ i = id) then d else wl_map_lookup m i) /\
    (wl_map_lookup m id <> 0 -> e = None).
Proof.
  intros Hm HT Hs Hid Hd Hown. destruct (call_simulated h m l T (InsertAt 0 id d) Hm HT) as (m' & r & l' & T' & E & Hm' & Hs' & HT' & Hstep).
  { split; [done|]. split; [done|]. intros Ho. apply Hown. rewrite Hs in Ho. unfold own_id, WL_MAP_SERVER_SIDE, WL_MAP_CLIENT_SIDE in Ho.
    by destruct (Z.ltb_spec id WL_SERVER_ID_START). }
  cbn [run_call] in E. destruct (wl_map_insert_at h m 0 id d) as [[m2 e]|] eqn:Ei; [|done]. injection E as -> Er. exists m', e. split; [done|].
  split; [split; [congruence|by exists l', T']|]. split.
  - intros i Hi. rewrite (lookup_table m' l' T' i Hm' HT' Hi), (lookup_table m l T i Hm HT Hi).
    inversion Hstep; subst; destruct e; try done.
    rewrite bool_decide_decide. destruct (decide _) as [[_ ->]|Hn]; [by rewrite lookup_insert_eq|]. rewrite lookup_insert_ne; [done|]. naive_solver.
  - intros Hne. rewrite (lookup_table m l T id Hm HT Hid) in Hne. destruct (T !! id) as [x|] eqn:Ex; [|done].
    destruct (insert_used h m l T 0 id d Hm HT Hid) as (a & Ea); [by rewrite Ex|]. rewrite Ei in Ea. congruence.
Qed.

Lemma remove_lookups m id : map_good m -> id_ok id -> WL_SERVER_ID_START <= id -> wl_map_lookup m id <> 0 ->
  exists m', wl_map_remove m id = Some m' /\ map_good m' /\ (forall i, id_ok i -> wl_map_lookup m' i = if i =? id then 0 else wl_map_lookup m i).
Proof.
  intros (Hs & l & T & Hm & HT) Hid Hge Hne. rewrite (lookup_table m l T id Hm HT Hid) in Hne.
  assert (Ho : own_id (side m) id = true) by (unfold own_id; rewrite Hs; by destruct (Z.ltb_spec id WL_SERVER_ID_START); [lia|]).
  destruct (call_simulated (Allocator true 0) m l T (Remove id) Hm HT) as (m' & r & l' & T' & E & Hm' & Hs' & HT' & Hstep).
  { split; [done|]. intros _. destruct (T !! id); [by eexists|done]. }
  cbn [run_call] in E. apply fmap_Some in E as (m2 & Em & [= -> ->]). exists m2. split; [done|]. split; [split; [congruence|by exists l', T']|].
  intros i Hi. rewrite (lookup_table _ _ _ i Hm' HT' Hi), (lookup_table m l T i Hm HT Hi). inversion Hstep; subst; [|congruence].
  destruct (Z.eqb_spec i id) as [->|]; [by rewrite lookup_delete_eq|by rewrite lookup_delete_ne].
Qed.

(** ** Well-formed clients *)

Section Clients.
Context `{Protocol} (bits : Z) (Hbits : limit_range bits).

(** The table of objects and the resources of the client name each other. *)
Record client_ok (c : wl_client) : Prop := {
  cok_conn : conn_ok (connection c);
  cok_small : small_out bits (connection c);
  cok_small_in : small bits (conn_in (connection c)) /\ small bits (fds_in (connection c));
  cok_bytes : Forall byte (contents (conn_in (connection c)));
  cok_map : map_good (objects c);
  cok_live : forall id, id_ok id -> wl_map_lookup (objects c) id <> 0 ->
    exists res, resources c !! wl_map_lookup (objects c) id = Some res /\ res_client res = client_addr c /\ obj_id (res_object res) = id;
  cok_named : forall r res, resources c !! r = Some res -> res_client res = client_addr c ->
    0 < obj_id (res_object res) < 2 ^ 32 /\ wl_map_lookup (objects c) (obj_id (res_object res)) = r;
  cok_addr : forall r res, resources c !! r = Some res -> aligned r /\ r <> 0;
  cok_display : exists r res, display_resource c = Some r /\ resources c !! r = Some res /\ res_client res = client_addr c /\
    obj_interface (res_object res) = wl_display_interface }.

(** Only the queues to the socket, the answers of the allocator and the error change. *)
Record sends_only (c c' : wl_client) : Prop := {
  so_out : out_only bits (connection c) (connection c');
  so_addr : client_addr c' = client_addr c;
  so_display : display_resource c' = display_resource c;
  so_objects : objects c' = objects c;
  so_resources : resources c' = resources c;
  so_served : served c' = served c;
  so_destroyed : destroyed c' = destroyed c }.

Lemma sends_ok c c' : sends_only c c' -> client_ok c -> client_ok c'.
Proof.
  intros [[O1 O2 O3 O4 O5] E1 E2 E3 E4 _ _] [H1 H2 H0 H3 H4 H5 H6 H7 H8]. split; rewrite ?E1, ?E2, ?E3, ?E4, ?O3, ?O4; done.
Qed.

(** Events can be sent, and errors. *)
Record can_send (c : wl_client) : Prop := {
  cs_conn : conn_ok (connection c);
  cs_small : small_out bits (connection c);
  cs_display : exists r res, display_resource c = Some r /\ resources c !! r = Some res /\ 0 < obj_id (res_object res) < 2 ^ 32 /\
    obj_interface (res_object res) = wl_display_interface }.

Lemma ok_can_send c : client_ok c -> can_send c.
Proof.
  intros Hc. destruct (cok_display c Hc) as (r & res & E1 & E2 & E3 & E4). split; [apply Hc..|]. exists r, res. split; [done|]. split; [done|].
  split; [|done]. by apply (cok_named c Hc r).
Qed.

Lemma sends_refl c : can_send c -> sends_only c c.
Proof. intros Hc. split; try done. apply out_only_refl; apply Hc. Qed.

Lemma sends_trans c1 c2 c3 : sends_only c1 c2 -> sends_only c2 c3 -> sends_only c1 c3.
Proof. intros [] []. split; try congruence. by eapply out_only_trans. Qed.

(** An event that may be sent: its resource is there, its arguments fit its signature, and its
    length fits 32 bits. *)
Record event_fits (c : wl_client) (r opcode : Z) (args : list event_argument) (res : wl_resource) (message : wl_message) (args' : list wl_argument) : Prop := {
  ev_at : resources c !! r = Some res;
  ev_id : 0 <= obj_id (res_object res) < 2 ^ 32;
  ev_opcode : 0 <= opcode < 65536;
  ev_event : events (obj_interface (res_object res)) !! Z.to_nat opcode = Some message;
  ev_pointers : Forall (fun a => match a with Val (ArgO _) => False | _ => True end) args;
  ev_deref : mapM (deref_arg (resources c)) args = Some args';
  ev_typed : Forall2 given_ok (arguments (msg_signature message)) (take (length (arguments (msg_signature message))) args');
  ev_size : 4 * (total_words (take (length (arguments (msg_signature message))) args') + 2) < 2 ^ 32 }.
Definition event_ok (c : wl_client) (r opcode : Z) (args : list event_argument) : Prop :=
  exists res message args', event_fits c r opcode args res message args'.

(** The check of the objects follows only pointers to resources. *)
Lemma verify_total rs client ds signature args args' : arguments signature = ds ->
  Forall (fun a => match a with Val (ArgO _) => False | _ => True end) args -> Forall2 (fun a a' => deref_arg rs a = Some a') args args' ->
  Forall2 given_ok ds (take (length ds) args') -> exists ok, verify_loop rs client (length ds) signature args = Some ok.
Proof.
  intros E Hp Hd. revert ds signature E Hp. induction Hd as [|a a' args args' Ha Hd IH]; intros ds signature E Hp Hg.
  { rewrite take_nil in Hg. apply Forall2_nil_inv_r in Hg as ->. by exists true. }
  destruct ds as [|d ds]; [by exists true|]. simpl in Hg. apply Forall2_cons in Hg as [Hga Hg]. apply Forall_cons in Hp as [Hpa Hp].
  cbn [verify_loop length]. destruct (next_argument_spec _ _ _ _ E) as (signature' & En & Es). unfold get_next_argument. rewrite En.
  destruct (IH ds signature' Es Hp Hg) as [ok Hok].
  assert (Hobj : exists ok, match a with
    | Res None => verify_loop rs client (length ds) signature' args
    | Res (Some r) => rs !! r ≫= fun res => if negb (res_client res =? client) then Some false else verify_loop rs client (length ds) signature' args
    | Val _ => if fst d is WL_ARG_OBJECT then None else if fst d is WL_ARG_NEW_ID then None else verify_loop rs client (length ds) signature' args
    end = Some ok).
  { destruct a as [[r|]|v]; [|by exists ok|].
    - simpl in Ha. destruct (rs !! r) as [res|]; [|done]. cbn [mbind option_bind]. destruct (negb _); [by exists false|by exists ok].
    - simpl in Ha. injection Ha as <-. destruct d as [[] ?], v; try done; by exists ok. }
  destruct d as [[] nullable]; try (by exists ok); destruct a as [[r|]|v]; exact Hobj.
Qed.

Lemma handle_array_sends queue r opcode args dups c : can_send c -> event_ok c r opcode args ->
  exists c', handle_array queue r opcode args dups c = Some c' /\ sends_only c c'.
Proof using Hbits.
  intros Hc (res & message & args' & [E1 E2 E3 E4 E5 E6 E7 E8]). pose proof (sends_refl c Hc) as [S1 S2 S3 S4 S5 S6 S7]. unfold handle_array.
  rewrite E1. cbn [mbind option_bind]. destruct (error c); [exists c; split; [done|by apply sends_refl]|]. rewrite E4. cbn [mbind option_bind].
  destruct (verify_total (resources c) (client_addr c) _ (msg_signature message) args args' eq_refl E5) as [ok Hok];
    [by apply mapM_Some|done|]. unfold verify_objects. rewrite <- (count_arguments false). fold arguments. rewrite Hok. cbn [mbind option_bind].
  destruct ok; cbn [negb]; [|eexists; split; [done|by split]]. rewrite E6. cbn [mbind option_bind]. cbv zeta.
  destruct (marshal_spec (has_memory (malloc c)) dups (obj_id (res_object res)) opcode args' message E7) as (m & used & rest & Em & _ & Hm).
  rewrite Em. cbn [mbind option_bind]. destruct m as [cl|[e fds]].
  - destruct Hm as (M1 & _ & M3 & M4 & M5 & M6).
    assert (Hcl : closure_ok cl).
    { split; rewrite ?M3, ?M4, ?M5; try done. revert Em. unfold wl_closure_marshal, wl_closure_init. destruct (_ >? _); [done|].
      destruct (negb _); [done|]. cbn [cl_args]. set (n := length (wl_closure_clear_fds _ _)).
      destruct (marshal_loop _ _ _ _) as [[r'|[? ?]]|] eqn:El; [|done..]. intros [= <-]. cbn [cl_args]. apply marshal_words in El. rewrite El.
      assert (Hn : n = length (arguments (msg_signature message))).
      { unfold n. destruct (clear_given _ _ _ eq_refl E7) as [C1 _]. rewrite <- (count_arguments false). fold arguments.
        symmetry. exact (Forall2_length _ _ _ C1). }
      rewrite Hn. simpl. lia. }
    destruct (send_closure_out bits Hbits queue (malloc (allocated c)) cl (connection (allocated (allocated c))) Hcl) as (conn & cl' & ok & -> & Ho);
      [apply Hc..|]. cbn [mbind option_bind]. eexists. split; [done|]. split; try done. by apply out_only_closed.
  - eexists. split; [done|]. split; try done. by apply out_only_closed, out_only_refl; apply Hc.
Qed.

(** *** Errors *)

Lemma c_string_ok l : Forall byte l -> Forall (fun b => 0 < b < 256) (c_string l) /\ (length (c_string l) <= length l)%nat.
Proof.
  unfold byte. induction 1 as [|b l Hb Hl [IH1 IH2]]; [done|]. cbn [c_string]. destruct (Z.eqb_spec b 0); [split; [done|simpl; lia]|].
  split; [constructor; [lia|done]|simpl; lia].
Qed.

Lemma codes_bytes l : Forall byte (codes l).
Proof. unfold codes, byte. apply Forall_fmap, Forall_true. intros a. simpl. pose proof (N_ascii_bounded a). lia. Qed.

Lemma decimal_bytes z : Forall byte (decimal z).
Proof.
  assert (Hd : forall fuel z, Forall byte (digits fuel z)).
  { induction fuel as [|fuel IH]; intros x; cbn [digits]; [done|]. apply Forall_app. split; [destruct (_ <? _); [done|apply IH]|].
    constructor; [|done]. unfold byte. pose proof (Z.mod_pos_bound x 10 ltac:(done)). lia. }
  unfold decimal. destruct (_ <? _); [constructor; [done|]|]; apply Hd.
Qed.

Lemma post_error_sends r res code text c : can_send c -> resources c !! r = Some res -> 0 < obj_id (res_object res) < 2 ^ 32 ->
  0 <= code < 2 ^ 32 -> Forall byte text -> exists c', wl_resource_post_error r code text c = Some c' /\ sends_only c c' /\ error c' = true.
Proof using Hbits.
  intros Hc Hr Hid Hcode Htext. unfold wl_resource_post_error. rewrite Hr. cbn [mbind option_bind].
  destruct (error c) eqn:Ee; [exists c; split; [done|]; split; [by apply sends_refl|done]|].
  destruct (cs_display c Hc) as (d & dres & -> & Hd & Hdid & Hdi). destruct display_error_event as [types Hev].
  destruct (c_string_ok (take 127 text) (Forall_take _ _ _ Htext)) as [Ht1 Ht2]. rewrite length_take in Ht2.
  set (t := c_string (take 127 text)) in *. unfold wl_resource_post_event_array.
  destruct (handle_array_sends false d WL_DISPLAY_ERROR [Res (Some r); Val (ArgU code); Val (ArgS (Some t))] [] c Hc) as (c' & -> & Hs).
  { exists dres, (Message (String.list_ascii_of_string "ous") types), [ArgO (Some (res_object res)); ArgU code; ArgS (Some t)].
    split; try done; [lia|by rewrite Hdi|by repeat constructor|cbn [mapM deref_arg]; by rewrite Hr| |].
    - repeat constructor; try done; simpl; lia.
    - cbn -[Z.mul Z.div]. pose proof (Z.div_lt_upper_bound (Z.of_nat (length t) + 4) 4 1000). lia. }
  cbn [mbind option_bind]. eexists. split; [done|]. split; [|done]. destruct Hs. by split.
Qed.

Lemma post_display_error_sends code text c : can_send c -> 0 <= code < 2 ^ 32 -> Forall byte text ->
  exists c', post_display_error code text c = Some c' /\ sends_only c c' /\ error c' = true.
Proof using Hbits.
  intros Hc Hcode Ht. unfold post_display_error. destruct (cs_display c Hc) as (d & dres & -> & Hd & Hid & _). cbn [mbind option_bind].
  by apply (post_error_sends d dres).
Qed.

(** *** Resources *)

(** What the calls of a handler keep. *)
Record handled (c c' : wl_client) : Prop := {
  hd_ok : client_ok c';
  hd_out : out_only bits (connection c) (connection c');
  hd_addr : client_addr c' = client_addr c;
  hd_display : display_resource c' = display_resource c;
  hd_served : served c' = served c;
  hd_destroyed : destroyed c' = destroyed c }.

Lemma handled_refl c : client_ok c -> handled c c.
Proof. intros Hc. split; try done. apply out_only_refl; apply Hc. Qed.

Lemma handled_trans c1 c2 c3 : handled c1 c2 -> handled c2 c3 -> handled c1 c3.
Proof. intros [] []. split; try congruence; try done. by eapply out_only_trans. Qed.

Lemma sends_handled c c' : client_ok c -> sends_only c c' -> handled c c'.
Proof. intros Hc Hs. pose proof (sends_ok _ _ Hs Hc). destruct Hs. by split. Qed.

Lemma allocated_sends c : can_send c -> sends_only c (allocated c).
Proof. intros Hc. split; try done. apply out_only_refl; apply Hc. Qed.

(** Lookups that stay keep the client. *)
Lemma same_lookups c m : client_ok c -> map_good m -> (forall i, id_ok i -> wl_map_lookup m i = wl_map_lookup (objects c) i) ->
  client_ok (c <{ objects := m }>).
Proof.
  intros [H1 H2 H0 H3 H4 H5 H6 H7 H8] Hm Hl. split; try done; cbn.
  - intros i Hi. rewrite Hl by done. by apply H5.
  - intros r res Hr Hme. destruct (H6 r res Hr Hme) as [Hid Hlo]. split; [done|]. rewrite Hl; [done|]. unfold id_ok. lia.
Qed.

(** A new resource under an id that names nothing. *)
Lemma new_resource c m addr id interface version : client_ok c -> map_good m -> 0 < id < 2 ^ 32 -> aligned addr -> addr <> 0 ->
  resources c !! addr = None -> wl_map_lookup (objects c) id = 0 ->
  (forall i, id_ok i -> wl_map_lookup m i = if i =? id then addr else wl_map_lookup (objects c) i) ->
  client_ok (c <{ resources ::= <[addr := Resource (Object interface id) (client_addr c) version false]> }> <{ objects := m }>).
Proof.
  intros [H1 H2 H0 H3 H4 H5 H6 H7 (d & dres & D1 & D2 & D3 & D4)] Hm Hid Ha Ha0 Hfree Hzero Hl.
  split; try done; cbn -[insert].
  - intros i Hi. rewrite Hl by done. destruct (Z.eqb_spec i id) as [->|Hne]; intros Hn.
    + rewrite lookup_insert_eq. by eexists.
    + destruct (H5 i Hi Hn) as (res & E & E'). exists res. rewrite lookup_insert_ne by congruence. done.
  - intros r res. destruct (decide (r = addr)) as [->|Hne].
    + rewrite lookup_insert_eq. intros [= <-] _. cbn. split; [done|]. rewrite Hl by (unfold id_ok; lia). by rewrite Z.eqb_refl.
    + rewrite lookup_insert_ne by done. intros Hr Hme. destruct (H6 r res Hr Hme) as [Hrid Hlo]. split; [done|].
      rewrite Hl by (unfold id_ok; lia). destruct (H7 r res Hr) as [_ Hr0].
      replace (_ =? id) with false; [done|]. symmetry. apply Z.eqb_neq. congruence.
  - intros r res. destruct (decide (r = addr)) as [->|Hne]; [done|]. rewrite lookup_insert_ne by done. apply H7.
  - exists d, dres. split; [done|]. rewrite lookup_insert_ne by congruence. done.
Qed.

(** What a handler that creates a resource has to respect: memory is new, and an id that it
    gives is one of the client that names nothing yet. *)
Definition create_ok (c : wl_client) (addr id : Z) : Prop :=
  aligned addr /\ addr <> 0 /\ resources c !! addr = None /\
  (id = 0 \/ 0 < id < WL_SERVER_ID_START /\ wl_map_lookup (objects c) id = 0).

Lemma enter_resource_handled addr interface version id c l T : client_ok c -> map_ok (objects c) l -> represents (objects c) l T ->
  (WL_SERVER_ID_START <= id -> is_Some (T !! id)) -> 0 < id < 2 ^ 32 -> aligned addr -> addr <> 0 ->
  resources c !! addr = None -> wl_map_lookup (objects c) id = 0 ->
  exists c' r, enter_resource addr interface version id c = Some (c', r) /\ handled c c'.
Proof using Hbits.
  intros Hc Hm HT Hown Hid Ha Ha0 Hfree Hzero. unfold enter_resource. cbv zeta. cbn [objects allocated].
  set (c1 := c <{ resources ::= _ }>). set (a := malloc c1).
  destruct (insert_at_lookups (ma_allocator a) (objects c) l T id addr Hm HT (proj1 (cok_map c Hc))) as (m & e & E & Hgood & Hl & _);
    [unfold id_ok; lia|done|done|]. change (objects (allocated c1)) with (objects c). rewrite E. cbn [mbind option_bind].
  pose proof (new_resource c m addr id interface version Hc Hgood Hid Ha Ha0 Hfree Hzero) as Hnew.
  destruct e as [e|].
  - assert (Hlm : forall i, id_ok i -> wl_map_lookup m i = wl_map_lookup (objects c) i).
    { intros i Hi. rewrite Hl by done. by rewrite bool_decide_eq_false_2 by naive_solver. }
    pose proof (same_lookups c m Hc Hgood Hlm) as Hcm. pose proof (ok_can_send _ Hcm) as Hcan. set (c2 := (allocated c1) <{ objects := m }>).
    assert (Hback : forall c3, sends_only c2 c3 -> handled c (c3 <{ resources ::= delete addr }>)).
    { intros c3 [S1 S2 S3 S4 S5 S6 S7].
      assert (Hs : sends_only (c <{ objects := m }>) (c3 <{ resources ::= delete addr }>)).
      { split; try done. cbn -[delete]. rewrite S5. cbn -[delete insert]. by apply delete_insert_id. }
      pose proof (sends_handled _ _ Hcm Hs) as [P1 P2 P3 P4 P5 P6]. by split. }
    assert (Hcan2 : can_send c2).
    { destruct Hcan as [K1 K2 (d & dres & D1 & D2 & D3)]. split; try done. exists d, dres. split; [done|]. split; [|done]. cbn in D2. cbn -[insert].
      rewrite lookup_insert_ne by congruence. done. }
    destruct e; try (eexists _, _; split; [done|]; apply Hback, sends_refl, Hcan2).
    destruct (post_display_error_sends WL_DISPLAY_ERROR_INVALID_OBJECT (literal "invalid new id " ++ decimal (i32 id)) c2 Hcan2) as (c3 & -> & Hs & _);
      [done|apply Forall_app; split; [apply codes_bytes|apply decimal_bytes]|]. cbn [mbind option_bind]. eexists _, _. split; [done|]. by apply Hback.
  - eexists _, _. split; [done|]. destruct Hnew.
    { intros i Hi. rewrite Hl by done. destruct (Z.eqb_spec i id) as [->|]; [by rewrite bool_decide_eq_true_2|].
      by rewrite bool_decide_eq_false_2 by naive_solver. }
    split; [by split|apply out_only_refl; apply Hc|done..].
Qed.

Lemma create_handled addr interface version id c : client_ok c -> create_ok c addr id ->
  exists c' r, wl_resource_create addr interface version id c = Some (c', r) /\ handled c c'.
Proof using Hbits.
  intros Hc (Ha & Ha0 & Hfree & Hid). unfold wl_resource_create. cbv zeta. pose proof (ok_can_send c Hc) as Hcan.
  pose proof (sends_handled _ _ Hc (allocated_sends c Hcan)) as H1. pose proof (hd_ok _ _ H1) as Hc1.
  destruct (negb _); [by eexists _, _|]. destruct (Z.eqb_spec id 0) as [->|Hne].
  - pose proof (sends_handled _ _ Hc1 (allocated_sends _ (ok_can_send _ Hc1))) as H2. pose proof (hd_ok _ _ H2) as Hc2.
    destruct (insert_new_lookups (ma_allocator (malloc (allocated c))) _ (cok_map _ Hc2)) as (m & id & l & T & -> & Hm & HT & Hs & Hl & Hid').
    cbn [mbind option_bind]. assert (Hgood : map_good m) by (split; [done|by exists l, T]).
    pose proof (same_lookups _ m Hc2 Hgood Hl) as Hc3.
    assert (H3 : handled c ((allocated (allocated c)) <{ objects := m }>)) by (split; try done; apply out_only_refl; apply Hc).
    destruct (Z.eqb_spec id 0) as [->|Hne]; [by eexists _, _|]. destruct Hid' as [|(Hok & Hge & Hz & HU)]; [done|].
    destruct (enter_resource_handled addr interface version id _ l T Hc3 Hm HT (fun _ => HU)) as (c' & r & E & H4); try done.
    { unfold id_ok in Hok. lia. } { cbn. rewrite Hl by done. done. }
    exists c', r. split; [done|]. by eapply handled_trans.
  - destruct Hid as [|[Hid Hz]]; [done|]. destruct (cok_map _ Hc1) as (Hs & l & T & Hm & HT).
    destruct (enter_resource_handled addr interface version id _ l T Hc1 Hm HT) as (c' & r & E & H4); try done; [lia|unfold WL_SERVER_ID_START in *; lia|].
    exists c', r. split; [done|]. by eapply handled_trans.
Qed.

(** A resource leaves together with its id. *)
Lemma without_resource c m r res : client_ok c -> map_good m -> resources c !! r = Some res -> res_client res = client_addr c ->
  display_resource c <> Some r ->
  (forall i, id_ok i -> wl_map_lookup m i = if i =? obj_id (res_object res) then 0 else wl_map_lookup (objects c) i) ->
  client_ok (c <{ objects := m }> <{ resources ::= delete r }>).
Proof.
  intros [H1 H2 H0 H3 H4 H5 H6 H7 (d & dres & D1 & D2 & D3 & D4)] Hm Hr Hme Hnd Hl. destruct (H6 r res Hr Hme) as [Hid Hlo].
  split; try done; cbn -[delete].
  - intros i Hi. rewrite Hl by done. destruct (Z.eqb_spec i (obj_id (res_object res))); [done|]. intros Hn.
    destruct (H5 i Hi Hn) as (res' & E & E1 & E2). exists res'. rewrite lookup_delete_ne; [done|]. intros E'. rewrite <- E' in E. congruence.
  - intros r' res'. destruct (decide (r' = r)) as [->|Hne]; [by rewrite lookup_delete_eq|]. rewrite lookup_delete_ne by done. intros Hr' Hme'.
    destruct (H6 r' res' Hr' Hme') as [Hid' Hlo']. split; [done|]. rewrite Hl by (unfold id_ok; lia).
    destruct (Z.eqb_spec (obj_id (res_object res')) (obj_id (res_object res))) as [E|]; [congruence|done].
  - intros r' res'. destruct (decide (r' = r)) as [->|Hne]; [by rewrite lookup_delete_eq|]. rewrite lookup_delete_ne by done. apply H7.
  - exists d, dres. split; [done|]. rewrite lookup_delete_ne by congruence. done.
Qed.

(** The part of a destruction after the callbacks. *)
Lemma destroy_handled callbacks r res c c1 : resources c !! r = Some res -> callbacks c = Some c1 -> client_ok c1 ->
  resources c1 !! r = Some res -> res_client res = client_addr c1 -> display_resource c1 <> Some r ->
  exists c', wl_resource_destroy callbacks r c = Some c' /\ handled c1 c'.
Proof using Hbits.
  intros Hr Hcb Hc Hr1 Hme Hnd. unfold wl_resource_destroy. rewrite Hr. cbn [mbind option_bind]. cbv zeta. rewrite Hcb. cbn [mbind option_bind].
  destruct (cok_named _ Hc r res Hr1 Hme) as [Hid Hlo]. destruct (cok_addr _ Hc r res Hr1) as [_ Hr0].
  set (id := obj_id (res_object res)) in *. assert (Hidok : id_ok id) by (unfold id_ok; lia).
  assert (Hdone : forall c2 m, handled c1 c2 -> objects c2 = objects c1 -> resources c2 = resources c1 -> map_good m ->
    (forall i, id_ok i -> wl_map_lookup m i = if i =? id then 0 else wl_map_lookup (objects c1) i) ->
    handled c1 (c2 <{ objects := m }> <{ resources ::= delete r }>)).
  { intros c2 m [P1 P2 P3 P4 P5 P6] Eo Er Hgood Hl. split; try done. apply (without_resource c2 m r res); try done.
    - by rewrite Er.
    - congruence.
    - congruence.
    - by rewrite Eo. }
  destruct (Z.ltb_spec id WL_SERVER_ID_START) as [Hlt|Hge].
  - destruct (cok_display _ Hc) as (d & dres & Ed & Hd & Hdme & Hdi). rewrite Ed. destruct display_delete_id_event as [types Hev].
    destruct (cok_named _ Hc d dres Hd Hdme) as [Hdid _]. unfold wl_resource_queue_event_array.
    destruct (handle_array_sends true d WL_DISPLAY_DELETE_ID [Val (ArgU id)] [] c1 (ok_can_send _ Hc)) as (c2 & -> & Hs).
    { exists dres, (Message (String.list_ascii_of_string "u") types), [ArgU id].
      split; try done; [lia|by rewrite Hdi|by repeat constructor|]. repeat constructor; simpl; lia. }
    cbn [mbind option_bind]. cbv zeta. pose proof (sends_handled _ _ Hc Hs) as H2. pose proof (hd_ok _ _ H2) as Hc2.
    pose proof (sends_handled _ _ Hc2 (allocated_sends _ (ok_can_send _ Hc2))) as H3. pose proof (handled_trans _ _ _ H2 H3) as H13.
    destruct (cok_map _ Hc2) as (Hside & l & T & Hm & HT).
    destruct (insert_at_lookups (ma_allocator (malloc c2)) (objects c2) l T id 0 Hm HT Hside Hidok aligned_0) as (m & e & E & Hgood & Hl & He); [lia|].
    change (objects (allocated c2)) with (objects c2). rewrite E. cbn [mbind option_bind]. eexists. split; [done|].
    apply (Hdone (allocated c2)); [done|apply (so_objects _ _ Hs)|apply (so_resources _ _ Hs)|done|].
    intros i Hi. rewrite Hl by done. rewrite He by (rewrite (so_objects _ _ Hs); congruence). rewrite (so_objects _ _ Hs).
    destruct (Z.eqb_spec i id) as [->|]; [by rewrite bool_decide_eq_true_2|]. by rewrite bool_decide_eq_false_2 by naive_solver.
  - destruct (remove_lookups (objects c1) id (cok_map _ Hc) Hidok Hge) as (m & -> & Hgood & Hl); [congruence|]. cbn [mbind option_bind].
    eexists. split; [done|]. apply (Hdone c1); [by apply handled_refl|done..].
Qed.

(** *** Handlers *)

Definition allowed_list (allowed : api_call -> wl_client -> Prop) (calls : list api_call) (c : wl_client) : Prop :=
  foldr (fun call k c => allowed call c /\ forall c', run_api call c = Some c' -> k c') (fun _ => True) calls c.

(** What the calls of a handler have to respect: resources that they name are there, and the
    resource of the display stays. *)
Fixpoint allowed (call : api_call) (c : wl_client) : Prop :=
  match call with
  | CreateResource addr interface version id => create_ok c addr id
  | DestroyResource r callbacks => display_resource c <> Some r /\ allowed_list allowed callbacks c /\
      exists res, resources c !! r = Some res /\ res_client res = client_addr c /\
        forall c', run_apis callbacks c = Some c' -> resources c' !! r = Some res
  | SendEvent queue r opcode args dups => event_ok c r opcode args
  | SendError r code text => 0 <= code < 2 ^ 32 /\ Forall byte text /\
      exists res, resources c !! r = Some res /\ res_client res = client_addr c
  end.

Lemma run_list_handled calls c :
  Forall (fun call => forall c, client_ok c -> allowed call c -> exists c', run_api call c = Some c' /\ handled c c') calls ->
  client_ok c -> allowed_list allowed calls c -> exists c', run_apis calls c = Some c' /\ handled c c'.
Proof.
  intros Hall. revert c. induction Hall as [|call calls Hcall Hall IH]; intros c Hc Ha.
  { exists c. split; [done|]. by apply handled_refl. }
  destruct Ha as [Ha1 Ha2]. destruct (Hcall c Hc Ha1) as (c1 & E1 & H1). destruct (IH c1 (hd_ok _ _ H1) (Ha2 c1 E1)) as (c' & E2 & H2).
  exists c'. split; [|by eapply handled_trans]. unfold run_apis, run_list in *. simpl. rewrite E1. exact E2.
Qed.

Lemma run_api_handled call : forall c, client_ok c -> allowed call c -> exists c', run_api call c = Some c' /\ handled c c'.
Proof using Hbits.
  revert call. fix IH 1. intros call c Hc. destruct call as [addr interface version id|r callbacks|queue r opcode args dups|r code text].
  - intros Ha. destruct (create_handled addr interface version id c Hc Ha) as (c' & o & E & H1). exists c'. cbn [run_api]. by rewrite E.
  - assert (Hall : Forall (fun call => forall c, client_ok c -> allowed call c -> exists c', run_api call c = Some c' /\ handled c c') callbacks).
    { clear -IH. induction callbacks as [|call callbacks IHc]; constructor; [apply IH|exact IHc]. }
    clear IH. intros (Hnd & Hcb & res & Hr & Hme & Hstay). destruct (run_list_handled callbacks c Hall Hc Hcb) as (c1 & E1 & H1).
    destruct (destroy_handled (run_list run_api callbacks) r res c c1 Hr E1 (hd_ok _ _ H1) (Hstay c1 E1)) as (c' & E & H2).
    { by rewrite (hd_addr _ _ H1). } { by rewrite (hd_display _ _ H1). }
    exists c'. split; [done|]. by eapply handled_trans.
  - clear IH. intros Ha. destruct (handle_array_sends queue r opcode args dups c (ok_can_send c Hc) Ha) as (c' & E & Hs).
    exists c'. split; [done|]. by apply sends_handled.
  - clear IH. intros (Hcode & Ht & res & Hr & Hme).
    destruct (post_error_sends r res code text c (ok_can_send c Hc) Hr) as (c' & E & Hs & _); [by apply (cok_named c Hc r)|done|done|].
    exists c'. split; [done|]. by apply sends_handled.
Qed.

Lemma run_apis_handled calls c : client_ok c -> allowed_list allowed calls c -> exists c', run_apis calls c = Some c' /\ handled c c'.
Proof using Hbits. apply run_list_handled. apply Forall_true. apply run_api_handled. Qed.
End Clients.
