(* ===== verification/Server.v ===== *)
(** * Requests of a Wayland client

    Models wl_client_connection_data of src/libs/wayland/src/wayland-server.c: the server reads
    what a client sent, and hands each whole request to the handler of its object.  Handlers are
    the compositor's; what they do is calls to what [Events] models.  The destruction of a client
    is an entry of the state. *)

From Stdlib Require Import Ascii.
From S2P Require Import Prelude RingBuffer ObjectMap Connection Marshal RoundTrip Delivery Events.

Definition WL_MAX_MESSAGE_SIZE : Z := 4096.
Definition WL_MAP_ENTRY_LEGACY : Z := 1.
Definition WL_EVENT_READABLE : Z := 0x01.
Definition WL_EVENT_WRITABLE : Z := 0x02.
Definition WL_EVENT_HANGUP : Z := 0x04.
Definition WL_EVENT_ERROR : Z := 0x08.

(** [atoi], for a text that starts with its digits. *)
Fixpoint atoi (acc : Z) (l : list ascii) : Z :=
  match l with
  | [] => acc
  | c :: l => let n := Z.of_N (N_of_ascii c) in if (48 <=? n) && (n <=? 57) then atoi (10 * acc + (n - 48)) l else acc
  end.

Definition wl_message_get_since (message : wl_message) : Z :=
  let since := atoi 0 (msg_signature message) in if since =? 0 then 1 else since.

(** The object at an address; there is none at an address that is not a resource. *)
Definition object_at (c : wl_client) (r : Z) : wl_object := from_option res_object (Object (Interface 0 []) (-1)) (resources c !! r).

Definition wl_client_destroy (c : wl_client) : wl_client := c <{ destroyed := true }>.

Section Server.
Context `{Protocol}.
(** What the handler of a resource does with a request. *)
Context (handler : wl_client -> Z -> wl_closure -> list api_call).

(** wl_closure_invoke and wl_closure_dispatch: the descriptors are the handler's then. Every
    request has a handler (a null one aborts the program), and nothing is logged. *)
Definition invoke (r : Z) (res : wl_resource) (legacy : bool) (cl : wl_closure) (c : wl_client) : option wl_client :=
  let c := c <{ served ::= fun l => l ++ [Request res legacy cl] }> in
  run_apis (handler c r cl) c ≫= fun c =>
  let cl := Closure (cl_message cl) (cl_opcode cl) (cl_sender_id cl) (wl_closure_clear_fds (msg_signature (cl_message cl)) (cl_args cl)) in
  Some (c <{ connection ::= log_closed (wl_closure_destroy cl) }>).

Definition name_of (res : wl_resource) : list Z :=
  codes (iface_name (obj_interface (res_object res))) ++ literal "#" ++ decimal (obj_id (res_object res)).

(** Reads a request of [size] bytes and looks up its objects; [None] when it is refused: an error
    was posted, and what was read of it is destroyed. *)
Definition read_request (name : list Z) (size : Z) (message : wl_message) (c : wl_client) : option (wl_client * option wl_closure) :=
  let refused c : option (wl_client * option wl_closure) := c ≫= fun c => Some (c, None) in
  let a := malloc c in let c := allocated c in
  let a' := malloc c in let c := allocated c in
  wl_connection_demarshal (ma_allocator a') (has_memory a) (connection c) size (objects c) message ≫= fun '(conn, m, result) =>
  let c := c <{ connection := conn }> <{ objects := m }> in
  let invalid c := post_display_error WL_DISPLAY_ERROR_INVALID_METHOD (literal "invalid arguments for " ++ name) c in
  match result with
  | inr CloseENOMEM => refused (wl_client_post_no_memory c)
  | inr _ => refused (invalid c)
  | inl cl =>
      wl_closure_lookup_objects (object_at c) cl (objects c) ≫= fun result =>
      match result with
      | inr _ => refused (invalid c ≫= fun c => Some (c <{ connection ::= log_closed (wl_closure_destroy cl) }>))
      | inl cl => Some (c, Some cl)
      end
  end.

(** One request of [size] bytes for the object [id]: whether to go on, and the client. *)
Definition dispatch (id opcode size : Z) (c : wl_client) : option (bool * wl_client) :=
  let stop c : option (bool * wl_client) := c ≫= fun c => Some (false, c) in
  let r := wl_map_lookup (objects c) id in
  let legacy := has_flag (wl_map_lookup_flags (objects c) id) WL_MAP_ENTRY_LEGACY in
  if r =? 0 then stop (post_display_error WL_DISPLAY_ERROR_INVALID_OBJECT (literal "invalid object " ++ decimal id) c)
  else resources c !! r ≫= fun res =>
    let interface := obj_interface (res_object res) in
    if opcode >=? Z.of_nat (length (methods interface))
    then stop (post_display_error WL_DISPLAY_ERROR_INVALID_METHOD (literal "invalid method " ++ decimal opcode ++ literal ", object " ++ name_of res) c)
    else methods interface !! Z.to_nat opcode ≫= fun message =>
      let since := wl_message_get_since message in
      let name := name_of res ++ literal "." ++ codes (method_name interface opcode) in
      if negb legacy && (res_version res >? 0) && (res_version res <? since)
      then stop (post_display_error WL_DISPLAY_ERROR_INVALID_METHOD (literal "invalid version for " ++ name ++ literal " (" ++
        decimal (res_version res) ++ literal ", need at least " ++ decimal since ++ literal ")") c)
      else read_request name size message c ≫= fun '(c, request) =>
        match request with
        | None => Some (false, c)
        | Some cl => invoke r res legacy cl c ≫= fun c => Some (negb (error c), c)
        end.

(** [len] is how many bytes there are to read. *)
Fixpoint dispatch_loop (fuel : nat) (len : Z) (c : wl_client) : option wl_client :=
  match fuel with
  | O => None
  | S fuel =>
      if negb ((0 <=? len) && (8 <=? len)) then Some c
      else wl_connection_copy (connection c) 8 ≫= fun p =>
        let id := of_le32 (take 4 p) in
        let word := of_le32 (drop 4 p) in
        let opcode := Z.land word 0xffff in
        let size := Z.shiftr word 16 in
        if size >? WL_MAX_MESSAGE_SIZE
        then post_display_error WL_DISPLAY_ERROR_INVALID_METHOD (literal "message length " ++ decimal size ++ literal " exceeds " ++ decimal WL_MAX_MESSAGE_SIZE) c
        else if len <? size then Some c
        else dispatch id opcode size c ≫= fun '(more, c) =>
          if more : bool then dispatch_loop fuel (wl_connection_pending_input (connection c)) c else Some c
  end.

Definition is_eagain (e : option errno) : bool := match e with Some EAGAIN => true | _ => false end.

(** Sends what is queued: whether the client goes on. *)
Definition flush_output (mask : Z) (c : wl_client) : option (bool * wl_client) :=
  if has_flag mask WL_EVENT_WRITABLE
  then wl_connection_flush (connection c) ≫= fun '(conn, (len, e)) =>
    let c := c <{ connection := conn }> in
    if (len <? 0) && negb (is_eagain e) then Some (false, wl_client_destroy c)
    else Some (true, if len >=? 0 then c <{ source := WL_EVENT_READABLE }> else c)
  else Some (true, c).

(** Reads what there is: how many bytes there are, unless the client is destroyed. *)
Definition receive_input (mask : Z) (c : wl_client) : option (option Z * wl_client) :=
  flush_output mask c ≫= fun '(go, c) =>
  if negb go then Some (None, c)
  else if has_flag mask WL_EVENT_READABLE
  then wl_connection_read (connection c) ≫= fun '(conn, (len, e)) =>
    let c := c <{ connection := conn }> in
    if (len =? 0) || ((len <? 0) && negb (is_eagain e)) then Some (None, wl_client_destroy c) else Some (Some len, c)
  else Some (Some 0, c).

Definition wl_client_connection_data (fuel : nat) (mask : Z) (c : wl_client) : option wl_client :=
  if has_flag mask WL_EVENT_HANGUP then Some (wl_client_destroy c)
  else if has_flag mask WL_EVENT_ERROR then Some (wl_client_destroy c)
  else receive_input mask c ≫= fun '(len, c) =>
    match len with
    | None => Some c
    | Some len => dispatch_loop fuel len c ≫= fun c => Some (if error c then wl_client_destroy c else c)
    end.
End Server.

(** ** Reading a request keeps what the table names *)

Record keeps (bits : Z) (r r' : reader) : Prop := {
  kp_lookup : forall i, id_ok i -> wl_map_lookup (rd_objects r') i = wl_map_lookup (rd_objects r) i;
  kp_small : small bits (fds_in (rd_conn r)) -> small bits (fds_in (rd_conn r')) }.

Lemma reserve_lookups h m l T id m' e : map_ok m l -> represents m l T -> id_ok id -> wl_map_reserve_new h m id = Some (m', e) ->
  forall i, id_ok i -> wl_map_lookup m' i = wl_map_lookup m i.
Proof.
  intros Hm HT Hid E i Hi. destruct (call_simulated h m l T (ReserveNew id) Hm HT Hid) as (m2 & r & l' & T' & E2 & Hm' & _ & HT' & Hstep).
  cbn [run_call] in E2. rewrite E in E2. injection E2 as <- _.
  rewrite (lookup_table _ _ _ i Hm' HT' Hi), (lookup_table _ _ _ i Hm HT Hi). inversion Hstep; subst; [|done..].
  destruct (decide (i = id)) as [->|]; [|by rewrite lookup_insert_ne]. rewrite lookup_insert_eq. by match goal with HN : T !! id = None |- _ => rewrite HN end.
Qed.

Ltac kept := intros [= <- _]; by split.

Lemma argument_keeps bits h t nullable r r' a : reader_ok r -> demarshal_argument h t nullable r = Some (r', a) -> keeps bits r r'.
Proof.
  intros Hr. unfold demarshal_argument. cbv zeta. destruct (_ && _) eqn:E0; [kept|].
  assert (Hword : t <> WL_ARG_FD -> exists w p, read_word (rd_p r) = Some (w, p) /\ 0 <= w < 2 ^ 32).
  { intros Ht. rewrite bool_decide_eq_false_2 in E0 by done. destruct (read_word_spec _ (ro_words r Hr)) as (w & p & E & Hw & _); [|eauto].
    intros E. by rewrite E in E0. }
  clear E0. destruct t; try (destruct (Hword ltac:(done)) as (w & p & -> & Hw); cbn [mbind option_bind]); try (kept).
  - destruct (_ && _); [kept|]. destruct (_ =? 0); [kept|]. destruct (_ <? _); [kept|].
    destruct (p !! _); [|done]. cbn [mbind option_bind]. destruct (negb _); [kept|]. destruct (strlen p); [|done].
    cbn [mbind option_bind]. destruct (negb _); kept.
  - destruct (_ && _); kept.
  - destruct (w =? 0); [kept|]. destruct (ro_map r Hr) as (l & T & Hm & HT). cbn [rd_objects].
    destruct (wl_map_reserve_new _ _ w) as [[m e]|] eqn:E; [|done]. intros [= <- _]. split; [|done].
    exact (reserve_lookups h _ l T w m e Hm HT Hw E).
  - destruct (_ <? _); [kept|]. destruct (load _ _ _); [|done]. kept.
  - destruct (_ =? _); [kept|]. destruct (ring_buffer_copy _ _); [|done]. kept.
Qed.

Lemma loop_keeps bits h count signature done r r' res : reader_ok r -> demarshal_loop h count signature done r = Some (r', res) -> keeps bits r r'.
Proof.
  revert signature done r. induction count as [|count IH]; intros signature done r Hr; cbn [demarshal_loop]; [intros [= <- _]; by split|].
  destruct (get_next_argument signature) as [signature' [[t nullable]|]]; [|done].
  destruct (demarshal_argument_spec h (t, nullable) r Hr) as (r1 & a & taken & E & Hreads & _). cbn [fst snd] in E. rewrite E. cbn [mbind option_bind].
  apply (argument_keeps bits) in E; [|done]. destruct a as [a|e]; [|by intros [= <- _]].
  intros E'. apply IH in E'; [|apply Hreads]. destruct E, E'. split; [|auto]. intros i Hi. rewrite kp_lookup1 by done. by apply kp_lookup0.
Qed.

(** The ids of new objects name nothing yet. *)
Definition fresh_ids (m : wl_map) : list (wl_arg_type * bool) -> list wl_argument -> Prop :=
  Forall2 (fun d a => fst d = WL_ARG_NEW_ID -> forall id, a = ArgN id -> id_ok id /\ wl_map_lookup m id = 0).

Lemma argument_fresh h t nullable r r' a : reader_ok r -> demarshal_argument h t nullable r = Some (r', inl a) -> t = WL_ARG_NEW_ID ->
  forall id, a = ArgN id -> id_ok id /\ wl_map_lookup (rd_objects r') id = 0.
Proof.
  intros Hr. unfold demarshal_argument. cbv zeta. destruct (_ && _) eqn:E0; [done|]. intros E -> id ->. revert E.
  destruct (read_word_spec _ (ro_words r Hr)) as (w & p & -> & Hw & _); [intros E; by rewrite E in E0|]. clear E0. cbn [mbind option_bind].
  destruct (w =? 0); [done|]. cbn [rd_objects]. destruct (wl_map_reserve_new h _ w) as [[m [[]|]]|] eqn:Er; try done. intros [= <- <-].
  split; [done|]. cbn. destruct (ro_map r Hr) as (l & T & Hm & HT).
  destruct (call_simulated h _ l T (ReserveNew w) Hm HT Hw) as (m2 & k & l' & T' & E2 & Hm' & _ & HT' & Hstep).
  cbn [run_call rd_objects] in E2. change (rd_objects (r <{ rd_p := p }>)) with (rd_objects r) in Er. rewrite Er in E2. injection E2 as <- <-.
  rewrite (lookup_table _ _ _ w Hm' HT' Hw). inversion Hstep; subst; [by rewrite lookup_insert_eq|].
  match goal with HN : _ !! w = Some _ |- _ => by rewrite HN end.
Qed.

Lemma fresh_same m m' ds args : (forall i, id_ok i -> wl_map_lookup m' i = wl_map_lookup m i) -> fresh_ids m ds args -> fresh_ids m' ds args.
Proof.
  intros Hm Hf. eapply Forall2_impl; [done|]. intros d a Ha Hd id Hid. destruct (Ha Hd id Hid) as [Hok Hz]. split; [done|]. by rewrite Hm.
Qed.

Lemma loop_fresh h ds ds0 signature done r r' args : arguments signature = ds -> reader_ok r -> fresh_ids (rd_objects r) ds0 done ->
  demarshal_loop h (length ds) signature done r = Some (r', inl args) -> fresh_ids (rd_objects r') (ds0 ++ ds) args.
Proof.
  intros E. revert ds0 signature done r E. induction ds as [|[t nullable] ds IH]; intros ds0 signature done r E Hr Hd; cbn [demarshal_loop length].
  { intros [= <- <-]. by rewrite app_nil_r. }
  destruct (next_argument_spec _ _ _ _ E) as (signature' & En & Es). unfold get_next_argument. rewrite En.
  destruct (demarshal_argument_spec h (t, nullable) r Hr) as (r1 & a & taken & Ea & Hreads & _). cbn [fst snd] in Ea. rewrite Ea. cbn [mbind option_bind].
  destruct a as [a|e]; [|done]. intros El. pose proof (argument_keeps 0 _ _ _ _ _ _ Hr Ea) as [K1 _].
  apply (IH (ds0 ++ [(t, nullable)])) in El; [by rewrite <- app_assoc in El|done|apply Hreads|].
  apply Forall2_app; [by eapply fresh_same|]. constructor; [|constructor]. intros Ht. by apply (argument_fresh h t nullable r).
Qed.

Lemma loop_connection h count signature done r r' res : reader_ok r -> demarshal_loop h count signature done r = Some (r', res) ->
  conn_in (rd_conn r') = conn_in (rd_conn r) /\ conn_out (rd_conn r') = conn_out (rd_conn r) /\ fds_out (rd_conn r') = fds_out (rd_conn r) /\
  os (rd_conn r') = os (rd_conn r).
Proof.
  revert signature done r. induction count as [|count IH]; intros signature done r Hr; cbn [demarshal_loop]; [by intros [= <- _]|].
  destruct (get_next_argument signature) as [signature' [[t nullable]|]]; [|done].
  destruct (demarshal_argument_spec h (t, nullable) r Hr) as (r1 & a & taken & E & [R1 R2 R3 (R4 & R5 & R6) R7] & _). cbn [fst snd] in E. rewrite E.
  cbn [mbind option_bind]. destruct a as [a|e]; [|by intros [= <- _]]. intros E'. apply IH in E' as (I1 & I2 & I3 & I4); [|done]. split_and!; congruence.
Qed.

(** What of the connection stays when a request is read. *)
Record read_only (bits : Z) (c c' : wl_connection) : Prop := {
  ro_out : conn_out c' = conn_out c /\ fds_out c' = fds_out c;
  ro_recvs : recvs (os c') = recvs (os c);
  ro_small : small bits (conn_in c) -> small bits (fds_in c) -> small bits (conn_in c') /\ small bits (fds_in c') }.

Lemma read_words_8 (p : list Z) n : (8 <= n <= length p)%nat -> exists p', read_word (take (4 * (n / 4)) p) = Some (of_le32 (take 4 p), p') /\
  exists p'', read_word p' = Some (of_le32 (take 4 (drop 4 p)), p'').
Proof.
  intros Hn. assert (exists k, (4 * (n / 4) = 8 + k)%nat) as [k ->].
  { pose proof (Nat.Div0.div_le_mono 8 n 4 ltac:(lia)) as Hd. change (8 / 4)%nat with 2%nat in Hd. exists (4 * (n / 4) - 8)%nat. lia. }
  destruct p as [|a [|b [|c [|d [|e [|f [|g [|h p]]]]]]]]; simpl in Hn; try lia. simpl. eexists. split; [done|]. by eexists.
Qed.

Lemma init_length ok message cl : wl_closure_init ok message None = inl cl -> length (cl_args cl) = length (arguments (msg_signature message)).
Proof.
  unfold wl_closure_init. destruct (_ >? _); [done|]. destruct (negb _); [done|]. intros [= <-]. cbn [cl_args].
  rewrite <- (count_arguments false). symmetry. apply (Forall2_length fd_typed), cleared_typed. done.
Qed.

Lemma demarshal_rest bits h ok c size m message c' m' res : conn_ok c -> Forall byte (contents (conn_in c)) -> map_good m ->
  0 <= size <= ring_buffer_size (conn_in c) -> wl_connection_demarshal h ok c size m message = Some (c', m', res) ->
  read_only bits c c' /\ (forall i, id_ok i -> wl_map_lookup m' i = wl_map_lookup m i) /\
  match res with
  | inl cl => 8 <= size /\ cl_sender_id cl = of_le32 (take 4 (contents (conn_in c))) /\
      cl_opcode cl = Z.land (of_le32 (take 4 (drop 4 (contents (conn_in c))))) 0xffff /\
      fresh_ids m' (arguments (msg_signature message)) (cl_args cl)
  | inr _ => True
  end.
Proof.
  intros Hc Hb (Hside & l & T & Hm & HT) Hs. unfold wl_connection_demarshal.
  assert (Hfail : forall e, Some (wl_connection_consume c size, m, inr e) = Some (c', m', res) ->
    read_only bits c c' /\ (forall i, id_ok i -> wl_map_lookup m' i = wl_map_lookup m i) /\ match res with inl _ => False | inr _ => True end).
  { intros e [= <- <- <-]. split; [by split|done]. }
  destruct (Z.ltb_spec size 8); [intros E; destruct (Hfail _ E) as (? & ? & ?); by destruct res|].
  destruct (wl_closure_init _ _ _) as [cl0|e] eqn:E0; [|intros E; destruct (Hfail _ E) as (? & ? & ?); by destruct res].
  rewrite (init_length _ _ _ E0).
  clear Hfail. unfold wl_connection_copy. rewrite inv_copy by (done || apply Hc). cbn [mbind option_bind].
  set (bytes := take (Z.to_nat size) (contents (conn_in c))).
  assert (Hbl : length bytes = Z.to_nat size) by (unfold bytes; rewrite length_take, contents_length; lia).
  replace (Z.to_nat (4 * (size / 4))) with (4 * (Z.to_nat size / 4))%nat by (rewrite <- (Z2Nat.inj_div _ 4) by lia; pose proof (Z.div_pos size 4); lia).
  destruct (read_words_8 bytes (Z.to_nat size)) as (p1 & Ep1 & p2 & Ep2); [lia|].
  destruct (whole_words bytes (Z.to_nat size / 4) (Forall_take _ _ _ Hb)) as [Hw|Hw]; [|pose proof (Nat.Div0.mul_div_le (Z.to_nat size) 4); lia].
  rewrite Ep1. cbn [mbind option_bind]. rewrite Ep2. cbn [mbind option_bind].
  assert (Hw2 : words p2).
  { destruct (read_word_spec _ Hw) as (w & q & E1 & _ & Q1 & L1); [intros E; by rewrite (nil_length_inv _ E) in Ep1|].
    rewrite Ep1 in E1. injection E1 as <- <-. destruct (read_word_spec _ Q1) as (w' & q' & E2 & _ & Q2 & _); [intros E; by rewrite (nil_length_inv _ E) in Ep2|].
    rewrite Ep2 in E2. by injection E2 as <- <-. }
  assert (Hr : reader_ok (Reader p2 c m)) by (split; [done|done|by exists l, T]).
  assert (E4 : take 4 bytes = take 4 (contents (conn_in c))) by (unfold bytes; rewrite take_take; f_equal; lia).
  assert (E8 : take 4 (drop 4 bytes) = take 4 (drop 4 (contents (conn_in c)))).
  { unfold bytes. rewrite !take_drop_commute, take_take. do 2 f_equal. lia. }
  destruct (demarshal_loop _ _ _ _ _) as [[r' out]|] eqn:El; [|done]. cbn [mbind option_bind].
  pose proof (loop_keeps bits _ _ _ _ _ _ _ Hr El) as [K1 K2]. cbn [rd_conn rd_objects] in *.
  pose proof (loop_connection _ _ _ _ _ _ _ Hr El) as Hreads. cbn [rd_conn] in Hreads.
  destruct Hreads as (R1 & R2 & R3 & R4).
  destruct out as [args|[e args]]; intros [= <- <- <-]; cbn [cl_sender_id cl_opcode].
  - split; [split; cbn; [done|by rewrite R4|rewrite R1; auto]|]. split; [done|]. rewrite E4, E8. split; [done|]. split; [done|]. split; [done|].
    apply (loop_fresh h _ [] (msg_signature message) [] (Reader p2 c m)) in El; [done|done|done|constructor].
  - split; [split; cbn; [done|by rewrite R4|rewrite R1; auto]|done].
Qed.

(** ** Requests *)

(** An argument as a handler gets it: of its type, and an object that is there and has the
    interface that the message asks for. *)
Definition shaped (d : wl_arg_type * bool) (type : option wl_interface) (a : wl_argument) : Prop :=
  match fst d with
  | WL_ARG_OBJECT =>
      match a with
      | ArgO None => snd d = true
      | ArgO (Some o) => 0 < obj_id o < 2 ^ 32 /\ forall t, type = Some t -> wl_interface_equal (obj_interface o) t = true
      | _ => False
      end
  | _ => arg_ok WL_MAP_SERVER_SIDE d a
  end.

Fixpoint all_shaped (ds : list (wl_arg_type * bool)) (types : list (option wl_interface)) (args : list wl_argument) : Prop :=
  match ds, args with
  | [], [] => True
  | d :: ds, a :: args => shaped d (default None (head types)) a /\ all_shaped ds (tail types) args
  | _, _ => False
  end.

Section Requests.
Context `{Protocol}.

(** A request that its object has, with the arguments of its signature. *)
Record request_ok (q : request) : Prop := {
  rq_method : methods (obj_interface (res_object (rq_resource q))) !! Z.to_nat (cl_opcode (rq_closure q)) = Some (cl_message (rq_closure q));
  rq_object : obj_id (res_object (rq_resource q)) = cl_sender_id (rq_closure q);
  rq_version : rq_legacy q = true \/ res_version (rq_resource q) <= 0 \/ wl_message_get_since (cl_message (rq_closure q)) <= res_version (rq_resource q);
  rq_args : all_shaped (arguments (msg_signature (cl_message (rq_closure q)))) (msg_types (cl_message (rq_closure q))) (cl_args (rq_closure q)) }.
End Requests.

(** The length in the header of a message. *)
Definition header_size (l : list Z) : Z := Z.shiftr (of_le32 (take 4 (drop 4 l))) 16.

(** The bytes of a request. *)
Record frame_of (f : list Z) (q : request) : Prop := {
  fo_length : 8 <= Z.of_nat (length f) <= WL_MAX_MESSAGE_SIZE;
  fo_size : header_size f = Z.of_nat (length f);
  fo_sender : cl_sender_id (rq_closure q) = of_le32 (take 4 f);
  fo_opcode : cl_opcode (rq_closure q) = Z.land (of_le32 (take 4 (drop 4 f))) 0xffff }.

(** Not a whole message yet. *)
Definition incomplete (l : list Z) : Prop := Z.of_nat (length l) < 8 \/ Z.of_nat (length l) < header_size l <= WL_MAX_MESSAGE_SIZE.

(** Looking up objects gives what handlers get. *)
Lemma resolved_shaped c ds types args : side (objects c) = WL_MAP_SERVER_SIDE ->
  (forall id, id_ok id -> wl_map_lookup (objects c) id <> 0 -> 0 < obj_id (object_at c (wl_map_lookup (objects c) id)) < 2 ^ 32) ->
  all_resolved (object_at c) (objects c) ds types args -> all_shaped ds types args.
Proof.
  intros Hs Hlive. revert types args. induction ds as [|d ds IH]; intros types args; [by destruct args|]. destruct args as [|a args]; [done|].
  intros [Ha Hr]. split; [|by apply IH]. revert Ha. unfold resolved, shaped. rewrite Hs. destruct (fst d); try done.
  destruct a as [| | | |[o|]| | |]; try done; [|by intros [|]]. intros [(id & Hok & Hid & ->) Ht]. split; [by apply Hlive|done].
Qed.

Lemma lookup_loop_fresh deref objects m ds signature types args args' : arguments signature = ds -> fresh_ids m ds args ->
  lookup_loop deref objects signature types args = Some (inl args') -> fresh_ids m ds args'.
Proof.
  intros E Hf. revert signature types args' E. induction Hf as [|d a ds args Ha Hf IH]; intros signature types args' E; cbn [lookup_loop].
  { intros [= <-]. constructor. }
  destruct (next_argument_spec _ _ _ _ E) as (signature' & En & Es). unfold get_next_argument. rewrite En.
  specialize (IH signature' (tail types)). destruct (lookup_loop deref objects signature' (tail types) args) as [[args1|e]|]; cbn [mbind option_bind].
  2-3: destruct d as [[] nullable], a; repeat match goal with |- context [if ?b then _ else _] => destruct b | |- context [match ?o with Some _ => _ | None => _ end] => destruct o end; done.
  specialize (IH args1 Es eq_refl).
  destruct d as [[] nullable], a; repeat match goal with |- context [if ?b then _ else _] => destruct b | |- context [match ?o with Some _ => _ | None => _ end] => destruct o end;
    try done; intros [= <-]; by constructor.
Qed.

(** Looking up objects does not touch descriptors. *)
Lemma lookup_loop_fds deref objects signature types args args' :
  lookup_loop deref objects signature types args = Some (inl args') -> all_fds args' = all_fds args.
Proof.
  revert signature types args'. induction args as [|a args IH]; intros signature types args'; cbn [lookup_loop]; [by intros [= <-]|].
  destruct (get_next_argument signature) as [signature' d]. specialize (IH signature' (tail types)).
  change (all_fds (?x :: ?l)) with (arg_fds x ++ all_fds l).
  assert (Hnext : forall a', arg_fds a' = arg_fds a ->
    (lookup_loop deref objects signature' (tail types) args ≫= fun r =>
       Some match r with inl args => inl (a' :: args) | inr e => inr e end) = Some (inl args') -> all_fds args' = arg_fds a ++ all_fds args).
  { intros a' Ha. destruct (lookup_loop _ _ _ _ _) as [[args1|e]|]; cbn [mbind option_bind]; try done. intros [= <-].
    change (all_fds (a' :: args1)) with (arg_fds a' ++ all_fds args1). by rewrite Ha, (IH args1 eq_refl). }
  destruct d as [[[] nullable]|], a; try (by apply Hnext); try done.
  destruct (_ && _ && _); [done|]. destruct (if _ || _ then None else _) as [o|], (default None (head types)); try (by apply Hnext).
  destruct (negb _); [done|]. by apply Hnext.
Qed.

(** ** One request *)

Section Dispatch.
Context `{Protocol} (bits : Z) (Hbits : limit_range bits) (handler : wl_client -> Z -> wl_closure -> list api_call).

(** Handlers respect the rules of the calls they make, for requests as they get them. *)
Definition lawful : Prop := forall c r res legacy cl, client_ok bits c -> resources c !! r = Some res -> res_client res = client_addr c ->
  request_ok (Request res legacy cl) -> fresh_ids (objects c) (arguments (msg_signature (cl_message cl))) (cl_args cl) ->
  allowed_list allowed (handler c r cl) c.
Context (Hlaw : lawful).

(** The client after a request was read. *)
Lemma read_client_ok c conn m : client_ok bits c -> conn_ok conn -> read_only bits (connection c) conn -> Forall byte (contents (conn_in conn)) ->
  map_good m -> (forall i, id_ok i -> wl_map_lookup m i = wl_map_lookup (objects c) i) ->
  client_ok bits (c <{ connection := conn }> <{ objects := m }>).
Proof.
  intros Hc Hconn [[R1 R2] R3 R4] Hb Hm Hl. destruct Hc as [H1 H2 [H0 H0'] H3 H4 H5 H6 H7 H8].
  apply (same_lookups bits (c <{ connection := conn }>)); [|done|done]. split; try done; cbn.
  - destruct H2 as [S1 S2]. split; [by rewrite R1|by rewrite R2].
  - by apply R4.
Qed.

(** What a request does to the client: an error; or it is handed to its handler. *)
Inductive outcome (c c' : wl_client) (more : bool) (size : Z) : Prop :=
| refused : more = false -> error c' = true -> served c' = served c -> outcome c c' more size
| handed q : request_ok q -> frame_of (take (Z.to_nat size) (contents (conn_in (connection c)))) q -> served c' = served c ++ [q] ->
    contents (conn_in (connection c')) = drop (Z.to_nat size) (contents (conn_in (connection c))) -> 8 <= size ->
    more = negb (error c') -> outcome c c' more size.

Lemma refuse c c1 code text : client_ok bits c1 -> served c1 = served c -> destroyed c1 = destroyed c -> 0 <= code < 2 ^ 32 -> Forall byte text ->
  exists c', post_display_error code text c1 = Some c' /\ client_ok bits c' /\ destroyed c' = destroyed c /\ error c' = true /\ served c' = served c.
Proof using Hbits.
  intros Hc Hs Hd Hcode Ht. destruct (post_display_error_sends bits Hbits code text c1 (ok_can_send _ _ Hc) Hcode Ht) as (c' & E & Hso & He).
  exists c'. split; [done|]. split; [by eapply sends_ok|]. split; [by rewrite (so_destroyed _ _ _ Hso)|].
  split; [done|]. by rewrite (so_served _ _ _ Hso).
Qed.

Lemma invoke_handled r res legacy cl c : client_ok bits c -> resources c !! r = Some res -> res_client res = client_addr c ->
  request_ok (Request res legacy cl) -> fresh_ids (objects c) (arguments (msg_signature (cl_message cl))) (cl_args cl) ->
  exists c', invoke handler r res legacy cl c = Some c' /\ client_ok bits c' /\ destroyed c' = destroyed c /\
    served c' = served c ++ [Request res legacy cl] /\ conn_in (connection c') = conn_in (connection c).
Proof using Hbits Hlaw.
  intros Hc Hr Hme Hq Hf. unfold invoke. cbv zeta. set (c1 := c <{ served ::= _ }>).
  assert (Hc1 : client_ok bits c1) by (destruct Hc; by split).
  destruct (run_apis_handled bits Hbits (handler c1 r cl) c1 Hc1) as (c2 & -> & [P1 P2 P3 P4 P5 P6]); [by apply (Hlaw c1 r res legacy)|].
  cbn [mbind option_bind]. eexists. split; [done|]. split; [|split; [done|split; [done|apply P2]]].
  eapply sends_ok; [|exact P1]. split; try done. apply out_only_closed, out_only_refl; apply P1.
Qed.

Ltac bytes_of_text := repeat first [apply codes_bytes | apply decimal_bytes | apply Forall_app; split].

(** What reading a request gives: the client as before, but for the bytes and the descriptors
    that were taken; and the request, or an error and the descriptors closed. *)
Record request_read (size : Z) (message : wl_message) (c c' : wl_client) (taken : list Z) : Prop := {
  rr_ok : client_ok bits c';
  rr_served : served c' = served c;
  rr_destroyed : destroyed c' = destroyed c;
  rr_resources : resources c' = resources c /\ client_addr c' = client_addr c;
  rr_input : contents (conn_in (connection c')) = drop (Z.to_nat size) (contents (conn_in (connection c)));
  rr_fds : contents (fds_in (connection c)) = taken ++ contents (fds_in (connection c')) }.

Definition closes (c c' : wl_client) (fds : list Z) : Prop :=
  exists before after, closed (os (connection c')) = closed (os (connection c)) ++ before ++ fds ++ after.

(** Posting the error, after [c1] has read the request. *)
Lemma refuse_request size message c c1 taken code text fds : request_read size message c c1 taken -> 0 <= code < 2 ^ 32 -> Forall byte text ->
  closed (os (connection c1)) = closed (os (connection c)) ++ fds ->
  exists c', post_display_error code text c1 = Some c' /\ error c' = true /\ request_read size message c c' taken /\
    exists after, closed (os (connection c')) = closed (os (connection c)) ++ fds ++ after.
Proof using Hbits.
  intros [R1 R2 R3 [R4 R4'] R5 R6] Hcode Ht Hcl.
  destruct (post_display_error_sends bits Hbits code text c1 (ok_can_send _ _ R1) Hcode Ht) as (c' & E & Hso & He).
  pose proof (so_out _ _ _ Hso) as [_ _ O1 O2 _ [after Oc]]. exists c'. split; [done|]. split; [done|]. split.
  - split; [by eapply sends_ok|..].
    + by rewrite (so_served _ _ _ Hso).
    + by rewrite (so_destroyed _ _ _ Hso).
    + by rewrite (so_resources _ _ _ Hso), (so_addr _ _ _ Hso).
    + by rewrite O1.
    + by rewrite O2.
  - exists after. by rewrite Oc, Hcl, <- app_assoc.
Qed.

Lemma read_request_spec name size message c : client_ok bits c -> Forall byte name ->
  0 <= size <= ring_buffer_size (conn_in (connection c)) ->
  let ds := arguments (msg_signature message) in
  exists c' request taken, read_request name size message c = Some (c', request) /\ request_read size message c c' taken /\
    match request with
    | Some cl => cl_message cl = message /\ all_resolved (object_at c') (objects c') ds (msg_types message) (cl_args cl) /\
        all_fds (cl_args cl) = decode_fds taken /\ closed (os (connection c')) = closed (os (connection c)) /\ error c' = error c /\
        fresh_ids (objects c') ds (cl_args cl) /\ 8 <= size /\ cl_sender_id cl = of_le32 (take 4 (contents (conn_in (connection c)))) /\
        cl_opcode cl = Z.land (of_le32 (take 4 (drop 4 (contents (conn_in (connection c)))))) 0xffff
    | None => error c' = true /\ closes c c' (open_fds (decode_fds taken))
    end.
Proof using Hbits.
  intros Hc Hname Hsize ds. unfold read_request. cbv zeta.
  set (c2 := allocated (allocated c)). assert (Hc2 : client_ok bits c2) by (destruct Hc; by split).
  destruct (cok_map _ _ Hc2) as (Hside & l & T & Hm & HT).
  destruct (demarshal_reads (ma_allocator (malloc (allocated c))) (has_memory (malloc c)) (connection c2) size (objects c2) l T message
    (cok_conn _ _ Hc2) (cok_bytes _ _ Hc2) Hm HT Hsize) as (conn & m & result & taken & E & (D1 & (l' & T' & Hm' & HT') & D3 & D4 & D5 & D6)).
  rewrite E. cbn [mbind option_bind].
  destruct (demarshal_rest bits _ _ _ _ _ _ _ _ _ (cok_conn _ _ Hc2) (cok_bytes _ _ Hc2) (cok_map _ _ Hc2) Hsize E) as (F1 & F2 & F3).
  set (c3 := c2 <{ connection := conn }> <{ objects := m }>).
  assert (Hc3 : client_ok bits c3).
  { apply read_client_ok; try done; [rewrite D4; apply Forall_drop, (cok_bytes _ _ Hc2)|]. split; [congruence|by exists l', T']. }
  assert (Hr3 : request_read size message c c3 taken) by (split; try done; exact D5).
  assert (Hinv : Forall byte (literal "invalid arguments for " ++ name)) by (apply Forall_app; split; [apply codes_bytes|done]).
  assert (Hnomem : Forall byte (literal "no memory")) by apply codes_bytes.
  destruct result as [cl|e].
  2:{ destruct (refuse_request size message c c3 taken WL_DISPLAY_ERROR_NO_MEMORY _ _ Hr3 ltac:(done) Hnomem D6) as (c4 & E4 & He4 & Hr4 & a4 & Hcl4).
    destruct (refuse_request size message c c3 taken WL_DISPLAY_ERROR_INVALID_METHOD _ _ Hr3 ltac:(done) Hinv D6) as (c5 & E5 & He5 & Hr5 & a5 & Hcl5).
    unfold wl_client_post_no_memory. destruct e; rewrite ?E4, ?E5; cbn [mbind option_bind];
      eexists _, None, taken; (split; [done|]; split; [done|]; split; [done|]); (by exists [], a4) || by exists [], a5. }
  destruct D6 as (G1 & G2 & G3 & G4). destruct F3 as (H8 & F4 & F5 & F6).
  unfold wl_closure_lookup_objects. rewrite G1.
  assert (Hside3 : side (objects c3) = WL_MAP_SERVER_SIDE) by (simpl; congruence).
  rewrite <- D3 in G2. destruct (lookup_loop_spec (object_at c3) (objects c3) _ (msg_signature message) (msg_types message) (cl_args cl)
    (or_introl Hside3) eq_refl G2) as (out & El & Hout). rewrite El. cbn [mbind option_bind]. destruct out as [args|e].
  - eexists _, (Some _), taken. split; [done|]. split; [done|]. split_and!; try done; cbn [cl_args cl_message cl_opcode cl_sender_id].
    + by rewrite (lookup_loop_fds _ _ _ _ _ _ El).
    + by apply (lookup_loop_fresh _ _ _ _ _ _ _ _ eq_refl F6 El).
  - destruct (refuse_request size message c c3 taken WL_DISPLAY_ERROR_INVALID_METHOD _ [] Hr3 ltac:(done) Hinv) as (c4 & -> & He4 & [R1 R2 R3 R4 R5 R6] & a4 & Hcl4);
      [by rewrite app_nil_r|]. cbn [mbind option_bind]. eexists _, None, taken. split; [done|]. split; [|split; [done|]].
    + split; try done. eapply sends_ok; [|exact R1]. split; try done. apply out_only_closed, out_only_refl; apply R1.
    + exists a4, []. simpl. rewrite Hcl4, app_nil_r. unfold wl_closure_destroy. rewrite G1, <- app_assoc.
      rewrite (close_fds_typed _ _ _ eq_refl (Forall2_impl _ _ _ _ G2 (arg_ok_typed _))), G3. done.
Qed.

(** The request is handed over. *)
Lemma hand_over c c3 r res legacy cl size : client_ok bits c3 -> served c3 = served c -> destroyed c3 = destroyed c ->
  resources c3 !! r = Some res -> res_client res = client_addr c3 ->
  methods (obj_interface (res_object res)) !! Z.to_nat (cl_opcode cl) = Some (cl_message cl) -> obj_id (res_object res) = cl_sender_id cl ->
  legacy = true \/ res_version res <= 0 \/ wl_message_get_since (cl_message cl) <= res_version res ->
  all_resolved (object_at c3) (objects c3) (arguments (msg_signature (cl_message cl))) (msg_types (cl_message cl)) (cl_args cl) ->
  fresh_ids (objects c3) (arguments (msg_signature (cl_message cl))) (cl_args cl) ->
  frame_of (take (Z.to_nat size) (contents (conn_in (connection c)))) (Request res legacy cl) -> 8 <= size ->
  contents (conn_in (connection c3)) = drop (Z.to_nat size) (contents (conn_in (connection c))) ->
  exists more c', (invoke handler r res legacy cl c3 ≫= fun c => Some (negb (error c), c)) = Some (more, c') /\
    client_ok bits c' /\ destroyed c' = destroyed c /\ outcome c c' more size.
Proof using Hbits Hlaw.
  intros Hc Hs Hd Hr Hme Hmeth Hobj Hver Hargs Hfresh Hframe H8 Hin.
  assert (Hq : request_ok (Request res legacy cl)).
  { split; try done. cbn. apply (resolved_shaped c3); [apply (cok_map _ _ Hc)| |done]. intros id Hid Hne.
    destruct (cok_live _ _ Hc id Hid Hne) as (res' & Hr' & Hme' & _). unfold object_at. rewrite Hr'. by apply (cok_named _ _ Hc _ _ Hr' Hme'). }
  destruct (invoke_handled r res legacy cl c3 Hc Hr Hme Hq) as (c' & -> & I1 & I2 & I3 & I4); [done|].
  cbn [mbind option_bind]. eexists _, c'. split; [done|]. split; [done|]. split; [congruence|].
  apply (handed c c' _ size (Request res legacy cl)); try done; [congruence|by rewrite I4].
Qed.

Lemma dispatch_spec id opcode size c : client_ok bits c -> let input := contents (conn_in (connection c)) in
  id = of_le32 (take 4 input) -> id_ok id -> opcode = Z.land (of_le32 (take 4 (drop 4 input))) 0xffff ->
  size = header_size input -> 0 <= size <= ring_buffer_size (conn_in (connection c)) -> size <= WL_MAX_MESSAGE_SIZE ->
  exists more c', dispatch handler id opcode size c = Some (more, c') /\ client_ok bits c' /\ destroyed c' = destroyed c /\ outcome c c' more size.
Proof using Hbits Hlaw.
  intros Hc input Eid Hid Eop Esize Hsize Hmax. unfold dispatch. cbv zeta. set (legacy := has_flag _ _).
  assert (Hstop : forall c1 code text, client_ok bits c1 -> served c1 = served c -> destroyed c1 = destroyed c -> 0 <= code < 2 ^ 32 -> Forall byte text ->
    exists more c', (post_display_error code text c1 ≫= fun c => Some (false, c)) = Some (more, c') /\ client_ok bits c' /\ destroyed c' = destroyed c /\ outcome c c' more size).
  { intros c1 code text Hc1 Hs Hd Hcode Ht. destruct (refuse c c1 code text Hc1 Hs Hd Hcode Ht) as (c' & -> & H1 & H2 & H3 & H4).
    eexists _, _. split; [done|]. split; [done|]. split; [done|]. by apply refused. }
  destruct (Z.eqb_spec (wl_map_lookup (objects c) id) 0) as [E0|E0]; [apply Hstop; try done; bytes_of_text|].
  destruct (cok_live _ _ Hc id Hid E0) as (res & Hr & Hme & Hrid). rewrite Hr. cbn [mbind option_bind].
  set (interface := obj_interface (res_object res)).
  destruct (Z.geb_spec opcode (Z.of_nat (length (methods interface)))) as [|Hop].
  { apply Hstop; try done. bytes_of_text. }
  assert (Hop0 : 0 <= opcode) by (rewrite Eop; by apply Z.land_nonneg; right).
  destruct (lookup_lt_is_Some_2 (methods interface) (Z.to_nat opcode)) as [message Hmeth]; [lia|]. rewrite Hmeth. cbn [mbind option_bind].
  set (name := name_of res ++ literal "." ++ codes (method_name interface opcode)).
  destruct (negb legacy && _ && _) eqn:Ev.
  { apply Hstop; try done. bytes_of_text. }
  assert (Hver : legacy = true \/ res_version res <= 0 \/ wl_message_get_since message <= res_version res).
  { apply andb_false_iff in Ev as [[Ev|Ev]%andb_false_iff|Ev]; [left; by destruct legacy|right; left; lia|right; right; lia]. }
  assert (Hname : Forall byte name) by bytes_of_text.
  destruct (read_request_spec name size message c Hc Hname Hsize) as (c3 & request & taken & -> & [R1 R2 R3 [R4 R4'] R5 R6] & Hreq).
  cbn [mbind option_bind]. destruct request as [cl|].
  2: { destruct Hreq as [He _]. eexists _, _. split; [done|]. split; [done|]. split; [done|]. by apply refused. }
  destruct Hreq as (G1 & G2 & _ & _ & _ & F6 & H8 & F4 & F5). rewrite <- G1 in *. fold input in F4, F5.
  assert (Hlen : length (take (Z.to_nat size) input) = Z.to_nat size) by (unfold input; rewrite length_take, contents_length; lia).
  apply (hand_over c c3); try done; [by rewrite R4|by rewrite R4'|by rewrite F5, <- Eop|congruence|].
  fold input. split; cbn [rq_closure]; rewrite ?Hlen.
  - lia.
  - unfold header_size. rewrite take_drop_commute, take_take, Nat.min_l, <- take_drop_commute by lia. fold (header_size input). lia.
  - rewrite take_take, Nat.min_l by lia. done.
  - rewrite take_drop_commute, take_take, Nat.min_l, <- take_drop_commute by lia. done.
Qed.

(** ** All requests *)

Lemma header_words l : Forall byte l -> (8 <= length l)%nat ->
  id_ok (of_le32 (take 4 l)) /\ 0 <= of_le32 (take 4 (drop 4 l)) < 2 ^ 32 /\ take 4 (take 8 l) = take 4 l /\ drop 4 (take 8 l) = take 4 (drop 4 l).
Proof.
  intros Hb Hl. destruct l as [|b1 [|b2 [|b3 [|b4 [|b5 [|b6 [|b7 [|b8 l]]]]]]]]; simpl in Hl; try lia. rewrite !Forall_cons in Hb.
  destruct Hb as (? & ? & ? & ? & ? & ? & ? & ? & _). cbn [take drop]. split; [by apply of_le32_range|]. split; [by apply of_le32_range|done].
Qed.

(** Requests that were handed over, and what is left of the input. *)
Record progress (c c' : wl_client) (frames : list (list Z)) (qs : list request) (rest : list Z) : Prop := {
  pg_ok : client_ok bits c';
  pg_destroyed : destroyed c' = destroyed c;
  pg_served : served c' = served c ++ qs;
  pg_frames : Forall2 frame_of frames qs;
  pg_requests : Forall request_ok qs;
  pg_input : contents (conn_in (connection c)) = concat frames ++ rest;
  pg_rest : error c' = false -> contents (conn_in (connection c')) = rest /\ incomplete rest }.

Lemma no_progress c c' : client_ok bits c' -> destroyed c' = destroyed c -> served c' = served c ->
  (error c' = false -> contents (conn_in (connection c')) = contents (conn_in (connection c)) /\ incomplete (contents (conn_in (connection c)))) ->
  progress c c' [] [] (contents (conn_in (connection c))).
Proof. intros H1 H2 H3 H4. split; try done. by rewrite app_nil_r. Qed.

Lemma dispatch_loop_spec fuel len c : client_ok bits c -> len = ring_buffer_size (conn_in (connection c)) ->
  (length (contents (conn_in (connection c))) < fuel)%nat ->
  exists c' frames qs rest, dispatch_loop handler fuel len c = Some c' /\ progress c c' frames qs rest.
Proof using Hbits Hlaw.
  revert len c. induction fuel as [|fuel IH]; intros len c Hc Elen Hf; [lia|]. cbn [dispatch_loop]. cbv zeta.
  pose proof (size_contents (conn_in (connection c))) as Esz. set (input := contents (conn_in (connection c))) in *.
  destruct (_ && _) eqn:E8; cbn [negb].
  2:{ exists c, [], [], input. split; [done|]. apply no_progress; try done. intros _. split; [done|]. left. fold input. lia. }
  unfold wl_connection_copy. rewrite inv_copy by (apply Hc || lia). cbn [mbind option_bind]. fold input. change (Z.to_nat 8) with 8%nat.
  destruct (header_words input (cok_bytes _ _ Hc) ltac:(lia)) as (Hid & Hword & -> & ->). fold (header_size input).
  assert (Hsz : 0 <= header_size input) by (apply Z.shiftr_nonneg; lia).
  destruct (Z.gtb_spec (header_size input) WL_MAX_MESSAGE_SIZE) as [Hbig|Hmax].
  { destruct (refuse c c WL_DISPLAY_ERROR_INVALID_METHOD (literal "message length " ++ decimal (header_size input) ++ literal " exceeds " ++ decimal WL_MAX_MESSAGE_SIZE)
      Hc eq_refl eq_refl ltac:(done)) as (c' & -> & H1 & H2 & H3 & H4); [bytes_of_text|].
    exists c', [], [], input. split; [done|]. apply no_progress; try done. congruence. }
  destruct (Z.ltb_spec len (header_size input)) as [Hlt|Hge].
  { exists c, [], [], input. split; [done|]. apply no_progress; try done. intros _. split; [done|]. right. fold input. lia. }
  destruct (dispatch_spec (of_le32 (take 4 input)) (Z.land (of_le32 (take 4 (drop 4 input))) 0xffff) (header_size input) c Hc eq_refl Hid eq_refl eq_refl)
    as (more & c1 & -> & Hc1 & Hd1 & Hout); [lia|done|]. cbn [mbind option_bind].
  destruct Hout as [-> He Hsv|q Hq Hfr Hsv Hin H8 ->].
  { exists c1, [], [], input. split; [done|]. apply no_progress; try done. congruence. }
  fold input in Hfr, Hin. destruct (error c1) eqn:Ee; cbn [negb].
  - eexists c1, [take (Z.to_nat (header_size input)) input], [q], (drop (Z.to_nat (header_size input)) input). split; [done|].
    split; [exact Hc1|exact Hd1|exact Hsv|by apply Forall2_cons|by apply Forall_cons| |congruence].
    cbn [concat]. fold input. by rewrite app_nil_r, take_drop.
  - assert (El : wl_connection_pending_input (connection c1) = ring_buffer_size (conn_in (connection c1))).
    { unfold wl_connection_pending_input, u32. apply Z.mod_small. pose proof (small_contents bits _ Hbits (co_in _ (cok_conn _ _ Hc1)) (proj1 (cok_small_in _ _ Hc1))).
      rewrite <- size_contents in *. pose proof (ring_size_range (conn_in (connection c1))). lia. }
    destruct (IH _ c1 Hc1 El) as (c' & frames & qs & rest & E & [P1 P2 P3 P4 P5 P6 P7]); [rewrite Hin, length_drop; lia|].
    exists c', (take (Z.to_nat (header_size input)) input :: frames), (q :: qs), rest. split; [done|].
    split; [exact P1|congruence|by rewrite P3, Hsv, <- app_assoc|by apply Forall2_cons|by apply Forall_cons| |exact P7].
    cbn [concat]. fold input. by rewrite <- app_assoc, <- P6, Hin, take_drop.
Qed.
End Dispatch.

(** ** Reading the input *)

Section Input.
Context (bits : Z) (Hbits : limit_range bits).

Lemma decode_small cmsgs overflow c c' o : small bits (fds_in c) -> decode_loop cmsgs overflow c = Some (c', o) ->
  small bits (fds_in c') /\ conn_in c' = conn_in c /\ received (os c') = received (os c).
Proof using Hbits.
  revert overflow c. induction cmsgs as [|[[] data] cmsgs IH]; intros overflow c Hs; cbn [decode_loop]; [by intros [= <- _]| |by apply IH].
  unfold ensure_fds_in, ensure. destruct (ring_buffer_ensure_space _ _ _) as [[b e]|] eqn:Ee; [|done]. cbn [mbind option_bind fst snd].
  apply small_ensure with (bits := bits) in Ee; [|done..]. destruct (match e with Some _ => true | None => overflow end).
  - destruct (close_loop _ _ _ _); [|done]. cbn [mbind option_bind]. intros E. apply IH in E; [exact E|done].
  - destruct (ring_buffer_put _ _) as [b2|] eqn:E2; [|done]. cbn [mbind option_bind]. intros E.
    apply small_put with (bits := bits) in E2; [|done]. apply IH in E; [exact E|done].
Qed.

(** The input after, and the bytes that were received. *)
Definition read_facts (answers : list recv_answer) (c c' : wl_connection) : Prop :=
  small bits (conn_in c') /\ small bits (fds_in c') /\
  exists new, received (os c') = received (os c) ++ new /\ (Forall (fun a => Forall byte (recv_bytes a)) answers -> Forall byte (wire_bytes new)).

Lemma read_loop_small answers c c' r : small bits (conn_in c) -> small bits (fds_in c) -> read_loop answers c = Some (c', r) -> read_facts answers c c'.
Proof using Hbits.
  revert c. induction answers as [|a answers IH]; intros c H1 H2; cbn [read_loop]; cbv zeta.
  all: assert (Hnone : forall c1, conn_in c1 = conn_in c \/ small bits (conn_in c1) -> fds_in c1 = fds_in c -> received (os c1) = received (os c) ->
    forall l, read_facts l c c1)
    by (intros c1 [E1|E1] E2 E3 l; (split; [by rewrite ?E1|]; split; [by rewrite E2|]; exists []; rewrite app_nil_r; by split)).
  all: destruct (ring_buffer_is_max_size_reached _); [intros [= <- _]; apply Hnone; auto|].
  all: unfold ensure_in, ensure; destruct (ring_buffer_ensure_space _ _ _) as [[b e]|] eqn:Ee; [|done]; cbn [mbind option_bind fst snd].
  all: apply small_ensure with (bits := bits) in Ee; [|done..]; destruct e as [e|]; [intros [= <- _]; apply Hnone; auto|].
  { intros [= <- _]. apply Hnone; auto. }
  destruct a as [bytes cmsgs|[]]; try (intros [= <- _]; apply Hnone; auto).
  - cbn [conn_in]. set (l := take _ bytes). destruct (length l =? 0)%nat; [intros [= <- _]; apply Hnone; auto|].
    destruct (scatter _ _ _) as [mem|]; [|done]. cbn [mbind option_bind]. unfold decode_cmsg.
    destruct (decode_loop _ _ _) as [[c2 o]|] eqn:Ed; [|done]. cbn [mbind option_bind fst snd]. apply decode_small in Ed as (D1 & D2 & D3); [|done].
    cbn in D2, D3. destruct o.
    + intros [= <- _]. split; [cbn; by rewrite D2|]. split; [done|]. exists [(l, rights cmsgs)]. split; [cbn; by rewrite D3|].
      intros Hf. apply Forall_cons in Hf as [Hf _]. unfold wire_bytes. simpl. rewrite app_nil_r. by apply Forall_take.
    + intros E. apply IH in E as (I1 & I2 & new & I3 & I4); [|cbn; by rewrite D2|done]. split; [done|]. split; [done|].
      exists ((l, rights cmsgs) :: new). split; [rewrite I3; cbn; by rewrite D3, <- app_assoc|].
      intros Hf. apply Forall_cons in Hf as [Hf1 Hf2]. unfold wire_bytes. simpl. apply Forall_app. split; [by apply Forall_take|by apply I4].
  - intros E. apply IH in E as (I1 & I2 & new & I3 & I4); [|done|done]. split; [done|]. split; [done|]. exists new. split; [done|].
    intros Hf. apply I4. by apply Forall_cons in Hf as [_ Hf].
Qed.

(** An error, and only without input that there is nothing to read. *)
Lemma read_error answers c c' n e : read_loop answers c = Some (c', (n, Some e)) -> n = -1 /\ (e = EAGAIN -> ring_buffer_size (conn_in c') = 0).
Proof.
  revert c. induction answers as [|a answers IH]; intros c; cbn [read_loop]; cbv zeta; (destruct (ring_buffer_is_max_size_reached _); [done|]).
  all: unfold ensure_in, ensure; destruct (ring_buffer_ensure_space _ _ _) as [[b e0]|] eqn:Ee; [|done]; cbn [mbind option_bind fst snd].
  all: assert (Eb : ring_buffer_size b = ring_buffer_size (conn_in c)) by (revert Ee; unfold ring_buffer_ensure_space, ring_buffer_allocate;
    destruct (_ >? _); [by intros [= <- _]|]; destruct (_ =? _); [by intros [= <- _]|]; destruct (next_alloc c); cbn [negb]; [|by intros [= <- _]];
    destruct (ring_buffer_copy _ _); [|done]; cbn [mbind option_bind]; destruct (store _ _ _); [|done]; intros [= <- _]; unfold ring_buffer_size at 1; cbn;
    unfold u64; rewrite Z.sub_0_r; apply Z.mod_small, ring_size_range).
  all: pose proof (ring_size_range (conn_in c)); destruct e0 as [e0|]; [by intros [= <- <- <-]|].
  { destruct (Z.gtb_spec (ring_buffer_size (conn_in c)) 0); [done|]. intros [= <- <- <-]. cbn. lia. }
  destruct a as [bytes cmsgs|[]]; try (by intros [= <- <- <-]).
  - destruct (_ =? 0)%nat; [done|]. destruct (scatter _ _ _) as [mem|]; [|done]. cbn [mbind option_bind]. unfold decode_cmsg.
    destruct (decode_loop _ _ _) as [[c2 o]|]; [|done]. cbn [mbind option_bind fst snd]. destruct o; [by intros [= <- <- <-]|]. apply IH.
  - destruct (Z.gtb_spec (ring_buffer_size (conn_in c)) 0); [done|]. intros [= <- <- <-]. cbn. lia.
  - apply IH.
Qed.
End Input.

(** What the kernel will give: whole descriptors, bytes, and not more than there can be. *)
Record socket_ok (k : kernel) : Prop := {
  sk_recv : Forall recv_ok (recvs k);
  sk_bytes : Forall (fun a => Forall byte (recv_bytes a)) (recvs k);
  sk_length : Z.of_nat (length (concat (map recv_bytes (recvs k)))) < 2 ^ 62;
  sk_rights : Z.of_nat (length (concat (map recv_rights (recvs k)))) < 2 ^ 62 }.

Section Receive.
Context `{Protocol} (bits : Z) (Hbits : limit_range bits).

(** A connection that keeps its output keeps the client. *)
Lemma with_connection c conn : client_ok bits c -> conn_ok conn -> small_out bits conn -> small bits (conn_in conn) /\ small bits (fds_in conn) ->
  Forall byte (contents (conn_in conn)) -> client_ok bits (c <{ connection := conn }>).
Proof. intros [H1 H2 H0 H3 H4 H5 H6 H7 H8] K1 K2 K3 K4. by split. Qed.

(** The input of the client after it was read. *)
Record received_input (mask : Z) (c : wl_client) (len : option Z) (c1 : wl_client) (new : list (list Z * list Z)) (bytes : list Z) : Prop := {
  ri_served : served c1 = served c;
  ri_received : received (os (connection c1)) = received (os (connection c)) ++ new;
  ri_bytes : contents (conn_in (connection c1)) = contents (conn_in (connection c)) ++ bytes;
  ri_prefix : bytes `prefix_of` wire_bytes new;
  ri_rest : match len with
    | None => destroyed c1 = true
    | Some len => client_ok bits c1 /\ destroyed c1 = destroyed c /\ bytes = wire_bytes new /\
        (len = ring_buffer_size (conn_in (connection c1)) \/ len <= 0 /\ (has_flag mask WL_EVENT_READABLE = true -> contents (conn_in (connection c1)) = []))
    end }.

Lemma read_client c : client_ok bits c -> socket_ok (os (connection c)) ->
  exists conn len e new bytes, wl_connection_read (connection c) = Some (conn, (len, e)) /\ conn_ok conn /\
    received (os conn) = received (os (connection c)) ++ new /\ contents (conn_in conn) = contents (conn_in (connection c)) ++ bytes /\
    bytes `prefix_of` wire_bytes new /\ (e <> Some EOVERFLOW -> bytes = wire_bytes new) /\ client_ok bits (c <{ connection := conn }>) /\
    (e = None -> len = ring_buffer_size (conn_in conn)) /\ (e <> None -> len = -1) /\ (e = Some EAGAIN -> contents (conn_in conn) = []).
Proof using Hbits.
  intros Hc [K1 K2 K3 K4]. destruct (cok_small_in _ _ Hc) as [Hs1 Hs2].
  pose proof (small_contents _ _ Hbits (co_in _ (cok_conn _ _ Hc)) Hs1) as L1.
  pose proof (small_contents _ _ Hbits (fr_inv _ (co_fds_in _ (cok_conn _ _ Hc))) Hs2) as L2.
  destruct (read_loop_spec (recvs (os (connection c))) (connection c) (cok_conn _ _ Hc) K1) as (conn & [len e] & new & bytes & kept & gone & E & R); [lia..|].
  destruct R as [R1 R2 R3 R4 R5 R6 R7 R8 R9 [R10 R11]]. cbn [fst snd] in *. exists conn, len, e, new, bytes. split; [done|].
  destruct (read_loop_small bits Hbits _ _ _ _ Hs1 Hs2 E) as (S1 & S2 & new' & S3 & S4). rewrite R2 in S3. apply app_inv_head in S3 as <-.
  split; [done|]. split; [done|]. split; [done|]. split; [done|]. split; [by intros He; apply R8|]. split; [|split; [|split]].
  - apply with_connection; try done.
    + destruct (cok_small _ _ Hc) as [O1 O2]. split; [by rewrite R10|by rewrite R11].
    + rewrite R3. apply Forall_app. split; [apply (cok_bytes _ _ Hc)|]. destruct R7 as [more Ew]. specialize (S4 K2). rewrite Ew in S4.
      by apply Forall_app in S4 as [? _].
  - intros ->. rewrite (R9 eq_refl). pose proof (small_contents _ _ Hbits (co_in _ R1) S1) as L3. rewrite <- size_contents in L3.
    pose proof (ring_size_range (conn_in conn)). unfold i32, u32. rewrite Z.mod_small by lia. by replace (_ <? 2 ^ 31) with true by lia.
  - destruct e; [|done]. by apply read_error in E as [-> _].
  - intros ->. apply read_error in E as [_ E]. apply nil_length_inv. rewrite contents_length. by rewrite E.
Qed.

Lemma flush_output_spec mask c : client_ok bits c -> exists go c1, flush_output mask c = Some (go, c1) /\ client_ok bits c1 /\ served c1 = served c /\
  contents (conn_in (connection c1)) = contents (conn_in (connection c)) /\
  received (os (connection c1)) = received (os (connection c)) /\ recvs (os (connection c1)) = recvs (os (connection c)) /\
  (if go : bool then destroyed c1 = destroyed c else destroyed c1 = true).
Proof using Hbits.
  intros Hc. unfold flush_output. destruct (has_flag mask WL_EVENT_WRITABLE); [|by exists true, c].
  destruct (flush_out bits (connection c) (cok_conn _ _ Hc) (cok_small _ _ Hc)) as (conn & [len e] & -> & [O1 O2 O3 O4 O5] & Hrec). cbn [mbind option_bind]. cbv zeta.
  assert (Hc1 : client_ok bits (c <{ connection := conn }>)).
  { apply with_connection; [done|done|done| |]; rewrite ?O3, ?O4; apply Hc. }
  destruct (_ && _); [|destruct (_ >=? 0)]; eexists _, _; (split; [done|]; split; [destruct Hc1; by split|]; cbn; by rewrite O3).
Qed.

Lemma receive_input_spec mask c : client_ok bits c -> socket_ok (os (connection c)) ->
  exists len c1 new bytes, receive_input mask c = Some (len, c1) /\ received_input mask c len c1 new bytes.
Proof using Hbits.
  intros Hc Hsock. unfold receive_input.
  destruct (flush_output_spec mask c Hc) as (go & c1 & -> & Hc1 & Hs1 & Hin1 & Hrec1 & Hrecvs1 & Hd1). cbn [mbind option_bind].
  destruct go; cbn [negb].
  2:{ exists None, c1, [], []. split; [done|]. split; try done; by rewrite app_nil_r. }
  destruct (has_flag mask WL_EVENT_READABLE) eqn:Er.
  2:{ exists (Some 0), c1, [], []. split; [done|]. split; try done; [by rewrite app_nil_r..|]. split; [done|]. split; [done|]. split; [done|].
      right. split; [done|]. by rewrite Er. }
  destruct (read_client c1 Hc1) as (conn & len & e & new & bytes & -> & R1 & R2 & R3 & R4 & R5 & R6 & R7 & R9 & R8).
  { destruct Hsock. split; by rewrite Hrecvs1. }
  cbn [mbind option_bind]. cbv zeta. destruct (_ || _) eqn:Edead.
  - exists None, (wl_client_destroy (c1 <{ connection := conn }>)), new, bytes. split; [done|]. split; try done; cbn; congruence.
  - exists (Some len), (c1 <{ connection := conn }>), new, bytes. split; [done|]. split; [done|cbn; congruence|cbn; congruence|done|].
    split; [done|]. split; [done|]. destruct e as [e|]; [|split; [by apply R5|left; by apply R7]]. rewrite R9 in * by done.
    destruct e; try done. split; [by apply R5|]. right. split; [lia|]. by intros _; apply R8.
Qed.
End Receive.

(** C9. Serving a client: whatever bytes and descriptors a client sends and in whatever parts,
    with handlers that respect the rules of the calls they make, and whether there is memory
    or not, a round of the server ends and follows only pointers to resources that exist.
    The requests that it hands to handlers are exactly the whole messages at the front of
    the input, in order and once each, and each is one that its object has in its version,
    with arguments of its signature; what stays is less than a message.  The table of objects
    and the resources keep naming each other; anything else ends with the destruction of the
    client. *)
Theorem requests_served `{Protocol} bits handler mask c : limit_range bits -> client_ok bits c -> lawful bits handler ->
  socket_ok (os (connection c)) -> has_flag mask WL_EVENT_HANGUP = false -> has_flag mask WL_EVENT_ERROR = false ->
  exists len c1 new bytes, receive_input mask c = Some (len, c1) /\ received_input bits mask c len c1 new bytes /\
    forall fuel, (length (contents (conn_in (connection c1))) < fuel)%nat ->
      exists c' frames qs rest, wl_client_connection_data handler fuel mask c = Some c' /\
        served c' = served c ++ qs /\ Forall2 frame_of frames qs /\ Forall request_ok qs /\
        contents (conn_in (connection c)) ++ bytes = concat frames ++ rest /\
        (destroyed c' = false -> client_ok bits c' /\ bytes = wire_bytes new /\ contents (conn_in (connection c')) = rest /\
          (has_flag mask WL_EVENT_READABLE = true -> incomplete rest)).
Proof.
  intros Hbits Hc Hlaw Hsock Hh He. destruct (receive_input_spec bits Hbits mask c Hc Hsock) as (len & c1 & new & bytes & E & R).
  exists len, c1, new, bytes. split; [done|]. split; [done|]. intros fuel Hfuel. unfold wl_client_connection_data. rewrite Hh, He, E.
  cbn [mbind option_bind]. destruct R as [R1 R2 R3 R4 R5]. rewrite <- R3. destruct len as [len|].
  2:{ exists c1, [], [], (contents (conn_in (connection c1))). split; [done|]. split; [by rewrite app_nil_r|]. split; [done|]. split; [done|].
      split; [done|]. congruence. }
  destruct R5 as (Hc1 & Hd1 & Hb & Hlen).
  assert (Hloop : exists c' frames qs rest, dispatch_loop handler fuel len c1 = Some c' /\ client_ok bits c' /\ served c' = served c1 ++ qs /\
    Forall2 frame_of frames qs /\ Forall request_ok qs /\ contents (conn_in (connection c1)) = concat frames ++ rest /\
    (error c' = false -> contents (conn_in (connection c')) = rest /\ (has_flag mask WL_EVENT_READABLE = true -> incomplete rest))).
  { destruct Hlen as [->|[Hneg Hempty]].
    - destruct (dispatch_loop_spec bits Hbits handler Hlaw fuel _ c1 Hc1 eq_refl Hfuel) as (c' & frames & qs & rest & E' & [P1 P2 P3 P4 P5 P6 P7]).
      exists c', frames, qs, rest. do 6 (split; [done|]). intros Hne. destruct (P7 Hne) as [-> Hi]. done.
    - destruct fuel as [|fuel]; [lia|]. cbn [dispatch_loop]. replace ((0 <=? len) && (8 <=? len)) with false by lia. cbn [negb].
      exists c1, [], [], (contents (conn_in (connection c1))). split; [done|]. split; [done|]. split; [by rewrite app_nil_r|]. do 3 (split; [done|]).
      intros _. split; [done|]. intros Hr. rewrite (Hempty Hr). left. simpl. lia. }
  destruct Hloop as (c' & frames & qs & rest & -> & L1 & L2 & L3 & L4 & L5 & L6). cbn [mbind option_bind]. rewrite R1 in L2.
  exists (if error c' then wl_client_destroy c' else c'), frames, qs, rest. split; [done|]. split; [by destruct (error c')|].
  do 3 (split; [done|]). destruct (error c') eqn:Ee; [done|]. intros _. split; [done|]. split; [done|]. by apply L6.
Qed.

(** C10. Requests are checked: for any bytes of a client and any message description, reading a
    request and looking up its objects stays within the memory of the message and of the queues,
    takes the bytes of the request and nothing more from the input, and gives arguments of
    exactly the types of the signature (numbers in range, terminated strings without zero bytes,
    ids of new objects on the client's side and not in use, nothing null that may not be), each
    object one of the client's objects, with the interface that the message asks for, and the
    descriptors taken for it still open. A request that is not like that - malformed, without
    memory for it, or naming an object that is not there or of another interface - ends in an
    error for the client, and every descriptor that was taken for it is closed. *)
Theorem requests_well_typed `{Protocol} bits name size message c : limit_range bits -> client_ok bits c -> Forall byte name ->
  0 <= size <= ring_buffer_size (conn_in (connection c)) ->
  let ds := arguments (msg_signature message) in
  exists c' request taken, read_request name size message c = Some (c', request) /\ client_ok bits c' /\
    contents (conn_in (connection c')) = drop (Z.to_nat size) (contents (conn_in (connection c))) /\
    contents (fds_in (connection c)) = taken ++ contents (fds_in (connection c')) /\
    match request with
    | Some cl => cl_message cl = message /\ all_resolved (object_at c') (objects c') ds (msg_types message) (cl_args cl) /\
        fresh_ids (objects c') ds (cl_args cl) /\ all_fds (cl_args cl) = decode_fds taken /\
        closed (os (connection c')) = closed (os (connection c)) /\ error c' = error c
    | None => error c' = true /\ closes c c' (open_fds (decode_fds taken))
    end.
Proof.
  intros Hbits Hc Hname Hsize. destruct (read_request_spec bits Hbits name size message c Hc Hname Hsize)
    as (c' & request & taken & E & [R1 _ _ _ R5 R6] & Hreq).
  exists c', request, taken. split_and!; try done. destruct request as [cl|]; [|done].
  destruct Hreq as (? & ? & ? & ? & ? & ? & _). by split_and!.
Qed.

(** ** An example: a client asks for a callback *)

Definition example_display : wl_interface := Interface 100 (String.list_ascii_of_string "wl_display").
Definition example_callback : wl_interface := Interface 200 (String.list_ascii_of_string "wl_callback").

#[local] Instance example_protocol : Protocol := {|
  methods i := if iface_addr i =? 100 then [Message (String.list_ascii_of_string "n") [Some example_callback]] else [];
  method_name i opcode := String.list_ascii_of_string "sync";
  events i := if iface_addr i =? 100 then [Message (String.list_ascii_of_string "ous") [None; None; None]; Message (String.list_ascii_of_string "u") [None]] else [];
  wl_display_interface := example_display;
  display_error_event := ex_intro _ _ eq_refl;
  display_delete_id_event := ex_intro _ _ eq_refl |}.

(** It makes the new object, where there is memory. *)
Definition example_handler (c : wl_client) (r : Z) (cl : wl_closure) : list api_call :=
  match cl_args cl with
  | [ArgN id] => if bool_decide (resources c !! 64 = None) then [CreateResource 64 example_callback 1 id] else []
  | _ => []
  end.

Lemma example_lawful bits : lawful bits example_handler.
Proof.
  intros c r res legacy cl _ _ _ [_ _ _ Hargs] Hfresh. cbn [rq_closure] in Hargs. unfold example_handler.
  destruct (cl_args cl) as [|[| | | | |id| |] [|]]; try done. destruct (bool_decide_reflect (resources c !! 64 = None)) as [Hn|]; [|done].
  split; [|done]. destruct (arguments _) as [|d [|]]; try done; [|by destruct Hargs]. destruct Hargs as [Ha _].
  apply Forall2_cons in Hfresh as [Hf _]. unfold shaped in Ha. destruct d as [[] nullable]; try done. destruct Ha as (Hid & Hne & Hown).
  split; [by split|]. split; [done|]. split; [done|]. right. split; [|by apply Hf].
  unfold own_id, WL_MAP_SERVER_SIDE, WL_MAP_CLIENT_SIDE in Hown. destruct (Z.ltb_spec id WL_SERVER_ID_START); [|done]. unfold id_ok in Hid. lia.
Qed.

(** The objects of a new client: none, and the display. *)
Definition example_objects : wl_map :=
  default (wl_map_init WL_MAP_SERVER_SIDE) (wl_map_insert_at (Allocator true 0) (wl_map_init WL_MAP_SERVER_SIDE) 0 0 0 ≫= fun r =>
    fst <$> wl_map_insert_at (Allocator true 0) (fst r) 0 1 32).

Lemma example_objects_good : map_good example_objects /\ forall i, id_ok i -> wl_map_lookup example_objects i = if i =? 1 then 32 else 0.
Proof.
  destruct (init_represents WL_MAP_SERVER_SIDE) as [Hm HT]; [by left|].
  destruct (insert_at_lookups (Allocator true 0) _ _ _ 0 0 Hm HT eq_refl) as (m1 & e1 & E1 & (Hs1 & l1 & T1 & Hm1 & HT1) & Hl1 & _); [done|apply aligned_0|done|].
  vm_compute in E1. injection E1 as <- <-.
  destruct (insert_at_lookups (Allocator true 0) _ _ _ 1 32 Hm1 HT1 Hs1) as (m2 & e2 & E2 & Hg & Hl2 & _); [done|done|done|].
  vm_compute in E2. injection E2 as <- <-. split; [exact Hg|]. intros i Hi. etransitivity; [exact (Hl2 i Hi)|]. rewrite Hl1 by done.
  destruct (Z.eqb_spec i 1) as [->|Hne]; [by rewrite bool_decide_eq_true_2|]. rewrite bool_decide_eq_false_2 by naive_solver.
  rewrite (lookup_table _ _ _ i Hm HT Hi), lookup_empty. by destruct (bool_decide _).
Qed.

(** The input: a whole request for the object 2, and the start of another one. *)
Definition example_kernel_in : kernel := Kernel [] [Received (le32 1 ++ le32 (Z.shiftl 12 16) ++ le32 2 ++ [1; 0; 0]) []] [] [] [] [].
Definition example_server_connection : wl_connection :=
  default (Conn ring_zero ring_zero ring_zero ring_zero false example_kernel_in) (wl_connection_create example_kernel_in (2 ^ 20)).
Definition example_wl_client : wl_client :=
  Client 7 example_server_connection WL_EVENT_READABLE (Some 32) example_objects false {[32 := Resource (Object example_display 1) 7 1 false]} [] [] false.

Lemma example_wl_client_ok : client_ok 20 example_wl_client.
Proof.
  destruct (create_spec example_kernel_in (2 ^ 20) ltac:(lia)) as (c & E & Hc & _ & _ & H1 & H2 & _).
  assert (Ec : connection example_wl_client = c) by (unfold example_wl_client, example_server_connection; cbn [connection]; by rewrite E).
  destruct example_objects_good as [Hg Hl]. split.
  - by rewrite Ec.
  - vm_compute. done.
  - vm_compute. done.
  - rewrite Ec, H1. constructor.
  - exact Hg.
  - intros i Hi. cbn [objects example_wl_client]. rewrite Hl by done. destruct (Z.eqb_spec i 1) as [->|]; [|done]. intros _. by eexists.
  - intros r res. unfold example_wl_client at 1. cbn [resources]. intros [<- <-]%lookup_singleton_Some _. cbn [res_object obj_id objects example_wl_client]. split; [done|]. by rewrite Hl.
  - intros r res. unfold example_wl_client. cbn [resources]. intros [<- <-]%lookup_singleton_Some. done.
  - exists 32. by eexists.
Qed.

Lemma example_socket_fits : socket_ok (os (connection example_wl_client)).
Proof.
  replace (os (connection example_wl_client)) with example_kernel_in by (vm_compute; reflexivity). split; [| |reflexivity|reflexivity].
  - apply Forall_singleton. cbn. apply Forall_nil_2.
  - apply Forall_singleton. vm_compute. repeat (apply Forall_cons; split; [split; [discriminate|reflexivity]|]). apply Forall_nil_2.
Qed.

Lemma requests_served_witness :
  exists len c1 new bytes, receive_input WL_EVENT_READABLE example_wl_client = Some (len, c1) /\
    received_input 20 WL_EVENT_READABLE example_wl_client len c1 new bytes /\
    forall fuel, (length (contents (conn_in (connection c1))) < fuel)%nat ->
      exists c' frames qs rest, wl_client_connection_data example_handler fuel WL_EVENT_READABLE example_wl_client = Some c' /\
        served c' = served example_wl_client ++ qs /\ Forall2 frame_of frames qs /\ Forall request_ok qs /\
        contents (conn_in (connection example_wl_client)) ++ bytes = concat frames ++ rest /\
        (destroyed c' = false -> client_ok 20 c' /\ bytes = wire_bytes new /\ contents (conn_in (connection c')) = rest /\
          (has_flag WL_EVENT_READABLE WL_EVENT_READABLE = true -> incomplete rest)).
Proof.
  apply (requests_served 20 example_handler WL_EVENT_READABLE example_wl_client).
  - split; [discriminate|discriminate].
  - exact example_wl_client_ok.
  - exact (example_lawful 20).
  - exact example_socket_fits.
  - reflexivity.
  - reflexivity.
Defined.

(** The request is served: the callback is there, and three bytes wait for more. *)
Example example_served : (fun c => (map (fun q => cl_args (rq_closure q)) (served c), wl_map_lookup (objects c) 2, contents (conn_in (connection c)), destroyed c)) <$>
  wl_client_connection_data example_handler 16 WL_EVENT_READABLE example_wl_client = Some ([[ArgN 2]], 64, [1; 0; 0], false).
Proof. vm_compute. reflexivity. Qed.

(** A request with an object that is not there and a descriptor. *)
Definition example_kernel_fd : kernel := Kernel [] [Received (le32 1 ++ le32 (Z.shiftl 12 16) ++ le32 5) [(true, le32 9)]] [] [] [] [].
Definition example_fd_connection : wl_connection :=
  default (Conn ring_zero ring_zero ring_zero ring_zero false example_kernel_fd) (wl_connection_create example_kernel_fd (2 ^ 20)).
Definition example_fd_client : wl_client := example_wl_client <{ connection := example_fd_connection }>.
Definition example_fd_read : wl_client := from_option snd example_fd_client (receive_input WL_EVENT_READABLE example_fd_client).
Definition example_fd_message : wl_message := Message (String.list_ascii_of_string "oh") [None; None].

Lemma example_fd_client_ok : client_ok 20 example_fd_client /\ socket_ok (os (connection example_fd_client)).
Proof.
  destruct (create_spec example_kernel_fd (2 ^ 20) ltac:(lia)) as (c & E & Hc & _ & _ & H1 & H2 & _).
  assert (Ec : connection example_fd_client = c) by (change (example_fd_connection = c); unfold example_fd_connection; by rewrite E).
  pose proof example_wl_client_ok as []. split; [split; try done|].
  - by rewrite Ec.
  - replace (os (connection example_fd_client)) with example_kernel_fd by (vm_compute; reflexivity). split; [| |reflexivity|reflexivity].
    + apply Forall_singleton. cbn. by apply Forall_singleton.
    + apply Forall_singleton. vm_compute. repeat (apply Forall_cons; split; [split; [discriminate|reflexivity]|]). apply Forall_nil_2.
Qed.

Lemma example_fd_read_ok : client_ok 20 example_fd_read.
Proof.
  destruct (receive_input_spec 20 ltac:(split; discriminate) WL_EVENT_READABLE example_fd_client) as (len & c1 & new & bytes & E & [_ _ _ _ R]);
    [apply example_fd_client_ok..|].
  unfold example_fd_read. rewrite E. destruct len as [len|]; [apply R|]. vm_compute in E. done.
Qed.

Lemma requests_well_typed_witness : exists c' request taken,
  read_request [] 12 example_fd_message example_fd_read = Some (c', request) /\ client_ok 20 c' /\
  contents (fds_in (connection example_fd_read)) = taken ++ contents (fds_in (connection c')) /\
  match request with Some _ => True | None => error c' = true /\ closes example_fd_read c' (open_fds (decode_fds taken)) end.
Proof.
  destruct (requests_well_typed 20 [] 12 example_fd_message example_fd_read) as (c' & request & taken & E & H1 & _ & H3 & H4).
  - split; discriminate.
  - exact example_fd_read_ok.
  - constructor.
  - vm_compute. split; discriminate.
  - exists c', request, taken. split; [exact E|]. split; [exact H1|]. split; [exact H3|]. by destruct request.
Defined.

(** The descriptor 9 is closed. *)
Example example_fd_closed : (fun r => (bool_decide (snd r = None), closed (os (connection (fst r))))) <$>
  read_request [] 12 example_fd_message example_fd_read = Some (true, [9]).
Proof. vm_compute. reflexivity. Qed.
